(* ===== verification/_CoqProject ===== *)
-Q . S2P
Prelude.v
Float64.v
KeyHash.v
HashRange.v
Config.v
Placement.v
Transition.v
S3Op.v
S3Names.v
Route.v
Backend.v
Scopes.v
Directory.v
Admission.v
ApplyFacts.v
Steps.v
Fence.v
MoveFence.v
Validate.v
Store.v
Runtime.v
Keeper.v
Listing.v
OpRecord.v
OpStore.v
Drain.v
Barrier.v
BarrierSafe.v
ScopeWrites.v
DirBarrier.v
Fleet.v
Crypto.v
Strconv.v
Civil.v
Chunked.v
ChunkEncode.v
ChunkedSafe.v
ChunkedAuth.v
ChunkReframe.v
SigV4.v
TextFacts.v
SigV4Safe.v
SignVerify.v
BodyPlan.v
Conditional.v
Resign.v
ResignSafe.v
Mover.v
MoverSafe.v
MoverRoute.v
Purge.v
PurgeSafe.v
MoverCases.v
Exchange.v
SpreadList.v
SpreadDelete.v
CpStore.v
CpFollow.v
CpWrite.v
CpNodes.v
CpSafe.v
CpAudit.v
CpCases.v
