(* ===== verification/Prelude.v ===== *)
(** * shunt: a verification development

    shunt is an S3 front end: clients talk to it, it routes every request to one of several backend
    clusters, and it moves buckets between clusters while clients keep writing.  Front ends (proxies)
    route by a directory, a versioned map from client buckets to placements, which they read at their
    own pace.  A control plane changes the directory under operations; a change that moves writes is
    first written as a hold, the fleet drains, and then it is committed.

    ** The files, and the code they model (paths under src/internal)

    - Prelude: results, strings, 64-bit integers, tactics and hints.  Float64: Go's float64.
    - KeyHash (migrate/route.go rampHash, mix64) and HashRange (directory/legs.go, moves.go reassign,
      scopes.go OwnerIn): the hash of a key and the tables of hash ranges that split a bucket.
    - Config (config/barrier.go, config.go, validate.go): clusters and barriers.
    - Placement (directory/directory.go, legs.go, moves.go, scopes.go): one bucket's placement in both
      schemas.  Transition (directory/transition.go, moves.go): [Apply], the step table of migrations.
    - S3Op, S3Names (s3/op.go, classify.go, request.go, bucketname.go, listingkey.go, credential.go,
      migrate/uploadid.go, directory/names.go): operations, names and addresses.
    - Route (migrate/route.go) and Backend (proxy/resign.go route): which backend a request goes to.
    - Scopes (directory/scopes.go): prefix rules, carve, merge, the legs of a listing.
    - Directory (directory/directory.go, mutations.go, identity.go): the file and its mutations.
    - Validate (directory/validate.go, identity.go) and Store (directory/file.go): validation, and the
      store of one file shared by several instances.
    - Steps, ApplyFacts, Fence, MoveFence: what [Apply] does, and the write fence.
    - Admission (admission/admission.go), Runtime (runtimecfg/runtimecfg.go), Keeper (proxy/gates.go):
      the gates of a front end, the bundles its requests hold, and the hooks that drive the gates.
    - Listing (proxy/merge.go): the merged listing of a migrating bucket.
    - OpRecord, OpStore (control/operation.go, scope.go): operation records and their store.
    - Drain (control/barrier.go drainBlockers, ops.go versionBlockers, fleet.go): what a drain waits for.
    - Barrier, BarrierSafe (control/barrier.go, operation.go): an operation's hold, drain and commit, and
      its cancellation, as programs of atomic actions that interleave.
    - ScopeWrites, DirBarrier (control/ops.go, readonly.go): the directory writes of ramp, migrate, cutover,
      purge and read-only, and the barrier over a real directory instead of an abstract scope.
    - Fleet (control/fleet.go, cp/fleet.go): the fleet table, leases, heartbeats and retirement.
    - Crypto, Strconv, Civil: digests as parameters with what HMAC is made of, Go's number syntax, and
      calendar dates.  TextFacts: lemmas on texts.
    - Chunked, ChunkEncode (sigv4/chunked): the reader of signed chunked bodies with its stash, and both
      encoders.  ChunkedSafe, ChunkedAuth, ChunkReframe: round trip, authenticity, and re-framing.
    - SigV4 (sigv4/canonical.go, sign.go, payload.go, verify.go): canonical requests, signing and
      verification.  SigV4Safe, SignVerify: what an accepted signature covers, and that they agree.
    - BodyPlan (proxy/auth.go, headers.go): the body and the headers sent on.  Conditional
      (proxy/conditional.go): conditional writes judged over two clusters.
    - Resign (proxy/resign.go prepareResign, crosscopy.go resolveCopySource, buckets.go): a request from
      its arrival to what is sent, in a monad of refusals and held tokens.  ResignSafe: its properties.
    - Mover (mover/mover.go, run.go): the mover as programs of requests.  MoverSafe: two backends and
      clients that interleave with it, a logic for such programs, and its properties.  MoverRoute: what
      its jobs assume of the router.  MoverCases: a migration through the request path and the mover.
    - Purge (control/backend.go, ops.go purge-source): the listings, the diff and the deletes that remove a
      drained source, as programs of requests.  PurgeSafe: what they delete, whatever clients do.
    - Exchange (proxy/handler.go, copy.go, buckets.go, gates.go): the attempts at a backend, the relay of
      its answer, and what the proxy learns of an outcome.
    - SpreadList (proxy/spreadlist.go): the listing of a bucket spread over legs, page by page.
      SpreadDelete (proxy/spreaddelete.go): a multi-object delete that is sent leg by leg.
    - CpStore (cp/store.go, crypt.go): the directory in etcd, its keys and transactions, loads, watches,
      every operation and the change log.  CpFollow, CpWrite: what a state and a transaction say of the
      keys.  CpNodes, CpSafe, CpAudit: control nodes over one history, and what they keep.  CpCases: runs.

    ** What the theorems show

    Routing: a table [checkOwners] accepts gives every hash one owner and the binary search finds it;
    carve and merge change no key's owner; a listing reads every leg that can hold a key; shares and
    ranges stay in bounds.  Migrations: [Apply] ends, keeps placements well formed, and every step it
    fences is one across which two front ends, one on the old and one on the new placement, never write
    a key to different backends and each reads where the other writes; the end of a move hands over
    exactly the moved keys.  Directory: a valid file has no shared backend bucket and only placements
    the routing theorems apply to; a store operation is an atomic, stamped, validated step to the next
    version or changes nothing; versions never go back.  Front ends: gates count the requests that hold
    them, a drained gate stays drained for old versions, bundles are never released under a request.
    Control plane: conflicting operations are never both live, a repeated request runs once, evidence is
    kept, over updates that revise their record as callers do; no blocker means the fleet has drained, and a commit after that is separated from every old
    request; a cancellation that ended a record is final against its owner; an undisturbed
    run commits once the fleet has drained, and not before.

    Request path: a signature that verifies covers the method, path, query, signed headers and payload
    hash, and what is signed verifies; what the chunk reader delivers was signed but for the chunk in
    progress, a framed body decodes to its data however it is cut, and the announced length is the length
    sent; a mutation reaches a backend only admitted, and a write only where the routing says; tokens are
    given back; conditional writes keep S3's promise across two clusters.  Mover: over every interleaving
    with clients and every loss of an answer, a client's write is never replaced, a deleted object is not
    brought back where the requests were answered, a whole pass without failures leaves nothing behind,
    and a pass ends; its jobs are exactly of placements routed the way it assumes.  A purge deletes
    only what the primary holds or the source has lost.  An exchange whose outcome the proxy calls known
    changes no backend any more.  The pages of a spread listing are the bucket's listing, each key once
    and from the leg that owns it; a multi-object delete answers for every key it was given, and deletes
    nothing it was not admitted for.  Theorems without hypotheses show runs in which the code does not
    do what it means to: a body's last chunk that is not checked, a GET that streams a copy, answers
    lost by the mover, an upload completed on the source, a change a watch skips, a secret that stays.
    Control nodes over one etcd: their states are points of one history of whole mutations, none computed
    from an older directory; a write lands at most once and as it was answered; the change log is complete.

    Each layer is proved against the interface of the one below: validation discharges the
    well-formedness that routing and transitions assume, the gates' acknowledgements are what the drain
    reads, and the drain's answer is what the commit relies on.

    ** Bounds and fuel

    [Apply] recurs through a move and is given two units of fuel, shown to be enough.  The leg naming
    loop takes its fuel from a proof that it ends.  The polls of a barrier are bounded by fuel that
    stands for the context that ends them; the theorem on undisturbed runs says what happens on either
    side of that bound.  The merged listing's fuel is the number of entries left.  Versions, generations
    and hashes are integers with Go's wrap-around written out where the code can reach it.  The chunk
    parser's fuel is one more than the bytes it is given, each turn of its loop taking at least one.  A
    pass of the mover has fuel for its pages; one more than the keys of the source is proved enough.  The
    SDK's three attempts at a request are in the model.

    ** What is not modelled

    HTTP, TLS, YAML and JSON codecs, the file system and etcd are parameters or left out: the theorems
    take what the code relies on as hypotheses.  SHA-256 and HMAC are parameters; where a property needs
    that two texts do not collide it says which.  AES-GCM is a parameter that opens what it sealed.  The messages of errors and blockers are texts for an
    operator.  Of the proxy, the rewriting of XML, fallback reads, streamed copies and
    bucket operations are not modelled.  Nor are the control plane's HTTP handlers, the resumption of
    its operations, the launch table, the leases and the embedded etcd, the member client, verification
    runs, telemetry, and the command lines, which are I/O around the components here.

    Some steps are coarser than the code's.  The file store replaces its file in one step that lands or
    leaves the old file (writeAtomic's temporary file and rename), and a reload stats and reads the file
    in one step.  The clock of a barrier's handlers is one value.  The leg naming loop is cut by its fuel
    for some names longer than a leg id with a bad character near its end, where the code's loop ends
    because a longer suffix cuts the character off. *)

From Stdlib Require Export ZArith Lia.
From stdpp Require Export base gmap sets list strings sorting numbers pretty.
From Stdlib Require Ascii.
Export (notations) Stdlib.Strings.Ascii.


(** ** Notations *)

Declare Scope shunt_scope.
Delimit Scope shunt_scope with shunt.

(** [x |> f] is a Go assignment to one field of a struct value: [f x]. *)
Notation "x |> f" := (f x) (at level 50, left associativity, only parsing) : shunt_scope.
#[global] Open Scope shunt_scope.

(** ** Fallible code

    A Go function that returns [(value, error)] returns a [result]: the error path carries no
    value.  [result] is a monad for stdpp's [x ← m; k] notation, which is the Go idiom
    [x, err := m; if err != nil { return err }]. *)

Inductive result (E A : Type) : Type :=
| Ok (a : A)
| Err (e : E).
Arguments Ok {E A} a.
Arguments Err {E A} e.

#[export] Instance result_ret {E} : MRet (result E) := fun A a => Ok a.
#[export] Instance result_bind {E} : MBind (result E) := fun A B k m =>
  match m with Ok a => k a | Err e => Err e end.

(** [guard_err b e] is [if b { return e }]. *)
Definition guard_err {E} (b : bool) (e : E) : result E unit := if b then Err e else Ok tt.

Lemma bind_Ok {E A B} (m : result E A) (k : A -> result E B) b :
  (m ≫= k) = Ok b <-> exists a, m = Ok a /\ k a = Ok b.
Proof.
  destruct m as [a|e]; simpl; split; [intros H; eauto| |intros [=]|]; intros (a' & [=] & ?); by subst.
Qed.

Lemma Ok_inj {E A} (a b : A) : @Ok E A a = Ok b -> a = b.
Proof. by intros [=]. Qed.

Lemma guard_err_Ok {E} b (e : E) u : guard_err b e = Ok u <-> b = false.
Proof. destruct u, b; simpl; naive_solver. Qed.

#[export] Instance result_eq_dec {E A} `{EqDecision E, EqDecision A} : EqDecision (result E A).
Proof. solve_decision. Defined.

(** [is_Ok m] holds when [m] is not an error. *)
Definition is_Ok {E A} (m : result E A) : bool := match m with Ok _ => true | Err _ => false end.

(** ** Go maps and slices

    A Go map with string keys is [option (gmap string V)]: [None] is the nil map, which the code
    tells apart from the empty one ([p.Legs != nil]).  Reading a nil map finds nothing, deleting
    from it does nothing.  A slice whose nil-ness the code tests is an [option (list A)]. *)

Definition mlookup {V} (k : string) (m : option (gmap string V)) : option V := m ≫= (.!! k).
Definition mget {V} (d : V) (k : string) (m : option (gmap string V)) : V := default d (mlookup k m).
Definition mdelete {V} (k : string) (m : option (gmap string V)) : option (gmap string V) := delete k <$> m.
Definition mlen {V} (m : option (gmap string V)) : nat := from_option size 0%nat m.
Definition mhas {V} (k : string) (m : option (gmap string V)) : bool := bool_decide (is_Some (mlookup k m)).

(** [sl s] is the elements of a possibly nil slice. *)
Definition sl {A} (s : option (list A)) : list A := default [] s.

(** [sortedKeys m] is [slices.Sorted(maps.Keys(m))]: the keys in byte order. *)
Definition sortedKeys {V} (m : gmap string V) : list string := merge_sort String.le (map_to_list m).*1.
Definition msortedKeys {V} (m : option (gmap string V)) : list string := from_option sortedKeys [] m.

Lemma elem_of_sortedKeys {V} (m : gmap string V) k : k ∈ sortedKeys m <-> is_Some (m !! k).
Proof.
  unfold sortedKeys. rewrite merge_sort_Permutation, list_elem_of_fmap. split.
  - intros ([k' v] & -> & Hin). apply elem_of_map_to_list in Hin. by exists v.
  - intros [v Hv]. exists (k, v). split; [done|]. by apply elem_of_map_to_list.
Qed.

Lemma sortedKeys_NoDup {V} (m : gmap string V) : NoDup (sortedKeys m).
Proof. unfold sortedKeys. rewrite merge_sort_Permutation. apply NoDup_fst_map_to_list. Qed.

Lemma elem_of_msortedKeys {V} (m : option (gmap string V)) k :
  k ∈ msortedKeys m <-> is_Some (mlookup k m).
Proof.
  destruct m as [m|]; simpl; [apply elem_of_sortedKeys|].
  split; [by intros ?%elem_of_nil|intros [? [=]]].
Qed.

Lemma mhas_true {V} k (m : option (gmap string V)) : mhas k m = true <-> is_Some (mlookup k m).
Proof. unfold mhas. by rewrite bool_decide_eq_true. Qed.
Lemma mhas_false {V} k (m : option (gmap string V)) : mhas k m = false <-> mlookup k m = None.
Proof. unfold mhas. rewrite bool_decide_eq_false, eq_None_not_Some. done. Qed.

Lemma mlookup_delete_ne {V} k k' (m : option (gmap string V)) :
  k <> k' -> mlookup k' (mdelete k m) = mlookup k' m.
Proof. intros. destruct m; simpl; [by rewrite lookup_delete_ne|done]. Qed.
Lemma mlookup_delete_eq {V} k (m : option (gmap string V)) : mlookup k (mdelete k m) = None.
Proof. destruct m; simpl; [by rewrite lookup_delete_eq|done]. Qed.

(** ** Strings

    Go strings are byte strings; [string] is a list of bytes. *)

(** [strings.HasPrefix s p]. *)
Definition HasPrefix (s p : string) : bool := String.prefix p s.

Lemma HasPrefix_app s p : HasPrefix s p = true <-> exists r, s = p +:+ r.
Proof.
  unfold HasPrefix. revert s. induction p as [|a p IH]; intros s; simpl.
  - destruct s; naive_solver.
  - destruct s as [|b s]; simpl; [split; [done|intros [r [=]]]|].
    destruct (Ascii.ascii_dec a b) as [->|Hne].
    + rewrite IH. split; intros [r Hr]; exists r; simpl in *; [by subst|].
      change (String b p +:+ r) with (String b (p +:+ r)) in *. congruence.
    + split; [done|]. intros [r Hr]. change (String a p +:+ r) with (String a (p +:+ r)) in Hr. congruence.
Qed.

Lemma HasPrefix_refl s : HasPrefix s s = true.
Proof. apply HasPrefix_app. exists "". induction s as [|a s IH]; [done|]. change (String a s +:+ "") with (String a (s +:+ "")). by f_equal. Qed.

Lemma HasPrefix_empty s : HasPrefix s "" = true.
Proof. apply HasPrefix_app. by exists s. Qed.

Lemma append_cons c s t : String c s +:+ t = String c (s +:+ t).
Proof. reflexivity. Qed.
Lemma append_assoc s t u : s +:+ (t +:+ u) = (s +:+ t) +:+ u.
Proof. induction s as [|c s IH]; [done|]. rewrite !append_cons. by f_equal. Qed.

(** [strings.Contains s sub]. *)
Fixpoint Contains (s sub : string) : bool :=
  HasPrefix s sub || match s with EmptyString => false | String _ s => Contains s sub end.

(** [strings.CutPrefix s p]: the rest of s after p, when s starts with p. *)
Fixpoint CutPrefix (s p : string) {struct p} : option string :=
  match p, s with
  | EmptyString, _ => Some s
  | String a p, String b s => if decide (a = b) then CutPrefix s p else None
  | String _ _, EmptyString => None
  end.

(** [strings.Cut s sep] for a one-byte separator: around its first occurrence. *)
Fixpoint Cut (s : string) (sep : Ascii.ascii) : option (string * string) :=
  match s with
  | EmptyString => None
  | String c s => if decide (c = sep) then Some ("", s)
                  else '(a, b) ← Cut s sep; Some (String c a, b)
  end.

Lemma CutPrefix_Some s p r : CutPrefix s p = Some r <-> s = p +:+ r.
Proof.
  revert s. induction p as [|a p IH]; intros s; simpl.
  - change ("" +:+ r) with r. split; congruence.
  - change (String a p +:+ r) with (String a (p +:+ r)). destruct s as [|b s]; [done|].
    case_decide; [rewrite IH|]; split; congruence.
Qed.

Lemma Cut_Some s sep a b : Cut s sep = Some (a, b) -> s = a +:+ String sep b.
Proof.
  revert a. induction s as [|c s IH]; intros a; simpl; [done|]. case_decide; [by intros; simplify_eq|].
  destruct (Cut s sep) as [[a' b']|]; simpl; [|done]. intros [= <- <-].
  change (String c a' +:+ String sep b') with (String c (a' +:+ String sep b')). f_equal. by apply IH.
Qed.

(** A byte of a string as a number. *)
Definition byteZ (c : Ascii.ascii) : Z := Z.of_N (Ascii.N_of_ascii c).

Lemma byteZ_range c : (0 <= byteZ c < 256)%Z.
Proof. unfold byteZ. pose proof (Ascii.N_ascii_bounded c). lia. Qed.

(** [all_bytes f s] is [for i := range s { if !f(s[i]) { return false } }; return true]. *)
Fixpoint all_bytes (f : Ascii.ascii -> bool) (s : string) : bool :=
  match s with
  | EmptyString => true
  | String c s => f c && all_bytes f s
  end.

Lemma all_bytes_app f s1 s2 : all_bytes f (s1 +:+ s2) = all_bytes f s1 && all_bytes f s2.
Proof. induction s1 as [|c s1 IH]; [done|]. rewrite ?append_cons. simpl. by rewrite IH, andb_assoc. Qed.

Lemma all_bytes_impl (f g : Ascii.ascii -> bool) s : (forall c, f c = true -> g c = true) -> all_bytes f s = true -> all_bytes g s = true.
Proof. intros H. induction s as [|c s IH]; simpl; [done|]. rewrite !andb_true_iff. intros [? ?]. auto. Qed.

Lemma length_append s1 s2 : String.length (s1 +:+ s2) = (String.length s1 + String.length s2)%nat.
Proof. induction s1 as [|c s1 IH]; [done|]. rewrite ?append_cons. simpl. by rewrite IH. Qed.

(** [in_range lo hi c] is [c >= lo && c <= hi] for byte constants. *)
Definition in_range (lo hi c : Ascii.ascii) : bool := (byteZ lo <=? byteZ c)%Z && (byteZ c <=? byteZ hi)%Z.
Arguments in_range (lo hi c)%_char.

(** ** 64-bit unsigned integers

    A [uint64] is a [Z] in [0, 2^64); [u64] writes the wrap-around out. *)

Definition two64 : Z := 18446744073709551616.
Definition MaxUint64 : Z := 18446744073709551615.
Definition u64 (x : Z) : Z := x mod two64.
Definition is_u64 (x : Z) : Prop := (0 <= x < two64)%Z.

Lemma u64_range x : is_u64 (u64 x).
Proof. unfold is_u64, u64. apply Z.mod_pos_bound. done. Qed.
Lemma u64_id x : is_u64 x -> u64 x = x.
Proof. intros. by apply Z.mod_small. Qed.

(** ** Tactics *)

(** Break every conjunction and existential in the context. *)
Ltac split_hyps := repeat match goal with
  | H : _ /\ _ |- _ => destruct H
  | H : exists _, _ |- _ => destruct H
  end.

(** Case on the outermost conditional of a hypothesis or the goal. *)
Ltac case_if_in H := match type of H with context [if ?b then _ else _] => destruct b eqn:? end.

(** Case on the conditional at the head of the goal's left side. *)
Ltac case_head := match goal with |- (if ?b then _ else _) = _ => destruct b eqn:? end.

(** Pass the check at the head of [H : (if b then Err _ else _) = Ok _]. *)
Ltac pass_check H := match type of H with (if ?b then _ else _) = _ => destruct b; [discriminate H|] end.

Create HintDb shunt.
Create Rewrite HintDb shunt.
#[export] Hint Resolve u64_range byteZ_range HasPrefix_refl HasPrefix_empty : shunt.
