(* ===== verification/Float64.v ===== *)
(** * Go's float64

    A ramp's ratio and a move's share are [float64] values, and the routing code multiplies and
    compares them, so the model keeps IEEE 754 binary64 with round-to-nearest-even instead of
    rationals.  Every finite binary64 is a multiple of 2^-1074, so [Fin m] is the number m * 2^-1074;
    the two zeros are one value, which no operation the code uses can tell apart.  The file ends
    with the one fact the routing proofs need: multiplication and conversion are monotone. *)

From S2P Require Import Prelude.

Local Open Scope Z_scope.

Inductive f64 : Type :=
| NaN
| Inf (neg : bool)
| Fin (m : Z).

#[export] Instance f64_eq_dec : EqDecision f64.
Proof. solve_decision. Defined.

(** The scale: [Fin (n * unit)] is the integer n. *)
Definition unit_exp : Z := 1074.
Definition f_unit : Z := 2 ^ unit_exp.

(** [rne n s] is n / 2^s rounded to the nearest integer, ties to even. *)
Definition rne (n s : Z) : Z :=
  let q := n / 2 ^ s in
  let r := n mod 2 ^ s in
  match 2 * r ?= 2 ^ s with
  | Lt => q
  | Gt => q + 1
  | Eq => if Z.even q then q else q + 1
  end.

(** [rnd n k], for n >= 0, is n / 2^k rounded to 53 significant bits, never below the unit. *)
Definition rnd (n k : Z) : Z :=
  let e := Z.max 0 (Z.log2 n - 52 - k) in
  rne n (k + e) * 2 ^ e.

(** [pack m] is m in units, or an infinity when its magnitude is 2^1024 or more. *)
Definition pack (m : Z) : f64 :=
  if 2 ^ (1024 + unit_exp) <=? Z.abs m then Inf (m <? 0) else Fin m.

(** Rounding is symmetric in the sign. *)
Definition rnd_signed (n k : Z) : Z := if n <? 0 then - rnd (- n) k else rnd n k.

(** [float64(x)] for an integer x. *)
Definition f64_of_Z (x : Z) : f64 := pack (rnd_signed (x * f_unit) 0).

Definition f64_add (a b : f64) : f64 :=
  match a, b with
  | NaN, _ | _, NaN => NaN
  | Inf s, Inf t => if Bool.eqb s t then Inf s else NaN
  | Inf s, Fin _ | Fin _, Inf s => Inf s
  | Fin m, Fin n => pack (rnd_signed (m + n) 0)
  end.

Definition f64_mul (a b : f64) : f64 :=
  match a, b with
  | NaN, _ | _, NaN => NaN
  | Inf s, Inf t => Inf (xorb s t)
  | Inf s, Fin m | Fin m, Inf s => if m =? 0 then NaN else Inf (xorb s (m <? 0))
  | Fin m, Fin n => pack (rnd_signed (m * n) unit_exp)
  end.

(** The comparisons [a < b], [a <= b], [a == b]: all false on NaN. *)
Definition f64_ltb (a b : f64) : bool :=
  match a, b with
  | NaN, _ | _, NaN => false
  | Inf s, Inf t => s && negb t
  | Inf s, Fin _ => s
  | Fin _, Inf t => negb t
  | Fin m, Fin n => m <? n
  end.

Definition f64_leb (a b : f64) : bool :=
  match a, b with
  | NaN, _ | _, NaN => false
  | Inf s, Inf t => s || negb t
  | Inf s, Fin _ => s
  | Fin _, Inf t => negb t
  | Fin m, Fin n => m <=? n
  end.

Definition f64_eqb (a b : f64) : bool :=
  match a, b with
  | Inf s, Inf t => Bool.eqb s t
  | Fin m, Fin n => m =? n
  | _, _ => false
  end.

Definition f64_isNaN (a : f64) : bool := match a with NaN => true | _ => false end.

(** [math.Round]: nearest integer, halves away from zero. *)
Definition f64_round (a : f64) : f64 :=
  match a with
  | Fin m => Fin (Z.sgn m * ((2 * Z.abs m + f_unit) / (2 * f_unit)) * f_unit)
  | _ => a
  end.

(** The builtin [max(a, b)] on floats: NaN when either is. *)
Definition f64_max (a b : f64) : f64 :=
  if f64_isNaN a || f64_isNaN b then NaN else if f64_ltb a b then b else a.

(** [uint64(a)]: truncation.  For a value that does not fit, the language leaves the result to the
    implementation, and the model says so with [None]. *)
Definition f64_to_u64 (a : f64) : option Z :=
  match a with
  | Fin m => let t := Z.quot m f_unit in if (0 <=? t) && (t <? two64) then Some t else None
  | _ => None
  end.

Definition f0 : f64 := Fin 0.
Definition f1 : f64 := Fin f_unit.

Arguments f64_of_Z : simpl never.
Arguments f_unit : simpl never.
Arguments rnd : simpl never.
Arguments rne : simpl never.
Arguments pack : simpl never.
Arguments f1 : simpl never.
Arguments f64_leb !a !b.
Arguments f64_ltb !a !b.
Arguments f64_eqb !a !b.

Lemma f1_unit : f1 = Fin f_unit.
Proof. reflexivity. Qed.
Example f1_of_Z : f64_of_Z 1 = f1.
Proof. vm_compute. reflexivity. Qed.
Example f64_max_uint64 : f64_of_Z MaxUint64 = Fin (two64 * f_unit).
Proof. vm_compute. reflexivity. Qed.
Example f64_tie_to_even : f64_of_Z (2 ^ 53 + 1) = f64_of_Z (2 ^ 53).
Proof. vm_compute. reflexivity. Qed.
Example f64_tie_up : f64_of_Z (2 ^ 53 + 3) = f64_of_Z (2 ^ 53 + 4).
Proof. vm_compute. reflexivity. Qed.

(** ** Monotonicity of rounding *)

Lemma pow2_pos k : 0 <= k -> 0 < 2 ^ k.
Proof. intros. by apply Z.pow_pos_nonneg. Qed.

Lemma rne_bounds n s : 0 <= s -> n / 2 ^ s <= rne n s <= n / 2 ^ s + 1.
Proof. intros. unfold rne. destruct (2 * _ ?= _); [destruct Z.even|..]; lia. Qed.

(** Two numbers with the same quotient round in the order of their remainders. *)
Lemma rne_mono n1 n2 s : 0 <= s -> n1 <= n2 -> rne n1 s <= rne n2 s.
Proof.
  intros Hs Hle. pose proof (pow2_pos s Hs) as Hp.
  assert (n1 / 2 ^ s <= n2 / 2 ^ s) as Hq by (apply Z.div_le_mono; lia).
  destruct (decide (n1 / 2 ^ s = n2 / 2 ^ s)) as [He|Hne].
  - pose proof (Z.div_mod n1 (2 ^ s)). pose proof (Z.div_mod n2 (2 ^ s)).
    unfold rne. rewrite He.
    destruct (Z.compare_spec (2 * (n1 mod 2 ^ s)) (2 ^ s));
      destruct (Z.compare_spec (2 * (n2 mod 2 ^ s)) (2 ^ s)); try destruct (Z.even _); lia.
  - pose proof (rne_bounds n1 s Hs). pose proof (rne_bounds n2 s Hs). lia.
Qed.

Definition rnd_exp (n k : Z) : Z := Z.max 0 (Z.log2 n - 52 - k).

Lemma rnd_exp_mono n1 n2 k : 0 <= n1 <= n2 -> rnd_exp n1 k <= rnd_exp n2 k.
Proof. intros. unfold rnd_exp. pose proof (Z.log2_le_mono n1 n2). lia. Qed.

(** A number whose exponent is not the least keeps its top 53 bits. *)
Lemma rnd_lower n k : 0 < n -> 0 < rnd_exp n k -> 0 <= k -> 2 ^ (52 + rnd_exp n k) <= rnd n k.
Proof.
  intros Hn He Hk. unfold rnd. fold (rnd_exp n k).
  rewrite Z.pow_add_r by lia. apply Z.mul_le_mono_nonneg_r; [pose proof (pow2_pos (rnd_exp n k)); lia|].
  etrans; [|apply rne_bounds; lia].
  apply Z.div_le_lower_bound; [apply pow2_pos; lia|].
  rewrite <- Z.pow_add_r by lia.
  replace (k + rnd_exp n k + 52) with (Z.log2 n) by (unfold rnd_exp in *; lia).
  apply Z.log2_spec. lia.
Qed.

Lemma rnd_upper n k : 0 < n -> 0 <= k -> rnd n k <= 2 ^ (53 + rnd_exp n k).
Proof.
  intros Hn Hk. unfold rnd. fold (rnd_exp n k).
  assert (0 <= rnd_exp n k) as He by (unfold rnd_exp; lia).
  rewrite Z.pow_add_r by lia. apply Z.mul_le_mono_nonneg_r; [pose proof (pow2_pos (rnd_exp n k)); lia|].
  enough (n / 2 ^ (k + rnd_exp n k) < 2 ^ 53) by (pose proof (rne_bounds n (k + rnd_exp n k)); lia).
  apply Z.div_lt_upper_bound; [apply pow2_pos; lia|]. rewrite <- Z.pow_add_r by lia.
  eapply Z.lt_le_trans; [apply Z.log2_spec; lia|].
  apply Z.pow_le_mono_r; [lia|]. unfold rnd_exp. lia.
Qed.

Lemma rnd_nonneg n k : 0 <= n -> 0 <= k -> 0 <= rnd n k.
Proof.
  intros. unfold rnd. fold (rnd_exp n k). apply Z.mul_nonneg_nonneg.
  - assert (0 <= rnd_exp n k) by (unfold rnd_exp; lia).
    pose proof (rne_bounds n (k + rnd_exp n k)).
    enough (0 <= n / 2 ^ (k + rnd_exp n k)) by lia. apply Z.div_pos; [lia|]. apply pow2_pos. lia.
  - apply Z.pow_nonneg. lia.
Qed.

Lemma rnd_0 k : 0 <= k -> rnd 0 k = 0.
Proof.
  intros. unfold rnd, rne. rewrite Z.div_0_l, Z.mod_0_l by (apply Z.pow_nonzero; lia).
  rewrite Z.mul_0_r. pose proof (pow2_pos (k + Z.max 0 (Z.log2 0 - 52 - k))).
  destruct (Z.compare_spec 0 (2 ^ (k + Z.max 0 (Z.log2 0 - 52 - k)))); simpl; lia.
Qed.

Lemma rnd_mono n1 n2 k : 0 <= k -> 0 <= n1 <= n2 -> rnd n1 k <= rnd n2 k.
Proof.
  intros Hk Hn. destruct (decide (n1 = 0)) as [->|]; [rewrite rnd_0 by lia; apply rnd_nonneg; lia|].
  pose proof (rnd_exp_mono n1 n2 k Hn) as He.
  destruct (decide (rnd_exp n1 k = rnd_exp n2 k)) as [Heq|Hne].
  - unfold rnd. fold (rnd_exp n1 k) (rnd_exp n2 k). rewrite Heq.
    assert (0 <= rnd_exp n2 k) by (unfold rnd_exp; lia).
    apply Z.mul_le_mono_nonneg_r; [apply Z.pow_nonneg; lia|]. apply rne_mono; lia.
  - assert (0 <= rnd_exp n1 k) by (unfold rnd_exp; lia).
    etrans; [apply rnd_upper; lia|]. etrans; [|apply rnd_lower; lia].
    apply Z.pow_le_mono_r; lia.
Qed.

(** ** The facts about nonnegative floats the routing proofs use *)

(** A finite float that is not negative. *)
Definition nonneg (a : f64) : Prop := match a with Fin m => 0 <= m | _ => False end.

Lemma f64_leb_trans a b c : f64_leb a b = true -> f64_leb b c = true -> f64_leb a c = true.
Proof. destruct a as [|[]|], b as [|[]|], c as [|[]|]; simpl; try done; rewrite ?Z.leb_le; lia. Qed.

Lemma f64_ltb_leb_trans a b c : f64_ltb a b = true -> f64_leb b c = true -> f64_ltb a c = true.
Proof. destruct a as [|[]|], b as [|[]|], c as [|[]|]; simpl; try done; rewrite ?Z.ltb_lt, ?Z.leb_le; lia. Qed.

Lemma pack_mono m n : 0 <= m <= n -> f64_leb (pack m) (pack n) = true.
Proof.
  intros. unfold pack.
  destruct (2 ^ (1024 + unit_exp) <=? Z.abs m) eqn:E1, (2 ^ (1024 + unit_exp) <=? Z.abs n) eqn:E2;
    simpl; rewrite ?Z.leb_le, ?Z.leb_gt in *.
  - destruct (m <? 0) eqn:?, (n <? 0) eqn:?; try done; lia.
  - lia.
  - destruct (n <? 0) eqn:?; simpl; [lia|done].
  - lia.
Qed.

(** A nonnegative result bounded by a finite float did not overflow. *)
Lemma pack_le_Fin m x : 0 <= m -> f64_leb (pack m) (Fin x) = true -> pack m = Fin m /\ m <= x.
Proof.
  intros Hm. unfold pack. generalize (2 ^ (1024 + unit_exp) <=? Z.abs m). intros [|]; simpl.
  - destruct (Z.ltb_spec m 0); [lia|done].
  - by intros ?%Z.leb_le.
Qed.

Lemma rnd_signed_nonneg n k : 0 <= n -> rnd_signed n k = rnd n k.
Proof. intros. unfold rnd_signed. destruct (Z.ltb_spec n 0); [lia|done]. Qed.

(** Multiplication by a nonnegative float is monotone. *)
Lemma f64_mul_mono a b c :
  nonneg a -> nonneg b -> nonneg c -> f64_leb a b = true -> f64_leb (f64_mul a c) (f64_mul b c) = true.
Proof.
  destruct a as [| |m], b as [| |n], c as [| |q]; simpl; try done. intros Hm Hn Hq Hle%Z.leb_le.
  rewrite !rnd_signed_nonneg by (apply Z.mul_nonneg_nonneg; lia).
  apply pack_mono. split; [apply rnd_nonneg; [nia|done]|apply rnd_mono; [done|nia]].
Qed.

(** Truncation is monotone, and a float below a convertible one converts. *)
Lemma f64_to_u64_mono a b x y :
  f64_leb a b = true -> f64_to_u64 a = Some x -> f64_to_u64 b = Some y -> x <= y.
Proof.
  destruct a as [| |m], b as [| |n]; simpl; try done. intros Hle%Z.leb_le Ha Hb.
  destruct (0 <=? Z.quot m f_unit) eqn:?, (Z.quot m f_unit <? two64) eqn:?; simplify_eq/=.
  destruct (0 <=? Z.quot n f_unit) eqn:?, (Z.quot n f_unit <? two64) eqn:?; simplify_eq/=.
  apply Z.quot_le_mono; [done|lia].
Qed.

(** ** Representable floats

    [Fin m] is a binary64 when m has at most 53 significant bits: rounding leaves it as it is.  Every
    [float64] value of the program is one; the model's [Fin] has more values than the type. *)
Definition is_f64 (a : f64) : Prop := match a with Fin m => rnd_signed m 0 = m | _ => True end.

(** The largest float below one is 1 - 2^-53. *)
Definition below_one : Z := f_unit - 2 ^ (unit_exp - 53).

Lemma rnd_multiple n k : exists q, rnd n k = q * 2 ^ rnd_exp n k.
Proof. by eexists. Qed.

Lemma is_f64_below_one m : 0 <= m -> is_f64 (Fin m) -> m < f_unit -> m <= below_one.
Proof.
  intros Hm Hr Hlt. simpl in Hr. rewrite rnd_signed_nonneg in Hr by done.
  assert (0 < 2 ^ (unit_exp - 53)) as Hp by by apply pow2_pos.
  assert (f_unit = 2 ^ 53 * 2 ^ (unit_exp - 53)) as Hu.
  { unfold f_unit. rewrite <- Z.pow_add_r by done. done. }
  unfold below_one. destruct (decide (m < 2 ^ 52 * 2 ^ (unit_exp - 53))) as [|Hge]; [nia|].
  assert (Z.log2 m = unit_exp - 1) as Hl.
  { apply Z.log2_unique; [done|]. split.
    - rewrite <- Z.pow_add_r in Hge by done. replace (52 + (unit_exp - 53)) with (unit_exp - 1) in Hge by lia. lia.
    - replace (Z.succ (unit_exp - 1)) with unit_exp by lia. done. }
  destruct (rnd_multiple m 0) as [q Hq]. rewrite Hr in Hq.
  replace (rnd_exp m 0) with (unit_exp - 53) in Hq by (unfold rnd_exp; rewrite Hl; done).
  set (P := 2 ^ (unit_exp - 53)) in *. assert (q < 2 ^ 53) as Hq' by (apply (Z.mul_lt_mono_pos_r P); lia).
  assert (q * P <= (2 ^ 53 - 1) * P) by (apply Z.mul_le_mono_nonneg_r; lia). lia.
Qed.

Lemma f_unit_pos : 0 < f_unit.
Proof. by apply pow2_pos. Qed.

(** Tactics must not try to compute with 2^1074; [vm_compute] still does. *)
#[global] Opaque f_unit f1 rnd pack.
