(* ===== verification/KeyHash.v ===== *)
(** * The key hash (internal/migrate/route.go: rampHash, mix64)

    The hash named "fnv1a-fmix64-v1" splits a bucket's keys among its legs and decides which keys a
    ramp has moved.  Here are its definition at 64 bits, the values the repository pins, and the
    proof that the finalizer is a permutation of the 64-bit integers. *)

From S2P Require Import Prelude.

Local Open Scope Z_scope.

(** hash/fnv's New64a: xor the byte in, then multiply by the prime. *)
Definition fnv_offset : Z := 14695981039346656037.
Definition fnv_prime : Z := 1099511628211.

Fixpoint fnv1a (h : Z) (s : string) : Z :=
  match s with
  | EmptyString => h
  | String c s => fnv1a (u64 (Z.lxor h (byteZ c) * fnv_prime)) s
  end.

(** [x ^= x >> 33] *)
Definition xorshift33 (x : Z) : Z := Z.lxor x (Z.shiftr x 33).

Definition mix_c1 : Z := 0xff51afd7ed558ccd.
Definition mix_c2 : Z := 0xc4ceb9fe1a85ec53.

Definition mix64 (x : Z) : Z :=
  let x := xorshift33 x in
  let x := u64 (x * mix_c1) in
  let x := xorshift33 x in
  let x := u64 (x * mix_c2) in
  xorshift33 x.

Definition rampHash (key : string) : Z := mix64 (fnv1a fnv_offset key).

(** The values pinned by TestRampHashIsPinned. *)
Example rampHash_empty : rampHash "" = 0xefd01f60ba992926.
Proof. vm_compute. reflexivity. Qed.
Example rampHash_a0000 : rampHash "a/0000" = 0x1bef7c837bb43864.
Proof. vm_compute. reflexivity. Qed.
Example rampHash_ckpt : rampHash "runs/2026-09/ckpt-000017.pt" = 0xc30d8369350a63cb.
Proof. vm_compute. reflexivity. Qed.

(** The inverse of the finalizer: the two multipliers are odd, so they have inverses mod 2^64. *)
Definition mix_d1 : Z := 5725274745694666757.
Definition mix_d2 : Z := 11291846944257947611.
Definition unmix64 (x : Z) : Z :=
  let x := xorshift33 x in
  let x := u64 (x * mix_d2) in
  let x := xorshift33 x in
  let x := u64 (x * mix_d1) in
  xorshift33 x.

(** ** Range *)

Lemma is_u64_pow x : is_u64 x <-> 0 <= x < 2 ^ 64.
Proof. done. Qed.

Lemma lxor_u64 x y : is_u64 x -> is_u64 y -> is_u64 (Z.lxor x y).
Proof.
  rewrite !is_u64_pow. intros Hx Hy.
  assert (0 <= Z.lxor x y) by (apply Z.lxor_nonneg; lia).
  split; [done|]. destruct (decide (Z.lxor x y = 0)) as [->|]; [done|].
  apply Z.log2_lt_pow2; [lia|]. eapply Z.le_lt_trans; [apply Z.log2_lxor; lia|].
  assert (forall z, 0 <= z < 2 ^ 64 -> Z.log2 z < 64) as Hlog.
  { intros z Hz. destruct (decide (z = 0)) as [->|]; [done|]. apply Z.log2_lt_pow2; lia. }
  pose proof (Hlog x Hx). pose proof (Hlog y Hy). lia.
Qed.

Lemma shiftr_u64 x : is_u64 x -> is_u64 (Z.shiftr x 33).
Proof.
  unfold is_u64. intros. rewrite Z.shiftr_div_pow2 by done. split; [apply Z.div_pos; lia|].
  apply Z.div_lt_upper_bound; lia.
Qed.

Lemma xorshift33_u64 x : is_u64 x -> is_u64 (xorshift33 x).
Proof. intros. by apply lxor_u64, shiftr_u64. Qed.

#[export] Hint Resolve xorshift33_u64 shiftr_u64 lxor_u64 : shunt.

Lemma mix64_u64 x : is_u64 x -> is_u64 (mix64 x).
Proof. intros. unfold mix64. auto with shunt. Qed.

Lemma unmix64_u64 x : is_u64 x -> is_u64 (unmix64 x).
Proof. intros. unfold unmix64. auto with shunt. Qed.

Lemma fnv1a_u64 h s : is_u64 h -> is_u64 (fnv1a h s).
Proof. revert h. induction s; simpl; auto with shunt. Qed.

Lemma rampHash_u64 key : is_u64 (rampHash key).
Proof. apply mix64_u64, fnv1a_u64. done. Qed.

#[export] Hint Resolve mix64_u64 unmix64_u64 rampHash_u64 : shunt.

(** ** The finalizer is a permutation *)

(** A shift by more than half the width makes the xor-shift its own inverse. *)
Lemma xorshift33_involutive x : is_u64 x -> xorshift33 (xorshift33 x) = x.
Proof.
  intros Hx. unfold xorshift33. rewrite Z.shiftr_lxor, Z.shiftr_shiftr by done.
  replace (Z.shiftr x (33 + 33)) with 0.
  - rewrite Z.lxor_0_r, Z.lxor_assoc, Z.lxor_nilpotent, Z.lxor_0_r. done.
  - symmetry. rewrite Z.shiftr_div_pow2 by done. apply Z.div_small.
    unfold is_u64, two64 in Hx. change (2 ^ (33 + 33)) with 73786976294838206464. lia.
Qed.

Lemma mul_inverse x c d : is_u64 x -> u64 (c * d) = 1 -> u64 (u64 (x * c) * d) = x.
Proof.
  intros Hx Hcd. unfold u64 in *. rewrite Z.mul_mod_idemp_l by done.
  rewrite <- Z.mul_assoc, <- Z.mul_mod_idemp_r, Hcd, Z.mul_1_r by done. by apply Z.mod_small.
Qed.

Lemma unmix64_mix64 x : is_u64 x -> unmix64 (mix64 x) = x.
Proof.
  intros Hx. unfold unmix64, mix64.
  rewrite (xorshift33_involutive (u64 _)) by auto with shunt.
  rewrite (mul_inverse _ mix_c2 mix_d2) by (auto with shunt).
  rewrite (xorshift33_involutive (u64 _)) by auto with shunt.
  rewrite (mul_inverse _ mix_c1 mix_d1) by (auto with shunt).
  by apply xorshift33_involutive.
Qed.

Lemma mix64_unmix64 x : is_u64 x -> mix64 (unmix64 x) = x.
Proof.
  intros Hx. unfold unmix64, mix64.
  rewrite (xorshift33_involutive (u64 _)) by auto with shunt.
  rewrite (mul_inverse _ mix_d1 mix_c1) by (auto with shunt).
  rewrite (xorshift33_involutive (u64 _)) by auto with shunt.
  rewrite (mul_inverse _ mix_d2 mix_c2) by (auto with shunt).
  by apply xorshift33_involutive.
Qed.

(** [mix64] is a permutation of the 64-bit integers: it stays in range, [unmix64] undoes
    it, and every 64-bit value is the image of one.  The finalizer therefore adds no collision to
    FNV-1a: two keys share a ramp hash only when they share the FNV hash. *)
Theorem mix64_permutation (x : Z) (key1 key2 : string) (Hx : is_u64 x) :
  is_u64 (mix64 x) /\ unmix64 (mix64 x) = x /\ mix64 (unmix64 x) = x /\
  (rampHash key1 = rampHash key2 <-> fnv1a fnv_offset key1 = fnv1a fnv_offset key2).
Proof.
  split_and!; auto using unmix64_mix64, mix64_unmix64 with shunt. split.
  - intros H%(f_equal unmix64). unfold rampHash in H.
    rewrite !unmix64_mix64 in H by by apply fnv1a_u64. done.
  - unfold rampHash. by intros ->.
Qed.

Lemma mix64_permutation_witness : mix64 (unmix64 7) = 7.
Proof. apply (mix64_permutation 7 "a" "b"). done. Defined.
