(* ===== verification/HashRange.v ===== *)
(** * Hash ranges and owners tables (internal/directory/legs.go, moves.go, scopes.go)

    A spread bucket's keys are split among its legs by a table of ranges of the 64-bit hash space.
    This file models the ranges: the text form of a hash, the leading share of a range, even
    splits, the check that a table covers the space exactly once, the binary search that finds a
    hash's owner, and the reassignment of a range at the end of a move. *)

From S2P Require Import Prelude Float64.

Local Open Scope Z_scope.

(** ** Data *)

Record Leg : Type := mkLeg { legCluster : string; legBucket : string }.

Record HashRange : Type := mkRange { rFrom : Z; rTo : Z }.

Record Owner : Type := mkOwner { oFrom : Z; oTo : Z; oLeg : string }.

#[export] Instance Leg_eq_dec : EqDecision Leg.
Proof. solve_decision. Defined.
#[export] Instance HashRange_eq_dec : EqDecision HashRange.
Proof. solve_decision. Defined.
#[export] Instance Owner_eq_dec : EqDecision Owner.
Proof. solve_decision. Defined.

Definition MaxLegs : nat := 32.

Definition FullRange : HashRange := mkRange 0 MaxUint64.

(** ** The text form of a hash: 16 hex digits *)

Definition hexdigit (d : Z) : Ascii.ascii :=
  Ascii.ascii_of_N (Z.to_N (if d <? 10 then 48 + d else 87 + d)).

Fixpoint hex_digits (n : nat) (h : Z) : string :=
  match n with
  | O => EmptyString
  | S n => String (hexdigit (h / 16 ^ Z.of_nat n mod 16)) (hex_digits n h)
  end.

(** [fmt.Appendf(nil, "%016x", uint64(h))]: a 64-bit value never has more than 16 digits. *)
Definition MarshalText (h : Z) : string := hex_digits 16 h.

(** A digit of [strconv.ParseUint(s, 16, 64)]: either case. *)
Definition hexval (c : Ascii.ascii) : option Z :=
  if in_range "0"%char "9"%char c then Some (byteZ c - 48)
  else if in_range "a"%char "f"%char c then Some (byteZ c - 87)
  else if in_range "A"%char "F"%char c then Some (byteZ c - 55)
  else None.

Fixpoint parse_hex (acc : Z) (s : string) : option Z :=
  match s with
  | EmptyString => Some acc
  | String c s => d ← hexval c; parse_hex (acc * 16 + d) s
  end.

(** [None] is the error "want 16 hex digits"; 16 digits cannot overflow 64 bits. *)
Definition UnmarshalText (s : string) : option Z :=
  if decide (String.length s = 16%nat) then parse_hex 0 s else None.

(** ** The leading share of a range *)

(** math/bits: the 128-bit product, the sum with carry, and the quotient, which panics ([None])
    when it would not fit in 64 bits. *)
Definition Mul64 (x y : Z) : Z * Z := (x * y / two64, u64 (x * y)).
Definition Add64 (x y carry : Z) : Z * Z := (u64 (x + y + carry), (x + y + carry) / two64).
Definition Div64 (hi lo y : Z) : option (Z * Z) :=
  if (y =? 0) || (y <=? hi) then None
  else let n := hi * two64 + lo in Some (n / y, n mod y).

(** [None] is a panic, or a conversion the language leaves to the implementation (a NaN share). *)
Definition LeadingShare (r : HashRange) (share : f64) : option HashRange :=
  if f64_leb f1 share || (rTo r <? rFrom r) then Some r
  else
    k ← f64_to_u64 (f64_max f1 (f64_round (f64_mul share (f64_of_Z 10000))));
    if 10000 <=? k then Some r
    else
      let '(hi, lo) := Mul64 (u64 (rTo r - rFrom r)) k in
      let '(lo, carry) := Add64 lo k 0 in
      let hi := u64 (hi + carry) in
      '(q, _) ← Div64 hi lo 10000;
      if q =? 0 then Some (mkRange (rFrom r) (rFrom r))
      else Some (mkRange (rFrom r) (u64 (rFrom r + u64 (q - 1)))).

(** ** Owners tables *)

(** [None] is the division by zero an empty list would panic with. *)
Definition EvenOwners (legs : list string) : option (list Owner) :=
  let n := Z.of_nat (length legs) in
  if n =? 0 then None
  else
    let width := MaxUint64 / n in
    Some (imap (fun i leg =>
      let i := Z.of_nat i in
      let from := u64 (i * width) in
      let to := if i =? n - 1 then MaxUint64 else u64 ((i + 1) * width - 1) in
      mkOwner from to leg) legs).

(** Why a table is refused. *)
Inductive ownersErr : Type :=
| OwnersNone
| OwnersUnknownLeg (i : nat) (leg : string)
| OwnersFirstStart (from : Z)
| OwnersGap (i : nat) (from prevEnd : Z)
| OwnersInverted (i : nat)
| OwnersAfterEnd (i : nat)
| OwnersStop (last : Z).

#[export] Instance ownersErr_eq_dec : EqDecision ownersErr.
Proof. solve_decision. Defined.

Definition hasLeg (legs : option (gmap string Leg)) (id : string) : bool := mhas id legs.

Fixpoint checkOwners_from (legs : option (gmap string Leg)) (i : nat) (next : Z) (owners : list Owner)
    : result ownersErr () :=
  match owners with
  | [] => Err (OwnersStop (u64 (next - 1)))
  | o :: rest =>
      if negb (hasLeg legs (oLeg o)) then Err (OwnersUnknownLeg i (oLeg o))
      else if (i =? 0)%nat && negb (oFrom o =? 0) then Err (OwnersFirstStart (oFrom o))
      else if negb (oFrom o =? next) then Err (OwnersGap i (oFrom o) (u64 (next - 1)))
      else if oTo o <? oFrom o then Err (OwnersInverted i)
      else if oTo o =? MaxUint64 then
        match rest with [] => Ok () | _ => Err (OwnersAfterEnd i) end
      else checkOwners_from legs (S i) (u64 (oTo o + 1)) rest
  end.

Definition checkOwners (owners : list Owner) (legs : option (gmap string Leg)) : result ownersErr () :=
  match owners with
  | [] => Err OwnersNone
  | _ => checkOwners_from legs 0 0 owners
  end.

(** [sort.Search]: the loop on [i, j), with fuel; j - i at least halves, so n is always enough. *)
Fixpoint Search (fuel : nat) (f : nat -> bool) (i j : nat) : nat :=
  match fuel with
  | O => i
  | S fuel =>
      if (i <? j)%nat then
        let h := Nat.div2 (i + j) in
        if f h then Search fuel f i h else Search fuel f (S h) j
      else i
  end.

(** [OwnerIn] returns "" when no range reaches h. *)
Definition OwnerIn (owners : list Owner) (h : Z) : string :=
  let f i := match owners !! i with Some o => h <=? oTo o | None => false end in
  let i := Search (length owners) f 0 (length owners) in
  match owners !! i with Some o => oLeg o | None => "" end.

(** [reassign]'s [add]: join a range with the last one when the same leg owns both and they touch.
    The table built so far is kept last range first. *)
Definition add_owner (out : list Owner) (o : Owner) : list Owner :=
  match out with
  | prev :: tl =>
      if bool_decide (oLeg prev = oLeg o) && (u64 (oTo prev + 1) =? oFrom o)
      then mkOwner (oFrom prev) (oTo o) (oLeg prev) :: tl
      else o :: out
  | [] => [o]
  end.

(** What [reassign] adds for one range of the table, in order. *)
Definition reassign_pieces (rg : HashRange) (leg : string) (o : Owner) : list Owner :=
  if (oTo o <? rFrom rg) || (rTo rg <? oFrom o) then [o]
  else
    (if oFrom o <? rFrom rg then [mkOwner (oFrom o) (u64 (rFrom rg - 1)) (oLeg o)] else []) ++
    (if oFrom o <=? rFrom rg then [mkOwner (rFrom rg) (rTo rg) leg] else []) ++
    (if rTo rg <? oTo o then [mkOwner (u64 (rTo rg + 1)) (oTo o) (oLeg o)] else []).

Definition reassign (owners : list Owner) (rg : HashRange) (leg : string) : list Owner :=
  reverse (foldl (fun out o => foldl add_owner out (reassign_pieces rg leg o)) [] owners).

(** ** Specification of a table *)

(** [seg a l b]: the ranges of l follow on from a, without gap or overlap, up to just before b. *)
Fixpoint seg (a : Z) (l : list Owner) (b : Z) : Prop :=
  match l with
  | [] => a = b
  | o :: l => oFrom o = a /\ oFrom o <= oTo o /\ seg (oTo o + 1) l b
  end.

(** A table partitions the hash space. *)
Definition partition (l : list Owner) : Prop := seg 0 l two64.

Definition in_owner (o : Owner) (h : Z) : bool := (oFrom o <=? h) && (h <=? oTo o).
Definition in_hrange (rg : HashRange) (h : Z) : bool := (rFrom rg <=? h) && (h <=? rTo rg).

(** The owner by definition: the leg of the first range that holds h. *)
Fixpoint owner_at (l : list Owner) (h : Z) : option string :=
  match l with
  | [] => None
  | o :: l => if in_owner o h then Some (oLeg o) else owner_at l h
  end.

Definition owner_u64 (o : Owner) : Prop := is_u64 (oFrom o) /\ is_u64 (oTo o).

(** ** Tables: lemmas *)

Lemma seg_app a l1 l2 b : seg a (l1 ++ l2) b <-> exists m, seg a l1 m /\ seg m l2 b.
Proof.
  revert a. induction l1 as [|o l1 IH]; intros a; simpl.
  - naive_solver.
  - rewrite IH. naive_solver.
Qed.

Lemma seg_le a l b : seg a l b -> a <= b.
Proof. revert a. induction l as [|o l IH]; intros a; simpl; [lia|]. intros (? & ? & ?%IH). lia. Qed.

Lemma seg_bounds a l b o : seg a l b -> o ∈ l -> a <= oFrom o /\ oFrom o <= oTo o /\ oTo o < b.
Proof.
  revert a. induction l as [|o' l IH]; intros a; [by intros ? ?%elem_of_nil|].
  simpl. intros (Ha & Hle & Hs) [->|Hin]%elem_of_cons.
  - pose proof (seg_le _ _ _ Hs). lia.
  - destruct (IH _ Hs Hin). lia.
Qed.

Lemma in_owner_true o h : in_owner o h = true <-> oFrom o <= h <= oTo o.
Proof. unfold in_owner. rewrite andb_true_iff, !Z.leb_le. lia. Qed.
Lemma in_owner_false o h : in_owner o h = false <-> ~ (oFrom o <= h <= oTo o).
Proof. rewrite <- not_true_iff_false, in_owner_true. done. Qed.
Lemma in_hrange_true rg h : in_hrange rg h = true <-> rFrom rg <= h <= rTo rg.
Proof. unfold in_hrange. rewrite andb_true_iff, !Z.leb_le. lia. Qed.
Lemma in_hrange_false rg h : in_hrange rg h = false <-> ~ (rFrom rg <= h <= rTo rg).
Proof. rewrite <- not_true_iff_false, in_hrange_true. done. Qed.

Lemma owner_at_app l1 l2 h :
  owner_at (l1 ++ l2) h = match owner_at l1 h with Some x => Some x | None => owner_at l2 h end.
Proof. induction l1 as [|o l1 IH]; simpl; [done|]. by destruct (in_owner o h). Qed.

(** In a segment, the hashes outside it have no owner and those inside have one. *)
Lemma owner_at_outside a l b h : seg a l b -> ~ (a <= h < b) -> owner_at l h = None.
Proof.
  revert a. induction l as [|o l IH]; intros a; simpl; [done|].
  intros (Ha & Hle & Hs) Hout. pose proof (seg_le _ _ _ Hs).
  destruct (in_owner o h) eqn:E; [apply in_owner_true in E; lia|]. eapply IH; [done|].
  apply in_owner_false in E. lia.
Qed.

Lemma owner_at_inside a l b h : seg a l b -> a <= h < b ->
  exists o, o ∈ l /\ in_owner o h = true /\ owner_at l h = Some (oLeg o).
Proof.
  revert a. induction l as [|o l IH]; intros a; simpl; [lia|].
  intros (Ha & Hle & Hs) Hin. destruct (in_owner o h) eqn:E.
  - exists o. by rewrite elem_of_cons; auto.
  - apply in_owner_false in E. destruct (IH _ Hs) as (o' & ? & ? & ?); [lia|].
    exists o'. rewrite elem_of_cons. auto.
Qed.

Lemma owner_at_elem a l b h o : seg a l b -> o ∈ l -> in_owner o h = true -> owner_at l h = Some (oLeg o).
Proof.
  revert a. induction l as [|o' l IH]; intros a; [by intros ? ?%elem_of_nil|].
  simpl. intros (Ha & Hle & Hs) [->|Hin]%elem_of_cons Hh; [by rewrite Hh|].
  destruct (seg_bounds _ _ _ _ Hs Hin) as (? & ? & ?).
  apply in_owner_true in Hh. destruct (in_owner o' h) eqn:E; [apply in_owner_true in E; lia|].
  apply (IH _ Hs Hin). by apply in_owner_true.
Qed.

Lemma owner_at_Some l h x : owner_at l h = Some x -> exists o, o ∈ l /\ in_owner o h = true /\ oLeg o = x.
Proof.
  induction l as [|o l IH]; simpl; [done|]. destruct (in_owner o h) eqn:E.
  - intros [= <-]. exists o. rewrite elem_of_cons. auto.
  - intros H. destruct (IH H) as (o' & ? & ? & ?). exists o'. rewrite elem_of_cons. auto.
Qed.

(** ** checkOwners decides the specification *)

Lemma seg_at_end l : seg two64 l two64 <-> l = [].
Proof.
  split; [|by intros ->]. destruct l as [|o l]; [done|]. intros (? & ? & ?%seg_le). lia.
Qed.

Lemma checkOwners_from_Ok legs i next owners u :
  Forall owner_u64 owners -> is_u64 next -> (i = 0%nat -> next = 0) ->
  checkOwners_from legs i next owners = Ok u <->
  seg next owners two64 /\ Forall (fun o => hasLeg legs (oLeg o) = true) owners.
Proof.
  destruct u. revert i next. induction owners as [|o rest IH]; intros i next Hu Hn Hi; simpl.
  - split; [done|]. unfold is_u64 in Hn. intros [-> _]. lia.
  - apply list.Forall_cons in Hu as [[Hf Ht] Hu]. rewrite list.Forall_cons.
    destruct (hasLeg legs (oLeg o)) eqn:El; simpl; [|split; [done|]; intros (_ & [=] & _)].
    destruct (Z.eqb_spec (oFrom o) next) as [<-|Hne]; simpl;
      [|split; [by destruct ((i =? 0)%nat && negb (oFrom o =? 0))|by intros ((? & _) & _)]].
    replace ((i =? 0)%nat && negb (oFrom o =? 0)) with false;
      [|by destruct (Nat.eqb_spec i 0) as [->|]; [rewrite Hi|]].
    destruct (Z.ltb_spec (oTo o) (oFrom o)); [split; [done|]; intros ((? & ? & _) & _); lia|].
    destruct (Z.eqb_spec (oTo o) MaxUint64) as [Hmax|Hmax].
    + rewrite Hmax. change (MaxUint64 + 1) with two64. rewrite seg_at_end.
      destruct rest; [|split; [done|]; intros ((_ & _ & [=]) & _)].
      split; [|done]. intros _. rewrite Hmax in *. auto.
    + assert (oTo o + 1 < two64) by (unfold is_u64, two64, MaxUint64 in *; lia).
      rewrite (u64_id (oTo o + 1)) by (unfold is_u64 in *; lia).
      rewrite IH by (try done; unfold is_u64 in *; lia).
      split; [intros [??]|intros ((_ & _ & ?) & _ & ?)]; auto.
Qed.

Lemma checkOwners_Ok legs owners u :
  Forall owner_u64 owners ->
  checkOwners owners legs = Ok u <->
  partition owners /\ Forall (fun o => hasLeg legs (oLeg o) = true) owners.
Proof.
  intros Hu. unfold checkOwners, partition. destruct owners as [|o rest].
  - split; [done|]. by intros [[=] _].
  - by apply checkOwners_from_Ok.
Qed.

(** ** The binary search is the definition *)

Section Search.
Variable f : nat -> bool.
Variable n : nat.
Hypothesis f_mono : forall i j, (i <= j < n)%nat -> f i = true -> f j = true.

(** With fuel for the interval, Search finds the first index at which f holds. *)
Lemma Search_spec fuel i j :
  (j <= n)%nat -> (i <= j)%nat -> (j - i <= fuel)%nat ->
  (forall k, (k < i)%nat -> f k = false) -> (forall k, (j <= k < n)%nat -> f k = true) ->
  let r := Search fuel f i j in
  (i <= r <= j)%nat /\ (forall k, (k < r)%nat -> f k = false) /\ (forall k, (r <= k < n)%nat -> f k = true).
Proof.
  revert i j. induction fuel as [|fuel IH]; intros i j Hj Hij Hfuel Hlo Hhi; simpl.
  - assert (i = j) as -> by lia. auto.
  - destruct (Nat.ltb_spec i j); [|assert (i = j) as -> by lia; auto].
    assert (i <= Nat.div2 (i + j) < j)%nat as Hh.
    { rewrite Nat.div2_div. split; [apply Nat.div_le_lower_bound; lia|apply Nat.Div0.div_lt_upper_bound; lia]. }
    destruct (f (Nat.div2 (i + j))) eqn:E.
    + destruct (IH i (Nat.div2 (i + j))) as (? & ? & ?); try lia; auto.
      { intros k Hk. apply (f_mono (Nat.div2 (i + j))); [lia|done]. }
      split; [lia|auto].
    + destruct (IH (S (Nat.div2 (i + j))) j) as (? & ? & ?); try lia; auto.
      { intros k Hk. destruct (f k) eqn:Ek; [|done]. rewrite <- E. symmetry. apply (f_mono k); [lia|done]. }
      split; [lia|auto].
Qed.
End Search.

Lemma seg_To_mono a l b i j o1 o2 :
  seg a l b -> (i <= j)%nat -> l !! i = Some o1 -> l !! j = Some o2 -> oTo o1 <= oTo o2.
Proof.
  revert a i j. induction l as [|o l IH]; intros a [|i] [|j] Hs Hij H1 H2; simplify_eq/=; try lia.
  - destruct Hs as (_ & _ & Hs). destruct (seg_bounds _ _ _ o2 Hs); [by eapply list_elem_of_lookup_2|]. lia.
  - destruct Hs as (_ & _ & Hs). eapply (IH _ i j); [done|lia|done|done].
Qed.

(** In a segment the owner of h is the first range that ends at or after h. *)
Lemma owner_at_first a l b h r :
  seg a l b -> a <= h < b -> (r <= length l)%nat ->
  (forall k o, (k < r)%nat -> l !! k = Some o -> oTo o < h) ->
  (forall o, l !! r = Some o -> h <= oTo o) ->
  exists o, l !! r = Some o /\ owner_at l h = Some (oLeg o).
Proof.
  revert a r. induction l as [|o l IH]; intros a r Hs Hh Hr Hlo Hhi; simpl in *; [lia|].
  destruct Hs as (Ha & Hle & Hs). destruct r as [|r].
  - exists o. split; [done|]. specialize (Hhi o eq_refl).
    destruct (in_owner o h) eqn:E; [done|]. apply in_owner_false in E. lia.
  - pose proof (Hlo 0%nat o ltac:(lia) eq_refl).
    destruct (in_owner o h) eqn:E; [apply in_owner_true in E; lia|].
    apply (IH (oTo o + 1)); auto with lia.
    intros k o' Hk Ho'. apply (Hlo (S k)); [lia|done].
Qed.

Lemma OwnerIn_owner_at l h : partition l -> is_u64 h -> owner_at l h = Some (OwnerIn l h).
Proof.
  intros Hp Hh. unfold OwnerIn. set (f := fun i => _).
  assert (Hf : forall i j, (i <= j < length l)%nat -> f i = true -> f j = true).
  { intros i j Hij. subst f. simpl.
    destruct (lookup_lt_is_Some_2 l i) as [o1 E1]; [lia|].
    destruct (lookup_lt_is_Some_2 l j) as [o2 E2]; [lia|].
    rewrite E1, E2. rewrite !Z.leb_le. pose proof (seg_To_mono _ _ _ _ _ _ _ Hp (proj1 Hij) E1 E2). lia. }
  destruct (Search_spec f (length l) Hf (length l) 0 (length l)) as (? & Hlo & Hhi); try lia.
  set (r := Search _ _ _ _) in *.
  destruct (owner_at_first 0 l two64 h r) as (o & Ho & Hat); auto.
  - lia.
  - intros k o Hk Ho. specialize (Hlo k Hk). subst f. simpl in Hlo. rewrite Ho in Hlo. lia.
  - intros o Ho. specialize (Hhi r ltac:(apply lookup_lt_Some in Ho; lia)). subst f. simpl in Hhi.
    rewrite Ho in Hhi. lia.
  - by rewrite Ho.
Qed.

(** ** reassign *)

Lemma add_owner_spec out o b :
  seg 0 (reverse out) b -> oFrom o = b -> oFrom o <= oTo o -> oTo o < two64 ->
  seg 0 (reverse (add_owner out o)) (oTo o + 1) /\
  forall h, owner_at (reverse (add_owner out o)) h =
            if in_owner o h then Some (oLeg o) else owner_at (reverse out) h.
Proof.
  intros Hs Hb Hle Hlt.
  assert (H0 : 0 <= b) by by apply seg_le in Hs.
  assert (Hsimple : seg 0 (reverse out ++ [o]) (oTo o + 1) /\
    forall h, owner_at (reverse out ++ [o]) h =
              if in_owner o h then Some (oLeg o) else owner_at (reverse out) h).
  { split; [apply seg_app; exists b; simpl; auto|]. intros h. rewrite owner_at_app. simpl.
    destruct (in_owner o h) eqn:E; [|by destruct (owner_at (reverse out) h)].
    rewrite (owner_at_outside _ _ _ h Hs); [done|]. apply in_owner_true in E. lia. }
  unfold add_owner. destruct out as [|prev tl]; [done|].
  rewrite (reverse_cons (prev :: tl) o) || idtac.
  destruct (bool_decide (oLeg prev = oLeg o)) eqn:El; simpl; [|by rewrite (reverse_cons _ o)].
  destruct (Z.eqb_spec (u64 (oTo prev + 1)) (oFrom o)) as [Ht|]; simpl; [|by rewrite (reverse_cons _ o)].
  clear Hsimple. apply bool_decide_eq_true in El. rewrite !reverse_cons in *.
  apply seg_app in Hs as (m & Hs1 & Hs2). destruct Hs2 as (Hpf & Hple & Hpb). simpl in Hpb.
  split.
  - apply seg_app. exists m. simpl. split; [done|]. lia.
  - intros h. rewrite !owner_at_app. simpl. unfold in_owner. simpl. rewrite <- El.
    destruct (owner_at (reverse tl) h) eqn:Eh.
    + destruct (oFrom o <=? h) eqn:?, (h <=? oTo o) eqn:?; simpl; try done.
      rewrite (owner_at_outside _ _ _ h Hs1) in Eh; [done|]. lia.
    + destruct (oFrom o <=? h) eqn:?, (h <=? oTo o) eqn:?, (oFrom prev <=? h) eqn:?, (h <=? oTo prev) eqn:?;
        simpl; try done; lia.
Qed.

(** Adding the ranges of a segment, one after the other. *)
Lemma add_owners_spec l out a b :
  seg 0 (reverse out) a -> seg a l b -> b <= two64 ->
  let out' := foldl add_owner out l in
  seg 0 (reverse out') b /\
  forall h, owner_at (reverse out') h =
            match owner_at l h with Some x => Some x | None => owner_at (reverse out) h end.
Proof.
  revert out a. induction l as [|o l IH]; intros out a Hout Hl Hb; simpl.
  - simpl in Hl. subst. auto.
  - destruct Hl as (Ha & Hle & Hl). pose proof (seg_le _ _ _ Hl).
    destruct (add_owner_spec out o a) as [Hs Hat]; auto with lia.
    destruct (IH (add_owner out o) _ Hs Hl Hb) as [Hs' Hat']. split; [done|]. intros h.
    rewrite Hat', Hat. destruct (owner_at l h) eqn:E, (in_owner o h) eqn:E'; try done.
    apply in_owner_true in E'. rewrite (owner_at_outside _ _ _ h Hl) in E; [done|]. lia.
Qed.

(** A range is either apart from rg or holds all of it: true of a table when one leg's range holds rg. *)
Definition apart_or_holds (rg : HashRange) (o : Owner) : Prop :=
  oTo o < rFrom rg \/ rTo rg < oFrom o \/ (oFrom o <= rFrom rg /\ rTo rg <= oTo o).

Lemma seg_apart_or_holds a l b rg o0 :
  seg a l b -> o0 ∈ l -> oFrom o0 <= rFrom rg -> rTo rg <= oTo o0 -> rFrom rg <= rTo rg ->
  forall o, o ∈ l -> apart_or_holds rg o.
Proof.
  intros Hs Hin H1 H2 H3 o Ho. unfold apart_or_holds.
  destruct (decide (oTo o < rFrom rg)), (decide (rTo rg < oFrom o)); auto.
  right; right. assert (in_owner o (Z.max (oFrom o) (rFrom rg)) = true) as E1.
  { apply in_owner_true. destruct (seg_bounds _ _ _ _ Hs Ho). lia. }
  assert (in_owner o0 (Z.max (oFrom o) (rFrom rg)) = true) as E2 by (apply in_owner_true; lia).
  clear -Hs Hin Ho E1 E2 H1 H2. revert a Hs. induction l as [|o' l IH]; intros a; [by apply elem_of_nil in Ho|].
  simpl. intros (? & ? & Hs). apply elem_of_cons in Ho as [->|Ho], Hin as [->|Hin]; auto.
  - destruct (seg_bounds _ _ _ _ Hs Hin). apply in_owner_true in E1, E2. lia.
  - destruct (seg_bounds _ _ _ _ Hs Ho). apply in_owner_true in E1, E2. lia.
  - by eapply IH.
Qed.

Lemma reassign_pieces_spec rg leg o :
  apart_or_holds rg o -> rFrom rg <= rTo rg -> oFrom o <= oTo o -> 0 <= oFrom o -> oTo o < two64 ->
  seg (oFrom o) (reassign_pieces rg leg o) (oTo o + 1) /\
  forall h, owner_at (reassign_pieces rg leg o) h =
            if in_owner o h then Some (if in_hrange rg h then leg else oLeg o) else None.
Proof.
  intros Hap Hr Ho H0 Ht. unfold reassign_pieces, apart_or_holds in *.
  destruct ((oTo o <? rFrom rg) || (rTo rg <? oFrom o)) eqn:E.
  - simpl. split; [auto|]. intros h. destruct (in_owner o h) eqn:Eh; [|done].
    apply in_owner_true in Eh. destruct (in_hrange rg h) eqn:Er; [|done]. apply in_hrange_true in Er. lia.
  - destruct Hap as [?|[?|[Hf Hto]]]; [lia|lia|].
    destruct (Z.ltb_spec (oFrom o) (rFrom rg)), (Z.leb_spec (oFrom o) (rFrom rg)), (Z.ltb_spec (rTo rg) (oTo o));
      try lia; simpl; rewrite ?(u64_id (rFrom rg - 1)), ?(u64_id (rTo rg + 1)) by (unfold is_u64; lia).
    all: split; [lia|]; intros h; unfold in_owner, in_hrange; simpl;
      destruct (Z.leb_spec (oFrom o) h), (Z.leb_spec h (oTo o)), (Z.leb_spec (rFrom rg) h), (Z.leb_spec h (rTo rg)),
        (Z.leb_spec h (rFrom rg - 1)), (Z.leb_spec (rTo rg + 1) h); simpl; try done; lia.
Qed.

Lemma reassign_loop_spec rg leg l out a b :
  (forall o, o ∈ l -> apart_or_holds rg o) -> rFrom rg <= rTo rg ->
  seg 0 (reverse out) a -> seg a l b -> b <= two64 ->
  let out' := foldl (fun out o => foldl add_owner out (reassign_pieces rg leg o)) out l in
  seg 0 (reverse out') b /\
  forall h, owner_at (reverse out') h =
            match owner_at l h with
            | Some x => Some (if in_hrange rg h then leg else x)
            | None => owner_at (reverse out) h
            end.
Proof.
  intros Hap Hr. revert out a. induction l as [|o l IH]; intros out a Hout Hl Hb; simpl.
  - simpl in Hl. subst. auto.
  - destruct Hl as (Ha & Hle & Hl). pose proof (seg_le _ _ _ Hl). pose proof (seg_le _ _ _ Hout).
    destruct (reassign_pieces_spec rg leg o) as [Hs1 Hat1]; auto with lia.
    { apply Hap. rewrite elem_of_cons. auto. }
    rewrite <- Ha in Hout. destruct (add_owners_spec _ _ _ _ Hout Hs1) as [Hs2 Hat2]; [lia|].
    destruct (IH ltac:(intros; apply Hap; rewrite elem_of_cons; auto) _ _ Hs2 Hl Hb) as [Hs3 Hat3].
    split; [done|]. intros h. rewrite Hat3, Hat2, Hat1.
    destruct (owner_at l h) eqn:E, (in_owner o h) eqn:E'; try done.
    apply in_owner_true in E'. rewrite (owner_at_outside _ _ _ h Hl) in E; [done|]. lia.
Qed.

(** The range a move takes lies inside one range of the table. *)
Definition held_by (l : list Owner) (rg : HashRange) (leg : string) : Prop :=
  rFrom rg <= rTo rg /\ exists o, o ∈ l /\ oLeg o = leg /\ oFrom o <= rFrom rg /\ rTo rg <= oTo o.

Lemma reassign_spec l rg src leg :
  partition l -> held_by l rg src ->
  partition (reassign l rg leg) /\
  forall h, is_u64 h ->
    owner_at (reassign l rg leg) h = (if in_hrange rg h then Some leg else owner_at l h).
Proof.
  intros Hp (Hr & o & Hin & _ & H1 & H2).
  pose proof (seg_apart_or_holds _ _ _ _ _ Hp Hin H1 H2 Hr) as Hap.
  destruct (reassign_loop_spec rg leg l [] 0 two64 Hap Hr) as [Hs Hat]; try done.
  split; [done|]. intros h Hh. unfold reassign. rewrite Hat.
  destruct (owner_at_inside _ _ _ h Hp Hh) as (o' & _ & _ & ->). by destruct (in_hrange rg h).
Qed.

(** ** Even splits *)

Definition even_owner (n width : Z) (i : nat) (leg : string) : Owner :=
  let i := Z.of_nat i in
  mkOwner (u64 (i * width)) (if i =? n - 1 then MaxUint64 else u64 ((i + 1) * width - 1)) leg.

Lemma even_seg n width legs i :
  n = Z.of_nat (i + length legs) -> width = MaxUint64 / n -> n <= MaxUint64 -> legs <> [] ->
  seg (Z.of_nat i * width) (imap (fun j => even_owner n width (i + j)) legs) two64.
Proof.
  intros Hn Hw Hmax. revert i Hn. induction legs as [|leg legs IH]; intros i Hn Hne; [done|].
  simpl in Hn. rewrite imap_cons. simpl. rewrite Nat.add_0_r.
  assert (1 <= width) as Hw1.
  { rewrite Hw. apply Z.div_le_lower_bound; lia. }
  assert (n * width <= MaxUint64) as Hnw by (rewrite Hw; apply Z.mul_div_le; lia).
  assert (Z.of_nat i * width < two64) as Hi by (unfold two64, MaxUint64 in *; nia).
  assert ((Z.of_nat i + 1) * width <= MaxUint64) as Hi1 by nia.
  rewrite (u64_id (Z.of_nat i * width)) by (unfold is_u64; nia). split; [done|].
  rewrite (u64_id ((Z.of_nat i + 1) * width - 1)) by (unfold is_u64, two64, MaxUint64 in *; nia).
  destruct legs as [|leg' legs].
  - destruct (Z.eqb_spec (Z.of_nat i) (n - 1)); [|simpl in Hn; lia].
    split; [unfold two64, MaxUint64 in *; lia|done].
  - destruct (Z.eqb_spec (Z.of_nat i) (n - 1)); [simpl in Hn; lia|]. split; [nia|].
    replace ((Z.of_nat i + 1) * width - 1 + 1) with (Z.of_nat (S i) * width) by lia.
    specialize (IH (S i) ltac:(simpl in *; lia) ltac:(done)).
    replace (imap ((fun j => even_owner n width (i + j)) ∘ S) (leg' :: legs))
      with (imap (fun j => even_owner n width (S i + j)) (leg' :: legs)); [done|].
    apply imap_ext. intros j x _. simpl. by rewrite Nat.add_succ_r.
Qed.

Lemma EvenOwners_partition legs :
  legs <> [] -> Z.of_nat (length legs) <= MaxUint64 ->
  exists owners, EvenOwners legs = Some owners /\ partition owners /\ oLeg <$> owners = legs.
Proof.
  intros Hne Hmax. unfold EvenOwners.
  destruct (Z.eqb_spec (Z.of_nat (length legs)) 0); [destruct legs; simpl in *; [done|lia]|].
  eexists. split; [done|]. split.
  - by apply (even_seg (Z.of_nat (length legs)) (MaxUint64 / Z.of_nat (length legs)) legs 0).
  - clear. unfold fmap. generalize (Z.of_nat (length legs)) as n. intros n.
    assert (forall f : nat -> string -> Owner, (forall i leg, oLeg (f i leg) = leg) ->
      list_fmap string string id legs = list_fmap _ _ oLeg (imap f legs)) as Hgen.
    { induction legs as [|x legs IH]; intros f Hf; [done|]. rewrite imap_cons. simpl. rewrite Hf.
      f_equal. apply IH. intros. apply Hf. }
    rewrite <- Hgen by done. clear. by induction legs; f_equal/=.
Qed.

(** ** The leading share *)

(** How many ten-thousandths of the range a share takes. *)
Definition share_parts (share : f64) : Z :=
  if f64_leb f1 share then 10000
  else match f64_mul share (f64_of_Z 10000) with
       | Fin n => Z.max 1 ((2 * n + f_unit) / (2 * f_unit))
       | _ => 1
       end.

Lemma f64_10000 : f64_of_Z 10000 = Fin (10000 * f_unit).
Proof. vm_compute. reflexivity. Qed.
Lemma f64_mul_one_10000 : f64_mul f1 (f64_of_Z 10000) = Fin (10000 * f_unit).
Proof. vm_compute. reflexivity. Qed.

(** A share below one times 10,000 is a finite float of at most 10,000. *)
Lemma share_product share :
  nonneg share -> f64_leb f1 share = false ->
  exists n, f64_mul share (f64_of_Z 10000) = Fin n /\ 0 <= n <= 10000 * f_unit.
Proof.
  intros Hs Hlt. pose proof f_unit_pos as Hu.
  assert (f64_leb share f1 = true) as Hle.
  { rewrite f1_unit in *. destruct share as [| |m]; simpl in *; try done. lia. }
  assert (nonneg f1) as H1 by (rewrite f1_unit; simpl; lia).
  assert (nonneg (f64_of_Z 10000)) as H2 by (rewrite f64_10000; simpl; lia).
  pose proof (f64_mul_mono _ _ _ Hs H1 H2 Hle) as Hm. rewrite f64_mul_one_10000 in Hm.
  destruct share as [| |m]; [destruct Hs|destruct Hs|]. rewrite f64_10000 in *. simpl in Hs, Hm |- *.
  rewrite rnd_signed_nonneg in * by (apply Z.mul_nonneg_nonneg; lia).
  assert (0 <= rnd (m * (10000 * f_unit)) unit_exp) by (apply rnd_nonneg; [nia|done]).
  destruct (pack_le_Fin _ _ H Hm) as [-> ?].
  eexists. split; [reflexivity|]. split; assumption.
Qed.

Lemma share_parts_range share : nonneg share -> 1 <= share_parts share <= 10000.
Proof.
  intros Hs. unfold share_parts. destruct (f64_leb f1 share) eqn:E; [lia|].
  destruct (share_product _ Hs E) as (n & -> & Hn). pose proof f_unit_pos as Hu. split; [lia|].
  apply Z.max_lub; [lia|]. apply Z.lt_succ_r, Z.div_lt_upper_bound; lia.
Qed.

Lemma share_parts_mono s1 s2 :
  nonneg s1 -> nonneg s2 -> f64_leb s1 s2 = true -> share_parts s1 <= share_parts s2.
Proof.
  intros H1 H2 Hle. pose proof (share_parts_range _ H1) as Hr1. pose proof f_unit_pos as Hu.
  unfold share_parts at 2. destruct (f64_leb f1 s2) eqn:E2; [lia|]. unfold share_parts in *.
  destruct (f64_leb f1 s1) eqn:E1; [rewrite (f64_leb_trans _ _ _ E1 Hle) in E2; done|].
  destruct (share_product _ H1 E1) as (n1 & Hp1 & _), (share_product _ H2 E2) as (n2 & Hp2 & _).
  assert (nonneg (f64_of_Z 10000)) as H3 by (rewrite f64_10000; simpl; lia).
  pose proof (f64_mul_mono _ _ _ H1 H2 H3 Hle) as Hm. rewrite Hp1, Hp2 in *. apply Z.leb_le in Hm.
  apply Z.max_le_compat_l, Z.div_le_mono; lia.
Qed.

Lemma share_conversion share :
  nonneg share -> f64_leb f1 share = false ->
  f64_to_u64 (f64_max f1 (f64_round (f64_mul share (f64_of_Z 10000)))) = Some (share_parts share).
Proof.
  intros Hs Hlt. pose proof (share_parts_range _ Hs) as Hr. unfold share_parts in *. rewrite Hlt in *.
  destruct (share_product _ Hs Hlt) as (n & Hp & Hn). rewrite Hp in *. pose proof f_unit_pos as Hu.
  rewrite f1_unit. unfold f64_max. simpl. set (p := (2 * n + f_unit) / (2 * f_unit)) in *.
  assert (Z.sgn n * ((2 * Z.abs n + f_unit) / (2 * f_unit)) * f_unit = p * f_unit) as ->.
  { destruct (decide (n = 0)) as [->|]; [|rewrite Z.sgn_pos, Z.abs_eq by lia; lia].
    subst p. simpl. rewrite Z.div_small by lia. done. }
  destruct (Z.ltb_spec f_unit (p * f_unit)); unfold f64_to_u64.
  - rewrite Z.quot_mul by lia. assert (1 <= p) by nia.
    rewrite (proj2 (Z.leb_le 0 p)), (proj2 (Z.ltb_lt p two64)) by (unfold two64; lia). simpl. f_equal. lia.
  - rewrite Z.quot_same by lia. assert (p <= 1) by nia. simpl. f_equal. lia.
Qed.

(** The 128-bit arithmetic computes the quotient exactly, without a panic. *)
Lemma share_quotient w k :
  is_u64 w -> 1 <= k < 10000 ->
  let '(hi, lo) := Mul64 w k in
  let '(lo', carry) := Add64 lo k 0 in
  Div64 (u64 (hi + carry)) lo' 10000 = Some ((w + 1) * k / 10000, (w + 1) * k mod 10000).
Proof.
  intros Hw Hk. unfold Mul64, Add64, Div64, is_u64 in *. rewrite Z.add_0_r.
  pose proof (Z.div_mod (w * k) two64 ltac:(done)) as Hdm. fold (u64 (w * k)) in Hdm.
  pose proof (u64_range (w * k)) as Hlo. unfold is_u64 in Hlo.
  set (hi := w * k / two64) in *. set (lo := u64 (w * k)) in *.
  pose proof (Z.div_mod (lo + k) two64 ltac:(done)) as Hdm2. fold (u64 (lo + k)) in Hdm2.
  pose proof (u64_range (lo + k)) as Hlo2. unfold is_u64 in Hlo2.
  set (carry := (lo + k) / two64) in *. set (lo' := u64 (lo + k)) in *.
  assert (hi * two64 + carry * two64 + lo' = (w + 1) * k) as Hsum by lia.
  assert ((w + 1) * k < two64 * 10000) as Hb by nia.
  assert (0 <= hi + carry < 10000) as Hhi by (unfold two64 in *; nia).
  rewrite (u64_id (hi + carry)) by (unfold is_u64, two64; lia).
  rewrite (proj2 (Z.leb_gt 10000 (hi + carry))) by lia. simpl.
  replace ((hi + carry) * two64 + lo') with ((w + 1) * k) by lia. done.
Qed.

Lemma LeadingShare_formula r share :
  is_u64 (rFrom r) -> is_u64 (rTo r) -> rFrom r <= rTo r -> nonneg share ->
  LeadingShare r share =
  Some (mkRange (rFrom r) (rFrom r + Z.max 1 ((rTo r - rFrom r + 1) * share_parts share / 10000) - 1)).
Proof.
  intros Hf Ht Hle Hs. pose proof (share_parts_range _ Hs) as Hk. unfold is_u64 in *.
  assert (share_parts share = 10000 -> Z.max 1 ((rTo r - rFrom r + 1) * share_parts share / 10000)
    = rTo r - rFrom r + 1) as Hwhole by (intros ->; rewrite Z.div_mul by done; lia).
  assert (r = mkRange (rFrom r) (rTo r)) as Hr by by destruct r.
  unfold LeadingShare. destruct (f64_leb f1 share) eqn:E; cbn [orb].
  - rewrite Hwhole by (unfold share_parts; rewrite E; reflexivity). rewrite Hr at 1. do 2 f_equal. lia.
  - rewrite (proj2 (Z.ltb_ge (rTo r) (rFrom r)) Hle).
    rewrite (share_conversion _ Hs E). cbn [mbind option_bind].
    destruct (Z.leb_spec 10000 (share_parts share)).
    + rewrite Hwhole by lia. rewrite Hr at 1. do 2 f_equal. lia.
    + pose proof (share_quotient (u64 (rTo r - rFrom r)) (share_parts share)) as Hq.
      rewrite (u64_id (rTo r - rFrom r)) in * by (unfold is_u64; lia).
      destruct (Mul64 _ _) as [hi lo]. destruct (Add64 _ _ _) as [lo' carry].
      rewrite Hq by (unfold is_u64; lia). cbn [mbind option_bind].
      set (q := _ / 10000). assert (0 <= q <= rTo r - rFrom r) as Hqr.
      { split; [apply Z.div_pos; nia|]. apply Z.lt_succ_r, Z.div_lt_upper_bound; nia. }
      destruct (Z.eqb_spec q 0); [do 2 f_equal; lia|].
      rewrite (u64_id (q - 1)), u64_id by (unfold is_u64; lia). do 2 f_equal. lia.
Qed.

(** ** The text form *)

Lemma hexval_hexdigit d : 0 <= d < 16 -> hexval (hexdigit d) = Some d.
Proof.
  intros Hd. assert (d ∈ (Z.of_nat <$> seq 0 16)) as Hin.
  { apply list_elem_of_fmap. exists (Z.to_nat d). split; [lia|]. apply elem_of_seq. lia. }
  repeat (apply elem_of_cons in Hin as [->|Hin]; [reflexivity|]). by apply elem_of_nil in Hin.
Qed.

Lemma parse_hex_digits n h acc :
  0 <= h -> parse_hex acc (hex_digits n h) = Some (acc * 16 ^ Z.of_nat n + h mod 16 ^ Z.of_nat n).
Proof.
  intros Hh. revert acc. induction n as [|n IH]; intros acc; cbn [hex_digits parse_hex].
  - simpl. rewrite Z.mod_1_r. f_equal. lia.
  - rewrite hexval_hexdigit by by apply Z.mod_pos_bound. cbn [mbind option_bind]. rewrite IH.
    f_equal. rewrite Nat2Z.inj_succ, Z.pow_succ_r by lia.
    rewrite (Z.mul_comm 16), (Z.rem_mul_r h (16 ^ Z.of_nat n) 16) by (try apply Z.pow_nonzero; lia). lia.
Qed.

Lemma length_hex_digits n h : String.length (hex_digits n h) = n.
Proof. induction n; simpl; auto. Qed.

(** ** Properties *)

(** A table [checkOwners] accepts gives every hash exactly one owner, and the binary search of
    [OwnerIn] returns it: the leg of the one range that holds the hash, a leg of the placement. *)
Theorem OwnerIn_correct (owners : list Owner) (legs : option (gmap string Leg)) (h : Z)
    (Hu : Forall owner_u64 owners) (Hc : checkOwners owners legs = Ok ()) (Hh : is_u64 h) :
  exists o, o ∈ owners /\ oFrom o <= h <= oTo o /\ OwnerIn owners h = oLeg o /\
    hasLeg legs (oLeg o) = true /\
    forall o', o' ∈ owners -> oFrom o' <= h <= oTo o' -> oLeg o' = oLeg o.
Proof.
  apply checkOwners_Ok in Hc as [Hp Hl]; [|done].
  destruct (owner_at_inside _ _ _ h Hp Hh) as (o & Hin & Hio & Hat).
  exists o. split; [done|]. split; [by apply in_owner_true|].
  pose proof (OwnerIn_owner_at _ _ Hp Hh) as Ho. split; [congruence|].
  split; [rewrite list.Forall_forall in Hl; by apply Hl|]. intros o' Hin' Hio'%in_owner_true.
  pose proof (owner_at_elem _ _ _ _ _ Hp Hin' Hio'). congruence.
Qed.

Definition example_legs : option (gmap string Leg) :=
  Some {[ "a" := mkLeg "a" "b1"; "b" := mkLeg "b" "b2" ]}.
Definition example_owners : list Owner := [mkOwner 0 99 "a"; mkOwner 100 MaxUint64 "b"].

Lemma OwnerIn_correct_witness :
  exists o, o ∈ example_owners /\ oFrom o <= 100 <= oTo o /\ OwnerIn example_owners 100 = oLeg o /\
    hasLeg example_legs (oLeg o) = true /\
    forall o', o' ∈ example_owners -> oFrom o' <= 100 <= oTo o' -> oLeg o' = oLeg o.
Proof.
  apply (OwnerIn_correct example_owners example_legs 100); [repeat constructor| |]; by vm_compute.
Defined.

(** [EvenOwners] gives one range to each leg, in the order given, and the ranges partition the
    hash space, so [checkOwners] accepts the table for any placement that has the legs. *)
Theorem EvenOwners_valid (names : list string) (legs : option (gmap string Leg))
    (Hne : names <> []) (Hmax : Z.of_nat (length names) <= MaxUint64)
    (Hlegs : Forall (fun n => hasLeg legs n = true) names) :
  exists owners, EvenOwners names = Some owners /\ oLeg <$> owners = names /\
    checkOwners owners legs = Ok ().
Proof.
  destruct (EvenOwners_partition names Hne Hmax) as (owners & He & Hp & Hn).
  exists owners. split; [done|]. split; [done|]. apply checkOwners_Ok.
  - rewrite list.Forall_forall. intros o Ho. destruct (seg_bounds _ _ _ _ Hp Ho).
    split; unfold is_u64; lia.
  - split; [done|]. subst names. by apply Forall_fmap in Hlegs.
Qed.

Lemma EvenOwners_valid_witness :
  exists owners, EvenOwners ["a"; "b"; "a"] = Some owners /\ oLeg <$> owners = ["a"; "b"; "a"] /\
    checkOwners owners example_legs = Ok ().
Proof.
  apply (EvenOwners_valid ["a"; "b"; "a"] example_legs); [done|done|repeat constructor].
Defined.

(** [reassign], used when a move ends, gives exactly the moved range to its new leg: the table
    still partitions the hash space, a hash in the range is owned by the new leg, and every other
    hash keeps the owner it had.  [OwnerIn] is the routing lookup. *)
Theorem reassign_correct (owners : list Owner) (rg : HashRange) (src leg : string)
    (Hp : partition owners) (Hheld : held_by owners rg src) :
  partition (reassign owners rg leg) /\
  forall h, is_u64 h ->
    OwnerIn (reassign owners rg leg) h = if in_hrange rg h then leg else OwnerIn owners h.
Proof.
  destruct (reassign_spec owners rg src leg Hp Hheld) as [Hp' Hat]. split; [done|]. intros h Hh.
  pose proof (OwnerIn_owner_at _ _ Hp' Hh) as H1. pose proof (OwnerIn_owner_at _ _ Hp Hh) as H2.
  rewrite Hat in H1 by done. destruct (in_hrange rg h); congruence.
Qed.

Lemma reassign_correct_witness :
  partition (reassign example_owners (mkRange 50 99) "b") /\
  forall h, is_u64 h -> OwnerIn (reassign example_owners (mkRange 50 99) "b") h =
    if in_hrange (mkRange 50 99) h then "b" else OwnerIn example_owners h.
Proof.
  apply (reassign_correct example_owners (mkRange 50 99) "a" "b").
  - by vm_compute.
  - split; [done|]. exists (mkOwner 0 99 "a"). split; [apply elem_of_cons; by left|]. done.
Defined.

(** C29: [LeadingShare] never panics on a real share: it returns the first keys of the range, at
    least one hash and never past the range's end, as many ten-thousandths of it as the share
    rounds to; and a larger share takes a superset of the keys of a smaller one. *)
Theorem LeadingShare_correct (r : HashRange) (s1 s2 : f64)
    (Hf : is_u64 (rFrom r)) (Ht : is_u64 (rTo r)) (Hle : rFrom r <= rTo r)
    (H1 : nonneg s1) (H2 : nonneg s2) (Hs : f64_leb s1 s2 = true) :
  exists r1 r2, LeadingShare r s1 = Some r1 /\ LeadingShare r s2 = Some r2 /\
    rFrom r1 = rFrom r /\ rFrom r2 = rFrom r /\
    rFrom r <= rTo r1 /\ rTo r1 <= rTo r2 /\ rTo r2 <= rTo r /\
    rTo r1 - rFrom r + 1 = Z.max 1 ((rTo r - rFrom r + 1) * share_parts s1 / 10000).
Proof.
  rewrite !LeadingShare_formula by done. do 2 eexists. do 2 (split; [reflexivity|]). simpl.
  pose proof (share_parts_range _ H1). pose proof (share_parts_range _ H2).
  pose proof (share_parts_mono _ _ H1 H2 Hs).
  assert ((rTo r - rFrom r + 1) * share_parts s1 / 10000 <= (rTo r - rFrom r + 1) * share_parts s2 / 10000)
    by (apply Z.div_le_mono; nia).
  assert ((rTo r - rFrom r + 1) * share_parts s2 / 10000 <= rTo r - rFrom r + 1)
    by (apply Z.lt_succ_r, Z.div_lt_upper_bound; nia).
  split_and!; lia.
Qed.

Lemma LeadingShare_correct_witness :
  exists r1 r2, LeadingShare FullRange (Fin (f_unit / 4)) = Some r1 /\
    LeadingShare FullRange (Fin (f_unit / 2)) = Some r2 /\
    rFrom r1 = rFrom FullRange /\ rFrom r2 = rFrom FullRange /\
    rFrom FullRange <= rTo r1 /\ rTo r1 <= rTo r2 /\ rTo r2 <= rTo FullRange /\
    rTo r1 - rFrom FullRange + 1 =
      Z.max 1 ((rTo FullRange - rFrom FullRange + 1) * share_parts (Fin (f_unit / 4)) / 10000).
Proof.
  apply (LeadingShare_correct FullRange (Fin (f_unit / 4)) (Fin (f_unit / 2)));
    vm_compute; try split; (reflexivity || (intros [=])).
Defined.

(** The text form of a hash reads back: [UnmarshalText] of the 16 digits [MarshalText] writes
    is the hash itself, for every 64-bit hash. *)
Theorem hash_text_roundtrip (h : Z) (Hh : is_u64 h) : UnmarshalText (MarshalText h) = Some h.
Proof.
  unfold UnmarshalText, MarshalText. rewrite length_hex_digits. rewrite decide_True by done.
  rewrite parse_hex_digits by (unfold is_u64 in Hh; lia). rewrite Z.mul_0_l, Z.add_0_l.
  f_equal. by apply Z.mod_small.
Qed.

Lemma hash_text_roundtrip_witness : UnmarshalText (MarshalText MaxUint64) = Some MaxUint64.
Proof. apply (hash_text_roundtrip MaxUint64). done. Defined.
