(* ===== verification/Config.v ===== *)
(** * Clusters and barriers (internal/config: barrier.go, config.go, validate.go)

    The definitions of backends the directory keeps, the drain barrier written on a placement or a
    cluster, and their validation.  A validation failure is its key, the dotted path the code
    names; the message is not modelled. *)

From S2P Require Import Prelude.

(** ** Barriers *)

Record Barrier : Type := mkBarrier { bID : string; bKind : string }.

#[export] Instance Barrier_eq_dec : EqDecision Barrier.
Proof. solve_decision. Defined.

Definition BarrierMutations : string := "mutations".
Definition BarrierSource : string := "source".

Definition ValidBarrierID (id : string) : bool :=
  if bool_decide (id = "") || (64 <? String.length id)%nat then false
  else all_bytes (fun c =>
    in_range "a" "z" c || in_range "A" "Z" c || in_range "0" "9" c ||
    bool_decide (c = "."%char) || bool_decide (c = "_"%char) || bool_decide (c = ":"%char) ||
    bool_decide (c = "-"%char)) id.

(** [Barrier.Validate] returns no error. *)
Definition Barrier_valid (b : Barrier) : bool :=
  ValidBarrierID (bID b) &&
  (bool_decide (bKind b = BarrierMutations) || bool_decide (bKind b = BarrierSource)).

(** ** Clusters *)

Record Capabilities : Type := mkCapabilities {
  EnforcesSHA256 : option bool;
  UnsignedTrailer : option bool;
  ConditionalWrite : option bool;
  ConditionalDelete : option bool;
}.

Record ClusterTLS : Type := mkClusterTLS { tlsCA : string; tlsInsecureSkipVerify : bool }.

Record Credentials : Type := mkCredentials { crAccessKey : string; crSecretRef : string }.

Record Cluster : Type := mkCluster {
  cType : string;
  cScheme : string;
  cRegion : string;
  cEndpointMode : string;
  cEndpoints : list string;
  cEndpoint : string;
  cTLS : ClusterTLS;
  cCredentials : Credentials;
  cStorageClasses : string;
  cStorageClass : string;
  cAccess : string;
  cCapabilities : Capabilities;
  cReadOnly : bool;
  cRejectWrites : bool;
  cBarrier : option Barrier;
}.

#[export] Instance Cluster_eq_dec : EqDecision Cluster.
Proof.
  assert (EqDecision Capabilities) by solve_decision.
  assert (EqDecision ClusterTLS) by solve_decision.
  assert (EqDecision Credentials) by solve_decision.
  solve_decision.
Defined.

(** Field updates. *)
Definition set_cEndpointMode (m : string) (c : Cluster) : Cluster :=
  mkCluster (cType c) (cScheme c) (cRegion c) m (cEndpoints c) (cEndpoint c) (cTLS c) (cCredentials c)
    (cStorageClasses c) (cStorageClass c) (cAccess c) (cCapabilities c) (cReadOnly c) (cRejectWrites c) (cBarrier c).
Definition set_cReadOnly (ro reject : bool) (b : option Barrier) (c : Cluster) : Cluster :=
  mkCluster (cType c) (cScheme c) (cRegion c) (cEndpointMode c) (cEndpoints c) (cEndpoint c) (cTLS c) (cCredentials c)
    (cStorageClasses c) (cStorageClass c) (cAccess c) (cCapabilities c) ro reject b.

(** ApplyClusterDefaults: an unset endpoint mode is static. *)
Definition ApplyClusterDefaults (m : gmap string Cluster) : gmap string Cluster :=
  (fun c => if bool_decide (cEndpointMode c = "") then c |> set_cEndpointMode "static" else c) <$> m.

Definition clusterTypes : list string := ["vast"; "minio"; "aws"; "s3"].
Definition schemes : list string := ["https"; "http"].
Definition endpointModes : list string := ["static"; "dns"].
Definition storageClasses : list string := ["native"; "emulated"].
Definition accessModes : list string := ["instant"; "restore-required"].
Definition archiveClasses : list string := ["GLACIER"; "DEEP_ARCHIVE"].

(** [errs.add] under a condition, and [errs.oneOf]: the failures it adds. *)
Definition add_if (b : bool) (key : string) : list string := if b then [key] else [].
Definition one_of (v : string) (allowed : list string) : bool := bool_decide (v ∈ allowed).
Definition oneOf (key v : string) (allowed : list string) : list string := add_if (negb (one_of v allowed)) key.

Definition validateStorageClassPairing (k : string) (cl : Cluster) : list string :=
  if bool_decide (cStorageClass cl = "") && bool_decide (cAccess cl = "") then []
  else if bool_decide (cStorageClass cl = "") then [k +:+ ".storage_class"]
  else if bool_decide (cAccess cl = "") then [k +:+ ".access"]
  else if negb (one_of (cAccess cl) accessModes) then [k +:+ ".access"]
  else
    add_if (bool_decide (cAccess cl = "restore-required") && negb (one_of (cStorageClass cl) archiveClasses)) (k +:+ ".access") ++
    add_if (bool_decide (cStorageClasses cl = "native")) (k +:+ ".storage_class").

(** The failures of one cluster, in the order the code adds them. *)
Definition validateCluster (k : string) (cl : Cluster) : list string :=
  oneOf (k +:+ ".type") (cType cl) clusterTypes ++
  oneOf (k +:+ ".scheme") (cScheme cl) schemes ++
  add_if (bool_decide (cRegion cl = "")) (k +:+ ".region") ++
  match cBarrier cl with
  | None => []
  | Some b =>
      if negb (Barrier_valid b) then [k +:+ ".barrier"]
      else add_if (negb (bool_decide (bKind b = BarrierMutations))) (k +:+ ".barrier.kind")
  end ++
  (if one_of (cEndpointMode cl) endpointModes then
     if bool_decide (cEndpointMode cl = "static") then
       add_if (bool_decide (cEndpoints cl = [])) (k +:+ ".endpoints") ++
       add_if (negb (bool_decide (cEndpoint cl = ""))) (k +:+ ".endpoint")
     else
       add_if (bool_decide (cEndpoint cl = "")) (k +:+ ".endpoint") ++
       add_if (negb (bool_decide (cEndpoints cl = []))) (k +:+ ".endpoints")
   else [k +:+ ".endpoint_mode"]) ++
  concat (imap (fun i ep => add_if (Contains ep "://") (k +:+ ".endpoints[" +:+ pretty i +:+ "]")) (cEndpoints cl)) ++
  add_if (bool_decide (cScheme cl = "http") &&
          (negb (bool_decide (tlsCA (cTLS cl) = "")) || tlsInsecureSkipVerify (cTLS cl))) (k +:+ ".tls") ++
  add_if (bool_decide (crAccessKey (cCredentials cl) = "")) (k +:+ ".credentials.access_key") ++
  (let ref := crSecretRef (cCredentials cl) in
   add_if (bool_decide (ref = "") ||
           (negb (HasPrefix ref "env:") && negb (HasPrefix ref "file:") && negb (HasPrefix ref "control:")))
          (k +:+ ".credentials.secret_ref")) ++
  (if bool_decide (cStorageClasses cl = "") then []
   else oneOf (k +:+ ".storage_classes") (cStorageClasses cl) storageClasses) ++
  validateStorageClassPairing k cl.

Definition validateClusters (prefix : string) (clusters : gmap string Cluster) : list string :=
  concat ((fun name => match clusters !! name with
                       | Some cl => validateCluster (prefix +:+ "." +:+ name) cl
                       | None => []
                       end) <$> sortedKeys clusters).
