(* ===== verification/Placement.v ===== *)
(** * Placements (internal/directory: directory.go, legs.go, moves.go, scopes.go)

    A placement maps one client bucket to backend buckets and a migration state.  A plain placement
    names clusters (primary, source, target); a spread one names legs and splits its keys among them
    by tables of hash ranges, one for the bucket and one per prefix rule.  This file holds the data,
    the reading operations, and the conversions between the two schemas. *)

From S2P Require Import Prelude Float64 HashRange Config.

(** ** Data *)

Definition StateActive : string := "ACTIVE".
Definition StateRamping : string := "RAMPING".
Definition StateMigrating : string := "MIGRATING".
Definition StateCutover : string := "CUTOVER".

Definition States : list string := [StateActive; StateRamping; StateMigrating; StateCutover].

Record RampHold : Type := mkHold { hRatio : f64; hPrefixes : list string }.

Record Ramp : Type := mkRamp {
  rHash : string;
  rRatio : f64;
  rPrefixes : list string;
  rRange : option HashRange;
  rHold : option RampHold;
}.

Definition RampHash : string := "fnv1a-fmix64-v1".

(** Times and durations are nanoseconds. *)
Record CutoverEvidence : Type := mkCutover { evAt : Z; evWindow : Z; evFallbackReads : f64 }.

Record Move : Type := mkMove {
  mvScope : string;
  mvRange : HashRange;
  mvFrom : string;
  mvTo : string;
  mvRamp : option Ramp;
  mvCutover : option CutoverEvidence;
}.

Record PrefixRule : Type := mkRule { prPrefix : string; prOwners : list Owner }.

Definition MaxPrefixRules : nat := 64.
Definition MaxPrefixLen : nat := 1024.

Record Placement : Type := mkPlacement {
  pState : string;
  pPrimary : string;
  pSource : string;
  pTarget : string;
  pCutover : option CutoverEvidence;
  pRamp : option Ramp;
  pNames : option (gmap string string);
  pCold : string;
  pTier : string;
  pLifecycle : string;
  pCreated : Z;
  pReadOnly : bool;
  pRejectWrites : bool;
  pWatch : bool;
  pBarrier : option Barrier;
  pLegs : option (gmap string Leg);
  pOwners : option (list Owner);
  pKeyHash : string;
  pMove : option Move;
  pPrefixes : option (list PrefixRule);
  pLegClusters : option (gmap string string);
}.

#[export] Instance RampHold_eq_dec : EqDecision RampHold.
Proof. solve_decision. Defined.
#[export] Instance Ramp_eq_dec : EqDecision Ramp.
Proof. solve_decision. Defined.
#[export] Instance CutoverEvidence_eq_dec : EqDecision CutoverEvidence.
Proof. solve_decision. Defined.
#[export] Instance Move_eq_dec : EqDecision Move.
Proof. solve_decision. Defined.
#[export] Instance PrefixRule_eq_dec : EqDecision PrefixRule.
Proof. solve_decision. Defined.
#[export] Instance Placement_eq_dec : EqDecision Placement.
Proof. solve_decision. Defined.

(** The zero value: Go's [Placement{}]. *)
Definition zeroPlacement : Placement :=
  mkPlacement "" "" "" "" None None None "" "" "" 0 false false false None None None "" None None None.

(** Assignments to one field. *)
Definition set_State (v : string) (p : Placement) : Placement :=
  mkPlacement v (pPrimary p) (pSource p) (pTarget p) (pCutover p) (pRamp p) (pNames p) (pCold p) (pTier p) (pLifecycle p) (pCreated p) (pReadOnly p) (pRejectWrites p) (pWatch p) (pBarrier p) (pLegs p) (pOwners p) (pKeyHash p) (pMove p) (pPrefixes p) (pLegClusters p).
Definition set_Primary (v : string) (p : Placement) : Placement :=
  mkPlacement (pState p) v (pSource p) (pTarget p) (pCutover p) (pRamp p) (pNames p) (pCold p) (pTier p) (pLifecycle p) (pCreated p) (pReadOnly p) (pRejectWrites p) (pWatch p) (pBarrier p) (pLegs p) (pOwners p) (pKeyHash p) (pMove p) (pPrefixes p) (pLegClusters p).
Definition set_Source (v : string) (p : Placement) : Placement :=
  mkPlacement (pState p) (pPrimary p) v (pTarget p) (pCutover p) (pRamp p) (pNames p) (pCold p) (pTier p) (pLifecycle p) (pCreated p) (pReadOnly p) (pRejectWrites p) (pWatch p) (pBarrier p) (pLegs p) (pOwners p) (pKeyHash p) (pMove p) (pPrefixes p) (pLegClusters p).
Definition set_Target (v : string) (p : Placement) : Placement :=
  mkPlacement (pState p) (pPrimary p) (pSource p) v (pCutover p) (pRamp p) (pNames p) (pCold p) (pTier p) (pLifecycle p) (pCreated p) (pReadOnly p) (pRejectWrites p) (pWatch p) (pBarrier p) (pLegs p) (pOwners p) (pKeyHash p) (pMove p) (pPrefixes p) (pLegClusters p).
Definition set_Cutover (v : option CutoverEvidence) (p : Placement) : Placement :=
  mkPlacement (pState p) (pPrimary p) (pSource p) (pTarget p) v (pRamp p) (pNames p) (pCold p) (pTier p) (pLifecycle p) (pCreated p) (pReadOnly p) (pRejectWrites p) (pWatch p) (pBarrier p) (pLegs p) (pOwners p) (pKeyHash p) (pMove p) (pPrefixes p) (pLegClusters p).
Definition set_Ramp (v : option Ramp) (p : Placement) : Placement :=
  mkPlacement (pState p) (pPrimary p) (pSource p) (pTarget p) (pCutover p) v (pNames p) (pCold p) (pTier p) (pLifecycle p) (pCreated p) (pReadOnly p) (pRejectWrites p) (pWatch p) (pBarrier p) (pLegs p) (pOwners p) (pKeyHash p) (pMove p) (pPrefixes p) (pLegClusters p).
Definition set_Names (v : option (gmap string string)) (p : Placement) : Placement :=
  mkPlacement (pState p) (pPrimary p) (pSource p) (pTarget p) (pCutover p) (pRamp p) v (pCold p) (pTier p) (pLifecycle p) (pCreated p) (pReadOnly p) (pRejectWrites p) (pWatch p) (pBarrier p) (pLegs p) (pOwners p) (pKeyHash p) (pMove p) (pPrefixes p) (pLegClusters p).
Definition set_Cold (v : string) (p : Placement) : Placement :=
  mkPlacement (pState p) (pPrimary p) (pSource p) (pTarget p) (pCutover p) (pRamp p) (pNames p) v (pTier p) (pLifecycle p) (pCreated p) (pReadOnly p) (pRejectWrites p) (pWatch p) (pBarrier p) (pLegs p) (pOwners p) (pKeyHash p) (pMove p) (pPrefixes p) (pLegClusters p).
Definition set_Tier (v : string) (p : Placement) : Placement :=
  mkPlacement (pState p) (pPrimary p) (pSource p) (pTarget p) (pCutover p) (pRamp p) (pNames p) (pCold p) v (pLifecycle p) (pCreated p) (pReadOnly p) (pRejectWrites p) (pWatch p) (pBarrier p) (pLegs p) (pOwners p) (pKeyHash p) (pMove p) (pPrefixes p) (pLegClusters p).
Definition set_Lifecycle (v : string) (p : Placement) : Placement :=
  mkPlacement (pState p) (pPrimary p) (pSource p) (pTarget p) (pCutover p) (pRamp p) (pNames p) (pCold p) (pTier p) v (pCreated p) (pReadOnly p) (pRejectWrites p) (pWatch p) (pBarrier p) (pLegs p) (pOwners p) (pKeyHash p) (pMove p) (pPrefixes p) (pLegClusters p).
Definition set_Created (v : Z) (p : Placement) : Placement :=
  mkPlacement (pState p) (pPrimary p) (pSource p) (pTarget p) (pCutover p) (pRamp p) (pNames p) (pCold p) (pTier p) (pLifecycle p) v (pReadOnly p) (pRejectWrites p) (pWatch p) (pBarrier p) (pLegs p) (pOwners p) (pKeyHash p) (pMove p) (pPrefixes p) (pLegClusters p).
Definition set_ReadOnly (v : bool) (p : Placement) : Placement :=
  mkPlacement (pState p) (pPrimary p) (pSource p) (pTarget p) (pCutover p) (pRamp p) (pNames p) (pCold p) (pTier p) (pLifecycle p) (pCreated p) v (pRejectWrites p) (pWatch p) (pBarrier p) (pLegs p) (pOwners p) (pKeyHash p) (pMove p) (pPrefixes p) (pLegClusters p).
Definition set_RejectWrites (v : bool) (p : Placement) : Placement :=
  mkPlacement (pState p) (pPrimary p) (pSource p) (pTarget p) (pCutover p) (pRamp p) (pNames p) (pCold p) (pTier p) (pLifecycle p) (pCreated p) (pReadOnly p) v (pWatch p) (pBarrier p) (pLegs p) (pOwners p) (pKeyHash p) (pMove p) (pPrefixes p) (pLegClusters p).
Definition set_Watch (v : bool) (p : Placement) : Placement :=
  mkPlacement (pState p) (pPrimary p) (pSource p) (pTarget p) (pCutover p) (pRamp p) (pNames p) (pCold p) (pTier p) (pLifecycle p) (pCreated p) (pReadOnly p) (pRejectWrites p) v (pBarrier p) (pLegs p) (pOwners p) (pKeyHash p) (pMove p) (pPrefixes p) (pLegClusters p).
Definition set_Barrier (v : option Barrier) (p : Placement) : Placement :=
  mkPlacement (pState p) (pPrimary p) (pSource p) (pTarget p) (pCutover p) (pRamp p) (pNames p) (pCold p) (pTier p) (pLifecycle p) (pCreated p) (pReadOnly p) (pRejectWrites p) (pWatch p) v (pLegs p) (pOwners p) (pKeyHash p) (pMove p) (pPrefixes p) (pLegClusters p).
Definition set_Legs (v : option (gmap string Leg)) (p : Placement) : Placement :=
  mkPlacement (pState p) (pPrimary p) (pSource p) (pTarget p) (pCutover p) (pRamp p) (pNames p) (pCold p) (pTier p) (pLifecycle p) (pCreated p) (pReadOnly p) (pRejectWrites p) (pWatch p) (pBarrier p) v (pOwners p) (pKeyHash p) (pMove p) (pPrefixes p) (pLegClusters p).
Definition set_Owners (v : option (list Owner)) (p : Placement) : Placement :=
  mkPlacement (pState p) (pPrimary p) (pSource p) (pTarget p) (pCutover p) (pRamp p) (pNames p) (pCold p) (pTier p) (pLifecycle p) (pCreated p) (pReadOnly p) (pRejectWrites p) (pWatch p) (pBarrier p) (pLegs p) v (pKeyHash p) (pMove p) (pPrefixes p) (pLegClusters p).
Definition set_KeyHash (v : string) (p : Placement) : Placement :=
  mkPlacement (pState p) (pPrimary p) (pSource p) (pTarget p) (pCutover p) (pRamp p) (pNames p) (pCold p) (pTier p) (pLifecycle p) (pCreated p) (pReadOnly p) (pRejectWrites p) (pWatch p) (pBarrier p) (pLegs p) (pOwners p) v (pMove p) (pPrefixes p) (pLegClusters p).
Definition set_Move (v : option Move) (p : Placement) : Placement :=
  mkPlacement (pState p) (pPrimary p) (pSource p) (pTarget p) (pCutover p) (pRamp p) (pNames p) (pCold p) (pTier p) (pLifecycle p) (pCreated p) (pReadOnly p) (pRejectWrites p) (pWatch p) (pBarrier p) (pLegs p) (pOwners p) (pKeyHash p) v (pPrefixes p) (pLegClusters p).
Definition set_Prefixes (v : option (list PrefixRule)) (p : Placement) : Placement :=
  mkPlacement (pState p) (pPrimary p) (pSource p) (pTarget p) (pCutover p) (pRamp p) (pNames p) (pCold p) (pTier p) (pLifecycle p) (pCreated p) (pReadOnly p) (pRejectWrites p) (pWatch p) (pBarrier p) (pLegs p) (pOwners p) (pKeyHash p) (pMove p) v (pLegClusters p).
Definition set_LegClusters (v : option (gmap string string)) (p : Placement) : Placement :=
  mkPlacement (pState p) (pPrimary p) (pSource p) (pTarget p) (pCutover p) (pRamp p) (pNames p) (pCold p) (pTier p) (pLifecycle p) (pCreated p) (pReadOnly p) (pRejectWrites p) (pWatch p) (pBarrier p) (pLegs p) (pOwners p) (pKeyHash p) (pMove p) (pPrefixes p) v.

Definition set_rRange (v : option HashRange) (r : Ramp) : Ramp :=
  mkRamp (rHash r) (rRatio r) (rPrefixes r) v (rHold r).
Definition set_rHold (v : option RampHold) (r : Ramp) : Ramp :=
  mkRamp (rHash r) (rRatio r) (rPrefixes r) (rRange r) v.
Definition set_mvSteps (ramp : option Ramp) (cut : option CutoverEvidence) (m : Move) : Move :=
  mkMove (mvScope m) (mvRange m) (mvFrom m) (mvTo m) ramp cut.

(** ** Copies

    [clone], [v2ramp], [v2cutover] and [clonePrefixes] copy a value field by field so that no map,
    slice or pointer is shared; as values the copies are the originals. *)

Definition v2ramp (r : option Ramp) : option Ramp :=
  match r with
  | None => None
  | Some r => Some (mkRamp (rHash r) (rRatio r) (rPrefixes r)
      match rRange r with None => None | Some rg => Some (mkRange (rFrom rg) (rTo rg)) end
      match rHold r with None => None | Some h => Some (mkHold (hRatio h) (hPrefixes h)) end)
  end.

Definition v2cutover (ev : option CutoverEvidence) : option CutoverEvidence :=
  match ev with None => None | Some e => Some (mkCutover (evAt e) (evWindow e) (evFallbackReads e)) end.

Definition clonePrefixes (rules : option (list PrefixRule)) : option (list PrefixRule) :=
  match rules with
  | None => None
  | Some rs => Some ((fun r => mkRule (prPrefix r) (prOwners r)) <$> rs)
  end.

Definition clone (p : Placement) : Placement :=
  p |> set_Names (pNames p)
    |> set_Ramp (v2ramp (pRamp p))
    |> set_Barrier match pBarrier p with None => None | Some b => Some (mkBarrier (bID b) (bKind b)) end
    |> set_Cutover (v2cutover (pCutover p))
    |> set_Legs (pLegs p)
    |> set_LegClusters (pLegClusters p)
    |> set_Owners (pOwners p)
    |> set_Prefixes (clonePrefixes (pPrefixes p))
    |> set_Move match pMove p with
                | None => None
                | Some m => Some (set_mvSteps (v2ramp (mvRamp m)) (v2cutover (mvCutover m)) m)
                end.

Lemma v2ramp_id r : v2ramp r = r.
Proof. by destruct r as [[? ? ? [[]|] [[]|]]|]. Qed.
Lemma v2cutover_id ev : v2cutover ev = ev.
Proof. by destruct ev as [[]|]. Qed.
Lemma clonePrefixes_id rs : clonePrefixes rs = rs.
Proof.
  destruct rs as [rs|]; [|done]. simpl. f_equal. induction rs as [|[] rs IH]; [done|].
  rewrite fmap_cons. by f_equal.
Qed.
Lemma clone_id p : clone p = p.
Proof.
  unfold clone. rewrite v2ramp_id, v2cutover_id, clonePrefixes_id.
  destruct p as [? ? ? ? ? ? ? ? ? ? ? ? ? ? b ? ? ? m ? ?]. cbn.
  destruct b as [[]|], m as [[]|]; cbn; rewrite ?v2ramp_id, ?v2cutover_id; done.
Qed.
#[export] Hint Rewrite v2ramp_id v2cutover_id clonePrefixes_id clone_id : shunt.

(** ** Reading a placement *)

Definition ClusterOf (p : Placement) (role : string) : string :=
  match mlookup role (pLegClusters p) with Some c => c | None => role end.

(** Held: a ramp step is written but not in force yet. *)
Definition Held (p : Placement) : bool :=
  match pMove p with
  | Some m => match mvRamp m with Some r => bool_decide (is_Some (rHold r)) | None => false end
  | None => match pRamp p with Some r => bool_decide (is_Some (rHold r)) | None => false end
  end.

Definition isV2 (p : Placement) : bool :=
  bool_decide (is_Some (pLegs p)) || bool_decide (is_Some (pOwners p)) ||
  bool_decide (is_Some (pMove p)) || bool_decide (is_Some (pPrefixes p)).

Definition Spread (p : Placement) : bool :=
  (1 <? length (sl (pOwners p)))%nat || bool_decide (is_Some (pMove p)) ||
  (0 <? length (sl (pPrefixes p)))%nat.

Definition zeroLeg : Leg := mkLeg "" "".

Definition sameClusterMove (p : Placement) (m : Move) : bool :=
  match mlookup (mvFrom m) (pLegs p), mlookup (mvTo m) (pLegs p) with
  | Some f, Some t => bool_decide (legCluster f = legCluster t)
  | _, _ => false
  end.

(** MoveView; [m] is [*p.Move], which every caller has checked is there. *)
Definition MoveView (p : Placement) (m : Move) : Placement :=
  let from := mget zeroLeg (mvFrom m) (pLegs p) in
  let to := mget zeroLeg (mvTo m) (pLegs p) in
  zeroPlacement
    |> set_State (pState p) |> set_Source (mvFrom m) |> set_Primary (mvTo m)
    |> set_Names (Some (<[mvTo m := legBucket to]> {[mvFrom m := legBucket from]}))
    |> set_LegClusters (Some (<[mvTo m := legCluster to]> {[mvFrom m := legCluster from]}))
    |> set_Cutover (v2cutover (mvCutover m))
    |> set_Created (pCreated p) |> set_ReadOnly (pReadOnly p) |> set_RejectWrites (pRejectWrites p)
    |> set_Barrier (pBarrier p)
    |> set_Ramp match v2ramp (mvRamp m) with
                | None => None
                | Some r => Some (set_rRange (Some (mvRange m)) r)
                end.

(** ** Scopes (ADR-0020) *)

(** The rule a scan has kept so far, or the next one when its prefix is longer and matches. *)
Definition longer (ok : PrefixRule -> bool) (best : option PrefixRule) (r : PrefixRule) : option PrefixRule :=
  if (match best with
      | None => true
      | Some b => (String.length (prPrefix b) <? String.length (prPrefix r))%nat
      end) && ok r
  then Some r else best.

Definition Scope (p : Placement) (key : string) : string * list Owner :=
  match foldl (longer (fun r => HasPrefix key (prPrefix r))) None (sl (pPrefixes p)) with
  | None => ("", sl (pOwners p))
  | Some r => (prPrefix r, prOwners r)
  end.

Definition parentTable (p : Placement) (prefix : string) : list Owner :=
  match foldl (longer (fun r => negb (bool_decide (prPrefix r = prefix)) && HasPrefix prefix (prPrefix r)))
              None (sl (pPrefixes p)) with
  | None => sl (pOwners p)
  | Some r => prOwners r
  end.

Definition scopeTable (p : Placement) (scope : string) : option (list Owner) :=
  if decide (scope = "") then Some (sl (pOwners p))
  else prOwners <$> List.find (fun r => bool_decide (prPrefix r = scope)) (sl (pPrefixes p)).

Definition setScopeTable (scope : string) (owners : list Owner) (p : Placement) : Placement :=
  if decide (scope = "") then p |> set_Owners (Some owners)
  else p |> set_Prefixes (List.map (fun r => if decide (prPrefix r = scope) then mkRule (prPrefix r) owners else r)
                            <$> pPrefixes p).

Definition owns (leg : string) (o : Owner) : bool := bool_decide (oLeg o = leg).

Definition ownsKeys (p : Placement) (leg : string) : bool :=
  existsb (owns leg) (sl (pOwners p)) || existsb (fun r => existsb (owns leg) (prOwners r)) (sl (pPrefixes p)).

Definition prefixesOf (p : Placement) : list string := prPrefix <$> sl (pPrefixes p).

Definition OwnsBeyond (p : Placement) (leg scope : string) (rg : HashRange) : bool :=
  (if negb (bool_decide (scope = "")) || (0 <? length (sl (pPrefixes p)))%nat
   then existsb (fun s => negb (bool_decide (s = scope)) && existsb (owns leg) (default [] (scopeTable p s)))
                ("" :: prefixesOf p)
   else false) ||
  existsb (fun o => owns leg o && ((oFrom o <? rFrom rg)%Z || (rTo rg <? oTo o)%Z)) (default [] (scopeTable p scope)).

Definition ListingLegs (p : Placement) (prefix : string) : list string :=
  let s0 : gset string := list_to_set (List.map oLeg (snd (Scope p prefix))) in
  let s1 := foldl (fun s r => if HasPrefix (prPrefix r) prefix then s ∪ list_to_set (List.map oLeg (prOwners r)) else s)
                  s0 (sl (pPrefixes p)) in
  let s2 := match pMove p with Some m => s1 ∪ {[mvFrom m; mvTo m]} | None => s1 end in
  merge_sort String.le (elements s2).

Definition IdleLegs (p : Placement) : list string :=
  List.filter (fun id =>
    negb match pMove p with
         | Some m => bool_decide (id = mvFrom m) || bool_decide (id = mvTo m)
         | None => false
         end && negb (ownsKeys p id)) (msortedKeys (pLegs p)).

(** settle: the plain form, when one leg owns every key and nothing moves. *)
Definition settle_step (legs : option (gmap string Leg)) (v : Placement) (id : string) : Placement :=
  let l := mget zeroLeg id legs in
  if mhas (legCluster l) (pNames v) then v
  else
    let v := v |> set_Names (<[legCluster l := legBucket l]> <$> pNames v) in
    if bool_decide (pTarget v = "") then v |> set_Target (legCluster l) else v.

Definition settle (p : Placement) : Placement :=
  if bool_decide (is_Some (pMove p)) || negb (length (sl (pOwners p)) =? 1)%nat ||
     (0 <? length (sl (pPrefixes p)))%nat
  then p
  else match sl (pOwners p) with
       | [] => p
       | o :: _ =>
           let l := mget zeroLeg (oLeg o) (pLegs p) in
           let v := p |> set_Legs None |> set_Owners None |> set_KeyHash ""
                      |> set_Primary (legCluster l)
                      |> set_Names (Some {[legCluster l := legBucket l]}) in
           foldl (settle_step (pLegs p)) v (msortedKeys (pLegs p))
       end.

(** ** Schema v2: checks and conversions *)

(** Why a v2 placement is refused. *)
Inductive v2Err : Type :=
| V2TwoSchemas
| V2NoLegs
| V2TooManyLegs
| V2LegID (id : string)
| V2LegCluster (id : string)
| V2LegBucket (id : string)
| V2HashName
| V2HashRequired
| V2Owners (e : ownersErr)
| V2TooManyRules
| V2RulesHash
| V2RuleEmpty (i : nat)
| V2RuleLong (i : nat)
| V2RuleOrder (i : nat)
| V2RuleOwners (i : nat) (e : ownersErr)
| V2MoveInverted
| V2MoveFrom
| V2MoveTo
| V2MoveSame
| V2Target
| V2Cold
| V2SpreadFields
| V2MoveInActive
| V2MoveRequired
| V2MoveScope
| V2MoveRange
| V2MoveRampPrefixes
| V2MoveRampRequired
| V2MoveRampState
| V2MoveCutoverState
| V2DupCluster
| V2MoveNotOwner.

#[export] Instance v2Err_eq_dec : EqDecision v2Err.
Proof. solve_decision. Defined.

Definition is_lower (c : Ascii.ascii) : bool := in_range "a" "z" c.
Definition is_digit (c : Ascii.ascii) : bool := in_range "0" "9" c.

(** The regular expression [^[a-z0-9][a-z0-9_-]{0,62}$]. *)
Definition legID (s : string) : bool :=
  match s with
  | EmptyString => false
  | String c r =>
      (is_lower c || is_digit c) && (String.length r <=? 62)%nat &&
      all_bytes (fun c => is_lower c || is_digit c || bool_decide (c = "_"%char) || bool_decide (c = "-"%char)) r
  end.

(** validRampHashName: lowercase letters and digits, and dashes after the first byte. *)
Definition validRampHashName (s : string) : bool :=
  match s with
  | EmptyString => false
  | String c r =>
      (String.length s <=? 64)%nat && (is_lower c || is_digit c) &&
      all_bytes (fun c => is_lower c || is_digit c || bool_decide (c = "-"%char)) r
  end.

Fixpoint checkLegs (legs : option (gmap string Leg)) (ids : list string) : result v2Err () :=
  match ids with
  | [] => Ok ()
  | id :: ids =>
      let l := mget zeroLeg id legs in
      if negb (legID id) then Err (V2LegID id)
      else if bool_decide (legCluster l = "") then Err (V2LegCluster id)
      else if bool_decide (legBucket l = "") then Err (V2LegBucket id)
      else checkLegs legs ids
  end.

Fixpoint checkRules (legs : option (gmap string Leg)) (i : nat) (prev : option string) (rules : list PrefixRule)
    : result v2Err () :=
  match rules with
  | [] => Ok ()
  | r :: rules =>
      if bool_decide (prPrefix r = "") then Err (V2RuleEmpty i)
      else if (MaxPrefixLen <? String.length (prPrefix r))%nat then Err (V2RuleLong i)
      else if match prev with Some q => String.leb (prPrefix r) q | None => false end then Err (V2RuleOrder i)
      else match checkOwners (prOwners r) legs with
           | Err e => Err (V2RuleOwners i e)
           | Ok _ => checkRules legs (S i) (Some (prPrefix r)) rules
           end
  end.

Definition checkPrefixes (p : Placement) : result v2Err () :=
  let rules := sl (pPrefixes p) in
  if (length rules =? 0)%nat then Ok ()
  else if (MaxPrefixRules <? length rules)%nat then Err V2TooManyRules
  else if bool_decide (pKeyHash p = "") then Err V2RulesHash
  else checkRules (pLegs p) 0 None rules.

(** The part of checkV2 that looks at the move. *)
Definition checkMove (p : Placement) : result v2Err () :=
  match pMove p with
  | None => Ok ()
  | Some m =>
      if (rTo (mvRange m) <? rFrom (mvRange m))%Z then Err V2MoveInverted
      else if negb (hasLeg (pLegs p) (mvFrom m)) then Err V2MoveFrom
      else if negb (hasLeg (pLegs p) (mvTo m)) then Err V2MoveTo
      else if bool_decide (mvFrom m = mvTo m) then Err V2MoveSame
      else Ok ()
  end.

Definition checkV2 (p : Placement) : result v2Err () :=
  guard_err (mlen (pLegs p) =? 0)%nat V2NoLegs ≫= fun _ =>
  guard_err (MaxLegs <? mlen (pLegs p))%nat V2TooManyLegs ≫= fun _ =>
  checkLegs (pLegs p) (msortedKeys (pLegs p)) ≫= fun _ =>
  guard_err (negb (bool_decide (pKeyHash p = "")) && negb (validRampHashName (pKeyHash p))) V2HashName ≫= fun _ =>
  guard_err ((1 <? length (sl (pOwners p)))%nat && bool_decide (pKeyHash p = "")) V2HashRequired ≫= fun _ =>
  match checkOwners (sl (pOwners p)) (pLegs p) with Err e => Err (V2Owners e) | Ok _ => Ok () end ≫= fun _ =>
  checkPrefixes p ≫= fun _ =>
  checkMove p ≫= fun _ =>
  guard_err (negb (bool_decide (pTarget p = "")) && negb (hasLeg (pLegs p) (pTarget p))) V2Target ≫= fun _ =>
  guard_err (negb (bool_decide (pCold p = "")) && negb (hasLeg (pLegs p) (pCold p))) V2Cold.

Definition ramp_has_prefixes (r : Ramp) : bool :=
  (0 <? length (rPrefixes r))%nat ||
  match rHold r with Some h => (0 <? length (hPrefixes h))%nat | None => false end.

(** Some range of the table owned by the move's source holds all of the moving range. *)
Definition owns_range (m : Move) (o : Owner) : bool :=
  bool_decide (oLeg o = mvFrom m) && (oFrom o <=? rFrom (mvRange m))%Z && (rTo (mvRange m) <=? oTo o)%Z.

Definition checkSpread (p : Placement) : result v2Err () :=
  let active := bool_decide (pState p = StateActive) in
  let ramping := bool_decide (pState p = StateRamping) in
  if negb (bool_decide (pTarget p = "")) || negb (bool_decide (pCold p = "")) ||
     negb (bool_decide (pTier p = "")) || negb (bool_decide (pLifecycle p = "")) then Err V2SpreadFields
  else if active && bool_decide (is_Some (pMove p)) then Err V2MoveInActive
  else if negb active && bool_decide (pMove p = None) then Err V2MoveRequired
  else match pMove p with
       | None => Ok ()
       | Some m =>
           match scopeTable p (mvScope m) with
           | None => Err V2MoveScope
           | Some table =>
               if negb (existsb (owns_range m) table) then Err V2MoveRange
               else if negb (bool_decide (mvScope m = "")) &&
                       match mvRamp m with Some r => ramp_has_prefixes r | None => false end
                    then Err V2MoveRampPrefixes
               else if ramping && bool_decide (mvRamp m = None) then Err V2MoveRampRequired
               else if negb ramping && bool_decide (is_Some (mvRamp m)) then Err V2MoveRampState
               else if negb (bool_decide (pState p = StateCutover)) && bool_decide (is_Some (mvCutover m))
                    then Err V2MoveCutoverState
               else Ok ()
           end
       end.

(** The names of a plain placement: one bucket per cluster. *)
Fixpoint legNames (legs : option (gmap string Leg)) (ids : list string) (names : gmap string string)
    : result v2Err (gmap string string) :=
  match ids with
  | [] => Ok names
  | id :: ids =>
      let l := mget zeroLeg id legs in
      if bool_decide (is_Some (names !! legCluster l)) then Err V2DupCluster
      else legNames legs ids (<[legCluster l := legBucket l]> names)
  end.

(** fromV2: what a decoder does to a placement it read. *)
Definition fromV2 (p : Placement) : result v2Err Placement :=
  if negb (isV2 p) then Ok p
  else if negb (bool_decide (pPrimary p = "")) || negb (bool_decide (pSource p = "")) ||
          bool_decide (is_Some (pNames p)) || bool_decide (is_Some (pRamp p)) || bool_decide (is_Some (pCutover p))
       then Err V2TwoSchemas
  else
    checkV2 p ≫= fun _ =>
    if (1 <? length (sl (pOwners p)))%nat || (0 <? length (sl (pPrefixes p)))%nat ||
       match pMove p with
       | Some m => negb (bool_decide (mvRange m = FullRange)) || sameClusterMove p m
       | None => false
       end
    then checkSpread p ≫= fun _ => Ok p
    else
      let cluster leg := legCluster (mget zeroLeg leg (pLegs p)) in
      names ← legNames (pLegs p) (msortedKeys (pLegs p)) ∅;
      let owner := match sl (pOwners p) with o :: _ => oLeg o | [] => "" end in
      let v1 := p |> set_Legs None |> set_Owners None |> set_Move None |> set_KeyHash "" |> set_Names (Some names) in
      v1 ← match pMove p with
           | Some m =>
               if bool_decide (pState p = StateActive) then Err V2MoveInActive
               else if negb (bool_decide (mvRange m = FullRange)) then Err V2MoveRange
               else if negb (bool_decide (mvFrom m = owner)) then Err V2MoveNotOwner
               else Ok (v1 |> set_Source (cluster (mvFrom m)) |> set_Primary (cluster (mvTo m))
                           |> set_Ramp (mvRamp m) |> set_Cutover (mvCutover m))
           | None =>
               if bool_decide (pState p = StateActive) then Ok (v1 |> set_Primary (cluster owner))
               else Err V2MoveRequired
           end;
      let v1 := if bool_decide (pTarget p = "") then v1 else v1 |> set_Target (cluster (pTarget p)) in
      let v1 := if bool_decide (pCold p = "") then v1 else v1 |> set_Cold (cluster (pCold p)) in
      Ok v1.

(** ToV2: every backend bucket a leg named after its cluster. *)
Definition ToV2 (p : Placement) : Placement :=
  if Spread p then clone p
  else
    let v2 := clone p |> set_Primary "" |> set_Source "" |> set_Names None |> set_Ramp None |> set_Cutover None
                |> set_Legs (Some (map_imap (fun cl bucket => Some (mkLeg cl bucket)) (default ∅ (pNames p)))) in
    let '(owner, v2) :=
      if bool_decide (pState p = StateActive) then (pPrimary p, v2)
      else (pSource p, v2 |> set_Move (Some (mkMove "" FullRange (pSource p) (pPrimary p) (v2ramp (pRamp p)) (v2cutover (pCutover p))))) in
    v2 |> set_Owners (Some [mkOwner (rFrom FullRange) (rTo FullRange) owner]).
