(* ===== verification/Transition.v ===== *)
(** * State transitions of a placement (internal/directory: transition.go, moves.go)

    [Apply] is the one function that changes a placement's migration state: ramp steps, held steps
    and their release or completion, the switch to MIGRATING, cutover, and the moves of part of a
    bucket, which are applied as the two-bucket migration they are.  The definitions follow the
    code's order of checks; a refusal carries the two states and the reason. *)

From S2P Require Import Prelude Float64 HashRange Config Placement.

(** ** Data *)

Record Transition : Type := mkTransition {
  tTo : string;
  tTarget : string;
  tName : string;
  tRatio : f64;
  tPrefixes : list string;
  tCutover : option CutoverEvidence;
  tHold : bool;
  tRelease : bool;
  tComplete : bool;
  tBarrier : string;
  tRange : option HashRange;
  tLeg : string;
  tScope : string;
  tShare : f64;
}.

Definition zeroTransition : Transition :=
  mkTransition "" "" "" f0 [] None false false false "" None "" "" f0.

Definition set_tTarget (target name : string) (t : Transition) : Transition :=
  mkTransition (tTo t) target name (tRatio t) (tPrefixes t) (tCutover t) (tHold t) (tRelease t) (tComplete t)
    (tBarrier t) (tRange t) (tLeg t) (tScope t) (tShare t).
Definition set_tRange (rg : option HashRange) (share : f64) (t : Transition) : Transition :=
  mkTransition (tTo t) (tTarget t) (tName t) (tRatio t) (tPrefixes t) (tCutover t) (tHold t) (tRelease t) (tComplete t)
    (tBarrier t) rg (tLeg t) (tScope t) share.
Definition set_tLeg (leg : string) (t : Transition) : Transition :=
  mkTransition (tTo t) (tTarget t) (tName t) (tRatio t) (tPrefixes t) (tCutover t) (tHold t) (tRelease t) (tComplete t)
    (tBarrier t) (tRange t) leg (tScope t) (tShare t).

(** The step alone, without what names the keys and the destination: what a move passes to [Apply]. *)
Definition step_only (target name : string) (t : Transition) : Transition :=
  mkTransition (tTo t) target name (tRatio t) (tPrefixes t) (tCutover t) (tHold t) (tRelease t) (tComplete t)
    (tBarrier t) None "" "" f0.

(** Why a transition is refused: one constructor per message of the code. *)
Inductive reason : Type :=
| RShareOutside | RShareWithRange | RShareNotFirst
| RNoSuchLeg
| RBarrierNotHeld
| RUnknownState | RHoldState | RHoldTwice | RNothingHeld | RIllegal
| RTargetNotLeaving | RTargetDiffers | RNameDiffers
| RCutoverEvidence | RRampArgs
| RTargetRequired | RTargetIsPrimary | RRampEmpty
| RHashUnknown | RShrinks | RNoChange | RPrefixNotHeld | RRatioNotHeld | RRampHeld
| RNothingToRelease | RHoldOfAnother
| RMoveOtherRange | RMoveOtherLeg | RMoveOtherScope | RMoveOtherShare | RScopePrefixes | RMoveOtherTarget
| RMoveNotActive | RNoRule | RNameKeys | RRangeInverted | RTiered | RMoveTarget
| RScopeSplit | RLegMissing | RLegOwnsNothing | RRangeSpans | RRangeOtherLeg
| RTargetAmbiguous | RAlreadyThere | RNameBucket | RTooManyLegs.

(** [Panic] is a Go panic or a conversion the language leaves undefined; [Diverges] a loop that does
    not end; [OutOfFuel] is the model's own and never returned ([Apply_terminates]). *)
Inductive applyErr : Type :=
| TransitionError (from to : string) (r : reason)
| Panic
| Diverges
| OutOfFuel.

#[export] Instance reason_eq_dec : EqDecision reason.
Proof. solve_decision. Defined.
#[export] Instance applyErr_eq_dec : EqDecision applyErr.
Proof. solve_decision. Defined.

(** ** The transition table *)

Definition legal (from to : string) : bool :=
  bool_decide ((from, to) ∈ [(StateActive, StateRamping); (StateActive, StateMigrating);
    (StateRamping, StateRamping); (StateRamping, StateMigrating);
    (StateMigrating, StateCutover); (StateCutover, StateActive)]).

Definition next (state : string) : list string := List.filter (legal state) States.

(** [fail] of [Apply]: the two states and the reason. *)
Definition refuse {A} (p : Placement) (t : Transition) (r : reason) : result applyErr A :=
  Err (TransitionError (pState p) (tTo t) r).

(** ** A plain placement *)

Definition carries (p : Placement) (id : string) : bool :=
  match pBarrier p with Some b => bool_decide (bID b = id) | None => false end.

Definition release (p : Placement) (barrier : string) : result applyErr Placement :=
  let fail r := Err (TransitionError (pState p) (pState p) r) in
  match pRamp p with
  | Some r =>
      if negb (bool_decide (pState p = StateRamping)) || bool_decide (rHold r = None) then fail RNothingToRelease
      else if negb (bool_decide (barrier = "")) && negb (carries p barrier) then fail RHoldOfAnother
      else
        let np := clone p |> set_Barrier None in
        if f64_eqb (rRatio r) f0 && (length (rPrefixes r) =? 0)%nat
        then Ok (np |> set_State StateActive |> set_Primary (pSource p) |> set_Source "" |> set_Target (pPrimary p) |> set_Ramp None)
        else Ok (np |> set_Ramp (Some (set_rHold None r)))
  | None => fail RNothingToRelease
  end.

(** Leaving ACTIVE, a target that [expand] recorded is inherited, and may only be repeated. *)
Definition inheritTarget (p : Placement) (t : Transition) : result applyErr Transition :=
  if bool_decide (pState p = StateActive) && negb (bool_decide (pTarget p = "")) then
    if negb (bool_decide (tTarget t = "")) && negb (bool_decide (tTarget t = pTarget p)) then refuse p t RTargetDiffers
    else
      let name := mget "" (pTarget p) (pNames p) in
      if bool_decide (tName t = "") then Ok (t |> set_tTarget (pTarget p) name)
      else if negb (bool_decide (tName t = name)) then refuse p t RNameDiffers
      else Ok (t |> set_tTarget (pTarget p) (tName t))
  else Ok t.

(** [np] is the clone with its state set to [t.To]; each definition is one case of the switch. *)
Definition leaveActive (p : Placement) (t : Transition) (np : Placement) : result applyErr Placement :=
  if bool_decide (tTarget t = "") || bool_decide (tName t = "") then refuse p t RTargetRequired
  else if bool_decide (tTarget t = pPrimary p) then refuse p t RTargetIsPrimary
  else
    let np := np |> set_Source (pPrimary p) |> set_Primary (tTarget t) |> set_Target ""
                 |> set_Names (Some (<[tTarget t := tName t]> (default ∅ (pNames np)))) in
    if bool_decide (tTo t = StateRamping) then
      if f64_eqb (tRatio t) f0 && (length (tPrefixes t) =? 0)%nat then refuse p t RRampEmpty
      else Ok (np |> set_Ramp (Some (mkRamp RampHash (tRatio t) (tPrefixes t) None None)))
    else Ok np.

Definition zeroRamp : Ramp := mkRamp "" f0 [] None None.

Definition add_prefix (l : list string) (pre : string) : list string :=
  if bool_decide (pre ∈ l) then l else l ++ [pre].

(** Completing a held step may move only the keys that were held. *)
Definition within_hold (old : Ramp) (h : RampHold) (ratio : f64) (prefixes : list string) : option reason :=
  if existsb (fun pre => negb (bool_decide (pre ∈ rPrefixes old)) && negb (bool_decide (pre ∈ hPrefixes h))) prefixes
  then Some RPrefixNotHeld
  else if f64_ltb (hRatio h) ratio && f64_ltb (rRatio old) ratio then Some RRatioNotHeld
  else None.

Definition rampStep (p : Placement) (t : Transition) (np : Placement) : result applyErr Placement :=
  let old := default zeroRamp (pRamp p) in
  if negb (bool_decide (rHash old = RampHash)) then refuse p t RHashUnknown
  else if negb (f64_eqb (tRatio t) f0) && f64_ltb (tRatio t) (rRatio old) then refuse p t RShrinks
  else
    let ratio := if f64_eqb (tRatio t) f0 then rRatio old else tRatio t in
    let prefixes := foldl add_prefix (rPrefixes old) (tPrefixes t) in
    if f64_eqb ratio (rRatio old) && (length prefixes =? length (rPrefixes old))%nat then refuse p t RNoChange
    else
      let np := np |> set_Ramp (Some (mkRamp (rHash old) ratio prefixes None None)) in
      match rHold old with
      | Some h =>
          if tHold t then Ok np
          else match within_hold old h ratio prefixes with Some r => refuse p t r | None => Ok np end
      | None => Ok np
      end.

Definition toMigrating (p : Placement) (t : Transition) (np : Placement) : result applyErr Placement :=
  if Held p && match pRamp p with
               | Some r => match rHold r with Some h => f64_ltb (hRatio h) f1 | None => false end
               | None => false
               end && negb (tHold t)
  then refuse p t RRampHeld
  else Ok (np |> set_Ramp None).

Definition endCutover (p : Placement) (np : Placement) : Placement :=
  let np := if negb (bool_decide (pSource p = pPrimary p)) && negb (bool_decide (pSource p = pCold p))
            then np |> set_Names (mdelete (pSource p) (pNames np)) else np in
  np |> set_Source "" |> set_Cutover None |> set_Barrier None.

(** The hold of a step: the ramp in force is kept, and the step is recorded as its hold. *)
Definition holdStep (p : Placement) (t : Transition) (np : Placement) : Placement :=
  let np := if bool_decide (tBarrier t = "") then np
            else np |> set_Barrier (Some (mkBarrier (tBarrier t) BarrierMutations)) in
  let base := match pRamp p with
              | Some r => if bool_decide (pState p = StateRamping) then r else mkRamp RampHash f0 [] None None
              | None => mkRamp RampHash f0 [] None None
              end in
  let h := match pRamp np with Some r => mkHold (rRatio r) (rPrefixes r) | None => mkHold f1 [] end in
  np |> set_State StateRamping |> set_Ramp (Some (set_rHold (Some h) base)).

(** The switch on the kind of step. *)
Definition applySwitch (p : Placement) (t : Transition) (np : Placement) : result applyErr Placement :=
  if bool_decide (pState p = StateActive) then leaveActive p t np
  else if bool_decide (pState p = StateRamping) && bool_decide (tTo t = StateRamping) then rampStep p t np
  else if bool_decide (tTo t = StateMigrating) then toMigrating p t np
  else if bool_decide (tTo t = StateCutover) then Ok (np |> set_Cutover (tCutover t))
  else if bool_decide (pState p = StateCutover) && bool_decide (tTo t = StateActive) then Ok (endCutover p np)
  else Ok np.

(** What follows the switch: the barrier and the hold. *)
Definition finishStep (p : Placement) (t : Transition) (np : Placement) : Placement :=
  let np := if tComplete t || tHold t then np |> set_Barrier None else np in
  let np := if negb (bool_decide (tBarrier t = "")) && negb (tHold t) then np |> set_Barrier None else np in
  if tHold t then holdStep p t np else np.

(** The checks [Apply] makes of a plain placement before it changes anything. *)
Definition checkStep (p : Placement) (t : Transition) : result applyErr () :=
  if negb (bool_decide (tBarrier t = "")) && negb (tHold t) && negb (carries p (tBarrier t)) then refuse p t RBarrierNotHeld
  else if negb (bool_decide (tTo t ∈ States)) then refuse p t RUnknownState
  else if tHold t && negb (bool_decide (tTo t = StateRamping)) && negb (bool_decide (tTo t = StateMigrating)) then refuse p t RHoldState
  else if match pRamp p with Some r => bool_decide (is_Some (rHold r)) | None => false end && tHold t then refuse p t RHoldTwice
  else if tComplete t && negb (Held p) then refuse p t RNothingHeld
  else if negb (legal (pState p) (tTo t)) then refuse p t RIllegal
  else if negb (bool_decide (pState p = StateActive)) &&
          (negb (bool_decide (tTarget t = "")) || negb (bool_decide (tName t = ""))) then refuse p t RTargetNotLeaving
  else Ok ().

(** The checks after the target is known. *)
Definition checkArgs (p : Placement) (t : Transition) : result applyErr () :=
  if bool_decide (is_Some (tCutover t)) && negb (bool_decide (tTo t = StateCutover)) then refuse p t RCutoverEvidence
  else if negb (bool_decide (tTo t = StateRamping)) && (negb (f64_eqb (tRatio t) f0) || (0 <? length (tPrefixes t))%nat)
       then refuse p t RRampArgs
  else Ok ().

(** [Apply] of a placement that is not spread, for a transition that names no part of it. *)
Definition applyPlain (p : Placement) (t : Transition) : result applyErr Placement :=
  if tRelease t then release p (tBarrier t)
  else
    checkStep p t ≫= fun _ =>
    t ← inheritTarget p t;
    checkArgs p t ≫= fun _ =>
    np ← applySwitch p t (clone p |> set_State (tTo t));
    Ok (finishStep p t np).

(** ** Moves of part of a bucket *)

(** newLegID: the loop, from counter [n] with candidate [id].  A cluster name that is not a leg id
    makes no candidate match, and the loop has no other exit: [None] is fuel running out.  For some names
    longer than a leg id whose one bad character is near its end the code's loop goes on past this fuel
    and ends, when a longer number cuts the character off; the model says [None] for them too. *)
Definition legCandidate (cluster : string) (n : nat) : string :=
  let id := cluster +:+ "-" +:+ pretty n in
  if (63 <? String.length id)%nat
  then String.substring 0 (63 - String.length (pretty n) - 1) cluster +:+ "-" +:+ pretty n
  else id.

Fixpoint newLegID_loop (fuel : nat) (legs : option (gmap string Leg)) (cluster : string) (n : nat) (id : string)
    : option string :=
  match fuel with
  | O => None
  | S fuel =>
      if negb (mhas id legs) && legID id then Some id
      else newLegID_loop fuel legs cluster (S n) (legCandidate cluster n)
  end.

(** Among [size legs + 2] candidates from the second on, one is free. *)
Definition newLegID (legs : option (gmap string Leg)) (cluster : string) : option string :=
  newLegID_loop (mlen legs + 3) legs cluster 2 cluster.

Definition rangeWithin (rg : HashRange) (o : Owner) : bool := (oFrom o <=? rFrom rg)%Z && (rTo rg <=? oTo o)%Z.

(** sameShare; [None] is [LeadingShare]'s panic. *)
Definition sameShare (p : Placement) (m : Move) (share : f64) : option bool :=
  match List.find (fun o => bool_decide (oLeg o = mvFrom m) && rangeWithin (mvRange m) o)
                  (default [] (scopeTable p (mvScope m))) with
  | Some o => rg ← LeadingShare (mkRange (oFrom o) (oTo o)) share; Some (bool_decide (rg = mvRange m))
  | None => Some false
  end.

(** The leg that owns all of rg: the last range of the table that holds it, "" when none does. *)
Definition sourceLeg (table : list Owner) (rg : HashRange) : string :=
  foldl (fun src o => if rangeWithin rg o then oLeg o else src) "" table.

(** The legs on the target cluster: the one holding the named bucket (any, when no name is given),
    and how many there are. *)
Definition findDst (np : Placement) (target name : string) : string * nat :=
  foldl (fun '(dst, on) id =>
      let l := mget zeroLeg id (pLegs np) in
      if negb (bool_decide (legCluster l = target)) then (dst, on)
      else (if bool_decide (name = "") || bool_decide (name = legBucket l) then id else dst, S on))
    ("", 0%nat) (msortedKeys (pLegs np)).

(** The start of a move from a plain bucket: its primary becomes the leg that owns every key. *)
Definition spreadPlain (p : Placement) (t : Transition) : result applyErr (Placement * Transition) :=
  if Spread p then Ok (clone p, t)
  else if negb (bool_decide (pCold p = "")) || negb (bool_decide (pTier p = "")) then refuse p t RTiered
  else
    t ← (if bool_decide (pTarget p = "") then Ok t
         else if negb (bool_decide (tTarget t = "")) && negb (bool_decide (tTarget t = pTarget p)) then refuse p t RTargetDiffers
         else Ok (t |> set_tTarget (pTarget p)
                         (if bool_decide (tName t = "") then mget "" (pTarget p) (pNames p) else tName t)));
    Ok (clone p |> set_Legs (Some {[pPrimary p := mkLeg (pPrimary p) (mget "" (pPrimary p) (pNames p))]})
                |> set_Owners (Some [mkOwner (rFrom FullRange) (rTo FullRange) (pPrimary p)])
                |> set_KeyHash RampHash
                |> set_Primary "" |> set_Names None |> set_Target "", t).

(** The range a first step moves: named, a leg's first range, or a scope one leg owns whole; then
    its leading share. *)
Definition resolveRange (p np : Placement) (t : Transition) : result applyErr (Transition * HashRange) :=
  let table := default [] (scopeTable np (tScope t)) in
  t ← match tRange t with
      | Some _ => Ok t
      | None =>
          if bool_decide (tLeg t = "") then
            match table with
            | [o] => Ok (t |> set_tLeg (oLeg o))
            | _ => refuse p t RScopeSplit
            end
          else Ok t
      end;
  rg ← match tRange t with
       | Some rg => Ok rg
       | None =>
           if negb (mhas (tLeg t) (pLegs np)) then refuse p t RLegMissing
           else match List.find (owns (tLeg t)) table with
                | Some o => Ok (mkRange (oFrom o) (oTo o))
                | None => refuse p t RLegOwnsNothing
                end
       end;
  if f64_ltb f0 (tShare t) && f64_ltb (tShare t) f1 then
    match LeadingShare rg (tShare t) with
    | Some rg => Ok (t, rg)
    | None => Err Panic
    end
  else Ok (t, rg).

(** The destination leg, made when the named bucket is not a leg yet. *)
Definition resolveDst (p np : Placement) (t : Transition) (src : string) : result applyErr (Placement * string) :=
  let '(dst, onTarget) := findDst np (tTarget t) (tName t) in
  if bool_decide (tName t = "") && (1 <? onTarget)%nat then refuse p t RTargetAmbiguous
  else if bool_decide (dst = src) then refuse p t RAlreadyThere
  else if bool_decide (dst = "") then
    if bool_decide (tName t = "") then refuse p t RNameBucket
    else match newLegID (pLegs np) (tTarget t) with
         | None => Err Diverges
         | Some id =>
             match pLegs np with
             | None => Err Panic
             | Some legs => Ok (np |> set_Legs (Some (<[id := mkLeg (tTarget t) (tName t)]> legs)), id)
             end
         end
  else Ok (np, dst).

Definition limit_ramp (rg : HashRange) (r : option Ramp) : option Ramp := set_rRange (Some rg) <$> r.

(** [Apply] is recursive through the moves: [rec] is the call it makes on the two-bucket view. *)
Section Moves.
Context (rec : Placement -> Transition -> result applyErr Placement).

Definition startMove (p : Placement) (t : Transition) : result applyErr Placement :=
  if negb (bool_decide (pState p = StateActive)) then refuse p t RMoveNotActive
  else if negb (bool_decide (tScope t = "")) && negb (existsb (fun r => bool_decide (prPrefix r = tScope t)) (sl (pPrefixes p)))
       then refuse p t RNoRule
  else if negb (bool_decide (tScope t = "")) && (0 <? length (tPrefixes t))%nat then refuse p t RScopePrefixes
  else if bool_decide (tRange t = None) && bool_decide (tLeg t = "") && bool_decide (tScope t = "") then refuse p t RNameKeys
  else if match tRange t with Some rg => (rTo rg <? rFrom rg)%Z | None => false end then refuse p t RRangeInverted
  else
    '(np, t) ← spreadPlain p t;
    if bool_decide (tTarget t = "") then refuse p t RMoveTarget
    else
      '(t, rg) ← resolveRange p np t;
      let src := sourceLeg (default [] (scopeTable np (tScope t))) rg in
      if bool_decide (src = "") then refuse p t RRangeSpans
      else if negb (bool_decide (tLeg t = "")) && negb (bool_decide (src = tLeg t)) then refuse p t RRangeOtherLeg
      else
        '(np, dst) ← resolveDst p np t src;
        if (MaxLegs <? mlen (pLegs np))%nat then refuse p t RTooManyLegs
        else
          let bucket id := legBucket (mget zeroLeg id (pLegs np)) in
          let view := zeroPlacement |> set_State StateActive |> set_Primary src |> set_Names (Some {[src := bucket src]}) in
          nv ← rec view (step_only dst (bucket dst) t);
          Ok (np |> set_State (pState nv) |> set_Barrier (pBarrier nv)
                 |> set_Move (Some (mkMove (tScope t) rg src dst (limit_ramp rg (pRamp nv)) (pCutover nv)))).

(** The end of a move: the destination owns the range, and a source left owning nothing goes. *)
Definition endMove (p : Placement) (m : Move) (np : Placement) : Placement :=
  let np := np |> set_State StateActive |> set_Move None
               |> setScopeTable (mvScope m) (reassign (default [] (scopeTable p (mvScope m))) (mvRange m) (mvTo m)) in
  let np := if ownsKeys np (mvFrom m) then np else np |> set_Legs (mdelete (mvFrom m) (pLegs np)) in
  settle np.

Definition stepMove (p : Placement) (m : Move) (t : Transition) : result applyErr Placement :=
  if match tRange t with Some rg => negb (bool_decide (rg = mvRange m)) | None => false end then refuse p t RMoveOtherRange
  else if negb (bool_decide (tLeg t = "")) && negb (bool_decide (tLeg t = mvFrom m)) then refuse p t RMoveOtherLeg
  else if negb (bool_decide (tScope t = "")) && negb (bool_decide (tScope t = mvScope m)) then refuse p t RMoveOtherScope
  else
    same ← (if f64_eqb (tShare t) f0 then Ok true
            else match sameShare p m (tShare t) with Some b => Ok b | None => Err Panic end);
    if negb same then refuse p t RMoveOtherShare
    else if negb (bool_decide (mvScope m = "")) && (0 <? length (tPrefixes t))%nat then refuse p t RScopePrefixes
    else
      let v := MoveView p m in
      if negb (bool_decide (tTarget t = "")) && negb (bool_decide (tTarget t = ClusterOf v (pPrimary v)))
      then refuse p t RMoveOtherTarget
      else
        nv ← rec v (step_only "" "" t);
        let np := clone p |> set_Barrier (pBarrier nv) in
        if bool_decide (pState nv = StateActive) then
          if tRelease t then Ok (settle (np |> set_State StateActive |> set_Move None))
          else Ok (endMove p m np)
        else Ok (np |> set_State (pState nv)
                    |> set_Move (Some (set_mvSteps (limit_ramp (mvRange m) (pRamp nv)) (pCutover nv) m))).

Definition applyMove (p : Placement) (t : Transition) : result applyErr Placement :=
  match pMove p with
  | None => startMove p t
  | Some m => stepMove p m t
  end.
End Moves.

(** ** Apply *)

(** The share of a plain bucket is of its whole key space. *)
Definition resolveShare (p : Placement) (t : Transition) : result applyErr Transition :=
  if f64_eqb (tShare t) f0 then Ok t
  else if f64_isNaN (tShare t) || f64_ltb (tShare t) f0 || f64_ltb f1 (tShare t) then refuse p t RShareOutside
  else if bool_decide (is_Some (tRange t)) then refuse p t RShareWithRange
  else if Spread p then Ok t
  else if negb (bool_decide (pState p = StateActive)) then refuse p t RShareNotFirst
  else match LeadingShare FullRange (tShare t) with
       | Some rg => Ok (t |> set_tRange (Some rg) f0)
       | None => Err Panic
       end.

(** Another bucket on the same cluster is a move of every key; every key to another cluster is a
    migration as before. *)
Definition resolveWhole (p : Placement) (t : Transition) : Transition :=
  let t := if negb (Spread p) && bool_decide (pState p = StateActive) && negb (bool_decide (tTarget t = "")) &&
              bool_decide (tTarget t = pPrimary p) && negb (bool_decide (tName t = "")) &&
              negb (bool_decide (tName t = mget "" (pPrimary p) (pNames p)))
           then t |> set_tRange (Some FullRange) (tShare t) else t in
  if bool_decide (tRange t = Some FullRange) && negb (Spread p) && negb (bool_decide (tTarget t = pPrimary p))
  then t |> set_tRange None (tShare t) else t.

(** The one leg of a plain bucket is all of it. *)
Definition resolveLeg (p : Placement) (t : Transition) : result applyErr Transition :=
  if negb (bool_decide (tLeg t = "")) && negb (Spread p) then
    if negb (bool_decide (tLeg t = pPrimary p)) then Err (TransitionError (pState p) (tTo t) RNoSuchLeg)
    else Ok (t |> set_tLeg "")
  else Ok t.

Definition is_move (p : Placement) (t : Transition) : bool :=
  Spread p || bool_decide (is_Some (tRange t)) || negb (bool_decide (tScope t = "")).

Fixpoint ApplyF (fuel : nat) (p : Placement) (t : Transition) : result applyErr Placement :=
  match fuel with
  | O => Err OutOfFuel
  | S fuel =>
      t ← resolveShare p t;
      let t := resolveWhole p t in
      t ← resolveLeg p t;
      if is_move p t then applyMove (ApplyF fuel) p t else applyPlain p t
  end.

(** The recursion is one level deep: a move's view is not spread and its step names no part. *)
Definition Apply (p : Placement) (t : Transition) : result applyErr Placement := ApplyF 2 p t.
