(* ===== verification/S3Op.v ===== *)
(** * S3 operations (internal/s3: op.go, classify.go)

    The operations of the S3 API as shunt names them, and the table that classifies a request by
    method, resource level, query and headers.  The table is built by the same loops as the code's
    and walked in order; the first matching row wins. *)

From S2P Require Import Prelude.

(** ** Operations *)

Inductive Op : Type :=
| OpUnknown
| OpPreflight
| OpListBuckets
| OpCreateBucket
| OpDeleteBucket
| OpHeadBucket
| OpListObjects
| OpListObjectsV2
| OpListObjectVersions
| OpListMultipartUploads
| OpDeleteObjects
| OpPostObject
| OpGetBucketLocation
| OpGetBucketAcl
| OpPutBucketAcl
| OpGetBucketCors
| OpPutBucketCors
| OpDeleteBucketCors
| OpGetBucketLifecycleConfiguration
| OpPutBucketLifecycleConfiguration
| OpDeleteBucketLifecycle
| OpGetBucketLogging
| OpPutBucketLogging
| OpGetBucketNotificationConfiguration
| OpPutBucketNotificationConfiguration
| OpGetObjectLockConfiguration
| OpPutObjectLockConfiguration
| OpGetBucketOwnershipControls
| OpPutBucketOwnershipControls
| OpDeleteBucketOwnershipControls
| OpGetBucketPolicy
| OpPutBucketPolicy
| OpDeleteBucketPolicy
| OpGetBucketPolicyStatus
| OpGetBucketReplication
| OpPutBucketReplication
| OpDeleteBucketReplication
| OpGetBucketRequestPayment
| OpPutBucketRequestPayment
| OpGetBucketTagging
| OpPutBucketTagging
| OpDeleteBucketTagging
| OpGetBucketVersioning
| OpPutBucketVersioning
| OpGetBucketWebsite
| OpPutBucketWebsite
| OpDeleteBucketWebsite
| OpGetBucketEncryption
| OpPutBucketEncryption
| OpDeleteBucketEncryption
| OpGetBucketAccelerateConfiguration
| OpPutBucketAccelerateConfiguration
| OpGetPublicAccessBlock
| OpPutPublicAccessBlock
| OpDeletePublicAccessBlock
| OpGetBucketAnalyticsConfiguration
| OpPutBucketAnalyticsConfiguration
| OpDeleteBucketAnalyticsConfiguration
| OpListBucketAnalyticsConfigurations
| OpGetBucketIntelligentTieringConfiguration
| OpPutBucketIntelligentTieringConfiguration
| OpDeleteBucketIntelligentTieringConfiguration
| OpListBucketIntelligentTieringConfigurations
| OpGetBucketInventoryConfiguration
| OpPutBucketInventoryConfiguration
| OpDeleteBucketInventoryConfiguration
| OpListBucketInventoryConfigurations
| OpGetBucketMetricsConfiguration
| OpPutBucketMetricsConfiguration
| OpDeleteBucketMetricsConfiguration
| OpListBucketMetricsConfigurations
| OpGetObject
| OpHeadObject
| OpPutObject
| OpCopyObject
| OpDeleteObject
| OpGetObjectAcl
| OpPutObjectAcl
| OpGetObjectAttributes
| OpGetObjectTagging
| OpPutObjectTagging
| OpDeleteObjectTagging
| OpGetObjectLegalHold
| OpPutObjectLegalHold
| OpGetObjectRetention
| OpPutObjectRetention
| OpGetObjectTorrent
| OpRestoreObject
| OpSelectObjectContent
| OpCreateMultipartUpload
| OpUploadPart
| OpUploadPartCopy
| OpCompleteMultipartUpload
| OpAbortMultipartUpload
| OpListParts.

#[export] Instance Op_eq_dec : EqDecision Op.
Proof. solve_decision. Defined.

(** The AWS API name of an operation. *)
Definition Op_String (o : Op) : string :=
  match o with
  | OpUnknown => "Unknown"
  | OpPreflight => "Preflight"
  | OpListBuckets => "ListBuckets"
  | OpCreateBucket => "CreateBucket"
  | OpDeleteBucket => "DeleteBucket"
  | OpHeadBucket => "HeadBucket"
  | OpListObjects => "ListObjects"
  | OpListObjectsV2 => "ListObjectsV2"
  | OpListObjectVersions => "ListObjectVersions"
  | OpListMultipartUploads => "ListMultipartUploads"
  | OpDeleteObjects => "DeleteObjects"
  | OpPostObject => "PostObject"
  | OpGetBucketLocation => "GetBucketLocation"
  | OpGetBucketAcl => "GetBucketAcl"
  | OpPutBucketAcl => "PutBucketAcl"
  | OpGetBucketCors => "GetBucketCors"
  | OpPutBucketCors => "PutBucketCors"
  | OpDeleteBucketCors => "DeleteBucketCors"
  | OpGetBucketLifecycleConfiguration => "GetBucketLifecycleConfiguration"
  | OpPutBucketLifecycleConfiguration => "PutBucketLifecycleConfiguration"
  | OpDeleteBucketLifecycle => "DeleteBucketLifecycle"
  | OpGetBucketLogging => "GetBucketLogging"
  | OpPutBucketLogging => "PutBucketLogging"
  | OpGetBucketNotificationConfiguration => "GetBucketNotificationConfiguration"
  | OpPutBucketNotificationConfiguration => "PutBucketNotificationConfiguration"
  | OpGetObjectLockConfiguration => "GetObjectLockConfiguration"
  | OpPutObjectLockConfiguration => "PutObjectLockConfiguration"
  | OpGetBucketOwnershipControls => "GetBucketOwnershipControls"
  | OpPutBucketOwnershipControls => "PutBucketOwnershipControls"
  | OpDeleteBucketOwnershipControls => "DeleteBucketOwnershipControls"
  | OpGetBucketPolicy => "GetBucketPolicy"
  | OpPutBucketPolicy => "PutBucketPolicy"
  | OpDeleteBucketPolicy => "DeleteBucketPolicy"
  | OpGetBucketPolicyStatus => "GetBucketPolicyStatus"
  | OpGetBucketReplication => "GetBucketReplication"
  | OpPutBucketReplication => "PutBucketReplication"
  | OpDeleteBucketReplication => "DeleteBucketReplication"
  | OpGetBucketRequestPayment => "GetBucketRequestPayment"
  | OpPutBucketRequestPayment => "PutBucketRequestPayment"
  | OpGetBucketTagging => "GetBucketTagging"
  | OpPutBucketTagging => "PutBucketTagging"
  | OpDeleteBucketTagging => "DeleteBucketTagging"
  | OpGetBucketVersioning => "GetBucketVersioning"
  | OpPutBucketVersioning => "PutBucketVersioning"
  | OpGetBucketWebsite => "GetBucketWebsite"
  | OpPutBucketWebsite => "PutBucketWebsite"
  | OpDeleteBucketWebsite => "DeleteBucketWebsite"
  | OpGetBucketEncryption => "GetBucketEncryption"
  | OpPutBucketEncryption => "PutBucketEncryption"
  | OpDeleteBucketEncryption => "DeleteBucketEncryption"
  | OpGetBucketAccelerateConfiguration => "GetBucketAccelerateConfiguration"
  | OpPutBucketAccelerateConfiguration => "PutBucketAccelerateConfiguration"
  | OpGetPublicAccessBlock => "GetPublicAccessBlock"
  | OpPutPublicAccessBlock => "PutPublicAccessBlock"
  | OpDeletePublicAccessBlock => "DeletePublicAccessBlock"
  | OpGetBucketAnalyticsConfiguration => "GetBucketAnalyticsConfiguration"
  | OpPutBucketAnalyticsConfiguration => "PutBucketAnalyticsConfiguration"
  | OpDeleteBucketAnalyticsConfiguration => "DeleteBucketAnalyticsConfiguration"
  | OpListBucketAnalyticsConfigurations => "ListBucketAnalyticsConfigurations"
  | OpGetBucketIntelligentTieringConfiguration => "GetBucketIntelligentTieringConfiguration"
  | OpPutBucketIntelligentTieringConfiguration => "PutBucketIntelligentTieringConfiguration"
  | OpDeleteBucketIntelligentTieringConfiguration => "DeleteBucketIntelligentTieringConfiguration"
  | OpListBucketIntelligentTieringConfigurations => "ListBucketIntelligentTieringConfigurations"
  | OpGetBucketInventoryConfiguration => "GetBucketInventoryConfiguration"
  | OpPutBucketInventoryConfiguration => "PutBucketInventoryConfiguration"
  | OpDeleteBucketInventoryConfiguration => "DeleteBucketInventoryConfiguration"
  | OpListBucketInventoryConfigurations => "ListBucketInventoryConfigurations"
  | OpGetBucketMetricsConfiguration => "GetBucketMetricsConfiguration"
  | OpPutBucketMetricsConfiguration => "PutBucketMetricsConfiguration"
  | OpDeleteBucketMetricsConfiguration => "DeleteBucketMetricsConfiguration"
  | OpListBucketMetricsConfigurations => "ListBucketMetricsConfigurations"
  | OpGetObject => "GetObject"
  | OpHeadObject => "HeadObject"
  | OpPutObject => "PutObject"
  | OpCopyObject => "CopyObject"
  | OpDeleteObject => "DeleteObject"
  | OpGetObjectAcl => "GetObjectAcl"
  | OpPutObjectAcl => "PutObjectAcl"
  | OpGetObjectAttributes => "GetObjectAttributes"
  | OpGetObjectTagging => "GetObjectTagging"
  | OpPutObjectTagging => "PutObjectTagging"
  | OpDeleteObjectTagging => "DeleteObjectTagging"
  | OpGetObjectLegalHold => "GetObjectLegalHold"
  | OpPutObjectLegalHold => "PutObjectLegalHold"
  | OpGetObjectRetention => "GetObjectRetention"
  | OpPutObjectRetention => "PutObjectRetention"
  | OpGetObjectTorrent => "GetObjectTorrent"
  | OpRestoreObject => "RestoreObject"
  | OpSelectObjectContent => "SelectObjectContent"
  | OpCreateMultipartUpload => "CreateMultipartUpload"
  | OpUploadPart => "UploadPart"
  | OpUploadPartCopy => "UploadPartCopy"
  | OpCompleteMultipartUpload => "CompleteMultipartUpload"
  | OpAbortMultipartUpload => "AbortMultipartUpload"
  | OpListParts => "ListParts"
  end.

Definition IsData (o : Op) : bool :=
  match o with
  | OpGetObject | OpPutObject | OpUploadPart | OpPostObject | OpSelectObjectContent
  | OpCopyObject | OpUploadPartCopy | OpUnknown => true
  | _ => false
  end.

(** ** The classifier *)

Inductive Level : Type := LevelService | LevelBucket | LevelObject.

#[export] Instance Level_eq_dec : EqDecision Level.
Proof. solve_decision. Defined.

(** [url.Values] and [http.Header]: keys to lists of values; [Get] is the first value or "". *)
Abbreviation values := (gmap string (list string)).
Definition Get (k : string) (v : values) : string :=
  match v !! k with Some (x :: _) => x | _ => "" end.

Record rule : Type := mkSRule {
  rlMethod : string;
  rlLevel : Level;
  rlQuery : list string;
  rlValue : string * string;
  rlHeader : string;
  rlOp : Op;
}.

Definition hdrCopySource : string := "X-Amz-Copy-Source".

(** A verb without an operation for the key is [None]. *)
Record subresource : Type := mkSub { subKey : string; subGet : option Op; subPut : option Op; subDel : option Op }.

Definition bucketSubresources : list subresource :=
  [mkSub "location" (Some OpGetBucketLocation) None None;
   mkSub "tagging" (Some OpGetBucketTagging) (Some OpPutBucketTagging) (Some OpDeleteBucketTagging);
   mkSub "ownershipControls" (Some OpGetBucketOwnershipControls) (Some OpPutBucketOwnershipControls) (Some OpDeleteBucketOwnershipControls);
   mkSub "versioning" (Some OpGetBucketVersioning) (Some OpPutBucketVersioning) None;
   mkSub "policyStatus" (Some OpGetBucketPolicyStatus) None None;
   mkSub "policy" (Some OpGetBucketPolicy) (Some OpPutBucketPolicy) (Some OpDeleteBucketPolicy);
   mkSub "cors" (Some OpGetBucketCors) (Some OpPutBucketCors) (Some OpDeleteBucketCors);
   mkSub "object-lock" (Some OpGetObjectLockConfiguration) (Some OpPutObjectLockConfiguration) None;
   mkSub "acl" (Some OpGetBucketAcl) (Some OpPutBucketAcl) None;
   mkSub "uploads" (Some OpListMultipartUploads) None None;
   mkSub "versions" (Some OpListObjectVersions) None None;
   mkSub "encryption" (Some OpGetBucketEncryption) (Some OpPutBucketEncryption) (Some OpDeleteBucketEncryption);
   mkSub "lifecycle" (Some OpGetBucketLifecycleConfiguration) (Some OpPutBucketLifecycleConfiguration) (Some OpDeleteBucketLifecycle);
   mkSub "logging" (Some OpGetBucketLogging) (Some OpPutBucketLogging) None;
   mkSub "requestPayment" (Some OpGetBucketRequestPayment) (Some OpPutBucketRequestPayment) None;
   mkSub "replication" (Some OpGetBucketReplication) (Some OpPutBucketReplication) (Some OpDeleteBucketReplication);
   mkSub "publicAccessBlock" (Some OpGetPublicAccessBlock) (Some OpPutPublicAccessBlock) (Some OpDeletePublicAccessBlock);
   mkSub "notification" (Some OpGetBucketNotificationConfiguration) (Some OpPutBucketNotificationConfiguration) None;
   mkSub "accelerate" (Some OpGetBucketAccelerateConfiguration) (Some OpPutBucketAccelerateConfiguration) None;
   mkSub "website" (Some OpGetBucketWebsite) (Some OpPutBucketWebsite) (Some OpDeleteBucketWebsite)].

Record configured : Type := mkConf { cfKey : string; cfGet : Op; cfList : Op; cfPut : Op; cfDel : Op }.

Definition bucketConfigured : list configured :=
  [mkConf "analytics" OpGetBucketAnalyticsConfiguration OpListBucketAnalyticsConfigurations OpPutBucketAnalyticsConfiguration OpDeleteBucketAnalyticsConfiguration;
   mkConf "intelligent-tiering" OpGetBucketIntelligentTieringConfiguration OpListBucketIntelligentTieringConfigurations OpPutBucketIntelligentTieringConfiguration OpDeleteBucketIntelligentTieringConfiguration;
   mkConf "inventory" OpGetBucketInventoryConfiguration OpListBucketInventoryConfigurations OpPutBucketInventoryConfiguration OpDeleteBucketInventoryConfiguration;
   mkConf "metrics" OpGetBucketMetricsConfiguration OpListBucketMetricsConfigurations OpPutBucketMetricsConfiguration OpDeleteBucketMetricsConfiguration].

Definition row (m : string) (l : Level) (q : list string) (o : Op) : rule := mkSRule m l q ("", "") "" o.

Definition buildRules : list rule :=
  [row "GET" LevelService [] OpListBuckets] ++
  concat (List.map (fun c =>
    [row "GET" LevelBucket [cfKey c; "id"] (cfGet c); row "GET" LevelBucket [cfKey c] (cfList c);
     row "PUT" LevelBucket [cfKey c] (cfPut c); row "DELETE" LevelBucket [cfKey c] (cfDel c)]) bucketConfigured) ++
  concat (List.map (fun s =>
    option_list (row "GET" LevelBucket [subKey s] <$> subGet s) ++
    option_list (row "PUT" LevelBucket [subKey s] <$> subPut s) ++
    option_list (row "DELETE" LevelBucket [subKey s] <$> subDel s)) bucketSubresources) ++
  [mkSRule "GET" LevelBucket [] ("list-type", "2") "" OpListObjectsV2;
   mkSRule "GET" LevelBucket [] ("", "") "" OpListObjects;
   mkSRule "HEAD" LevelBucket [] ("", "") "" OpHeadBucket;
   mkSRule "PUT" LevelBucket [] ("", "") "" OpCreateBucket;
   mkSRule "DELETE" LevelBucket [] ("", "") "" OpDeleteBucket;
   mkSRule "POST" LevelBucket ["delete"] ("", "") "" OpDeleteObjects;
   mkSRule "POST" LevelBucket [] ("", "") "" OpPostObject;
   mkSRule "GET" LevelObject ["acl"] ("", "") "" OpGetObjectAcl;
   mkSRule "GET" LevelObject ["attributes"] ("", "") "" OpGetObjectAttributes;
   mkSRule "GET" LevelObject ["legal-hold"] ("", "") "" OpGetObjectLegalHold;
   mkSRule "GET" LevelObject ["retention"] ("", "") "" OpGetObjectRetention;
   mkSRule "GET" LevelObject ["tagging"] ("", "") "" OpGetObjectTagging;
   mkSRule "GET" LevelObject ["uploadId"] ("", "") "" OpListParts;
   mkSRule "GET" LevelObject ["torrent"] ("", "") "" OpGetObjectTorrent;
   mkSRule "GET" LevelObject ["uploads"] ("", "") "" OpUnknown;
   mkSRule "GET" LevelObject ["versions"] ("", "") "" OpUnknown;
   mkSRule "GET" LevelObject [] ("", "") "" OpGetObject;
   mkSRule "HEAD" LevelObject [] ("", "") "" OpHeadObject;
   mkSRule "DELETE" LevelObject ["uploadId"] ("", "") "" OpAbortMultipartUpload;
   mkSRule "DELETE" LevelObject ["tagging"] ("", "") "" OpDeleteObjectTagging;
   mkSRule "DELETE" LevelObject [] ("", "") "" OpDeleteObject;
   mkSRule "POST" LevelObject ["uploads"] ("", "") "" OpCreateMultipartUpload;
   mkSRule "POST" LevelObject ["uploadId"] ("", "") "" OpCompleteMultipartUpload;
   mkSRule "POST" LevelObject ["restore"] ("", "") "" OpRestoreObject;
   mkSRule "POST" LevelObject ["select"] ("select-type", "2") "" OpSelectObjectContent;
   mkSRule "PUT" LevelObject ["tagging"] ("", "") "" OpPutObjectTagging;
   mkSRule "PUT" LevelObject ["retention"] ("", "") "" OpPutObjectRetention;
   mkSRule "PUT" LevelObject ["legal-hold"] ("", "") "" OpPutObjectLegalHold;
   mkSRule "PUT" LevelObject ["acl"] ("", "") "" OpPutObjectAcl;
   mkSRule "PUT" LevelObject ["uploadId"; "partNumber"] ("", "") hdrCopySource OpUploadPartCopy;
   mkSRule "PUT" LevelObject ["uploadId"; "partNumber"] ("", "") "" OpUploadPart;
   mkSRule "PUT" LevelObject [] ("", "") hdrCopySource OpCopyObject;
   mkSRule "PUT" LevelObject [] ("", "") "" OpPutObject].

Definition matches (r : rule) (q h : values) : bool :=
  forallb (fun k => bool_decide (is_Some (q !! k))) (rlQuery r) &&
  (bool_decide (fst (rlValue r) = "") || bool_decide (Get (fst (rlValue r)) q = snd (rlValue r))) &&
  (bool_decide (rlHeader r = "") || negb (bool_decide (Get (rlHeader r) h = ""))).

Definition row_for (method : string) (level : Level) (q h : values) (r : rule) : bool :=
  bool_decide (rlMethod r = method) && bool_decide (rlLevel r = level) && matches r q h.

Definition classify (method : string) (level : Level) (q h : values) : Op :=
  if bool_decide (method = "OPTIONS") then OpPreflight
  else match List.find (row_for method level q h) buildRules with Some r => rlOp r | None => OpUnknown end.
