(* ===== verification/S3Names.v ===== *)
(** * Names and addresses of S3 (internal/s3: bucketname.go, request.go, listingkey.go,
      credential.go; internal/migrate/uploadid.go; internal/directory/names.go)

    What shunt reads out of a request's host and path, which bucket names it accepts and generates,
    and the identifiers it hands out for multipart uploads. *)

From S2P Require Import Prelude Placement S3Op.

(** ** Strings *)

(** [strings.CutSuffix], [strings.HasSuffix], [strings.TrimSuffix] and [strings.TrimPrefix]. *)
Fixpoint CutSuffix (s suf : string) : option string :=
  if decide (s = suf) then Some ""
  else match s with EmptyString => None | String c s => String c <$> CutSuffix s suf end.
Definition HasSuffix (s suf : string) : bool := bool_decide (is_Some (CutSuffix s suf)).
Definition TrimSuffix (s suf : string) : string := default s (CutSuffix s suf).
Definition TrimPrefix (s p : string) : string := default s (CutPrefix s p).

Lemma CutSuffix_Some s suf r : CutSuffix s suf = Some r -> s = r +:+ suf.
Proof.
  revert r. induction s as [|c s IH]; intros r; simpl; (case_decide as E; [by intros [= <-]|]); [done|].
  destruct (CutSuffix s suf) as [r'|]; [|done]. intros [= <-]. rewrite append_cons. f_equal. by apply IH.
Qed.

Fixpoint map_string (f : Ascii.ascii -> Ascii.ascii) (s : string) : string :=
  match s with EmptyString => EmptyString | String c s => String (f c) (map_string f s) end.
(** [strings.ToLower] on the ASCII bytes hosts and names are made of. *)
Definition lower_byte (c : Ascii.ascii) : Ascii.ascii :=
  if in_range "A" "Z" c then Ascii.ascii_of_N (Ascii.N_of_ascii c + 32) else c.
Definition ToLower (s : string) : string := map_string lower_byte s.

Fixpoint contains_byte (c : Ascii.ascii) (s : string) : bool :=
  match s with EmptyString => false | String a s => bool_decide (a = c) || contains_byte c s end.
(** [strings.Split s sep] for a one-byte separator. *)
Fixpoint Split (s : string) (sep : Ascii.ascii) : list string :=
  match s with
  | EmptyString => [""]
  | String c s =>
      if decide (c = sep) then "" :: Split s sep
      else match Split s sep with
           | f :: fs => String c f :: fs
           | [] => [String c ""]
           end
  end.

(** ** Bucket names *)

Definition reservedBucketPrefixes : list string := ["xn--"; "sthree-"; "amzn-s3-demo-"].
Definition reservedBucketSuffixes : list string := ["-s3alias"; "--ol-s3"; ".mrap"; "--x-s3"; "--table-s3"].

Definition is_alnum (c : Ascii.ascii) : bool := is_lower c || is_digit c.

(** The loop over the bytes after the first: [prev] is the byte before. *)
Fixpoint bucket_bytes (prev : Ascii.ascii) (s : string) : bool :=
  match s with
  | EmptyString => true
  | String c rest =>
      (is_alnum c ||
       ((bool_decide (c = "."%char) || bool_decide (c = "-"%char)) && negb (bool_decide (rest = "")) &&
        negb (bool_decide (c = "."%char) && bool_decide (prev = "."%char)))) &&
      bucket_bytes c rest
  end.

(** An octet of [net.ParseIP]'s dotted decimal: up to 255, with no leading zero. *)
Definition dec_digit (c : Ascii.ascii) : Z := byteZ c - 48.
Fixpoint dec_value (acc : Z) (s : string) : Z :=
  match s with EmptyString => acc | String c s => dec_value (acc * 10 + dec_digit c) s end.
Definition octet (s : string) : bool :=
  match s with
  | EmptyString => false
  | String c r =>
      all_bytes is_digit s && (bool_decide (r = "") || negb (bool_decide (c = "0"%char))) &&
      (String.length s <=? 3)%nat && (dec_value 0 s <=? 255)%Z
  end.
(** [net.ParseIP] of a name without ':': an IPv4 address or nothing. *)
Definition parse_ipv4 (s : string) : bool :=
  match Split s "."%char with
  | [a; b; c; d] => octet a && octet b && octet c && octet d
  | _ => false
  end.

Definition ValidBucketName (name : string) : bool :=
  (3 <=? String.length name)%nat && (String.length name <=? 63)%nat &&
  match name with String c r => is_alnum c && bucket_bytes c r | EmptyString => false end &&
  negb (parse_ipv4 name) &&
  negb (existsb (HasPrefix name) reservedBucketPrefixes) &&
  negb (existsb (HasSuffix name) reservedBucketSuffixes).

(** validTenant of internal/directory/validate.go. *)
Definition validTenant (name : string) : bool :=
  match name with
  | EmptyString => false
  | String c _ =>
      (String.length name <=? 32)%nat && negb (bool_decide (c = "-"%char)) && negb (HasSuffix name "-") &&
      all_bytes (fun c => is_lower c || is_digit c || bool_decide (c = "-"%char)) name
  end.

(** [strings.TrimRight name ".-"]. *)
Fixpoint trim_right (f : Ascii.ascii -> bool) (s : string) : string :=
  match s with
  | EmptyString => EmptyString
  | String c s => match trim_right f s with
                  | EmptyString => if f c then EmptyString else String c EmptyString
                  | r => String c r
                  end
  end.

(** BackendName; [hex4 s] is the first two bytes of the SHA-256 of s in hex. *)
Definition BackendName (hex4 : string -> string) (tenant bucket : string) (attempt : nat) : string :=
  let input := tenant +:+ "/" +:+ bucket +:+ (if (0 <? attempt)%nat then "#" +:+ pretty attempt else "") in
  let name := ToLower tenant +:+ "-" +:+ hex4 input +:+ "-" +:+ ToLower bucket in
  if (63 <? String.length name)%nat
  then trim_right (fun c => bool_decide (c = "."%char) || bool_decide (c = "-"%char)) (String.substring 0 63 name)
  else name.

(** The examples of bucketname_test.go. *)
Example valid_name : ValidBucketName "my.bucket-1" = true.
Proof. vm_compute. reflexivity. Qed.
Example invalid_ip : ValidBucketName "192.168.5.4" = false.
Proof. vm_compute. reflexivity. Qed.
Example valid_not_ip : ValidBucketName "192.168.5.400" = true.
Proof. vm_compute. reflexivity. Qed.
Example invalid_dots : ValidBucketName "a..b" = false.
Proof. vm_compute. reflexivity. Qed.
Example invalid_suffix : ValidBucketName "abc--x-s3" = false.
Proof. vm_compute. reflexivity. Qed.

(** ** The model of a request *)

Inductive Style : Type := StylePath | StyleVirtualHost.

Record RequestInfo : Type := mkInfo {
  iBucket : string;
  iKey : string;
  iOp : Op;
  iStyle : Style;
  iLevel : Level;
  iQuery : values;
}.

(** What net/http gives of a request: the host, the escaped path, the parsed query and headers. *)
Record Request : Type := mkRequest {
  qMethod : string;
  qHost : string;
  qPath : string;
  qQuery : values;
  qHeader : values;
}.

(** [url.PathUnescape]: [None] is the error for a percent sign without two hex digits. *)
Definition hex_val (c : Ascii.ascii) : option N :=
  if in_range "0" "9" c then Some (Ascii.N_of_ascii c - 48)%N
  else if in_range "a" "f" c then Some (Ascii.N_of_ascii c - 87)%N
  else if in_range "A" "F" c then Some (Ascii.N_of_ascii c - 55)%N
  else None.

Fixpoint PathUnescape (s : string) : option string :=
  match s with
  | EmptyString => Some ""
  | String c rest =>
      if decide (c = "%"%char) then
        match rest with
        | String a (String b rest) =>
            x ← hex_val a; y ← hex_val b; r ← PathUnescape rest; Some (String (Ascii.ascii_of_N (x * 16 + y)) r)
        | _ => None
        end
      else String c <$> PathUnescape rest
  end.

Definition unescape (s : string) : string :=
  if negb (Contains s "%") then s else match PathUnescape s with Some u => u | None => s end.

(** DecodeListingKey has the same body. *)
Definition DecodeListingKey (s : string) : string :=
  if negb (Contains s "%") then s else match PathUnescape s with Some d => d | None => s end.

Record Domains : Type := mkDomains { dSuffixes : list string; dBare : list string }.

Definition NewDomains (entries : list string) : Domains :=
  let bases := List.map (fun e => TrimPrefix e "*.")
                 (List.filter (fun e => negb (bool_decide (e = ""))) (List.map (fun e => ToLower (TrimSuffix e ".")) entries)) in
  mkDomains (List.map (fun b => "." +:+ b) bases) bases.

(** The part after the last ':', and what precedes it. *)
Fixpoint CutLast (s : string) (sep : Ascii.ascii) : option (string * string) :=
  match s with
  | EmptyString => None
  | String c s =>
      match CutLast s sep with
      | Some (a, b) => Some (String c a, b)
      | None => if decide (c = sep) then Some ("", s) else None
      end
  end.

(** [net.SplitHostPort], its host; [None] is any of its errors. *)
Definition SplitHostPort (hostport : string) : option string :=
  '(before, port) ← CutLast hostport ":"%char;
  match hostport with
  | String "["%char inner =>
      '(host, after) ← Cut inner "]"%char;
      if negb (bool_decide (after = ":" +:+ port)) then None
      else if contains_byte "["%char inner || contains_byte "]"%char after then None
      else Some host
  | _ =>
      if contains_byte ":"%char before then None
      else if contains_byte "["%char hostport || contains_byte "]"%char hostport then None
      else Some before
  end.

(** The loop of bucketFromHost over the domains in order. *)
Fixpoint match_domains (host : string) (suffixes bare : list string) : string :=
  match suffixes, bare with
  | suf :: suffixes, b :: bare =>
      if bool_decide (host = b) then ""
      else if HasSuffix host suf && (String.length suf <? String.length host)%nat then TrimSuffix host suf
      else match_domains host suffixes bare
  | _, _ => ""
  end.

Definition bucketFromHost (d : Domains) (host : string) : string :=
  let host := ToLower host in
  let host := default host (SplitHostPort host) in
  match_domains host (dSuffixes d) (dBare d).

Definition Parse (r : Request) (d : Domains) : RequestInfo :=
  let rest := TrimPrefix (qPath r) "/" in
  let '(bucket, key, style, level) :=
    let b := bucketFromHost d (qHost r) in
    if negb (bool_decide (b = "")) then
      if negb (bool_decide (rest = "")) then (b, unescape rest, StyleVirtualHost, LevelObject)
      else (b, "", StyleVirtualHost, LevelBucket)
    else
      match Cut rest "/"%char with
      | Some (bucket, key) =>
          if bool_decide (bucket = "") then ("", "", StylePath, LevelService)
          else if negb (bool_decide (key = "")) then (bucket, unescape key, StylePath, LevelObject)
          else (bucket, "", StylePath, LevelBucket)
      | None =>
          if bool_decide (rest = "") then ("", "", StylePath, LevelService)
          else (rest, "", StylePath, LevelBucket)
      end in
  mkInfo bucket key (classify (qMethod r) level (qQuery r) (qHeader r)) style level (qQuery r).

(** ** Faults a backend reports *)

Inductive CredentialFault : Type := FaultNone | FaultSignature | FaultUnknownKey.

Definition ClassifyCredentialError (code message : string) : CredentialFault :=
  if bool_decide (code = "SignatureDoesNotMatch") then FaultSignature
  else if bool_decide (code = "InvalidAccessKeyId") then FaultUnknownKey
  else if bool_decide (code = "AccessDenied") then
    if Contains message "Invalid signature" then FaultSignature
    else if Contains message "No such key" then FaultUnknownKey
    else FaultNone
  else FaultNone.

(** ** Upload ids *)

Definition idLen : nat := 6.

Definition is_lower_hex (c : Ascii.ascii) : bool := in_range "0" "9" c || in_range "a" "f" c.
Definition isLowerHex (s : string) : bool := all_bytes is_lower_hex s.

(** BucketTag; [sum3 s] is the first three bytes of the SHA-256 of s in hex. *)
Definition BucketTag (sum3 : string -> string) (bucket : string) : string := sum3 bucket.

Definition SplitUploadPrefix (prefix : string) : string * string :=
  match Cut prefix "."%char with Some (a, b) => (a, b) | None => (prefix, "") end.

Definition encodeUploadID (clusterID backendID : string) : string :=
  if bool_decide (backendID = "") then "" else clusterID +:+ "~" +:+ backendID.

(** DecodeUploadID: [Some (prefix, id)] when the id is prefixed, [None] when it is returned whole. *)
Definition DecodeUploadID (v : string) : option (string * string) :=
  '(p, id) ← Cut v "~"%char;
  if bool_decide (String.length p = idLen) && isLowerHex p then Some (p, id)
  else if bool_decide (String.length p = 2 * idLen + 1)%nat &&
          match Cut (String.substring idLen (String.length p - idLen) p) "."%char with
          | Some ("", tag) => isLowerHex (String.substring 0 idLen p) && isLowerHex tag
          | _ => false
          end
       then Some (p, id)
  else None.

(** ** Lemmas *)

Lemma contains_byte_app c s1 s2 : contains_byte c (s1 +:+ s2) = contains_byte c s1 || contains_byte c s2.
Proof. induction s1 as [|a s1 IH]; [done|]. rewrite ?append_cons. simpl. by rewrite IH, orb_assoc. Qed.

Lemma contains_byte_not f c s : f c = false -> all_bytes f s = true -> contains_byte c s = false.
Proof.
  intros Hc. induction s as [|a s IH]; simpl; [done|]. intros [Ha Hs]%andb_true_iff. rewrite IH by done.
  rewrite bool_decide_false; [done|]. intros ->. congruence.
Qed.

Lemma Cut_none s sep : Cut s sep = None <-> contains_byte sep s = false.
Proof.
  induction s as [|c s IH]; simpl; [done|]. case_decide as E; [subst; by rewrite bool_decide_true|].
  rewrite bool_decide_false by done. simpl. rewrite <- IH. destruct (Cut s sep) as [[]|]; done.
Qed.

Lemma Cut_first s sep a b : Cut s sep = Some (a, b) -> contains_byte sep a = false.
Proof.
  revert a. induction s as [|c s IH]; intros a; simpl; [done|]. case_decide; [by intros [= <- <-]|].
  destruct (Cut s sep) as [[a' b']|]; simpl; [|done]. intros [= <- <-]. simpl. rewrite bool_decide_false by done. by apply IH.
Qed.

Lemma Cut_app a sep b : contains_byte sep a = false -> Cut (a +:+ String sep b) sep = Some (a, b).
Proof.
  induction a as [|c a IH]; simpl; [intros _; by rewrite decide_True|].
  intros [Hc Ha]%orb_false_iff. apply bool_decide_eq_false in Hc. rewrite ?append_cons. simpl.
  rewrite decide_False by done. by rewrite IH.
Qed.

Lemma substring_all s : String.substring 0 (String.length s) s = s.
Proof. induction s as [|c s IH]; simpl; [done|]. by rewrite IH. Qed.

Lemma substring_prefix a b : String.substring 0 (String.length a) (a +:+ b) = a.
Proof. induction a as [|c a IH]; simpl; [by destruct b|]. rewrite ?append_cons. simpl. by rewrite IH. Qed.

Lemma substring_suffix a b : String.substring (String.length a) (String.length b) (a +:+ b) = b.
Proof. induction a as [|c a IH]; simpl; [apply substring_all|]. rewrite ?append_cons. simpl. done. Qed.

Lemma hex_not c s : is_lower_hex c = false -> isLowerHex s = true -> contains_byte c s = false.
Proof. apply contains_byte_not. Qed.

Lemma PathUnescape_nonempty s u : s <> "" -> PathUnescape s = Some u -> u <> "".
Proof.
  destruct s as [|c s]; [done|]. intros _. simpl. case_decide.
  - destruct s as [|a [|b s]]; try done. destruct (hex_val a), (hex_val b); simpl; try done.
    destruct (PathUnescape s); simpl; [|done]. by intros [= <-].
  - destruct (PathUnescape s); simpl; [|done]. by intros [= <-].
Qed.

Lemma unescape_nonempty s : s <> "" -> unescape s <> "".
Proof.
  intros Hs. unfold unescape. destruct (negb _); [done|]. destruct (PathUnescape s) as [u|] eqn:E; [|done].
  by eapply PathUnescape_nonempty.
Qed.

(** A name made of dashes, letters and digits in front of another. *)
Definition dash_alnum (c : Ascii.ascii) : bool := is_alnum c || bool_decide (c = "-"%char).

Fixpoint last_byte (c : Ascii.ascii) (s : string) : Ascii.ascii :=
  match s with EmptyString => c | String c s => last_byte c s end.

Lemma bucket_bytes_app prev s r : all_bytes dash_alnum s = true -> r <> "" ->
  bucket_bytes prev (s +:+ r) = bucket_bytes (last_byte prev s) r.
Proof.
  intros Hs Hr. revert prev Hs. induction s as [|c s IH]; intros prev; simpl; [done|].
  intros [Hc Hs]%andb_true_iff. rewrite ?append_cons. simpl. rewrite IH by done.
  assert (s +:+ r <> "") as Hne by (destruct s; [done|by rewrite ?append_cons]).
  unfold dash_alnum in Hc. destruct (is_alnum c); [done|]. simpl in Hc. apply bool_decide_eq_true in Hc as ->.
  rewrite (bool_decide_eq_false_2 _ Hne). done.
Qed.

Lemma lower_id s : all_bytes (fun c => negb (in_range "A" "Z" c)) s = true -> ToLower s = s.
Proof.
  unfold ToLower. induction s as [|c s IH]; simpl; [done|]. intros [Hc Hs]%andb_true_iff. rewrite IH by done.
  unfold lower_byte. by destruct (in_range "A" "Z" c).
Qed.

Lemma range_not_upper c : is_alnum c = true -> in_range "A" "Z" c = false.
Proof.
  unfold is_alnum, is_lower, is_digit, in_range. change (byteZ "a"%char) with 97%Z. change (byteZ "z"%char) with 122%Z.
  change (byteZ "0"%char) with 48%Z. change (byteZ "9"%char) with 57%Z. change (byteZ "A"%char) with 65%Z. change (byteZ "Z"%char) with 90%Z.
  rewrite orb_true_iff, !andb_true_iff, andb_false_iff. lia.
Qed.

Lemma dash_not_upper c : dash_alnum c = true -> negb (in_range "A" "Z" c) = true.
Proof.
  unfold dash_alnum. intros [H|H]%orb_true_iff; [by rewrite range_not_upper|].
  apply bool_decide_eq_true in H as ->. reflexivity.
Qed.

Lemma bucket_bytes_lower prev s : bucket_bytes prev s = true -> all_bytes (fun c => negb (in_range "A" "Z" c)) s = true.
Proof.
  revert prev. induction s as [|c s IH]; intros prev; simpl; [done|]. intros [Hc Hs]%andb_true_iff. rewrite (IH c) by done.
  apply orb_true_iff in Hc as [Hc|Hc]; [by rewrite range_not_upper|].
  apply andb_true_iff in Hc as [Hc _]. apply andb_true_iff in Hc as [Hc _].
  apply orb_true_iff in Hc as [Hc|Hc]; apply bool_decide_eq_true in Hc as ->; reflexivity.
Qed.

(** A dash anywhere means the name is not an IPv4 address. *)
Lemma Split_dash s sep : sep <> "-"%char -> contains_byte "-"%char s = true ->
  exists f, f ∈ Split s sep /\ contains_byte "-"%char f = true.
Proof.
  intros Hsep. induction s as [|c s IH]; simpl; [done|]. intros Hc.
  destruct (decide (c = sep)) as [->|Hne].
  - rewrite bool_decide_false in Hc by done. destruct (IH Hc) as (f & ? & ?). exists f. split; [by right|done].
  - destruct (Split s sep) as [|f fs] eqn:E; [exists (String c ""); split; [by left|]|].
    + destruct s; simpl in E; [|by repeat case_match]. simpl in *. done.
    + apply orb_true_iff in Hc as [Hc|Hc].
      * exists (String c f). split; [by left|]. simpl. by rewrite Hc.
      * destruct (IH Hc) as (g & Hg & Hd). apply elem_of_cons in Hg as [->|Hg].
        -- exists (String c f). split; [by left|]. simpl. by rewrite Hd, orb_true_r.
        -- exists g. split; [by right|done].
Qed.

Lemma octet_dash s : contains_byte "-"%char s = true -> octet s = false.
Proof.
  intros Hd. destruct (octet s) eqn:E; [|done]. destruct s as [|c r]; [done|]. unfold octet in E.
  rewrite !andb_true_iff in E. destruct E as [[[E _] _] _].
  rewrite (contains_byte_not is_digit "-"%char) in Hd; done.
Qed.

Lemma parse_ipv4_dash s : contains_byte "-"%char s = true -> parse_ipv4 s = false.
Proof.
  intros Hd. destruct (Split_dash s "."%char) as (f & Hf & Hfd); [done|done|]. apply octet_dash in Hfd.
  unfold parse_ipv4. destruct (Split s "."%char) as [|a [|b [|c [|d [|]]]]]; try done.
  rewrite !elem_of_cons in Hf. destruct Hf as [->|[->|[->|[->|Hf%elem_of_nil]]]]; rewrite ?Hfd, ?andb_false_r; done.
Qed.

Lemma validTenant_bytes t : validTenant t = true -> exists c r, t = String c r /\ is_alnum c = true /\ all_bytes dash_alnum t = true.
Proof.
  destruct t as [|c r]; [done|]. unfold validTenant. rewrite !andb_true_iff. intros [[[_ Hc] _] Hall]. exists c, r.
  split; [done|]. split; [|exact Hall]. simpl in Hall. apply andb_true_iff in Hall as [Hall _].
  unfold is_alnum. destruct (is_lower c || is_digit c); [done|]. simpl in Hall. by rewrite Hall in Hc.
Qed.

Lemma ValidBucketName_bytes b : ValidBucketName b = true ->
  exists c r, b = String c r /\ is_alnum c = true /\ bucket_bytes c r = true /\ (3 <= String.length b <= 63)%nat.
Proof.
  unfold ValidBucketName. rewrite !andb_true_iff, !Nat.leb_le. intros [[[[[H1 H2] H3] _] _] _].
  destruct b as [|c r]; [done|]. apply andb_true_iff in H3 as [Hc Hr]. by exists c, r.
Qed.

Lemma bucket_no_slash b : ValidBucketName b = true -> contains_byte "/"%char b = false.
Proof.
  intros (c & r & -> & Hc & Hr & _)%ValidBucketName_bytes. simpl.
  rewrite (bool_decide_eq_false_2 (c = "/"%char)) by (by intros ->). simpl. clear Hc. revert c Hr.
  induction r as [|a r IH]; intros c; simpl; [done|]. intros [Ha Hr]%andb_true_iff. rewrite (IH a) by done.
  rewrite bool_decide_false; [done|]. by intros ->.
Qed.

Lemma tenant_no_slash t : validTenant t = true -> contains_byte "/"%char t = false.
Proof. intros (c & r & -> & _ & Hall)%validTenant_bytes. by apply (contains_byte_not dash_alnum). Qed.

(** *** Reserved names *)

Lemma HasSuffix_app a suf : HasSuffix (a +:+ suf) suf = true.
Proof.
  unfold HasSuffix. apply bool_decide_eq_true_2. induction a as [|c a IH].
  - change ("" +:+ suf) with suf. exists "". destruct suf; [done|]. cbn [CutSuffix]. by rewrite decide_True.
  - rewrite append_cons. cbn [CutSuffix]. case_decide; [by eexists|]. destruct IH as [x ->]. by eexists.
Qed.

Lemma reserved_prefix name p : p ∈ reservedBucketPrefixes -> HasPrefix name p = true -> ValidBucketName name = false.
Proof.
  intros Hin Hp. unfold ValidBucketName. enough (existsb (HasPrefix name) reservedBucketPrefixes = true) as ->
    by (simpl; by rewrite andb_false_r). apply existsb_exists. exists p. split; [by apply list_elem_of_In|done].
Qed.

Lemma reserved_suffix name p : p ∈ reservedBucketSuffixes -> HasSuffix name p = true -> ValidBucketName name = false.
Proof.
  intros Hin Hp. unfold ValidBucketName. enough (existsb (HasSuffix name) reservedBucketSuffixes = true) as ->
    by (simpl; by rewrite andb_false_r). apply existsb_exists. exists p. split; [by apply list_elem_of_In|done].
Qed.

Lemma trim_right_keep f a c b : f c = false -> trim_right f (a +:+ String c b) = a +:+ String c (trim_right f b).
Proof.
  intros Hc. induction a as [|x a IH].
  - change ("" +:+ String c b) with (String c b). simpl. destruct (trim_right f b) eqn:E; [by rewrite Hc|done].
  - rewrite append_cons. simpl. rewrite IH. by destruct a.
Qed.

Lemma substring_app n a b : (String.length a <= n)%nat ->
  String.substring 0 n (a +:+ b) = a +:+ String.substring 0 (n - String.length a) b.
Proof.
  revert n. induction a as [|c a IH]; intros n Hn; [by rewrite Nat.sub_0_r|]. rewrite append_cons.
  destruct n as [|n]; [simpl in Hn; lia|]. simpl. rewrite IH by (simpl in Hn; lia). done.
Qed.

Lemma length_lower s : String.length (ToLower s) = String.length s.
Proof. unfold ToLower. induction s; simpl; auto. Qed.

(** What precedes the hash of a generated name survives the cut to 63 bytes. *)
Lemma BackendName_prefix hex4 tenant bucket attempt :
  (forall s, isLowerHex (hex4 s) = true /\ String.length (hex4 s) = 4%nat) -> validTenant tenant = true ->
  HasPrefix (BackendName hex4 tenant bucket attempt) (tenant +:+ "-") = true.
Proof.
  intros Hhex Ht. unfold BackendName. set (input := tenant +:+ _). destruct (Hhex input) as [Hh Hl].
  assert (String.length tenant <= 32)%nat as Hlen.
  { destruct tenant as [|c r]; [simpl; lia|]. unfold validTenant in Ht. rewrite !andb_true_iff in Ht.
    destruct Ht as [[[H _] _] _]. by apply Nat.leb_le in H. }
  apply validTenant_bytes in Ht as (c & r & -> & _ & Ht).
  rewrite (lower_id (String c r)) by (eapply all_bytes_impl; [exact dash_not_upper|done]).
  destruct (hex4 input) as [|x h]; [done|]. rewrite append_assoc, (append_cons x).
  assert (is_lower_hex x = true) as Hx by (by apply andb_true_iff in Hh as [? _]).
  destruct (63 <? _)%nat; apply HasPrefix_app; [|eexists; reflexivity].
  rewrite substring_app by (rewrite length_append; simpl in *; lia).
  destruct (63 - _)%nat as [|n] eqn:En; [rewrite length_append in En; simpl in *; lia|]. simpl String.substring.
  rewrite trim_right_keep; [eexists; reflexivity|].
  rewrite !bool_decide_false; [done|intros ->; discriminate Hx|intros ->; discriminate Hx].
Qed.

(** ** Properties *)

(** An upload id decodes to the cluster id and the backend id it was made of, whatever bytes the
    backend id holds, with or without a bucket tag, which splits off again. *)
Theorem upload_id_roundtrip (clusterID tag backendID : string)
    (Hc : isLowerHex clusterID = true) (Hcl : String.length clusterID = idLen)
    (Ht : isLowerHex tag = true) (Htl : String.length tag = idLen) (Hb : backendID <> "") :
  DecodeUploadID (encodeUploadID clusterID backendID) = Some (clusterID, backendID) /\
  DecodeUploadID (encodeUploadID (clusterID +:+ "." +:+ tag) backendID) = Some (clusterID +:+ "." +:+ tag, backendID) /\
  SplitUploadPrefix (clusterID +:+ "." +:+ tag) = (clusterID, tag) /\ SplitUploadPrefix clusterID = (clusterID, "").
Proof.
  unfold encodeUploadID, DecodeUploadID, SplitUploadPrefix. rewrite !(bool_decide_eq_false_2 _ Hb).
  assert (contains_byte "~"%char clusterID = false) as Hc1 by by apply hex_not.
  assert (contains_byte "."%char clusterID = false) as Hc2 by by apply hex_not.
  assert (contains_byte "~"%char tag = false) as Ht1 by by apply hex_not.
  change ("." +:+ tag) with (String "." tag). change ("~" +:+ backendID) with (String "~" backendID).
  split_and!.
  - rewrite Cut_app by done. simpl. by rewrite Hcl, Hc.
  - rewrite Cut_app by (rewrite contains_byte_app, Hc1; simpl; rewrite Ht1; done). simpl.
    rewrite length_append, Hcl. simpl. rewrite Htl. simpl.
    assert (String.substring idLen (S idLen) (clusterID +:+ String "." tag) = String "." tag) as ->.
    { pose proof (substring_suffix clusterID (String "." tag)) as E. simpl in E. rewrite Hcl, Htl in E. exact E. }
    simpl. assert (String.substring 0 idLen (clusterID +:+ String "." tag) = clusterID) as ->.
    { pose proof (substring_prefix clusterID (String "." tag)) as E. rewrite Hcl in E. exact E. }
    by rewrite Hc, Ht.
  - by rewrite Cut_app.
  - by rewrite (proj2 (Cut_none clusterID "."%char)).
Qed.

Lemma upload_id_roundtrip_witness :
  DecodeUploadID (encodeUploadID "0a1b2c" "id~x") = Some ("0a1b2c", "id~x") /\
  DecodeUploadID (encodeUploadID ("0a1b2c" +:+ "." +:+ "ffffff") "id~x") = Some ("0a1b2c" +:+ "." +:+ "ffffff", "id~x") /\
  SplitUploadPrefix ("0a1b2c" +:+ "." +:+ "ffffff") = ("0a1b2c", "ffffff") /\ SplitUploadPrefix "0a1b2c" = ("0a1b2c", "").
Proof. apply upload_id_roundtrip; try reflexivity. discriminate. Defined.

(** One case of the levels of a request. *)
Ltac solve_levels := split; [by intros|split; split; intros; try done; by apply unescape_nonempty].

(** Whatever the request, a path-style bucket never contains a slash, even one escaped in the path;
    a request is at service level exactly when it names no bucket, and at object level exactly when
    it has a key. *)
Theorem Parse_levels (r : Request) (d : Domains) :
  let i := Parse r d in
  (iStyle i = StylePath -> contains_byte "/"%char (iBucket i) = false) /\
  (iLevel i = LevelService <-> iBucket i = "") /\ (iLevel i = LevelObject <-> iKey i <> "").
Proof.
  assert (forall s, negb (bool_decide (s = "")) = true -> s <> "") as Hne
    by (intros s H; by apply negb_true_iff, bool_decide_eq_false in H).
  unfold Parse. destruct (negb (bool_decide (bucketFromHost d (qHost r) = ""))) eqn:Hb; simpl.
  - apply Hne in Hb. destruct (negb (bool_decide (TrimPrefix (qPath r) "/" = ""))) eqn:Hr; simpl; [apply Hne in Hr|]; solve_levels.
  - destruct (Cut (TrimPrefix (qPath r) "/") "/"%char) as [[b k]|] eqn:Hcut.
    + apply Cut_first in Hcut. destruct (bool_decide (b = "")) eqn:Eb; simpl; [solve_levels|]. apply bool_decide_eq_false in Eb.
      destruct (negb (bool_decide (k = ""))) eqn:Ek; simpl; [apply Hne in Ek|]; solve_levels.
    + apply Cut_none in Hcut. destruct (bool_decide (TrimPrefix (qPath r) "/" = "")) eqn:Eb; simpl; [solve_levels|]. apply bool_decide_eq_false in Eb.
      solve_levels.
Qed.

(** For a valid tenant and a valid bucket name a generated backend name of at most 63 bytes is a
    valid bucket name exactly when it starts with none of the reserved prefixes and ends with none
    of the reserved suffixes: nothing else can go wrong. *)
Theorem BackendName_valid (hex4 : string -> string) (tenant bucket : string) (attempt : nat)
    (Hhex : forall s, isLowerHex (hex4 s) = true /\ String.length (hex4 s) = 4%nat)
    (Ht : validTenant tenant = true) (Hb : ValidBucketName bucket = true)
    (Hlen : (String.length tenant + String.length bucket <= 57)%nat) :
  let name := BackendName hex4 tenant bucket attempt in
  ValidBucketName name = negb (existsb (HasPrefix name) reservedBucketPrefixes) && negb (existsb (HasSuffix name) reservedBucketSuffixes).
Proof.
  apply validTenant_bytes in Ht as (c & r & -> & Hc & Ht). apply ValidBucketName_bytes in Hb as (c' & r' & -> & Hc' & Hr' & Hl').
  unfold BackendName. set (input := String c r +:+ _). destruct (Hhex input) as [Hh Hhl].
  rewrite !lower_id; [|simpl; rewrite range_not_upper by done; by eapply bucket_bytes_lower|eapply all_bytes_impl; [exact dash_not_upper|done]].
  set (name := String c r +:+ "-" +:+ hex4 input +:+ "-" +:+ String c' r').
  assert (String.length name = String.length (String c r) + String.length (String c' r') + 6)%nat as Hln.
  { unfold name. rewrite !length_append, Hhl. simpl. lia. }
  rewrite (proj2 (Nat.ltb_ge _ _)) by lia. cbv zeta. unfold ValidBucketName.
  rewrite (proj2 (Nat.leb_le _ _)) by (simpl in *; lia). rewrite (proj2 (Nat.leb_le _ _)) by lia.
  assert (parse_ipv4 name = false) as ->.
  { apply parse_ipv4_dash. unfold name. rewrite contains_byte_app. simpl. by rewrite orb_true_r. }
  enough (match name with String a b => is_alnum a && bucket_bytes a b | EmptyString => false end = true) as -> by done.
  unfold name. rewrite append_cons, Hc. simpl in Ht. apply andb_true_iff in Ht as [_ Ht].
  assert (all_bytes dash_alnum (hex4 input) = true) as Hh'.
  { eapply all_bytes_impl; [|exact Hh]. intros a Ha. unfold dash_alnum, is_alnum, is_lower, is_digit, is_lower_hex in *.
    apply orb_true_iff in Ha as [->|Ha]; [by rewrite orb_true_r|]. unfold in_range in *.
    change (byteZ "a"%char) with 97%Z in *. change (byteZ "f"%char) with 102%Z in *. change (byteZ "z"%char) with 122%Z.
    apply andb_true_iff in Ha as [H1 H2]. rewrite H1. rewrite (proj2 (Z.leb_le _ _)) by lia. done. }
  rewrite bucket_bytes_app by done. change ("-" +:+ hex4 input +:+ "-" +:+ String c' r') with (String "-" (hex4 input +:+ "-" +:+ String c' r')).
  rewrite (append_assoc (hex4 input)). change (String "-" ((hex4 input +:+ "-") +:+ String c' r')) with (String "-" (hex4 input +:+ "-") +:+ String c' r').
  rewrite bucket_bytes_app; [|simpl; by rewrite all_bytes_app, Hh'|done]. simpl. by rewrite Hc'.
Qed.

Lemma BackendName_valid_witness :
  ValidBucketName (BackendName (fun _ => "1a2b") "default" "photos" 0) = true.
Proof.
  refine (eq_trans (BackendName_valid (fun _ => "1a2b") "default" "photos" 0 _ _ _ _) _); [done|reflexivity|reflexivity|vm_compute; lia|reflexivity].
Defined.

(** The reserved names make the generator's promise fail: for the valid tenant names sthree and
    amzn-s3-demo every generated name is refused, and so is that of the valid bucket name s3alias
    under any tenant, whatever the hash and however often it is retried. *)
Theorem BackendName_reserved (hex4 : string -> string) (tenant bucket : string) (attempt : nat)
    (Hhex : forall s, isLowerHex (hex4 s) = true /\ String.length (hex4 s) = 4%nat) (Ht : validTenant tenant = true) :
  ValidBucketName (BackendName hex4 "sthree" bucket attempt) = false /\
  ValidBucketName (BackendName hex4 "amzn-s3-demo" bucket attempt) = false /\
  ValidBucketName (BackendName hex4 tenant "s3alias" attempt) = false /\
  validTenant "sthree" = true /\ validTenant "amzn-s3-demo" = true /\ ValidBucketName "s3alias" = true.
Proof.
  split_and!; try reflexivity.
  - apply reserved_prefix with "sthree-"; [set_solver|]. by apply BackendName_prefix.
  - apply reserved_prefix with "amzn-s3-demo-"; [set_solver|]. by apply BackendName_prefix.
  - apply reserved_suffix with "-s3alias"; [set_solver|]. unfold BackendName. set (input := tenant +:+ _).
    rewrite (proj2 (Nat.ltb_ge _ _)).
    + change ("-" +:+ ToLower "s3alias") with "-s3alias". rewrite !append_assoc. apply HasSuffix_app.
    + rewrite !length_append, length_lower, (proj2 (Hhex input)). simpl.
      destruct tenant as [|c r]; [done|]. unfold validTenant in Ht. rewrite !andb_true_iff in Ht.
      destruct Ht as [[[Hl _] _] _]. apply Nat.leb_le in Hl. lia.
Qed.

Lemma BackendName_reserved_witness :
  ValidBucketName (BackendName (fun _ => "1a2b") "sthree" "photos" 3) = false.
Proof. apply (BackendName_reserved (fun _ => "1a2b") "default" "photos" 3); done. Defined.
