(* ===== verification/Route.v ===== *)
(** * Routing (internal/migrate/route.go)

    Which backend a request goes to: the class of its operation, the ramp that decides which keys'
    writes have moved, the hold that refuses the writes of the keys a step is about to move, and the
    narrowing of a spread placement to the leg or the move one key belongs to. *)

From S2P Require Import Prelude Float64 KeyHash HashRange Config Placement S3Op.

(** ** Classes *)

Inductive OpClass : Type :=
| ClassRead | ClassWrite | ClassDelete | ClassList | ClassBucket | ClassUpload | ClassService.

#[export] Instance OpClass_eq_dec : EqDecision OpClass.
Proof. solve_decision. Defined.

Definition Class_ (op : Op) : OpClass :=
  match op with
  | OpUploadPart | OpUploadPartCopy | OpCompleteMultipartUpload | OpAbortMultipartUpload | OpListParts => ClassUpload
  | OpGetObject | OpHeadObject | OpGetObjectAcl | OpGetObjectAttributes
  | OpGetObjectTagging | OpGetObjectLegalHold | OpGetObjectRetention
  | OpGetObjectTorrent | OpSelectObjectContent => ClassRead
  | OpPutObject | OpCopyObject | OpPostObject | OpCreateMultipartUpload
  | OpPutObjectAcl | OpPutObjectTagging | OpPutObjectLegalHold | OpPutObjectRetention
  | OpRestoreObject => ClassWrite
  | OpDeleteObject | OpDeleteObjects | OpDeleteObjectTagging => ClassDelete
  | OpListObjects | OpListObjectsV2 | OpListObjectVersions | OpListMultipartUploads => ClassList
  | OpListBuckets => ClassService
  | _ => ClassBucket
  end.

Definition Mutates (op : Op) (method : string) : bool :=
  match Class_ op with
  | ClassWrite | ClassDelete => true
  | ClassRead | ClassList | ClassService => false
  | _ => negb (bool_decide (method = "GET")) && negb (bool_decide (method = "HEAD")) && negb (bool_decide (method = "OPTIONS"))
  end.

(** ** Routes *)

Inductive Side : Type := Primary | Source.

Record Route : Type := mkRoute {
  rtCluster : Side;
  rtFallback : bool;
  rtBoth : bool;
  rtMerge : bool;
  rtHeld : bool;
}.

Definition to_side (s : Side) : Route := mkRoute s false false false false.

(** ErrUnknownRampHash; [ENoOwner] is the error for a table that does not cover a hash, and
    [EUndefined] a float conversion the language leaves to the implementation (a NaN ratio). *)
Inductive routeErr : Type :=
| ErrUnknownRampHash (name : string)
| ENoOwner (h : Z)
| EUndefined.

#[export] Instance Side_eq_dec : EqDecision Side.
Proof. solve_decision. Defined.
#[export] Instance Route_eq_dec : EqDecision Route.
Proof. solve_decision. Defined.
#[export] Instance routeErr_eq_dec : EqDecision routeErr.
Proof. solve_decision. Defined.

(** ** The ramp *)

Definition hasAnyPrefix (key : string) (prefixes : list string) : bool := existsb (HasPrefix key) prefixes.

Definition inRangeOf (r : Ramp) (rg : HashRange) (key : string) : result routeErr bool :=
  if negb (bool_decide (rHash r = RampHash)) then Err (ErrUnknownRampHash (rHash r))
  else
    let h := rampHash key in
    if (h <? rFrom rg)%Z || (rTo rg <? h)%Z then Ok false
    else if hasAnyPrefix key (rPrefixes r) then Ok true
    else if f64_leb (rRatio r) f0 then Ok false
    else if f64_leb f1 (rRatio r) then Ok true
    else Ok (f64_ltb (f64_of_Z (u64 (h - rFrom rg)))
                     (f64_mul (rRatio r) (f64_add (f64_of_Z (u64 (rTo rg - rFrom rg))) f1))).

Definition InRange (r : option Ramp) (key : string) : result routeErr bool :=
  match r with
  | None => Ok false
  | Some r =>
      match rRange r with
      | Some rg => inRangeOf r rg key
      | None =>
          if hasAnyPrefix key (rPrefixes r) then Ok true
          else if f64_leb (rRatio r) f0 then Ok false
          else if f64_leb f1 (rRatio r) then Ok true
          else if negb (bool_decide (rHash r = RampHash)) then Err (ErrUnknownRampHash (rHash r))
          else match f64_to_u64 (f64_mul (rRatio r) (f64_of_Z MaxUint64)) with
               | Some bound => Ok (rampHash key <? bound)%Z
               | None => Err EUndefined
               end
      end
  end.

Definition InRangeHash (rg : HashRange) (key : string) : bool := in_hrange rg (rampHash key).

(** The ramp a hold would be. *)
Definition holdRamp (r : Ramp) (h : RampHold) : Ramp := mkRamp (rHash r) (hRatio h) (hPrefixes h) (rRange r) None.

Definition InHold (r : option Ramp) (key : string) : result routeErr bool :=
  match r with
  | Some r => match rHold r with
              | Some h => InRange (Some (holdRamp r h)) key
              | None => Ok false
              end
  | None => Ok false
  end.

(** ** The routing table *)

Definition Decide (p : Placement) (class : OpClass) (key : string) : result routeErr Route :=
  if bool_decide (pSource p = "") || bool_decide (pState p = StateActive) then Ok (to_side Primary)
  else if bool_decide (pState p = StateCutover) then
    Ok (mkRoute Primary false (bool_decide (class = ClassDelete)) false false)
  else
    let moved := Ok (mkRoute Primary (bool_decide (class = ClassRead)) false false false) in
    match class with
    | ClassWrite | ClassRead =>
        if bool_decide (pState p = StateRamping) then
          i ← InRange (pRamp p) key;
          if (i : bool) then moved
          else
            held ← InHold (pRamp p) key;
            if (held : bool) then
              if bool_decide (class = ClassWrite) then Ok (mkRoute Primary false false false true)
              else Ok (mkRoute Primary true false false false)
            else Ok (to_side Source)
        else moved
    | ClassDelete => Ok (mkRoute Primary false true false false)
    | ClassList => Ok (mkRoute Primary false false true false)
    | _ => Ok (to_side Primary)
    end.

(** ** Spread placements *)

Definition OwnerOf (p : Placement) (key : string) : result routeErr string :=
  if negb (bool_decide (pKeyHash p = RampHash)) then Err (ErrUnknownRampHash (pKeyHash p))
  else
    let h := rampHash key in
    let leg := OwnerIn (snd (Scope p key)) h in
    if bool_decide (leg = "") then Err (ENoOwner h) else Ok leg.

Definition InMove (p : Placement) (key : string) : bool :=
  match pMove p with
  | None => false
  | Some m => InRangeHash (mvRange m) key && bool_decide (fst (Scope p key) = mvScope m)
  end.

Definition onLeg (p : Placement) (id : string) : Placement :=
  let l := mget zeroLeg id (pLegs p) in
  zeroPlacement |> set_State StateActive |> set_Primary (legCluster l)
    |> set_Names (Some {[legCluster l := legBucket l]})
    |> set_Created (pCreated p) |> set_ReadOnly (pReadOnly p) |> set_RejectWrites (pRejectWrites p)
    |> set_Barrier (pBarrier p).

(** FirstLeg indexes the owners table: [None] is the panic on an empty one. *)
Definition FirstLeg (p : Placement) : option Placement :=
  match sl (pOwners p) with o :: _ => Some (onLeg p (oLeg o)) | [] => None end.

Definition Narrow (p : Placement) (key : string) : result routeErr Placement :=
  match pMove p with
  | Some m =>
      if negb (bool_decide (pKeyHash p = RampHash)) then Err (ErrUnknownRampHash (pKeyHash p))
      else if InMove p key then Ok (MoveView p m)
      else id ← OwnerOf p key; Ok (onLeg p id)
  | None => id ← OwnerOf p key; Ok (onLeg p id)
  end.

(** ** Ramps grow

    A ratio is a float of the code ([is_f64]) within [0, 1]; validation refuses any other. *)

Definition ratio_ok (x : f64) : Prop := is_f64 x /\ nonneg x /\ f64_leb x f1 = true.

Lemma f64_add_width_nonneg w : is_u64 w -> nonneg (f64_add (f64_of_Z w) f1).
Proof.
  intros Hw. unfold is_u64 in Hw. rewrite f1_unit. pose proof f_unit_pos as Hu.
  assert (exists n, f64_of_Z w = Fin n /\ (0 <= n <= two64 * f_unit)%Z) as (n & -> & Hn).
  { unfold f64_of_Z. rewrite rnd_signed_nonneg by nia.
    assert (0 <= rnd (w * f_unit) 0)%Z by (apply rnd_nonneg; [nia|done]).
    assert (rnd (w * f_unit) 0 <= rnd (MaxUint64 * f_unit) 0)%Z as Hle
      by (apply rnd_mono; [done|]; unfold MaxUint64, two64 in *; nia).
    assert (rnd (MaxUint64 * f_unit) 0 = two64 * f_unit)%Z as E by (vm_compute; reflexivity).
    rewrite E in Hle. destruct (pack_le_Fin (rnd (w * f_unit) 0) (two64 * f_unit)) as [-> ?]; [assumption| |eexists; split; [reflexivity|split; assumption]].
    assert (pack (two64 * f_unit) = Fin (two64 * f_unit)) as <- by (vm_compute; reflexivity).
    apply pack_mono. split; assumption. }
  simpl. rewrite rnd_signed_nonneg by lia.
  assert (0 <= rnd (n + f_unit) 0)%Z by (apply rnd_nonneg; [lia|done]).
  assert (rnd (n + f_unit) 0 <= rnd (two64 * f_unit + f_unit) 0)%Z as Hle by (apply rnd_mono; lia).
  destruct (pack_le_Fin (rnd (n + f_unit) 0) (two64 * f_unit)) as [-> ?]; [assumption| |simpl; assumption].
  assert (pack (rnd (two64 * f_unit + f_unit) 0) = Fin (two64 * f_unit)) as <- by (vm_compute; reflexivity).
  apply pack_mono. split; assumption.
Qed.

Lemma f64_max_nonneg : nonneg (f64_of_Z MaxUint64).
Proof. rewrite f64_max_uint64. simpl. pose proof f_unit_pos. unfold two64. lia. Qed.

(** A ratio below one converts to a 64-bit bound. *)
Lemma ratio_bound x :
  ratio_ok x -> f64_leb f1 x = false -> exists b, f64_to_u64 (f64_mul x (f64_of_Z MaxUint64)) = Some b.
Proof.
  intros (Hf & Hn & _) Hlt. pose proof f_unit_pos as Hu. destruct x as [| |m]; [destruct Hn|destruct Hn|].
  rewrite f1_unit in Hlt. simpl in Hn, Hlt.
  pose proof (is_f64_below_one m Hn Hf ltac:(lia)) as Hb.
  assert (nonneg (Fin below_one)) as Hbn by (simpl; lia).
  assert (f64_leb (Fin m) (Fin below_one) = true) as Hle by (simpl; lia).
  pose proof (f64_mul_mono (Fin m) _ _ Hn Hbn f64_max_nonneg Hle) as Hm.
  assert (f64_mul (Fin below_one) (f64_of_Z MaxUint64) = Fin ((two64 - 2048) * f_unit)) as E by (vm_compute; reflexivity).
  rewrite E in Hm. rewrite f64_max_uint64 in *. simpl in Hm |- *.
  rewrite rnd_signed_nonneg in * by (unfold two64; nia).
  assert (0 <= rnd (m * (two64 * f_unit)) unit_exp)%Z as H0 by (apply rnd_nonneg; [unfold two64; nia|done]).
  destruct (pack_le_Fin _ _ H0 Hm) as [-> Hmax]. unfold f64_to_u64.
  set (n := rnd (m * (two64 * f_unit)) unit_exp) in *.
  assert (0 <= Z.quot n f_unit < two64)%Z as Hq.
  { split; [apply Z.quot_pos; lia|]. apply Z.quot_lt_upper_bound; unfold two64 in *; lia. }
  rewrite (proj2 (Z.leb_le _ _) (proj1 Hq)), (proj2 (Z.ltb_lt _ _) (proj2 Hq)). by eexists.
Qed.

(** [ramp_le r1 r2]: the second ramp splits the same keys by the same hash and moves at least as many. *)
Definition ramp_le (r1 r2 : Ramp) : Prop :=
  rHash r1 = rHash r2 /\ rRange r1 = rRange r2 /\
  f64_leb (rRatio r1) (rRatio r2) = true /\ rPrefixes r1 ⊆ rPrefixes r2.

Definition ramp_ok (r : Ramp) : Prop :=
  rHash r = RampHash /\ ratio_ok (rRatio r) /\
  match rRange r with Some rg => is_u64 (rFrom rg) /\ is_u64 (rTo rg) | None => True end.

Lemma hasAnyPrefix_mono key l1 l2 : l1 ⊆ l2 -> hasAnyPrefix key l1 = true -> hasAnyPrefix key l2 = true.
Proof.
  unfold hasAnyPrefix. rewrite !existsb_exists. intros Hsub (x & Hin & Hx). exists x. split; [|done].
  apply list_elem_of_In, Hsub, list_elem_of_In, Hin.
Qed.

(** A real ramp answers for every key. *)
Lemma InRange_total r key : ramp_ok r -> exists b, InRange (Some r) key = Ok b.
Proof.
  intros (Hh & Hr & _). unfold InRange, inRangeOf. rewrite Hh. rewrite bool_decide_true by done. simpl.
  destruct (rRange r); repeat case_match; eauto.
  destruct (ratio_bound (rRatio r)) as [b Hb]; [done..|]. congruence.
Qed.

Lemma ratio_le_0 x y : f64_leb x y = true -> f64_leb y f0 = true -> f64_leb x f0 = true.
Proof. apply f64_leb_trans. Qed.

Lemma ratio_ge_1 x y : f64_leb x y = true -> f64_leb f1 x = true -> f64_leb f1 y = true.
Proof. intros. by eapply f64_leb_trans. Qed.

(** A key an earlier ramp moved stays moved under a later one. *)
Lemma InRange_mono r1 r2 key :
  ramp_ok r1 -> ramp_ok r2 -> ramp_le r1 r2 -> InRange (Some r1) key = Ok true -> InRange (Some r2) key = Ok true.
Proof.
  intros Hok1 Hok2 (Hh & Hrg & Hle & Hpre) H1.
  pose proof Hok1 as (Hh1 & Hr1 & Hu1). pose proof Hok2 as (Hh2 & Hr2 & Hu2).
  assert (hasAnyPrefix key (rPrefixes r1) = true -> hasAnyPrefix key (rPrefixes r2) = true) as Hany
    by by apply hasAnyPrefix_mono.
  unfold InRange, inRangeOf in *. rewrite <- Hrg in *. rewrite Hh1 in H1. rewrite Hh2.
  rewrite !bool_decide_true in * by done. simpl in *.
  destruct (rRange r1) as [rg|].
  - destruct ((rampHash key <? rFrom rg)%Z || (rTo rg <? rampHash key)%Z); [discriminate H1|].
    destruct (hasAnyPrefix key (rPrefixes r1)); [rewrite (Hany eq_refl); reflexivity|].
    destruct (hasAnyPrefix key (rPrefixes r2)); [reflexivity|].
    destruct (f64_leb (rRatio r1) f0) eqn:E1; [discriminate H1|].
    destruct (f64_leb (rRatio r2) f0) eqn:E2; [rewrite (ratio_le_0 _ _ Hle E2) in E1; discriminate E1|].
    destruct (f64_leb f1 (rRatio r1)) eqn:E3; [rewrite (ratio_ge_1 _ _ Hle E3); reflexivity|].
    destruct (f64_leb f1 (rRatio r2)) eqn:E4; [reflexivity|].
    f_equal. eapply f64_ltb_leb_trans; [injection H1 as H1; exact H1|].
    apply f64_mul_mono; [apply Hr1|apply Hr2| |assumption].
    apply f64_add_width_nonneg, u64_range.
  - destruct (hasAnyPrefix key (rPrefixes r1)); [rewrite (Hany eq_refl); reflexivity|].
    destruct (hasAnyPrefix key (rPrefixes r2)); [reflexivity|].
    destruct (f64_leb (rRatio r1) f0) eqn:E1; [discriminate H1|].
    destruct (f64_leb (rRatio r2) f0) eqn:E2; [rewrite (ratio_le_0 _ _ Hle E2) in E1; discriminate E1|].
    destruct (f64_leb f1 (rRatio r1)) eqn:E3; [rewrite (ratio_ge_1 _ _ Hle E3); reflexivity|].
    destruct (f64_leb f1 (rRatio r2)) eqn:E4; [reflexivity|].
    destruct (ratio_bound _ Hr1 E3) as [b1 Hb1], (ratio_bound _ Hr2 E4) as [b2 Hb2].
    rewrite Hb1 in H1. rewrite Hb2.
    assert (b1 <= b2)%Z.
    { eapply f64_to_u64_mono; [|exact Hb1|exact Hb2].
      apply f64_mul_mono; [apply Hr1|apply Hr2|apply f64_max_nonneg|assumption]. }
    injection H1 as H1. f_equal. lia.
Qed.

(** At a ratio of one every key of the range has moved. *)
Lemma InRange_whole r key :
  rHash r = RampHash -> f64_leb f1 (rRatio r) = true -> f64_leb (rRatio r) f0 = false ->
  (forall rg, rRange r = Some rg -> InRangeHash rg key = true) ->
  InRange (Some r) key = Ok true.
Proof.
  intros Hh H1 H0 Hrg. unfold InRange, inRangeOf. rewrite Hh, H1, H0. rewrite bool_decide_true by done. simpl.
  destruct (rRange r) as [rg|]; [|by destruct (hasAnyPrefix key (rPrefixes r))].
  specialize (Hrg rg eq_refl). apply in_hrange_true in Hrg.
  rewrite (proj2 (Z.ltb_ge _ _) (proj1 Hrg)), (proj2 (Z.ltb_ge _ _) (proj2 Hrg)). simpl.
  by destruct (hasAnyPrefix key (rPrefixes r)).
Qed.

#[global] Opaque f1 f64_of_Z f64_mul f64_add f64_to_u64.
#[global] Arguments InRange : simpl never.
#[global] Arguments InHold : simpl never.
