(* ===== verification/Backend.v ===== *)
(** * Where a key's requests go (internal/proxy/resign.go with internal/migrate/route.go)

    The proxy narrows a spread placement to the one or two backends a key concerns, asks the routing
    table for a side, and sends the request to the backend bucket of that side.  This file composes
    the three as the request path does; the fence, the scopes and the moves are stated in its terms. *)

From S2P Require Import Prelude Float64 KeyHash HashRange Config Placement S3Op Route.

(** ** Where a key's requests go *)

(** A backend bucket: the cluster and the bucket's name there. *)
Definition backend : Type := string * string.

Definition role_backend (p : Placement) (role : string) : backend :=
  (ClusterOf p role, mget "" role (pNames p)).

Definition side_backend (p : Placement) (s : Side) : backend :=
  role_backend p (match s with Primary => pPrimary p | Source => pSource p end).

(** The backend a write of [key] goes to; [None] when it is refused for a held step. *)
Definition write_to (p : Placement) (key : string) : result routeErr (option backend) :=
  r ← Decide p ClassWrite key;
  Ok (if rtHeld r then None else Some (side_backend p (rtCluster r))).

(** The backends a read of [key] consults, in order. *)
Definition reads_of (p : Placement) (key : string) : result routeErr (list backend) :=
  r ← Decide p ClassRead key;
  Ok (side_backend p (rtCluster r) ::
      if rtFallback r then [side_backend p Source] else []).

(** The placement an object request is routed by: a spread one is narrowed to the key's. *)
Definition key_view (p : Placement) (key : string) : result routeErr Placement :=
  if Spread p then Narrow p key else Ok p.

(** Everything the object requests of one key do: the backend of its writes and those of its reads. *)
Definition routed (p : Placement) (key : string) : result routeErr (option backend * list backend) :=
  v ← key_view p key; w ← write_to v key; r ← reads_of v key; Ok (w, r).

Definition leg_backend (p : Placement) (id : string) : backend :=
  (legCluster (mget zeroLeg id (pLegs p)), legBucket (mget zeroLeg id (pLegs p))).

(** The leg that owns a key, by its scope's table. *)
Definition owner_leg (p : Placement) (key : string) : string := OwnerIn (snd (Scope p key)) (rampHash key).

(** ** Lemmas *)

(** A placement at rest sends every request of a key to one backend. *)
Lemma active_view v key : pState v = StateActive ->
  write_to v key = Ok (Some (side_backend v Primary)) /\ reads_of v key = Ok [side_backend v Primary].
Proof. intros Hs. unfold write_to, reads_of, Decide. rewrite Hs, orb_true_r. done. Qed.

Lemma onLeg_backend p id : side_backend (onLeg p id) Primary = leg_backend p id.
Proof.
  unfold side_backend, role_backend, onLeg, leg_backend, ClusterOf, mget, mlookup. simpl.
  by rewrite lookup_singleton_eq.
Qed.

Lemma onLeg_view p id key :
  write_to (onLeg p id) key = Ok (Some (leg_backend p id)) /\ reads_of (onLeg p id) key = Ok [leg_backend p id].
Proof. rewrite <- onLeg_backend. by apply active_view. Qed.

(** The tables a key may be looked up in split the hashes, and name legs that exist. *)
Definition table_ok (p : Placement) (owners : list Owner) : Prop :=
  partition owners /\ Forall (fun o => hasLeg (pLegs p) (oLeg o) = true) owners.

Lemma owner_leg_in p owners h : table_ok p owners -> is_u64 h ->
  exists o, o ∈ owners /\ in_owner o h = true /\ oLeg o = OwnerIn owners h /\ hasLeg (pLegs p) (OwnerIn owners h) = true.
Proof.
  intros [Hpart Hlegs] Hh. pose proof (OwnerIn_owner_at owners h Hpart Hh) as E.
  destruct (owner_at_Some _ _ _ E) as (o & Hin & Ho & Hl). exists o. split_and!; [done..|].
  rewrite <- Hl. by apply (proj1 (list.Forall_forall _ _) Hlegs).
Qed.

Lemma OwnerOf_leg p key : pKeyHash p = RampHash -> owner_leg p key <> "" -> OwnerOf p key = Ok (owner_leg p key).
Proof.
  intros Hh Hne. unfold OwnerOf. rewrite Hh. rewrite bool_decide_true by done. cbn [negb].
  fold (owner_leg p key). by rewrite bool_decide_false.
Qed.

(** A key no move concerns goes to its owner. *)
Lemma view_unmoved p key :
  Spread p = true -> pKeyHash p = RampHash -> owner_leg p key <> "" -> InMove p key = false ->
  key_view p key = Ok (onLeg p (owner_leg p key)).
Proof.
  intros Hs Hh Hne Hm. unfold key_view, Narrow. rewrite Hs, (OwnerOf_leg p key Hh Hne), Hm, Hh.
  rewrite bool_decide_true by done. simpl. by destruct (pMove p).
Qed.

Lemma view_moving p m key :
  pMove p = Some m -> pKeyHash p = RampHash -> InMove p key = true -> key_view p key = Ok (MoveView p m).
Proof.
  intros Hp Hh Hm. unfold key_view, Narrow, Spread. rewrite Hp, Hm, Hh.
  rewrite orb_true_r. reflexivity.
Qed.

Lemma MoveView_primary p m : side_backend (MoveView p m) Primary = leg_backend p (mvTo m).
Proof.
  unfold side_backend, role_backend, leg_backend, ClusterOf, MoveView, mget, mlookup. simpl.
  by rewrite !lookup_insert_eq.
Qed.

Lemma MoveView_source p m : side_backend (MoveView p m) Source = leg_backend p (mvFrom m).
Proof.
  unfold side_backend, role_backend, leg_backend, ClusterOf, MoveView, mget, mlookup. simpl.
  destruct (decide (mvTo m = mvFrom m)) as [E|Hne]; [rewrite E, !lookup_insert_eq; done|].
  by rewrite !lookup_insert_ne, !lookup_singleton_eq by done.
Qed.

(** Whatever the routing table answers, a request reaches one of the placement's two sides. *)
Lemma write_to_sides v key b : write_to v key = Ok (Some b) -> exists s, b = side_backend v s.
Proof.
  unfold write_to. destruct (Decide v ClassWrite key) as [r|]; simpl; [|done]. destruct (rtHeld r); intros [= <-]. by eexists.
Qed.

Lemma reads_of_sides v key l b : reads_of v key = Ok l -> b ∈ l -> exists s, b = side_backend v s.
Proof.
  unfold reads_of. destruct (Decide v ClassRead key) as [r|]; simpl; [|done]. intros [= <-] Hb.
  apply elem_of_cons in Hb as [->|Hb]; [by exists (rtCluster r)|].
  destruct (rtFallback r); [|by apply elem_of_nil in Hb]. apply list_elem_of_singleton in Hb as ->. by exists Source.
Qed.

Lemma routed_Ok p v key w r : key_view p key = Ok v -> routed p key = Ok (w, r) ->
  write_to v key = Ok w /\ reads_of v key = Ok r.
Proof.
  intros Hv Hr. unfold routed in Hr. apply bind_Ok in Hr as (v' & Hv' & Hr). rewrite Hv in Hv'. injection Hv' as <-.
  apply bind_Ok in Hr as (w' & Hw & Hr). apply bind_Ok in Hr as (r' & Hrd & [= <- <-]). by split.
Qed.
