(* ===== verification/Scopes.v ===== *)
(** * Scopes of a spread placement (internal/directory/scopes.go, ADR-0020)

    A prefix rule gives the keys under it a table of their own; a key belongs to the longest rule it
    starts with.  This file characterises that choice, models the two operations that change the
    rules, and shows that neither changes the owner of any key and that a listing reads every leg
    that can hold a key under its prefix. *)

From S2P Require Import Prelude Float64 KeyHash HashRange Config Placement S3Op Route Backend.

(** ** Changing the rules *)

Inductive scopeErr : Type :=
| SNotAtRest | SPrefixEmpty | SPrefixLong | STooManyRules | SRuleExists | STargetSet | SNoRule | SOwnedDifferently.

#[export] Instance scopeErr_eq_dec : EqDecision scopeErr.
Proof. solve_decision. Defined.

Definition rule_for (prefix : string) (r : PrefixRule) : bool := bool_decide (prPrefix r = prefix).

(** The order of rules: bytewise by prefix. *)
Definition rule_le (a b : PrefixRule) : Prop := String.le (prPrefix a) (prPrefix b).
#[export] Instance rule_le_dec : RelDecision rule_le.
Proof. intros a b. unfold rule_le. apply _. Defined.

(** [File.Carve], on the placement it finds. *)
Definition carve (p : Placement) (prefix : string) : result scopeErr Placement :=
  if negb (bool_decide (pState p = StateActive)) || bool_decide (is_Some (pMove p)) then Err SNotAtRest
  else if bool_decide (prefix = "") then Err SPrefixEmpty
  else if (MaxPrefixLen <? String.length prefix)%nat then Err SPrefixLong
  else if (MaxPrefixRules <=? length (sl (pPrefixes p)))%nat then Err STooManyRules
  else if existsb (rule_for prefix) (sl (pPrefixes p)) then Err SRuleExists
  else if negb (Spread p) && (negb (bool_decide (pTarget p = "")) || negb (bool_decide (pCold p = "")) ||
                              negb (bool_decide (pTier p = "")) || negb (bool_decide (pLifecycle p = "")))
       then Err STargetSet
  else
    let np := clone p in
    let np := if Spread np then np
              else np |> set_Legs (Some {[pPrimary p := mkLeg (pPrimary p) (mget "" (pPrimary p) (pNames p))]})
                      |> set_Owners (Some [mkOwner (rFrom FullRange) (rTo FullRange) (pPrimary p)])
                      |> set_Primary "" |> set_Names None in
    let np := np |> set_KeyHash RampHash in
    Ok (np |> set_Prefixes (Some (merge_sort rule_le (sl (pPrefixes np) ++ [mkRule prefix (parentTable np prefix)])))).

(** Removes the first element that satisfies f: [slices.Delete] at [slices.IndexFunc]. *)
Fixpoint delete_first {A} (f : A -> bool) (l : list A) : list A :=
  match l with
  | [] => []
  | x :: l => if f x then l else x :: delete_first f l
  end.

(** [File.Merge], on the placement it finds. *)
Definition merge (p : Placement) (prefix : string) : result scopeErr Placement :=
  match List.find (rule_for prefix) (sl (pPrefixes p)) with
  | None => Err SNoRule
  | Some r =>
      if negb (bool_decide (pState p = StateActive)) || bool_decide (is_Some (pMove p)) then Err SNotAtRest
      else if negb (bool_decide (prOwners r = parentTable p prefix)) then Err SOwnedDifferently
      else
        let np := clone p in
        let np := np |> set_Prefixes (delete_first (rule_for prefix) <$> pPrefixes np) in
        let np := if (length (sl (pPrefixes np)) =? 0)%nat then np |> set_Prefixes None else np in
        Ok (settle np)
  end.

(** ** The longest rule *)

Definition best_rule (ok : PrefixRule -> bool) (rules : list PrefixRule) : option PrefixRule :=
  foldl (longer ok) None rules.

Definition is_best (ok : PrefixRule -> bool) (rules : list PrefixRule) (best : option PrefixRule) : Prop :=
  match best with
  | None => forall r, r ∈ rules -> ok r = false
  | Some b => b ∈ rules /\ ok b = true /\
              forall r, r ∈ rules -> ok r = true -> (String.length (prPrefix r) <= String.length (prPrefix b))%nat
  end.

Lemma longer_is_best ok rules best r :
  is_best ok rules best -> is_best ok (rules ++ [r]) (longer ok best r).
Proof.
  intros Hb. unfold longer. destruct best as [b|]; simpl in *.
  - destruct Hb as (Hin & Hok & Hmax). destruct (_ <? _)%nat eqn:E; simpl; [destruct (ok r) eqn:Er; simpl|].
    + split_and!; [set_solver|done|]. apply Nat.ltb_lt in E. intros r'. rewrite elem_of_app, list_elem_of_singleton.
      intros [Hr'| ->] Hok'; [|done]. specialize (Hmax r' Hr' Hok'). lia.
    + split_and!; [set_solver|done|]. intros r'. rewrite elem_of_app, list_elem_of_singleton.
      intros [Hr'| ->] Hok'; [by apply Hmax|congruence].
    + split_and!; [set_solver|done|]. apply Nat.ltb_ge in E. intros r'. rewrite elem_of_app, list_elem_of_singleton.
      intros [Hr'| ->] Hok'; [by apply Hmax|lia].
  - destruct (ok r) eqn:Er; simpl.
    + split_and!; [set_solver|done|]. intros r'. rewrite elem_of_app, list_elem_of_singleton.
      intros [Hr'| ->] Hok'; [rewrite Hb in Hok'; done|done].
    + intros r'. rewrite elem_of_app, list_elem_of_singleton. intros [Hr'| ->]; [by apply Hb|done].
Qed.

Lemma best_rule_is_best ok rules : is_best ok rules (best_rule ok rules).
Proof.
  unfold best_rule. induction rules as [|r rules IH] using rev_ind; simpl; [by intros ? ?%elem_of_nil|].
  rewrite foldl_app. simpl. by apply longer_is_best.
Qed.

(** Two prefixes of one key of the same length are one. *)
Lemma HasPrefix_length s p q :
  HasPrefix s p = true -> HasPrefix s q = true -> String.length p = String.length q -> p = q.
Proof.
  unfold HasPrefix. revert p q. induction s as [|c s IH]; intros [|a p] [|b q]; simpl; try done.
  repeat case_match; try done; subst. intros ? ? [= ?]. f_equal. by apply IH.
Qed.

(** A choice with a test that only reads the prefix, and picks among prefixes of one string, is
    decided by its specification. *)
Lemma is_best_unique key ok rules b b' :
  (forall r, ok r = true -> HasPrefix key (prPrefix r) = true) -> NoDup (prPrefix <$> rules) ->
  is_best ok rules b -> is_best ok rules b' -> b = b'.
Proof.
  intros Hok Hnd. destruct b as [b|], b' as [b'|]; simpl; [| | |done].
  2: { intros (Hin & Hb & _) Hn. by rewrite Hn in Hb. }
  2: { intros Hn (Hin & Hb & _). by rewrite Hn in Hb. }
  intros (Hin & Hb & Hmax) (Hin' & Hb' & Hmax'). f_equal.
  assert (prPrefix b = prPrefix b') as E.
  { apply (HasPrefix_length key); [by apply Hok..|]. specialize (Hmax _ Hin' Hb'). specialize (Hmax' _ Hin Hb). lia. }
  apply list_elem_of_lookup in Hin as [i Hi], Hin' as [j Hj].
  assert (i = j) as ->; [|congruence]. eapply (NoDup_lookup _ _ _ _ Hnd); rewrite list_lookup_fmap; [by rewrite Hi|rewrite Hj; simpl; by rewrite E].
Qed.

(** ** Well-formed tables *)

(** What the checks of schema v2 give a placement whose keys are split by the hash of this build. *)
Record wf_tables (p : Placement) : Prop := {
  wt_hash : pKeyHash p = RampHash;
  wt_owners : table_ok p (sl (pOwners p));
  wt_rules : forall r, r ∈ sl (pPrefixes p) -> prPrefix r <> "" /\ table_ok p (prOwners r);
  wt_nodup : NoDup (prPrefix <$> sl (pPrefixes p));
  wt_legs : forall id, hasLeg (pLegs p) id = true -> id <> "";
  wt_clusters : forall id l, mlookup id (pLegs p) = Some l -> legCluster l <> "";
  wt_roles : pLegClusters p = None;
}.

Definition match_key (key : string) (r : PrefixRule) : bool := HasPrefix key (prPrefix r).
Definition rule_scope (p : Placement) (best : option PrefixRule) : string * list Owner :=
  match best with None => ("", sl (pOwners p)) | Some r => (prPrefix r, prOwners r) end.

Lemma Scope_best p key : Scope p key = rule_scope p (best_rule (match_key key) (sl (pPrefixes p))).
Proof. reflexivity. Qed.

Lemma Scope_unique p key best :
  NoDup (prPrefix <$> sl (pPrefixes p)) -> is_best (match_key key) (sl (pPrefixes p)) best ->
  Scope p key = rule_scope p best.
Proof.
  intros Hnd Hb. rewrite Scope_best. f_equal. eapply (is_best_unique key); [|done|apply best_rule_is_best|done]. done.
Qed.

Lemma Scope_table p key : wf_tables p -> table_ok p (snd (Scope p key)).
Proof.
  intros Hwf. rewrite Scope_best. pose proof (best_rule_is_best (match_key key) (sl (pPrefixes p))) as Hb.
  destruct (best_rule _ _) as [b|]; simpl in *; [|apply Hwf]. by apply (wt_rules p Hwf), Hb.
Qed.

Lemma owner_leg_ok p key : wf_tables p -> owner_leg p key <> "" /\ hasLeg (pLegs p) (owner_leg p key) = true.
Proof.
  intros Hwf. destruct (owner_leg_in p (snd (Scope p key)) (rampHash key)) as (o & _ & _ & _ & Hl);
    [by apply Scope_table|apply rampHash_u64|]. split; [|done]. by apply (wt_legs p Hwf).
Qed.

(** ** Placements at rest *)

Definition one_backend (b : backend) : option backend * list backend := (Some b, [b]).

Lemma routed_active p v key :
  key_view p key = Ok v -> pState v = StateActive -> routed p key = Ok (one_backend (side_backend v Primary)).
Proof. intros Hv Hs. unfold routed. rewrite Hv. destruct (active_view v key Hs) as [Hw Hr]. simpl. by rewrite Hw, Hr. Qed.

Lemma routed_owner p key : wf_tables p -> Spread p = true -> InMove p key = false ->
  routed p key = Ok (one_backend (leg_backend p (owner_leg p key))).
Proof.
  intros Hwf Hs Hm. rewrite <- onLeg_backend. apply routed_active; [|done].
  apply view_unmoved; [done|apply Hwf|by apply owner_leg_ok|done].
Qed.

Lemma routed_plain p key : Spread p = false -> pState p = StateActive -> pLegClusters p = None ->
  routed p key = Ok (one_backend (pPrimary p, mget "" (pPrimary p) (pNames p))).
Proof.
  intros Hs Ha Hc. rewrite (routed_active p p key); [|unfold key_view; by rewrite Hs|done].
  unfold side_backend, role_backend, ClusterOf. by rewrite Hc.
Qed.

(** Settling a placement at rest leaves every key where it is. *)
Definition settle_inv (p v : Placement) : Prop :=
  pState v = pState p /\ pPrimary v = pPrimary p /\ pMove v = pMove p /\ pOwners v = pOwners p /\
  pPrefixes v = pPrefixes p /\ pLegClusters v = pLegClusters p /\ pRamp v = pRamp p /\
  forall c b, mlookup c (pNames p) = Some b -> mlookup c (pNames v) = Some b.

Lemma settle_fold legs ids p : settle_inv p (foldl (settle_step legs) p ids).
Proof.
  revert p. induction ids as [|id ids IH]; intros p; simpl; [by split_and!|].
  destruct (IH (settle_step legs p id)) as (H1 & H2 & H3 & H4 & H5 & H6 & H8 & H7).
  assert (settle_inv p (settle_step legs p id)) as (G1 & G2 & G3 & G4 & G5 & G6 & G8 & G7).
  { unfold settle_step. destruct (mhas _ (pNames p)) eqn:E; [by split_and!|]. apply mhas_false in E.
    destruct (bool_decide _); split_and!; simpl; try done; intros c b Hc;
      (destruct (pNames p) as [names|]; [|done]); simpl in *; (rewrite lookup_insert_ne; [done|congruence]). }
  split_and!; try congruence. auto.
Qed.

Lemma settle_routed p key : wf_tables p -> pMove p = None -> pState p = StateActive ->
  routed (settle p) key = Ok (one_backend (leg_backend p (owner_leg p key))).
Proof.
  intros Hwf Hm Ha. unfold settle. rewrite Hm. rewrite bool_decide_false by (intros [? [=]]). simpl.
  destruct (negb (length (sl (pOwners p)) =? 1)%nat || (0 <? length (sl (pPrefixes p)))%nat) eqn:E.
  - apply routed_owner; [done| |unfold InMove; by rewrite Hm].
    unfold Spread. apply orb_true_iff in E as [E|E]; [|by rewrite E, orb_true_r].
    assert (partition (sl (pOwners p))) as Hpart by apply Hwf.
    destruct (sl (pOwners p)) as [|o1 [|o2 l]]; [discriminate Hpart|discriminate E|reflexivity].
  - apply orb_false_iff in E as [E1 E2]. apply negb_false_iff, Nat.eqb_eq in E1. apply Nat.ltb_ge in E2.
    destruct (sl (pOwners p)) as [|o [|]] eqn:Eo; [done| |done]. set (v := set_Names _ _).
    destruct (settle_fold (pLegs p) (msortedKeys (pLegs p)) v) as (H1 & H2 & H3 & H4 & H5 & H6 & H8 & H7).
    assert (owner_leg p key = oLeg o) as Hown.
    { unfold owner_leg. destruct (owner_leg_in p (snd (Scope p key)) (rampHash key)) as (o' & Hin & _ & <- & _);
        [by apply Scope_table|apply rampHash_u64|].
      rewrite Scope_best in Hin. destruct (sl (pPrefixes p)); [|simpl in E2; lia]. simpl in Hin. rewrite Eo in Hin.
      apply list_elem_of_singleton in Hin. by subst. }
    rewrite routed_plain; [|unfold Spread; rewrite H3, H4, H5|by rewrite H1|rewrite H6; apply Hwf].
    + rewrite Hown, H2. change (pPrimary v) with (legCluster (mget zeroLeg (oLeg o) (pLegs p))).
      unfold mget at 2. erewrite H7; [reflexivity|]. simpl. by rewrite lookup_singleton_eq.
    + simpl. rewrite Hm. simpl. apply Nat.ltb_ge. lia.
Qed.

(** ** Adding and removing a rule *)

Lemma HasPrefix_trans s p q : HasPrefix s p = true -> HasPrefix p q = true -> HasPrefix s q = true.
Proof.
  rewrite !HasPrefix_app. intros [r ->] [r' ->]. exists (r' +:+ r). by rewrite append_assoc.
Qed.

Lemma HasPrefix_shorter s p q : HasPrefix s p = true -> HasPrefix s q = true ->
  (String.length p <= String.length q)%nat -> HasPrefix q p = true.
Proof.
  unfold HasPrefix. revert p q. induction s as [|c s IH]; intros [|a p] [|b q]; simpl; intros Hp Hq Hl; try done; try lia.
  repeat case_match; try done; subst; [|congruence]. apply IH; [done..|lia].
Qed.

Lemma is_best_perm ok rules rules' b : rules ≡ₚ rules' -> is_best ok rules b -> is_best ok rules' b.
Proof. intros Hp. destruct b; simpl; setoid_rewrite Hp; done. Qed.

Definition is_parent (prefix : string) (r : PrefixRule) : bool :=
  negb (bool_decide (prPrefix r = prefix)) && HasPrefix prefix (prPrefix r).

Lemma parentTable_best p prefix :
  parentTable p prefix = snd (rule_scope p (best_rule (is_parent prefix) (sl (pPrefixes p)))).
Proof. unfold parentTable, rule_scope, best_rule, is_parent. by case_match. Qed.

(** The longest rule of a key that a rule for [prefix] would not beat or already had is the parent. *)
Lemma parent_of_key prefix key rules b :
  HasPrefix key prefix = true -> prefix ∉ (prPrefix <$> rules) -> is_best (match_key key) rules b ->
  (forall r, b = Some r -> (String.length (prPrefix r) <= String.length prefix)%nat) ->
  is_best (is_parent prefix) rules b.
Proof.
  intros Hk Hnew Hb Hlen.
  assert (forall r, is_parent prefix r = true -> match_key key r = true) as Himp.
  { intros r [_ Hr]%andb_true_iff. by eapply HasPrefix_trans. }
  destruct b as [b|]; simpl in *.
  - destruct Hb as (Hin & Hok & Hmax). split_and!; [done| |by auto].
    unfold is_parent. rewrite (HasPrefix_shorter key _ _ Hok Hk) by by apply Hlen. rewrite bool_decide_false; [done|].
    intros E. apply Hnew. rewrite <- E. apply list_elem_of_fmap. by exists b.
  - intros r Hin. destruct (is_parent prefix r) eqn:E; [|done]. apply Himp in E. by rewrite Hb in E.
Qed.

(** With a rule that repeats its parent's table, every key finds the table it found without it. *)
Lemma add_rule_scope p q prefix key :
  NoDup (prPrefix <$> sl (pPrefixes p)) -> prefix ∉ (prPrefix <$> sl (pPrefixes p)) ->
  sl (pPrefixes q) ≡ₚ sl (pPrefixes p) ++ [mkRule prefix (parentTable p prefix)] -> sl (pOwners q) = sl (pOwners p) ->
  snd (Scope q key) = snd (Scope p key).
Proof.
  intros Hnd Hnew Hperm Ho. set (new := mkRule prefix (parentTable p prefix)) in *.
  assert (NoDup (prPrefix <$> sl (pPrefixes q))) as Hnd'.
  { rewrite Hperm, fmap_app. apply NoDup_app. split_and!; [done| |apply NoDup_singleton]. simpl. set_solver. }
  pose proof (best_rule_is_best (match_key key) (sl (pPrefixes p))) as Hb.
  rewrite (Scope_best p key). set (b := best_rule _ _) in *.
  assert (HasPrefix key prefix = false \/ (exists r, b = Some r /\ (String.length prefix < String.length (prPrefix r))%nat) \/
          (HasPrefix key prefix = true /\ forall r, b = Some r -> (String.length (prPrefix r) <= String.length prefix)%nat)) as Hcase.
  { destruct (HasPrefix key prefix); [right|by left]. destruct b as [r|]; [|by right].
    destruct (decide (String.length prefix < String.length (prPrefix r))%nat); [left; by exists r|right]. split; [done|].
    intros ? [= <-]. lia. }
  destruct Hcase as [Hno|[(r & Hr & Hlt)|[Hk Hle]]].
  - rewrite (Scope_unique q key b Hnd'); [by destruct b; simpl|]. apply (is_best_perm _ _ _ _ (symmetry Hperm)).
    destruct b as [b|]; simpl in *; [destruct Hb as (? & ? & Hmax); split_and!; [set_solver|done|]|];
      intros r; rewrite elem_of_app, list_elem_of_singleton; intros [Hr| ->]; auto; try done.
    unfold match_key. simpl. congruence.
  - rewrite (Scope_unique q key b Hnd'); [by destruct b; simpl|]. apply (is_best_perm _ _ _ _ (symmetry Hperm)).
    rewrite Hr in *. destruct Hb as (? & ? & Hmax). split_and!; [set_solver|done|].
    intros r'. rewrite elem_of_app, list_elem_of_singleton. intros [Hr'| ->]; [by auto|]. simpl. lia.
  - rewrite (Scope_unique q key (Some new) Hnd').
    + simpl. rewrite parentTable_best. enough (best_rule (is_parent prefix) (sl (pPrefixes p)) = b) as -> by done.
      eapply (is_best_unique prefix (is_parent prefix) (sl (pPrefixes p))); [|done|apply best_rule_is_best|by apply (parent_of_key prefix key)].
      by intros r [_ Hr]%andb_true_iff.
    + apply (is_best_perm _ _ _ _ (symmetry Hperm)). split_and!; [set_solver|done|].
      intros r. rewrite elem_of_app, list_elem_of_singleton. intros [Hr| ->] Hok; [|done]. simpl.
      destruct b as [b|]; simpl in *; [|by rewrite Hb in Hok]. etrans; [|by apply (Hle b)]. by apply Hb.
Qed.

(** A placement the directory holds at rest: plain, or spread with sound tables. *)
Definition wf_rest (p : Placement) : Prop :=
  pLegClusters p = None /\ if Spread p then wf_tables p else pPrimary p <> "".

(** The spread form of a plain placement: its primary is the leg that owns every key. *)
Definition spread_form (p : Placement) : Placement :=
  p |> set_Legs (Some {[pPrimary p := mkLeg (pPrimary p) (mget "" (pPrimary p) (pNames p))]})
    |> set_Owners (Some [mkOwner (rFrom FullRange) (rTo FullRange) (pPrimary p)])
    |> set_Primary "" |> set_Names None |> set_KeyHash RampHash.

Lemma not_spread_rules p : Spread p = false -> sl (pPrefixes p) = [] /\ pMove p = None.
Proof.
  unfold Spread. intros H. apply orb_false_iff in H as [H H2]. apply orb_false_iff in H as [_ H1]. split.
  - apply Nat.ltb_ge in H2. destruct (sl (pPrefixes p)); [done|simpl in H2; lia].
  - apply bool_decide_eq_false in H1. destruct (pMove p); [destruct H1; by eexists|done].
Qed.

Lemma spread_form_wf p : Spread p = false -> pPrimary p <> "" -> pLegClusters p = None -> wf_tables (spread_form p).
Proof.
  intros Hs Hne Hc. destruct (not_spread_rules p Hs) as [Hp _]. split; simpl.
  - done.
  - split; [vm_compute; split_and!; congruence|]. repeat constructor. apply mhas_true. simpl. rewrite lookup_singleton_eq. by eexists.
  - rewrite Hp. by intros ? ?%elem_of_nil.
  - rewrite Hp. constructor.
  - intros id Hid. apply mhas_true in Hid as [l Hl]. simpl in Hl. apply lookup_singleton_Some in Hl as [<- _]. done.
  - intros id l Hl. apply lookup_singleton_Some in Hl as [_ <-]. done.
  - done.
Qed.

Lemma spread_form_owner p key : Spread p = false -> owner_leg (spread_form p) key = pPrimary p.
Proof.
  intros Hs. destruct (not_spread_rules p Hs) as [Hp _]. unfold owner_leg. rewrite Scope_best. simpl. rewrite Hp. simpl.
  pose proof (rampHash_u64 key) as Hu. unfold is_u64 in Hu. unfold OwnerIn. simpl.
  destruct (rampHash key <=? MaxUint64)%Z eqn:E; [done|]. apply Z.leb_gt in E. unfold MaxUint64, two64 in *. lia.
Qed.

Lemma leg_spread_form p : leg_backend (spread_form p) (pPrimary p) = (pPrimary p, mget "" (pPrimary p) (pNames p)).
Proof. unfold leg_backend, mget, mlookup. simpl. by rewrite lookup_singleton_eq. Qed.

(** Where the keys of a placement at rest are, and the tables that say so. *)
Definition tables_of (p : Placement) : Placement := if Spread p then p else spread_form p.

Lemma rest_routed p key : wf_rest p -> pState p = StateActive -> pMove p = None ->
  wf_tables (tables_of p) /\ sl (pPrefixes (tables_of p)) = sl (pPrefixes p) /\
  routed p key = Ok (one_backend (leg_backend (tables_of p) (owner_leg (tables_of p) key))).
Proof.
  intros [Hc Hwf] Ha Hm. unfold tables_of. destruct (Spread p) eqn:Hs.
  - split_and!; [done..|]. apply routed_owner; [done..|]. unfold InMove. by rewrite Hm.
  - split_and!; [by apply spread_form_wf|done|]. rewrite routed_plain by done.
    by rewrite spread_form_owner, leg_spread_form.
Qed.

(** The carved placement has the tables of the one it came from, and one more rule. *)
Lemma carve_Ok p prefix np : carve p prefix = Ok np ->
  pState p = StateActive /\ pMove p = None /\ prefix <> "" /\ prefix ∉ (prPrefix <$> sl (pPrefixes p)) /\
  pState np = StateActive /\ pMove np = None /\ pKeyHash np = RampHash /\ pLegs np = pLegs (tables_of p) /\
  pLegClusters np = pLegClusters p /\ sl (pOwners np) = sl (pOwners (tables_of p)) /\
  (pKeyHash (tables_of p) = RampHash ->
   sl (pPrefixes np) ≡ₚ sl (pPrefixes p) ++ [mkRule prefix (parentTable (tables_of p) prefix)]).
Proof.
  unfold carve. rewrite clone_id.
  destruct (bool_decide (pState p = StateActive)) eqn:Ha; [|done]. apply bool_decide_eq_true in Ha.
  destruct (pMove p) eqn:Hm; [done|]. cbn [negb orb]. rewrite bool_decide_false by (intros [? [=]]).
  destruct (bool_decide (prefix = "")) eqn:Hne; [done|]. apply bool_decide_eq_false in Hne.
  destruct (MaxPrefixLen <? _)%nat; [done|]. destruct (MaxPrefixRules <=? _)%nat; [done|].
  destruct (existsb (rule_for prefix) _) eqn:Hex; [done|]. destruct (_ && _); [done|].
  intros [= <-]. unfold tables_of. split_and!; try done.
  - intros (r & -> & Hr)%list_elem_of_fmap. rewrite <- not_true_iff_false, existsb_exists in Hex. destruct Hex.
    exists r. split; [by apply list_elem_of_In|]. unfold rule_for. by rewrite bool_decide_true.
  - by destruct (Spread p).
  - by destruct (Spread p).
  - by destruct (Spread p).
  - by destruct (Spread p).
  - by destruct (Spread p).
  - intros Hh. simpl. rewrite merge_sort_Permutation. destruct (Spread p); [|done].
    replace (set_KeyHash RampHash p) with p; [done|]. rewrite <- Hh. by destruct p.
Qed.

Lemma carve_wf p prefix np : wf_rest p -> carve p prefix = Ok np -> wf_tables np /\ Spread np = true.
Proof.
  intros Hwf Hc. destruct (carve_Ok _ _ _ Hc) as (Ha & Hm & Hne & Hnew & Ha' & Hm' & Hh & Hl & Hlc & Ho & Hp).
  destruct (rest_routed p "" Hwf Ha Hm) as ([Th To Tr Tn Tl Tk Tc] & Hpre & _). specialize (Hp Th). rewrite Hpre in *.
  assert (table_ok (tables_of p) (parentTable (tables_of p) prefix)) as Hpar.
  { rewrite parentTable_best. pose proof (best_rule_is_best (is_parent prefix) (sl (pPrefixes (tables_of p)))) as Hb.
    rewrite Hpre in *. destruct (best_rule _ _) as [b|]; simpl; [|done]. by apply Tr, Hb. }
  unfold table_ok in *. rewrite <- Hl in *. split; [split; unfold table_ok; try done|].
  - by rewrite Ho.
  - intros r. rewrite Hp, elem_of_app, list_elem_of_singleton. intros [Hr| ->]; [by apply Tr|done].
  - rewrite Hp, fmap_app. apply NoDup_app. split_and!; [done| |apply NoDup_singleton]. simpl. set_solver.
  - rewrite Hlc. apply Hwf.
  - unfold Spread. rewrite (Permutation_length Hp), length_app. simpl. rewrite orb_true_iff. right. apply Nat.ltb_lt. lia.
Qed.

Lemma leg_backend_legs p q id : pLegs p = pLegs q -> leg_backend p id = leg_backend q id.
Proof. unfold leg_backend. by intros ->. Qed.

(** *** Merging *)

Lemma delete_first_perm {A} (f : A -> bool) l x : List.find f l = Some x -> l ≡ₚ delete_first f l ++ [x].
Proof.
  induction l as [|y l IH]; simpl; [done|]. destruct (f y); [intros [= ->]; by rewrite Permutation_app_comm|].
  intros H. simpl. by rewrite <- IH.
Qed.

Lemma parentTable_drop p q prefix r :
  NoDup (prPrefix <$> sl (pPrefixes p)) -> prPrefix r = prefix -> sl (pPrefixes p) ≡ₚ sl (pPrefixes q) ++ [r] ->
  sl (pOwners q) = sl (pOwners p) -> parentTable q prefix = parentTable p prefix.
Proof.
  intros Hnd Hr Hperm Ho. rewrite !parentTable_best.
  enough (best_rule (is_parent prefix) (sl (pPrefixes q)) = best_rule (is_parent prefix) (sl (pPrefixes p))) as ->
    by (destruct (best_rule _ _); simpl; congruence).
  assert (is_parent prefix r = false) as Hnot by (unfold is_parent; by rewrite bool_decide_true).
  eapply (is_best_unique prefix (is_parent prefix) (sl (pPrefixes p))); [by intros r' [_ ?]%andb_true_iff|done| |apply best_rule_is_best].
  apply (is_best_perm _ _ _ _ (symmetry Hperm)).
  pose proof (best_rule_is_best (is_parent prefix) (sl (pPrefixes q))) as Hb.
  destruct (best_rule _ _) as [b|]; simpl in *; [destruct Hb as (? & ? & Hmax); split_and!; [set_solver|done|]|];
    intros r2; rewrite elem_of_app, list_elem_of_singleton; (intros [Hr2| ->]; [by auto|first [exact Hnot|intros; congruence]]).
Qed.

(** The placement [Merge] settles: the rule is gone, the rest as it was. *)
Lemma merge_Ok p prefix np : merge p prefix = Ok np ->
  pState p = StateActive /\ pMove p = None /\
  exists q r, np = settle q /\ pState q = StateActive /\ pMove q = None /\ pKeyHash q = pKeyHash p /\ pLegs q = pLegs p /\
    pLegClusters q = pLegClusters p /\ pOwners q = pOwners p /\ prPrefix r = prefix /\ prOwners r = parentTable p prefix /\
    sl (pPrefixes p) ≡ₚ sl (pPrefixes q) ++ [r].
Proof.
  unfold merge. rewrite clone_id. destruct (List.find _ _) as [r|] eqn:Hf; [|done].
  destruct (bool_decide (pState p = StateActive)) eqn:Ha; [|done]. apply bool_decide_eq_true in Ha.
  destruct (pMove p) eqn:Hm; [done|]. cbn [negb orb]. rewrite bool_decide_false by (intros [? [=]]).
  destruct (bool_decide (prOwners r = _)) eqn:Ho; [|done]. apply bool_decide_eq_true in Ho. intros [= <-].
  split_and!; [done..|]. do 2 eexists. split; [done|].
  apply find_some in Hf as Hf'. destruct Hf' as [_ Hr%bool_decide_eq_true].
  destruct (pPrefixes p) as [rules|] eqn:Hp; [|done]. simpl in *. apply delete_first_perm in Hf.
  destruct (length (delete_first _ rules) =? 0)%nat eqn:El; split_and!; try done.
  apply Nat.eqb_eq, length_zero_iff_nil in El. by rewrite El in Hf.
Qed.

Lemma wf_tables_drop p q r : wf_tables p -> pKeyHash q = pKeyHash p -> pLegs q = pLegs p ->
  pLegClusters q = pLegClusters p -> pOwners q = pOwners p -> sl (pPrefixes p) ≡ₚ sl (pPrefixes q) ++ [r] -> wf_tables q.
Proof.
  intros [Th To Tr Tn Tl Tk Tc] H1 H2 H3 H4 Hp. split; unfold table_ok in *; rewrite ?H2, ?H4; try congruence; try done.
  - intros r' Hr'. apply Tr. rewrite Hp. set_solver.
  - rewrite Hp, fmap_app in Tn. by apply NoDup_app in Tn as [? _].
Qed.

(** *** Listings *)

Lemma foldl_union_mono {A} (f : gset string -> A -> gset string) (s : gset string) l x :
  (forall s a, s ⊆ f s a) -> x ∈ s -> x ∈ foldl f s l.
Proof. intros Hf. revert s. induction l as [|a l IH]; intros s Hx; simpl; [done|]. by apply IH, Hf. Qed.

Lemma ListingLegs_rule p prefix r leg :
  leg ∈ oLeg <$> snd (Scope p prefix) \/ (r ∈ sl (pPrefixes p) /\ HasPrefix (prPrefix r) prefix = true /\ leg ∈ oLeg <$> prOwners r) ->
  leg ∈ ListingLegs p prefix.
Proof.
  intros Hleg. unfold ListingLegs. rewrite merge_sort_Permutation, elem_of_elements.
  set (s0 := list_to_set _). set (f := fun (s : gset string) r => _).
  assert (forall s a, s ⊆ f s a) as Hf. { intros s a. unfold f. destruct (HasPrefix (prPrefix a) prefix); [apply union_subseteq_l|done]. }
  enough (leg ∈ foldl f s0 (sl (pPrefixes p))) by (destruct (pMove p); [by apply elem_of_union_l|done]).
  destruct Hleg as [Hleg|(Hin & Hpre & Hleg)].
  - apply foldl_union_mono; [done|]. unfold s0. by apply elem_of_list_to_set.
  - clearbody s0. revert s0 Hin. induction (sl (pPrefixes p)) as [|r' rules IH]; intros s Hin; [by apply elem_of_nil in Hin|].
    apply elem_of_cons in Hin as [<-|Hin]; simpl; [|by apply IH]. apply foldl_union_mono; [done|]. unfold f at 1. rewrite Hpre.
    apply elem_of_union. right. by apply elem_of_list_to_set.
Qed.

Lemma ListingLegs_move p prefix m : pMove p = Some m -> mvFrom m ∈ ListingLegs p prefix /\ mvTo m ∈ ListingLegs p prefix.
Proof. intros Hm. unfold ListingLegs. rewrite !merge_sort_Permutation, !elem_of_elements, Hm. set_solver. Qed.

Lemma ListingLegs_owner p prefix key : wf_tables p -> HasPrefix key prefix = true -> owner_leg p key ∈ ListingLegs p prefix.
Proof.
  intros Hwf Hk. destruct (owner_leg_in p (snd (Scope p key)) (rampHash key)) as (o & Hin & _ & Ho & _);
    [by apply Scope_table|apply rampHash_u64|]. fold (owner_leg p key) in Ho.
  assert (owner_leg p key ∈ oLeg <$> snd (Scope p key)) as Hleg by (apply list_elem_of_fmap; by exists o).
  pose proof (best_rule_is_best (match_key key) (sl (pPrefixes p))) as Hb.
  assert (forall r, match_key prefix r = true -> match_key key r = true) as Himp
    by (intros r Hr; by eapply HasPrefix_trans).
  rewrite Scope_best in Hleg. destruct (best_rule _ _) as [b|] eqn:Eb; simpl in Hb, Hleg.
  - destruct Hb as (Hin' & Hok & Hmax). destruct (HasPrefix (prPrefix b) prefix) eqn:E.
    + apply (ListingLegs_rule p prefix b). right. done.
    + apply (ListingLegs_rule p prefix b). left. rewrite (Scope_unique p prefix (Some b)); [done|apply Hwf|].
      split_and!; [done| |by auto]. apply (HasPrefix_shorter key); [done..|].
      destruct (decide (String.length prefix <= String.length (prPrefix b))%nat); [|lia].
      rewrite (HasPrefix_shorter key prefix (prPrefix b)) in E; done.
  - apply (ListingLegs_rule p prefix (mkRule "" [])). left. rewrite (Scope_unique p prefix None); [done|apply Hwf|].
    intros r Hr. destruct (match_key prefix r) eqn:E; [|done]. apply Himp in E. by rewrite Hb in E.
Qed.

(** ** Properties *)

(** Carving a prefix out of a bucket at rest, plain or already spread, changes where no key's
    requests go: neither its writes nor its reads reach another backend. *)
Theorem carve_keeps_routing (p np : Placement) (prefix key : string)
    (Hwf : wf_rest p) (Hc : carve p prefix = Ok np) :
  routed np key = routed p key /\ exists b, routed p key = Ok (Some b, [b]).
Proof.
  destruct (carve_Ok _ _ _ Hc) as (Ha & Hm & Hne & Hnew & Ha' & Hm' & Hh & Hl & Hlc & Ho & Hp).
  destruct (rest_routed p key Hwf Ha Hm) as (Twf & Hpre & ->). destruct (carve_wf _ _ _ Hwf Hc) as [Hwf' Hs'].
  split; [|by eexists]. rewrite routed_owner; [|done|done|unfold InMove; by rewrite Hm'].
  unfold owner_leg. rewrite (add_rule_scope (tables_of p) np prefix); [by rewrite (leg_backend_legs np (tables_of p))| | | |done].
  - apply Twf.
  - by rewrite Hpre.
  - rewrite Hpre. apply Hp, Twf.
Qed.

Lemma carve_keeps_routing_witness :
  exists np, carve (zeroPlacement |> set_State StateActive |> set_Primary "a" |> set_Names (Some {["a" := "data"]})) "logs/" = Ok np /\
    routed np "logs/1" = routed (zeroPlacement |> set_State StateActive |> set_Primary "a" |> set_Names (Some {["a" := "data"]})) "logs/1".
Proof.
  eexists. split; [vm_compute; reflexivity|]. refine (proj1 (carve_keeps_routing _ _ "logs/" _ _ _)); [|vm_compute; reflexivity].
  split; [reflexivity|]. done.
Defined.

(** C28: merging a prefix rule back changes where no key's requests go, even when the bucket is plain
    again afterwards. *)
Theorem merge_keeps_routing (p np : Placement) (prefix key : string)
    (Hwf : wf_tables p) (Hs : Spread p = true) (Hm : merge p prefix = Ok np) :
  routed np key = routed p key /\ exists b, routed p key = Ok (Some b, [b]).
Proof.
  destruct (merge_Ok _ _ _ Hm) as (Ha & Hmv & q & r & -> & Ha' & Hm' & Hh & Hl & Hc & Ho & Hr & Hpar & Hp).
  pose proof (wf_tables_drop p q r Hwf Hh Hl Hc Ho Hp) as Hwf'.
  rewrite (routed_owner p); [|done|done|unfold InMove; by rewrite Hmv]. split; [|by eexists].
  rewrite settle_routed by done. rewrite (leg_backend_legs q p) by done. unfold owner_leg.
  rewrite (add_rule_scope q p prefix); [done|apply Hwf'| | |by rewrite Ho].
  - pose proof (wt_nodup p Hwf) as Hnd. rewrite Hp, fmap_app in Hnd. apply NoDup_app in Hnd as (_ & Hnd & _).
    intros Hin. apply (Hnd prefix Hin). simpl. rewrite Hr. by left.
  - rewrite (parentTable_drop p q prefix r); [|apply Hwf|done|done|by rewrite Ho]. rewrite <- Hpar, <- Hr. by destruct r.
Qed.

Definition example_carved : Placement :=
  zeroPlacement |> set_State StateActive |> set_Legs example_legs |> set_Owners (Some example_owners)
    |> set_KeyHash RampHash |> set_Prefixes (Some [mkRule "logs/" example_owners]).

Lemma example_carved_wf : wf_tables example_carved.
Proof.
  assert (table_ok example_carved example_owners) as Ht.
  { split; [vm_compute; split_and!; congruence|]. repeat constructor. }
  split; try done; simpl.
  - intros r ->%list_elem_of_singleton. done.
  - apply NoDup_singleton.
  - intros id Hid. apply mhas_true in Hid as [l Hid]. simpl in Hid. intros ->. vm_compute in Hid. discriminate Hid.
  - intros id l Hl. apply elem_of_map_to_list in Hl. vm_compute in Hl.
    repeat (apply elem_of_cons in Hl as [Hl|Hl]; [injection Hl as -> ->; done|]). by apply elem_of_nil in Hl.
Qed.

Lemma merge_keeps_routing_witness :
  exists np, merge example_carved "logs/" = Ok np /\ routed np "logs/1" = routed example_carved "logs/1".
Proof.
  eexists. split; [vm_compute; reflexivity|].
  refine (proj1 (merge_keeps_routing example_carved _ "logs/" "logs/1" example_carved_wf _ _)); vm_compute; reflexivity.
Defined.

(** A listing of a prefix reads every leg that can hold a key under it: whatever backends the
    writes and the reads of such a key reach, they are among the listed legs' backends. *)
Theorem ListingLegs_complete (p : Placement) (prefix key : string) (w : option backend) (r : list backend) (b : backend)
    (Hwf : wf_tables p) (Hs : Spread p = true) (Hk : HasPrefix key prefix = true)
    (Hr : routed p key = Ok (w, r)) (Hb : w = Some b \/ b ∈ r) :
  exists leg, leg ∈ ListingLegs p prefix /\ b = leg_backend p leg.
Proof.
  destruct (InMove p key) eqn:Hm.
  - unfold InMove in Hm. destruct (pMove p) as [m|] eqn:Em; [|done].
    destruct (ListingLegs_move p prefix m Em) as [Hfrom Hto].
    assert (key_view p key = Ok (MoveView p m)) as Hv by (apply view_moving; [done|apply Hwf|unfold InMove; by rewrite Em]).
    destruct (routed_Ok p _ key w r Hv Hr) as [Hw Hrd].
    assert (exists s, b = side_backend (MoveView p m) s) as [s ->]
      by (destruct Hb as [->|Hb]; [by apply (write_to_sides _ key)|by apply (reads_of_sides _ key r)]).
    destruct s; [exists (mvTo m); by rewrite MoveView_primary|exists (mvFrom m); by rewrite MoveView_source].
  - pose proof (routed_owner p key Hwf Hs Hm) as Hr'. rewrite Hr in Hr'. injection Hr' as -> ->. exists (owner_leg p key).
    split; [by apply ListingLegs_owner|]. destruct Hb as [[= ->]|Hb]; [done|]. by apply list_elem_of_singleton in Hb.
Qed.

Lemma ListingLegs_complete_witness :
  exists leg, leg ∈ ListingLegs example_carved "lo" /\ ("b", "b2") = leg_backend example_carved leg.
Proof.
  apply (ListingLegs_complete example_carved "lo" "logs/1" (Some ("b", "b2")) [("b", "b2")] ("b", "b2") example_carved_wf);
    try (vm_compute; reflexivity). by left.
Defined.
