(* ===== verification/Directory.v ===== *)
(** * The directory (internal/directory: directory.go, mutations.go, identity.go, file.go)

    The file that maps client buckets to placements: its operator mutations, the lineage it carries
    (schema, identity, a generation per resource), and the locked read-modify-write that installs a
    change.  A mutation is a function from a file to a file or an error, as in the code, where both
    stores (the file and the control plane's) apply it to their own copy. *)

From S2P Require Import Prelude Float64 KeyHash HashRange Config Placement Transition S3Op S3Names Route Backend Scopes.

(** ** Data *)

Record Tenant : Type := mkTenant { tnDefaultCluster : string }.

Record Identity : Type := mkIdentity { idClusterID : string; idEpoch : string }.

Definition zeroIdentity : Identity := mkIdentity "" "".

Record File : Type := mkFile {
  fVersion : Z;
  fSchema : Z;
  fIdentity : Identity;
  fGenerations : option (gmap string Z);
  fClusters : option (gmap string Cluster);
  fTenants : option (gmap string Tenant);
  fPlacements : option (gmap string Placement);
}.

#[export] Instance Tenant_eq_dec : EqDecision Tenant.
Proof. solve_decision. Defined.
#[export] Instance Identity_eq_dec : EqDecision Identity.
Proof. solve_decision. Defined.

Definition set_Clusters (c : option (gmap string Cluster)) (f : File) : File :=
  mkFile (fVersion f) (fSchema f) (fIdentity f) (fGenerations f) c (fTenants f) (fPlacements f).
Definition set_Tenants (t : option (gmap string Tenant)) (f : File) : File :=
  mkFile (fVersion f) (fSchema f) (fIdentity f) (fGenerations f) (fClusters f) t (fPlacements f).
Definition set_Placements (p : option (gmap string Placement)) (f : File) : File :=
  mkFile (fVersion f) (fSchema f) (fIdentity f) (fGenerations f) (fClusters f) (fTenants f) p.
Definition set_Lineage (v s : Z) (i : Identity) (g : option (gmap string Z)) (f : File) : File :=
  mkFile v s i g (fClusters f) (fTenants f) (fPlacements f).

(** The errors of a store: the sentinels of the package, and what a transition or a scope refuses. *)
Inductive dirErr : Type :=
| ErrExists
| ErrInUse (refs : list string)
| ErrNotFound
| ErrConflict
| ErrRefused (e : scopeErr)
| ErrTransition (e : applyErr)
| ErrInvalid (keys : list string)
| ErrSecretInline
| ErrIdentity
| ErrLock
| ErrRead (msg : string)
| ErrParse
| ErrPrepare
| ErrEncode
| ErrWrite
| ErrStaleVersion.

(** ** Keys *)

Definition Key (tenant bucket : string) : string := tenant +:+ "/" +:+ bucket.

Definition SplitKey (k : string) : option (string * string) :=
  '(tenant, bucket) ← Cut k "/"%char;
  if bool_decide (tenant = "") || bool_decide (bucket = "") then None else Some (tenant, bucket).

Definition PlacementResource (key : string) : string := "placement:" +:+ key.
Definition ClusterResource (name : string) : string := "cluster:" +:+ name.
Definition SecretResource (name : string) : string := "secret:" +:+ name.
Definition TenantResource (name : string) : string := "tenant:" +:+ name.

Lemma PlacementResource_inj a b : PlacementResource a = PlacementResource b -> a = b.
Proof. unfold PlacementResource. intros E. by injection E. Qed.
Lemma ClusterResource_inj a b : ClusterResource a = ClusterResource b -> a = b.
Proof. unfold ClusterResource. intros E. by injection E. Qed.

(** [File.Generation]: 0 when there is none. *)
Definition Generation (f : File) (resource : string) : Z := mget 0%Z resource (fGenerations f).

(** ** Helpers of the mutations *)

Definition lookup_placement (f : File) (k : string) : option Placement := mlookup k (fPlacements f).

(** [f.Placements[k] = p] on a map that is there. *)
Definition put_placement (k : string) (p : Placement) (f : File) : File :=
  f |> set_Placements (<[k := p]> <$> fPlacements f).
Definition put_cluster (name : string) (c : Cluster) (f : File) : File :=
  f |> set_Clusters (<[name := c]> <$> fClusters f).

Definition ensureMaps (f : File) : File :=
  f |> set_Clusters (Some (default ∅ (fClusters f))) |> set_Tenants (Some (default ∅ (fTenants f)))
    |> set_Placements (Some (default ∅ (fPlacements f))).

(** [now.UTC().Truncate(time.Millisecond)], in nanoseconds. *)
Definition truncate_ms (now : Z) : Z := now - now mod 1000000.

Definition activePlacement (cluster backend : string) (now : Z) : Placement :=
  zeroPlacement |> set_State StateActive |> set_Primary cluster |> set_Names (Some {[cluster := backend]})
    |> set_Created (truncate_ms now).

(** Does this barrier have this id? *)
Definition carries_barrier (b : option Barrier) (id : string) : bool :=
  match b with Some b => bool_decide (bID b = id) | None => false end.

(** ** Mutations *)

Definition Create (tenant bucket cluster backend : string) (now : Z) (f : File) : result dirErr File :=
  let k := Key tenant bucket in
  if mhas k (fPlacements f) then Err ErrExists
  else if negb (mhas tenant (fTenants f)) then Err ErrNotFound
  else Ok (ensureMaps f |> put_placement k (activePlacement cluster backend now)).

Definition Delete (tenant bucket : string) (f : File) : result dirErr File :=
  let k := Key tenant bucket in
  match lookup_placement f k with
  | None => Err ErrNotFound
  | Some p => if negb (bool_decide (pState p = StateActive)) then Err ErrConflict
              else Ok (f |> set_Placements (mdelete k (fPlacements f)))
  end.

Definition SetTenantDefault (tenant cluster : string) (f : File) : result dirErr File :=
  match mlookup tenant (fTenants f) with
  | None => Err ErrNotFound
  | Some t =>
      if negb (mhas cluster (fClusters f)) then Err ErrNotFound
      else if bool_decide (tnDefaultCluster t = cluster) then Err ErrConflict
      else Ok (f |> set_Tenants (<[tenant := mkTenant cluster]> <$> fTenants f))
  end.

Definition SetState (tenant bucket from : string) (t : Transition) (f : File) : result dirErr File :=
  let k := Key tenant bucket in
  match lookup_placement f k with
  | None => Err ErrNotFound
  | Some p =>
      if negb (bool_decide (pState p = from)) then Err ErrConflict
      else match Apply p t with
           | Err e => Err (ErrTransition e)
           | Ok np => Ok (f |> put_placement k np)
           end
  end.

(** The checks of a read-only change, on a scope that carries barrier [b] and the two switches. *)
Definition readOnlyConflict (b : option Barrier) (ro rejects readOnly reject : bool) (barrier : string) : bool :=
  (negb readOnly && negb (bool_decide (barrier = "")) && negb (carries_barrier b barrier)) ||
  (Bool.eqb ro readOnly && Bool.eqb rejects (readOnly && reject) &&
   (bool_decide (barrier = "") || bool_decide (is_Some b))) ||
  (readOnly && negb (bool_decide (barrier = "")) && bool_decide (is_Some b) && negb (carries_barrier b barrier)).

Definition readOnlyBarrier (readOnly : bool) (barrier : string) : option Barrier :=
  if readOnly && negb (bool_decide (barrier = "")) then Some (mkBarrier barrier BarrierMutations) else None.

Definition SetPlacementReadOnly (tenant bucket : string) (readOnly reject : bool) (barrier : string) (f : File)
    : result dirErr File :=
  let k := Key tenant bucket in
  match lookup_placement f k with
  | None => Err ErrNotFound
  | Some p =>
      if readOnlyConflict (pBarrier p) (pReadOnly p) (pRejectWrites p) readOnly reject barrier then Err ErrConflict
      else Ok (f |> put_placement k (clone p |> set_ReadOnly readOnly |> set_RejectWrites (readOnly && reject)
                                           |> set_Barrier (readOnlyBarrier readOnly barrier)))
  end.

Definition SetBarrier (tenant bucket : string) (b : Barrier) (f : File) : result dirErr File :=
  let k := Key tenant bucket in
  match lookup_placement f k with
  | None => Err ErrNotFound
  | Some p =>
      if bool_decide (is_Some (pBarrier p)) then Err ErrConflict
      else Ok (f |> put_placement k (clone p |> set_Barrier (Some b)))
  end.

Definition ClearBarrier (tenant bucket id : string) (f : File) : result dirErr File :=
  let k := Key tenant bucket in
  match lookup_placement f k with
  | None => Err ErrNotFound
  | Some p => if negb (carries_barrier (pBarrier p) id) then Err ErrConflict
              else Ok (f |> put_placement k (clone p |> set_Barrier None))
  end.

Definition SetPlacementWatch (tenant bucket : string) (watch : bool) (f : File) : result dirErr File :=
  let k := Key tenant bucket in
  match lookup_placement f k with
  | None => Err ErrNotFound
  | Some p => if Bool.eqb (pWatch p) watch then Err ErrConflict
              else Ok (f |> put_placement k (p |> set_Watch watch))
  end.

Definition SetClusterReadOnly (name : string) (readOnly reject : bool) (barrier : string) (f : File) : result dirErr File :=
  match mlookup name (fClusters f) with
  | None => Err ErrNotFound
  | Some c =>
      if readOnlyConflict (cBarrier c) (cReadOnly c) (cRejectWrites c) readOnly reject barrier then Err ErrConflict
      else Ok (f |> put_cluster name (c |> set_cReadOnly readOnly (readOnly && reject) (readOnlyBarrier readOnly barrier)))
  end.

Definition ReleaseReadOnly (resource id : string) (readOnly reject : bool) (f : File) : result dirErr File :=
  match CutPrefix resource "cluster:" with
  | Some name =>
      match mlookup name (fClusters f) with
      | None => Err ErrNotFound
      | Some c => if negb (carries_barrier (cBarrier c) id) then Err ErrConflict
                  else Ok (f |> put_cluster name (c |> set_cReadOnly readOnly (readOnly && reject) None))
      end
  | None =>
      let k := TrimPrefix resource "placement:" in
      match lookup_placement f k with
      | None => Err ErrNotFound
      | Some p => if negb (carries_barrier (pBarrier p) id) then Err ErrConflict
                  else Ok (f |> put_placement k (clone p |> set_ReadOnly readOnly |> set_RejectWrites (readOnly && reject)
                                                        |> set_Barrier None))
      end
  end.

Definition ClearClusterBarrier (name id : string) (f : File) : result dirErr File :=
  match mlookup name (fClusters f) with
  | None => Err ErrNotFound
  | Some c => if negb (carries_barrier (cBarrier c) id) then Err ErrConflict
              else Ok (f |> put_cluster name (c |> set_cReadOnly (cReadOnly c) (cRejectWrites c) None))
  end.

Definition PutCluster (name : string) (c : Cluster) (f : File) : result dirErr File :=
  let f := ensureMaps f in
  Ok (f |> set_Clusters (ApplyClusterDefaults <$> (<[name := c]> <$> fClusters f))).

(** References: what names a cluster. *)
Definition names_cluster (cluster : string) (p : Placement) : bool :=
  mhas cluster (pNames p) ||
  existsb (fun id => bool_decide (legCluster (mget zeroLeg id (pLegs p)) = cluster)) (msortedKeys (pLegs p)).

Definition uses_cluster (cluster : string) (p : Placement) : bool :=
  bool_decide (pPrimary p = cluster) || bool_decide (pSource p = cluster) || bool_decide (pTarget p = cluster) ||
  bool_decide (pCold p = cluster) || names_cluster cluster p.

Definition References (f : File) (cluster : string) : list string :=
  List.map (fun name => "tenants." +:+ name +:+ ".default_cluster")
    (List.filter (fun name => bool_decide (tnDefaultCluster (mget (mkTenant "") name (fTenants f)) = cluster))
       (msortedKeys (fTenants f))) ++
  List.map (fun k => "placements." +:+ k)
    (List.filter (fun k => uses_cluster cluster (mget zeroPlacement k (fPlacements f))) (msortedKeys (fPlacements f))).

Definition RemoveCluster (name : string) (f : File) : result dirErr File :=
  if negb (mhas name (fClusters f)) then Err ErrNotFound
  else if (0 <? length (References f name))%nat then Err (ErrInUse (References f name))
  else Ok (f |> set_Clusters (mdelete name (fClusters f))).

Definition ensureTenant (tenant cluster : string) (f : File) : File :=
  if mhas tenant (fTenants f) then f else f |> set_Tenants (<[tenant := mkTenant cluster]> <$> fTenants f).

Definition Adopt (tenant bucket cluster backend : string) (now : Z) (f : File) : result dirErr File :=
  let k := Key tenant bucket in
  if mhas k (fPlacements f) then Err ErrExists
  else Ok (ensureMaps f |> ensureTenant tenant cluster |> put_placement k (activePlacement cluster backend now)).

(** The legs of a spread bucket by cluster, and their ids in order; [None] when a cluster is named twice. *)
Fixpoint legsByCluster (legs : list Leg) (byID : gmap string Leg) (ids : list string) : option (gmap string Leg * list string) :=
  match legs with
  | [] => Some (byID, ids)
  | l :: legs => if bool_decide (is_Some (byID !! legCluster l)) then None
                 else legsByCluster legs (<[legCluster l := l]> byID) (ids ++ [legCluster l])
  end.

Definition CreateSpread (tenant bucket : string) (legs : list Leg) (now : Z) (f : File) : result dirErr File :=
  let k := Key tenant bucket in
  if mhas k (fPlacements f) then Err ErrExists
  else if (length legs <? 2)%nat || (MaxLegs <? length legs)%nat then Err ErrConflict
  else match legsByCluster legs ∅ [], legs with
       | Some (byID, ids), l :: _ =>
           match EvenOwners ids with
           | Some owners =>
               Ok (ensureMaps f |> ensureTenant tenant (legCluster l)
                     |> put_placement k (zeroPlacement |> set_State StateActive |> set_Legs (Some byID)
                          |> set_Owners (Some owners) |> set_KeyHash RampHash |> set_Created (truncate_ms now)))
           | None => Err ErrConflict
           end
       | _, _ => Err ErrConflict
       end.

Definition SetTarget (tenant bucket cluster backend : string) (f : File) : result dirErr File :=
  let k := Key tenant bucket in
  match lookup_placement f k with
  | None => Err ErrNotFound
  | Some p =>
      if negb (bool_decide (pState p = StateActive)) then Err ErrConflict
      else if Spread p then Err ErrConflict
      else if negb (bool_decide (pTarget p = "")) && negb (bool_decide (pTarget p = cluster)) then Err ErrConflict
      else Ok (f |> put_placement k (clone p |> set_Target cluster
                     |> set_Names (Some (<[cluster := backend]> (default ∅ (pNames p))))))
  end.

Definition ClearTarget (tenant bucket : string) (f : File) : result dirErr File :=
  let k := Key tenant bucket in
  match lookup_placement f k with
  | None => Err ErrNotFound
  | Some p =>
      if negb (bool_decide (pState p = StateActive)) then Err ErrConflict
      else if Spread p then
        let idle := IdleLegs p in
        if (length idle =? 0)%nat then Err ErrConflict
        else Ok (f |> put_placement k (settle (clone p |> set_Legs (foldl (fun m id => mdelete id m) (pLegs p) idle))))
      else if bool_decide (pTarget p = "") then Err ErrConflict
      else
        let np := clone p in
        let np := if bool_decide (pTarget np = pCold np) then np else np |> set_Names (mdelete (pTarget np) (pNames np)) in
        Ok (f |> put_placement k (np |> set_Target ""))
  end.

Definition Carve (tenant bucket prefix : string) (f : File) : result dirErr File :=
  let k := Key tenant bucket in
  match lookup_placement f k with
  | None => Err ErrNotFound
  | Some p => match carve p prefix with Err e => Err (ErrRefused e) | Ok np => Ok (f |> put_placement k np) end
  end.

Definition Merge (tenant bucket prefix : string) (f : File) : result dirErr File :=
  let k := Key tenant bucket in
  match lookup_placement f k with
  | None => Err ErrNotFound
  | Some p => match merge p prefix with Err e => Err (ErrRefused e) | Ok np => Ok (f |> put_placement k np) end
  end.

(** ** Who uses a backend bucket *)

Definition uses_bucket (cluster name : string) (p : Placement) : bool :=
  bool_decide (mlookup cluster (pNames p) = Some name) ||
  existsb (fun id => let l := mget zeroLeg id (pLegs p) in
                     bool_decide (legCluster l = cluster) && bool_decide (legBucket l = name)) (msortedKeys (pLegs p)).

(** The code ranges over a map, so which of several users it returns is not specified; placements
    never share a bucket in a valid file, and the model takes the first in key order. *)
Definition BucketUser (f : File) (cluster name except : string) : string :=
  if bool_decide (name = "") then ""
  else default "" (List.find (fun k => negb (bool_decide (k = except)) && uses_bucket cluster name (mget zeroPlacement k (fPlacements f)))
                    (msortedKeys (fPlacements f))).
