(* ===== verification/Admission.v ===== *)
(** * Admission gates (internal/admission/admission.go)

    Every request that can change a placement's backend buckets, or that depends on a moving
    placement's source, takes a token from the placement's gate and gives it back when the backend's
    outcome is known.  A drain barrier closes the gate.  The gates are the state of one process;
    each operation on one gate is one critical section, so a run of the process is a sequence of
    the steps of [gstep], with the tokens that are out as ghost state. *)

From S2P Require Import Prelude Float64 HashRange Config Placement S3Names Directory.

(** ** Data *)

Inductive Kind : Type := Mutations | SourceKind.

#[export] Instance Kind_eq_dec : EqDecision Kind.
Proof. solve_decision. Defined.

Definition Kind_String (k : Kind) : string := match k with SourceKind => BarrierSource | Mutations => BarrierMutations end.

Definition KindOf (kind : string) : option Kind :=
  if bool_decide (kind = BarrierMutations) then Some Mutations
  else if bool_decide (kind = BarrierSource) then Some SourceKind
  else None.

Inductive Outcome : Type := Definitive | Uncertain_.

Definition Superseded : string := "(superseded)".

(** A Go array indexed by kind. *)
Record per (A : Type) : Type := mkPer { onMutations : A; onSource : A }.
Arguments mkPer {A} _ _.
Arguments onMutations {A} _.
Arguments onSource {A} _.

Definition at_kind {A} (k : Kind) (x : per A) : A := match k with Mutations => onMutations x | SourceKind => onSource x end.
Definition put_kind {A} (k : Kind) (a : A) (x : per A) : per A :=
  match k with Mutations => mkPer a (onSource x) | SourceKind => mkPer (onMutations x) a end.

Lemma at_put_eq {A} k (a : A) x : at_kind k (put_kind k a x) = a.
Proof. by destruct k. Qed.
Lemma at_put_ne {A} k k' (a : A) x : k <> k' -> at_kind k' (put_kind k a x) = at_kind k' x.
Proof. by destruct k, k'. Qed.

Definition Closed : Type := per string.
Definition open_gates : Closed := mkPer "" "".
Notation Closures := (gmap string Closed).

Record gate : Type := mkGate { gClosed : Closed; gFrom : Z; gInflight : per Z; gUncertain : per Z }.
Definition new_gate : gate := mkGate open_gates 0 (mkPer 0%Z 0%Z) (mkPer 0%Z 0%Z).

(** [Gates]: the gates by placement key, and the outcomes never learned. *)
Record Gates : Type := mkGates { gtMap : gmap string gate; gtUncertain : Z }.
Definition New : Gates := mkGates ∅ 0.

(** A token names its gate and kind; the zero token is [None]. *)
Definition Token : Type := option (string * Kind).

(** ** Operations *)

(** [Gates.gate]: the gate of a key, made on first use. *)
Definition gate_of (key : string) (g : Gates) : gate := default new_gate (gtMap g !! key).
Definition put_gate (key : string) (gt : gate) (g : Gates) : Gates := mkGates (<[key := gt]> (gtMap g)) (gtUncertain g).

(** [Enter]: the token, or the barrier that refuses.  [None] for [g] is a nil [*Gates]. *)
Definition Enter (g : option Gates) (key : string) (kind : Kind) (version : Z) : option Gates * result string Token :=
  match g with
  | None => (None, Ok None)
  | Some g =>
      let gt := gate_of key g in
      let b := at_kind kind (gClosed gt) in
      if negb (bool_decide (b = "")) then (Some (put_gate key gt g), Err b)
      else if (version <? gFrom gt)%Z then (Some (put_gate key gt g), Err Superseded)
      else (Some (put_gate key (mkGate (gClosed gt) (gFrom gt) (put_kind kind (at_kind kind (gInflight gt) + 1)%Z (gInflight gt)) (gUncertain gt)) g),
            Ok (Some (key, kind)))
  end.

(** [Token.Release] on the process's gates. *)
Definition Release (t : Token) (o : Outcome) (g : Gates) : Gates :=
  match t with
  | None => g
  | Some (key, kind) =>
      let gt := gate_of key g in
      let infl := put_kind kind (at_kind kind (gInflight gt) - 1)%Z (gInflight gt) in
      match o with
      | Definitive => put_gate key (mkGate (gClosed gt) (gFrom gt) infl (gUncertain gt)) g
      | Uncertain_ =>
          let g := put_gate key (mkGate (gClosed gt) (gFrom gt) infl
                     (put_kind kind (at_kind kind (gUncertain gt) + 1)%Z (gUncertain gt))) g in
          mkGates (gtMap g) (gtUncertain g + 1)
      end
  end.

(** [gate.set]: close a kind with a barrier, or open it ("") at a version. *)
Definition set_gate (kind : Kind) (barrier : string) (version : Z) (gt : gate) : gate :=
  let from := if negb (bool_decide (at_kind kind (gClosed gt) = "")) && bool_decide (barrier = "") && (gFrom gt <? version)%Z
              then version else gFrom gt in
  mkGate (put_kind kind barrier (gClosed gt)) from (gInflight gt) (gUncertain gt).

Definition Close (key : string) (kind : Kind) (barrier : string) (g : Gates) : Gates :=
  let gt := gate_of key g in
  put_gate key (mkGate (put_kind kind barrier (gClosed gt)) (gFrom gt) (gInflight gt) (gUncertain gt)) g.

Definition Open_ (key : string) (kind : Kind) (version : Z) (g : Gates) : Gates :=
  match gtMap g !! key with
  | Some gt => put_gate key (set_gate kind "" version gt) g
  | None => g
  end.

(** What [Apply] does to one listed gate, and to one that is not listed. *)
Definition apply_listed (c : Closed) (version : Z) (sticky : bool) (gt : gate) : gate :=
  foldl (fun gt k => if negb (bool_decide (at_kind k c = "")) || negb sticky then set_gate k (at_kind k c) version gt else gt)
    gt [Mutations; SourceKind].
Definition apply_unlisted (version : Z) (gt : gate) : gate :=
  foldl (fun gt k => set_gate k "" version gt) gt [Mutations; SourceKind].

Definition Apply_closures (closures : Closures) (version : Z) (sticky : bool) (g : Gates) : Gates :=
  let g := foldl (fun g key => put_gate key (apply_listed (default open_gates (closures !! key)) version sticky (gate_of key g)) g)
             g (sortedKeys closures) in
  if sticky then g
  else mkGates (map_imap (fun key gt => Some (if bool_decide (is_Some (closures !! key)) then gt else apply_unlisted version gt)) (gtMap g))
         (gtUncertain g).

(** [State] of one placement's gates; a gate never made is open and idle. *)
Definition State_ (g : Gates) (key : string) : gate := gate_of key g.
Definition Uncertain (g : Gates) : Z := gtUncertain g.
Definition Inflight (g : Gates) : Z :=
  foldr (fun gt n => onMutations (gInflight gt) + onSource (gInflight gt) + n)%Z 0%Z (map_to_list (gtMap g)).*2.

(** ** What a directory's barriers close *)

(** [PlacementClusters]: every cluster the placement has a bucket on, once each.  The code ranges over
    two maps, so the order past the roles is not specified; the model takes the keys in order. *)
Definition add_name (out : list string) (name : string) : list string :=
  if bool_decide (name = "") then out else if bool_decide (name ∈ out) then out else out ++ [name].
Definition PlacementClusters (p : Placement) : list string :=
  foldl add_name []
    (List.map (ClusterOf p) [pPrimary p; pSource p; pTarget p; pCold p] ++
     List.map (ClusterOf p) (msortedKeys (pNames p)) ++
     List.map (fun id => legCluster (mget zeroLeg id (pLegs p))) (msortedKeys (pLegs p))).

Record derivation : Type := mkDerivation {
  dvClosures : Closures;
  dvPlacements : gmap string (list string);
  dvOwn : list (string * Barrier * Kind);
  dvClusters : list (string * Barrier);
}.

Definition append_to (id key : string) (m : gmap string (list string)) : gmap string (list string) :=
  <[id := default [] (m !! id) ++ [key]]> m.

(** The clusters that carry a barrier, with it. *)
Definition cluster_barriers (f : File) : list (string * Barrier) :=
  omap (fun name => b ← (mlookup name (fClusters f)) ≫= cBarrier; Some (name, b)) (msortedKeys (fClusters f)).

Definition barrier_of (clusters : list (string * Barrier)) (name : string) : option string :=
  snd <$> List.find (fun c => bool_decide (c.1 = name)) (List.map (fun c => (c.1, bID c.2)) clusters).

(** One cluster of a placement, when it carries a barrier. *)
Definition derive_cluster (clusters : list (string * Barrier)) (key : string) (dv : derivation) (name : string) : derivation :=
  match barrier_of clusters name with
  | None => dv
  | Some id =>
      let c := default open_gates (dvClosures dv !! key) in
      let c := if bool_decide (onMutations c = "") then put_kind Mutations id c else c in
      mkDerivation (<[key := c]> (dvClosures dv)) (append_to id key (dvPlacements dv)) (dvOwn dv) (dvClusters dv)
  end.

(** The barrier a placement carries itself. *)
Definition derive_own (key : string) (p : Placement) (dv : derivation) : derivation :=
  match pBarrier p with
  | None => dv
  | Some b =>
      match KindOf (bKind b) with
      | None => dv
      | Some k => mkDerivation (<[key := put_kind k (bID b) (default open_gates (dvClosures dv !! key))]> (dvClosures dv))
                    (append_to (bID b) key (dvPlacements dv)) (dvOwn dv ++ [(key, b, k)]) (dvClusters dv)
      end
  end.

Definition derive_placement (f : File) (dv : derivation) (key : string) : derivation :=
  let p := mget zeroPlacement key (fPlacements f) in
  let dv := derive_own key p dv in
  if bool_decide (dvClusters dv = []) then dv
  else foldl (derive_cluster (dvClusters dv) key) dv (PlacementClusters p).

Definition derive (f : File) : derivation :=
  foldl (derive_placement f) (mkDerivation ∅ ∅ [] (cluster_barriers f)) (msortedKeys (fPlacements f)).

Definition Barriers (f : File) : Closures * gmap string (list string) := (dvClosures (derive f), dvPlacements (derive f)).

(** ** Acknowledgements *)

Record Ack : Type := mkAck { akID : string; akScope : string; akGeneration : Z; akKind : string; akClosed : bool; akInflight : Z; akUncertain : Z }.

Definition own_ack (f : File) (g : Gates) (ob : string * Barrier * Kind) : Ack :=
  let '(name, b, kind) := ob in
  let st := State_ g name in
  mkAck (bID b) (PlacementResource name) (Generation f (PlacementResource name)) (bKind b)
    (bool_decide (at_kind kind (gClosed st) = bID b)) (at_kind kind (gInflight st)) (at_kind kind (gUncertain st)).

Definition cluster_ack (f : File) (g : Gates) (placements : gmap string (list string)) (cb : string * Barrier) : Ack :=
  let '(name, b) := cb in
  let res := ClusterResource name in
  foldl (fun a key =>
      let st := State_ g key in
      mkAck (akID a) (akScope a) (akGeneration a) (akKind a) (akClosed a && negb (bool_decide (onMutations (gClosed st) = "")))
        (akInflight a + onMutations (gInflight st)) (akUncertain a + onMutations (gUncertain st)))
    (mkAck (bID b) res (Generation f res) (bKind b) true 0 0) (default [] (placements !! bID b)).

Definition ack_le (a b : Ack) : Prop := String.le (akScope a) (akScope b).

#[export] Instance ack_le_dec : RelDecision ack_le.
Proof. intros a b. unfold ack_le. apply _. Defined.

Definition Acks (g : Gates) (f : File) : list Ack :=
  let dv := derive f in
  merge_sort ack_le (List.map (own_ack f g) (dvOwn dv) ++ List.map (cluster_ack f g (dvPlacements dv)) (dvClusters dv)).

(** ** Runs of the gates

    The state of a process: its gates, and as ghost state the tokens that are out, each with the
    directory version its request routes by. *)

Definition held : Type := string * Kind * Z.

Record astate : Type := mkA { aGates : Gates; aHeld : list held }.

(** One critical section.  The label says which gate it is on and at which version it may reopen. *)
Inductive gstep : astate -> string * option Z -> astate -> Prop :=
| gs_enter s key kind v g' t :
    Enter (Some (aGates s)) key kind v = (Some g', Ok t) -> gstep s (key, None) (mkA g' ((key, kind, v) :: aHeld s))
| gs_refuse s key kind v g' b :
    Enter (Some (aGates s)) key kind v = (Some g', Err b) -> gstep s (key, None) (mkA g' (aHeld s))
| gs_release s key kind v o ts :
    aHeld s ≡ₚ (key, kind, v) :: ts -> gstep s (key, None) (mkA (Release (Some (key, kind)) o (aGates s)) ts)
| gs_close s key kind b :
    b <> "" -> gstep s (key, None) (mkA (Close key kind b (aGates s)) (aHeld s))
| gs_open s key kind v :
    gstep s (key, Some v) (mkA (Open_ key kind v (aGates s)) (aHeld s))
| gs_listed s key c v sticky :
    gstep s (key, Some v) (mkA (put_gate key (apply_listed c v sticky (gate_of key (aGates s))) (aGates s)) (aHeld s))
| gs_unlisted s key v :
    gstep s (key, Some v) (mkA (put_gate key (apply_unlisted v (gate_of key (aGates s))) (aGates s)) (aHeld s)).

Inductive gsteps : astate -> list (string * option Z) -> astate -> Prop :=
| gss_nil s : gsteps s [] s
| gss_cons s l s' ls s'' : gstep s l s' -> gsteps s' ls s'' -> gsteps s (l :: ls) s''.

(** The gate of a key after an update of another, or of its own. *)
Lemma gate_of_put key gt g : gate_of key (put_gate key gt g) = gt.
Proof. unfold gate_of, put_gate. simpl. by rewrite lookup_insert_eq. Qed.
Lemma gate_of_put_ne key key' gt g : key <> key' -> gate_of key' (put_gate key gt g) = gate_of key' g.
Proof. intros. unfold gate_of, put_gate. simpl. by rewrite lookup_insert_ne. Qed.

(** How many tokens of a kind are out on a key. *)
Definition is_held (key : string) (kind : Kind) (t : held) : bool := bool_decide (t.1 = (key, kind)).
Definition out (key : string) (kind : Kind) (ts : list held) : Z := Z.of_nat (length (List.filter (is_held key kind) ts)).

Definition counted (s : astate) : Prop :=
  forall key kind, at_kind kind (gInflight (gate_of key (aGates s))) = out key kind (aHeld s).

Lemma out_cons key kind t ts : out key kind (t :: ts) = ((if is_held key kind t then 1 else 0) + out key kind ts)%Z.
Proof. unfold out. simpl. destruct (is_held key kind t); simpl; lia. Qed.

Lemma out_Permutation key kind ts ts' : ts ≡ₚ ts' -> out key kind ts = out key kind ts'.
Proof.
  induction 1 as [|t ts ts' _ IH|t t' ts|ts ts' ts'' _ IH _ IH']; [done|by rewrite !out_cons, IH|rewrite !out_cons; lia|congruence].
Qed.

Lemma out_zero key kind ts t : out key kind ts = 0%Z -> t ∈ ts -> t.1 <> (key, kind).
Proof.
  intros H0 Hin E. unfold out in H0. assert (t ∈ List.filter (is_held key kind) ts) as Hf.
  { apply list_elem_of_In, filter_In. split; [by apply list_elem_of_In|]. unfold is_held. by apply bool_decide_eq_true. }
  destruct (List.filter _ _); [by apply elem_of_nil in Hf|simpl in H0; lia].
Qed.

(** Setting a gate leaves its counts alone. *)
Lemma set_gate_inflight kind b v gt : gInflight (set_gate kind b v gt) = gInflight gt.
Proof. done. Qed.
Lemma apply_listed_inflight c v sticky gt : gInflight (apply_listed c v sticky gt) = gInflight gt.
Proof. unfold apply_listed. simpl. by repeat case_match. Qed.
Lemma apply_unlisted_inflight v gt : gInflight (apply_unlisted v gt) = gInflight gt.
Proof. done. Qed.

Lemma put_same_counts key gt g ts : gInflight gt = gInflight (gate_of key g) -> counted (mkA g ts) -> counted (mkA (put_gate key gt g) ts).
Proof.
  intros Hi Hc key' kind. simpl. destruct (decide (key = key')) as [<-|Hne].
  - rewrite gate_of_put, Hi. apply Hc.
  - rewrite gate_of_put_ne by done. apply Hc.
Qed.

(** A count moved by [n] on one gate and kind, with the tokens moved alike. *)
Lemma put_count key kind n gt g ts ts' :
  gInflight gt = put_kind kind (at_kind kind (gInflight (gate_of key g)) + n)%Z (gInflight (gate_of key g)) ->
  (forall key' kind', out key' kind' ts' = (out key' kind' ts + if decide ((key', kind') = (key, kind)) then n else 0)%Z) ->
  counted (mkA g ts) -> counted (mkA (put_gate key gt g) ts').
Proof.
  intros Hi Hout Hc key' kind'. simpl. rewrite Hout. specialize (Hc key' kind') as Hk. simpl in Hk. rewrite <- Hk.
  destruct (decide (key = key')) as [<-|Hne].
  - rewrite gate_of_put, Hi. destruct (decide (kind = kind')) as [<-|Hne].
    + rewrite at_put_eq, decide_True by done. lia.
    + rewrite at_put_ne, decide_False by congruence. lia.
  - rewrite gate_of_put_ne, decide_False by congruence. lia.
Qed.

Lemma gstep_counted s l s' : gstep s l s' -> counted s -> counted s'.
Proof.
  destruct s as [g ts]. intros Hs Hc. inversion Hs; subst; simpl in *.
  - unfold Enter in *. repeat case_match; simplify_eq. eapply put_count; [reflexivity| |done].
    intros key' kind'. rewrite out_cons. unfold is_held. simpl. destruct (decide ((key', kind') = (key, kind))) as [E|E].
    + rewrite bool_decide_true by done. lia.
    + rewrite bool_decide_false by done. lia.
  - unfold Enter in *. repeat case_match; simplify_eq; by apply put_same_counts.
  - rename select (ts ≡ₚ _) into Hp. assert (forall key' kind', out key' kind' ts0 = (out key' kind' ts + if decide ((key', kind') = (key, kind)) then -1 else 0)%Z) as Hout.
    { intros key' kind'. rewrite (out_Permutation _ _ _ _ Hp), out_cons. unfold is_held. simpl. destruct (decide ((key', kind') = (key, kind))) as [E|E].
      - rewrite bool_decide_true by done. lia.
      - rewrite bool_decide_false by done. lia. }
    destruct o.
    + eapply put_count; [simpl; by rewrite Z.add_opp_r|done|done].
    + change (counted (mkA (put_gate key (mkGate (gClosed (gate_of key g)) (gFrom (gate_of key g))
        (put_kind kind (at_kind kind (gInflight (gate_of key g)) - 1)%Z (gInflight (gate_of key g)))
        (put_kind kind (at_kind kind (gUncertain (gate_of key g)) + 1)%Z (gUncertain (gate_of key g)))) g) ts0)).
      eapply put_count; [simpl; by rewrite Z.add_opp_r|done|done].
  - by apply put_same_counts.
  - unfold Open_. destruct (gtMap g !! key) as [gt|] eqn:E; [|done]. apply put_same_counts; [|done]. simpl. unfold gate_of. by rewrite E.
  - by apply put_same_counts; [apply apply_listed_inflight|].
  - by apply put_same_counts.
Qed.

Lemma gsteps_counted s ls s' : gsteps s ls s' -> counted s -> counted s'.
Proof. induction 1; eauto using gstep_counted. Qed.

(** ** A drained gate separates versions *)

(** The gate is closed to a kind and no token of it is out: what a drained barrier means. *)
Definition drained (s : astate) (key : string) (kind : Kind) : Prop :=
  at_kind kind (gClosed (gate_of key (aGates s))) <> "" /\ at_kind kind (gInflight (gate_of key (aGates s))) = 0%Z.

(** The gate hands out no token of the kind to a request older than [v]. *)
Definition gate_from (kind : Kind) (v : Z) (gt : gate) : Prop := at_kind kind (gClosed gt) <> "" \/ (v <= gFrom gt)%Z.

Definition fenced_from (key : string) (kind : Kind) (v : Z) (s : astate) : Prop :=
  (forall t, t ∈ aHeld s -> t.1 = (key, kind) -> (v <= t.2)%Z) /\ gate_from kind v (gate_of key (aGates s)).

(** Every reopening of the key in the run is at [v] or later. *)
Definition reopens_from (key : string) (v : Z) (l : string * option Z) : Prop := l.1 = key -> forall w, l.2 = Some w -> (v <= w)%Z.

Lemma set_gate_from kind v kind' b w gt : (v <= w)%Z -> gate_from kind v gt -> gate_from kind v (set_gate kind' b w gt).
Proof.
  intros Hw Hg. unfold gate_from, set_gate in *. simpl. destruct (decide (kind' = kind)) as [->|Hne].
  - rewrite at_put_eq. destruct (decide (b = "")) as [->|]; [|by left]. right. rewrite (bool_decide_eq_true_2 ("" = "")), andb_true_r by done.
    destruct (bool_decide (at_kind kind (gClosed gt) = "")) eqn:E; simpl; [apply bool_decide_eq_true in E; tauto|].
    destruct (gFrom gt <? w)%Z eqn:El; lia.
  - rewrite at_put_ne by done. destruct Hg as [?|?]; [by left|]. right. case_match; [|done]. lia.
Qed.

Lemma apply_listed_from kind v c w sticky gt : (v <= w)%Z -> gate_from kind v gt -> gate_from kind v (apply_listed c w sticky gt).
Proof. intros Hw Hg. unfold apply_listed. simpl. repeat case_match; auto using set_gate_from. Qed.

Lemma apply_unlisted_from kind v w gt : (v <= w)%Z -> gate_from kind v gt -> gate_from kind v (apply_unlisted w gt).
Proof. intros Hw Hg. unfold apply_unlisted. simpl. auto using set_gate_from. Qed.

(** An update of one gate that keeps it from older requests, with tokens that were out or are newer. *)
Lemma fenced_put key kind v key' gt g ts ts' :
  (key' = key -> gate_from kind v (gate_of key g) -> gate_from kind v gt) ->
  (forall t, t ∈ ts' -> t ∈ ts \/ (t.1 = (key, kind) -> (v <= t.2)%Z)) ->
  fenced_from key kind v (mkA g ts) -> fenced_from key kind v (mkA (put_gate key' gt g) ts').
Proof.
  intros Hgt Hts [Ht Hg]. split; simpl in *.
  - intros t Hin. destruct (Hts t Hin); auto.
  - destruct (decide (key' = key)) as [->|Hne]; [rewrite gate_of_put; auto|by rewrite gate_of_put_ne].
Qed.

Lemma gstep_fenced key kind v s l s' : gstep s l s' -> reopens_from key v l -> fenced_from key kind v s -> fenced_from key kind v s'.
Proof.
  destruct s as [g ts]. intros Hs Hl Hf. inversion Hs; subst; simpl in *; unfold reopens_from in Hl; simpl in Hl.
  - unfold Enter in *. repeat case_match; simplify_eq. eapply fenced_put; [by intros ->| |exact Hf].
    intros t [->|Hin]%elem_of_cons; [right; simpl|by left].
    intros [= -> ->]. destruct Hf as [_ [Hc|Hfrom]]; simpl in *.
    + rename select (negb _ = false) into E. apply negb_false_iff, bool_decide_eq_true in E. done.
    + lia.
  - unfold Enter in *. repeat case_match; simplify_eq; (eapply fenced_put; [by intros ->|by left|exact Hf]).
  - rename select (ts ≡ₚ _) into Hp. assert (forall t, t ∈ ts0 -> t ∈ ts \/ (t.1 = (key, kind) -> (v <= t.2)%Z)) as Hsub.
    { intros t Hin. left. rewrite Hp. by right. }
    destruct o; [by eapply fenced_put; [by intros ->| |exact Hf]|].
    refine (fenced_put key kind v key0 (mkGate (gClosed (gate_of key0 g)) _ _ _) g ts ts0 _ Hsub Hf). by intros ->.
  - eapply fenced_put; [|by left|exact Hf]. intros ->. unfold gate_from. simpl.
    destruct (decide (kind0 = kind)) as [->|Hne]; [rewrite at_put_eq; by left|by rewrite at_put_ne].
  - unfold Open_. destruct (gtMap g !! key0) as [gt|] eqn:E; [|done]. eapply fenced_put; [|by left|exact Hf].
    intros -> Hg. apply set_gate_from; [by apply Hl|]. unfold gate_of in Hg. by rewrite E in Hg.
  - eapply fenced_put; [|by left|exact Hf]. intros -> Hg. apply apply_listed_from; [by apply Hl|done].
  - eapply fenced_put; [|by left|exact Hf]. intros -> Hg. apply apply_unlisted_from; [by apply Hl|done].
Qed.

Lemma gsteps_fenced key kind v s ls s' : gsteps s ls s' -> Forall (reopens_from key v) ls -> fenced_from key kind v s -> fenced_from key kind v s'.
Proof. induction 1; [done|]. intros [Hl Hls]%Forall_cons. eauto using gstep_fenced. Qed.

Lemma gsteps_app s ls s1 ls' s' : gsteps s ls s1 -> gsteps s1 ls' s' -> gsteps s (ls ++ ls') s'.
Proof. induction 1; [done|]. simpl. eauto using gss_cons. Qed.

Lemma counted_new : counted (mkA New []).
Proof. intros key kind. unfold gate_of. simpl. rewrite lookup_empty. by destruct kind. Qed.

(** Once a placement's gate is closed with no token of a kind out, then whatever happens next,
    as long as the gate is only reopened at directory version [v] or later, no request that routes
    by an older version ever holds a token of that kind: neither one admitted before the barrier
    nor one that took its route before the barrier and reached the gate after it. *)
Theorem barrier_separates s0 ls0 ls s key kind v
    (Hreach : gsteps (mkA New []) ls0 s0) (Hd : drained s0 key kind)
    (Hls : Forall (reopens_from key v) ls) (Hs : gsteps s0 ls s) :
  forall t, t ∈ aHeld s -> t.1 = (key, kind) -> (v <= t.2)%Z.
Proof.
  pose proof (gsteps_counted _ _ _ Hreach counted_new) as Hc. destruct Hd as [Hcl Hin].
  apply (gsteps_fenced key kind v) in Hs as [Ht _]; [done..|]. split; [|by left]. intros t Hin' E.
  exfalso. eapply out_zero; [rewrite <- (Hc key kind); exact Hin|exact Hin'|exact E].
Qed.

(** On every run, the in-flight count a gate reports for a kind is the number of its tokens that
    are out, so it is never negative and is zero exactly when none is. *)
Theorem inflight_counts ls s key kind (Hreach : gsteps (mkA New []) ls s) :
  at_kind kind (gInflight (gate_of key (aGates s))) = out key kind (aHeld s) /\
  (at_kind kind (gInflight (gate_of key (aGates s))) = 0%Z <-> forall t, t ∈ aHeld s -> t.1 <> (key, kind)).
Proof.
  pose proof (gsteps_counted _ _ _ Hreach counted_new key kind) as Hc. split; [done|]. rewrite Hc. split; [intros H0 t; by apply out_zero|].
  intros Hall. unfold out. replace (List.filter (is_held key kind) (aHeld s)) with (@nil held); [done|]. symmetry.
  destruct (List.filter (is_held key kind) (aHeld s)) as [|t ts] eqn:E; [done|]. exfalso.
  assert (In t (List.filter (is_held key kind) (aHeld s))) as [Hin Ht]%filter_In by (rewrite E; by left).
  apply (Hall t); [by apply list_elem_of_In|]. unfold is_held in Ht. by apply bool_decide_eq_true in Ht.
Qed.

(** ** Apply, gate by gate *)

(** A loop that updates each listed key's gate once. *)
Lemma foldl_gates (f : string -> gate -> gate) ks g key : NoDup ks ->
  gate_of key (foldl (fun g key => put_gate key (f key (gate_of key g)) g) g ks) = if decide (key ∈ ks) then f key (gate_of key g) else gate_of key g.
Proof.
  revert g. induction ks as [|k ks IH]; intros g Hnd; [done|]. apply NoDup_cons in Hnd as [Hni Hnd]. simpl. rewrite IH by done.
  destruct (decide (key = k)) as [->|Hne].
  - rewrite decide_False by done. rewrite gate_of_put. by rewrite decide_True by left.
  - rewrite gate_of_put_ne by done. destruct (decide (key ∈ ks)); [rewrite decide_True by (by right)|rewrite decide_False by (intros [?|?]%elem_of_cons; done)]; done.
Qed.

Lemma Apply_gate closures v sticky g key :
  gate_of key (Apply_closures closures v sticky g) =
    match closures !! key with
    | Some c => apply_listed c v sticky (gate_of key g)
    | None => if sticky then gate_of key g else apply_unlisted v (gate_of key g)
    end.
Proof.
  unfold Apply_closures. set (g1 := foldl _ _ _).
  assert (gate_of key g1 = match closures !! key with Some c => apply_listed c v sticky (gate_of key g) | None => gate_of key g end) as Hg1.
  { unfold g1. rewrite (foldl_gates (fun key => apply_listed (default open_gates (closures !! key)) v sticky)) by apply sortedKeys_NoDup.
    destruct (closures !! key) as [c|] eqn:E.
    - rewrite decide_True by (apply elem_of_sortedKeys; by exists c). done.
    - rewrite decide_False; [done|]. intros [c Hc]%elem_of_sortedKeys. congruence. }
  destruct sticky; [done|]. unfold gate_of at 1. simpl. rewrite map_lookup_imap. unfold gate_of in Hg1 at 1.
  destruct (gtMap g1 !! key) as [gt|]; simpl in *.
  - destruct (closures !! key) as [c|]; simpl; [done|]. by rewrite Hg1.
  - destruct (closures !! key) as [c|]; [done|]. by rewrite <- Hg1.
Qed.

(** [Apply] is a run of critical sections, one per gate, all at its version: whatever runs between
    them is a run too. *)
Lemma foldl_gates_steps (f : string -> gate -> gate) v ks g ts :
  (forall key s, gstep s (key, Some v) (mkA (put_gate key (f key (gate_of key (aGates s))) (aGates s)) (aHeld s))) ->
  gsteps (mkA g ts) ((fun key => (key, Some v)) <$> ks) (mkA (foldl (fun g key => put_gate key (f key (gate_of key g)) g) g ks) ts).
Proof.
  intros Hf. revert g. induction ks as [|k ks IH]; intros g; [apply gss_nil|]. simpl. eapply gss_cons; [|apply IH]. apply (Hf k (mkA g ts)).
Qed.

(** The keys of the gates [Apply] opens because they are not listed. *)
Definition unlisted (closures : Closures) (g : Gates) : list string :=
  List.filter (fun key => negb (bool_decide (is_Some (closures !! key)))) (sortedKeys (gtMap g)).

Lemma foldl_gates_map (f : string -> gate -> gate) ks g key : NoDup ks ->
  gtMap (foldl (fun g key => put_gate key (f key (gate_of key g)) g) g ks) !! key =
    (if decide (key ∈ ks) then Some (f key (gate_of key g)) else gtMap g !! key) /\
  gtUncertain (foldl (fun g key => put_gate key (f key (gate_of key g)) g) g ks) = gtUncertain g.
Proof.
  revert g. induction ks as [|k ks IH]; intros g Hnd; [done|]. apply NoDup_cons in Hnd as [Hni Hnd]. simpl.
  destruct (IH (put_gate k (f k (gate_of k g)) g) Hnd) as [-> ->]. split; [|done]. simpl.
  destruct (decide (key = k)) as [->|Hne].
  - rewrite decide_False by done. rewrite lookup_insert_eq. by rewrite decide_True by left.
  - rewrite gate_of_put_ne, lookup_insert_ne by done.
    destruct (decide (key ∈ ks)); [rewrite decide_True by (by right)|rewrite decide_False by (intros [?|?]%elem_of_cons; done)]; done.
Qed.

Lemma Apply_unlisted_eq closures v g :
  mkGates (map_imap (fun key gt => Some (if bool_decide (is_Some (closures !! key)) then gt else apply_unlisted v gt)) (gtMap g)) (gtUncertain g) =
  foldl (fun g key => put_gate key (apply_unlisted v (gate_of key g)) g) g (unlisted closures g).
Proof.
  assert (NoDup (unlisted closures g)) as Hnd by apply NoDup_ListNoDup, List.NoDup_filter, NoDup_ListNoDup, sortedKeys_NoDup.
  pose proof (fun key => foldl_gates_map (fun _ => apply_unlisted v) _ g key Hnd) as Hl. simpl in Hl.
  destruct (foldl _ g _) as [m u] eqn:E. simpl in Hl. f_equal; [|symmetry; apply (Hl "")].
  apply map_eq. intros key. rewrite map_lookup_imap. rewrite (proj1 (Hl key)). unfold unlisted.
  destruct (gtMap g !! key) as [gt|] eqn:Eg; simpl.
  - assert (key ∈ sortedKeys (gtMap g)) as Hk by (apply elem_of_sortedKeys; by exists gt).
    destruct (bool_decide (is_Some (closures !! key))) eqn:Ec.
    + rewrite decide_False; [done|]. intros [_ Hn]%list_elem_of_In%filter_In. by rewrite Ec in Hn.
    + rewrite decide_True; [unfold gate_of; by rewrite Eg|]. apply list_elem_of_In, filter_In. split; [by apply list_elem_of_In|by rewrite Ec].
  - rewrite decide_False; [done|]. intros [Hin _]%list_elem_of_In%filter_In. apply list_elem_of_In, elem_of_sortedKeys in Hin as [? Hs]. congruence.
Qed.

(** What closes a gate after [Apply]. *)
Lemma Apply_closed closures v sticky g key kind :
  let before := at_kind kind (gClosed (gate_of key g)) in
  let listed := at_kind kind (default open_gates (closures !! key)) in
  at_kind kind (gClosed (gate_of key (Apply_closures closures v sticky g))) = if bool_decide (listed = "") && sticky then before else listed.
Proof.
  simpl. rewrite Apply_gate. destruct (closures !! key) as [c|]; simpl; [|by destruct sticky, kind]. unfold apply_listed. simpl.
  destruct (bool_decide (onMutations c = "")) eqn:Em, (bool_decide (onSource c = "")) eqn:Es, sticky, kind; simpl; by rewrite ?Em, ?Es.
Qed.

(** An [Apply] at [v] keeps a gate from requests older than [v]. *)
Lemma Apply_from closures v sticky g key kind w : (w <= v)%Z ->
  gate_from kind w (gate_of key g) -> gate_from kind w (gate_of key (Apply_closures closures v sticky g)).
Proof.
  intros Hw Hg. rewrite Apply_gate. destruct (closures !! key); [by apply apply_listed_from|]. destruct sticky; [done|by apply apply_unlisted_from].
Qed.

Lemma Apply_steps closures v sticky g ts :
  exists ls, gsteps (mkA g ts) ls (mkA (Apply_closures closures v sticky g) ts) /\ Forall (fun l => l.2 = Some v) ls.
Proof.
  unfold Apply_closures. set (g1 := foldl _ _ _).
  assert (gsteps (mkA g ts) ((fun key => (key, Some v)) <$> sortedKeys closures) (mkA g1 ts)) as H1.
  { apply (foldl_gates_steps (fun key => apply_listed (default open_gates (closures !! key)) v sticky)). intros. apply gs_listed. }
  destruct sticky; [eexists; split; [exact H1|apply Forall_fmap, Forall_true; done]|].
  rewrite Apply_unlisted_eq. eexists. split.
  - eapply gsteps_app; [exact H1|]. apply (foldl_gates_steps (fun _ => apply_unlisted v)). intros. apply gs_unlisted.
  - apply Forall_app. split; apply Forall_fmap, Forall_true; done.
Qed.

(** [Apply] closes what the closures list and, unless sticky, opens every other gate at the
    version; sticky, it only closes.  It does so as a run of single-gate critical sections, so what
    holds of every run holds of an [Apply] interleaved with requests. *)
Theorem Apply_closures_correct closures v sticky g ts :
  (exists ls, gsteps (mkA g ts) ls (mkA (Apply_closures closures v sticky g) ts) /\ Forall (fun l => l.2 = Some v) ls) /\
  forall key kind,
    let before := at_kind kind (gClosed (gate_of key g)) in
    let listed := at_kind kind (default open_gates (closures !! key)) in
    at_kind kind (gClosed (gate_of key (Apply_closures closures v sticky g))) =
      if bool_decide (listed = "") && sticky then before else listed.
Proof. split; [apply Apply_steps|]. intros key kind. apply Apply_closed. Qed.

(** ** What derive derives *)

Section Derive.
Variable f : File.

Definition placement_at (key : string) : Placement := mget zeroPlacement key (fPlacements f).

(** The barrier [id] closes a gate of placement [key]: its own, or one of its clusters'. *)
Definition own_closes (key id : string) : Prop :=
  exists b k, pBarrier (placement_at key) = Some b /\ KindOf (bKind b) = Some k /\ bID b = id.
Definition cluster_closes (key id : string) : Prop :=
  exists name, name ∈ PlacementClusters (placement_at key) /\ barrier_of (cluster_barriers f) name = Some id.

Definition members (dv : derivation) (id : string) : list string := default [] (dvPlacements dv !! id).

Lemma append_to_members id id' key m : default [] (append_to id key m !! id') = default [] (m !! id') ++ if decide (id = id') then [key] else [].
Proof.
  unfold append_to. destruct (decide (id = id')) as [<-|]; [by rewrite lookup_insert_eq|]. rewrite lookup_insert_ne by done. by rewrite app_nil_r.
Qed.

Lemma derive_own_facts key p dv id :
  dvClusters (derive_own key p dv) = dvClusters dv /\
  (forall key', key <> key' -> dvClosures (derive_own key p dv) !! key' = dvClosures dv !! key') /\
  members (derive_own key p dv) id =
    members dv id ++ match pBarrier p with
                     | Some b => if bool_decide (is_Some (KindOf (bKind b))) && bool_decide (bID b = id) then [key] else []
                     | None => []
                     end.
Proof.
  unfold derive_own, members. destruct (pBarrier p) as [b|]; [|by rewrite app_nil_r].
  destruct (KindOf (bKind b)) as [k|]; simpl; [|by rewrite app_nil_r]. split; [done|]. split; [by intros; rewrite lookup_insert_ne|].
  rewrite append_to_members. f_equal. by repeat case_match; repeat case_decide; simplify_eq/=; rewrite ?bool_decide_true, ?bool_decide_false by done.
Qed.

(** The clusters' loop. *)
Lemma derive_clusters_facts cbs key names dv id :
  let dv' := foldl (derive_cluster cbs key) dv names in
  dvClusters dv' = dvClusters dv /\ dvOwn dv' = dvOwn dv /\
  (forall key', key <> key' -> dvClosures dv' !! key' = dvClosures dv !! key') /\
  (forall x, x ∈ members dv' id <-> x ∈ members dv id \/ (x = key /\ exists name, name ∈ names /\ barrier_of cbs name = Some id)).
Proof.
  revert dv. induction names as [|n names IH]; intros dv; simpl.
  { split_and!; try done. intros x. split; [by left|]. by intros [?|(_ & ? & ?%elem_of_nil & _)]. }
  specialize (IH (derive_cluster cbs key dv n)). simpl in IH. destruct IH as (-> & -> & Hcl & Hm).
  unfold derive_cluster at 1 2. destruct (barrier_of cbs n) as [i|] eqn:E; simpl.
  - split_and!; try done.
    + intros key' Hne. rewrite Hcl by done. unfold derive_cluster. rewrite E. simpl. by rewrite lookup_insert_ne.
    + intros x. rewrite Hm. unfold derive_cluster, members. rewrite E. simpl. rewrite append_to_members, elem_of_app.
      setoid_rewrite elem_of_cons. destruct (decide (i = id)) as [->|Hne].
      * rewrite list_elem_of_singleton. split; [intros [[?| ->]|(-> & name & ? & ?)]; eauto 8|].
        intros [?|(-> & name & [->|?] & ?)]; eauto 8.
      * rewrite elem_of_nil. split; [intros [[?|?]|(-> & name & ? & ?)]; [by left|done|eauto 8]|].
        intros [?|(-> & name & [->|?] & ?)]; eauto 8. congruence.
  - split_and!; try done.
    + intros key' Hne. rewrite Hcl by done. unfold derive_cluster. by rewrite E.
    + intros x. rewrite Hm. unfold derive_cluster. rewrite E. setoid_rewrite elem_of_cons.
      split; [intros [?|(-> & name & ? & ?)]; eauto 8|]. intros [?|(-> & name & [->|?] & ?)]; eauto 8. congruence.
Qed.

Definition closure_at (dv : derivation) (key : string) : Closed := default open_gates (dvClosures dv !! key).

Lemma derive_clusters_closure cbs key names dv :
  (forall name id, barrier_of cbs name = Some id -> id <> "") ->
  let c0 := closure_at dv key in
  let c1 := closure_at (foldl (derive_cluster cbs key) dv names) key in
  onSource c1 = onSource c0 /\ (onMutations c0 <> "" -> onMutations c1 = onMutations c0) /\
  (onMutations c1 = "" <-> onMutations c0 = "" /\ forall name, name ∈ names -> barrier_of cbs name = None).
Proof.
  intros Hne. simpl. revert dv. induction names as [|n names IH]; intros dv; simpl.
  { split_and!; try done. split; [|tauto]. intros ->. split; [done|]. by intros ? ?%elem_of_nil. }
  destruct (IH (derive_cluster cbs key dv n)) as (-> & Hkeep & ->). clear IH.
  assert (onSource (closure_at (derive_cluster cbs key dv n) key) = onSource (closure_at dv key) /\
          (onMutations (closure_at dv key) <> "" -> onMutations (closure_at (derive_cluster cbs key dv n) key) = onMutations (closure_at dv key)) /\
          (onMutations (closure_at (derive_cluster cbs key dv n) key) = "" <-> onMutations (closure_at dv key) = "" /\ barrier_of cbs n = None))
    as (Hs & Hm & Hi).
  { unfold derive_cluster, closure_at. destruct (barrier_of cbs n) as [id|] eqn:E; [|tauto]. specialize (Hne n id E). simpl.
    rewrite lookup_insert_eq. simpl. case_bool_decide as Ec; simpl; split_and!; try done; split; try done; by intros [? ?]. }
  split_and!; [done| |].
  - intros H0. rewrite Hkeep; rewrite Hm; done.
  - rewrite Hi. setoid_rewrite elem_of_cons. split; [intros [[??] ?]; split; [done|]; intros ? [->|?]; auto|].
    intros [? Hall]. split; [split; [done|apply Hall; by left]|]. intros. apply Hall. by right.
Qed.

Lemma derive_placement_facts dv k id : dvClusters dv = cluster_barriers f ->
  let dv' := derive_placement f dv k in
  dvClusters dv' = cluster_barriers f /\
  (forall key', k <> key' -> dvClosures dv' !! key' = dvClosures dv !! key') /\
  (forall x, x ∈ members dv' id <-> x ∈ members dv id \/ (x = k /\ (own_closes k id \/ cluster_closes k id))).
Proof.
  intros Hc. simpl. unfold derive_placement. fold (placement_at k).
  destruct (derive_own_facts k (placement_at k) dv id) as (Hoc & Ho & Hom).
  assert (forall x, x ∈ members (derive_own k (placement_at k) dv) id <-> x ∈ members dv id \/ (x = k /\ own_closes k id)) as Hmem.
  { intros x. rewrite Hom, elem_of_app. unfold own_closes. destruct (pBarrier (placement_at k)) as [b|].
    - destruct (KindOf (bKind b)) as [kd|] eqn:Ek; simpl.
      + clear Hom. case_bool_decide as E; [rewrite list_elem_of_singleton|rewrite elem_of_nil]; split; try tauto.
        * intros [?| ->]; [by left|right; split; [done|by exists b, kd]].
        * intros [?|(_ & b' & k' & [= <-] & _ & ?)]; [by left|done].
      + rewrite elem_of_nil. split; [tauto|]. intros [?|(_ & b' & k' & [= <-] & ? & _)]; [by left|congruence].
    - rewrite elem_of_nil. split; [tauto|]. intros [?|(_ & b' & k' & [=] & _)]. by left. }
  case_bool_decide as En.
  - rewrite Hoc, Hc in En. split_and!; [by rewrite Hoc|done|]. intros x. rewrite Hmem. unfold cluster_closes. rewrite En.
    split; [tauto|]. intros [?|(-> & [?|(name & _ & [=])])]; tauto.
  - destruct (derive_clusters_facts (dvClusters (derive_own k (placement_at k) dv)) k (PlacementClusters (placement_at k))
      (derive_own k (placement_at k) dv) id) as (H1 & _ & H2 & H3). rewrite Hoc, Hc in *. split_and!; [done| |].
    + intros key' Hne. rewrite H2, Ho; done.
    + intros x. rewrite H3, Hmem. unfold cluster_closes. tauto.
Qed.

(** The id of the barrier a placement carries for a kind, or "". *)
Definition own_id (key : string) (kind : Kind) : string :=
  match pBarrier (placement_at key) with
  | Some b => if bool_decide (KindOf (bKind b) = Some kind) then bID b else ""
  | None => ""
  end.

(** What closes a placement's gates: source-dependent work by its own barrier only; mutations by its
    own barrier first, else by the barrier of a cluster it has a bucket on. *)
Definition closure_ok (key : string) (c : Closed) : Prop :=
  onSource c = own_id key SourceKind /\
  (own_id key Mutations <> "" -> onMutations c = own_id key Mutations) /\
  (onMutations c = "" <-> own_id key Mutations = "" /\
     forall name, name ∈ PlacementClusters (placement_at key) -> barrier_of (cluster_barriers f) name = None).

(** Every cluster barrier has an id. *)
Definition named_barriers : Prop := forall name id, barrier_of (cluster_barriers f) name = Some id -> id <> "".

Lemma derive_own_closure key dv : dvClosures dv !! key = None ->
  closure_at (derive_own key (placement_at key) dv) key = mkPer (own_id key Mutations) (own_id key SourceKind).
Proof.
  intros Hn. unfold derive_own, closure_at, own_id. destruct (pBarrier (placement_at key)) as [b|]; [|by rewrite Hn].
  destruct (KindOf (bKind b)) as [[]|]; simpl; rewrite ?lookup_insert_eq, Hn; done.
Qed.

Lemma derive_placement_closure dv k : named_barriers -> dvClusters dv = cluster_barriers f -> dvClosures dv !! k = None ->
  closure_ok k (closure_at (derive_placement f dv k) k).
Proof.
  intros Hnb Hc Hn. unfold derive_placement. fold (placement_at k). pose proof (derive_own_closure k dv Hn) as Ho.
  destruct (derive_own_facts k (placement_at k) dv "") as (Hoc & _ & _). rewrite Hoc, Hc. case_bool_decide as En.
  - rewrite Ho. unfold closure_ok. rewrite En. simpl. split_and!; [done|done|]. split; [tauto|]. by intros [? _].
  - destruct (derive_clusters_closure (cluster_barriers f) k (PlacementClusters (placement_at k)) (derive_own k (placement_at k) dv) Hnb)
      as (Hs & Hm & Hi). rewrite Ho in *. simpl in *. split_and!; auto.
Qed.

Lemma derive_fold ks dv id : NoDup ks -> dvClusters dv = cluster_barriers f ->
  let dv' := foldl (derive_placement f) dv ks in
  dvClusters dv' = cluster_barriers f /\
  (forall key, key ∉ ks -> dvClosures dv' !! key = dvClosures dv !! key) /\
  (forall x, x ∈ members dv' id <-> x ∈ members dv id \/ (x ∈ ks /\ (own_closes x id \/ cluster_closes x id))) /\
  (forall key, named_barriers -> key ∈ ks -> dvClosures dv !! key = None -> closure_ok key (closure_at dv' key)).
Proof.
  revert dv. induction ks as [|k ks IH]; intros dv Hnd Hc; simpl.
  { split_and!; try done; [|by intros ? _ ?%elem_of_nil]. intros x. rewrite elem_of_nil. tauto. }
  apply NoDup_cons in Hnd as [Hni Hnd]. destruct (derive_placement_facts dv k id Hc) as (Hc1 & Hcl1 & Hm1).
  destruct (IH _ Hnd Hc1) as (Hc2 & Hcl2 & Hm2 & Hok). split_and!; [done| | |].
  - intros key Hni'. apply not_elem_of_cons in Hni' as [Hne Hni']. rewrite Hcl2, Hcl1; done.
  - intros x. rewrite Hm2, Hm1, elem_of_cons. naive_solver.
  - intros key Hnb [->|Hin]%elem_of_cons Hn.
    + unfold closure_at. rewrite Hcl2 by done. by apply derive_placement_closure.
    + apply Hok; [done..|]. rewrite Hcl1; [done|]. by intros ->.
Qed.

Lemma derive_facts id : 
  (forall x, x ∈ members (derive f) id <-> is_Some (lookup_placement f x) /\ (own_closes x id \/ cluster_closes x id)) /\
  (forall key, named_barriers -> is_Some (lookup_placement f key) -> closure_ok key (closure_at (derive f) key)).
Proof.
  assert (NoDup (msortedKeys (fPlacements f))) as Hnd by (destruct (fPlacements f); [apply sortedKeys_NoDup|constructor]).
  destruct (derive_fold _ (mkDerivation ∅ ∅ [] (cluster_barriers f)) id Hnd eq_refl) as (_ & _ & Hm & Hok). split.
  - intros x. unfold derive. rewrite Hm, elem_of_msortedKeys. unfold members. simpl. rewrite lookup_empty. simpl. rewrite elem_of_nil. tauto.
  - intros key Hnb Hk. apply Hok; [done|by apply elem_of_msortedKeys|done].
Qed.
End Derive.

(** what [Barriers] closes is what the directory says: a placement's source gate is closed by its
    own source barrier and nothing else; its mutation gate is open exactly when neither it nor any
    cluster it has a bucket on carries a mutation barrier, and its own barrier's id wins. *)
Theorem Barriers_correct f key (Hnb : named_barriers f) (Hk : is_Some (lookup_placement f key)) :
  closure_ok f key (default open_gates (fst (Barriers f) !! key)).
Proof. exact (proj2 (derive_facts f "") key Hnb Hk). Qed.

(** ** What an acknowledgement proves *)

Lemma derive_own_list f ks dv key b k : (key, b, k) ∈ dvOwn (foldl (derive_placement f) dv ks) ->
  (key, b, k) ∈ dvOwn dv \/ (pBarrier (placement_at f key) = Some b /\ KindOf (bKind b) = Some k).
Proof.
  revert dv. induction ks as [|k0 ks IH]; intros dv; simpl; [by left|]. intros [Hin|?]%IH; [|by right].
  assert ((key, b, k) ∈ dvOwn (derive_own k0 (placement_at f k0) dv)) as Ho.
  { unfold derive_placement in Hin. case_bool_decide; [done|].
    destruct (derive_clusters_facts (dvClusters (derive_own k0 (placement_at f k0) dv)) k0 (PlacementClusters (placement_at f k0))
      (derive_own k0 (placement_at f k0) dv) "") as (_ & E & _). simpl in E. unfold placement_at in *. by rewrite E in Hin. }
  unfold derive_own in Ho. destruct (pBarrier (placement_at f k0)) as [b0|] eqn:Eb; [|by left].
  destruct (KindOf (bKind b0)) as [k1|] eqn:Ek; [|by left]. simpl in Ho. apply elem_of_app in Ho as [?|Ho]; [by left|].
  apply list_elem_of_singleton in Ho. injection Ho as -> -> ->. by right.
Qed.

Lemma cluster_barriers_spec f name b : (name, b) ∈ cluster_barriers f <-> (mlookup name (fClusters f) ≫= cBarrier) = Some b.
Proof.
  unfold cluster_barriers. rewrite list_elem_of_omap. split.
  - intros (n & _ & E). destruct (mlookup n (fClusters f) ≫= cBarrier) eqn:En; simpl in E; [|done]. by injection E as <- <-.
  - intros E. exists name. split; [|by rewrite E]. apply elem_of_msortedKeys. destruct (mlookup name (fClusters f)); [eauto|done].
Qed.

Lemma barrier_of_spec f name b : (mlookup name (fClusters f) ≫= cBarrier) = Some b -> barrier_of (cluster_barriers f) name = Some (bID b).
Proof.
  intros E. unfold barrier_of. destruct (List.find _ _) as [[n id]|] eqn:Ef.
  - apply find_some in Ef as [Hin Hn]. apply bool_decide_eq_true in Hn. simpl in Hn. subst n.
    apply in_map_iff in Hin as ([n' b'] & [= -> <-] & Hin%list_elem_of_In%cluster_barriers_spec). simpl. congruence.
  - exfalso. apply find_none with (x := (name, bID b)) in Ef; [by rewrite bool_decide_true in Ef|].
    apply in_map_iff. exists (name, b). split; [done|]. by apply list_elem_of_In, cluster_barriers_spec.
Qed.

(** The sums of a cluster's acknowledgement. *)
Lemma cluster_ack_fold g keys a :
  let a' := foldl (fun a key =>
      let st := State_ g key in
      mkAck (akID a) (akScope a) (akGeneration a) (akKind a) (akClosed a && negb (bool_decide (onMutations (gClosed st) = "")))
        (akInflight a + onMutations (gInflight st)) (akUncertain a + onMutations (gUncertain st))) a keys in
  akScope a' = akScope a /\
  (akClosed a' = true -> forall key, key ∈ keys -> onMutations (gClosed (gate_of key g)) <> "") /\
  ((forall key, 0 <= onMutations (gInflight (gate_of key g)))%Z -> (akInflight a <= akInflight a')%Z /\
     forall key, key ∈ keys -> (akInflight a + onMutations (gInflight (gate_of key g)) <= akInflight a')%Z) /\
  (akClosed a' = true -> akClosed a = true).
Proof.
  simpl. revert a. induction keys as [|k keys IH]; intros a; simpl.
  { split_and!; try done; [by intros _ ? ?%elem_of_nil|]. intros _. split; [lia|]. by intros ? ?%elem_of_nil. }
  destruct (IH (mkAck (akID a) (akScope a) (akGeneration a) (akKind a) (akClosed a && negb (bool_decide (onMutations (gClosed (State_ g k)) = "")))
      (akInflight a + onMutations (gInflight (State_ g k))) (akUncertain a + onMutations (gUncertain (State_ g k))))) as (Hs & Hc & Hi & Hk).
  simpl in *. unfold State_ in *. split_and!; [done| | |].
  - intros Hcl key [->|Hin]%elem_of_cons; [|auto]. apply Hk, andb_true_iff in Hcl as [_ Hcl]. apply negb_true_iff in Hcl.
    by apply bool_decide_eq_false in Hcl.
  - intros H0. destruct (Hi H0) as [Hle Hall]. pose proof (H0 k). split; [lia|]. intros key [->|Hin]%elem_of_cons; [lia|].
    specialize (Hall key Hin). lia.
  - intros Hcl. by apply Hk, andb_true_iff in Hcl as [? _].
Qed.

Lemma own_ack_drained f s key b k : bID b <> "" -> akClosed (own_ack f (aGates s) (key, b, k)) = true ->
  akInflight (own_ack f (aGates s) (key, b, k)) = 0%Z -> drained s key k.
Proof. simpl. intros Hb Hc Hi. apply bool_decide_eq_true in Hc. split; [|done]. unfold State_ in Hc. by rewrite Hc. Qed.

Lemma cluster_ack_drained f s name b key : counted s -> 
  akClosed (cluster_ack f (aGates s) (dvPlacements (derive f)) (name, b)) = true ->
  akInflight (cluster_ack f (aGates s) (dvPlacements (derive f)) (name, b)) = 0%Z ->
  key ∈ members (derive f) (bID b) -> drained s key Mutations.
Proof.
  intros Hcnt Hc Hi Hin. unfold cluster_ack in Hc, Hi. fold (members (derive f) (bID b)) in Hc, Hi.
  destruct (cluster_ack_fold (aGates s) (members (derive f) (bID b)) (mkAck (bID b) (ClusterResource name) (Generation f (ClusterResource name)) (bKind b) true 0 0))
    as (_ & Hcl & Hinf & _). simpl in *.
  assert (forall key, 0 <= onMutations (gInflight (gate_of key (aGates s))))%Z as Hpos.
  { intros x. pose proof (Hcnt x Mutations) as E. simpl in E. rewrite E. unfold out. lia. }
  destruct (Hinf Hpos) as [_ Hall]. specialize (Hall key Hin). specialize (Hpos key).
  split; simpl; [by apply Hcl|]. rewrite Hi in Hall. lia.
Qed.

(** What a closed acknowledgement with nothing in flight means. *)
Lemma ack_drained f s ls a
    (Hreach : gsteps (mkA New []) ls s) (Ha : a ∈ Acks (aGates s) f) (Hc : akClosed a = true) (Hi : akInflight a = 0%Z) :
  (forall key b kind, akScope a = PlacementResource key -> pBarrier (placement_at f key) = Some b -> KindOf (bKind b) = Some kind ->
     bID b <> "" -> drained s key kind) /\
  (forall name key, akScope a = ClusterResource name -> is_Some (lookup_placement f key) ->
     name ∈ PlacementClusters (placement_at f key) -> drained s key Mutations).
Proof.
  pose proof (gsteps_counted _ _ _ Hreach counted_new) as Hcnt. unfold Acks in Ha. rewrite merge_sort_Permutation, elem_of_app in Ha.
  destruct Ha as [([[key b] k] & <- & Hin)%list_elem_of_In%in_map_iff|([name b] & <- & Hin)%list_elem_of_In%in_map_iff].
  - split; [|intros name key' [=]]. intros key' b' kind Hs Hb Hk Hne. simpl in Hs. apply PlacementResource_inj in Hs as <-.
    apply list_elem_of_In, derive_own_list in Hin as [Hin|[Hb' Hk']]; [by apply elem_of_nil in Hin|].
    rewrite Hb in Hb'. injection Hb' as <-. rewrite Hk in Hk'. injection Hk' as <-. by eapply own_ack_drained.
  - assert (akScope (cluster_ack f (aGates s) (dvPlacements (derive f)) (name, b)) = ClusterResource name) as Hscope.
    { unfold cluster_ack. by rewrite (proj1 (cluster_ack_fold _ _ _)). }
    split; [intros key b' kind Hs; by rewrite Hscope in Hs|]. intros name' key Hs Hk Hn. rewrite Hscope in Hs. apply ClusterResource_inj in Hs as <-.
    apply (cluster_ack_drained f s name b key Hcnt Hc Hi). apply derive_facts. split; [done|]. right. exists name. split; [done|].
    apply barrier_of_spec, cluster_barriers_spec.
    assert (NoDup (msortedKeys (fPlacements f))) as Hnd by (destruct (fPlacements f); [apply sortedKeys_NoDup|constructor]).
    destruct (derive_fold f _ (mkDerivation ∅ ∅ [] (cluster_barriers f)) "" Hnd eq_refl) as (E & _).
    unfold derive in Hin. simpl in E. rewrite E in Hin. by apply list_elem_of_In.
Qed.

(** when a proxy's acknowledgement of a barrier says closed with nothing in flight, its gates are
    drained: of the placement, for the barrier of a placement; of every placement with a bucket on
    the cluster, for the barrier of a cluster.  With [barrier_separates], no request routing by an
    older version can reach a backend through them again. *)
Theorem acks_prove_drain f s ls a
    (Hreach : gsteps (mkA New []) ls s) (Ha : a ∈ Acks (aGates s) f) (Hc : akClosed a = true) (Hi : akInflight a = 0%Z) :
  (forall key b kind, akScope a = PlacementResource key -> pBarrier (placement_at f key) = Some b -> KindOf (bKind b) = Some kind ->
     bID b <> "" -> drained s key kind) /\
  (forall name key, akScope a = ClusterResource name -> is_Some (lookup_placement f key) ->
     name ∈ PlacementClusters (placement_at f key) -> drained s key Mutations).
Proof. by eapply ack_drained. Qed.

(** ** A barrier from its closing to its reopening *)

Definition ex_key : string := "t/logs".
Definition ex_closed : Closed := mkPer "b1" "".
Definition ex_gate (c : Closed) (from n : Z) : Gates := mkGates {[ex_key := mkGate c from (mkPer n 0%Z) (mkPer 0%Z 0%Z)]} 0.

(** A request enters at version 3, the gate closes, the request ends. *)
Lemma ex_run_drained : exists ls, gsteps (mkA New []) ls (mkA (ex_gate ex_closed 0 0) []).
Proof.
  eexists. eapply gss_cons.
  { apply (gs_enter (mkA New []) ex_key Mutations 3 (ex_gate open_gates 0 1) (Some (ex_key, Mutations))). vm_compute. reflexivity. }
  eapply gss_cons. { apply (gs_close _ ex_key Mutations "b1"). done. }
  eapply gss_cons. { apply (gs_release _ ex_key Mutations 3 Definitive []). done. }
  match goal with |- gsteps ?s _ ?t => replace s with t by (vm_compute; reflexivity) end. apply gss_nil.
Qed.

Lemma ex_drained : drained (mkA (ex_gate ex_closed 0 0) []) ex_key Mutations.
Proof. split; vm_compute; [discriminate|reflexivity]. Qed.

(** The gate reopens at version 5 and a request of version 5 enters. *)
Lemma barrier_separates_witness : exists ls s, gsteps (mkA (ex_gate ex_closed 0 0) []) ls s /\ aHeld s = [(ex_key, Mutations, 5%Z)] /\
  forall t, t ∈ aHeld s -> t.1 = (ex_key, Mutations) -> (5 <= t.2)%Z.
Proof.
  assert (exists s, gsteps (mkA (ex_gate ex_closed 0 0) []) [(ex_key, Some 5%Z); (ex_key, None)] s /\ aHeld s = [(ex_key, Mutations, 5%Z)]) as (s & Hs & Hheld).
  { eexists. split; [|shelve]. eapply gss_cons; [apply (gs_open _ ex_key Mutations 5)|]. eapply gss_cons; [|apply gss_nil].
    apply (gs_enter _ ex_key Mutations 5 (ex_gate open_gates 5 1) (Some (ex_key, Mutations))). vm_compute. reflexivity. Unshelve. reflexivity. }
  destruct ex_run_drained as [ls0 H0]. exists [(ex_key, Some 5%Z); (ex_key, None)], s. split; [exact Hs|]. split; [exact Hheld|].
  apply (barrier_separates _ ls0 [(ex_key, Some 5%Z); (ex_key, None)] s ex_key Mutations 5 H0 ex_drained); [|exact Hs].
  repeat constructor; intros _ w [= <-]; done.
Defined.

Lemma inflight_counts_witness : exists ls, gsteps (mkA New []) ls (mkA (ex_gate ex_closed 0 0) []) /\
  at_kind Mutations (gInflight (gate_of ex_key (ex_gate ex_closed 0 0))) = out ex_key Mutations [].
Proof. destruct ex_run_drained as [ls H0]. exists ls. split; [exact H0|]. exact (proj1 (inflight_counts ls _ ex_key Mutations H0)). Defined.

(** A directory with a barrier on its one placement. *)
Definition ex_file : File :=
  mkFile 4 2 zeroIdentity (Some {[PlacementResource ex_key := 4%Z]}) None (Some {["t" := mkTenant "a"]})
    (Some {[ex_key := zeroPlacement |> set_State StateActive |> set_Primary "a" |> set_Names (Some {["a" := "logs"]})
                        |> set_ReadOnly true |> set_Barrier (Some (mkBarrier "b1" BarrierMutations))]}).

Lemma Barriers_correct_witness : closure_ok ex_file ex_key (default open_gates (fst (Barriers ex_file) !! ex_key)).
Proof. apply (Barriers_correct ex_file ex_key); [intros name id; vm_compute; discriminate|vm_compute; eauto]. Defined.

Definition ex_ack : Ack := mkAck "b1" (PlacementResource ex_key) 4 BarrierMutations true 0 0.

Lemma acks_prove_drain_witness : Acks (ex_gate ex_closed 0 0) ex_file = [ex_ack] /\ drained (mkA (ex_gate ex_closed 0 0) []) ex_key Mutations.
Proof.
  assert (Acks (ex_gate ex_closed 0 0) ex_file = [ex_ack]) as E by (vm_compute; reflexivity). split; [exact E|].
  destruct ex_run_drained as [ls H0].
  destruct (acks_prove_drain ex_file (mkA (ex_gate ex_closed 0 0) []) ls ex_ack H0) as [Hd _]; [simpl; rewrite E; left|reflexivity|reflexivity|].
  apply (Hd ex_key (mkBarrier "b1" BarrierMutations) Mutations); [reflexivity|reflexivity|reflexivity|discriminate].
Defined.
