(* ===== verification/ApplyFacts.v ===== *)
(** * Apply terminates and says why it refuses (internal/directory: transition.go, moves.go)

    [Apply] calls itself through a move.  This file shows that the recursion is one level deep, so
    the two units of fuel of the model are enough; that the loop inventing a leg's name ends for a
    cluster whose name a leg can have, and not for others; and that every outcome is a placement or
    a refusal that names the two states. *)

From S2P Require Import Prelude Float64 HashRange Config Placement Transition.

(** ** The recursion is one level deep *)

(** Two plain callees: the call a move makes on its view is not itself a move. *)
Definition applyTop (p : Placement) (t : Transition) : result applyErr Placement :=
  t ← resolveShare p t;
  let t := resolveWhole p t in
  t ← resolveLeg p t;
  if is_move p t then applyMove applyPlain p t else applyPlain p t.

Lemma ApplyF_S fuel p t : ApplyF (S fuel) p t =
  (resolveShare p t ≫= fun t => resolveLeg p (resolveWhole p t) ≫= fun t =>
   if is_move p t then applyMove (ApplyF fuel) p t else applyPlain p t).
Proof. reflexivity. Qed.

Lemma Ok_bind {E A B} (a : A) (k : A -> result E B) : (Ok a ≫= k) = k a.
Proof. reflexivity. Qed.

Lemma inner_plain fuel p target name t :
  Spread p = false ->
  target = "" \/ target <> pPrimary p \/ name = mget "" (pPrimary p) (pNames p) ->
  ApplyF (S fuel) p (step_only target name t) = applyPlain p (step_only target name t).
Proof.
  intros Hs Hor. rewrite ApplyF_S.
  change (resolveShare p (step_only target name t)) with (Ok (E:=applyErr) (step_only target name t)). rewrite Ok_bind.
  assert (resolveWhole p (step_only target name t) = step_only target name t) as ->.
  { unfold resolveWhole. rewrite Hs. cbn [negb andb tTarget tName tRange step_only].
    assert (bool_decide (pState p = StateActive) && negb (bool_decide (target = "")) &&
              bool_decide (target = pPrimary p) && negb (bool_decide (name = "")) &&
              negb (bool_decide (name = mget "" (pPrimary p) (pNames p))) = false) as ->; [|reflexivity].
    destruct Hor as [->|[Hne| ->]].
    - by rewrite !andb_false_r.
    - rewrite (bool_decide_eq_false_2 _ Hne). by rewrite !andb_false_r.
    - rewrite (bool_decide_eq_true_2 _ eq_refl). by rewrite !andb_false_r. }
  assert (resolveLeg p (step_only target name t) = Ok (step_only target name t)) as -> by reflexivity.
  rewrite Ok_bind. unfold is_move. rewrite Hs. reflexivity.
Qed.

Lemma startMove_ext rec p t :
  (forall v target name t, Spread v = false ->
     target = "" \/ target <> pPrimary v \/ name = mget "" (pPrimary v) (pNames v) ->
     rec v (step_only target name t) = applyPlain v (step_only target name t)) ->
  startMove rec p t = startMove applyPlain p t.
Proof.
  intros Hrec. unfold startMove. do 5 (case_head; [reflexivity|]).
  destruct (spreadPlain p t) as [[np t1]|]; [|reflexivity]. simpl. case_head; [reflexivity|].
  destruct (resolveRange p np t1) as [[t2 rg]|]; [|reflexivity]. simpl. do 2 (case_head; [reflexivity|]).
  destruct (resolveDst p np t2 _) as [[np2 dst]|]; [|reflexivity]. simpl. case_head; [reflexivity|].
  rewrite Hrec; [reflexivity|reflexivity|]. simpl. set (src := sourceLeg _ rg).
  destruct (decide (dst = src)) as [->|Hne]; [|by right; left]. right; right.
  unfold mget, mlookup. simpl. by rewrite lookup_singleton_eq.
Qed.

Lemma stepMove_ext rec p m t :
  (forall v target name t, Spread v = false ->
     target = "" \/ target <> pPrimary v \/ name = mget "" (pPrimary v) (pNames v) ->
     rec v (step_only target name t) = applyPlain v (step_only target name t)) ->
  stepMove rec p m t = stepMove applyPlain p m t.
Proof.
  intros Hrec. unfold stepMove. do 3 (case_head; [reflexivity|]).
  match goal with |- context [if f64_eqb ?a ?b then ?c else ?d] => destruct (if f64_eqb a b then c else d) end; [|reflexivity].
  simpl. do 3 (case_head; [reflexivity|]). rewrite Hrec; [reflexivity|reflexivity|by left].
Qed.

Lemma ApplyF_top fuel p t : ApplyF (S (S fuel)) p t = applyTop p t.
Proof.
  rewrite ApplyF_S. unfold applyTop.
  destruct (resolveShare p t) as [t1|]; [|reflexivity]. rewrite !Ok_bind.
  destruct (resolveLeg p (resolveWhole p t1)) as [t2|]; [|reflexivity]. rewrite !Ok_bind.
  destruct (is_move p t2); [|reflexivity]. unfold applyMove.
  destruct (pMove p); [apply stepMove_ext|apply startMove_ext]; intros; by apply inner_plain.
Qed.

(** ** The names of new legs *)

Lemma newLegID_loop_fresh fuel legs cluster n id id' :
  newLegID_loop fuel legs cluster n id = Some id' -> mlookup id' legs = None /\ legID id' = true.
Proof.
  revert n id. induction fuel as [|fuel IH]; intros n id; simpl; [done|].
  destruct (negb (mhas id legs) && legID id) eqn:E; [|apply IH]. intros [= <-].
  apply andb_true_iff in E as [E1 E2]. split; [|done]. apply mhas_false. by destruct (mhas id legs).
Qed.

(** The loop gives up only when every candidate it tried is taken or not a leg id. *)
Lemma newLegID_loop_None fuel legs cluster n id :
  newLegID_loop fuel legs cluster n id = None ->
  forall k, (S k < fuel)%nat -> legID (legCandidate cluster (n + k)) = true ->
  is_Some (mlookup (legCandidate cluster (n + k)) legs).
Proof.
  revert n id. induction fuel as [|fuel IH]; intros n id Hn k Hk Hid; [lia|]. simpl in Hn.
  destruct (negb (mhas id legs) && legID id); [done|]. destruct k as [|k].
  - rewrite Nat.add_0_r in *. destruct fuel as [|fuel]; [lia|]. simpl in Hn.
    destruct (negb (mhas (legCandidate cluster n) legs) && _) eqn:E; [done|]. rewrite Hid, andb_true_r in E.
    apply mhas_true. by destruct (mhas _ legs).
  - replace (n + S k)%nat with (S n + k)%nat in * by lia. eapply IH; [exact Hn|lia|done].
Qed.

Definition leg_byte (c : Ascii.ascii) : bool :=
  is_lower c || is_digit c || bool_decide (c = "_"%char) || bool_decide (c = "-"%char).

Lemma all_bytes_substring f n s : all_bytes f s = true -> all_bytes f (String.substring 0 n s) = true.
Proof.
  revert s. induction n as [|n IH]; intros [|c s]; simpl; try done.
  intros [Hc Hs]%andb_true_iff. rewrite Hc. simpl. by apply IH.
Qed.

Lemma length_substring n s : (String.length (String.substring 0 n s) <= n)%nat.
Proof. revert s. induction n as [|n IH]; intros [|c s]; simpl; try lia. specialize (IH s). lia. Qed.

(** The counters a placement needs: small decimal numbers. *)
Definition counters : list nat := seq 2 34.

Lemma counter_pretty n : n ∈ counters ->
  all_bytes is_digit (pretty n) = true /\ (String.length (pretty n) <= 2)%nat.
Proof.
  intros Hn. assert (Forall (fun n => all_bytes is_digit (pretty n) = true /\ (String.length (pretty n) <= 2)%nat) counters) as HF.
  { repeat (constructor; [vm_compute; split; [reflexivity|repeat constructor]|]). constructor. }
  by apply (proj1 (list.Forall_forall _ _) HF).
Qed.

(** What follows the last dash of a name. *)
Fixpoint after_dash (s : string) : option string :=
  match s with
  | EmptyString => None
  | String c r => match after_dash r with
                  | Some x => Some x
                  | None => if decide (c = "-"%char) then Some r else None
                  end
  end.

Lemma after_dash_digits d : all_bytes is_digit d = true -> after_dash d = None.
Proof.
  induction d as [|c d IH]; simpl; [done|]. intros [Hc Hd]%andb_true_iff. rewrite IH by done.
  destruct (decide (c = "-"%char)) as [->|]; [discriminate Hc|done].
Qed.

Lemma after_dash_app a d : all_bytes is_digit d = true -> after_dash (a +:+ "-" +:+ d) = Some d.
Proof.
  intros Hd. induction a as [|c a IH].
  - change ("" +:+ "-" +:+ d) with (String "-" d). simpl. by rewrite after_dash_digits.
  - change (String c a +:+ "-" +:+ d) with (String c (a +:+ "-" +:+ d)). simpl. by rewrite IH.
Qed.

Lemma legCandidate_shape cluster n : exists a, legCandidate cluster n = a +:+ "-" +:+ pretty n.
Proof. unfold legCandidate. destruct (_ <? _)%nat; by eexists. Qed.

Lemma counter_inj cluster n m : n ∈ counters -> m ∈ counters ->
  legCandidate cluster n = legCandidate cluster m -> n = m.
Proof.
  intros [Hn _]%counter_pretty [Hm _]%counter_pretty E.
  destruct (legCandidate_shape cluster n) as [a Ha], (legCandidate_shape cluster m) as [b Hb].
  rewrite Ha, Hb in E. apply (f_equal after_dash) in E. rewrite !after_dash_app in E by done.
  injection E as E. by apply (inj pretty) in E.
Qed.

Lemma digits_leg_bytes s : all_bytes is_digit s = true -> all_bytes leg_byte s = true.
Proof.
  induction s as [|c s IH]; simpl; [done|]. intros [Hc Hs]%andb_true_iff. rewrite IH by done.
  unfold leg_byte. by rewrite Hc, orb_true_r.
Qed.

Lemma legID_app c r d : (is_lower c || is_digit c) = true -> all_bytes leg_byte r = true ->
  all_bytes is_digit d = true -> (String.length r + String.length d <= 61)%nat ->
  legID (String c r +:+ "-" +:+ d) = true.
Proof.
  intros Hc Hr Hd Hl. change (String c r +:+ "-" +:+ d) with (String c (r +:+ String "-" d)). unfold legID.
  fold leg_byte. rewrite Hc, all_bytes_app, Hr. simpl. rewrite digits_leg_bytes by done. rewrite andb_true_r.
  rewrite length_append. simpl. apply Nat.leb_le. lia.
Qed.

(** A cluster whose name is a leg id makes only leg ids. *)
Lemma legCandidate_legID cluster n : legID cluster = true -> n ∈ counters -> legID (legCandidate cluster n) = true.
Proof.
  destruct cluster as [|c r]; [done|]. intros Hid [Hd Hl]%counter_pretty.
  unfold legID in Hid. apply andb_true_iff in Hid as [Hid Hr]. apply andb_true_iff in Hid as [Hc Hlen].
  apply Nat.leb_le in Hlen. fold leg_byte in Hr. unfold legCandidate.
  destruct (_ <? _)%nat eqn:E.
  - destruct (63 - String.length (pretty n) - 1)%nat as [|k] eqn:Ek; [lia|]. simpl String.substring.
    apply legID_app; [done|by apply all_bytes_substring|done|]. pose proof (length_substring k r). lia.
  - apply Nat.ltb_ge in E. apply legID_app; [done..|].
    change (String c r +:+ "-" +:+ pretty n) with (String c (r +:+ String "-" (pretty n))) in E. simpl in E.
    rewrite length_append in E. simpl in E. lia.
Qed.

(** For such a cluster the loop ends within the legs a placement may have. *)
Lemma newLegID_total legs cluster : legID cluster = true -> (mlen legs <= MaxLegs)%nat ->
  exists id, newLegID legs cluster = Some id.
Proof.
  intros Hid Hlen. destruct (newLegID legs cluster) as [id|] eqn:E; [by exists id|exfalso]. unfold newLegID in E.
  destruct legs as [legs|].
  2: { destruct (newLegID_loop_None _ _ _ _ _ E 0%nat) as [? ?]; [simpl; lia| |done].
       apply legCandidate_legID; [done|]. apply elem_of_seq. lia. }
  unfold MaxLegs in Hlen. simpl in Hlen, E.
  assert (list_to_set (legCandidate cluster <$> seq 2 (S (size legs))) ⊆ dom legs) as Hsub.
  { intros x. rewrite elem_of_list_to_set, list_elem_of_fmap. intros (n & -> & Hn%elem_of_seq). apply elem_of_dom.
    replace n with (2 + (n - 2))%nat by lia. apply (newLegID_loop_None _ _ _ _ _ E); [lia|].
    apply legCandidate_legID; [done|]. apply elem_of_seq. lia. }
  apply subseteq_size in Hsub. rewrite size_dom, size_list_to_set, length_fmap, length_seq in Hsub; [lia|].
  apply NoDup_fmap_2_strong; [|apply NoDup_seq]. intros n m Hn Hm.
  apply counter_inj; unfold counters; apply elem_of_seq; apply elem_of_seq in Hn, Hm; lia.
Qed.

(** For a cluster whose name starts with another byte no candidate is a leg id. *)
Definition bad_start (s : string) : Prop :=
  match s with String c _ => is_lower c || is_digit c = false | EmptyString => True end.

Lemma bad_start_legID s : bad_start s -> legID s = false.
Proof. destruct s as [|c r]; [done|]. simpl. by intros ->. Qed.

Lemma bad_start_app s t : bad_start s -> bad_start t -> bad_start (s +:+ t).
Proof. by destruct s. Qed.

Lemma bad_start_candidate cluster n : bad_start cluster -> bad_start (legCandidate cluster n).
Proof.
  intros Hb. assert (forall x, bad_start ("-" +:+ x)) as Hdash by done.
  unfold legCandidate. destruct (_ <? _)%nat; apply bad_start_app; try done.
  destruct (63 - String.length (pretty n) - 1)%nat, cluster; done.
Qed.

Lemma newLegID_loop_diverges fuel legs cluster n id :
  bad_start cluster -> bad_start id -> newLegID_loop fuel legs cluster n id = None.
Proof.
  revert n id. induction fuel as [|fuel IH]; intros n id Hc Hid; [done|]. simpl.
  rewrite (bad_start_legID id), andb_false_r by done. apply IH; [done|]. by apply bad_start_candidate.
Qed.

(** ** Every outcome is a placement or a refusal *)

Definition safe {A} (m : result applyErr A) : Prop :=
  match m with Ok _ | Err (TransitionError _ _ _) => True | Err _ => False end.

Lemma safe_bind {A B} (m : result applyErr A) (k : A -> result applyErr B) :
  safe m -> (forall a, m = Ok a -> safe (k a)) -> safe (m ≫= k).
Proof. destruct m as [a|[]]; simpl; auto. Qed.

Lemma applyPlain_safe p t : safe (applyPlain p t).
Proof.
  unfold applyPlain. case_match.
  { unfold release. repeat case_match; done. }
  apply safe_bind; [unfold checkStep; repeat case_match; done|intros _ _].
  apply safe_bind; [unfold inheritTarget; repeat case_match; done|intros t' _].
  apply safe_bind; [unfold checkArgs; repeat case_match; done|intros _ _].
  apply safe_bind; [|done].
  unfold applySwitch, leaveActive, rampStep, toMigrating. repeat case_match; done.
Qed.

(** The hashes of a placement and of a transition are 64-bit values, as their types say. *)
Definition range_u64 (rg : HashRange) : Prop := is_u64 (rFrom rg) /\ is_u64 (rTo rg).
Definition typed (p : Placement) : Prop :=
  Forall owner_u64 (sl (pOwners p)) /\ Forall (fun r => Forall owner_u64 (prOwners r)) (sl (pPrefixes p)).

Lemma scopeTable_typed p scope : typed p -> Forall owner_u64 (default [] (scopeTable p scope)).
Proof.
  intros [Ho Hr]. unfold scopeTable. case_decide; [done|]. simpl.
  destruct (List.find _ _) as [r|] eqn:E; simpl; [|constructor]. apply find_some in E as [Hin _].
  by apply (proj1 (list.Forall_forall _ _) Hr), list_elem_of_In.
Qed.

(** A share within [0, 1] is a share [LeadingShare] computes. *)
Definition unit_share (x : f64) : Prop := nonneg x.

Lemma share_checked x : f64_isNaN x || f64_ltb x f0 || f64_ltb f1 x = false -> unit_share x.
Proof.
  destruct x as [|s|m]; simpl; [done| |].
  - destruct s; [done|]. rewrite f1_unit. done.
  - intros H. destruct (m <? 0)%Z eqn:E; [done|]. unfold unit_share. simpl. lia.
Qed.

Lemma LeadingShare_total rg x : range_u64 rg -> unit_share x -> exists rg', LeadingShare rg x = Some rg' .
Proof.
  intros [Hf Ht] Hx. destruct (decide (rFrom rg <= rTo rg)%Z) as [Hle|Hgt].
  - eexists. by apply LeadingShare_formula.
  - exists rg. unfold LeadingShare. rewrite (proj2 (Z.ltb_lt _ _)) by lia. by rewrite orb_true_r.
Qed.

Lemma resolveShare_safe p t : safe (resolveShare p t) /\
  forall t', resolveShare p t = Ok t' -> unit_share (tShare t') /\ tTarget t' = tTarget t.
Proof.
  unfold resolveShare. destruct (f64_eqb (tShare t) f0) eqn:E0.
  { split; [done|]. intros ? [= <-]. split; [|done]. destruct (tShare t); simpl in *; try done. unfold unit_share. simpl. lia. }
  destruct (f64_isNaN (tShare t) || f64_ltb (tShare t) f0 || f64_ltb f1 (tShare t)) eqn:Hn; [split; done|].
  apply share_checked in Hn. destruct (bool_decide (is_Some (tRange t))); [split; done|].
  destruct (Spread p); [split; [done|]; by intros ? [= <-]|].
  destruct (negb (bool_decide (pState p = StateActive))); [split; done|].
  destruct (LeadingShare_total FullRange (tShare t)) as [rg ->]; [split; vm_compute; split; congruence|done|].
  split; [done|]. intros ? [= <-]. split; [|done]. unfold unit_share. simpl. lia.
Qed.

Lemma resolveWhole_target p t : tTarget (resolveWhole p t) = tTarget t /\ tShare (resolveWhole p t) = tShare t.
Proof. unfold resolveWhole. repeat case_match; done. Qed.

Lemma resolveLeg_safe p t : safe (resolveLeg p t) /\ forall t', resolveLeg p t = Ok t' -> tShare t' = tShare t /\ tTarget t' = tTarget t.
Proof. unfold resolveLeg. repeat case_match; (split; [done|]); intros ? [= <-]; done. Qed.

(** A target a placement may gain a leg on. *)
Definition leg_target (s : string) : Prop := s = "" \/ legID s = true.

Lemma spreadPlain_safe p t : safe (spreadPlain p t).
Proof. unfold spreadPlain. repeat case_match; done. Qed.

Lemma spreadPlain_Ok p t np t' : typed p -> leg_target (tTarget t) -> leg_target (pTarget p) ->
  (Spread p = true -> is_Some (pLegs p) /\ (mlen (pLegs p) <= MaxLegs)%nat) ->
  spreadPlain p t = Ok (np, t') ->
  typed np /\ tShare t' = tShare t /\ tRange t' = tRange t /\ leg_target (tTarget t') /\ is_Some (pLegs np) /\
  (mlen (pLegs np) <= MaxLegs)%nat.
Proof.
  intros [Ho Hr] Ht Hpt Hlegs. unfold spreadPlain. rewrite clone_id. destruct (Spread p).
  { intros [= <- <-]. destruct (Hlegs eq_refl). split_and!; done. }
  destruct (_ || _); [done|]. intros H. apply bind_Ok in H as (t1 & H1 & [= <- <-]).
  assert (tShare t1 = tShare t /\ tRange t1 = tRange t /\ leg_target (tTarget t1)) as (H2 & H3 & H4).
  { repeat case_match; try done; injection H1 as <-; done. }
  split_and!; try done.
  - split; simpl; [|done]. repeat constructor; vm_compute; congruence.
  - simpl. rewrite map_size_singleton. unfold MaxLegs. lia.
Qed.

Lemma resolveRange_safe p np t : typed np -> unit_share (tShare t) ->
  (forall rg, tRange t = Some rg -> range_u64 rg) -> safe (resolveRange p np t).
Proof.
  intros Hty Hsh Hrg. pose proof (scopeTable_typed np (tScope t) Hty) as HT. unfold resolveRange.
  apply safe_bind; [repeat case_match; done|]. intros t1 H1.
  assert (tShare t1 = tShare t /\ tRange t1 = tRange t) as [E1 E2].
  { repeat case_match; try done; injection H1 as <-; done. }
  apply safe_bind; [repeat case_match; done|]. intros rg H2.
  assert (range_u64 rg) as Hu.
  { rewrite E2 in H2. destruct (tRange t) as [rg'|]; [injection H2 as <-; by apply Hrg|].
    case_match; [done|]. destruct (List.find _ _) as [o|] eqn:Ef; [|done]. injection H2 as <-.
    apply find_some in Ef as [Hin _]. apply list_elem_of_In in Hin.
    apply (proj1 (list.Forall_forall _ _) HT) in Hin. exact Hin. }
  destruct (_ && _); [|done]. destruct (LeadingShare_total rg (tShare t1)) as [rg' ->]; [done|by rewrite E1|done].
Qed.

Lemma resolveDst_safe p np t src : is_Some (pLegs np) -> (mlen (pLegs np) <= MaxLegs)%nat ->
  leg_target (tTarget t) -> tTarget t <> "" -> safe (resolveDst p np t src).
Proof.
  intros [legs Hl] Hm [->|Hid] Hne; [done|]. unfold resolveDst. destruct (findDst _ _ _) as [dst on].
  do 4 (case_match; try done). destruct (newLegID_total (pLegs np) (tTarget t)) as [id Hn]; [done|done|].
  rewrite Hn, Hl. done.
Qed.

Lemma sameShare_total p m x : typed p -> unit_share x -> exists b, sameShare p m x = Some b.
Proof.
  intros Hty Hx. pose proof (scopeTable_typed p (mvScope m) Hty) as HT. unfold sameShare.
  destruct (List.find _ _) as [o|] eqn:E; [|by eexists]. apply find_some in E as [Hin%list_elem_of_In _].
  destruct (LeadingShare_total (mkRange (oFrom o) (oTo o)) x) as [rg ->]; [|done|by eexists].
  exact (proj1 (list.Forall_forall _ _) HT _ Hin).
Qed.

Lemma resolveRange_target p np t t' rg : resolveRange p np t = Ok (t', rg) -> tTarget t' = tTarget t.
Proof.
  unfold resolveRange. intros H. apply bind_Ok in H as (t1 & H1 & H). apply bind_Ok in H as (rg1 & H2 & H).
  assert (tTarget t1 = tTarget t) by (repeat case_match; simplify_eq; done). repeat case_match; simplify_eq; done.
Qed.

(** A check that refuses. *)
Ltac case_safe := match goal with |- safe (if ?b then _ else _) => destruct b; [done|] end.

Lemma startMove_safe p t : typed p -> unit_share (tShare t) -> (forall rg, tRange t = Some rg -> range_u64 rg) ->
  leg_target (tTarget t) -> leg_target (pTarget p) ->
  (Spread p = true -> is_Some (pLegs p) /\ (mlen (pLegs p) <= MaxLegs)%nat) ->
  safe (startMove applyPlain p t).
Proof.
  intros Hty Hsh Hrg Ht Hpt Hlegs. unfold startMove.
  do 5 case_safe.
  apply safe_bind; [apply spreadPlain_safe|]. intros [np t1] H1.
  destruct (spreadPlain_Ok p t np t1) as (Hty' & Hsh' & Hrg' & Ht' & Hl & Hm); [done..|].
  destruct (bool_decide (tTarget t1 = "")) eqn:Hne; [done|]. apply bool_decide_eq_false in Hne.
  apply safe_bind; [apply resolveRange_safe; [done|by rewrite Hsh'|by rewrite Hrg']|]. intros [t2 rg] H2.
  pose proof (resolveRange_target _ _ _ _ _ H2) as Ht2.
  do 2 case_safe.
  apply safe_bind; [apply resolveDst_safe; [done|done|by rewrite Ht2|by rewrite Ht2]|]. intros [np2 dst] _.
  case_safe.
  apply safe_bind; [apply applyPlain_safe|done].
Qed.

Lemma stepMove_safe p m t : typed p -> unit_share (tShare t) -> safe (stepMove applyPlain p m t).
Proof.
  intros Hty Hsh. unfold stepMove.
  do 3 case_safe.
  destruct (sameShare_total p m (tShare t) Hty Hsh) as [b Hb]. rewrite Hb.
  apply safe_bind; [by destruct (f64_eqb _ _)|]. intros same _.
  do 3 case_safe.
  apply safe_bind; [apply applyPlain_safe|]. intros nv _. repeat case_match; done.
Qed.

(** What [Apply] is called with: hashes are 64-bit values, and names on which a leg may be made. *)
Record callable (p : Placement) (t : Transition) : Prop := {
  ca_typed : typed p;
  ca_range : forall rg, tRange t = Some rg -> range_u64 rg;
  ca_target : leg_target (tTarget t);
  ca_pTarget : leg_target (pTarget p);
  ca_legs : Spread p = true -> is_Some (pLegs p) /\ (mlen (pLegs p) <= MaxLegs)%nat;
}.

Lemma FullRange_u64 : range_u64 FullRange.
Proof. split; vm_compute; split; congruence. Qed.

Lemma FullRange_share x rg : unit_share x -> LeadingShare FullRange x = Some rg -> range_u64 rg.
Proof.
  intros Hx HL. destruct FullRange_u64 as [Hf Ht]. rewrite LeadingShare_formula in HL by (try done; vm_compute; congruence).
  injection HL as <-. split; [exact Hf|]. simpl. pose proof (share_parts_range x Hx) as Hp.
  unfold is_u64, MaxUint64, two64 in *. simpl.
  change (18446744073709551615 - 0 + 1)%Z with 18446744073709551616%Z.
  assert (18446744073709551616 * share_parts x / 10000 <= 18446744073709551616)%Z by (apply Z.div_le_upper_bound; lia). lia.
Qed.

Lemma resolveShare_range p t t' : resolveShare p t = Ok t' ->
  (forall rg, tRange t = Some rg -> range_u64 rg) -> forall rg, tRange t' = Some rg -> range_u64 rg.
Proof.
  unfold resolveShare. destruct (f64_eqb (tShare t) f0); [by intros [= <-]|].
  destruct (_ || f64_ltb f1 (tShare t)) eqn:Hn; [done|]. apply share_checked in Hn.
  destruct (bool_decide _); [done|]. destruct (Spread p); [by intros [= <-]|]. destruct (negb _); [done|].
  destruct (LeadingShare FullRange (tShare t)) as [rg'|] eqn:HL; [|done]. intros [= <-] _ rg [= <-]. by eapply FullRange_share.
Qed.

Lemma resolveWhole_range p t : (forall rg, tRange t = Some rg -> range_u64 rg) ->
  forall rg, tRange (resolveWhole p t) = Some rg -> range_u64 rg.
Proof.
  intros Hrg rg. pose proof FullRange_u64 as Hfull. unfold resolveWhole.
  repeat case_match; simpl; try done; try (by apply Hrg); by intros [= <-].
Qed.

Lemma resolveLeg_range p t t' : resolveLeg p t = Ok t' -> tRange t' = tRange t.
Proof. unfold resolveLeg. repeat case_match; intros; simplify_eq; done. Qed.

Lemma applyTop_safe p t : callable p t -> safe (applyTop p t).
Proof.
  intros [Hty Hrg Ht Hpt Hlegs]. unfold applyTop. destruct (resolveShare_safe p t) as [Hs Hs'].
  apply safe_bind; [done|]. intros t1 H1. destruct (Hs' t1 H1) as [Hsh Htgt].
  pose proof (resolveShare_range _ _ _ H1 Hrg) as Hrg1.
  destruct (resolveWhole_target p t1) as [Ew1 Ew2]. destruct (resolveLeg_safe p (resolveWhole p t1)) as [Hl Hl'].
  apply safe_bind; [done|]. intros t2 H2. destruct (Hl' t2 H2) as [E1 E2].
  destruct (is_move p t2); [|apply applyPlain_safe]. unfold applyMove. destruct (pMove p) as [m|].
  - apply stepMove_safe; [assumption|]. rewrite E1, Ew2. assumption.
  - apply startMove_safe; [assumption|rewrite E1, Ew2; assumption| |rewrite E2, Ew1, Htgt; assumption|assumption|assumption].
    rewrite (resolveLeg_range _ _ _ H2). by apply resolveWhole_range.
Qed.

(** ** Properties *)

(** The recursion of [Apply] through a move is one level deep and never runs out: with any fuel of
    two or more the result is the same, and it is the one in which a move's step is applied by the
    non-recursive code to its two-bucket view. *)
Theorem Apply_terminates (p : Placement) (t : Transition) (fuel : nat) :
  ApplyF (2 + fuel) p t = Apply p t /\ Apply p t = applyTop p t.
Proof. split; [transitivity (applyTop p t); [|symmetry]; apply ApplyF_top|apply ApplyF_top]. Qed.

(** Called with 64-bit hashes and target names a leg may have, [Apply] never panics and never
    loops: it returns a placement, or a refusal with the states it was between and the reason. *)
Theorem Apply_total (p : Placement) (t : Transition) (H : callable p t) :
  (exists np, Apply p t = Ok np) \/ (exists from to r, Apply p t = Err (TransitionError from to r)).
Proof.
  unfold Apply. rewrite ApplyF_top. pose proof (applyTop_safe p t H) as Hs.
  destruct (applyTop p t) as [np|[from to r| | |]]; [by left; eexists|by right; do 3 eexists|done..].
Qed.

Definition example_plain : Placement :=
  zeroPlacement |> set_State StateActive |> set_Primary "a" |> set_Names (Some {["a" := "data"]}).
Definition example_half : Transition :=
  mkTransition StateRamping "b" "data2" (Fin (f_unit / 4)) [] None true false false "" None "" "" (Fin (f_unit / 2)).

Lemma Apply_total_witness :
  (exists np, Apply example_plain example_half = Ok np) \/
  (exists from to r, Apply example_plain example_half = Err (TransitionError from to r)).
Proof.
  apply Apply_total. split; simpl; [by split| |by right|by left|done]. intros rg [=].
Defined.

(** The loop that names a new leg ends with a free name that a leg may have, for every cluster
    whose own name is a leg id and every placement within the limit of legs. *)
Theorem newLegID_ends (legs : option (gmap string Leg)) (cluster : string)
    (Hid : legID cluster = true) (Hlen : (mlen legs <= MaxLegs)%nat) :
  exists id, newLegID legs cluster = Some id /\ mlookup id legs = None /\ legID id = true.
Proof.
  destruct (newLegID_total legs cluster Hid Hlen) as [id E]. exists id. split; [done|].
  by eapply newLegID_loop_fresh.
Qed.

Lemma newLegID_ends_witness :
  exists id, newLegID example_legs "a" = Some id /\ mlookup id example_legs = None /\ legID id = true.
Proof. apply newLegID_ends; [reflexivity|vm_compute; lia]. Defined.

(** For a cluster whose name starts with anything but a lowercase letter or a digit, as the
    cluster names of a configuration may, the same loop tries names forever. *)
Theorem newLegID_never_ends (legs : option (gmap string Leg)) (c : Ascii.ascii) (rest : string) (fuel : nat)
    (Hc : is_lower c || is_digit c = false) :
  newLegID_loop fuel legs (String c rest) 2 (String c rest) = None.
Proof. by apply newLegID_loop_diverges. Qed.

Lemma newLegID_never_ends_witness : newLegID_loop 40 example_legs "Vast" 2 "Vast" = None.
Proof. apply newLegID_never_ends. reflexivity. Defined.
