(* ===== verification/Steps.v ===== *)
(** * The migration state machine (internal/directory/transition.go)

    [Apply] of a plain placement is a long chain of checks and assignments.  This file states what it
    may do as a step relation, one constructor per kind of step with the conditions that made it
    legal, and shows that every accepted transition is one of its steps.  The theorems on the
    machine and on the fence that moves writes are proved on the relation. *)

From S2P Require Import Prelude Float64 HashRange Config Placement Transition.

(** ** The legal moves of the machine *)

Lemma legal_cases from to : legal from to = true ->
  (from = StateActive /\ (to = StateRamping \/ to = StateMigrating)) \/
  (from = StateRamping /\ (to = StateRamping \/ to = StateMigrating)) \/
  (from = StateMigrating /\ to = StateCutover) \/ (from = StateCutover /\ to = StateActive).
Proof.
  unfold legal. rewrite bool_decide_eq_true. intros H.
  repeat (apply elem_of_cons in H as [H|H]; [injection H as -> ->; tauto|]). by apply elem_of_nil in H.
Qed.

(** ** Steps *)

(** The keys a held step will move: of the step when it is a ramp, every key when it is the switch
    to MIGRATING. *)
Definition step_hold (to : string) (ratio : f64) (prefixes : list string) : RampHold :=
  if bool_decide (to = StateRamping) then mkHold ratio prefixes else mkHold f1 [].

Definition emptyRamp : Ramp := mkRamp RampHash f0 [] None None.

(** The source, primary, target and names of a placement that leaves ACTIVE for a new backend. *)
Definition leave (target name : string) (p : Placement) : Placement :=
  p |> set_Source (pPrimary p) |> set_Primary target |> set_Target ""
    |> set_Names (Some (<[target := name]> (default ∅ (pNames p)))).

(** The ramp after a step that asks for [ratio] (0 keeps the one in force) and adds [prefixes]. *)
Definition grow (old : Ramp) (ratio : f64) (prefixes : list string) : f64 * list string :=
  (if f64_eqb ratio f0 then rRatio old else ratio, foldl add_prefix (rPrefixes old) prefixes).

(** A placement up to its barrier, which steps set and clear but routing of one key never reads. *)
Definition upto_barrier (p q : Placement) : Prop := exists b, q = set_Barrier b p.

Inductive step (p : Placement) (t : Transition) : Placement -> Prop :=
| StepReleaseFirst r h :
    tRelease t = true -> pState p = StateRamping -> pRamp p = Some r -> rHold r = Some h ->
    f64_eqb (rRatio r) f0 = true -> rPrefixes r = [] ->
    step p t (p |> set_State StateActive |> set_Primary (pSource p) |> set_Source "" |> set_Target (pPrimary p) |> set_Ramp None)
| StepRelease r h :
    tRelease t = true -> pState p = StateRamping -> pRamp p = Some r -> rHold r = Some h ->
    step p t (p |> set_Ramp (Some (set_rHold None r)))
| StepLeaveHeld target name :
    tHold t = true -> pState p = StateActive -> target <> "" -> target <> pPrimary p ->
    tTo t = StateRamping \/ tTo t = StateMigrating ->
    step p t (leave target name p |> set_State StateRamping
                |> set_Ramp (Some (set_rHold (Some (step_hold (tTo t) (tRatio t) (tPrefixes t))) emptyRamp)))
| StepLeaveRamp target name :
    tHold t = false -> pState p = StateActive -> target <> "" -> target <> pPrimary p -> tTo t = StateRamping ->
    step p t (leave target name p |> set_State StateRamping |> set_Ramp (Some (mkRamp RampHash (tRatio t) (tPrefixes t) None None)))
| StepLeaveMigrate target name :
    tHold t = false -> pState p = StateActive -> target <> "" -> target <> pPrimary p -> tTo t = StateMigrating ->
    step p t (leave target name p |> set_State StateMigrating)
| StepRampHeld r ratio prefixes :
    tHold t = true -> pState p = StateRamping -> pRamp p = Some r -> rHold r = None -> rHash r = RampHash ->
    grow r (tRatio t) (tPrefixes t) = (ratio, prefixes) ->
    f64_eqb (tRatio t) f0 = true \/ f64_ltb (tRatio t) (rRatio r) = false ->
    step p t (p |> set_Ramp (Some (set_rHold (Some (mkHold ratio prefixes)) r)))
| StepRamp r ratio prefixes :
    tHold t = false -> tTo t = StateRamping -> pState p = StateRamping -> pRamp p = Some r -> rHash r = RampHash ->
    grow r (tRatio t) (tPrefixes t) = (ratio, prefixes) ->
    f64_eqb (tRatio t) f0 = true \/ f64_ltb (tRatio t) (rRatio r) = false ->
    (forall h, rHold r = Some h -> within_hold r h ratio prefixes = None) ->
    step p t (p |> set_Ramp (Some (mkRamp (rHash r) ratio prefixes None None)))
| StepMigrateHeld r :
    tHold t = true -> pState p = StateRamping -> pRamp p = Some r -> rHold r = None ->
    step p t (p |> set_Ramp (Some (set_rHold (Some (mkHold f1 [])) r)))
| StepMigrate r :
    tHold t = false -> pState p = StateRamping -> pRamp p = Some r ->
    (forall h, rHold r = Some h -> f64_ltb (hRatio h) f1 = false) ->
    step p t (p |> set_State StateMigrating |> set_Ramp None)
| StepCutover :
    tHold t = false -> pState p = StateMigrating ->
    step p t (p |> set_State StateCutover |> set_Cutover (tCutover t))
| StepEnd :
    tRelease t = false -> tHold t = false -> pState p = StateCutover ->
    step p t (endCutover p (p |> set_State StateActive)).

#[export] Hint Constructors step : shunt.

(** A plain placement has a ramp exactly while it is RAMPING, and no move. *)
Definition ramp_shape (p : Placement) : Prop :=
  pMove p = None /\ (pState p = StateRamping <-> is_Some (pRamp p)).

(** A step that neither leaves ACTIVE nor returns to it keeps everything but its own record. *)
Lemma step_keeps p t q : step p t q -> pState p <> StateActive -> pState q <> StateActive ->
  q = (p |> set_State (pState q) |> set_Ramp (pRamp q) |> set_Cutover (pCutover q)).
Proof.
  intros Hst Hp Hq. destruct Hst; try done; try (by destruct p; simpl in *; subst).
  destruct Hq. unfold endCutover. by destruct (_ && _).
Qed.

(** ** Every accepted transition of a plain placement is a step *)

Lemma release_step p t np :
  tRelease t = true -> release p (tBarrier t) = Ok np -> exists q, step p t q /\ upto_barrier q np.
Proof.
  intros Hrel. unfold release. rewrite clone_id. destruct (pRamp p) as [r|] eqn:Hr; [|done].
  destruct (bool_decide (pState p = StateRamping)) eqn:Hs; [|done]. apply bool_decide_eq_true in Hs.
  destruct (rHold r) as [h|] eqn:Hh; [|done]. simpl.
  destruct (negb _ && _); [done|].
  destruct (f64_eqb (rRatio r) f0 && (length (rPrefixes r) =? 0)%nat) eqn:Hz; intros [= <-].
  - apply andb_true_iff in Hz as [Hz Hl]. apply Nat.eqb_eq, length_zero_iff_nil in Hl.
    eexists. split; [by eapply StepReleaseFirst|]. by exists None.
  - eexists. split; [by eapply StepRelease|]. by exists None.
Qed.

(** The target a transition leaves ACTIVE for, after inheriting. *)
Lemma inheritTarget_Ok p t t' : inheritTarget p t = Ok t' -> exists target name, t' = set_tTarget target name t.
Proof.
  unfold inheritTarget. repeat case_match; intros [= <-]; try by do 2 eexists.
  exists (tTarget t), (tName t). by destruct t.
Qed.

(** What the switch and the steps after it do to the barrier never reaches the other fields. *)
Lemma finishStep_nohold p t np : tHold t = false -> upto_barrier np (finishStep p t np).
Proof.
  intros Hh. unfold finishStep. rewrite Hh. rewrite orb_false_r.
  destruct (tComplete t), (bool_decide (tBarrier t = "")); simpl; try by eexists.
  exists (pBarrier np). by destruct np.
Qed.

Lemma finishStep_hold p t np : tHold t = true ->
  upto_barrier (np |> set_State StateRamping |> set_Ramp (Some (set_rHold
      (Some (match pRamp np with Some r => mkHold (rRatio r) (rPrefixes r) | None => mkHold f1 [] end))
      (match pRamp p with
       | Some r => if bool_decide (pState p = StateRamping) then r else emptyRamp
       | None => emptyRamp
       end)))) (finishStep p t np).
Proof.
  intros Hh. unfold finishStep. rewrite Hh. rewrite orb_true_r, andb_false_r. unfold holdStep.
  destruct (bool_decide (tBarrier t = "")); simpl; by eexists.
Qed.

(** A step, and the finish that follows it. *)
Lemma leaveActive_step p t np :
  ramp_shape p -> pState p = StateActive -> tTo t = StateRamping \/ tTo t = StateMigrating ->
  leaveActive p t (set_State (tTo t) p) = Ok np -> exists q, step p t q /\ upto_barrier q (finishStep p t np).
Proof.
  intros [Hm Hshape] Hs Hto. unfold leaveActive.
  assert (pRamp p = None) as Hr.
  { destruct (pRamp p) eqn:E; [|done]. rewrite Hs in Hshape. destruct Hshape as [_ H]. discriminate H; by eexists. }
  destruct (bool_decide (tTarget t = "")) eqn:Ht; [done|]. apply bool_decide_eq_false in Ht.
  destruct (bool_decide (tName t = "")) eqn:Hn; [done|].
  destruct (bool_decide (tTarget t = pPrimary p)) eqn:Hp; [done|]. apply bool_decide_eq_false in Hp. simpl.
  destruct (tHold t) eqn:Hh.
  - intros Hnp. exists (leave (tTarget t) (tName t) p |> set_State StateRamping
      |> set_Ramp (Some (set_rHold (Some (step_hold (tTo t) (tRatio t) (tPrefixes t))) emptyRamp))).
    split; [by constructor|]. destruct (finishStep_hold p t np Hh) as [b ->]. exists b. rewrite Hr.
    unfold step_hold. destruct Hto as [Hto|Hto]; rewrite Hto in *; simpl in *.
    + destruct (f64_eqb (tRatio t) f0 && _); [done|]. by injection Hnp as <-.
    + injection Hnp as <-. by simpl; rewrite Hr.
  - intros Hnp. destruct (finishStep_nohold p t np Hh) as [b ->].
    destruct Hto as [Hto|Hto]; rewrite Hto in *; simpl in *.
    + destruct (f64_eqb (tRatio t) f0 && _); [done|]. injection Hnp as <-.
      eexists. split; [by eapply (StepLeaveRamp p t (tTarget t) (tName t))|]. by exists b.
    + injection Hnp as <-. eexists. split; [by eapply (StepLeaveMigrate p t (tTarget t) (tName t))|]. by exists b.
Qed.

Lemma rampStep_step p t np :
  pState p = StateRamping -> tTo t = StateRamping ->
  match pRamp p with Some r => bool_decide (is_Some (rHold r)) | None => false end && tHold t = false ->
  rampStep p t (set_State (tTo t) p) = Ok np -> exists q, step p t q /\ upto_barrier q (finishStep p t np).
Proof.
  intros Hs Hto Htwice. unfold rampStep.
  destruct (pRamp p) as [r|] eqn:Hr; [|done]. simpl.
  destruct (bool_decide (rHash r = RampHash)) eqn:Hhash; [|done]. apply bool_decide_eq_true in Hhash. simpl.
  destruct (negb (f64_eqb (tRatio t) f0) && f64_ltb (tRatio t) (rRatio r)) eqn:Hshrink; [done|].
  assert (f64_eqb (tRatio t) f0 = true \/ f64_ltb (tRatio t) (rRatio r) = false) as Hok.
  { destruct (f64_eqb (tRatio t) f0); [by left|right]. exact Hshrink. }
  destruct (grow r (tRatio t) (tPrefixes t)) as [ratio prefixes] eqn:Hg. pose proof Hg as [= Hg1 Hg2].
  rewrite Hg1, Hg2. destruct (f64_eqb ratio (rRatio r) && _); [done|].
  destruct (tHold t) eqn:Hh.
  - intros Hnp. assert (np = (set_State (tTo t) p |> set_Ramp (Some (mkRamp (rHash r) ratio prefixes None None)))) as ->
      by (destruct (rHold r); congruence).
    destruct (finishStep_hold p t (set_State (tTo t) p |> set_Ramp (Some (mkRamp (rHash r) ratio prefixes None None))) Hh) as [b ->].
    rewrite Hr, Hs. eexists. split; [eapply (StepRampHeld p t r); try done|].
    { destruct (rHold r) eqn:E; [discriminate Htwice|done]. }
    exists b. simpl. by destruct p; simpl in *; subst.
  - intros Hnp. destruct (finishStep_nohold p t np Hh) as [b ->].
    assert (np = (set_State (tTo t) p |> set_Ramp (Some (mkRamp (rHash r) ratio prefixes None None))) /\
            forall h, rHold r = Some h -> within_hold r h ratio prefixes = None) as [-> Hw].
    { destruct (rHold r) as [h|] eqn:E; [|split; [congruence|done]].
      destruct (within_hold r h ratio prefixes) eqn:Ew; [done|]. split; [congruence|]. intros ? [= <-]. done. }
    eexists. split; [by eapply (StepRamp p t r ratio prefixes)|]. exists b. rewrite Hto.
    by destruct p; simpl in *; subst.
Qed.

Lemma toMigrating_step p t np :
  ramp_shape p -> pState p = StateRamping -> tTo t = StateMigrating ->
  match pRamp p with Some r => bool_decide (is_Some (rHold r)) | None => false end && tHold t = false ->
  toMigrating p t (set_State (tTo t) p) = Ok np -> exists q, step p t q /\ upto_barrier q (finishStep p t np).
Proof.
  intros [Hm Hshape] Hs Hto Htwice. destruct (proj1 Hshape Hs) as [r Hr]. unfold toMigrating, Held. rewrite Hm, Hr in *.
  destruct (tHold t) eqn:Hh.
  - rewrite andb_true_r in Htwice. apply bool_decide_eq_false in Htwice.
    assert (rHold r = None) as Hnone by (destruct (rHold r); [destruct Htwice; by eexists|done]).
    rewrite Hnone. simpl. intros [= <-].
    destruct (finishStep_hold p t (set_State (tTo t) p |> set_Ramp None) Hh) as [b ->]. rewrite Hr, Hs. simpl.
    eexists. split; [by eapply (StepMigrateHeld p t r)|]. exists b. by destruct p; simpl in *; subst.
  - rewrite andb_true_r. intros Hnp.
    assert (np = (set_State (tTo t) p |> set_Ramp None) /\ forall h, rHold r = Some h -> f64_ltb (hRatio h) f1 = false) as [-> Hw].
    { destruct (rHold r) as [h|]; [|split; [simpl in Hnp; congruence|done]]. simpl in Hnp.
      destruct (f64_ltb (hRatio h) f1) eqn:E; [done|]. split; [congruence|]. intros ? [= <-]. exact E. }
    destruct (finishStep_nohold p t (set_State (tTo t) p |> set_Ramp None) Hh) as [b ->].
    eexists. split; [by eapply (StepMigrate p t r)|]. exists b. by rewrite Hto.
Qed.

Lemma checkStep_Ok p t : checkStep p t = Ok () ->
  legal (pState p) (tTo t) = true /\
  (tHold t = true -> tTo t = StateRamping \/ tTo t = StateMigrating) /\
  match pRamp p with Some r => bool_decide (is_Some (rHold r)) | None => false end && tHold t = false.
Proof.
  unfold checkStep. destruct (_ && negb (carries p (tBarrier t))); [done|]. destruct (negb _); [done|].
  destruct (tHold t && _ && _) eqn:Hhs; [done|]. destruct (_ && tHold t) eqn:Ht; [done|].
  destruct (_ && negb (Held p)); [done|]. destruct (legal (pState p) (tTo t)) eqn:Hl; [|done]. intros _.
  split_and!; [done| |done]. intros Hh. rewrite Hh in Hhs. simpl in Hhs.
  destruct (bool_decide (tTo t = StateRamping)) eqn:E1; [left; by apply bool_decide_eq_true in E1|].
  destruct (bool_decide (tTo t = StateMigrating)) eqn:E2; [right; by apply bool_decide_eq_true in E2|done].
Qed.

Lemma applySwitch_step p t np :
  tRelease t = false -> ramp_shape p -> legal (pState p) (tTo t) = true ->
  (tHold t = true -> tTo t = StateRamping \/ tTo t = StateMigrating) ->
  match pRamp p with Some r => bool_decide (is_Some (rHold r)) | None => false end && tHold t = false ->
  applySwitch p t (set_State (tTo t) p) = Ok np -> exists q, step p t q /\ upto_barrier q (finishStep p t np).
Proof.
  intros Hrel Hsh Hl Hh Htwice. unfold applySwitch.
  destruct (legal_cases _ _ Hl) as [[Hs Hto]|[[Hs [Hto|Hto]]|[[Hs Hto]|[Hs Hto]]]].
  - rewrite bool_decide_true by done. by apply leaveActive_step.
  - rewrite Hs, Hto. simpl. rewrite <- Hto. by apply rampStep_step.
  - rewrite Hs, Hto. simpl. rewrite <- Hto. by apply toMigrating_step.
  - rewrite Hs, Hto. simpl. intros [= <-].
    assert (tHold t = false) as Hnh by (destruct (tHold t); [|done]; destruct (Hh eq_refl) as [E|E]; rewrite Hto in E; discriminate E).
    destruct (finishStep_nohold p t (set_State StateCutover p |> set_Cutover (tCutover t)) Hnh) as [b ->].
    eexists. split; [by apply StepCutover|]. by exists b.
  - rewrite Hs, Hto. simpl. intros [= <-].
    assert (tHold t = false) as Hnh by (destruct (tHold t); [|done]; destruct (Hh eq_refl) as [E|E]; rewrite Hto in E; discriminate E).
    destruct (finishStep_nohold p t (endCutover p (set_State StateActive p)) Hnh) as [b ->].
    eexists. split; [by apply StepEnd|]. by exists b.
Qed.

(** A step does not look at the target of the transition, nor at what names a part of the bucket. *)
Lemma step_ext p t t' q :
  tTo t = tTo t' -> tRatio t = tRatio t' -> tPrefixes t = tPrefixes t' -> tCutover t = tCutover t' -> tHold t = tHold t' -> tRelease t = tRelease t' ->
  step p t q -> step p t' q.
Proof.
  intros H1 H2 H3 H4 H5 H6 Hst. inversion Hst; subst; rewrite ?H1, ?H2, ?H3, ?H4, ?H5, ?H6 in *; eauto with shunt.
Qed.

Lemma applyPlain_step p t np :
  ramp_shape p -> applyPlain p t = Ok np -> exists q, step p t q /\ upto_barrier q np.
Proof.
  intros Hsh. unfold applyPlain. destruct (tRelease t) eqn:Hrel; [by apply release_step|].
  destruct (checkStep p t) as [[]|] eqn:Hc; [|done]. destruct (checkStep_Ok _ _ Hc) as (Hl & Hh & Htwice). simpl.
  destruct (inheritTarget p t) as [t'|] eqn:Hi; [|done]. destruct (inheritTarget_Ok _ _ _ Hi) as (target & name & ->).
  simpl. destruct (checkArgs p _) as [[]|]; [|done]. simpl. rewrite clone_id.
  destruct (applySwitch p _ _) as [np'|] eqn:Hsw; [|done]. simpl. intros [= <-].
  destruct (applySwitch_step p (set_tTarget target name t) np') as (q & Hst & Hb); [done..|].
  exists q. split; [|done]. by eapply step_ext, Hst.
Qed.
