(* ===== verification/Fence.v ===== *)
(** * The write fence (internal/migrate/route.go with internal/directory/transition.go)

    Front ends read the directory at their own pace, so while a step is distributed one front end
    routes a key by the old placement and another by the new one.  A step is fenced when the keys it
    moves refuse writes on one side of it: it is written as a hold first, and completed or released
    only from the held placement.  This file shows what the fence is for: across a fenced step no
    two front ends ever write one key to different backends, and whatever either writes the other's
    reads consult. *)

From S2P Require Import Prelude Float64 KeyHash HashRange Config Placement Transition S3Op Route Backend Steps.

(** A placement as [Decide] and [Apply] see it: its ramp is limited to [rgo]. *)
Record wf_view (rgo : option HashRange) (p : Placement) : Prop := {
  wv_move : pMove p = None;
  wv_state : pState p ∈ States;
  wv_ramp : match pRamp p with
            | Some r => pState p = StateRamping /\ ramp_ok r /\ rRange r = rgo /\
                        forall h, rHold r = Some h -> ratio_ok (hRatio h)
            | None => pState p <> StateRamping
            end;
  wv_primary : pPrimary p <> "";
  wv_source : pState p <> StateActive -> pSource p <> "" /\ pSource p <> pPrimary p;
}.

(** The step's ramp under the range of the placement it is a step of. *)
Definition rerange (rgo : option HashRange) (p : Placement) : Placement :=
  p |> set_Ramp (set_rRange rgo <$> pRamp p).

(** The ramp in force, the placement's or its move's, has moved every key. *)
Definition whole_ramp (p : Placement) : bool :=
  match (match pMove p with Some m => mvRamp m | None => pRamp p end) with Some r => negb (f64_ltb (rRatio r) f1) | None => false end.

(** A step that the fence covers: a hold, a step from a hold, a step from a state whose writes have all
    moved, or the switch to MIGRATING of a ramp that has moved every key. *)
Definition fenced (p : Placement) (t : Transition) : Prop :=
  tHold t = true \/ Held p = true \/ pState p = StateMigrating \/ pState p = StateCutover \/ (tTo t = StateMigrating /\ whole_ramp p = true).

(** ** Ramps and holds *)

Definition with_ramp (r : Ramp) (ratio : f64) (prefixes : list string) : Ramp :=
  mkRamp (rHash r) ratio prefixes (rRange r) None.

(** A key is moved by the ratio, or by one of the prefixes. *)
Lemma InRange_by r key :
  InRange (Some r) key = Ok true ->
  InRange (Some (with_ramp r (rRatio r) [])) key = Ok true \/
  exists pre, pre ∈ rPrefixes r /\ forall ratio, InRange (Some (with_ramp r ratio [pre])) key = Ok true.
Proof.
  destruct r as [hash ratio prefixes rgo hold]. unfold InRange, inRangeOf, with_ramp. simpl.
  destruct (hasAnyPrefix key prefixes) eqn:Hany.
  - intros H. right. unfold hasAnyPrefix in Hany. apply existsb_exists in Hany as (pre & Hin & Hpre).
    exists pre. split; [by apply list_elem_of_In|]. intros ratio'. unfold hasAnyPrefix. simpl. rewrite Hpre. simpl.
    destruct rgo as [rg|]; [|done]. destruct (negb _); [done|]. by destruct (_ || _).
  - intros H. left. exact H.
Qed.

Lemma ramp_ok_with r ratio prefixes : ramp_ok r -> ratio_ok ratio -> ramp_ok (with_ramp r ratio prefixes).
Proof. intros (? & ? & ?) ?. unfold ramp_ok, with_ramp. simpl. tauto. Qed.

Lemma ratio_ok_refl x : ratio_ok x -> f64_leb x x = true.
Proof. intros (_ & Hn & _). destruct x; simpl in *; [done|done|lia]. Qed.

Lemma not_ltb_leb x y : ratio_ok x -> ratio_ok y -> f64_ltb x y = false -> f64_leb y x = true.
Proof. intros (_ & Hx & _) (_ & Hy & _). destruct x, y; simpl in *; try done. lia. Qed.

Lemma InRange_with_mono r ratio prefixes r2 key :
  ramp_ok r -> ratio_ok ratio -> ramp_ok r2 -> rRange r = rRange r2 ->
  f64_leb ratio (rRatio r2) = true -> prefixes ⊆ rPrefixes r2 ->
  InRange (Some (with_ramp r ratio prefixes)) key = Ok true -> InRange (Some r2) key = Ok true.
Proof.
  intros Hr Hratio Hr2 Hrg Hle Hsub. apply InRange_mono; [by apply ramp_ok_with|assumption|].
  split_and!; simpl; [|assumption..]. destruct Hr as [-> _], Hr2 as [-> _]. reflexivity.
Qed.

Lemma hold_ok r h : ramp_ok r -> ratio_ok (hRatio h) -> ramp_ok (holdRamp r h).
Proof. intros (? & ? & ?) ?. unfold ramp_ok, holdRamp. simpl. tauto. Qed.

(** The keys a completed step moves were moved already or held. *)
Lemma within_hold_covered r h ratio prefixes key :
  ramp_ok r -> ratio_ok (hRatio h) -> ratio_ok ratio -> rHold r = Some h ->
  within_hold r h ratio prefixes = None ->
  InRange (Some (with_ramp r ratio prefixes)) key = Ok true ->
  InRange (Some r) key = Ok true \/ InHold (Some r) key = Ok true.
Proof.
  intros Hr Hh Hratio Hhold Hw Hin. unfold within_hold in Hw.
  destruct (existsb _ prefixes) eqn:Hpre; [done|].
  destruct (f64_ltb (hRatio h) ratio && f64_ltb (rRatio r) ratio) eqn:Hrat; [done|].
  pose proof (hold_ok _ _ Hr Hh) as Hhr. pose proof (proj1 (proj2 Hr)) as Hrr.
  unfold InHold. rewrite Hhold. pose proof (list_subseteq_nil (rPrefixes r)). pose proof (list_subseteq_nil (hPrefixes h)).
  destruct (InRange_by _ _ Hin) as [Hby|(pre & Hel & Hby)]; simpl in *.
  - apply andb_false_iff in Hrat as [Hrat|Hrat]; [right|left];
      (eapply (InRange_with_mono r ratio []); [..|exact Hby]); try done; by apply not_ltb_leb.
  - assert (pre ∈ rPrefixes r \/ pre ∈ hPrefixes h) as [Hp|Hp].
    { destruct (decide (pre ∈ rPrefixes r)) as [?|H1]; [by left|]. destruct (decide (pre ∈ hPrefixes h)) as [?|H2]; [by right|].
      enough (existsb (fun pre => negb (bool_decide (pre ∈ rPrefixes r)) && negb (bool_decide (pre ∈ hPrefixes h))) prefixes = true) by congruence.
      apply existsb_exists. exists pre. split; [by apply list_elem_of_In|]. by rewrite !bool_decide_false. }
    + left. eapply (InRange_with_mono r (rRatio r) [pre]); [..|exact (Hby (rRatio r))]; try done; [by apply ratio_ok_refl|set_solver].
    + right. eapply (InRange_with_mono r (hRatio h) [pre]); [..|exact (Hby (hRatio h))]; try done; [by apply ratio_ok_refl|set_solver].
Qed.

(** ** One key under two placements *)

(** What two front ends, one on each placement, may do with one key: two accepted writes reach one
    backend, and each one's reads consult the backend the other writes. *)
Definition compat (x y : option backend * list backend) : Prop :=
  (forall a b, fst x = Some a -> fst y = Some b -> a = b) /\
  (forall a, fst x = Some a -> a ∈ snd y) /\ (forall b, fst y = Some b -> b ∈ snd x).

(** Both placements answer for the key, and compatibly. *)
Definition agree (p q : Placement) (key : string) : Prop :=
  exists wp wq rp rq,
    write_to p key = Ok wp /\ write_to q key = Ok wq /\ reads_of p key = Ok rp /\ reads_of q key = Ok rq /\
    compat (wp, rp) (wq, rq).

Lemma compat_sym x y : compat x y -> compat y x.
Proof. intros (He & ? & ?). split_and!; [|done..]. intros a b Ha Hb. symmetry. by apply He. Qed.

Lemma compat_one b rest rest' : compat (Some b, b :: rest) (Some b, b :: rest').
Proof. split_and!; simpl; [congruence| |]; intros ? [= <-]; set_solver. Qed.

(** A key of a RAMPING placement: moved, held, or neither. *)
Definition writes_at (p : Placement) (moved held : bool) : option backend :=
  if moved then Some (side_backend p Primary) else if held then None else Some (side_backend p Source).
Definition reads_at (p : Placement) (moved held : bool) : list backend :=
  if moved || held then [side_backend p Primary; side_backend p Source] else [side_backend p Source].

Lemma ramping_key rgo p r key : wf_view rgo p -> pRamp p = Some r ->
  exists moved held, InRange (Some r) key = Ok moved /\ InHold (Some r) key = Ok held /\
    write_to p key = Ok (writes_at p moved held) /\ reads_of p key = Ok (reads_at p moved held).
Proof.
  intros [_ _ Hr _ Hsrc] Hp. rewrite Hp in Hr. destruct Hr as (Hs & Hok & _ & Hh).
  destruct (InRange_total r key Hok) as [moved Hm].
  assert (exists held, InHold (Some r) key = Ok held) as [held Hheld].
  { unfold InHold. destruct (rHold r) as [h|] eqn:E; [|by exists false]. by apply InRange_total, hold_ok, Hh. }
  exists moved, held. split_and!; [done..| |]; unfold write_to, reads_of, Decide; rewrite Hs in *.
  all: rewrite bool_decide_false by (apply Hsrc; done); simpl; rewrite Hp, Hm; simpl.
  all: destruct moved; [done|]; rewrite Hheld; simpl; by destruct held.
Qed.

(** A key of a placement in another state. *)
Lemma settled_key rgo p key : wf_view rgo p -> pState p <> StateRamping ->
  write_to p key = Ok (Some (side_backend p Primary)) /\
  exists rest, reads_of p key = Ok (side_backend p Primary :: rest).
Proof.
  intros [_ Hst _ _ Hsrc] Hne. unfold write_to, reads_of, Decide.
  unfold States in Hst. rewrite !elem_of_cons in Hst. destruct Hst as [E|[E|[E|[E|E%elem_of_nil]]]]; [| | | |done]; [|congruence| |].
  - rewrite E. rewrite orb_true_r. simpl. split; [done|by eexists].
  - rewrite E in *. rewrite bool_decide_false by (apply Hsrc; done). simpl. split; [done|by eexists].
  - rewrite E in *. rewrite bool_decide_false by (apply Hsrc; done). simpl. split; [done|by eexists].
Qed.

(** Between two ramps over the same backends: the second moves what the first moved, and only that
    and what the first held. *)
Lemma agree_ramps rgo p q r r' key :
  wf_view rgo p -> wf_view rgo q -> pRamp p = Some r -> pRamp q = Some r' ->
  side_backend p Primary = side_backend q Primary -> side_backend p Source = side_backend q Source ->
  (InRange (Some r) key = Ok true -> InRange (Some r') key = Ok true) ->
  (InRange (Some r') key = Ok true -> InRange (Some r) key = Ok true \/ InHold (Some r) key = Ok true) ->
  agree p q key.
Proof.
  intros Hp Hq Hr Hr' HP HS Hup Hdown.
  destruct (ramping_key rgo p r key Hp Hr) as (m & h & Hm & Hh & Hw & Hrd).
  destruct (ramping_key rgo q r' key Hq Hr') as (m' & h' & Hm' & Hh' & Hw' & Hrd').
  exists (writes_at p m h), (writes_at q m' h'), (reads_at p m h), (reads_at q m' h'). rewrite Hm, Hm', Hh in *.
  do 4 (split; [assumption|]). unfold writes_at, reads_at. rewrite HP, HS. clear HP HS.
  generalize (side_backend q Primary) (side_backend q Source). intros P S. clear -Hup Hdown.
  destruct m, h, m', h'; split_and!; simpl; intros; simplify_eq/=; try reflexivity; try set_solver;
    try (specialize (Hup eq_refl); discriminate); destruct (Hdown eq_refl); discriminate.
Qed.

Lemma agree_sym p q key : agree p q key -> agree q p key.
Proof.
  intros (wp & wq & rp & rq & ? & ? & ? & ? & Hc). exists wq, wp, rq, rp. split_and!; try done. by apply compat_sym.
Qed.

(** ** Steps keep a placement well formed *)

Definition range_ok (rgo : option HashRange) : Prop :=
  match rgo with Some rg => is_u64 (rFrom rg) /\ is_u64 (rTo rg) | None => True end.

Lemma ratio_ok_0 : ratio_ok f0.
Proof. unfold ratio_ok. split_and!; [vm_compute; reflexivity|simpl; lia|rewrite f1_unit; simpl; pose proof f_unit_pos; lia]. Qed.
Lemma ratio_ok_1 : ratio_ok f1.
Proof.
  pose proof f_unit_pos. rewrite f1_unit. unfold ratio_ok. rewrite f1_unit.
  split_and!; [vm_compute; reflexivity|simpl; lia|simpl; lia].
Qed.
#[export] Hint Resolve ratio_ok_0 ratio_ok_1 : shunt.

Lemma grow_ratio r ratio prefixes x l :
  ratio_ok (rRatio r) -> ratio_ok ratio -> grow r ratio prefixes = (x, l) -> ratio_ok x.
Proof. unfold grow. intros ? ? [= <- _]. by destruct (f64_eqb ratio f0). Qed.

Lemma ramp_ok_rerange rgo r : rHash r = RampHash -> ratio_ok (rRatio r) -> range_ok rgo -> ramp_ok (set_rRange rgo r).
Proof. intros. split_and!; simpl; assumption. Qed.

Lemma step_hold_ok to ratio prefixes : ratio_ok ratio -> ratio_ok (hRatio (step_hold to ratio prefixes)).
Proof. intros. unfold step_hold. destruct (bool_decide _); simpl; auto with shunt. Qed.

Lemma wf_ramping rgo q r :
  pMove q = None -> pState q = StateRamping -> pRamp q = Some r -> rHash r = RampHash -> ratio_ok (rRatio r) ->
  range_ok rgo -> (forall h, rHold r = Some h -> ratio_ok (hRatio h)) -> pPrimary q <> "" ->
  pSource q <> "" -> pSource q <> pPrimary q -> wf_view rgo (rerange rgo q).
Proof.
  intros Hm Hs Hr Hh Hx Hrg Hhold HP HS HPS. split; simpl; [assumption|rewrite Hs; set_solver| |assumption|auto].
  rewrite Hr. simpl. split; [assumption|]. split; [by apply ramp_ok_rerange|]. split; [reflexivity|]. exact Hhold.
Qed.

Lemma wf_settled rgo q :
  pMove q = None -> pState q ∈ States -> pState q <> StateRamping -> pRamp q = None -> pPrimary q <> "" ->
  (pState q <> StateActive -> pSource q <> "" /\ pSource q <> pPrimary q) -> wf_view rgo (rerange rgo q).
Proof. intros Hm Hs Hne Hr HP HS. split; simpl; try assumption. rewrite Hr. exact Hne. Qed.

Lemma step_wf rgo p t q :
  range_ok rgo -> wf_view rgo p -> ratio_ok (tRatio t) -> step p t q -> wf_view rgo (rerange rgo q).
Proof.
  intros Hrg [Hmv Hst Hramp Hprim Hsrc] Ht Hstep.
  assert (forall r, pRamp p = Some r -> rHash r = RampHash /\ ratio_ok (rRatio r) /\
             forall h, rHold r = Some h -> ratio_ok (hRatio h)) as Hr.
  { intros r E. rewrite E in Hramp. destruct Hramp as (? & (? & ? & ?) & ? & ?). tauto. }
  assert (forall s, pState p = s -> s <> StateActive -> pSource p <> "" /\ pSource p <> pPrimary p) as Hps
    by (intros s <-; exact Hsrc).
  assert (forall s, pState p = s -> s <> StateRamping -> pRamp p = None) as Hnr.
  { intros s <- Hne. destruct (pRamp p); [tauto|reflexivity]. }
  destruct Hstep as [r h Hrl Hs HR HH|r h Hrl Hs HR HH|tg nm _ Hs Htg Htp|tg nm _ Hs Htg Htp|tg nm _ Hs Htg Htp
    |r x l _ Hs HR HH Hhash Hg|r x l _ _ Hs HR Hhash Hg|r _ Hs HR|r _ Hs HR|_ Hs|_ _ Hs];
    try (destruct (Hps _ Hs ltac:(discriminate)) as [HS HPS]); try (destruct (Hr _ HR) as (Hh1 & Hh2 & Hh3)).
  - apply wf_settled; simpl; [assumption|set_solver|discriminate|reflexivity|assumption|]. by intros [].
  - eapply wf_ramping; simpl; try reflexivity; simpl; try assumption. intros ? [=].
  - eapply wf_ramping; simpl; try reflexivity; simpl; try assumption; try (by apply not_eq_sym); auto with shunt.
    intros ? [= <-]. by apply step_hold_ok.
  - eapply wf_ramping; simpl; try reflexivity; simpl; try assumption; try (by apply not_eq_sym). intros ? [=].
  - apply wf_settled; simpl; [assumption|set_solver|discriminate|by eapply Hnr|assumption|]. intros _. split; [assumption|]. by apply not_eq_sym.
  - eapply wf_ramping; simpl; try reflexivity; simpl; try assumption. intros ? [= <-]. simpl. exact (grow_ratio _ _ _ _ _ Hh2 Ht Hg).
  - eapply wf_ramping; simpl; try reflexivity; simpl; try assumption; [exact (grow_ratio _ _ _ _ _ Hh2 Ht Hg)|]. intros ? [=].
  - eapply wf_ramping; simpl; try reflexivity; simpl; try assumption. intros ? [= <-]. simpl. auto with shunt.
  - apply wf_settled; simpl; [assumption|set_solver|discriminate|reflexivity|assumption|]. auto.
  - apply wf_settled; simpl; [assumption|set_solver|discriminate|by eapply Hnr|assumption|]. auto.
  - unfold endCutover. destruct (_ && _); (apply wf_settled; simpl; [assumption|set_solver|discriminate|by eapply Hnr|assumption|by intros []]).
Qed.

(** ** Fenced steps agree on every key *)

Lemma agree_settled rgo p q key :
  wf_view rgo p -> wf_view rgo q -> pState p <> StateRamping -> pState q <> StateRamping ->
  side_backend p Primary = side_backend q Primary -> agree p q key.
Proof.
  intros Hp Hq Hsp Hsq HP.
  destruct (settled_key rgo p key Hp Hsp) as (Hw & rest & Hr). destruct (settled_key rgo q key Hq Hsq) as (Hw' & rest' & Hr').
  do 4 eexists. do 4 (split; [eassumption|]). rewrite HP. apply compat_one.
Qed.

(** Every key unmoved: the ramp's source is the only backend of the placement it came from. *)
Lemma agree_unmoved rgo p q r key b rest :
  write_to p key = Ok (Some b) -> reads_of p key = Ok (b :: rest) -> wf_view rgo q -> pRamp q = Some r ->
  b = side_backend q Source -> InRange (Some r) key = Ok false -> agree p q key.
Proof.
  intros Hw Hrd Hq Hr -> Hin.
  destruct (ramping_key rgo q r key Hq Hr) as (m & h & Hm & Hh & Hw' & Hrd'). rewrite Hin in Hm. injection Hm as <-.
  do 4 eexists. do 4 (split; [eassumption|]). unfold writes_at, reads_at.
  split_and!; simpl; destruct h; intros; simplify_eq; set_solver.
Qed.

(** Every key moved or held: the settled placement has the ramp's primary. *)
Lemma agree_moved rgo p q r key :
  wf_view rgo p -> wf_view rgo q -> pRamp p = Some r -> pState q <> StateRamping ->
  side_backend p Primary = side_backend q Primary ->
  InRange (Some r) key = Ok true \/ InHold (Some r) key = Ok true -> agree p q key.
Proof.
  intros Hp Hq Hr Hsq HP Hin.
  destruct (settled_key rgo q key Hq Hsq) as (Hw & rest & Hrd).
  destruct (ramping_key rgo p r key Hp Hr) as (m & h & Hm & Hh & Hw' & Hrd'). rewrite Hm, Hh in Hin.
  do 4 eexists. do 4 (split; [eassumption|]). unfold writes_at, reads_at. rewrite HP. clear -Hin.
  generalize (side_backend q Primary) (side_backend p Source). intros P S.
  split_and!; simpl; destruct m, h; intros; simplify_eq; try set_solver; destruct Hin; discriminate.
Qed.

Lemma InRange_empty r key :
  rHash r = RampHash -> f64_eqb (rRatio r) f0 = true -> rPrefixes r = [] -> InRange (Some r) key = Ok false.
Proof.
  intros Hh H0 Hp. unfold InRange, inRangeOf. rewrite Hh, Hp. rewrite bool_decide_true by reflexivity. simpl.
  assert (f64_leb (rRatio r) f0 = true) as ->. { destruct (rRatio r); simpl in *; try done. lia. }
  destruct (rRange r); [by destruct (_ || _)|reflexivity].
Qed.

Lemma InRange_rehold rgo h r key :
  rRange r = rgo -> InRange (Some (set_rRange rgo (set_rHold h r))) key = InRange (Some r) key.
Proof. destruct r. simpl. intros ->. reflexivity. Qed.

Lemma ratio_ge_1_pos x : f64_leb f1 x = true -> f64_leb x f0 = false.
Proof. rewrite f1_unit. pose proof f_unit_pos. destruct x as [|[]|]; simpl; try done. lia. Qed.

(** Growing keeps the ratio in force or raises it, and keeps the prefixes. *)
Lemma add_prefix_sub l more : l ⊆ foldl add_prefix l more.
Proof.
  revert l. induction more as [|x more IH]; intros l; simpl; [set_solver|].
  etrans; [|apply IH]. unfold add_prefix. destruct (bool_decide _); set_solver.
Qed.

Lemma grow_le r t x l : ratio_ok (rRatio r) -> ratio_ok (tRatio t) ->
  grow r (tRatio t) (tPrefixes t) = (x, l) ->
  f64_eqb (tRatio t) f0 = true \/ f64_ltb (tRatio t) (rRatio r) = false ->
  f64_leb (rRatio r) x = true /\ rPrefixes r ⊆ l.
Proof.
  intros Hr Ht [= <- <-] Hor. split; [|apply add_prefix_sub].
  destruct (f64_eqb (tRatio t) f0) eqn:E; [by apply ratio_ok_refl|]. destruct Hor as [|Hor]; [done|]. by apply not_ltb_leb.
Qed.

Lemma grow_mono rgo r t x l key : ramp_ok r -> rRange r = rgo -> ratio_ok (tRatio t) ->
  grow r (tRatio t) (tPrefixes t) = (x, l) ->
  f64_eqb (tRatio t) f0 = true \/ f64_ltb (tRatio t) (rRatio r) = false ->
  InRange (Some r) key = Ok true -> InRange (Some (set_rRange rgo (mkRamp (rHash r) x l None None))) key = Ok true.
Proof.
  intros Hok Hrg Ht Hg Hor. pose proof Hok as (Hh & Hr & Hu). destruct (grow_le r t x l Hr Ht Hg Hor) as [Hle Hsub].
  apply InRange_mono; [assumption| |split_and!; simpl; [reflexivity|assumption|assumption|assumption]].
  apply ramp_ok_rerange; simpl; [assumption|exact (grow_ratio _ _ _ _ _ Hr Ht Hg)|]. by rewrite <- Hrg.
Qed.

(** The backends a placement that leaves ACTIVE starts from. *)
Lemma leave_source target name p : target <> pPrimary p ->
  side_backend (leave target name p) Source = side_backend p Primary.
Proof.
  intros Hne. unfold side_backend, role_backend, leave. simpl. f_equal.
  unfold mget, mlookup. simpl. rewrite lookup_insert_ne by done. by destruct (pNames p).
Qed.

Lemma endCutover_primary p q : pPrimary q = pPrimary p -> pNames q = pNames p -> pLegClusters q = pLegClusters p ->
  pSource p <> pPrimary p -> side_backend (endCutover p q) Primary = side_backend p Primary.
Proof.
  intros H1 H2 H3 Hne. unfold endCutover, side_backend, role_backend, ClusterOf.
  destruct (_ && _); simpl; rewrite H1, H2, H3; [|done]. f_equal. unfold mget. by rewrite mlookup_delete_ne.
Qed.

Definition key_in (rgo : option HashRange) (key : string) : Prop := forall rg, rgo = Some rg -> InRangeHash rg key = true.

(** A ramp of ratio one or more has moved every key of its range. *)
Lemma InRange_full r key : rHash r = RampHash -> ratio_ok (rRatio r) -> f64_ltb (rRatio r) f1 = false -> key_in (rRange r) key -> InRange (Some r) key = Ok true.
Proof.
  intros Hh Hok Hlt Hkey. pose proof (not_ltb_leb _ _ Hok ratio_ok_1 Hlt) as H1. apply InRange_whole; [done|done|by apply ratio_ge_1_pos|exact Hkey].
Qed.

(** A hold of ratio one or more covers every key of its range. *)
Lemma InHold_whole r h key : rHash r = RampHash -> rHold r = Some h -> ratio_ok (hRatio h) ->
  f64_ltb (hRatio h) f1 = false -> key_in (rRange r) key -> InHold (Some r) key = Ok true.
Proof.
  intros Hh Hhold Hok Hlt Hkey. unfold InHold. rewrite Hhold. by apply InRange_full.
Qed.

Lemma step_agree rgo p t q key :
  range_ok rgo -> wf_view rgo p -> ratio_ok (tRatio t) -> fenced p t -> key_in rgo key ->
  step p t q -> agree p (rerange rgo q) key.
Proof.
  intros Hrg Hwf Ht Hf Hkey Hstep. pose proof (step_wf rgo p t q Hrg Hwf Ht Hstep) as Hwf'.
  pose proof Hwf as [Hmv Hst Hramp Hprim Hsrc]. unfold fenced in Hf.
  destruct Hstep as [r h Hrl Hs HR HH H0 Hp0|r h Hrl Hs HR HH|tg nm Hhd Hs Htg Htp|tg nm Hhd Hs Htg Htp|tg nm Hhd Hs Htg Htp
    |r x l Hhd Hs HR HH Hhash Hg|r x l Hhd Hto Hs HR Hhash Hg Hor Hw|r Hhd Hs HR|r Hhd Hs HR Hw|Hhd Hs|Hrl Hhd Hs];
    try (rewrite HR in Hramp; destruct Hramp as (_ & Hok & Hrgo & Hhold); pose proof Hok as (Hrh & Hrr & _));
    try (rewrite Hs in Hsrc; destruct (Hsrc ltac:(discriminate)) as [HS HPS]).
  - destruct (settled_key rgo _ key Hwf') as (Hw1 & rest & Hr1); [discriminate|]. apply agree_sym.
    eapply (agree_unmoved rgo); [exact Hw1|exact Hr1|assumption|exact HR|reflexivity|by apply InRange_empty].
  - eapply (agree_ramps rgo); try eassumption; try reflexivity; simpl; rewrite InRange_rehold by assumption; tauto.
  - destruct (settled_key rgo p key Hwf) as (Hw1 & rest & Hr1); [rewrite Hs; discriminate|].
    eapply (agree_unmoved rgo); [exact Hw1|exact Hr1|assumption|reflexivity| |by apply InRange_empty]. symmetry. by apply (leave_source tg nm).
  - rewrite Hhd, Hs in Hf. unfold Held, whole_ramp in Hf. rewrite Hmv in Hf. destruct (pRamp p); [|naive_solver].
    destruct Hramp as [E _]. rewrite Hs in E. discriminate E.
  - rewrite Hhd, Hs in Hf. unfold Held, whole_ramp in Hf. rewrite Hmv in Hf. destruct (pRamp p); [|naive_solver].
    destruct Hramp as [E _]. rewrite Hs in E. discriminate E.
  - eapply (agree_ramps rgo); try eassumption; try reflexivity; simpl; rewrite InRange_rehold by assumption; tauto.
  - rewrite Hhd, Hs, Hto in Hf. unfold Held in Hf. rewrite Hmv, HR in Hf.
    destruct (rHold r) as [h|] eqn:HH; [|naive_solver].
    eapply (agree_ramps rgo); try eassumption; try reflexivity; simpl; [by apply (grow_mono rgo r t)|].
    intros Hin. eapply (within_hold_covered r h x l); [assumption|by apply Hhold| |assumption|by apply Hw|].
    { exact (grow_ratio _ _ _ _ _ Hrr Ht Hg). } unfold with_ramp. rewrite Hrgo. exact Hin.
  - eapply (agree_ramps rgo); try eassumption; try reflexivity; simpl; rewrite InRange_rehold by assumption; tauto.
  - rewrite Hhd, Hs in Hf. unfold Held, whole_ramp in Hf. rewrite Hmv, HR in Hf.
    eapply (agree_moved rgo); try eassumption; try reflexivity; [discriminate|].
    destruct (f64_ltb (rRatio r) f1) eqn:Hlt; [right|left; apply InRange_full; [done|done|done|by rewrite Hrgo]].
    destruct (rHold r) as [h|] eqn:HH; [|naive_solver].
    eapply InHold_whole; [assumption|exact HH|by apply Hhold|by apply Hw|by rewrite Hrgo].
  - eapply (agree_settled rgo); try assumption; try reflexivity; [rewrite Hs|]; discriminate.
  - eapply (agree_settled rgo); [assumption|assumption|rewrite Hs; discriminate| |symmetry; by apply endCutover_primary].
    unfold endCutover. by destruct (_ && _).
Qed.
