(* ===== verification/MoveFence.v ===== *)
(** * The fence over moves of part of a bucket (internal/directory/moves.go)

    A move takes a range of the hashes of one scope from one leg to another.  Its steps are those of
    a migration between two buckets, applied to a view of the placement, so the fence of plain
    placements carries over: the keys in the move follow their view, the others stay with their
    owner, and the end of the move hands exactly the moved keys to the new leg. *)

From S2P Require Import Prelude Float64 KeyHash HashRange Config Placement Transition S3Op Route Backend Scopes ApplyFacts Steps Fence.

(** ** Well-formed placements *)

Record wf_move (p : Placement) (m : Move) : Prop := {
  wm_tables : wf_tables p;
  wm_plain : pRamp p = None;
  wm_state : pState p ∈ States /\ pState p <> StateActive;
  wm_scope : exists table, scopeTable p (mvScope m) = Some table /\ held_by table (mvRange m) (mvFrom m);
  wm_range : range_u64 (mvRange m);
  wm_to : hasLeg (pLegs p) (mvTo m) = true;
  wm_ne : mvFrom m <> mvTo m;
  wm_ramp : match mvRamp m with
            | Some r => pState p = StateRamping /\ rHash r = RampHash /\ ratio_ok (rRatio r) /\
                        forall h, rHold r = Some h -> ratio_ok (hRatio h)
            | None => pState p <> StateRamping
            end;
}.

(** A placement of the directory: in a move, spread at rest, or plain in any state. *)
Definition wf_placement (p : Placement) : Prop :=
  pLegClusters p = None /\
  match pMove p with
  | Some m => wf_move p m
  | None => if Spread p then wf_tables p /\ pState p = StateActive /\ pRamp p = None else wf_view None p
  end.

(** Both placements answer for the key's requests, and compatibly. *)
Definition agree_key (p q : Placement) (key : string) : Prop :=
  exists x y, routed p key = Ok x /\ routed q key = Ok y /\ compat x y.

(** ** From views to placements *)

Lemma view_routed p v key w r : key_view p key = Ok v -> write_to v key = Ok w -> reads_of v key = Ok r ->
  routed p key = Ok (w, r).
Proof. intros Hv Hw Hr. unfold routed. by rewrite Hv, Ok_bind, Hw, Ok_bind, Hr. Qed.

Lemma agree_views p q vp vq key :
  key_view p key = Ok vp -> key_view q key = Ok vq -> agree vp vq key -> agree_key p q key.
Proof.
  intros Hp Hq (wp & wq & rp & rq & ? & ? & ? & ? & Hc). exists (wp, rp), (wq, rq).
  split_and!; [by eapply view_routed..|done].
Qed.

(** An outcome known by its one backend, against a view. *)
Lemma agree_to_one p q vp vq b key :
  key_view p key = Ok vp -> agree vp vq key ->
  write_to vq key = Ok (Some b) -> reads_of vq key = Ok [b] -> routed q key = Ok (one_backend b) -> agree_key p q key.
Proof.
  intros Hp (wp & wq & rp & rq & Hwp & Hwq & Hrp & Hrq & Hc) Hw Hr Hq.
  rewrite Hwq in Hw. injection Hw as ->. rewrite Hrq in Hr. injection Hr as ->.
  exists (wp, rp), (Some b, [b]). split_and!; [by eapply view_routed|done|done].
Qed.

Lemma agree_one p q b key : routed p key = Ok (one_backend b) -> routed q key = Ok (one_backend b) -> agree_key p q key.
Proof. intros. exists (one_backend b), (one_backend b). split_and!; [done..|]. apply (compat_one b [] []). Qed.

(** Neither the barrier nor the fields a view does not read matter. *)
Lemma agree_barrier p q b key : agree p q key -> agree p (set_Barrier b q) key.
Proof. done. Qed.

(** ** The keys of a move *)

Lemma scopeTable_Scope p key : wf_tables p -> scopeTable p (fst (Scope p key)) = Some (snd (Scope p key)).
Proof.
  intros Hwf. rewrite Scope_best. pose proof (best_rule_is_best (match_key key) (sl (pPrefixes p))) as Hb.
  destruct (best_rule _ _) as [b|]; simpl; [|done]. destruct Hb as (Hin & _ & _).
  unfold scopeTable. rewrite decide_False by by apply (wt_rules p Hwf).
  pose proof (wt_nodup p Hwf) as Hnd. revert Hin Hnd. generalize (sl (pPrefixes p)). clear.
  induction l as [|r l IH]; intros Hin Hnd; [by apply elem_of_nil in Hin|]. simpl.
  destruct (bool_decide (prPrefix r = prPrefix b)) eqn:E.
  - apply bool_decide_eq_true in E. apply elem_of_cons in Hin as [->|Hin]; [done|]. exfalso.
    apply NoDup_cons in Hnd as [Hnd _]. apply Hnd. rewrite E. apply list_elem_of_fmap. by exists b.
  - apply bool_decide_eq_false in E. apply elem_of_cons in Hin as [->|Hin]; [done|].
    apply IH; [done|]. by apply NoDup_cons in Hnd as [_ ?].
Qed.

Lemma scopeTable_ok p scope table : wf_tables p -> scopeTable p scope = Some table -> table_ok p table.
Proof.
  intros Hwf Ht. unfold scopeTable in Ht. case_decide; [injection Ht as <-; apply Hwf|].
  destruct (List.find _ _) as [r|] eqn:E; [|done]. injection Ht as <-. apply find_some in E as [Hr%list_elem_of_In _].
  by apply (wt_rules p Hwf).
Qed.

Lemma held_by_owner table rg leg h : partition table -> held_by table rg leg -> in_hrange rg h = true ->
  is_u64 h -> OwnerIn table h = leg.
Proof.
  intros Hpart [Hle (o & Hin & <- & H1 & H2)] Hh Hu. apply in_hrange_true in Hh.
  pose proof (OwnerIn_owner_at table h Hpart Hu) as E.
  rewrite (owner_at_elem _ _ _ _ o Hpart Hin) in E; [by injection E|]. apply in_owner_true. lia.
Qed.

Lemma InMove_iff p m key : pMove p = Some m ->
  InMove p key = true <-> in_hrange (mvRange m) (rampHash key) = true /\ fst (Scope p key) = mvScope m.
Proof. intros Hm. unfold InMove, InRangeHash. rewrite Hm, andb_true_iff, bool_decide_eq_true. done. Qed.

(** A key in a move is owned by the leg the move takes it from. *)
Lemma InMove_owner p m key : wf_move p m -> pMove p = Some m -> InMove p key = true -> owner_leg p key = mvFrom m.
Proof.
  intros Hwf Hm Hin. apply (InMove_iff p m key Hm) in Hin as [Hh Hs].
  destruct (wm_scope p m Hwf) as (table & Ht & Hheld). rewrite <- Hs, scopeTable_Scope in Ht by apply Hwf.
  injection Ht as <-. unfold owner_leg. eapply held_by_owner; [|done|done|apply rampHash_u64].
  apply Scope_table, Hwf.
Qed.

Lemma wm_from p m : wf_move p m -> hasLeg (pLegs p) (mvFrom m) = true.
Proof.
  intros Hwf. destruct (wm_scope p m Hwf) as (table & Ht & _ & o & Hin & <- & _).
  destruct (scopeTable_ok _ _ _ (wm_tables p m Hwf) Ht) as [_ Hl]. by apply (proj1 (list.Forall_forall _ _) Hl).
Qed.

Lemma MoveView_wf p m : wf_move p m -> wf_view (Some (mvRange m)) (MoveView p m).
Proof.
  intros Hwf. pose proof (wm_from p m Hwf) as Hfrom. destruct Hwf as [Ht _ [Hst Hna] Hsc Hrg Hto Hne Hramp].
  split; simpl; [done|done| | |].
  - rewrite v2ramp_id. destruct (mvRamp m) as [r|]; [|done]. destruct Hramp as (? & ? & ? & ?).
    split_and!; [done|by apply ramp_ok_rerange|done|done].
  - by apply (wt_legs p Ht).
  - intros _. split; [by apply (wt_legs p Ht)|done].
Qed.

Lemma InMove_key_in p m key : pMove p = Some m -> InMove p key = true -> key_in (Some (mvRange m)) key.
Proof. intros Hm Hin rg [= <-]. by apply (InMove_iff p m key Hm) in Hin as [? _]. Qed.

(** ** The end of a move *)

Lemma foldl_longer_map ok f (l : list PrefixRule) best :
  (forall r, prPrefix (f r) = prPrefix r) -> (forall r, ok (f r) = ok r) ->
  foldl (longer ok) (f <$> best) (List.map f l) = f <$> foldl (longer ok) best l.
Proof.
  intros Hf Hok. revert best. induction l as [|r l IH]; intros best; simpl; [done|].
  rewrite <- IH. f_equal. unfold longer. destruct best as [b|]; simpl; rewrite ?Hf, Hok; by case_match.
Qed.

Definition set_table (scope : string) (table : list Owner) (r : PrefixRule) : PrefixRule :=
  if decide (prPrefix r = scope) then mkRule (prPrefix r) table else r.

Lemma setScopeTable_prefixes scope table p : scope <> "" ->
  sl (pPrefixes (setScopeTable scope table p)) = List.map (set_table scope table) (sl (pPrefixes p)) /\
  pOwners (setScopeTable scope table p) = pOwners p.
Proof. intros Hne. unfold setScopeTable. rewrite decide_False by done. simpl. by destruct (pPrefixes p). Qed.

(** A key of the scope finds the new table, any other the one it had. *)
Lemma setScopeTable_Scope scope table p key : wf_tables p ->
  Scope (setScopeTable scope table p) key =
  (fst (Scope p key), if decide (fst (Scope p key) = scope) then table else snd (Scope p key)).
Proof.
  intros Hwf. rewrite !Scope_best. pose proof (best_rule_is_best (match_key key) (sl (pPrefixes p))) as Hb.
  destruct (decide (scope = "")) as [->|Hne].
  - unfold setScopeTable. rewrite decide_True by done. simpl.
    destruct (best_rule _ _) as [b|]; simpl in *; [|done]. rewrite decide_False; [done|]. by apply (wt_rules p Hwf), Hb.
  - destruct (setScopeTable_prefixes scope table p Hne) as [-> Ho]. unfold best_rule.
    change (@None PrefixRule) with (set_table scope table <$> @None PrefixRule) at 1.
    rewrite foldl_longer_map; [|intros r; unfold set_table; by case_decide|intros r; unfold set_table, match_key; by case_decide].
    destruct (foldl _ _ _) as [b|]; simpl; [|rewrite Ho, decide_False by done; done].
    unfold set_table. case_decide; done.
Qed.

Lemma setScopeTable_keeps scope table p :
  pKeyHash (setScopeTable scope table p) = pKeyHash p /\ pLegs (setScopeTable scope table p) = pLegs p /\
  pLegClusters (setScopeTable scope table p) = pLegClusters p /\ pState (setScopeTable scope table p) = pState p /\
  pMove (setScopeTable scope table p) = pMove p /\ pRamp (setScopeTable scope table p) = pRamp p.
Proof. unfold setScopeTable. by case_decide. Qed.

Lemma setScopeTable_wf scope table p : wf_tables p -> table_ok p table -> wf_tables (setScopeTable scope table p).
Proof.
  intros [Th To Tr Tn Tl Tk Tc] Ht. destruct (setScopeTable_keeps scope table p) as (H1 & H2 & H3 & _ & _ & _).
  split; unfold table_ok in *; rewrite ?H1, ?H2, ?H3; try done.
  - unfold setScopeTable. case_decide; simpl; done.
  - unfold setScopeTable. case_decide; simpl; [done|]. destruct (pPrefixes p) as [rules|]; [|by intros ? ?%elem_of_nil].
    simpl in *. intros r (r' & <- & Hr')%list_elem_of_In%in_map_iff. apply list_elem_of_In in Hr'.
    destruct (Tr r' Hr'). case_decide; simpl; done.
  - unfold setScopeTable. case_decide; simpl; [done|]. destruct (pPrefixes p) as [rules|]; [|constructor]. simpl in *.
    replace (prPrefix <$> List.map _ rules) with (prPrefix <$> rules); [done|].
    clear. induction rules as [|r rules IH]; [done|]. cbn [List.map]. rewrite !fmap_cons, IH. f_equal. by case_decide.
Qed.

(** Dropping a leg that owns nothing. *)
Lemma ownsKeys_false p leg o table : ownsKeys p leg = false ->
  table = sl (pOwners p) \/ (exists r, r ∈ sl (pPrefixes p) /\ table = prOwners r) -> o ∈ table -> oLeg o <> leg.
Proof.
  unfold ownsKeys. intros H Ht Hin E. rewrite orb_false_iff in H. destruct H as [H1 H2].
  assert (owns leg o = true) as Ho by (unfold owns; by rewrite bool_decide_true).
  destruct Ht as [->|(r & Hr & ->)].
  - rewrite <- not_true_iff_false, existsb_exists in H1. destruct H1. exists o. split; [by apply list_elem_of_In|done].
  - rewrite <- not_true_iff_false, existsb_exists in H2. destruct H2. exists r. split; [by apply list_elem_of_In|].
    apply existsb_exists. exists o. split; [by apply list_elem_of_In|done].
Qed.

Definition drop_leg (leg : string) (p : Placement) : Placement :=
  if ownsKeys p leg then p else p |> set_Legs (mdelete leg (pLegs p)).

Lemma hasLeg_delete legs leg id : id <> leg -> hasLeg (mdelete leg legs) id = hasLeg legs id.
Proof. intros. unfold hasLeg, mhas. by rewrite mlookup_delete_ne. Qed.

Lemma table_ok_drop p leg table : (forall o, o ∈ table -> oLeg o <> leg) -> table_ok p table ->
  table_ok (p |> set_Legs (mdelete leg (pLegs p))) table.
Proof.
  intros Hne [Hp Hl]. split; [done|]. apply list.Forall_forall. intros o Ho. simpl.
  rewrite hasLeg_delete by by apply Hne. by apply (proj1 (list.Forall_forall _ _) Hl).
Qed.

Lemma drop_leg_wf leg p : wf_tables p -> wf_tables (drop_leg leg p).
Proof.
  intros Hwf. unfold drop_leg. destruct (ownsKeys p leg) eqn:E; [done|]. destruct Hwf as [Th To Tr Tn Tl Tk Tc].
  split; simpl; try done.
  - apply table_ok_drop; [|done]. intros o. apply (ownsKeys_false p); [done|by left].
  - intros r Hr. destruct (Tr r Hr). split; [done|]. apply table_ok_drop; [|done].
    intros o. apply (ownsKeys_false p); [done|right; by exists r].
  - intros id Hid. apply Tl. destruct (decide (id = leg)) as [->|Hne]; [|by rewrite hasLeg_delete in Hid].
    apply mhas_true in Hid. rewrite mlookup_delete_eq in Hid. by destruct Hid.
  - intros id l Hl. destruct (decide (id = leg)) as [->|Hne]; [by rewrite mlookup_delete_eq in Hl|].
    rewrite mlookup_delete_ne in Hl by done. by eapply Tk.
Qed.

Lemma drop_leg_owner leg p key : wf_tables p ->
  owner_leg (drop_leg leg p) key = owner_leg p key /\
  leg_backend (drop_leg leg p) (owner_leg p key) = leg_backend p (owner_leg p key).
Proof.
  intros Hwf. unfold drop_leg. destruct (ownsKeys p leg) eqn:E; [done|]. split; [done|].
  destruct (owner_leg_in p (snd (Scope p key)) (rampHash key)) as (o & Hin & _ & Ho & _);
    [by apply Scope_table|apply rampHash_u64|]. fold (owner_leg p key) in Ho.
  assert (owner_leg p key <> leg) as Hne.
  { rewrite <- Ho. eapply ownsKeys_false; [exact E| |exact Hin]. rewrite Scope_best.
    pose proof (best_rule_is_best (match_key key) (sl (pPrefixes p))) as Hb.
    destruct (best_rule _ _) as [b|]; [right; exists b; split; [apply Hb|done]|by left]. }
  unfold leg_backend, mget. simpl. by rewrite mlookup_delete_ne.
Qed.

(** Reassigning a range to a leg of the placement keeps a table sound. *)
Lemma reassign_ok p table rg src leg : table_ok p table -> held_by table rg src -> hasLeg (pLegs p) leg = true ->
  table_ok p (reassign table rg leg) /\
  forall h, is_u64 h -> OwnerIn (reassign table rg leg) h = if in_hrange rg h then leg else OwnerIn table h.
Proof.
  intros [Hpart Hlegs] Hheld Hleg. destruct (reassign_spec table rg src leg Hpart Hheld) as [Hpart' Hown].
  split; [split; [done|]|].
  - apply list.Forall_forall. intros o Ho. destruct (seg_bounds _ _ _ _ Hpart' Ho) as (Hb1 & Hb2 & Hb3).
    assert (is_u64 (oFrom o)) as Hu by (unfold is_u64; lia).
    pose proof (Hown (oFrom o) Hu) as E. rewrite (owner_at_elem _ _ _ _ o Hpart' Ho) in E by (apply in_owner_true; lia).
    destruct (in_hrange rg (oFrom o)); [by injection E as ->|]. destruct (owner_at_Some table _ _ (eq_sym E)) as (o' & Hin & _ & <-).
    by apply (proj1 (list.Forall_forall _ _) Hlegs).
  - intros h Hh. pose proof (OwnerIn_owner_at _ h Hpart' Hh) as E1. pose proof (OwnerIn_owner_at _ h Hpart Hh) as E2.
    rewrite Hown, E2 in E1 by done. destruct (in_hrange rg h); congruence.
Qed.

(** The placement the end of a move settles: its keys are the new leg's, and every other key stays. *)
Lemma endMove_shape p m np : wf_move p m -> pMove p = Some m ->
  pKeyHash np = pKeyHash p -> pLegs np = pLegs p -> pLegClusters np = pLegClusters p ->
  pOwners np = pOwners p -> pPrefixes np = pPrefixes p ->
  exists x, endMove p m np = settle x /\ wf_tables x /\ pMove x = None /\ pState x = StateActive /\ pRamp x = pRamp np /\
    forall key, leg_backend x (owner_leg x key) = leg_backend p (if InMove p key then mvTo m else owner_leg p key).
Proof.
  intros Hwf Hm H1 H2 H3 H4 H5. pose proof (wm_tables p m Hwf) as Htab.
  destruct (wm_scope p m Hwf) as (table & Ht & Hheld). unfold endMove. rewrite Ht. simpl.
  set (np1 := np |> set_State StateActive |> set_Move None).
  assert (wf_tables np1) as Hwf1.
  { destruct Htab. split; unfold table_ok in *; subst np1; simpl; rewrite ?H1, ?H2, ?H3, ?H4, ?H5; done. }
  pose proof (scopeTable_ok _ _ _ Htab Ht) as Htok.
  destruct (reassign_ok p table (mvRange m) (mvFrom m) (mvTo m)) as [Hpart Hown]; [done|done|apply Hwf|].
  set (np2 := setScopeTable _ _ np1). fold (drop_leg (mvFrom m) np2).
  assert (wf_tables np2) as Hwf2.
  { apply setScopeTable_wf; [done|]. unfold table_ok in *. subst np1. simpl. by rewrite H2. }
  destruct (setScopeTable_keeps (mvScope m) (reassign table (mvRange m) (mvTo m)) np1) as (_ & K2 & _ & K4 & K5 & K6).
  fold np2 in K2, K4, K5, K6. exists (drop_leg (mvFrom m) np2).
  split_and!; [done|by apply drop_leg_wf|unfold drop_leg; by destruct (ownsKeys np2 _)..|]. intros key.
  destruct (drop_leg_owner (mvFrom m) np2 key Hwf2) as [Ho Hb].
  rewrite Ho, Hb. rewrite (leg_backend_legs np2 p) by (rewrite K2; exact H2). f_equal.
  unfold owner_leg. unfold np2. rewrite setScopeTable_Scope by done. simpl.
  assert (Scope np1 key = Scope p key) as -> by (subst np1; unfold Scope; simpl; by rewrite H4, H5).
  unfold InMove. rewrite Hm. unfold InRangeHash. case_decide as Hsc.
  - rewrite Hown by apply rampHash_u64. rewrite (bool_decide_eq_true_2 _ Hsc), andb_true_r.
    rewrite <- Hsc, scopeTable_Scope in Ht by done. by injection Ht as <-.
  - by rewrite (bool_decide_eq_false_2 _ Hsc), andb_false_r.
Qed.

Lemma endMove_routed p m np key : wf_move p m -> pMove p = Some m ->
  pKeyHash np = pKeyHash p -> pLegs np = pLegs p -> pLegClusters np = pLegClusters p ->
  pOwners np = pOwners p -> pPrefixes np = pPrefixes p ->
  routed (endMove p m np) key =
  Ok (one_backend (leg_backend p (if InMove p key then mvTo m else owner_leg p key))).
Proof.
  intros. destruct (endMove_shape p m np) as (x & -> & Hx & Hm & Ha & _ & Hk); [done..|].
  rewrite settle_routed by done. by rewrite Hk.
Qed.

(** ** Steps of a move *)

Lemma wf_ramp_shape rgo p : wf_view rgo p -> ramp_shape p.
Proof.
  intros [Hm _ Hr _ _]. split; [done|]. destruct (pRamp p); split; intros H; [by eexists|apply Hr|done|by destruct H].
Qed.

Lemma fenced_view p m t : pMove p = Some m -> fenced p t -> fenced (MoveView p m) (step_only "" "" t).
Proof.
  intros Hm Hf. unfold fenced, Held, whole_ramp in *. rewrite Hm in Hf. simpl. rewrite v2ramp_id. by destruct (mvRamp m).
Qed.

(** The view of the placement a step of a move results in is the result of the step on the view. *)
Lemma stepMove_view p m t q b : step (MoveView p m) t q -> pState p <> StateActive -> pState q <> StateActive ->
  let m' := set_mvSteps (limit_ramp (mvRange m) (pRamp q)) (pCutover q) m in
  MoveView (p |> set_Barrier b |> set_State (pState q) |> set_Move (Some m')) m' =
  set_Barrier b (rerange (Some (mvRange m)) q).
Proof.
  intros Hst Hp Hq m'. rewrite (step_keeps _ _ _ Hst Hp Hq). unfold MoveView, rerange. subst m'. simpl.
  rewrite v2ramp_id, v2cutover_id. by destruct (pRamp q).
Qed.

Lemma stepMove_Ok p m t np : stepMove applyPlain p m t = Ok np ->
  exists nv, applyPlain (MoveView p m) (step_only "" "" t) = Ok nv /\
    np = if bool_decide (pState nv = StateActive) then
           if tRelease t then settle (p |> set_Barrier (pBarrier nv) |> set_State StateActive |> set_Move None)
           else endMove p m (p |> set_Barrier (pBarrier nv))
         else p |> set_Barrier (pBarrier nv) |> set_State (pState nv)
                |> set_Move (Some (set_mvSteps (limit_ramp (mvRange m) (pRamp nv)) (pCutover nv) m)).
Proof.
  unfold stepMove. rewrite clone_id. intros H.
  repeat pass_check H.
  apply bind_Ok in H as (same & _ & H).
  repeat pass_check H.
  apply bind_Ok in H as (nv & Hnv & H). exists nv. split; [done|].
  destruct (bool_decide _); [destruct (tRelease t)|]; congruence.
Qed.

(** What a step of a move back to ACTIVE is: a release of its first held step, or its end. *)
Lemma step_to_active p t q : step p t q -> pState p <> StateActive -> pSource p <> pPrimary p -> pState q = StateActive ->
  (tRelease t = true /\ side_backend q Primary = side_backend p Source) \/
  (tRelease t = false /\ side_backend q Primary = side_backend p Primary).
Proof.
  intros Hst Hp Hne Hq. destruct Hst; try done; try (simpl in Hq; congruence).
  - by left.
  - right. split; [done|]. by apply endCutover_primary.
Qed.

Lemma wf_tables_rest p b : wf_tables p -> wf_tables (p |> set_Barrier b |> set_State StateActive |> set_Move None).
Proof. intros []. by split. Qed.

(** The view of a key that stays with its owner while the move steps. *)
Lemma unmoved_step p m q key : wf_move p m -> pMove p = Some m -> InMove p key = false ->
  routed q key = Ok (one_backend (leg_backend p (owner_leg p key))) -> agree_key p q key.
Proof.
  intros Hwf Hm Hin Hq. eapply agree_one; [|exact Hq]. apply routed_owner; [apply Hwf| |done].
  unfold Spread. rewrite Hm. by rewrite orb_true_r.
Qed.

Lemma stepMove_agree p m t np key :
  wf_move p m -> pMove p = Some m -> ratio_ok (tRatio t) -> fenced p t ->
  stepMove applyPlain p m t = Ok np -> agree_key p np key.
Proof.
  intros Hwf Hm Ht Hf Hnp. destruct (stepMove_Ok _ _ _ _ Hnp) as (nv & Hnv & ->). clear Hnp.
  pose proof (MoveView_wf p m Hwf) as Hvw. pose proof (wm_tables p m Hwf) as Htab. destruct (wm_state p m Hwf) as [_ Hna].
  assert (Spread p = true) as Hsp by (unfold Spread; rewrite Hm, orb_true_r; done).
  destruct (applyPlain_step _ _ _ (wf_ramp_shape _ _ Hvw) Hnv) as (q & Hst & b & ->). cbn [pState pBarrier pRamp pCutover set_Barrier].
  assert (InMove p key = true -> agree (MoveView p m) (rerange (Some (mvRange m)) q) key) as Hag.
  { intros Hin. eapply (step_agree _ _ (step_only "" "" t)); [apply (wm_range p m Hwf)|done|done|by apply fenced_view| |done].
    by eapply InMove_key_in. }
  assert (InMove p key = true -> key_view p key = Ok (MoveView p m)) as Hview by (intros; apply view_moving; [done|apply Htab|done]).
  destruct (bool_decide (pState q = StateActive)) eqn:Hq.
  - apply bool_decide_eq_true in Hq. destruct (active_view (rerange (Some (mvRange m)) q) key Hq) as [Hw Hr].
    destruct (step_to_active _ _ _ Hst Hna (wm_ne p m Hwf) Hq) as [[Hrel Hside]|[Hrel Hside]]; simpl in Hrel; rewrite Hrel.
    + pose proof (settle_routed _ key (wf_tables_rest p b Htab) eq_refl eq_refl) as Hrt.
      destruct (InMove p key) eqn:Hin; [|by eapply unmoved_step].
      eapply (agree_to_one p _ _ _ _ key (Hview eq_refl) (Hag eq_refl) Hw Hr).
      change (side_backend (rerange _ q) Primary) with (side_backend q Primary).
      rewrite Hrt, Hside, MoveView_source, <- (InMove_owner p m key Hwf Hm Hin). done.
    + pose proof (endMove_routed p m (p |> set_Barrier b) key Hwf Hm eq_refl eq_refl eq_refl eq_refl eq_refl) as Hrt.
      destruct (InMove p key) eqn:Hin; [|by eapply unmoved_step].
      eapply (agree_to_one p _ _ _ _ key (Hview eq_refl) (Hag eq_refl) Hw Hr). rewrite Hrt.
      change (side_backend (rerange _ q) Primary) with (side_backend q Primary). by rewrite Hside, MoveView_primary.
  - apply bool_decide_eq_false in Hq. pose proof (stepMove_view p m _ q b Hst Hna Hq) as Hmv. cbv zeta in Hmv.
    set (m' := set_mvSteps _ _ m) in *. set (np := set_Move (Some m') _) in *.
    assert (InMove np key = InMove p key) as Hsame by (unfold InMove; simpl; rewrite Hm; done).
    destruct (InMove p key) eqn:Hin.
    + eapply (agree_views p np); [by apply Hview|apply view_moving; [done|apply Htab|done]|]. rewrite Hmv.
      apply agree_barrier. by apply Hag.
    + eapply unmoved_step; [done..|]. rewrite routed_owner; [done| |unfold Spread; simpl; by rewrite orb_true_r|done].
      destruct Htab. by split.
Qed.

(** ** The start of a move *)

(** The placement a move starts from: the plain bucket in spread form, its recorded target used up. *)
Definition move_base (p : Placement) : Placement := if Spread p then p else spread_form p |> set_Target "".

Definition same_step (t t' : Transition) : Prop :=
  tTo t' = tTo t /\ tRatio t' = tRatio t /\ tPrefixes t' = tPrefixes t /\ tHold t' = tHold t /\ tRelease t' = tRelease t /\
  tScope t' = tScope t /\ tRange t' = tRange t /\ tShare t' = tShare t.

Lemma spreadPlain_base p t np t' : spreadPlain p t = Ok (np, t') -> np = move_base p /\ same_step t t'.
Proof.
  unfold spreadPlain, move_base. rewrite clone_id. destruct (Spread p); [by intros [= <- <-]|].
  destruct (_ || _); [done|]. intros H. apply bind_Ok in H as (t1 & H1 & [= <- <-]). split; [done|].
  destruct (bool_decide _); [by injection H1 as <-|]. destruct (_ && _); [done|]. by injection H1 as <-.
Qed.

Lemma LeadingShare_le rg x rg' : range_u64 rg -> (rFrom rg <= rTo rg)%Z -> unit_share x ->
  LeadingShare rg x = Some rg' -> (rFrom rg' <= rTo rg')%Z.
Proof. intros [H1 H2] Hle Hx. rewrite LeadingShare_formula by done. intros [= <-]. simpl. lia. Qed.

Lemma resolveRange_Ok p np t t' rg : wf_tables np -> (forall rg, tRange t = Some rg -> range_u64 rg) ->
  match tRange t with Some rg => (rTo rg <? rFrom rg)%Z | None => false end = false -> unit_share (tShare t) ->
  table_ok np (default [] (scopeTable np (tScope t))) ->
  resolveRange p np t = Ok (t', rg) -> same_step t t' /\ (rFrom rg <= rTo rg)%Z.
Proof.
  intros Hwf Hty Hinv Hsh [Hpart _] H. unfold resolveRange in H. apply bind_Ok in H as (t1 & H1 & H).
  assert (same_step t t1) as Hs. { repeat case_match; try done; injection H1 as <-; done. }
  apply bind_Ok in H as (rg1 & H2 & H). pose proof Hs as (_ & _ & _ & _ & _ & E3 & E2 & E1).
  assert (range_u64 rg1 /\ (rFrom rg1 <= rTo rg1)%Z) as [Hu Hle].
  { rewrite E2 in H2. destruct (tRange t) as [rg2|]; [injection H2 as <-; split; [by apply Hty|lia]|].
    destruct (negb _); [done|]. destruct (List.find _ _) as [o|] eqn:Ef; [|done]. injection H2 as <-.
    apply find_some in Ef as [Hin%list_elem_of_In _]. destruct (seg_bounds _ _ _ _ Hpart Hin) as (? & ? & ?).
    unfold range_u64, is_u64. simpl. lia. }
  destruct (f64_ltb f0 (tShare t1) && f64_ltb (tShare t1) f1); [|by injection H as <- <-].
  destruct (LeadingShare rg1 (tShare t1)) as [rg2|] eqn:HL; [|done]. injection H as <- <-. split; [done|].
  eapply LeadingShare_le; [exact Hu|exact Hle| |exact HL]. by rewrite E1.
Qed.

Lemma sourceLeg_fold table rg src :
  let x := foldl (fun src o => if rangeWithin rg o then oLeg o else src) src table in
  x = src \/ exists o, o ∈ table /\ oLeg o = x /\ rangeWithin rg o = true.
Proof.
  revert src. induction table as [|o table IH]; intros src; simpl; [by left|].
  destruct (IH (if rangeWithin rg o then oLeg o else src)) as [->|(o' & Hin & Ho & Hw)].
  - destruct (rangeWithin rg o) eqn:E; [right|by left]. exists o. split_and!; [by left|done..].
  - right. exists o'. split_and!; [by right|done..].
Qed.

Lemma sourceLeg_held table rg : sourceLeg table rg <> "" -> (rFrom rg <= rTo rg)%Z -> held_by table rg (sourceLeg table rg).
Proof.
  intros Hne Hle. split; [done|]. destruct (sourceLeg_fold table rg "") as [E|(o & Hin & Ho & Hw)]; [done|].
  exists o. unfold rangeWithin in Hw. apply andb_true_iff in Hw as [H1%Z.leb_le H2%Z.leb_le]. done.
Qed.

Lemma findDst_leg np target name dst n : findDst np target name = (dst, n) -> dst <> "" -> hasLeg (pLegs np) dst = true.
Proof.
  unfold findDst. intros H Hne. apply mhas_true, elem_of_msortedKeys. revert H.
  enough (forall ids d k, foldl (fun '(dst, on) id =>
      let l := mget zeroLeg id (pLegs np) in
      if negb (bool_decide (legCluster l = target)) then (dst, on)
      else (if bool_decide (name = "") || bool_decide (name = legBucket l) then id else dst, S on)) (d, k) ids = (dst, n) ->
    dst = d \/ dst ∈ ids) as Hf by (intros H; destruct (Hf _ _ _ H); done).
  induction ids as [|id ids IH]; intros d k; simpl; [intros [= <- <-]; by left|].
  destruct (negb _); [|destruct (_ || _)]; intros H; apply IH in H as [->|H]; set_solver.
Qed.

(** The destination is another leg than the source, made under a fresh name when there was none. *)
Lemma resolveDst_Ok p np t src np' dst : hasLeg (pLegs np) src = true -> tTarget t <> "" -> resolveDst p np t src = Ok (np', dst) ->
  exists legs, np' = (np |> set_Legs legs) /\ dst <> src /\ hasLeg legs dst = true /\
    (forall id l, mlookup id legs = Some l -> mlookup id (pLegs np) = Some l \/ (id <> "" /\ legCluster l <> "")) /\
    (forall id, hasLeg (pLegs np) id = true -> mlookup id legs = mlookup id (pLegs np)).
Proof.
  intros Hsrc Htgt. unfold resolveDst. destruct (findDst np (tTarget t) (tName t)) as [d n] eqn:Hf.
  destruct (_ && _); [done|]. destruct (bool_decide (d = src)) eqn:Hds; [done|]. apply bool_decide_eq_false in Hds.
  destruct (bool_decide (d = "")) eqn:Hd.
  - destruct (bool_decide (tName t = "")); [done|]. destruct (newLegID _ _) as [id|] eqn:Hid; [|done].
    destruct (pLegs np) as [legs|] eqn:Hl; [|done]. intros [= <- <-].
    apply newLegID_loop_fresh in Hid as [Hfresh Hlegid]. simpl in Hfresh.
    exists (Some (<[id := mkLeg (tTarget t) (tName t)]> legs)). split; [done|]. split_and!.
    + intros ->. apply mhas_true in Hsrc as [? Hsrc]. simpl in Hsrc. congruence.
    + apply mhas_true. simpl. rewrite lookup_insert_eq. by eexists.
    + intros i l Hi. simpl in *. destruct (decide (i = id)) as [->|Hne].
      * rewrite lookup_insert_eq in Hi. injection Hi as <-. right. split; [intros ->; discriminate Hlegid|done].
      * rewrite lookup_insert_ne in Hi by done. by left.
    + intros i Hi. simpl. rewrite lookup_insert_ne; [done|]. intros ->. apply mhas_true in Hi as [? Hi]. simpl in Hi. congruence.
  - apply bool_decide_eq_false in Hd. intros [= <- <-]. exists (pLegs np). split_and!; [by destruct np|done| | |done].
    + by eapply findDst_leg.
    + by left.
Qed.

(** The two-bucket view a move starts from. *)
Definition start_view (np : Placement) (src : string) : Placement :=
  zeroPlacement |> set_State StateActive |> set_Primary src
    |> set_Names (Some {[src := legBucket (mget zeroLeg src (pLegs np))]}).

(** What a move that [startMove] accepts is: a range one leg holds in a table of the base, another leg
    as its destination, and the first step of a migration between the two. *)
Inductive started (p : Placement) (t : Transition) : Placement -> Prop :=
| Started t' rg src dst legs table nv :
    same_step t t' ->
    scopeTable (move_base p) (tScope t) = Some table -> held_by table rg src -> dst <> src ->
    hasLeg legs dst = true ->
    (forall id l, mlookup id legs = Some l -> mlookup id (pLegs (move_base p)) = Some l \/ (id <> "" /\ legCluster l <> "")) ->
    (forall id, hasLeg (pLegs (move_base p)) id = true -> mlookup id legs = mlookup id (pLegs (move_base p))) ->
    applyPlain (start_view (set_Legs legs (move_base p)) src)
      (step_only dst (legBucket (mget zeroLeg dst legs)) t') = Ok nv ->
    started p t (move_base p |> set_Legs legs |> set_State (pState nv) |> set_Barrier (pBarrier nv)
      |> set_Move (Some (mkMove (tScope t) rg src dst (limit_ramp rg (pRamp nv)) (pCutover nv)))).

Lemma scopeTable_exists p scope :
  negb (bool_decide (scope = "")) && negb (existsb (fun r => bool_decide (prPrefix r = scope)) (sl (pPrefixes p))) = false ->
  exists table, scopeTable p scope = Some table.
Proof.
  intros H. unfold scopeTable. case_decide as Hs; [by eexists|].
  rewrite bool_decide_false in H by done. simpl in H. apply negb_false_iff, existsb_exists in H as (r & Hin & Hr).
  destruct (List.find _ _) as [r'|] eqn:E; [by eexists|]. apply (find_none _ _ E) in Hin. simpl in Hin. congruence.
Qed.

Lemma same_step_trans t1 t2 t3 : same_step t1 t2 -> same_step t2 t3 -> same_step t1 t3.
Proof. unfold same_step. intuition congruence. Qed.

Lemma startMove_Ok p t np : wf_tables (move_base p) -> (forall rg, tRange t = Some rg -> range_u64 rg) ->
  unit_share (tShare t) -> sl (pPrefixes (move_base p)) = sl (pPrefixes p) ->
  startMove applyPlain p t = Ok np -> pState p = StateActive /\ started p t np.
Proof.
  intros Hwf Hty Hsh Hpre H. unfold startMove in H.
  destruct (bool_decide (pState p = StateActive)) eqn:Ha; [|done]. apply bool_decide_eq_true in Ha. split; [done|].
  cbn [negb] in H. destruct (_ && negb (existsb _ _)) eqn:Hsc in H; [done|]. rewrite <- Hpre in Hsc.
  destruct (scopeTable_exists (move_base p) (tScope t) Hsc) as [table Htab].
  do 2 pass_check H.
  match type of H with (if ?b then _ else _) = _ => destruct b eqn:Hinv; [done|] end.
  apply bind_Ok in H as ([np0 t1] & H1 & H). apply spreadPlain_base in H1 as [-> Hs1].
  destruct (bool_decide (tTarget t1 = "")) eqn:Htgt in H; [discriminate H|]. apply bool_decide_eq_false in Htgt.
  apply bind_Ok in H as ([t2 rg] & H2 & H). pose proof (resolveRange_target _ _ _ _ _ H2) as Ht2.
  pose proof Hs1 as (_ & _ & _ & _ & _ & Es & Er & Eh). rewrite <- Er in Hinv, Hty. rewrite <- Eh in Hsh.
  assert (default [] (scopeTable (move_base p) (tScope t1)) = table) as Hdef by by rewrite Es, Htab.
  pose proof (scopeTable_ok _ _ _ Hwf Htab) as Htok.
  apply resolveRange_Ok in H2 as [Hs2 Hle]; [|done|done|done|done|by rewrite Hdef].
  pose proof (same_step_trans _ _ _ Hs1 Hs2) as Hs. pose proof Hs as (_ & _ & _ & _ & _ & Es2 & _ & _).
  rewrite Es2, Htab in H. simpl in H. set (src := sourceLeg table rg) in *.
  destruct (bool_decide (src = "")) eqn:Hne; [done|]. apply bool_decide_eq_false in Hne.
  pass_check H. pose proof (sourceLeg_held table rg Hne Hle) as Hheld. fold src in Hheld.
  apply bind_Ok in H as ([np2 dst] & H3 & H).
  apply resolveDst_Ok in H3 as (legs & -> & Hd & Hdst & Hids & Hkeep).
  2: { destruct Hheld as [_ (o & Hin & <- & _)]. by apply (proj1 (list.Forall_forall _ _) (proj2 Htok)). }
  2: { by rewrite Ht2. }
  destruct (MaxLegs <? _)%nat; [done|]. apply bind_Ok in H as (nv & Hnv & H). injection H as <-.
  by eapply (Started p t t2 rg src dst legs table nv).
Qed.

Lemma routed_inv p key w r : routed p key = Ok (w, r) ->
  exists v, key_view p key = Ok v /\ write_to v key = Ok w /\ reads_of v key = Ok r.
Proof.
  intros H. pose proof H as H'. unfold routed in H'. apply bind_Ok in H' as (v & Hv & _). exists v. split; [done|].
  by apply (routed_Ok p).
Qed.

Lemma wf_placement_rest p : wf_placement p -> pMove p = None -> pState p = StateActive -> wf_rest p.
Proof.
  intros [Hc Hwf] Hm Ha. rewrite Hm in Hwf. split; [done|]. destruct (Spread p); [apply Hwf|apply (wv_primary _ _ Hwf)].
Qed.

Lemma move_base_tables p key : owner_leg (move_base p) key = owner_leg (tables_of p) key /\
  pLegs (move_base p) = pLegs (tables_of p) /\ (wf_tables (tables_of p) -> wf_tables (move_base p)).
Proof.
  unfold move_base, tables_of. destruct (Spread p); [done|]. split_and!; [done..|]. intros []. by split.
Qed.

Lemma wf_tables_legs p legs q : wf_tables p ->
  (forall id l, mlookup id legs = Some l -> mlookup id (pLegs p) = Some l \/ (id <> "" /\ legCluster l <> "")) ->
  (forall id, hasLeg (pLegs p) id = true -> mlookup id legs = mlookup id (pLegs p)) ->
  pLegs q = legs -> pKeyHash q = pKeyHash p -> pOwners q = pOwners p -> pPrefixes q = pPrefixes p ->
  pLegClusters q = pLegClusters p -> wf_tables q.
Proof.
  intros [Th To Tr Tn Tl Tk Tc] Hids Hkeep Hl Hh Ho Hp Hc.
  assert (forall table, table_ok p table -> table_ok q table) as Hext.
  { intros table [Hpart HF]. split; [done|]. rewrite Hl. eapply list.Forall_impl; [exact HF|]. intros o Ho'.
    unfold hasLeg, mhas in *. simpl in Ho'. rewrite Hkeep; done. }
  split; rewrite ?Hh, ?Ho, ?Hp, ?Hc, ?Hl; try done.
  - by apply Hext.
  - intros r Hr. destruct (Tr r Hr). split; [done|]. by apply Hext.
  - intros id Hid. apply mhas_true in Hid as [l Hid]. destruct (Hids id l Hid) as [Hl1|[]]; [|done].
    apply Tl. apply mhas_true. by exists l.
  - intros id l Hid. destruct (Hids id l Hid) as [Hl1|[]]; [|done]. by eapply Tk.
Qed.

(** The first step of a move, held. *)
Lemma start_step np src target name t nv :
  tHold t = true -> applyPlain (start_view np src) (step_only target name t) = Ok nv ->
  pState nv = StateRamping /\ pCutover nv = None /\
  pRamp nv = Some (set_rHold (Some (step_hold (tTo t) (tRatio t) (tPrefixes t))) emptyRamp).
Proof.
  intros Hh Hnv. apply applyPlain_step in Hnv as (q & Hst & b & ->).
  2: { split; [done|]. split; [done|]. by intros [? [=]]. }
  inversion Hst; subst; try discriminate; try (simpl in *; congruence). done.
Qed.

Lemma start_view_wf np src rgo : src <> "" -> wf_view rgo (start_view np src).
Proof. intros Hne. split; simpl; [done|set_solver|done|done|by intros []]. Qed.

(** Whatever the first step is, it leaves ACTIVE with a sound ramp or none. *)
Lemma start_step_wf np src target name t nv : src <> "" -> ratio_ok (tRatio t) ->
  applyPlain (start_view np src) (step_only target name t) = Ok nv ->
  pState nv ∈ States /\ pState nv <> StateActive /\
  match pRamp nv with
  | Some r => pState nv = StateRamping /\ rHash r = RampHash /\ ratio_ok (rRatio r) /\ forall h, rHold r = Some h -> ratio_ok (hRatio h)
  | None => pState nv <> StateRamping
  end.
Proof.
  intros Hne Ht Hnv. pose proof (start_view_wf np src None Hne) as Hwf.
  apply applyPlain_step in Hnv as (q & Hst & b & ->); [|by eapply wf_ramp_shape].
  pose proof (step_wf None _ (step_only target name t) q I Hwf Ht Hst) as [_ Hs Hr _ _]. simpl in *. split_and!; [done| |].
  - destruct Hst; try discriminate.
  - destruct (pRamp q) as [r|]; [|done]. destruct Hr as (H1 & (H2 & H3 & _) & _ & H4). done.
Qed.

Lemma started_wf p t np : wf_tables (move_base p) -> pRamp p = None -> ratio_ok (tRatio t) -> started p t np ->
  exists m, pMove np = Some m /\ wf_move np m /\
    (forall key, owner_leg np key = owner_leg (move_base p) key) /\
    (forall id, hasLeg (pLegs (move_base p)) id = true -> leg_backend np id = leg_backend (move_base p) id) /\
    (tHold t = true -> exists r, mvRamp m = Some r /\ rHash r = RampHash /\ rRatio r = f0 /\ rPrefixes r = []).
Proof.
  intros Hwf Hnr Ht Hst. destruct Hst as [t' rg src dst legs table nv Hs Htab Hheld Hne Hdst Hids Hkeep Hnv].
  pose proof Hs as (_ & Er & _ & Eh & _). rewrite <- Er in Ht. rewrite <- Eh.
  pose proof (scopeTable_ok _ _ _ Hwf Htab) as Htok.
  assert (src <> "") as Hsrc.
  { destruct Hheld as [_ (o & Hin & <- & _)]. apply (wt_legs _ Hwf). by apply (proj1 (list.Forall_forall _ _) (proj2 Htok)). }
  destruct (start_step_wf _ _ _ _ _ _ Hsrc Ht Hnv) as (H1 & H2 & H3). eexists. split; [done|].
  split_and!.
  - split; simpl; try done.
    + by eapply (wf_tables_legs (move_base p) legs).
    + unfold move_base. by destruct (Spread p).
    + by exists table.
    + destruct Htok as [Hpart _]. destruct Hheld as [Hle (o & Hin & _ & Ho1 & Ho2)].
      destruct (seg_bounds _ _ _ _ Hpart Hin) as (? & ? & ?). unfold range_u64, is_u64. lia.
    + by destruct (pRamp nv).
  - done.
  - intros id Hid. unfold leg_backend, mget. simpl. by rewrite Hkeep.
  - intros Hh. destruct (start_step _ _ _ _ _ _ Hh Hnv) as (_ & _ & ->). simpl. by eexists.
Qed.

Lemma rest_no_ramp p : wf_placement p -> pMove p = None -> pState p = StateActive -> pRamp p = None.
Proof.
  intros [_ Hw] Hm Ha. rewrite Hm in Hw. destruct (Spread p); [apply Hw|]. destruct Hw as [_ _ Hr _ _].
  destruct (pRamp p); [|done]. destruct Hr as [E _]. rewrite Ha in E. discriminate E.
Qed.

Lemma started_agree p t np key : wf_placement p -> pMove p = None -> pState p = StateActive ->
  ratio_ok (tRatio t) -> tHold t = true -> started p t np -> agree_key p np key.
Proof.
  intros Hwf Hm Ha Ht Hh Hst. pose proof (wf_placement_rest p Hwf Hm Ha) as Hrest.
  destruct (rest_routed p key Hrest Ha Hm) as (Htab & _ & Hrt).
  destruct (move_base_tables p key) as (Eo & El & Hbase). specialize (Hbase Htab).
  rewrite <- Eo, (leg_backend_legs _ (move_base p)) in Hrt by done.
  pose proof (rest_no_ramp p Hwf Hm Ha) as Hnr.
  destruct (started_wf p t np Hbase Hnr Ht Hst) as (m & Hm' & Hwm & Ho & Hb & Hheld).
  destruct (Hheld Hh) as (r & Hr & Rh & R0 & Rp).
  assert (leg_backend np (owner_leg np key) = leg_backend (move_base p) (owner_leg (move_base p) key)) as Hleg.
  { rewrite Ho. by apply Hb, owner_leg_ok. }
  destruct (InMove np key) eqn:Hin.
  - destruct (routed_inv _ _ _ _ Hrt) as (v & Hv & Hw & Hrd).
    eapply agree_views; [exact Hv|apply view_moving; [exact Hm'|apply Hwm|exact Hin]|].
    eapply (agree_unmoved (Some (mvRange m))); [exact Hw|exact Hrd|by apply MoveView_wf| | |].
    + simpl. rewrite v2ramp_id, Hr. done.
    + rewrite MoveView_source, <- (InMove_owner np m key Hwm Hm' Hin). by rewrite Hleg.
    + apply InRange_empty; simpl; [done|by rewrite R0|done].
  - eapply agree_one; [exact Hrt|]. rewrite <- Hleg. apply routed_owner; [apply Hwm| |done].
    unfold Spread. by rewrite Hm', orb_true_r.
Qed.

(** ** Any transition *)

Definition same_kind (t t' : Transition) : Prop := tHold t' = tHold t /\ tRatio t' = tRatio t /\ tTo t' = tTo t.

Lemma resolve_kind p t t1 t2 : resolveShare p t = Ok t1 -> resolveLeg p (resolveWhole p t1) = Ok t2 -> same_kind t t2.
Proof.
  intros H1 H2. assert (same_kind t t1) as (K1 & K2 & K3).
  { unfold resolveShare in H1. repeat case_match; try done; injection H1 as <-; done. }
  assert (same_kind t1 (resolveWhole p t1)) as (K4 & K5 & K6) by (unfold resolveWhole; repeat case_match; done).
  assert (same_kind (resolveWhole p t1) t2) as (K7 & K8 & K9).
  { unfold resolveLeg in H2. repeat case_match; try done; injection H2 as <-; done. }
  split_and!; congruence.
Qed.

Lemma unlimited q : (forall r, pRamp q = Some r -> rRange r = None) -> rerange None q = q.
Proof.
  intros Hr. unfold rerange. destruct (pRamp q) as [r|] eqn:E; simpl.
  - specialize (Hr r eq_refl). destruct q, r; simpl in *. by subst.
  - destruct q; simpl in *. by subst.
Qed.

Lemma step_unlimited p t q : wf_view None p -> step p t q -> rerange None q = q.
Proof.
  intros [_ _ Hramp _ _] Hst. assert (forall r, pRamp p = Some r -> rRange r = None) as Hr.
  { intros r E. rewrite E in Hramp. apply Hramp. }
  apply unlimited. destruct Hst; simpl; try (intros ? [= <-]; simpl; by auto); try done.
  unfold endCutover. by destruct (_ && _).
Qed.

Lemma step_unspread p t q : step p t q -> Spread q = Spread p.
Proof. intros Hst. destruct Hst; try done. unfold endCutover. by destruct (_ && _). Qed.

Lemma plain_agree p t np key : wf_view None p -> Spread p = false -> ratio_ok (tRatio t) -> fenced p t ->
  applyPlain p t = Ok np -> agree_key p np key.
Proof.
  intros Hwf Hs Ht Hf Hnp. apply applyPlain_step in Hnp as (q & Hst & b & ->); [|by eapply wf_ramp_shape].
  pose proof (step_agree None p t q key I Hwf Ht Hf ltac:(by intros ? [=]) Hst) as Hag.
  rewrite (step_unlimited p t q Hwf Hst) in Hag.
  eapply agree_views; [unfold key_view; by rewrite Hs| |by apply agree_barrier].
  unfold key_view. pose proof (step_unspread _ _ _ Hst) as Hq. unfold Spread in *. simpl. by rewrite Hq, Hs.
Qed.

(** A step on a placement at rest is fenced only by holding. *)
Lemma fenced_rest p t : wf_placement p -> pMove p = None -> pState p = StateActive -> fenced p t -> tHold t = true.
Proof.
  intros Hwf Hm Ha [Hh|[Hh|[Hh|[Hh|[_ Hh]]]]]; [done| |rewrite Ha in Hh; discriminate Hh..|]; exfalso.
  all: unfold Held, whole_ramp in Hh; rewrite Hm, (rest_no_ramp p) in Hh; done.
Qed.

(** What [Apply] resolved of a transition before it acts. *)
Lemma resolve_facts p t t1 t2 : (forall rg, tRange t = Some rg -> range_u64 rg) ->
  resolveShare p t = Ok t1 -> resolveLeg p (resolveWhole p t1) = Ok t2 ->
  tHold t2 = tHold t /\ tRatio t2 = tRatio t /\ tTo t2 = tTo t /\ (forall rg, tRange t2 = Some rg -> range_u64 rg) /\ unit_share (tShare t2).
Proof.
  intros Hty H1 H2. destruct (resolve_kind _ _ _ _ H1 H2) as (Eh & Er & Eto). split_and!; [done..| |].
  - rewrite (resolveLeg_range _ _ _ H2). by eapply resolveWhole_range, resolveShare_range.
  - destruct (resolveShare_safe p t) as [_ Hs]. destruct (Hs t1 H1) as [Hs1 _].
    destruct (resolveLeg_safe p (resolveWhole p t1)) as [_ Hs2]. destruct (Hs2 t2 H2) as [-> _].
    by rewrite (proj2 (resolveWhole_target p t1)).
Qed.

Lemma startMove_started p t np : wf_placement p -> pMove p = None -> (forall rg, tRange t = Some rg -> range_u64 rg) ->
  unit_share (tShare t) -> startMove applyPlain p t = Ok np ->
  pState p = StateActive /\ wf_tables (move_base p) /\ started p t np.
Proof.
  intros Hwf Hm Hty Hsh Hnp.
  assert (pState p = StateActive) as Ha.
  { unfold startMove in Hnp. destruct (bool_decide (pState p = StateActive)) eqn:E; [by apply bool_decide_eq_true in E|done]. }
  pose proof (wf_placement_rest p Hwf Hm Ha) as Hrest. destruct (rest_routed p "" Hrest Ha Hm) as (Htab & Hpre & _).
  destruct (move_base_tables p "") as (_ & _ & Hbase). specialize (Hbase Htab).
  destruct (startMove_Ok p t np) as [_ Hst]; [done..| |done|done].
  unfold move_base. by destruct (Spread p).
Qed.

Lemma applyTop_agree p t np key : wf_placement p -> (forall rg, tRange t = Some rg -> range_u64 rg) ->
  ratio_ok (tRatio t) -> fenced p t -> applyTop p t = Ok np -> agree_key p np key.
Proof.
  intros Hwf Hty Ht Hf Hnp. unfold applyTop in Hnp. apply bind_Ok in Hnp as (t1 & H1 & Hnp). apply bind_Ok in Hnp as (t2 & H2 & Hnp).
  destruct (resolve_facts p t t1 t2 Hty H1 H2) as (Eh & Er & Eto & Hty2 & Hsh).
  assert (fenced p t2) as Hf2 by (unfold fenced in *; by rewrite Eh, Eto). rewrite <- Er in Ht.
  destruct (is_move p t2) eqn:Hmv.
  - unfold applyMove in Hnp. pose proof Hwf as [Hc Hw]. destruct (pMove p) as [m|] eqn:Hm; [by eapply stepMove_agree|].
    destruct (startMove_started p t2 np Hwf Hm Hty2 Hsh Hnp) as (Ha & _ & Hst).
    eapply started_agree; [done..|by eapply fenced_rest|done].
  - unfold is_move in Hmv. apply orb_false_iff in Hmv as [Hmv _]. apply orb_false_iff in Hmv as [Hs _].
    destruct (not_spread_rules p Hs) as [_ Hm]. destruct Hwf as [_ Hw]. rewrite Hm, Hs in Hw. by eapply plain_agree.
Qed.

(** ** Transitions keep a placement well formed *)

Lemma settle_wf p : wf_tables p -> pMove p = None -> pState p = StateActive -> pRamp p = None -> wf_placement (settle p).
Proof.
  intros Hwf Hm Ha Hr. unfold settle. rewrite Hm. rewrite bool_decide_false by (intros [? [=]]). simpl.
  assert (partition (sl (pOwners p))) as Hpart by apply Hwf.
  destruct (negb (length (sl (pOwners p)) =? 1)%nat || (0 <? length (sl (pPrefixes p)))%nat) eqn:E.
  - split; [apply Hwf|]. rewrite Hm.
    assert (Spread p = true) as ->; [|done]. unfold Spread. apply orb_true_iff in E as [E|E]; [|by rewrite E, orb_true_r].
    destruct (sl (pOwners p)) as [|o1 [|o2 l]]; [discriminate Hpart|discriminate E|reflexivity].
  - apply orb_false_iff in E as [E1 E2]. apply negb_false_iff, Nat.eqb_eq in E1.
    destruct (sl (pOwners p)) as [|o [|]] eqn:Eo; [done| |done]. set (v := set_Names _ _).
    destruct (settle_fold (pLegs p) (msortedKeys (pLegs p)) v) as (H1 & H2 & H3 & H4 & H5 & H6 & H8 & H7).
    split; [rewrite H6; apply Hwf|]. rewrite H3. simpl. rewrite Hm. unfold Spread. rewrite H3, H4, H5. simpl. rewrite Hm. simpl.
    rewrite E2. split; rewrite ?H1, ?H2, ?H3, ?H8; simpl; rewrite ?Hr, ?Ha; [done|set_solver|done| |by intros []].
    assert (hasLeg (pLegs p) (oLeg o) = true) as Hl.
    { destruct (wt_owners p Hwf) as [_ HF]. rewrite Eo in HF. apply (proj1 (list.Forall_forall _ _) HF). by left. }
    apply mhas_true in Hl as [l Hl]. unfold mget. rewrite Hl. by apply (wt_clusters p Hwf (oLeg o)).
Qed.

Lemma stepMove_wf p m t np : wf_placement p -> pMove p = Some m -> ratio_ok (tRatio t) ->
  stepMove applyPlain p m t = Ok np -> wf_placement np.
Proof.
  intros [Hc Hwf] Hm Ht Hnp. rewrite Hm in Hwf. destruct (stepMove_Ok _ _ _ _ Hnp) as (nv & Hnv & ->). clear Hnp.
  pose proof (MoveView_wf p m Hwf) as Hvw. pose proof (wm_tables p m Hwf) as Htab.
  destruct (applyPlain_step _ _ _ (wf_ramp_shape _ _ Hvw) Hnv) as (q & Hst & b & ->). cbn [pState pBarrier pRamp pCutover set_Barrier].
  destruct (bool_decide (pState q = StateActive)) eqn:Hq; [destruct (tRelease t)|].
  - apply settle_wf; [by apply wf_tables_rest|done|done|simpl; apply Hwf].
  - destruct (endMove_shape p m (p |> set_Barrier b)) as (x & -> & Hx & Hmx & Hax & Hrx & _); [done..|].
    apply settle_wf; [done..|]. rewrite Hrx. apply Hwf.
  - apply bool_decide_eq_false in Hq. split; [done|]. simpl.
    pose proof (step_wf (Some (mvRange m)) _ (step_only "" "" t) q (wm_range p m Hwf) Hvw Ht Hst) as [_ Hs Hr _ _].
    destruct Hwf as [_ Hpl _ Hsc Hrg Hto Hne _]. split; simpl in *; try done.
    + destruct Htab. by split.
    + destruct (pRamp q) as [r|]; simpl; [|done]. destruct Hr as (? & (? & ? & _) & _ & ?). done.
Qed.

Lemma applyPlain_wf p t np : wf_placement p -> Spread p = false -> ratio_ok (tRatio t) -> applyPlain p t = Ok np -> wf_placement np.
Proof.
  intros [Hc Hwf] Hs Ht Hnp. destruct (not_spread_rules p Hs) as [_ Hm]. rewrite Hm, Hs in Hwf.
  apply applyPlain_step in Hnp as (q & Hst & b & ->); [|by eapply wf_ramp_shape].
  pose proof (step_wf None p t q I Hwf Ht Hst) as Hq. rewrite (step_unlimited p t q Hwf Hst) in Hq.
  split; simpl.
  - destruct Hst; try done. unfold endCutover. by destruct (_ && _).
  - rewrite (wv_move _ _ Hq). pose proof (step_unspread _ _ _ Hst) as Hsq. rewrite Hs in Hsq.
    unfold Spread in *. simpl. rewrite Hsq. destruct Hq. by split.
Qed.

Lemma applyTop_wf p t np : wf_placement p -> (forall rg, tRange t = Some rg -> range_u64 rg) ->
  ratio_ok (tRatio t) -> applyTop p t = Ok np -> wf_placement np.
Proof.
  intros Hwf Hty Ht Hnp. unfold applyTop in Hnp. apply bind_Ok in Hnp as (t1 & H1 & Hnp). apply bind_Ok in Hnp as (t2 & H2 & Hnp).
  destruct (resolve_facts p t t1 t2 Hty H1 H2) as (Eh & Er & Eto & Hty2 & Hsh). rewrite <- Er in Ht.
  destruct (is_move p t2) eqn:Hmv.
  - unfold applyMove in Hnp. pose proof Hwf as [Hc Hw]. destruct (pMove p) as [m|] eqn:Hm; [by eapply stepMove_wf|].
    destruct (startMove_started p t2 np Hwf Hm Hty2 Hsh Hnp) as (Ha & Hbase & Hst).
    destruct (started_wf p t2 np Hbase (rest_no_ramp p Hwf Hm Ha) Ht Hst) as (m & Hm' & Hwm & _).
    split; [apply (wt_roles _ (wm_tables _ _ Hwm))|by rewrite Hm'].
  - unfold is_move in Hmv. apply orb_false_iff in Hmv as [Hmv _]. apply orb_false_iff in Hmv as [Hs _].
    by eapply applyPlain_wf.
Qed.

(** ** Properties *)

(** C1: Across a fenced step, of a whole bucket or of a move, every key's writes and reads stay
    consistent between a front end on the old placement and one on the new: both answer, if both
    accept a write they write to the same backend, and each one's reads consult the backend the
    other writes to. *)
Theorem Apply_fenced (p np : Placement) (t : Transition) (key : string)
    (Hwf : wf_placement p) (Hty : forall rg, tRange t = Some rg -> range_u64 rg) (Ht : ratio_ok (tRatio t))
    (Hf : fenced p t) (Hnp : Apply p t = Ok np) :
  exists wp rp wq rq, routed p key = Ok (wp, rp) /\ routed np key = Ok (wq, rq) /\
    (forall a b, wp = Some a -> wq = Some b -> a = b) /\
    (forall a, wp = Some a -> a ∈ rq) /\ (forall b, wq = Some b -> b ∈ rp).
Proof.
  unfold Apply in Hnp. rewrite ApplyF_top in Hnp.
  destruct (applyTop_agree p t np key Hwf Hty Ht Hf Hnp) as ([wp rp] & [wq rq] & Hp & Hq & Hc).
  exists wp, rp, wq, rq. split; [exact Hp|]. split; [exact Hq|]. exact Hc.
Qed.

(** A bucket spread over two legs, and a first held step of a move of half of one leg's keys. *)
Definition example_spread : Placement :=
  zeroPlacement |> set_State StateActive |> set_Legs example_legs |> set_Owners (Some example_owners) |> set_KeyHash RampHash.
Definition example_move : Transition :=
  mkTransition StateRamping "c" "b3" (Fin (f_unit / 4)) [] None true false false "op-1" None "b" "" (Fin (f_unit / 2)).

Lemma example_spread_wf : wf_placement example_spread.
Proof.
  split; [reflexivity|]. split; [|by split]. destruct example_carved_wf as [_ Ho _ _ Hl Hk _].
  split; try done; [by intros ? ?%elem_of_nil|constructor].
Qed.

Lemma quarter_ok : ratio_ok (Fin (f_unit / 4)).
Proof. split_and!; vm_compute; congruence. Qed.

Lemma Apply_fenced_witness :
  exists np, Apply example_spread example_move = Ok np /\
  exists wp rp wq rq, routed example_spread "k" = Ok (wp, rp) /\ routed np "k" = Ok (wq, rq) /\
    (forall a b, wp = Some a -> wq = Some b -> a = b) /\
    (forall a, wp = Some a -> a ∈ rq) /\ (forall b, wq = Some b -> b ∈ rp).
Proof.
  eexists. split; [vm_compute; reflexivity|].
  apply (Apply_fenced example_spread _ example_move "k" example_spread_wf);
    [by intros ? [=]|exact quarter_ok|by left|vm_compute; reflexivity].
Defined.

(** C31: [Apply] keeps a placement well formed: plain, at rest over legs, or in a move, with its tables
    partitions over its own legs, its ramp present exactly while it is RAMPING, and a move's range held
    by the leg it leaves. *)
Theorem Apply_preserves_wf (p np : Placement) (t : Transition)
    (Hwf : wf_placement p) (Hty : forall rg, tRange t = Some rg -> range_u64 rg) (Ht : ratio_ok (tRatio t))
    (Hnp : Apply p t = Ok np) : wf_placement np.
Proof. unfold Apply in Hnp. rewrite ApplyF_top in Hnp. by eapply applyTop_wf. Qed.

Lemma Apply_preserves_wf_witness :
  exists np, Apply example_spread example_move = Ok np /\ wf_placement np.
Proof.
  eexists. split; [vm_compute; reflexivity|].
  apply (Apply_preserves_wf example_spread _ example_move example_spread_wf);
    [by intros ? [=]|exact quarter_ok|vm_compute; reflexivity].
Defined.

(** The end of a move hands the moved keys, and only those, to the new leg: afterwards the requests
    of a key of the moved range and scope go to the new leg's bucket, and those of any other key to
    the bucket that owned it before, even when the placement settles into plain form. *)
Theorem move_end_routing (p np : Placement) (m : Move) (t : Transition) (key : string)
    (Hwf : wf_placement p) (Hm : pMove p = Some m) (Hs : pState p = StateCutover)
    (Hty : forall rg, tRange t = Some rg -> range_u64 rg) (Ht : ratio_ok (tRatio t)) (Hnp : Apply p t = Ok np) :
  routed np key = Ok (Some (leg_backend p (if InMove p key then mvTo m else owner_leg p key)),
                      [leg_backend p (if InMove p key then mvTo m else owner_leg p key)]).
Proof.
  unfold Apply in Hnp. rewrite ApplyF_top in Hnp. unfold applyTop in Hnp.
  apply bind_Ok in Hnp as (t1 & H1 & Hnp). apply bind_Ok in Hnp as (t2 & H2 & Hnp).
  assert (is_move p t2 = true) as Hmv by (unfold is_move, Spread; rewrite Hm, orb_true_r; done).
  rewrite Hmv in Hnp. unfold applyMove in Hnp. rewrite Hm in Hnp. destruct Hwf as [_ Hwf]. rewrite Hm in Hwf.
  destruct (stepMove_Ok _ _ _ _ Hnp) as (nv & Hnv & ->). pose proof (MoveView_wf p m Hwf) as Hvw.
  destruct (applyPlain_step _ _ _ (wf_ramp_shape _ _ Hvw) Hnv) as (q & Hst & b & ->).
  assert (pState q = StateActive /\ tRelease t2 = false) as [Hq Hrel].
  { destruct Hst; simpl in *; rewrite Hs in *; try discriminate. unfold endCutover. split; [by destruct (_ && _)|done]. }
  cbn [pState pBarrier set_Barrier]. rewrite Hq, Hrel, bool_decide_true by done. by apply endMove_routed.
Qed.

(** Every key of the second leg moving to the first, at cutover. *)
Definition example_cutover : Placement :=
  zeroPlacement |> set_State StateCutover |> set_Legs example_legs |> set_Owners (Some example_owners) |> set_KeyHash RampHash
    |> set_Move (Some (mkMove "" (mkRange 100 MaxUint64) "b" "a" None None)).

Lemma example_cutover_wf : wf_placement example_cutover.
Proof.
  split; [reflexivity|]. destruct example_carved_wf as [_ Ho _ _ Hl Hk _]. simpl. split; simpl; try done.
  - split; try done; [by intros ? ?%elem_of_nil|constructor].
  - split; [set_solver|done].
  - exists example_owners. split; [done|]. split; [vm_compute; congruence|].
    exists (mkOwner 100 MaxUint64 "b"). split; [right; left|]. vm_compute. split_and!; congruence.
Qed.

Lemma move_end_routing_witness :
  exists np, Apply example_cutover (mkTransition StateActive "" "" f0 [] None false false false "" None "" "" f0) = Ok np /\
    routed np "k" = Ok (Some ("a", "b1"), [("a", "b1")]).
Proof.
  eexists. split; [vm_compute; reflexivity|].
  refine (eq_trans (move_end_routing example_cutover _ _ (mkTransition StateActive "" "" f0 [] None false false false "" None "" "" f0) "k" example_cutover_wf eq_refl eq_refl _ ratio_ok_0 _) _);
    [by intros ? [=]|vm_compute; reflexivity|vm_compute; reflexivity].
Defined.
