(* ===== verification/Validate.v ===== *)
(** * Validation of a directory file (internal/directory: validate.go, identity.go)

    What every store checks before a file is installed: the lineage, the clusters, the tenants, and
    every placement with the backend buckets it claims.  A failure is its key, the dotted path the
    code names; a valid file has none.  The theorems say what a valid file promises to the rest of
    the program: no two placements share a backend bucket, and a placement this build can route is
    well formed in the sense the routing theorems need. *)

From S2P Require Import Prelude Float64 KeyHash HashRange Config Placement Transition S3Op S3Names Route Backend Scopes Directory ApplyFacts Steps Fence MoveFence.

(** ** Lineage *)

Definition SchemaVersion : Z := 2.

(** validID: 32 lowercase hex characters. *)
Definition validID (s : string) : bool := (String.length s =? 32)%nat && all_bytes is_lower_hex s.

Definition Identity_IsZero (i : Identity) : bool := bool_decide (i = zeroIdentity).

(** [Identity.Validate] returns no error. *)
Definition Identity_valid (i : Identity) : bool := validID (idClusterID i) && validID (idEpoch i).

(** [CheckSchema] returns no error. *)
Definition CheckSchema (schema : Z) : bool := negb (SchemaVersion <? schema)%Z.

Definition validateLineage (f : File) : list string :=
  add_if (negb (CheckSchema (fSchema f))) "schema" ++
  add_if (negb (Identity_IsZero (fIdentity f)) && negb (Identity_valid (fIdentity f))) "identity" ++
  concat (List.map (fun res => let g := mget 0%Z res (fGenerations f) in
                               add_if ((g <=? 0)%Z || (fVersion f <? g)%Z) ("generations." +:+ res))
            (msortedKeys (fGenerations f))).

(** ** One placement *)

Definition tierModes : list string := ["native"; "emulated"].

(** [errs.ref]: does the name resolve, and the failure it adds. *)
Definition ref_ok (clusters : option (gmap string Cluster)) (name : string) : bool :=
  negb (bool_decide (name = "")) && mhas name clusters.
Definition ref (clusters : option (gmap string Cluster)) (key name : string) : list string :=
  add_if (negb (ref_ok clusters name)) key.

(** (cluster, backend bucket) to the placement that claimed it. *)
Notation used_buckets := (gmap (string * string) string).

(** A loop that adds failures and claims buckets. *)
Fixpoint walk {A} (f : A -> used_buckets -> list string * used_buckets) (xs : list A) (u : used_buckets)
    : list string * used_buckets :=
  match xs with
  | [] => ([], u)
  | x :: xs => let '(e1, u1) := f x u in let '(e2, u2) := walk f xs u1 in (e1 ++ e2, u2)
  end.

(** Claim a bucket for placement [pk]; one already claimed is a failure at [key]. *)
Definition claim (pk key cl name : string) (u : used_buckets) : list string * used_buckets :=
  match u !! (cl, name) with
  | Some _ => ([key], u)
  | None => ([], <[(cl, name) := pk]> u)
  end.

Definition validateRamp (k state : string) (r : option Ramp) : list string :=
  match r with
  | Some r =>
      add_if (negb (bool_decide (state = StateRamping))) (k +:+ ".ramp") ++
      add_if (negb (validRampHashName (rHash r))) (k +:+ ".ramp.hash") ++
      add_if (f64_ltb (rRatio r) f0 || f64_ltb f1 (rRatio r)) (k +:+ ".ramp.ratio") ++
      add_if (f64_eqb (rRatio r) f0 && (length (rPrefixes r) =? 0)%nat && bool_decide (rHold r = None)) (k +:+ ".ramp") ++
      match rHold r with
      | Some h =>
          add_if (f64_ltb (hRatio h) f0 || f64_ltb f1 (hRatio h)) (k +:+ ".ramp.hold.ratio") ++
          add_if (f64_eqb (hRatio h) f0 && (length (hPrefixes h) =? 0)%nat) (k +:+ ".ramp.hold")
      | None => []
      end
  | None => add_if (bool_decide (state = StateRamping)) (k +:+ ".ramp")
  end ++
  match r with
  | Some r => match rRange r with
              | Some rg => add_if (rTo rg <? rFrom rg)%Z (k +:+ ".ramp.range")
              | None => []
              end
  | None => []
  end.

Definition validateBarrier (k : string) (p : Placement) : list string :=
  match pBarrier p with
  | None => []
  | Some b =>
      if negb (Barrier_valid b) then [k +:+ ".barrier"]
      else add_if (bool_decide (bKind b = BarrierSource) && negb (bool_decide (pState p = StateCutover))) (k +:+ ".barrier.kind")
  end.

Definition validateTier (clusters : option (gmap string Cluster)) (k : string) (p : Placement) : list string :=
  if bool_decide (pTier p = "") then
    add_if (negb (bool_decide (pCold p = ""))) (k +:+ ".tier") ++
    add_if (negb (bool_decide (pLifecycle p = ""))) (k +:+ ".tier")
  else if negb (one_of (pTier p) tierModes) then [k +:+ ".tier"]
  else if bool_decide (pTier p = "native") then
    add_if (negb (bool_decide (pCold p = ""))) (k +:+ ".cold") ++
    match mlookup (pPrimary p) clusters with
    | Some cl => add_if (negb (bool_decide (cStorageClasses cl = "native"))) (k +:+ ".tier")
    | None => []
    end
  else if bool_decide (pCold p = "") then [k +:+ ".cold"]
  else if ref_ok clusters (pCold p) then
    match mlookup (pCold p) clusters with
    | Some cl => add_if (bool_decide (cStorageClass cl = "")) (k +:+ ".cold")
    | None => []
    end ++
    add_if (bool_decide (pCold p = pPrimary p)) (k +:+ ".cold")
  else [k +:+ ".cold"].

(** One leg of a spread placement. *)
Definition validateLeg (clusters : option (gmap string Cluster)) (k pk : string) (legs : option (gmap string Leg)) (id : string)
    (u : used_buckets) : list string * used_buckets :=
  let l := mget zeroLeg id legs in
  let lk := k +:+ ".legs." +:+ id in
  if negb (ref_ok clusters (legCluster l)) then ([lk +:+ ".cluster"], u)
  else if negb (ValidBucketName (legBucket l)) then ([lk +:+ ".bucket"], u)
  else claim pk (lk +:+ ".bucket") (legCluster l) (legBucket l) u.

Definition validateSpread (clusters : option (gmap string Cluster)) (k pk : string) (p : Placement) (u : used_buckets)
    : list string * used_buckets :=
  if negb (is_Ok (checkV2 p)) then ([k], u)
  else
    let '(e, u) := walk (validateLeg clusters k pk (pLegs p)) (msortedKeys (pLegs p)) u in
    (add_if (negb (is_Ok (checkSpread p))) k ++
     match pMove p with Some m => validateRamp (k +:+ ".move") (pState p) (mvRamp m) | None => [] end ++
     validateBarrier k p ++
     add_if (negb (bool_decide (pPrimary p = "")) || negb (bool_decide (pSource p = "")) || bool_decide (is_Some (pNames p)) ||
             bool_decide (is_Some (pRamp p)) || bool_decide (is_Some (pCutover p))) k ++ e, u).

(** One backend bucket name of a plain placement. *)
Definition validateName (clusters : option (gmap string Cluster)) (k pk : string) (names : option (gmap string string)) (cl : string)
    (u : used_buckets) : list string * used_buckets :=
  let nk := k +:+ ".names." +:+ cl in
  let name := mget "" cl names in
  let '(e, u) := if bool_decide (name = "") || negb (ValidBucketName name) then ([nk], u) else claim pk nk cl name u in
  (ref clusters nk cl ++ e, u).

(** The key of a placement names a tenant of the file and a bucket. *)
Definition validateKey (f : File) (k pk : string) : list string :=
  match SplitKey pk with
  | Some (tenant, bucket) =>
      if Contains bucket "/" then [k]
      else add_if (negb (mhas tenant (fTenants f))) k ++ add_if (negb (ValidBucketName bucket)) k
  | None => [k]
  end.

Definition validateTarget (clusters : option (gmap string Cluster)) (k : string) (p : Placement) : list string :=
  if bool_decide (pTarget p = "") then []
  else if negb (bool_decide (pState p = StateActive)) then [k +:+ ".target"]
  else if bool_decide (pTarget p = pPrimary p) then [k +:+ ".target"]
  else if ref_ok clusters (pTarget p) then add_if (negb (mhas (pTarget p) (pNames p))) (k +:+ ".names")
  else [k +:+ ".target"].

Definition validateSource (clusters : option (gmap string Cluster)) (k : string) (p : Placement) : list string :=
  let migrating := negb (bool_decide (pState p = StateActive)) in
  if migrating && bool_decide (pSource p = "") then [k +:+ ".source"]
  else if negb migrating && negb (bool_decide (pSource p = "")) then [k +:+ ".source"]
  else if negb (bool_decide (pSource p = "")) then
    ref clusters (k +:+ ".source") (pSource p) ++ add_if (bool_decide (pSource p = pPrimary p)) (k +:+ ".source")
  else [].

(** A plain placement, after its key and its state. *)
Definition validatePlain (clusters : option (gmap string Cluster)) (k pk : string) (p : Placement) (u : used_buckets)
    : list string * used_buckets :=
  let '(e, u) := walk (validateName clusters k pk (pNames p)) (msortedKeys (pNames p)) u in
  (ref clusters (k +:+ ".primary") (pPrimary p) ++
   validateTarget clusters k p ++
   add_if (bool_decide (is_Some (pCutover p)) && negb (bool_decide (pState p = StateCutover))) (k +:+ ".cutover") ++
   validateBarrier k p ++
   validateSource clusters k p ++
   validateRamp k (pState p) (pRamp p) ++
   e ++
   concat (List.map (fun cl => add_if (negb (bool_decide (cl = "")) && mhas cl clusters && negb (mhas cl (pNames p))) (k +:+ ".names"))
             [pPrimary p; pSource p; pCold p]) ++
   validateTier clusters k p, u).

Definition validatePlacement (f : File) (pk : string) (u : used_buckets) : list string * used_buckets :=
  let k := "placements." +:+ pk in
  let p := mget zeroPlacement pk (fPlacements f) in
  let '(e, u) := if negb (one_of (pState p) States) then ([k +:+ ".state"], u)
                 else if Spread p then validateSpread (fClusters f) k pk p u
                 else validatePlain (fClusters f) k pk p u in
  (validateKey f k pk ++ e, u).

Definition validateTenant (f : File) (name : string) : list string :=
  let k := "tenants." +:+ name in
  let t := mget (mkTenant "") name (fTenants f) in
  add_if (negb (validTenant name)) k ++
  add_if (negb (ref_ok (fClusters f) (tnDefaultCluster t))) (k +:+ ".default_cluster").

(** validate: every failure, in the order the code joins them. *)
Definition validate (f : File) : list string :=
  add_if (fVersion f <? 0)%Z "version" ++
  validateLineage f ++
  validateClusters "clusters" (default ∅ (fClusters f)) ++
  concat (List.map (validateTenant f) (msortedKeys (fTenants f))) ++
  fst (walk (validatePlacement f) (msortedKeys (fPlacements f)) ∅).

(** ** Facts about the loops *)

Lemma add_if_nil b k : add_if b k = [] <-> b = false.
Proof. by destruct b. Qed.

(** Break every "no failure" hypothesis into the conditions it states. *)
Ltac no_failure := repeat match goal with
  | H : _ ++ _ = [] |- _ => apply app_eq_nil in H as [? ?]
  | H : add_if _ _ = [] |- _ => apply add_if_nil in H
  | H : _ || _ = false |- _ => apply orb_false_iff in H as [? ?]
  | H : negb _ = false |- _ => apply negb_false_iff in H
  | H : negb _ = true |- _ => apply negb_true_iff in H
  | H : bool_decide _ = true |- _ => apply bool_decide_eq_true in H
  | H : bool_decide _ = false |- _ => apply bool_decide_eq_false in H
  end.

Lemma concat_nil_In {A B} (g : A -> list B) xs x : concat (List.map g xs) = [] -> x ∈ xs -> g x = [].
Proof.
  induction xs as [|y xs IH]; intros H Hin; [by apply elem_of_nil in Hin|]. simpl in H.
  apply app_eq_nil in H as [??]. apply elem_of_cons in Hin as [->|]; auto.
Qed.

(** A loop whose every step claims one bucket for [pk] without a failure. *)
Lemma walk_claims {A} (f : A -> used_buckets -> list string * used_buckets) (b : A -> string * string) pk xs u u' :
  (forall x u u', x ∈ xs -> f x u = ([], u') -> u !! b x = None /\ u' = <[b x := pk]> u) ->
  walk f xs u = ([], u') ->
  NoDup (b <$> xs) /\ (forall c, c ∈ b <$> xs -> u !! c = None) /\
  forall c, u' !! c = if decide (c ∈ b <$> xs) then Some pk else u !! c.
Proof.
  revert u. induction xs as [|x xs IH]; intros u Hf Hw; simpl in Hw.
  { injection Hw as <-. split_and!; [constructor|by intros c ?%elem_of_nil|done]. }
  destruct (f x u) as [e1 u1] eqn:E1. destruct (walk f xs u1) as [e2 u2] eqn:E2. injection Hw as He <-.
  apply app_eq_nil in He as [-> ->]. destruct (Hf x u u1) as [Hx ->]; [set_solver|done|].
  destruct (IH _ (fun y v v' Hy => Hf y v v' (list_elem_of_further _ _ _ Hy)) E2) as (Hnd & Hfree & Hu). clear IH.
  rewrite fmap_cons. split_and!.
  - constructor; [|done]. intros Hin. apply Hfree in Hin. by rewrite lookup_insert_eq in Hin.
  - intros c [->|Hc]%elem_of_cons; [done|]. specialize (Hfree c Hc). by apply lookup_insert_None in Hfree as [? _].
  - intros c. rewrite Hu. destruct (decide (c ∈ b <$> xs)) as [Hc|Hc].
    { by rewrite decide_True by (right; done). }
    destruct (decide (c = b x)) as [->|Hne]; [by rewrite lookup_insert_eq, decide_True by left|].
    rewrite lookup_insert_ne by done. rewrite decide_False; [done|]. by intros [?|?]%elem_of_cons.
Qed.

Lemma claim_free pk key cl name u u' : claim pk key cl name u = ([], u') ->
  u !! (cl, name) = None /\ u' = <[(cl, name) := pk]> u.
Proof. unfold claim. destruct (u !! (cl, name)); [done|]. by intros [= <-]. Qed.

(** The backend buckets of a placement, as the validator counts them: its names, or its legs. *)
Definition leg_pair (legs : option (gmap string Leg)) (id : string) : string * string :=
  (legCluster (mget zeroLeg id legs), legBucket (mget zeroLeg id legs)).
Definition name_pair (names : option (gmap string string)) (cl : string) : string * string := (cl, mget "" cl names).

Definition buckets (p : Placement) : list (string * string) :=
  if Spread p then leg_pair (pLegs p) <$> msortedKeys (pLegs p) else name_pair (pNames p) <$> msortedKeys (pNames p).

Lemma validateLeg_claims clusters k pk legs id u u' :
  validateLeg clusters k pk legs id u = ([], u') -> u !! leg_pair legs id = None /\ u' = <[leg_pair legs id := pk]> u.
Proof. unfold validateLeg, leg_pair. intros H. do 2 (case_if_in H; [done|]). by apply claim_free in H. Qed.

Lemma validateName_claims clusters k pk names cl u u' :
  validateName clusters k pk names cl u = ([], u') -> u !! name_pair names cl = None /\ u' = <[name_pair names cl := pk]> u.
Proof.
  unfold validateName, name_pair. intros H. case_if_in H; [by apply (f_equal fst) in H; simpl in H; no_failure|].
  destruct (claim _ _ _ _ _) as [e v] eqn:E. injection H as H <-. no_failure. subst. by apply claim_free in E.
Qed.

Lemma validateSpread_walk clusters k pk p u u' : validateSpread clusters k pk p u = ([], u') ->
  walk (validateLeg clusters k pk (pLegs p)) (msortedKeys (pLegs p)) u = ([], u').
Proof.
  unfold validateSpread. intros H. case_if_in H; [done|]. destruct (walk _ _ _) as [e v]. injection H as H <-.
  no_failure. by subst.
Qed.

Lemma validatePlain_walk clusters k pk p u u' : validatePlain clusters k pk p u = ([], u') ->
  walk (validateName clusters k pk (pNames p)) (msortedKeys (pNames p)) u = ([], u').
Proof. unfold validatePlain. intros H. destruct (walk _ _ _) as [e v]. injection H as H <-. no_failure. by subst. Qed.

Lemma validatePlacement_inv f pk u u' : validatePlacement f pk u = ([], u') ->
  let p := mget zeroPlacement pk (fPlacements f) in
  let k := "placements." +:+ pk in
  validateKey f k pk = [] /\ pState p ∈ States /\
  (if Spread p then validateSpread (fClusters f) k pk p u else validatePlain (fClusters f) k pk p u) = ([], u').
Proof.
  unfold validatePlacement. set (p := mget _ _ _). intros H. simpl.
  destruct (negb (one_of (pState p) States)) eqn:Es; [by apply (f_equal fst) in H; simpl in H; no_failure|].
  unfold one_of in Es. no_failure. destruct (if Spread p then _ else _) as [e v]. injection H as H <-. no_failure. by subst.
Qed.

Lemma validatePlacement_claims f pk u u' : validatePlacement f pk u = ([], u') ->
  let p := mget zeroPlacement pk (fPlacements f) in
  NoDup (buckets p) /\ (forall c, c ∈ buckets p -> u !! c = None) /\
  forall c, u' !! c = if decide (c ∈ buckets p) then Some pk else u !! c.
Proof.
  intros (_ & _ & H)%validatePlacement_inv. unfold buckets. destruct (Spread _).
  - eapply walk_claims; [|by eapply validateSpread_walk]. intros ???? Hl. by eapply validateLeg_claims.
  - eapply walk_claims; [|by eapply validatePlain_walk]. intros ???? Hl. by eapply validateName_claims.
Qed.

(** Over the placements: each is valid on what the earlier ones claimed, and keeps its claims. *)
Lemma walk_placements f pks u u' : walk (validatePlacement f) pks u = ([], u') -> NoDup pks ->
  (forall pk, pk ∈ pks -> exists v v', validatePlacement f pk v = ([], v')) /\
  (forall c k, u !! c = Some k -> u' !! c = Some k) /\
  (forall pk c, pk ∈ pks -> c ∈ buckets (mget zeroPlacement pk (fPlacements f)) -> u' !! c = Some pk).
Proof.
  revert u. induction pks as [|pk pks IH]; intros u Hw Hnd; simpl in Hw.
  { injection Hw as <-. split_and!; [by intros pk ?%elem_of_nil|done|by intros pk c ?%elem_of_nil]. }
  destruct (validatePlacement f pk u) as [e1 u1] eqn:E1. destruct (walk _ pks u1) as [e2 u2] eqn:E2.
  injection Hw as He <-. apply app_eq_nil in He as [-> ->]. apply NoDup_cons in Hnd as [_ Hnd].
  destruct (IH _ E2 Hnd) as (Hv & Hkeep & Hown). destruct (validatePlacement_claims _ _ _ _ E1) as (_ & Hfree & Hu). split_and!.
  - intros pk' [->|?]%elem_of_cons; eauto.
  - intros c k Hc. apply Hkeep. rewrite Hu. destruct (decide _) as [Hin|]; [|done]. apply Hfree in Hin. congruence.
  - intros pk' c [->|?]%elem_of_cons Hc; [|eauto]. apply Hkeep. rewrite Hu. by rewrite decide_True.
Qed.

Lemma validate_placements f : validate f = [] -> exists u, walk (validatePlacement f) (msortedKeys (fPlacements f)) ∅ = ([], u).
Proof.
  unfold validate. intros H. no_failure. destruct (walk _ _ _) as [e u]. simpl in *. subst. by exists u.
Qed.

Lemma validate_placement f k p : validate f = [] -> lookup_placement f k = Some p ->
  exists u u', validatePlacement f k u = ([], u') /\ mget zeroPlacement k (fPlacements f) = p.
Proof.
  intros [u Hw]%validate_placements Hl. unfold lookup_placement in Hl.
  destruct (walk_placements _ _ _ _ Hw) as (Hv & _ & _).
  { unfold msortedKeys. destruct (fPlacements f); [apply sortedKeys_NoDup|constructor]. }
  destruct (Hv k) as (v & v' & E); [by apply elem_of_msortedKeys|]. exists v, v'. split; [done|]. unfold mget. by rewrite Hl.
Qed.

(** C36: in a valid directory no two placements share a backend bucket, and no two legs of one
    placement do. *)
Theorem validate_disjoint f (Hv : validate f = []) :
  (forall k p, lookup_placement f k = Some p -> NoDup (buckets p)) /\
  forall k1 k2 p1 p2 b, lookup_placement f k1 = Some p1 -> lookup_placement f k2 = Some p2 ->
    b ∈ buckets p1 -> b ∈ buckets p2 -> k1 = k2.
Proof.
  split.
  - intros k p Hl. destruct (validate_placement f k p Hv Hl) as (u & u' & E & <-).
    by destruct (validatePlacement_claims _ _ _ _ E) as (? & _).
  - intros k1 k2 p1 p2 b H1 H2 Hb1 Hb2. destruct (validate_placements f Hv) as [u Hw].
    destruct (walk_placements _ _ _ _ Hw) as (_ & _ & Hown).
    { unfold msortedKeys. destruct (fPlacements f); [apply sortedKeys_NoDup|constructor]. }
    assert (forall k p, lookup_placement f k = Some p -> b ∈ buckets p -> u !! b = Some k) as Hk.
    { intros k p Hl Hb. unfold lookup_placement in Hl. apply Hown; [by apply elem_of_msortedKeys|]. unfold mget. by rewrite Hl. }
    pose proof (Hk _ _ H1 Hb1). pose proof (Hk _ _ H2 Hb2). congruence.
Qed.

(** In a valid directory the key of every placement splits into a tenant of the directory and a
    valid bucket name, and is the key those two make; so a bucket has one placement. *)
Theorem validate_keys f k p (Hv : validate f = []) (Hl : lookup_placement f k = Some p) :
  exists tenant bucket, SplitKey k = Some (tenant, bucket) /\ k = Key tenant bucket /\
    is_Some (mlookup tenant (fTenants f)) /\ validTenant tenant = true /\ ValidBucketName bucket = true.
Proof.
  destruct (validate_placement f k p Hv Hl) as (u & u' & (Hk & _)%validatePlacement_inv & _).
  unfold validateKey in Hk. destruct (SplitKey k) as [[t b]|] eqn:E; [|done]. case_if_in Hk; [done|]. no_failure.
  exists t, b. assert (is_Some (mlookup t (fTenants f))) as Ht by by apply mhas_true. split_and!; [done| |done| |done].
  - unfold SplitKey in E. destruct (Cut k "/"%char) as [[a c]|] eqn:Ec; simpl in E; [|done]. case_if_in E; [done|].
    injection E as <- <-. by apply Cut_Some in Ec.
  - unfold validate in Hv. no_failure.
    assert (validateTenant f t = []) as Hvt by (eapply concat_nil_In; [eassumption|by apply elem_of_msortedKeys]).
    unfold validateTenant in Hvt. by no_failure.
Qed.

(** The key of a placement reads back. *)
Lemma SplitKey_Key tenant bucket : validTenant tenant = true -> bucket <> "" ->
  SplitKey (Key tenant bucket) = Some (tenant, bucket).
Proof.
  intros Ht Hb. unfold SplitKey, Key. change ("/" +:+ bucket) with (String "/"%char bucket).
  rewrite Cut_app by by apply tenant_no_slash. simpl. rewrite (bool_decide_false (bucket = "")) by done.
  rewrite bool_decide_false; [done|]. intros ->. done.
Qed.

(** ** A valid placement is well formed

    What validation leaves open and routing needs: the ramp and table hashes are the one this build
    implements, the ratios are numbers, and the fields no stored placement has are absent. *)

Definition real_ratio (x : f64) : Prop := is_f64 x /\ f64_isNaN x = false.

Record routable (p : Placement) : Prop := {
  ro_typed : typed p;
  ro_range : forall m, pMove p = Some m -> range_u64 (mvRange m);
  ro_roles : pLegClusters p = None;
  ro_hash : Spread p = true -> pKeyHash p = RampHash;
  ro_ramp : forall r, pRamp p = Some r \/ (exists m, pMove p = Some m /\ mvRamp m = Some r) ->
    rHash r = RampHash /\ real_ratio (rRatio r) /\ forall h, rHold r = Some h -> real_ratio (hRatio h);
  ro_plain : forall r, pRamp p = Some r -> rRange r = None;
}.

Lemma real_ratio_ok x : real_ratio x -> f64_ltb x f0 = false -> f64_ltb f1 x = false -> ratio_ok x.
Proof.
  intros [Hf Hn] H0 H1. rewrite f1_unit in H1. unfold ratio_ok. rewrite f1_unit.
  destruct x as [|[]|m]; simpl in *; try discriminate. split_and!; [assumption|lia|lia].
Qed.

Lemma checkLegs_Ok legs ids u : checkLegs legs ids = Ok u -> forall id, id ∈ ids -> id <> "" /\ legCluster (mget zeroLeg id legs) <> "".
Proof.
  induction ids as [|i ids IH]; simpl; intros H id Hin; [by apply elem_of_nil in Hin|].
  destruct (legID i) eqn:Ei; simpl in H; [|done]. case_if_in H; [done|]. case_if_in H; [done|]. no_failure.
  apply elem_of_cons in Hin as [->|]; [|auto]. split; [|done]. by intros ->.
Qed.

(** The prefixes of checked rules increase, so none is named twice. *)
Lemma checkRules_Ok legs i prev rules u : Forall (fun r => Forall owner_u64 (prOwners r)) rules ->
  checkRules legs i prev rules = Ok u ->
  (forall r, r ∈ rules -> prPrefix r <> "" /\ partition (prOwners r) /\ Forall (fun o => hasLeg legs (oLeg o) = true) (prOwners r)) /\
  (forall r q, r ∈ rules -> prev = Some q -> String.le q (prPrefix r) /\ q <> prPrefix r) /\
  NoDup (prPrefix <$> rules).
Proof.
  revert i prev. induction rules as [|r rules IH]; intros i prev Hu H.
  { split_and!; [by intros ? ?%elem_of_nil|by intros ?? ?%elem_of_nil|constructor]. }
  simpl in H. apply Forall_cons in Hu as [Hr Hu]. case_if_in H; [done|]. case_if_in H; [done|]. case_if_in H; [done|].
  destruct (checkOwners (prOwners r) legs) as [[]|] eqn:Eo; [|done]. apply checkOwners_Ok in Eo as [Hp Hl]; [|done].
  destruct (IH _ _ Hu H) as (Hall & Hlt & Hnd). no_failure.
  assert (forall q, prev = Some q -> String.le q (prPrefix r) /\ q <> prPrefix r) as Hq.
  { intros q ->. rename select (String.leb _ _ = false) into E. unfold String.le. split.
    - destruct (String.le_total q (prPrefix r)) as [?|Hle]; [done|]. unfold String.le in Hle. by rewrite E in Hle.
    - intros ->. assert (String.le (prPrefix r) (prPrefix r)) as Hle by reflexivity. unfold String.le in Hle. by rewrite E in Hle. }
  split_and!.
  - intros r' [->|?]%elem_of_cons; auto.
  - intros r' q [->|Hin]%elem_of_cons Hprev; [auto|]. destruct (Hq q Hprev) as [Hle Hne]. destruct (Hlt r' _ Hin eq_refl) as [Hle' Hne'].
    split; [by etrans|]. intros ->. apply Hne'. by apply (anti_symm String.le).
  - rewrite fmap_cons. constructor; [|done]. intros (r' & E & Hin)%list_elem_of_fmap. by apply (Hlt r' _ Hin eq_refl).
Qed.

Lemma checkV2_tables p : routable p -> Spread p = true -> checkV2 p = Ok () -> wf_tables p /\ checkMove p = Ok ().
Proof.
  intros [[Hto Htr] _ Hroles Hhash _ _] Hs H. unfold checkV2 in H. rewrite ?bind_Ok, ?guard_err_Ok in H.
  repeat (setoid_rewrite bind_Ok in H). repeat (setoid_rewrite guard_err_Ok in H).
  destruct H as ([] & _ & [] & _ & [] & Hlegs & [] & _ & [] & _ & [] & Ho & [] & Hp & [] & Hm & _).
  split; [|done]. pose proof (checkLegs_Ok _ _ _ Hlegs) as Hl.
  destruct (checkOwners _ _) as [[]|] eqn:Eo; [|done]. apply checkOwners_Ok in Eo; [|done].
  assert ((forall r, r ∈ sl (pPrefixes p) -> prPrefix r <> "" /\ table_ok p (prOwners r)) /\ NoDup (prPrefix <$> sl (pPrefixes p))) as [Hr Hnd].
  { unfold checkPrefixes in Hp. case_if_in Hp.
    - destruct (sl (pPrefixes p)); [|done]. split; [by intros ? ?%elem_of_nil|constructor].
    - do 2 (case_if_in Hp; [done|]). destruct (checkRules_Ok _ _ _ _ _ Htr Hp) as (Hr & _ & ?). by split. }
  split; auto.
  - intros id (l & E)%bool_decide_eq_true. apply (Hl id). apply elem_of_msortedKeys. by exists l.
  - intros id l E. destruct (Hl id) as [_ Hc]; [apply elem_of_msortedKeys; by exists l|]. unfold mget in Hc. by rewrite E in Hc.
Qed.

Lemma validateRamp_Some k state r : validateRamp k state (Some r) = [] ->
  real_ratio (rRatio r) -> (forall h, rHold r = Some h -> real_ratio (hRatio h)) ->
  state = StateRamping /\ ratio_ok (rRatio r) /\ forall h, rHold r = Some h -> ratio_ok (hRatio h).
Proof.
  unfold validateRamp. intros H Hx Hh. no_failure. split; [assumption|]. split; [by apply real_ratio_ok|].
  intros h E. rewrite E in *. no_failure. apply real_ratio_ok; auto.
Qed.

Lemma validateRamp_None k state : validateRamp k state None = [] -> state <> StateRamping.
Proof. unfold validateRamp. intros H. by no_failure. Qed.

Lemma is_Ok_unit {E} (m : result E ()) : is_Ok m = true -> m = Ok ().
Proof. by destruct m as [[]|]. Qed.

Lemma validateSpread_wf clusters k pk p u u' : routable p -> pState p ∈ States -> Spread p = true ->
  validateSpread clusters k pk p u = ([], u') -> wf_placement p.
Proof.
  intros Hro Hst Hs H. unfold validateSpread in H. case_if_in H; [done|]. rename Heqb into Ev2.
  destruct (walk _ _ _) as [e v]. injection H as H _. no_failure.
  destruct (checkV2_tables p Hro Hs (is_Ok_unit _ Ev2)) as [Hwt Hmv].
  rename select (is_Ok (checkSpread p) = true) into Esp. apply is_Ok_unit in Esp. unfold checkSpread in Esp. unfold checkMove in Hmv.
  assert (pRamp p = None) as HR by by apply eq_None_not_Some.
  pass_check Esp. split; [by apply Hro|]. destruct (pMove p) as [m|] eqn:Em.
  - destruct (bool_decide (pState p = StateActive)) eqn:Ea; simpl in Esp; [done|]. no_failure.
    destruct (scopeTable p (mvScope m)) as [table|] eqn:Et; [|done]. case_if_in Esp; [done|]. no_failure.
    rename select (existsb _ _ = true) into Ex. apply existsb_exists in Ex as (o & Hin%list_elem_of_In & Ho).
    unfold owns_range in Ho. rewrite !andb_true_iff, bool_decide_eq_true, !Z.leb_le in Ho. destruct Ho as [[Hleg Hfrom] Hto].
    do 4 (case_if_in Hmv; [done|]). no_failure. split; auto.
    + exists table. split; [done|]. split; [lia|]. exists o. auto.
    + by apply (ro_range p Hro).
    + rename select (validateRamp _ _ _ = []) into Hmr. destruct (mvRamp m) as [r|] eqn:Er; [|by eapply validateRamp_None].
      destruct (ro_ramp p Hro r) as (Hh & Hx & Hhold); [right; by exists m|].
      destruct (validateRamp_Some _ _ _ Hmr Hx Hhold) as (? & ? & ?). auto.
  - rewrite Hs. split; [done|]. split; [|done]. destruct (decide (pState p = StateActive)) as [|Hne]; [done|].
    by rewrite (bool_decide_eq_false_2 (pState p = StateActive)) in Esp by done.
Qed.

Lemma validatePlain_wf clusters k pk p u u' : routable p -> pState p ∈ States -> Spread p = false ->
  validatePlain clusters k pk p u = ([], u') -> wf_placement p.
Proof.
  intros Hro Hst Hs H. unfold validatePlain in H. destruct (walk _ _ _) as [e v]. injection H as H _. no_failure.
  split; [by apply Hro|]. assert (pMove p = None) as Em.
  { unfold Spread in Hs. no_failure. by apply eq_None_not_Some. }
  rewrite Em, Hs. rename select (validateRamp _ _ _ = []) into HR. rename select (validateSource _ _ _ = []) into HS.
  split; auto.
  - destruct (pRamp p) as [r|] eqn:Er; [|by apply validateRamp_None in HR].
    destruct (ro_ramp p Hro r) as (Hh & Hx & Hhold); [by left|].
    destruct (validateRamp_Some _ _ _ HR Hx Hhold) as (? & ? & ?). pose proof (ro_plain p Hro r Er) as Hrg.
    split_and!; [done| |done|done]. unfold ramp_ok. by rewrite Hrg.
  - unfold ref in *. no_failure. rename select (ref_ok _ (pPrimary p) = true) into Hr. unfold ref_ok in Hr.
    apply andb_true_iff in Hr as [Hr _]. by no_failure.
  - intros Hne. unfold validateSource in HS. rewrite (bool_decide_eq_false_2 (pState p = StateActive)) in HS by done.
    destruct (bool_decide (pSource p = "")) eqn:Esrc; simpl in HS; [done|]. by no_failure.
Qed.

(** C32: a placement of a valid directory that this build can route is well formed: its tables
    partition the hash space among its legs, and its move or migration is in a state that has one.
    So what [Apply] and the router promise of well-formed placements holds for every directory that
    passes validation. *)
Theorem validate_wf f k p (Hv : validate f = []) (Hl : lookup_placement f k = Some p) (Hro : routable p) : wf_placement p.
Proof.
  destruct (validate_placement f k p Hv Hl) as (u & u' & (_ & Hst & H)%validatePlacement_inv & Hp). rewrite Hp in *.
  destruct (Spread p) eqn:Es; [by eapply validateSpread_wf|by eapply validatePlain_wf].
Qed.

(** ** A valid directory *)

Definition example_cluster : Cluster :=
  mkCluster "s3" "https" "us-east-1" "static" ["10.0.0.1:443"] "" (mkClusterTLS "" false) (mkCredentials "AK" "env:SECRET")
    "" "" "" (mkCapabilities None None None None) false false None.

Definition example_plain_placement : Placement :=
  zeroPlacement |> set_State StateActive |> set_Primary "a" |> set_Names (Some {["a" := "logs"]}).

Definition example_spread_placement : Placement :=
  zeroPlacement |> set_State StateActive |> set_KeyHash RampHash
    |> set_Legs (Some {["a" := mkLeg "a" "photos-a"; "b" := mkLeg "b" "photos-b"]})
    |> set_Owners (Some [mkOwner 0 9223372036854775807 "a"; mkOwner 9223372036854775808 MaxUint64 "b"]).

Definition example_file : File :=
  mkFile 7 2 (mkIdentity "0123456789abcdef0123456789abcdef" "fedcba9876543210fedcba9876543210")
    (Some {["placement:t/logs" := 3%Z]}) (Some {["a" := example_cluster; "b" := example_cluster]})
    (Some {["t" := mkTenant "a"]})
    (Some {["t/logs" := example_plain_placement; "t/photos" := example_spread_placement]}).

Lemma example_file_valid : validate example_file = [].
Proof. vm_compute. reflexivity. Qed.

Lemma validate_disjoint_witness : NoDup (buckets example_spread_placement) /\
  forall b, b ∈ buckets example_plain_placement -> b ∉ buckets example_spread_placement.
Proof.
  destruct (validate_disjoint example_file example_file_valid) as [Hnd Hd]. split.
  - apply (Hnd "t/photos"). vm_compute. reflexivity.
  - intros b H1 H2. discriminate (Hd "t/logs" "t/photos" example_plain_placement example_spread_placement b eq_refl eq_refl H1 H2).
Defined.

Lemma validate_keys_witness : exists tenant bucket, SplitKey "t/photos" = Some (tenant, bucket) /\ "t/photos" = Key tenant bucket /\
    is_Some (mlookup tenant (fTenants example_file)) /\ validTenant tenant = true /\ ValidBucketName bucket = true.
Proof. apply (validate_keys example_file "t/photos" example_spread_placement example_file_valid). vm_compute. reflexivity. Defined.

Lemma validate_wf_witness : wf_placement example_spread_placement.
Proof.
  apply (validate_wf example_file "t/photos" _ example_file_valid); [vm_compute; reflexivity|].
  split; try done; [|by intros r [?|(? & ? & _)]].
  split; [|constructor]. repeat constructor; vm_compute; congruence.
Defined.
