(* ===== verification/Store.v ===== *)
(** * The file store (internal/directory: file.go, identity.go, directory.go)

    A front end and the command line share one directory file.  A write takes the file's lock,
    re-reads what is on disk, applies one mutation, stamps the generations of what it changed,
    validates, and replaces the file; a reload installs a file with a higher version.  The YAML
    codec and the hash that detects a touched file are parameters; everything else is the code's.

    [mutate] and [Reload] are functions of the shared disk and one instance, with the answers of the
    environment (the lock, the reads, the writes, the caller's Prepare hook, fresh random
    identities) in a [Call].  Steps of several instances on one disk interleave in [wstep]. *)

From S2P Require Import Prelude Float64 KeyHash HashRange Config Placement Transition S3Op S3Names Route Backend Scopes Directory Validate.

(** ** Stamping a write *)

(** [File.clone]: a deep copy; nil cluster and placement maps become empty. *)
Definition file_clone (f : File) : File :=
  f |> set_Clusters (Some (default ∅ (fClusters f))) |> set_Placements (Some (clone <$> default ∅ (fPlacements f))).

(** The float fields of a record, which have no JSON when they are NaN or infinite. *)
Definition ramp_floats (r : option Ramp) : list f64 :=
  match r with
  | Some r => rRatio r :: match rHold r with Some h => [hRatio h] | None => [] end
  | None => []
  end.
Definition cutover_floats (c : option CutoverEvidence) : list f64 :=
  match c with Some c => [evFallbackReads c] | None => [] end.
Definition placement_floats (p : Placement) : list f64 :=
  ramp_floats (pRamp p) ++ cutover_floats (pCutover p) ++
  match pMove p with Some m => ramp_floats (mvRamp m) ++ cutover_floats (mvCutover m) | None => [] end.

Definition f64_isInf (x : f64) : bool := match x with Inf _ => true | _ => false end.

Definition drop_empty {V} (m : option (gmap string V)) : option (gmap string V) :=
  m ≫= fun m => if decide (m = ∅) then None else Some m.
Definition drop_nil {A} (l : option (list A)) : option (list A) :=
  match l with Some (_ :: _) => l | _ => None end.

(** A placement as it is stored: empty collections are left out, a view's roles are never written. *)
Definition stored (p : Placement) : Placement :=
  p |> set_Names (drop_empty (pNames p)) |> set_Legs (drop_empty (pLegs p)) |> set_Owners (drop_nil (pOwners p))
    |> set_Prefixes (drop_nil (pPrefixes p)) |> set_LegClusters None.

(** [sameJSON] on placements: deep equality, where NaN equals nothing, or the same encoding. *)
Definition samePlacement (a b : Placement) : bool :=
  let floats := placement_floats a ++ placement_floats b in
  negb (existsb f64_isNaN floats) &&
  (bool_decide (a = b) || (negb (existsb f64_isInf floats) && bool_decide (stored a = stored b))).

(** The [stamp] closure of [Stamp]. *)
Definition stamp (version : Z) (prev : File) (res : string) (same : bool) (gens : gmap string Z) : gmap string Z :=
  if negb same then <[res := version]> gens
  else if (0 <? Generation prev res)%Z then <[res := Generation prev res]> gens
  else gens.

(** Was the resource in the previous file, and is it the same there? *)
Definition kept {V} (same : V -> V -> bool) (prev next : option (gmap string V)) (k : string) : bool :=
  match mlookup k prev, mlookup k next with Some a, Some b => same a b | _, _ => false end.

Definition stamp_all {V} (version : Z) (prev : File) (resource : string -> string) (same : string -> bool)
    (m : option (gmap string V)) (gens : gmap string Z) : gmap string Z :=
  foldr (fun k => stamp version prev (resource k) (same k)) gens (msortedKeys m).

(** The secret of a cluster keeps its generation. *)
Definition carry_secret (prev : File) (name : string) (gens : gmap string Z) : gmap string Z :=
  if (0 <? Generation prev (SecretResource name))%Z
  then <[SecretResource name := Generation prev (SecretResource name)]> gens else gens.

(** [Stamp]; [fresh] is what [NewIdentity] returns, if it is called. *)
Definition Stamp (fresh : option Identity) (prev next : File) (changed : list string) : result dirErr File :=
  id ← (if Identity_IsZero (fIdentity prev)
        then match fresh with Some id => Ok id | None => Err ErrIdentity end
        else Ok (fIdentity prev));
  let v := fVersion next in
  let gens := stamp_all v prev PlacementResource (kept samePlacement (fPlacements prev) (fPlacements next)) (fPlacements next) ∅ in
  let gens := stamp_all v prev ClusterResource (kept (fun a b => bool_decide (a = b)) (fClusters prev) (fClusters next)) (fClusters next) gens in
  let gens := stamp_all v prev TenantResource (kept (fun a b => bool_decide (a = b)) (fTenants prev) (fTenants next)) (fTenants next) gens in
  let gens := foldr (carry_secret prev) gens (msortedKeys (fClusters next)) in
  let gens := foldl (fun g res => <[res := v]> g) gens changed in
  Ok (set_Lineage v SchemaVersion id (Some gens) next).

(** ** The operations of the store *)

Inductive storeOp : Type :=
| opCreate (tenant bucket cluster backend : string)
| opDelete (tenant bucket : string)
| opSetTenantDefault (tenant cluster : string)
| opSetState (tenant bucket from : string) (t : Transition)
| opSetPlacementWatch (tenant bucket : string) (watch : bool)
| opSetPlacementReadOnly (tenant bucket : string) (readOnly reject : bool) (barrier : string)
| opSetClusterReadOnly (name : string) (readOnly reject : bool) (barrier : string)
| opSetBarrier (tenant bucket : string) (b : Barrier)
| opClearBarrier (resource id : string)
| opReleaseReadOnly (resource id : string) (readOnly reject : bool)
| opPutCluster (name : string) (c : Cluster) (secret : string)
| opRemoveCluster (name : string)
| opAdopt (tenant bucket cluster backend : string)
| opCreateSpread (tenant bucket : string) (legs : list Leg)
| opCarve (tenant bucket prefix : string)
| opMerge (tenant bucket prefix : string)
| opClearTarget (tenant bucket : string)
| opSetTarget (tenant bucket cluster backend : string).

Definition clusterKey (name : string) : string := "clusters/" +:+ name.

(** The arguments of [mutate] for each operation: its name in the change log, its key, its change.
    An operation refused before the lock is an error. *)
Definition submit (o : storeOp) (now : Z) : result dirErr (string * string * (File -> result dirErr File)) :=
  match o with
  | opCreate t b cl be => Ok ("create", Key t b, Create t b cl be now)
  | opDelete t b => Ok ("delete", Key t b, Delete t b)
  | opSetTenantDefault t cl => Ok ("set-default", t, SetTenantDefault t cl)
  | opSetState t b from tr => Ok ("set-state", Key t b, SetState t b from tr)
  | opSetPlacementWatch t b w => Ok ("set-watch", Key t b, SetPlacementWatch t b w)
  | opSetPlacementReadOnly t b ro rj ba => Ok ("placement-read-only", Key t b, SetPlacementReadOnly t b ro rj ba)
  | opSetClusterReadOnly n ro rj ba => Ok ("cluster-read-only", clusterKey n, SetClusterReadOnly n ro rj ba)
  | opSetBarrier t b ba => Ok ("set-barrier", Key t b, SetBarrier t b ba)
  | opClearBarrier res id =>
      match CutPrefix res "cluster:" with
      | Some name => Ok ("clear-barrier", clusterKey name, ClearClusterBarrier name id)
      | None =>
          let key := TrimPrefix res "placement:" in
          match SplitKey key with
          | Some (t, b) => Ok ("clear-barrier", key, ClearBarrier t b id)
          | None => Err ErrNotFound
          end
      end
  | opReleaseReadOnly res id ro rj =>
      let key := match CutPrefix res "cluster:" with Some name => clusterKey name | None => TrimPrefix res "placement:" end in
      Ok ("release-read-only", key, ReleaseReadOnly res id ro rj)
  | opPutCluster n c secret => if bool_decide (secret = "") then Ok ("cluster-put", clusterKey n, PutCluster n c) else Err ErrSecretInline
  | opRemoveCluster n => Ok ("cluster-remove", clusterKey n, RemoveCluster n)
  | opAdopt t b cl be => Ok ("adopt", Key t b, Adopt t b cl be now)
  | opCreateSpread t b legs => Ok ("create-spread", Key t b, CreateSpread t b legs now)
  | opCarve t b p => Ok ("carve", Key t b, Carve t b p)
  | opMerge t b p => Ok ("merge", Key t b, Merge t b p)
  | opClearTarget t b => Ok ("clear-target", Key t b, ClearTarget t b)
  | opSetTarget t b cl be => Ok ("set-target", Key t b, SetTarget t b cl be)
  end.

(** ** The store *)

(** One record of the change log. *)
Record Change : Type := mkChange {
  chTime : Z; chActor : string; chOp : string; chKey : string; chVersion : Z;
  chBefore : option Placement; chAfter : option Placement;
  chClusterBefore : option Cluster; chClusterAfter : option Cluster;
}.

(** [f.Version++] on an int64. *)
Definition i64 (x : Z) : Z := (x + 9223372036854775808) mod two64 - 9223372036854775808.
Definition set_Version (v : Z) (f : File) : File :=
  set_Lineage v (fSchema f) (fIdentity f) (fGenerations f) f.

Definition zeroFile : File := mkFile 0 0 zeroIdentity None None None None.

(** What happens outside the instance's own fields, in order. *)
Inductive event (doc : Type) : Type :=
| EvPrepare (f : File)
| EvWrite (d : doc)
| EvCommit (f : File)
| EvInstall (f : File)
| EvOnInstall (f : File)
| EvChange (c : Change)
| EvChangeLost (c : Change).
Arguments EvPrepare {doc} f.
Arguments EvWrite {doc} d.
Arguments EvCommit {doc} f.
Arguments EvInstall {doc} f.
Arguments EvOnInstall {doc} f.
Arguments EvChange {doc} c.
Arguments EvChangeLost {doc} c.

(** The answers of the environment to one call: is the lock had, is the file readable, the Prepare
    hook if there is one, does the write land, the stamp it leaves on the file and whether a stat sees it, a random identity, the clock,
    does the change log take a record, is there an OnInstall hook. *)
Record Call : Type := mkCall {
  cLock : bool;
  cRead : option string;
  cPrepare : option (File -> bool);
  cWrite : bool;
  cStamp : Z;
  cStat : bool;
  cFresh : option Identity;
  cNow : Z;
  cLog : bool;
  cHook : bool;
}.

(** The codec of the file: [blank] is an empty document, [decode] reads one ([Ok None] is the end of
    input), [encode] writes one, [sum] is the hash of a document. *)
Class Codec (doc : Type) : Type := {
  blank : doc -> bool;
  decode : doc -> result () (option File);
  encode : File -> option doc;
  sum : doc -> string;
}.

Section Store.
Context {doc : Type} `{Codec doc}.

(** The shared disk: the file with its stamp, or the error a stat of it gives, and the change log. *)
Record Disk : Type := mkDisk { dkFile : result string (doc * Z); dkLog : list Change }.

(** One open [FileDir]. *)
Record Instance_ : Type := mkInstance { inSnap : File; inStamp : option Z; inSum : string; inStatErr : string }.

(** [fromV2] on every placement, in key order; the first failure ends it. *)
Fixpoint fromV2_all (ks : list string) (m : gmap string Placement) : result dirErr (gmap string Placement) :=
  match ks with
  | [] => Ok m
  | k :: ks =>
      match fromV2 (default zeroPlacement (m !! k)) with
      | Ok p => fromV2_all ks (<[k := p]> m)
      | Err _ => Err ErrParse
      end
  end.

Definition parse (d : doc) : result dirErr File :=
  if blank d then Ok zeroFile
  else match decode d with
       | Err _ => Err ErrParse
       | Ok None => Ok zeroFile
       | Ok (Some f) =>
           ps ← match fPlacements f with
                | Some m => m' ← fromV2_all (sortedKeys m) m; Ok (Some m')
                | None => Ok None
                end;
           Ok (f |> set_Placements ps |> set_Clusters (ApplyClusterDefaults <$> fClusters f))
       end.

Definition install (f : File) (d : doc) (st : option Z) (i : Instance_) : Instance_ :=
  mkInstance f (match st with Some s => Some s | None => inStamp i end) (sum d) (inStatErr i).

(** The placement or the cluster a change is about. *)
Definition change_placement (f : File) (k : string) : option Placement :=
  match CutPrefix k "clusters/" with Some _ => None | None => mlookup k (fPlacements f) end.
Definition change_cluster (f : File) (k : string) : option Cluster :=
  match CutPrefix k "clusters/" with Some name => mlookup name (fClusters f) | None => None end.

(** What a write computes before anything reaches the disk. *)
Definition next_file (c : Call) (disk : result string (doc * Z)) (fn : File -> result dirErr File) : result dirErr (File * File) :=
  match cRead c, disk with
  | Some msg, _ | None, Err msg => Err (ErrRead msg)
  | None, Ok (d, _) =>
      f ← parse d;
      _ ← guard_err (negb (bool_decide (validate f = []))) (ErrInvalid (validate f));
      let f := f |> set_Placements (Some (default ∅ (fPlacements f))) in
      let prev := file_clone f in
      f1 ← fn f;
      f2 ← Stamp (cFresh c) prev (set_Version (i64 (fVersion f1 + 1)) f1) [];
      _ ← guard_err (negb (bool_decide (validate f2 = []))) (ErrInvalid (validate f2));
      Ok (f, f2)
  end.

Definition mutate (c : Call) (actor op k : string) (fn : File -> result dirErr File) (dk : Disk) (i : Instance_)
    : result dirErr () * Disk * Instance_ * list (event doc) :=
  if negb (cLock c) then (Err ErrLock, dk, i, [])
  else match next_file c (dkFile dk) fn with
       | Err e => (Err e, dk, i, [])
       | Ok (before, f) =>
           let ev := match cPrepare c with Some _ => [EvPrepare f] | None => [] end in
           if match cPrepare c with Some ok => negb (ok f) | None => false end then (Err ErrPrepare, dk, i, ev)
           else match encode f with
                | None => (Err ErrEncode, dk, i, ev)
                | Some out =>
                    if negb (cWrite c) then (Err ErrWrite, dk, i, ev)
                    else
                      let ch := mkChange (cNow c) actor op k (fVersion f) (change_placement before k) (change_placement f k)
                                  (change_cluster before k) (change_cluster f k) in
                      (Ok (),
                       mkDisk (Ok (out, cStamp c))
                         (if cLog c then dkLog dk ++ [ch] else dkLog dk),
                       install f out (if cStat c then Some (cStamp c) else None) i,
                       ev ++ [EvWrite out] ++ match cPrepare c with Some _ => [EvCommit f] | None => [] end ++ [EvInstall f] ++
                       (if cHook c then [EvOnInstall f] else []) ++ [if cLog c then EvChange ch else EvChangeLost ch])
                end
       end.

(** An operation of the store: what it refuses itself, then the locked write. *)
Definition run_op (c : Call) (actor : string) (o : storeOp) (dk : Disk) (i : Instance_)
    : result dirErr () * Disk * Instance_ * list (event doc) :=
  match submit o (cNow c) with
  | Err e => (Err e, dk, i, [])
  | Ok (op, k, fn) => mutate c actor op k fn dk i
  end.

(** Reload: the answer is whether a new version was installed. *)
Definition Reload (c : Call) (dk : Disk) (i : Instance_) : result dirErr bool * Instance_ * list (event doc) :=
  match dkFile dk with
  | Err msg =>
      if bool_decide (msg = inStatErr i) then (Ok false, i, [])
      else (Err (ErrRead msg), mkInstance (inSnap i) (inStamp i) (inSum i) msg, [])
  | Ok (d, st) =>
      let i := mkInstance (inSnap i) (inStamp i) (inSum i) "" in
      if bool_decide (inStamp i = Some st) then (Ok false, i, [])
      else match cRead c with
           | Some msg => (Err (ErrRead msg), i, [])
           | None =>
               let i := mkInstance (inSnap i) (Some st) (inSum i) "" in
               let cur := fVersion (inSnap i) in
               match parse d with
               | Err e => (Err e, i, [])
               | Ok f =>
                   if negb (bool_decide (validate f = [])) then (Err (ErrInvalid (validate f)), i, [])
                   else if (fVersion f <=? cur)%Z then
                     if (fVersion f =? cur)%Z && bool_decide (sum d = inSum i) then (Ok false, i, [])
                     else (Err ErrStaleVersion, i, [])
                   else
                     let ev := match cPrepare c with Some _ => [EvPrepare f] | None => [] end in
                     if match cPrepare c with Some ok => negb (ok f) | None => false end then (Err ErrPrepare, i, ev)
                     else (Ok true, install f d (Some st) i,
                           ev ++ match cPrepare c with Some _ => [EvCommit f] | None => [] end ++ [EvInstall f] ++
                           (if cHook c then [EvOnInstall f] else []))
               end
           end
  end.

(** Open: a new instance on a valid file. *)
Definition Open (dk : Disk) : result dirErr Instance_ :=
  match dkFile dk with
  | Err msg => Err (ErrRead msg)
  | Ok (d, st) =>
      f ← parse d;
      if bool_decide (validate f = []) then Ok (install f d (Some st) (mkInstance f None "" "")) else Err (ErrInvalid (validate f))
  end.

(** Changes: the newest records at or before a version. *)
Definition Changes (log : list Change) (cur before : Z) (limit : nat) : list Change :=
  let before := if (before =? 0)%Z then cur else before in
  take limit (List.filter (fun c => (chVersion c <=? before)%Z) (rev log)).

End Store.

(** ** Stamping: generations *)

Lemma stamp_other v prev res same gens r : r <> res -> stamp v prev res same gens !! r = gens !! r.
Proof. intros Hne. unfold stamp. destruct (negb same); [by rewrite lookup_insert_ne|]. case_match; [by rewrite lookup_insert_ne|done]. Qed.

Lemma stamp_all_other {V} v prev resource same (m : option (gmap string V)) gens r :
  (forall k, r <> resource k) -> stamp_all v prev resource same m gens !! r = gens !! r.
Proof.
  intros Hne. unfold stamp_all. induction (msortedKeys m) as [|k ks IH]; simpl; [done|]. by rewrite stamp_other.
Qed.

(** What a resource of the next file is stamped with. *)
Definition stamped (v g : Z) (same : bool) : option Z := if negb same then Some v else if (0 <? g)%Z then Some g else None.

Lemma stamp_all_key {V} v prev resource same (m : option (gmap string V)) gens k :
  (forall a b, resource a = resource b -> a = b) -> gens !! resource k = None ->
  stamp_all v prev resource same m gens !! resource k =
    if mhas k m then stamped v (Generation prev (resource k)) (same k) else None.
Proof.
  intros Hinj Hnone. unfold stamp_all.
  assert (NoDup (msortedKeys m)) as Hnd by (destruct m; [apply sortedKeys_NoDup|constructor]).
  assert (forall ks, NoDup ks -> foldr (fun k => stamp v prev (resource k) (same k)) gens ks !! resource k =
            if decide (k ∈ ks) then stamped v (Generation prev (resource k)) (same k) else None) as Hks.
  { clear Hnd. induction ks as [|k' ks IH]; intros Hnd; simpl; [done|].
    apply NoDup_cons in Hnd as [Hni Hnd]. destruct (decide (k = k')) as [<-|Hne].
    - rewrite decide_True by by left. specialize (IH Hnd). rewrite (decide_False (P := k ∈ ks)) in IH by done.
      unfold stamp, stamped. destruct (negb (same k)); [by rewrite lookup_insert_eq|]. case_match; [by rewrite lookup_insert_eq|done].
    - rewrite stamp_other by (intros E; by apply Hinj in E). rewrite IH by done. destruct (decide (k ∈ ks)) as [?|Hk].
      + by rewrite decide_True by (by right).
      + rewrite decide_False; [done|]. by intros [?|?]%elem_of_cons. }
  rewrite Hks by done. destruct (mhas k m) eqn:E.
  - rewrite decide_True; [done|]. by apply elem_of_msortedKeys, mhas_true.
  - rewrite decide_False; [done|]. intros [x Hx]%elem_of_msortedKeys. apply mhas_false in E. congruence.
Qed.

Lemma carry_secrets_other prev ks gens r : (forall n, r <> SecretResource n) -> foldr (carry_secret prev) gens ks !! r = gens !! r.
Proof.
  intros Hne. induction ks as [|n ks IH]; simpl; [done|]. unfold carry_secret at 1. case_match; [|done]. by rewrite lookup_insert_ne.
Qed.

(** The generations of the resources of one kind in the file [f] that a write made of [f0]: its own
    version for what changed, the generation it had for what did not, none for what is gone. *)
Definition stamps {V} (resource : string -> string) (same : V -> V -> bool) (m0 m : option (gmap string V)) (f0 f : File) : Prop :=
  forall k, mlookup (resource k) (fGenerations f) =
    if mhas k m then stamped (fVersion f) (Generation f0 (resource k)) (kept same m0 m k) else None.

(** The stamps of the placements, the clusters and the tenants of a file. *)
Definition all_stamps (prev f : File) : Prop :=
  stamps PlacementResource samePlacement (fPlacements prev) (fPlacements f) prev f /\
  stamps ClusterResource (fun a b => bool_decide (a = b)) (fClusters prev) (fClusters f) prev f /\
  stamps TenantResource (fun a b => bool_decide (a = b)) (fTenants prev) (fTenants f) prev f.

Lemma Stamp_stamps fresh prev next f : Stamp fresh prev next [] = Ok f -> all_stamps prev f.
Proof.
  unfold Stamp. intros (id & _ & [= <-])%bind_Ok. split_and!; intros k; simpl; rewrite carry_secrets_other by done.
  - rewrite stamp_all_other by done. rewrite stamp_all_other by done.
    apply stamp_all_key; [|done]. unfold PlacementResource. intros a b E. by injection E.
  - rewrite stamp_all_other by done. apply stamp_all_key; [exact ClusterResource_inj|]. by rewrite stamp_all_other by done.
  - apply stamp_all_key; [|by rewrite !stamp_all_other by done]. unfold TenantResource. intros a b E. by injection E.
Qed.

Lemma Stamp_fields fresh prev next f : Stamp fresh prev next [] = Ok f ->
  fVersion f = fVersion next /\ fSchema f = SchemaVersion /\ fClusters f = fClusters next /\ fTenants f = fTenants next /\
  fPlacements f = fPlacements next /\ (Identity_IsZero (fIdentity prev) = false -> fIdentity f = fIdentity prev).
Proof.
  unfold Stamp. intros (id & Hid & [= <-])%bind_Ok. split_and!; try done. intros E. rewrite E in Hid. by injection Hid as <-.
Qed.

(** The stamps against the copy [mutate] takes of the file are those against the file. *)
Lemma clone_placements (m : gmap string Placement) : clone <$> m = m.
Proof. etrans; [|apply map_fmap_id]. apply map_fmap_ext. intros. apply clone_id. Qed.

Lemma kept_default {V} (same : V -> V -> bool) (m0 m : option (gmap string V)) k : kept same (Some (default ∅ m0)) m k = kept same m0 m k.
Proof. unfold kept. by destruct m0. Qed.

Lemma all_stamps_clone f0 f : all_stamps (file_clone (set_Placements (Some (default ∅ (fPlacements f0))) f0)) f -> all_stamps f0 f.
Proof.
  intros (Hp & Hc & Ht). split_and!; intros k.
  - rewrite (Hp k). simpl. rewrite clone_placements. by rewrite kept_default.
  - rewrite (Hc k). simpl. by rewrite kept_default.
  - exact (Ht k).
Qed.

(** ** Every operation leaves the lineage to the store *)

Definition lineage (f : File) : Z * Z * Identity * option (gmap string Z) := (fVersion f, fSchema f, fIdentity f, fGenerations f).

(** Case on every check of [H : op ... = Ok f'] and close the branches that refuse. *)
Ltac op_cases H := repeat match type of H with
  | context [match ?x with _ => _ end] => destruct x; try discriminate H
  end.

Lemma submit_lineage o now op k fn f f' : submit o now = Ok (op, k, fn) -> fn f = Ok f' -> lineage f' = lineage f.
Proof.
  destruct o; simpl; intros Hs Hf; op_cases Hs; injection Hs as _ _ <-;
    unfold Create, Delete, SetTenantDefault, SetState, SetPlacementWatch, SetPlacementReadOnly, SetClusterReadOnly, SetBarrier,
      ClearClusterBarrier, ClearBarrier, ReleaseReadOnly, PutCluster, RemoveCluster, Adopt, CreateSpread, Carve, Merge,
      ClearTarget, SetTarget, ensureTenant in Hf; op_cases Hf; injection Hf as <-; reflexivity.
Qed.

Lemma next_file_Ok {doc} `{Codec doc} c disk fn b f : next_file c disk fn = Ok (b, f) ->
  exists d st f0 f1, disk = Ok (d, st) /\ parse d = Ok f0 /\ validate f0 = [] /\
    b = set_Placements (Some (default ∅ (fPlacements f0))) f0 /\ fn b = Ok f1 /\
    Stamp (cFresh c) (file_clone b) (set_Version (i64 (fVersion f1 + 1)) f1) [] = Ok f /\ validate f = [].
Proof.
  unfold next_file. destruct (cRead c); [done|]. destruct disk as [[d st]|]; [|done].
  intros (f0 & Hp & (u & Hv & (f1 & Hfn & (f2 & Hst & (u' & Hv' & [= <- <-])%bind_Ok)%bind_Ok)%bind_Ok)%bind_Ok)%bind_Ok.
  apply guard_err_Ok, negb_false_iff, bool_decide_eq_true in Hv, Hv'. exists d, st, f0, f1. auto 10.
Qed.

Lemma i64_bounds x : (-9223372036854775808 <= i64 x < 9223372036854775808)%Z.
Proof. unfold i64. pose proof (Z.mod_pos_bound (x + 9223372036854775808) two64 ltac:(done)). unfold two64 in *. lia. Qed.

Lemma i64_id x : (-9223372036854775808 <= x < 9223372036854775808)%Z -> i64 x = x.
Proof. intros. unfold i64. rewrite Z.mod_small; unfold two64; lia. Qed.

(** A version that was incremented and is not negative did not wrap. *)
Lemma i64_succ v : i64 v = v -> (0 <= i64 (v + 1))%Z -> i64 (v + 1) = (v + 1)%Z.
Proof.
  intros Hv H0. pose proof (i64_bounds v). rewrite Hv in *.
  destruct (decide (v = 9223372036854775807)%Z) as [->|]; [by vm_compute in H0|]. apply i64_id. lia.
Qed.

Lemma validate_version f : validate f = [] -> (0 <= fVersion f)%Z.
Proof. unfold validate. intros Hv. no_failure. lia. Qed.

(** The version on a document, and its identity. *)
Definition header {doc} `{Codec doc} (d : doc) : option (Z * Identity) :=
  if blank d then Some (0%Z, zeroIdentity)
  else match decode d with
       | Err _ => None
       | Ok None => Some (0%Z, zeroIdentity)
       | Ok (Some f) => Some (fVersion f, fIdentity f)
       end.

Lemma parse_header {doc} `{Codec doc} (d : doc) f : parse d = Ok f -> header d = Some (fVersion f, fIdentity f).
Proof.
  unfold parse, header. destruct (blank d); [by intros [= <-]|]. destruct (decode d) as [[g|]|]; [|by intros [= <-]|done].
  intros (ps & _ & [= <-])%bind_Ok. done.
Qed.

(** What the codec promises: versions are int64s, and a written file reads back its lineage. *)
Class CodecLaws (doc : Type) `{Codec doc} : Prop := {
  decode_int64 : forall d f, decode d = Ok (Some f) -> i64 (fVersion f) = fVersion f;
  encode_header : forall f d, encode f = Some d -> header d = Some (fVersion f, fIdentity f);
}.

Lemma parse_int64 {doc} `{CodecLaws doc} (d : doc) f : parse d = Ok f -> i64 (fVersion f) = fVersion f.
Proof.
  unfold parse. destruct (blank d); [by intros [= <-]|]. destruct (decode d) as [[g|]|] eqn:E; [|by intros [= <-]|done].
  intros (ps & _ & [= <-])%bind_Ok. exact (decode_int64 d g E).
Qed.

(** The identity of the disk only ever goes from none to one. *)
Definition continues (id id' : Identity) : Prop := Identity_IsZero id = false -> id' = id.

Section Commit.
Context {doc : Type} `{CodecLaws doc}.

Lemma mutate_Ok c actor op k fn dk i dk' (i' : Instance_) ev :
  mutate c actor op k fn dk i = (Ok (), dk', i', ev) ->
  exists b f out, next_file c (dkFile dk) fn = Ok (b, f) /\ encode f = Some out /\ dkFile dk' = Ok (out, cStamp c) /\ inSnap i' = f /\
    (forall ok, cPrepare c = Some ok -> ok f = true) /\
    exists ch tail, ev = match cPrepare c with Some _ => [EvPrepare f] | None => [] end ++ [EvWrite out] ++
                    match cPrepare c with Some _ => [EvCommit f] | None => [] end ++ [EvInstall f] ++ tail /\
      chVersion ch = fVersion f /\ chKey ch = k /\ dkLog dk' = (if cLog c then dkLog dk ++ [ch] else dkLog dk).
Proof.
  unfold mutate. destruct (negb (cLock c)); [done|]. destruct (next_file _ _ _) as [[b f]|] eqn:En; [|done].
  destruct (match cPrepare c with Some _ => _ | None => _ end) eqn:Ep; [done|]. destruct (encode f) as [out|] eqn:Ee; [|done].
  destruct (negb (cWrite c)); [done|]. intros [= <- <- <-]. exists b, f, out. split_and!; try done.
  { intros ok Hok. rewrite Hok in Ep. by apply negb_false_iff. }
  exists (mkChange (cNow c) actor op k (fVersion f) (change_placement b k) (change_placement f k) (change_cluster b k) (change_cluster f k)).
  eexists _. split; [reflexivity|]. by split_and!.
Qed.

(** What every successful operation does: the file it read, the file it wrote, and how they relate. *)
Lemma run_op_next c actor o dk i dk' (i' : Instance_) ev : run_op c actor o dk i = (Ok (), dk', i', ev) ->
  cLock c = true /\
  exists d st f0 f out, dkFile dk = Ok (d, st) /\ parse d = Ok f0 /\ validate f0 = [] /\
    validate f = [] /\ inSnap i' = f /\ encode f = Some out /\ dkFile dk' = Ok (out, cStamp c) /\
    fVersion f = (fVersion f0 + 1)%Z /\ continues (fIdentity f0) (fIdentity f) /\
    (exists op k fn f1, submit o (cNow c) = Ok (op, k, fn) /\ fn (set_Placements (Some (default ∅ (fPlacements f0))) f0) = Ok f1 /\
       fClusters f = fClusters f1 /\ fTenants f = fTenants f1 /\ fPlacements f = fPlacements f1 /\
       exists ch, chKey ch = k /\ chVersion ch = fVersion f /\ dkLog dk' = if cLog c then dkLog dk ++ [ch] else dkLog dk) /\
    all_stamps f0 f /\
    forall ok, cPrepare c = Some ok -> ok f = true /\ exists tail, ev = [EvPrepare f; EvWrite out; EvCommit f; EvInstall f] ++ tail.
Proof.
  unfold run_op. intros Hrun. destruct (submit o (cNow c)) as [[[op k] fn]|] eqn:Es; [|done].
  split; [by unfold mutate in Hrun; destruct (cLock c)|].
  apply mutate_Ok in Hrun as (b & f & out & Hn & He & Hdk & Hi & Hp & ch & tail & Hev & Hch & Hck & Hlog).
  apply next_file_Ok in Hn as (d & st & f0 & f1 & Hd & Hpar & Hv0 & Hb & Hfn & Hst & Hv). subst b.
  pose proof (submit_lineage _ _ _ _ _ _ _ Es Hfn) as Hlin. unfold lineage in Hlin. injection Hlin as Hver _ _ _.
  pose proof (Stamp_fields _ _ _ _ Hst) as (Hfv & _ & Hfc & Hft & Hfp & Hid).
  exists d, st, f0, f, out. split_and!; try done.
  - rewrite Hfv. simpl. rewrite Hver. apply i64_succ; [by apply (parse_int64 d)|].
    pose proof (validate_version f Hv) as Hge. rewrite Hfv in Hge. simpl in Hge. by rewrite Hver in Hge.
  - exists op, k, fn, f1. by eauto 10.
  - by eapply all_stamps_clone, Stamp_stamps.
  - intros ok Hok. split; [by apply Hp|]. rewrite Hok in Hev. exists tail. exact Hev.
Qed.

(** C26: a successful operation is a read-modify-write, under the lock, of what is on disk and not
    of the caller's snapshot.  The new file's clusters, tenants and placements are exactly those the
    operation's own change makes of the file read; it is valid, is what the disk now holds and what
    the instance serves, has exactly the next version (an exhausted int64 is refused, never
    wrapped), the same identity once there is one, and gives every placement, cluster and tenant it
    changed its own version as generation and every other the generation it had.  The change log,
    when it takes the record, grows by the one record of this version and key.  Prepare is asked
    before the write, and commits after it and before the file is served. *)
Theorem run_op_commits c actor o dk i dk' (i' : Instance_) ev
    (Hrun : run_op c actor o dk i = (Ok (), dk', i', ev)) :
  cLock c = true /\
  exists d st f0 f out, dkFile dk = Ok (d, st) /\ parse d = Ok f0 /\ validate f0 = [] /\
    validate f = [] /\ inSnap i' = f /\ encode f = Some out /\ dkFile dk' = Ok (out, cStamp c) /\
    fVersion f = (fVersion f0 + 1)%Z /\
    continues (fIdentity f0) (fIdentity f) /\
    (exists op k fn f1, submit o (cNow c) = Ok (op, k, fn) /\ fn (set_Placements (Some (default ∅ (fPlacements f0))) f0) = Ok f1 /\
       fClusters f = fClusters f1 /\ fTenants f = fTenants f1 /\ fPlacements f = fPlacements f1 /\
       exists ch, chKey ch = k /\ chVersion ch = fVersion f /\ dkLog dk' = if cLog c then dkLog dk ++ [ch] else dkLog dk) /\
    stamps PlacementResource samePlacement (fPlacements f0) (fPlacements f) f0 f /\
    stamps ClusterResource (fun a b => bool_decide (a = b)) (fClusters f0) (fClusters f) f0 f /\
    stamps TenantResource (fun a b => bool_decide (a = b)) (fTenants f0) (fTenants f) f0 f /\
    (forall ok, cPrepare c = Some ok -> ok f = true /\ exists tail, ev = [EvPrepare f; EvWrite out; EvCommit f; EvInstall f] ++ tail).
Proof.
  destruct (run_op_next _ _ _ _ _ _ _ _ Hrun) as (Hl & d & st & f0 & f & out & Hd & Hp & Hv0 & Hv & Hi & He & Hdk & Hver & Hid & Hop & (Hsp & Hsc & Hst) & Hev).
  split; [done|]. exists d, st, f0, f, out. by split_and!.
Qed.

Lemma run_op_stays c actor o dk i e dk' (i' : Instance_) (ev : list (event doc)) :
  run_op c actor o dk i = (Err e, dk', i', ev) -> (dk', i') = (dk, i) /\ forall x, x ∈ ev -> exists f, x = EvPrepare f.
Proof.
  unfold run_op. destruct (submit o (cNow c)) as [[[op k] fn]|] eqn:Es; [|intros [= _ <- <- <-]; set_solver].
  unfold mutate. intros Hrun. repeat case_match; simplify_eq; set_solver.
Qed.

(** C27: an operation that fails changes nothing: neither the disk nor the change log nor the
    instance, and nothing was written, committed or served. *)
Theorem run_op_fails c actor o dk i e dk' (i' : Instance_) (ev : list (event doc))
    (Hrun : run_op c actor o dk i = (Err e, dk', i', ev)) :
  dk' = dk /\ i' = i /\ forall x, x ∈ ev -> exists f, x = EvPrepare f.
Proof. destruct (run_op_stays _ _ _ _ _ _ _ _ _ Hrun) as [[= -> ->] Hev]. auto. Qed.

(** ** Several instances on one disk *)

Record World : Type := mkWorld { wDisk : @Disk doc; wInst : gmap nat Instance_ }.

Inductive wstep : World -> World -> Prop :=
| ws_op w n c actor o i r dk' i' ev :
    wInst w !! n = Some i -> run_op c actor o (wDisk w) i = (r, dk', i', ev) ->
    wstep w (mkWorld dk' (<[n := i']> (wInst w)))
| ws_reload w n c i r i' ev :
    wInst w !! n = Some i -> Reload c (wDisk w) i = (r, i', ev) ->
    wstep w (mkWorld (wDisk w) (<[n := i']> (wInst w)))
| ws_open w n i :
    wInst w !! n = None -> Open (wDisk w) = Ok i ->
    wstep w (mkWorld (wDisk w) (<[n := i]> (wInst w))).

(** The file on disk has version [v] and identity [id]. *)
Definition on_disk (w : World) (v : Z) (id : Identity) : Prop :=
  exists d st, dkFile (wDisk w) = Ok (d, st) /\ header d = Some (v, id).

(** A snapshot is a version of the file on disk, never a later one or another lineage's. *)
Definition behind (v : Z) (id : Identity) (f : File) : Prop :=
  (fVersion f <= v)%Z /\ (Identity_IsZero (fIdentity f) = false -> fIdentity f = id).

Definition world_ok (w : World) : Prop :=
  exists v id, on_disk w v id /\ forall n i, wInst w !! n = Some i -> behind v id (inSnap i).

(** An instance between two worlds: it is still there, at the same version or a later one. *)
Definition forward (w w' : World) : Prop :=
  forall n i, wInst w !! n = Some i -> exists i', wInst w' !! n = Some i' /\ (fVersion (inSnap i) <= fVersion (inSnap i'))%Z.

Lemma behind_later v id v' id' f : behind v id f -> (v <= v')%Z -> continues id id' -> behind v' id' f.
Proof.
  intros [Hv Hid] Hle Hc. split; [lia|]. intros Hz. rewrite (Hid Hz). symmetry. apply Hc. by rewrite <- (Hid Hz).
Qed.

Lemma Reload_snap c dk i r (i' : Instance_) (ev : list (event doc)) : Reload c dk i = (r, i', ev) ->
  inSnap i' = inSnap i \/
  exists d st, dkFile dk = Ok (d, st) /\ parse d = Ok (inSnap i') /\ validate (inSnap i') = [] /\ (fVersion (inSnap i) < fVersion (inSnap i'))%Z.
Proof.
  unfold Reload. intros Hr. destruct (dkFile dk) as [[d st]|] eqn:Ed; [|case_match; simplify_eq; by left].
  case_match; [simplify_eq; by left|]. case_match; [simplify_eq; by left|]. destruct (parse d) as [f|] eqn:Ep; [|simplify_eq; by left].
  destruct (negb (bool_decide (validate f = []))) eqn:Ev; [simplify_eq; by left|].
  destruct (fVersion f <=? _)%Z eqn:Ele; [case_match; simplify_eq; by left|]. case_match; simplify_eq; [by left|].
  right. exists d, st. simpl in *. apply negb_false_iff, bool_decide_eq_true in Ev. split_and!; try done. lia.
Qed.

Lemma run_op_disk c actor o dk i r dk' (i' : Instance_) (ev : list (event doc)) : run_op c actor o dk i = (r, dk', i', ev) ->
  (dk' = dk /\ i' = i) \/
  exists d st d' st' v id id', dkFile dk = Ok (d, st) /\ header d = Some (v, id) /\ dkFile dk' = Ok (d', st') /\
    header d' = Some ((v + 1)%Z, id') /\ continues id id' /\ fVersion (inSnap i') = (v + 1)%Z /\ fIdentity (inSnap i') = id'.
Proof.
  destruct r as [[]|e]; intros Hr; [right|left; by apply run_op_stays in Hr as ([= -> ->] & _)].
  destruct (run_op_next _ _ _ _ _ _ _ _ Hr) as (_ & d & st & f0 & f & out & Hd & Hp & _ & _ & Hi & He & Hd' & Hv & Hid & _).
  exists d, st, out, (cStamp c), (fVersion f0), (fIdentity f0), (fIdentity f). rewrite Hi, <- Hv.
  split_and!; try done; [by apply parse_header|by apply encode_header].
Qed.

(** What one step keeps: the invariant, every instance's progress, and the disk's. *)
Definition step_ok (w w' : World) : Prop :=
  world_ok w' /\ forward w w' /\
  forall v id, on_disk w v id -> exists v' id', on_disk w' v' id' /\ (v <= v')%Z /\ continues id id'.

(** One instance put on a disk that holds what it held, or a later version. *)
Lemma world_put w n i' dk' d st v id v' id' :
  dkFile (wDisk w) = Ok (d, st) -> header d = Some (v, id) -> (forall m j, wInst w !! m = Some j -> behind v id (inSnap j)) ->
  on_disk (mkWorld dk' ∅) v' id' -> (v <= v')%Z -> continues id id' -> behind v' id' (inSnap i') ->
  (forall i, wInst w !! n = Some i -> (fVersion (inSnap i) <= fVersion (inSnap i'))%Z) ->
  step_ok w (mkWorld dk' (<[n := i']> (wInst w))).
Proof.
  intros Hd Hh Hall Hon Hle Hc Hi' Hn. split_and!.
  - exists v', id'. split; [exact Hon|]. intros m j. simpl. rewrite lookup_insert_Some. intros [[_ <-]|[_ Hm]]; [done|].
    eapply behind_later; [by apply (Hall m)|done|done].
  - intros m j Hm. simpl. destruct (decide (m = n)) as [->|Hne]; [rewrite lookup_insert_eq; eauto|].
    rewrite lookup_insert_ne by done. exists j. split; [done|lia].
  - intros v1 id1 (d1 & st1 & Hd1 & Hh1). rewrite Hd in Hd1. injection Hd1 as <- <-. rewrite Hh in Hh1. injection Hh1 as <- <-. eauto.
Qed.

Lemma wstep_ok w w' : wstep w w' -> world_ok w -> step_ok w w'.
Proof.
  intros Hs (v & id & (d & st & Hd & Hh) & Hall). destruct Hs as [w n c actor o i r dk' i' ev Hn Hr|w n c i r i' ev Hn Hr|w n i Hn Hopen].
  - apply run_op_disk in Hr as [[-> ->]|(d0 & st0 & d' & st' & v0 & id0 & id' & Hd0 & Hh0 & Hd' & Hh' & Hc & Hv & Hid)].
    + eapply (world_put _ _ _ _ d st v id v id); try done; [by exists d, st|by apply (Hall n)|]. intros j Hj. by simplify_eq.
    + rewrite Hd in Hd0. injection Hd0 as <- <-. rewrite Hh in Hh0. injection Hh0 as <- <-.
      eapply (world_put _ _ _ _ d st v id (v + 1) id'); try done; [by exists d', st'|lia|split; [lia|done]|].
      intros j Hj. destruct (Hall n j Hj). lia.
  - apply Reload_snap in Hr as [E|(d0 & st0 & Hd0 & Hp & _ & Hlt)].
    + eapply (world_put _ _ _ _ d st v id v id); try done; [by exists d, st|rewrite E; by apply (Hall n)|]. intros j Hj. simplify_eq. by rewrite E.
    + rewrite Hd in Hd0. injection Hd0 as <- <-. apply parse_header in Hp. rewrite Hh in Hp. injection Hp as -> ->.
      eapply (world_put _ _ _ _ d st _ _ (fVersion (inSnap i')) (fIdentity (inSnap i'))); try done; [by exists d, st|]. intros j Hj. simplify_eq. lia.
  - unfold Open in Hopen. rewrite Hd in Hopen. apply bind_Ok in Hopen as (f & Hp & Hopen). case_match; [|done].
    injection Hopen as <-. apply parse_header in Hp. rewrite Hh in Hp. injection Hp as -> ->.
    eapply (world_put _ _ _ _ d st _ _ (fVersion f) (fIdentity f)); try done; [by exists d, st|]. intros j Hj. congruence.
Qed.

(** Whatever the front ends and the command line do to one directory file, in any order, with
    any failures on the way, no instance ever serves an older version after a newer one, every
    snapshot is a version the file has had at most, and the file keeps its lineage. *)
Theorem versions_never_go_back w w' (Hok : world_ok w) (Hsteps : rtc wstep w w') : step_ok w w'.
Proof.
  revert Hok. induction Hsteps as [w|w w1 w' Hs _ IH]; intros Hok.
  - split_and!; [done|intros n i Hi; by exists i|]. intros v id Hon. exists v, id. split_and!; [done|lia|done].
  - destruct (wstep_ok _ _ Hs Hok) as (Hok1 & Hf1 & Hd1). destruct (IH Hok1) as (Hok' & Hf' & Hd'). split_and!; [done| |].
    + intros n i Hi. destruct (Hf1 n i Hi) as (i1 & Hi1 & ?). destruct (Hf' n i1 Hi1) as (i2 & Hi2 & ?). exists i2. split; [done|lia].
    + intros v id Hon. destruct (Hd1 v id Hon) as (v1 & id1 & Hon1 & ? & Hc1). destruct (Hd' v1 id1 Hon1) as (v2 & id2 & Hon2 & ? & Hc2).
      exists v2, id2. split_and!; [done|lia|]. intros Hz. rewrite <- (Hc1 Hz). apply Hc2. by rewrite (Hc1 Hz).
Qed.
End Commit.

(** ** A store over an in-memory document *)

#[local] Instance mem_codec : Codec File := {| blank := fun _ => false;
  decode := fun f => if decide (i64 (fVersion f) = fVersion f) then Ok (Some f) else Err ();
  encode := fun f => if decide (i64 (fVersion f) = fVersion f) then Some f else None; sum := fun _ => "" |}.

#[local] Instance mem_laws : CodecLaws File.
Proof.
  split.
  - intros d f. unfold decode, mem_codec. case_decide; [|done]. by intros [= <-].
  - intros f d. unfold encode, header, mem_codec. simpl. case_decide; [|done]. intros [= <-]. by rewrite decide_True.
Qed.

Definition example_call : Call := mkCall true None (Some (fun _ => true)) true 2 true None 5000000 true true.
Definition example_disk : @Disk File := mkDisk (Ok (example_file, 1%Z)) [].
Definition example_instance : Instance_ := mkInstance example_file (Some 1%Z) "" "".
Definition example_op : storeOp := opAdopt "t" "videos" "b" "videos-b".

(** What the example operation does, computed. *)
Definition example_run := run_op example_call "op" example_op example_disk example_instance.

Lemma example_run_Ok : exists dk' i' ev, example_run = (Ok (), dk', i', ev) /\
  exists r i1 ev1, Reload example_call dk' example_instance = (r, i1, ev1) /\ fVersion (inSnap i1) = 8%Z.
Proof. do 3 eexists. split; [vm_compute; reflexivity|]. do 3 eexists. split; vm_compute; reflexivity. Qed.

Lemma example_disk_version d st f : dkFile example_disk = Ok (d, st) -> parse d = Ok f -> fVersion f = 7%Z.
Proof. intros Hd. injection Hd as <- <-. intros Hp%parse_header. by injection Hp as <- _. Qed.

Lemma run_op_commits_witness : exists dk' i' ev f, example_run = (Ok (), dk', i', ev) /\ inSnap i' = f /\ validate f = [] /\ fVersion f = 8%Z.
Proof.
  destruct example_run_Ok as (dk' & i' & ev & E & _).
  destruct (run_op_commits example_call "op" example_op example_disk example_instance dk' i' ev E)
    as (_ & d & st & f0 & f & out & Hd & Hp & _ & Hv & Hi & _ & _ & Hver & _).
  exists dk', i', ev, f. split; [exact E|]. split; [exact Hi|]. split; [exact Hv|]. rewrite Hver.
  by rewrite (example_disk_version d st f0 Hd Hp).
Defined.

Lemma run_op_fails_witness : exists ev, run_op example_call "op" (opCreate "t" "logs" "a" "logs-2") example_disk example_instance =
    (Err ErrExists, example_disk, example_instance, ev) /\ forall x, x ∈ ev -> exists f, x = EvPrepare f.
Proof.
  exists []. assert (run_op example_call "op" (opCreate "t" "logs" "a" "logs-2") example_disk example_instance =
    (Err ErrExists, example_disk, example_instance, [])) as E by (vm_compute; reflexivity).
  split; [exact E|]. exact (proj2 (proj2 (run_op_fails _ _ _ _ _ _ _ _ _ E))).
Defined.

Definition example_world : @World File := mkWorld example_disk {[0%nat := example_instance; 1%nat := example_instance]}.

Lemma example_world_ok : world_ok example_world.
Proof.
  exists 7%Z, (fIdentity example_file). split; [exists example_file, 1%Z; split; vm_compute; reflexivity|].
  intros n i Hi. unfold example_world in Hi. simpl in Hi. apply lookup_insert_Some in Hi as [[_ <-]|[_ Hi]]; [by split|].
  apply lookup_singleton_Some in Hi as [_ <-]. by split.
Qed.

(** Instance 0 adopts a bucket; instance 1 reloads. *)
Lemma versions_never_go_back_witness : exists w', rtc wstep example_world w' /\ step_ok example_world w' /\
  (fun i => fVersion (inSnap i)) <$> wInst w' !! 1%nat = Some 8%Z.
Proof.
  destruct example_run_Ok as (dk' & i' & ev & E & r & i1 & ev1 & E1 & Hv).
  set (w1 := mkWorld dk' (<[0%nat := i']> (wInst example_world))).
  set (w2 := mkWorld dk' (<[1%nat := i1]> (wInst w1))).
  assert (rtc wstep example_world w2) as Hs.
  { eapply rtc_l; [by eapply (ws_op example_world 0%nat)|]. eapply rtc_l; [by eapply (ws_reload w1 1%nat)|]. apply rtc_refl. }
  exists w2. split; [exact Hs|]. split; [exact (versions_never_go_back _ _ example_world_ok Hs)|].
  unfold w2. simpl. rewrite lookup_insert_eq. simpl. by rewrite Hv.
Defined.
