(* ===== verification/Runtime.v ===== *)
(** * The runtime bundle (internal/runtimecfg/runtimecfg.go)

    A front end publishes its directory snapshot, client keys and upstream clusters together; a
    request acquires one bundle and uses only it.  Bundles are reference counted: a replaced one is
    retired and lets go of its cluster set when its last holder releases it, and a bounded number of
    retired bundles backs installs up.

    Acquire, Release, Publish and the release of a retired bundle run in different threads and take
    the publisher's lock only for part of their work, so they are modelled as threads that run one
    action at a time: an atomic operation, or a section under the lock.  [pstep] interleaves them in
    every order.  The requests that hold a bundle and the sets that were released are ghost state. *)

From S2P Require Import Prelude Config Placement Directory Validate.

(** ** Data *)

(** A bundle: its snapshot, and whether it has a cluster set. *)
Record Bundle : Type := mkBundle { bnSnapshot : File; bnClusters : bool }.

Definition Bundle_Identity (b : Bundle) : Identity := fIdentity (bnSnapshot b).
Definition Bundle_Version (b : Bundle) : Z := fVersion (bnSnapshot b).

Definition MaxRetired : nat := 8.

(** What a thread still has to do outside the lock, or next under it. *)
Inductive act : Type :=
| ARelease (b : nat)      (* b.Release() *)
| ASetRelease (b : nat)   (* b.Clusters.Release() *)
| ADrained (b : nat)      (* the locked section of drained(b) *)
| APublished (b : nat).   (* the Published callback *)

#[export] Instance act_eq_dec : EqDecision act.
Proof. solve_decision. Defined.

(** The publisher and the threads around it.  Bundles are named by their addresses. *)
Record Pub : Type := mkPub {
  pbBundles : gmap nat Bundle;
  pbRefs : nat -> Z;
  pbCur : nat;
  pbPending : option nat;
  pbRetired : nat;
  pbHeld : gset nat;
  pbThreads : list (list act);
  pbLoads : list nat;
  pbReqs : list nat;
  pbDropped : gset nat;
  pbReleased : list nat;
  pbLog : list nat;
}.

Definition zeroBundle : Bundle := mkBundle (mkFile 0 0 zeroIdentity None None None None) false.
Definition bundle (s : Pub) (b : nat) : Bundle := default zeroBundle (pbBundles s !! b).

Definition set_refs (b : nat) (n : Z) (f : nat -> Z) : nat -> Z := fun b' => if decide (b' = b) then n else f b'.

(** NewPublisher. *)
Definition NewPublisher (b : nat) (bd : Bundle) : Pub :=
  mkPub {[b := bd]} (set_refs b 1 (fun _ => 0%Z)) b None 0 ∅ [] [] [] ∅ [] [].

(** ** Operations *)

(** swapLocked: the bundle that was replaced, or [None] when b is parked. *)
Definition swapLocked (b : nat) (s : Pub) : option nat * Pub :=
  if (MaxRetired <=? pbRetired s)%nat
  then (None, mkPub (pbBundles s) (pbRefs s) (pbCur s) (Some b) (pbRetired s) (pbHeld s) (pbThreads s) (pbLoads s) (pbReqs s)
                (pbDropped s) (pbReleased s) (pbLog s))
  else (Some (pbCur s),
        mkPub (pbBundles s) (pbRefs s) b (pbPending s) (S (pbRetired s)) ({[pbCur s]} ∪ pbHeld s) (pbThreads s) (pbLoads s)
          (pbReqs s) (pbDropped s) (pbReleased s) (pbLog s)).

(** What the caller of swapLocked does after it unlocks. *)
Definition after_swap (old : option nat) (b : nat) : list act :=
  match old with Some o => [ARelease o; APublished b] | None => [] end.

Inductive pubErr : Type := ErrLineage | ErrOlder | ErrSetGone.

(** Publish(b); [retain] is what b.Clusters.Retain() returns.  The thread that called it goes on with
    what is left outside the lock. *)
Definition Publish (b : nat) (bd : Bundle) (retain : bool) (s : Pub) : result pubErr Pub :=
  let latest := bundle s (default (pbCur s) (pbPending s)) in
  if negb (Identity_IsZero (Bundle_Identity latest)) && negb (bool_decide (Bundle_Identity latest = Bundle_Identity bd)) then Err ErrLineage
  else if (Bundle_Version bd <? Bundle_Version latest)%Z then Err ErrOlder
  else if bnClusters bd && negb retain then Err ErrSetGone
  else
    let dropped := pbPending s in
    let s1 := mkPub (<[b := bd]> (pbBundles s)) (set_refs b 1 (pbRefs s)) (pbCur s) None (pbRetired s) (pbHeld s) (pbThreads s)
                (pbLoads s) (pbReqs s) (match dropped with Some d => {[d]} ∪ pbDropped s | None => pbDropped s end)
                (pbReleased s) (pbLog s) in
    let '(old, s2) := swapLocked b s1 in
    Ok (mkPub (pbBundles s2) (pbRefs s2) (pbCur s2) (pbPending s2) (pbRetired s2) (pbHeld s2)
          ((match dropped with Some d => [ASetRelease d] | None => [] end ++ after_swap old b) :: pbThreads s2)
          (pbLoads s2) (pbReqs s2) (pbDropped s2) (pbReleased s2) (pbLog s2)).

(** One action of a thread; the actions it puts before the rest of the thread, and the new state. *)
Definition run_act (a : act) (s : Pub) : list act * Pub :=
  match a with
  | ARelease b =>
      let n := (pbRefs s b - 1)%Z in
      (if (n =? 0)%Z then (if bnClusters (bundle s b) then [ASetRelease b] else []) ++ [ADrained b] else [],
       mkPub (pbBundles s) (set_refs b n (pbRefs s)) (pbCur s) (pbPending s) (pbRetired s) (pbHeld s) (pbThreads s) (pbLoads s)
         (pbReqs s) (pbDropped s) (pbReleased s) (pbLog s))
  | ASetRelease b =>
      ([], mkPub (pbBundles s) (pbRefs s) (pbCur s) (pbPending s) (pbRetired s) (pbHeld s) (pbThreads s) (pbLoads s)
             (pbReqs s) (pbDropped s) (b :: pbReleased s) (pbLog s))
  | ADrained b =>
      let s1 := mkPub (pbBundles s) (pbRefs s) (pbCur s) (pbPending s) (pbRetired s - 1) (pbHeld s ∖ {[b]}) (pbThreads s)
                  (pbLoads s) (pbReqs s) (pbDropped s) (pbReleased s) (pbLog s) in
      match pbPending s with
      | None => ([], s1)
      | Some next =>
          let s2 := mkPub (pbBundles s1) (pbRefs s1) (pbCur s1) None (pbRetired s1) (pbHeld s1) (pbThreads s1) (pbLoads s1)
                      (pbReqs s1) (pbDropped s1) (pbReleased s1) (pbLog s1) in
          let '(old, s3) := swapLocked next s2 in (after_swap old next, s3)
      end
  | APublished b =>
      ([], mkPub (pbBundles s) (pbRefs s) (pbCur s) (pbPending s) (pbRetired s) (pbHeld s) (pbThreads s) (pbLoads s)
             (pbReqs s) (pbDropped s) (pbReleased s) (pbLog s ++ [b]))
  end.

Definition set_threads (ts : list (list act)) (s : Pub) : Pub :=
  mkPub (pbBundles s) (pbRefs s) (pbCur s) (pbPending s) (pbRetired s) (pbHeld s) ts (pbLoads s) (pbReqs s) (pbDropped s) (pbReleased s) (pbLog s).
Definition set_loads (ls : list nat) (s : Pub) : Pub :=
  mkPub (pbBundles s) (pbRefs s) (pbCur s) (pbPending s) (pbRetired s) (pbHeld s) (pbThreads s) ls (pbReqs s) (pbDropped s) (pbReleased s) (pbLog s).
Definition set_reqs (rs : list nat) (s : Pub) : Pub :=
  mkPub (pbBundles s) (pbRefs s) (pbCur s) (pbPending s) (pbRetired s) (pbHeld s) (pbThreads s) (pbLoads s) rs (pbDropped s) (pbReleased s) (pbLog s).
Definition add_ref (b : nat) (s : Pub) : Pub :=
  mkPub (pbBundles s) (set_refs b (pbRefs s b + 1) (pbRefs s)) (pbCur s) (pbPending s) (pbRetired s) (pbHeld s) (pbThreads s) (pbLoads s)
    (pbReqs s) (pbDropped s) (pbReleased s) (pbLog s).

(** One step of one thread.  Acquire is a load of the current bundle, then a compare-and-swap of its
    count that fails, and retries the load, when the count has reached zero. *)
Inductive pstep : Pub -> Pub -> Prop :=
| ps_publish s b bd retain s' : pbBundles s !! b = None -> Publish b bd retain s = Ok s' -> pstep s s'
| ps_load s : pstep s (set_loads (pbCur s :: pbLoads s) s)
| ps_acquire s b ls : pbLoads s ≡ₚ b :: ls -> (0 < pbRefs s b)%Z -> pstep s (set_reqs (b :: pbReqs s) (add_ref b (set_loads ls s)))
| ps_retry s b ls : pbLoads s ≡ₚ b :: ls -> (pbRefs s b <= 0)%Z -> pstep s (set_loads (pbCur s :: ls) s)
| ps_end s b rs : pbReqs s ≡ₚ b :: rs -> pstep s (set_reqs rs (set_threads ([ARelease b] :: pbThreads s) s))
| ps_act s a k ts : pbThreads s ≡ₚ (a :: k) :: ts -> pstep s (let '(more, s') := run_act a s in set_threads ((more ++ k) :: ts) s').

(** ** Counting holders *)

Definition occ (b : nat) (l : list nat) : nat := count_occ Nat.eq_dec l b.
Definition nact (a : act) (ts : list (list act)) : nat := count_occ act_eq_dec (concat ts) a.
Definition ind (P : Prop) `{Decision P} : nat := if decide P then 1 else 0.
#[local] Arguments occ : simpl never.
#[local] Arguments nact : simpl never.
#[local] Arguments Nat.leb : simpl never.

(** Who holds a bundle: the publisher, as current or pending; an abandoned pending bundle, which
    nobody releases; a thread about to release; a request. *)
Definition holders (s : Pub) (b : nat) : nat :=
  ind (pbCur s = b) + ind (pbPending s = Some b) + ind (b ∈ pbDropped s) + nact (ARelease b) (pbThreads s) + occ b (pbReqs s).

(** The bundle's set was released, or is about to be. *)
Definition ending (s : Pub) (b : nat) : nat :=
  nact (ASetRelease b) (pbThreads s) + nact (ADrained b) (pbThreads s) + occ b (pbReleased s).

Record pub_ok (s : Pub) : Prop := {
  po_refs : forall b, pbRefs s b = Z.of_nat (holders s b);
  po_fresh : forall b, pbBundles s !! b = None -> holders s b = 0 /\ ending s b = 0 /\ b ∉ pbHeld s /\ b ∉ pbLoads s;
  po_loads : forall b, b ∈ pbLoads s -> b ∉ pbDropped s /\ pbPending s <> Some b;
  po_cur : pbCur s ∉ pbDropped s /\ pbPending s <> Some (pbCur s) /\ pbCur s ∉ pbHeld s;
  po_pending : forall b, pbPending s = Some b -> b ∉ pbDropped s /\ b ∉ pbHeld s /\
                 (Bundle_Version (bundle s (pbCur s)) <= Bundle_Version (bundle s b))%Z;
  po_dropped : forall b, b ∈ pbDropped s -> b ∉ pbHeld s;
  po_ending : forall b, ending s b > 0 -> pbCur s <> b /\ pbPending s <> Some b /\ nact (ARelease b) (pbThreads s) = 0 /\ occ b (pbReqs s) = 0;
  po_live : forall b, nact (ARelease b) (pbThreads s) + occ b (pbReqs s) > 0 -> pbCur s = b \/ b ∈ pbHeld s;
  po_drains : forall b, nact (ADrained b) (pbThreads s) = ind (b ∈ pbHeld s /\ holders s b = 0);
  po_retired : pbRetired s = size (pbHeld s) /\ pbRetired s <= MaxRetired;
}.

Lemma occ_cons b c l : occ b (c :: l) = ind (c = b) + occ b l.
Proof. unfold occ, ind. simpl. destruct (Nat.eq_dec c b), (decide (c = b)); done. Qed.
Lemma occ_perm b l l' : l ≡ₚ l' -> occ b l = occ b l'.
Proof. intros Hp. unfold occ. by apply (Permutation_count_occ Nat.eq_dec). Qed.
Lemma occ_elem b l : b ∈ l <-> occ b l > 0.
Proof. unfold occ. rewrite list_elem_of_In. apply count_occ_In. Qed.

Lemma nact_perm a ts ts' : ts ≡ₚ ts' -> nact a ts = nact a ts'.
Proof.
  intros Hp. unfold nact. apply (Permutation_count_occ act_eq_dec).
  induction Hp; simpl; [done|by f_equiv|by rewrite !app_assoc, (Permutation_app_comm y x)|by etrans].
Qed.
Lemma nact_thread a k ts : nact a (k :: ts) = count_occ act_eq_dec k a + nact a ts.
Proof. unfold nact. simpl. by rewrite count_occ_app. Qed.
Lemma nact_act a x k ts : nact a ((x :: k) :: ts) = ind (x = a) + nact a (k :: ts).
Proof. rewrite !nact_thread. simpl. unfold ind. destruct (act_eq_dec x a), (decide (x = a)); done. Qed.
Lemma nact_app a k k' ts : nact a ((k ++ k') :: ts) = count_occ act_eq_dec k a + nact a (k' :: ts).
Proof. rewrite !nact_thread, count_occ_app. lia. Qed.

Lemma ind_true P `{Decision P} : P -> ind P = 1.
Proof. intros. unfold ind. by rewrite decide_True. Qed.
Lemma ind_false P `{Decision P} : ~ P -> ind P = 0.
Proof. intros. unfold ind. by rewrite decide_False. Qed.
Lemma ind_pos P `{Decision P} : ind P > 0 <-> P.
Proof. unfold ind. case_decide; split; intros; (done || lia). Qed.
Lemma ind_iff P Q `{Decision P, Decision Q} : (P <-> Q) -> ind P = ind Q.
Proof. intros HPQ. unfold ind. repeat case_decide; tauto. Qed.

Lemma set_refs_eq b n f : set_refs b n f b = n.
Proof. unfold set_refs. by rewrite decide_True. Qed.
Lemma set_refs_ne b n f b' : b' <> b -> set_refs b n f b' = f b'.
Proof. intros. unfold set_refs. by rewrite decide_False. Qed.

(** The current bundle is allocated and held. *)
Lemma po_cur_holders s : holders s (pbCur s) > 0.
Proof. unfold holders. rewrite (ind_true (pbCur s = pbCur s)) by done. lia. Qed.

Lemma load_ok s ls : pub_ok s -> (forall b, b ∈ ls -> b = pbCur s \/ b ∈ pbLoads s) -> pub_ok (set_loads ls s).
Proof.
  intros [Hr Hf Hl Hc Hp Hd He Hv Hdr Ht] Hls. split; try done.
  - intros b Hb. destruct (Hf b Hb) as (H1 & H2 & H3 & H4). split_and!; try done. simpl. intros [->|?]%Hls; [|done].
    pose proof (po_cur_holders s). lia.
  - intros b [->|?]%Hls; [|auto]. tauto.
Qed.

Lemma acquire_ok s b ls : pub_ok s -> pbLoads s ≡ₚ b :: ls -> (0 < pbRefs s b)%Z ->
  pub_ok (set_reqs (b :: pbReqs s) (add_ref b (set_loads ls s))).
Proof.
  intros [Hr Hf Hl Hc Hp Hd He Hv Hdr Ht] Hperm Hpos.
  assert (forall x, x ∈ ls -> x ∈ pbLoads s) as Hsub by (intros x Hx; rewrite Hperm; by right).
  destruct (Hl b) as [Hnd Hnp]; [rewrite Hperm; by left|]. rewrite Hr in Hpos.
  set (s' := set_reqs _ _). assert (forall x, holders s' x = holders s x + ind (b = x)) as Hh.
  { intros x. unfold holders, s'. simpl. rewrite occ_cons. lia. }
  assert (ending s b = 0) as Hend.
  { destruct (Nat.eq_dec (ending s b) 0) as [|Hgt]; [done|]. assert (ending s b > 0) as Hgt' by lia. clear Hgt. rename Hgt' into Hgt. destruct (He b Hgt) as (H1 & H2 & H3 & H4). exfalso.
    unfold holders in Hpos. rewrite (ind_false _ H1), (ind_false _ H2), (ind_false _ Hnd), H3, H4 in Hpos. lia. }
  assert (pbCur s = b \/ b ∈ pbHeld s) as Hlive.
  { destruct (decide (pbCur s = b)) as [|Hne]; [by left|]. apply Hv. unfold holders in Hpos.
    rewrite (ind_false _ Hne), (ind_false _ Hnp), (ind_false _ Hnd) in Hpos. lia. }
  split; try done.
  - intros x. simpl. rewrite Hh. destruct (decide (x = b)) as [->|Hne].
    + rewrite set_refs_eq, Hr, (ind_true (b = b)) by done. lia.
    + rewrite set_refs_ne, Hr, (ind_false (b = x)) by congruence. lia.
  - intros x Hx. destruct (Hf x Hx) as (H1 & H2 & H3 & H4). rewrite Hh, (ind_false (b = x)) by (intros ->; lia). split_and!; auto with lia.
  - intros x Hx. apply Hl, Hsub, Hx.
  - intros x Hx. destruct (decide (b = x)) as [<-|Hne]; [unfold ending, s' in Hx; simpl in Hx; unfold ending in Hend; lia|].
    destruct (He x Hx) as (H1 & H2 & H3 & H4). split_and!; try done. simpl. rewrite occ_cons, (ind_false (b = x)) by done. done.
  - intros x. simpl. rewrite occ_cons. destruct (decide (b = x)) as [<-|Hne]; [auto|]. rewrite (ind_false (b = x)) by done. apply Hv.
  - intros x. simpl. rewrite Hdr. destruct (decide (b = x)) as [<-|Hne].
    + rewrite !ind_false; [done|rewrite Hh, (ind_true (b = b)) by done; lia|lia].
    + apply ind_iff. rewrite Hh, (ind_false (b = x)) by done. by rewrite Nat.add_0_r.
Qed.

(** A request ends: its hold becomes a thread's release. *)
Lemma end_ok s b rs : pub_ok s -> pbReqs s ≡ₚ b :: rs -> pub_ok (set_reqs rs (set_threads ([ARelease b] :: pbThreads s) s)).
Proof.
  intros [Hr Hf Hl Hc Hp Hd He Hv Hdr Ht] Hperm. set (s' := set_reqs _ _).
  assert (forall x, nact (ARelease x) (pbThreads s') + occ x (pbReqs s') = nact (ARelease x) (pbThreads s) + occ x (pbReqs s)) as Hsum.
  { intros x. unfold s'. simpl. rewrite (occ_perm x _ _ Hperm), occ_cons, nact_act, nact_thread. simpl.
    rewrite (ind_iff (ARelease b = ARelease x) (b = x)) by naive_solver. lia. }
  assert (forall x, holders s' x = holders s x) as Hh by (intros x; specialize (Hsum x); unfold holders; unfold s' in *; simpl in *; lia).
  assert (forall a x, a = ASetRelease x \/ a = ADrained x -> nact a (pbThreads s') = nact a (pbThreads s)) as Hn.
  { intros a x Ha. unfold s'. simpl. rewrite nact_act, nact_thread. simpl. rewrite ind_false; [done|]. destruct Ha as [-> | ->]; done. }
  assert (forall x, ending s' x = ending s x) as Hen by (intros x; unfold ending; by rewrite !(Hn _ x) by auto).
  split; try done.
  - intros x. rewrite Hh. apply Hr.
  - intros x Hx. rewrite Hh, Hen. by apply Hf.
  - intros x. rewrite Hen. intros Hx. destruct (He x Hx) as (H1 & H2 & H3 & H4). specialize (Hsum x). split_and!; try done; lia.
  - intros x. rewrite Hsum. apply Hv.
  - intros x. rewrite (Hn _ x) by auto. rewrite Hdr. apply ind_iff. by rewrite Hh.
Qed.

(** *** The publisher's moves

    [park] and [promote] are the two halves of a publish: a new bundle waits, then becomes current.
    The threads are given by their counts, so that the order of a thread's actions does not matter. *)

Definition adds (k : list act) (ts ts' : list (list act)) : Prop := forall a, nact a ts' = count_occ act_eq_dec k a + nact a ts.

Definition promote (n : nat) (ts : list (list act)) (s : Pub) : Pub :=
  mkPub (pbBundles s) (pbRefs s) n None (S (pbRetired s)) ({[pbCur s]} ∪ pbHeld s) ts (pbLoads s) (pbReqs s) (pbDropped s) (pbReleased s) (pbLog s).

Lemma promote_counts o n x :
  count_occ act_eq_dec [ARelease o; APublished n] (ARelease x) = ind (o = x) /\
  count_occ act_eq_dec [ARelease o; APublished n] (ASetRelease x) = 0 /\
  count_occ act_eq_dec [ARelease o; APublished n] (ADrained x) = 0.
Proof.
  unfold ind. simpl. destruct (act_eq_dec (ARelease o) (ARelease x)) as [E|E], (decide (o = x)); repeat case_match; simplify_eq; done.
Qed.

Lemma promote_ok n ts s : pub_ok s -> pbPending s = Some n -> (pbRetired s < MaxRetired)%nat ->
  adds [ARelease (pbCur s); APublished n] (pbThreads s) ts -> pub_ok (promote n ts s).
Proof.
  intros [Hr Hf Hl Hc Hp Hd He Hv Hdr Ht] Hpend Hlt Hadd. destruct Hc as (Hc1 & Hc2 & Hc3). destruct (Hp n Hpend) as (Hn1 & Hn2 & Hn3).
  assert (pbCur s <> n) as Hne by congruence. set (s' := promote n ts s).
  assert (forall x, nact (ARelease x) ts = ind (pbCur s = x) + nact (ARelease x) (pbThreads s)) as Hrel
    by (intros x; rewrite Hadd; by rewrite (proj1 (promote_counts _ n x))).
  assert (forall x, nact (ASetRelease x) ts = nact (ASetRelease x) (pbThreads s)) as Hset
    by (intros x; rewrite Hadd; by rewrite (proj1 (proj2 (promote_counts (pbCur s) n x)))).
  assert (forall x, nact (ADrained x) ts = nact (ADrained x) (pbThreads s)) as Hdra
    by (intros x; rewrite Hadd; by rewrite (proj2 (proj2 (promote_counts (pbCur s) n x)))).
  assert (forall x, holders s' x = holders s x) as Hh.
  { intros x. unfold holders, s'. simpl. rewrite Hrel, Hpend, (ind_iff (Some n = Some x) (n = x)) by naive_solver.
    rewrite (ind_false (None = Some x)) by done. lia. }
  assert (forall x, ending s' x = ending s x) as Hen by (intros x; unfold ending, s'; simpl; by rewrite Hset, Hdra).
  split; try done; simpl.
  - intros x. rewrite Hh. apply Hr.
  - intros x Hx. rewrite Hh, Hen. destruct (Hf x Hx) as (H1 & H2 & H3 & H4). split_and!; try done.
    intros [->%elem_of_singleton|?]%elem_of_union; [|done]. pose proof (po_cur_holders s). lia.
  - intros x Hx. destruct (Hl x Hx). done.
  - split_and!; [done|done|]. intros [?%elem_of_singleton|?]%elem_of_union; congruence.
  - intros x Hx. apply not_elem_of_union. split; [|auto]. intros ->%elem_of_singleton. done.
  - intros x. rewrite Hen. intros Hx. destruct (He x Hx) as (H1 & H2 & H3 & H4). rewrite Hrel, (ind_false (pbCur s = x)) by done.
    split_and!; try done. congruence.
  - intros x. rewrite Hrel. intros Hx. right. apply elem_of_union. destruct (decide (pbCur s = x)) as [<-|Hne']; [left; by apply elem_of_singleton|].
    rewrite (ind_false (pbCur s = x)) in Hx by done. destruct (Hv x) as [?|?]; [lia|done|by right].
  - intros x. rewrite Hdra, Hdr. apply ind_iff. rewrite Hh. destruct (decide (pbCur s = x)) as [<-|Hne'].
    + pose proof (po_cur_holders s). split; [tauto|]. intros [_ ?]. lia.
    + rewrite elem_of_union, elem_of_singleton. split; [tauto|]. intros [[?|?] ?]; [congruence|done].
  - split; [|lia]. rewrite size_union by set_solver. rewrite size_singleton. lia.
Qed.

Definition park (b : nat) (bd : Bundle) (ts : list (list act)) (s : Pub) : Pub :=
  mkPub (<[b := bd]> (pbBundles s)) (set_refs b 1 (pbRefs s)) (pbCur s) (Some b) (pbRetired s) (pbHeld s) ts (pbLoads s) (pbReqs s)
    (match pbPending s with Some d => {[d]} ∪ pbDropped s | None => pbDropped s end) (pbReleased s) (pbLog s).

Lemma bundle_insert s b bd x m : x <> b -> pbBundles m = <[b := bd]> (pbBundles s) -> bundle m x = bundle s x.
Proof. intros Hne E. unfold bundle. by rewrite E, lookup_insert_ne. Qed.

(** A waiting bundle is only waiting. *)
Lemma pending_idle s d : pub_ok s -> pbPending s = Some d -> pbCur s <> d /\ nact (ARelease d) (pbThreads s) = 0 /\ occ d (pbReqs s) = 0 /\ ending s d = 0.
Proof.
  intros [Hr Hf Hl Hc Hp Hd He Hv Hdr Ht] Hpend. destruct (Hp d Hpend) as (Hn1 & Hn2 & _).
  assert (pbCur s <> d) as Hne by (destruct Hc as (_ & Hc & _); congruence).
  assert (nact (ARelease d) (pbThreads s) + occ d (pbReqs s) = 0) as Hz.
  { destruct (Nat.eq_dec (nact (ARelease d) (pbThreads s) + occ d (pbReqs s)) 0) as [|Hgt]; [done|]. exfalso.
    destruct (Hv d) as [?|?]; [lia|done|done]. }
  split_and!; [done|lia|lia|]. destruct (Nat.eq_dec (ending s d) 0) as [|Hgt]; [done|]. destruct (He d); [lia|]. tauto.
Qed.

(** What a publish leaves to do for the bundle it abandons. *)
Definition abandon (s : Pub) : list act := match pbPending s with Some d => [ASetRelease d] | None => [] end.

Lemma abandon_counts s x :
  count_occ act_eq_dec (abandon s) (ARelease x) = 0 /\ count_occ act_eq_dec (abandon s) (ADrained x) = 0 /\
  count_occ act_eq_dec (abandon s) (ASetRelease x) = ind (pbPending s = Some x).
Proof.
  unfold abandon, ind. destruct (pbPending s) as [d|]; simpl; [|done].
  destruct (act_eq_dec (ASetRelease d) (ASetRelease x)) as [E|E], (decide (Some d = Some x)); repeat case_match; simplify_eq; done.
Qed.

Lemma park_ok b bd ts s : pub_ok s -> pbBundles s !! b = None ->
  (Bundle_Version (bundle s (default (pbCur s) (pbPending s))) <= Bundle_Version bd)%Z ->
  adds (abandon s) (pbThreads s) ts -> pub_ok (park b bd ts s).
Proof.
  intros Hok Hb Hver Hadd. pose proof (fun d => pending_idle s d Hok) as Hidle. destruct Hok as [Hr Hf Hl Hc Hp Hd He Hv Hdr Ht].
  destruct Hc as (Hc1 & Hc2 & Hc3). destruct (Hf b Hb) as (Hb1 & Hb2 & Hb3 & Hb4). set (s' := park b bd ts s).
  assert (pbCur s <> b) as Hcb by (intros <-; pose proof (po_cur_holders s); lia).
  assert (pbPending s <> Some b /\ b ∉ pbDropped s) as [Hpb Hdb].
  { unfold holders in Hb1. split; intros H; rewrite ?(ind_true (pbPending s = Some b) H), ?(ind_true (b ∈ pbDropped s) H) in Hb1; lia. }
  assert (forall x, x ∈ pbDropped s' <-> pbPending s = Some x \/ x ∈ pbDropped s) as Hdrop.
  { intros x. unfold s'. simpl. destruct (pbPending s) as [d|]; [rewrite elem_of_union, elem_of_singleton; naive_solver|naive_solver]. }
  assert (forall x, nact (ARelease x) ts = nact (ARelease x) (pbThreads s)) as Hrel
    by (intros x; rewrite Hadd; by rewrite (proj1 (abandon_counts s x))).
  assert (forall x, nact (ADrained x) ts = nact (ADrained x) (pbThreads s)) as Hdra
    by (intros x; rewrite Hadd; by rewrite (proj1 (proj2 (abandon_counts s x)))).
  assert (forall x, holders s' x = holders s x + ind (b = x)) as Hh.
  { intros x. unfold holders. rewrite (ind_iff (x ∈ pbDropped s') (pbPending s = Some x \/ x ∈ pbDropped s)) by apply Hdrop.
    unfold s'. simpl. rewrite Hrel, (ind_iff (Some b = Some x) (b = x)) by naive_solver.
    assert (ind (pbPending s = Some x \/ x ∈ pbDropped s) = ind (pbPending s = Some x) + ind (x ∈ pbDropped s)) as ->; [|lia].
    unfold ind. repeat case_decide; try tauto. rename select (pbPending s = Some x) into E. destruct (Hp x E). done. }
  assert (forall x, ending s' x = ending s x + ind (pbPending s = Some x)) as Hen.
  { intros x. unfold ending, s'. simpl. rewrite Hdra, Hadd, (proj2 (proj2 (abandon_counts s x))). lia. }
  split; try done; simpl.
  - intros x. rewrite Hh. destruct (decide (x = b)) as [->|Hne].
    + rewrite set_refs_eq, Hb1, (ind_true (b = b)) by done. done.
    + rewrite set_refs_ne, Hr, (ind_false (b = x)) by congruence. lia.
  - intros x [Hx Hne]%lookup_insert_None. rewrite Hh, Hen, (ind_false (b = x)) by done. destruct (Hf x Hx) as (H1 & H2 & H3 & H4).
    rewrite (ind_false (pbPending s = Some x)); [split_and!; auto with lia|]. intros E. unfold holders in H1. rewrite (ind_true _ E) in H1. lia.
  - intros x Hx. destruct (Hl x Hx) as [H1 H2]. split; [intros [?|?]%Hdrop; tauto|]. intros [= ->]. done.
  - split_and!; [intros [?|?]%Hdrop; tauto|congruence|done].
  - intros x [= <-]. split_and!; [intros [?|?]%Hdrop; tauto|done|]. rewrite (bundle_insert s b bd (pbCur s)) by done. unfold bundle at 2. simpl. rewrite lookup_insert_eq. simpl.
    destruct (pbPending s) as [d|] eqn:Ed; simpl in Hver; [destruct (Hp d eq_refl) as (_ & _ & ?); lia|lia].
  - intros x [E|?]%Hdrop; [by destruct (Hp x E) as (_ & ? & _)|auto].
  - intros x. rewrite Hen, Hrel. intros Hx. destruct (decide (pbPending s = Some x)) as [E|E].
    + destruct (Hidle x E) as (? & ? & ? & _). split_and!; try done. congruence.
    + rewrite (ind_false _ E) in Hx. destruct (He x) as (? & ? & ? & ?); [lia|]. split_and!; try done. intros [= ->]. lia.
  - intros x. rewrite Hrel. apply Hv.
  - intros x. rewrite Hdra, Hdr. apply ind_iff. rewrite Hh. destruct (decide (b = x)) as [<-|Hne]; [|rewrite (ind_false (b = x)) by done; by rewrite Nat.add_0_r].
    rewrite (ind_true (b = b)) by done. split; [by intros [? _]|]. intros [? ?]. lia.
Qed.

(** *** The threads' actions *)

(** What the last release of a bundle leaves its thread to do. *)
Lemma drain_acts (set : bool) b x :
  let more := (if set then [ASetRelease b] else []) ++ [ADrained b] in
  count_occ act_eq_dec more (ARelease x) = 0 /\ count_occ act_eq_dec more (ADrained x) = ind (b = x) /\
  (count_occ act_eq_dec more (ASetRelease x) > 0 -> b = x).
Proof.
  unfold ind. destruct set, (decide (b = x)) as [->|Hne]; simpl; split_and!; repeat case_match; try congruence; intros; lia.
Qed.

Lemma act_release_ok s b k ts : pub_ok s -> pbThreads s ≡ₚ (ARelease b :: k) :: ts ->
  pub_ok (let '(more, s') := run_act (ARelease b) s in set_threads ((more ++ k) :: ts) s').
Proof.
  intros [Hr Hf Hl Hc Hp Hd He Hv Hdr Ht] Hperm. simpl.
  set (more := if (pbRefs s b - 1 =? 0)%Z then _ else _). set (s' := set_threads _ _).
  assert (forall a, nact a (pbThreads s) = ind (ARelease b = a) + nact a (k :: ts)) as Hbefore
    by (intros a; rewrite (nact_perm _ _ _ Hperm); apply nact_act).
  assert (forall a, nact a (pbThreads s') = count_occ act_eq_dec more a + nact a (k :: ts)) as Hafter by (intros a; apply nact_app).
  assert (nact (ARelease b) (pbThreads s) > 0) as Hpos by (rewrite Hbefore, ind_true by done; lia).
  assert (holders s b > 0) as Hhb by (unfold holders; lia).
  assert (ending s b = 0) as Hend.
  { destruct (Nat.eq_dec (ending s b) 0); [done|]. destruct (He b) as (_ & _ & ? & _); lia. }
  assert ((pbRefs s b - 1 =? 0)%Z = bool_decide (holders s b = 1)) as Hz by (rewrite Hr; case_bool_decide; lia).
  assert (forall x, count_occ act_eq_dec more (ARelease x) = 0 /\ count_occ act_eq_dec more (ADrained x) = ind (b = x /\ holders s b = 1) /\
            (count_occ act_eq_dec more (ASetRelease x) > 0 -> b = x /\ holders s b = 1)) as Hmore.
  { intros x. unfold more. rewrite Hz. case_bool_decide as Hone.
    - destruct (drain_acts (bnClusters (bundle s b)) b x) as (H1 & H2 & H3). rewrite H1, H2. split_and!; [done|apply ind_iff; tauto|tauto].
    - rewrite ind_false by tauto. simpl. split_and!; [done|done|lia]. }
  assert (forall x, nact (ARelease x) (pbThreads s') + ind (b = x) = nact (ARelease x) (pbThreads s)) as Hrel.
  { intros x. rewrite Hafter, Hbefore, (proj1 (Hmore x)). rewrite (ind_iff (ARelease b = ARelease x) (b = x)) by naive_solver. lia. }
  assert (forall x, nact (ADrained x) (pbThreads s') = nact (ADrained x) (pbThreads s) + ind (b = x /\ holders s b = 1)) as Hdra.
  { intros x. rewrite Hafter, Hbefore, (proj1 (proj2 (Hmore x))), (ind_false (ARelease b = ADrained x)) by done. lia. }
  assert (forall x, holders s' x + ind (b = x) = holders s x) as Hh by (intros x; specialize (Hrel x); unfold holders in *; unfold s' in *; simpl in *; lia).
  assert (forall x, ending s' x > 0 -> ending s x > 0 \/ (b = x /\ holders s b = 1)) as Hen.
  { intros x Hx. destruct (Nat.eq_dec (ending s x) 0) as [Hz0|]; [|left; lia]. right. unfold ending in Hx, Hz0. rewrite Hdra in Hx.
    destruct (decide (b = x /\ holders s b = 1)) as [|Hn]; [done|]. rewrite (ind_false _ Hn) in Hx.
    apply (Hmore x). rewrite Hafter in Hx. rewrite (Hbefore (ASetRelease x)) in Hz0. unfold s' in Hx. simpl in Hx.
    rewrite (ind_false (ARelease b = ASetRelease x)) in Hz0 by done. lia. }
  assert (forall x, b <> x -> holders s' x = holders s x) as Hh'.
  { intros x Hne. rewrite <- (Hh x), (ind_false (b = x)) by done. lia. }
  assert (holders s' b = holders s b - 1) as Hhb' by (specialize (Hh b); rewrite (ind_true (b = b)) in Hh by done; lia).
  split; try done.
  - intros x. simpl. destruct (decide (x = b)) as [->|Hne]; [rewrite set_refs_eq, Hr, Hhb'; lia|rewrite set_refs_ne, Hr, Hh' by done; done].
  - intros x Hx. destruct (Hf x Hx) as (H1 & H2 & H3 & H4). assert (b <> x) as Hne by (intros ->; lia). rewrite Hh' by done.
    split_and!; try done. destruct (Nat.eq_dec (ending s' x) 0) as [|Hgt]; [done|]. destruct (Hen x); [lia|lia|tauto].
  - intros x [Hx|[<- Hone]]%Hen.
    + destruct (He x Hx) as (H1 & H2 & H3 & H4). specialize (Hrel x). split_and!; try done. lia.
    + assert (holders s' b = 0) as H0 by lia. unfold holders in H0. split_and!; try lia.
      * intros E. rewrite (ind_true (pbCur s' = b) E) in H0. lia.
      * intros E. rewrite (ind_true (pbPending s' = Some b) E) in H0. lia.
  - intros x Hx. apply Hv. specialize (Hrel x). change (pbReqs s') with (pbReqs s) in Hx. lia.
  - intros x. rewrite Hdra, Hdr. simpl. destruct (decide (b = x)) as [<-|Hne].
    + rewrite (ind_false (b ∈ pbHeld s /\ holders s b = 0)) by lia. simpl. apply ind_iff. rewrite Hhb'. split; [|intros [? ?]; split; [done|lia]].
      intros [_ Hone]. split; [|lia]. destruct (Hv b) as [E|]; [lia| |done]. exfalso. unfold holders in Hone. rewrite (ind_true _ E) in Hone. lia.
    + rewrite (ind_false (b = x /\ _)) by tauto. rewrite Nat.add_0_r. apply ind_iff. by rewrite Hh'.
Qed.

(** An action that only moves a set's release from a thread to the list of released sets, or logs. *)
Lemma act_quiet_ok a s k ts s' : pub_ok s -> pbThreads s ≡ₚ (a :: k) :: ts ->
  (exists b, a = APublished b /\ s' = set_threads (k :: ts) (snd (run_act a s))) \/
  (exists b, a = ASetRelease b /\ s' = set_threads (k :: ts) (snd (run_act a s))) -> pub_ok s'.
Proof.
  intros [Hr Hf Hl Hc Hp Hd He Hv Hdr Ht] Hperm Ha.
  assert (forall x, nact x (pbThreads s) = ind (a = x) + nact x (k :: ts)) as Hn by (intros x; rewrite (nact_perm _ _ _ Hperm); apply nact_act).
  assert (forall x, nact (ARelease x) (pbThreads s') = nact (ARelease x) (pbThreads s)) as Hrel.
  { intros x. destruct Ha as [(b & -> & ->)|(b & -> & ->)]; rewrite Hn, ind_false by done; done. }
  assert (forall x, nact (ADrained x) (pbThreads s') = nact (ADrained x) (pbThreads s)) as Hdra.
  { intros x. destruct Ha as [(b & -> & ->)|(b & -> & ->)]; rewrite Hn, ind_false by done; done. }
  assert (forall x, ending s' x = ending s x) as Hen.
  { intros x. unfold ending. rewrite Hdra. destruct Ha as [(b & -> & ->)|(b & -> & ->)]; simpl; rewrite (Hn (ASetRelease x)).
    - by rewrite (ind_false (APublished b = ASetRelease x)).
    - rewrite occ_cons, (ind_iff (ASetRelease b = ASetRelease x) (b = x)) by naive_solver. lia. }
  assert (forall x, holders s' x = holders s x) as Hh.
  { intros x. unfold holders. rewrite Hrel. by destruct Ha as [(b & -> & ->)|(b & -> & ->)]. }
  split; try (destruct Ha as [(b & -> & ->)|(b & -> & ->)]; assumption).
  - intros x. rewrite Hh, <- Hr. by destruct Ha as [(b & -> & ->)|(b & -> & ->)].
  - intros x Hx. rewrite Hh, Hen. destruct Ha as [(b & -> & ->)|(b & -> & ->)]; by apply Hf.
  - intros x. rewrite Hen, Hrel. destruct Ha as [(b & -> & ->)|(b & -> & ->)]; apply He.
  - intros x. rewrite Hrel. destruct Ha as [(b & -> & ->)|(b & -> & ->)]; apply Hv.
  - intros x. rewrite Hdra, Hdr. apply ind_iff. rewrite Hh. by destruct Ha as [(b & -> & ->)|(b & -> & ->)].
Qed.

(** The locked section of a drain, before it looks at the waiting bundle. *)
Definition unhold (b : nat) (ts : list (list act)) (s : Pub) : Pub :=
  mkPub (pbBundles s) (pbRefs s) (pbCur s) (pbPending s) (pbRetired s - 1) (pbHeld s ∖ {[b]}) ts (pbLoads s) (pbReqs s)
    (pbDropped s) (pbReleased s) (pbLog s).

Lemma unhold_ok s b k ts : pub_ok s -> pbThreads s ≡ₚ (ADrained b :: k) :: ts ->
  pub_ok (unhold b (k :: ts) s) /\ (pbRetired (unhold b (k :: ts) s) < MaxRetired)%nat.
Proof.
  intros [Hr Hf Hl Hc Hp Hd He Hv Hdr Ht] Hperm. set (s' := unhold b (k :: ts) s).
  assert (forall a, nact a (pbThreads s) = ind (ADrained b = a) + nact a (k :: ts)) as Hn by (intros a; rewrite (nact_perm _ _ _ Hperm); apply nact_act).
  assert (b ∈ pbHeld s /\ holders s b = 0) as [Hheld Hhb].
  { apply (ind_pos (b ∈ pbHeld s /\ holders s b = 0)). rewrite <- Hdr, Hn, ind_true by done. lia. }
  assert (forall x, nact (ARelease x) (k :: ts) = nact (ARelease x) (pbThreads s)) as Hrel by (intros x; by rewrite Hn, ind_false by done).
  assert (forall x, holders s' x = holders s x) as Hh by (intros x; unfold holders, s'; simpl; by rewrite Hrel).
  assert (forall x, ending s' x <= ending s x) as Hen by (intros x; unfold ending, s'; simpl; rewrite !(Hn (_ x)); lia).
  assert (size (pbHeld s ∖ {[b]}) = size (pbHeld s) - 1 /\ size (pbHeld s) > 0) as [Hsz Hpos].
  { rewrite size_difference by set_solver. rewrite size_singleton. split; [done|].
    destruct (Nat.eq_dec (size (pbHeld s)) 0) as [E%size_empty_inv|]; [set_solver|lia]. }
  split; [|simpl; lia]. split; try done; simpl.
  - intros x. rewrite Hh. apply Hr.
  - intros x Hx. destruct (Hf x Hx) as (H1 & H2 & H3 & H4). specialize (Hen x). rewrite Hh. split_and!; [done|lia|set_solver|done].
  - split_and!; [apply Hc|apply Hc|]. destruct Hc as (_ & _ & ?). set_solver.
  - intros x Hx. destruct (Hp x Hx) as (? & ? & ?). split_and!; [done|set_solver|done].
  - intros x Hx. specialize (Hd x Hx). set_solver.
  - intros x Hx. rewrite Hrel. apply He. specialize (Hen x). lia.
  - intros x. rewrite Hrel. intros Hx. destruct (Hv x Hx) as [?|?]; [by left|right]. apply elem_of_difference. split; [done|].
    intros ->%elem_of_singleton. unfold holders in Hhb. lia.
  - intros x. pose proof (Hn (ADrained x)) as E. rewrite Hdr in E. destruct (decide (b = x)) as [<-|Hne].
    + rewrite (ind_true (ADrained b = ADrained b)) in E by done. rewrite ind_false by set_solver. rewrite ind_true in E by done. lia.
    + rewrite (ind_false (ADrained b = ADrained x)) in E by naive_solver. simpl in E. rewrite <- E. apply ind_iff. rewrite Hh. set_solver.
  - lia.
Qed.

Lemma publish_ok b bd retain s s' : pub_ok s -> pbBundles s !! b = None -> Publish b bd retain s = Ok s' -> pub_ok s'.
Proof.
  intros Hok Hb H. unfold Publish in H. do 3 (case_if_in H; [done|]). fold (abandon s) in H.
  rename Heqb1 into Hver. apply Z.ltb_ge in Hver.
  assert (pub_ok (park b bd (abandon s :: pbThreads s) s)) as Hpark.
  { apply park_ok; [done|done|done|]. intros a. apply nact_thread. }
  unfold swapLocked in H. simpl in H. destruct (MaxRetired <=? pbRetired s)%nat eqn:Em; apply Ok_inj in H as <-; simpl.
  - rewrite app_nil_r. exact Hpark.
  - apply Nat.leb_gt in Em. refine (promote_ok b ((abandon s ++ [ARelease (pbCur s); APublished b]) :: pbThreads s) _ Hpark eq_refl Em _).
    intros a. cbn [pbThreads pbCur park]. rewrite nact_app, !nact_thread. lia.
Qed.

Lemma drained_ok s b k ts : pub_ok s -> pbThreads s ≡ₚ (ADrained b :: k) :: ts ->
  pub_ok (let '(more, s') := run_act (ADrained b) s in set_threads ((more ++ k) :: ts) s').
Proof.
  intros Hok Hperm. destruct (unhold_ok s b k ts Hok Hperm) as [Hun Hlt]. simpl. destruct (pbPending s) as [n|] eqn:Ep.
  - unfold swapLocked. simpl in Hlt. destruct (MaxRetired <=? _)%nat eqn:Em; [apply Nat.leb_le in Em; simpl in Em; lia|]. simpl.
    refine (promote_ok n ((ARelease (pbCur s) :: APublished n :: k) :: ts) _ Hun _ Hlt _); [done|]. intros a. simpl.
    rewrite !nact_act, !nact_thread. simpl. unfold ind. repeat case_decide; repeat case_match; simplify_eq; lia.
  - simpl. unfold unhold in Hun. rewrite Ep in Hun. exact Hun.
Qed.

Lemma pstep_ok s s' : pstep s s' -> pub_ok s -> pub_ok s'.
Proof.
  intros Hs Hok. destruct Hs as [s b bd retain s' Hb Hp|s|s b ls Hl Hr|s b ls Hl Hr|s b rs Hrs|s a k ts Hts].
  - by eapply publish_ok.
  - apply load_ok; [done|]. by intros b [->|?]%elem_of_cons; [left|right].
  - by apply acquire_ok.
  - apply load_ok; [done|]. intros x [->|Hx]%elem_of_cons; [by left|right]. rewrite Hl. by right.
  - by apply end_ok.
  - destruct a as [b|b|b|b]; [by apply act_release_ok| |by apply drained_ok|].
    + eapply act_quiet_ok; [done|exact Hts|]. right. by exists b.
    + eapply act_quiet_ok; [done|exact Hts|]. left. by exists b.
Qed.

Lemma NewPublisher_ok b bd : pub_ok (NewPublisher b bd).
Proof.
  assert (forall x, holders (NewPublisher b bd) x = ind (b = x)) as Hh.
  { intros x. unfold holders, NewPublisher. simpl. unfold nact, occ. simpl. rewrite (ind_false (None = Some x)) by done.
    rewrite (ind_false (x ∈ ∅)) by set_solver. lia. }
  split; simpl; try done; try set_solver; try lia.
  - intros x. rewrite Hh. destruct (decide (x = b)) as [->|Hne]; [by rewrite set_refs_eq, ind_true|]. by rewrite set_refs_ne, ind_false by congruence.
  - intros x Hx%lookup_singleton_None. rewrite Hh, ind_false by done. split_and!; try done; set_solver.
  - intros x Hx. unfold ending, nact, occ in Hx. simpl in Hx. lia.
  - intros x Hx. unfold occ in Hx. simpl in Hx. lia.
  - split; [done|unfold MaxRetired; lia].
Qed.

Lemma psteps_ok s s' : rtc pstep s s' -> pub_ok s -> pub_ok s'.
Proof. induction 1; eauto using pstep_ok. Qed.

(** How often the set of a bundle was released or is about to be. *)
Definition set_releases (s : Pub) (b : nat) : nat := nact (ASetRelease b) (pbThreads s) + occ b (pbReleased s).

(** A step that lets go of a bundle's set does so once, and for a bundle whose set was not let go before. *)
Definition one_more (s s' : Pub) : Prop :=
  forall x, set_releases s' x <= set_releases s x \/ (ending s x = 0 /\ set_releases s' x <= 1).

Lemma one_more_same s s' : (forall x, set_releases s' x <= set_releases s x) -> one_more s s'.
Proof. intros H x. by left. Qed.

Lemma publish_one_more b bd retain s s' : pub_ok s -> Publish b bd retain s = Ok s' -> one_more s s'.
Proof.
  intros Hok H x. assert (set_releases s' x <= ind (pbPending s = Some x) + set_releases s x) as Hle.
  { unfold Publish in H. do 3 (case_if_in H; [done|]). fold (abandon s) in H. unfold swapLocked in H. simpl in H.
    destruct (MaxRetired <=? pbRetired s)%nat; apply Ok_inj in H as <-; unfold set_releases; simpl; rewrite nact_app, nact_thread;
      rewrite (proj2 (proj2 (abandon_counts s x))); unfold after_swap; rewrite ?(proj1 (proj2 (promote_counts (pbCur s) b x))); simpl; lia. }
  destruct (decide (pbPending s = Some x)) as [E|E]; [right|left; rewrite (ind_false _ E) in Hle; lia].
  destruct (pending_idle s x Hok E) as (_ & _ & _ & Hz). split; [done|]. rewrite (ind_true _ E) in Hle. unfold ending in Hz. unfold set_releases in *. lia.
Qed.

Lemma act_one_more a k ts s : pub_ok s -> pbThreads s ≡ₚ (a :: k) :: ts ->
  one_more s (let '(more, s') := run_act a s in set_threads ((more ++ k) :: ts) s').
Proof.
  intros Hok Hperm x. assert (forall y, nact y (pbThreads s) = ind (a = y) + nact y (k :: ts)) as Hn
    by (intros y; rewrite (nact_perm _ _ _ Hperm); apply nact_act).
  destruct a as [b|b|b|b]; simpl; unfold set_releases; simpl.
  - rewrite nact_app, (Hn (ASetRelease x)), (ind_false (ARelease b = ASetRelease x)) by done.
    destruct (pbRefs s b - 1 =? 0)%Z; [|left; simpl; lia].
    destruct (decide (b = x)) as [<-|Hne]; [right|left; pose proof (drain_acts (bnClusters (bundle s b)) b x) as (_ & _ & H3); cbv zeta in H3; lia].
    assert (ending s b = 0) as Hz.
    { destruct (Nat.eq_dec (ending s b) 0) as [|Hgt]; [done|]. destruct (po_ending s Hok b) as (_ & _ & H3 & _); [lia|].
      rewrite Hn, ind_true in H3 by done. lia. }
    split; [done|]. unfold ending in Hz. rewrite (Hn (ASetRelease b)), (ind_false (ARelease b = ASetRelease b)) in Hz by done.
    destruct (bnClusters (bundle s b)); simpl; repeat case_match; lia.
  - left. rewrite (Hn (ASetRelease x)), (ind_iff (ASetRelease b = ASetRelease x) (b = x)) by naive_solver. rewrite occ_cons. lia.
  - left. destruct (pbPending s) as [n|]; simpl.
    + unfold swapLocked. simpl. destruct (MaxRetired <=? pbRetired s - 1)%nat; simpl; rewrite (Hn (ASetRelease x)), (ind_false (ADrained b = ASetRelease x)) by done; [lia|].
      rewrite !nact_act, !(ind_false (_ = ASetRelease x)) by done. lia.
    + rewrite (Hn (ASetRelease x)), (ind_false (ADrained b = ASetRelease x)) by done. lia.
  - left. rewrite (Hn (ASetRelease x)), (ind_false (APublished b = ASetRelease x)) by done. lia.
Qed.

Lemma pstep_one_more s s' : pstep s s' -> pub_ok s -> one_more s s'.
Proof.
  intros Hs Hok. destruct Hs as [s b bd retain s' Hb Hp|s|s b ls Hl Hr|s b ls Hl Hr|s b rs Hrs|s a k ts Hts].
  - by eapply publish_one_more.
  - by apply one_more_same.
  - by apply one_more_same.
  - by apply one_more_same.
  - apply one_more_same. intros x. unfold set_releases. simpl. by rewrite nact_act, ind_false, nact_thread by done.
  - by apply act_one_more.
Qed.

Lemma psteps_once s s' : rtc pstep s s' -> pub_ok s -> (forall b, set_releases s b <= 1) -> forall b, set_releases s' b <= 1.
Proof.
  induction 1 as [s|s s1 s' Hs _ IH]; intros Hok Hle b; [done|]. apply IH; [by eapply pstep_ok|]. intros x.
  destruct (pstep_one_more s s1 Hs Hok x) as [?|[_ ?]]; [|done]. specialize (Hle x). lia.
Qed.

(** C39: on every interleaving of publishes, acquisitions and releases, a bundle a request holds keeps
    its cluster set: the set is neither released nor about to be.  The set of a bundle is let go of at
    most once, counting the releases done and those a thread is about to do, and never while the
    bundle is current or waiting.  The current bundle always has a holder, so the compare-and-swap of
    an acquisition on it succeeds; and the retired bundles are counted exactly and never exceed the
    bound. *)
Theorem bundle_lifetime b0 bd s (Hrun : rtc pstep (NewPublisher b0 bd) s) :
  (forall b, b ∈ pbReqs s -> b ∉ pbReleased s /\ nact (ASetRelease b) (pbThreads s) = 0 /\ (0 < pbRefs s b)%Z) /\
  (forall b, nact (ASetRelease b) (pbThreads s) + occ b (pbReleased s) <= 1) /\
  (forall b, b ∈ pbReleased s -> pbCur s <> b /\ pbPending s <> Some b) /\
  (0 < pbRefs s (pbCur s))%Z /\ pbRetired s = size (pbHeld s) /\ pbRetired s <= MaxRetired.
Proof.
  pose proof (psteps_once _ _ Hrun (NewPublisher_ok b0 bd)) as Honce.
  pose proof (psteps_ok _ _ Hrun (NewPublisher_ok b0 bd)) as [Hr Hf Hl Hc Hp Hd He Hv Hdr Ht].
  split_and!; [|intros b; apply Honce; intros x; unfold set_releases, nact, occ; simpl; lia| |rewrite Hr; pose proof (po_cur_holders s); lia|apply Ht..].
  - intros b Hb%occ_elem. assert (ending s b = 0) as Hz.
    { destruct (Nat.eq_dec (ending s b) 0); [done|]. destruct (He b) as (_ & _ & _ & ?); lia. }
    unfold ending in Hz. split_and!; [intros ?%occ_elem; lia|lia|]. rewrite Hr. unfold holders. lia.
  - intros b Hb%occ_elem. destruct (He b) as (? & ? & _); [unfold ending; lia|done].
Qed.

(** The waiting bundle continues the current one's lineage. *)
Definition lineage_ok (s : Pub) : Prop := forall n, pbPending s = Some n ->
  Identity_IsZero (Bundle_Identity (bundle s (pbCur s))) = false -> Bundle_Identity (bundle s n) = Bundle_Identity (bundle s (pbCur s)).

(** The current bundle of [s'] is the current bundle of [s] or a later one of the same lineage. *)
Definition later (s s' : Pub) : Prop :=
  (Bundle_Version (bundle s (pbCur s)) <= Bundle_Version (bundle s' (pbCur s')))%Z /\
  (Identity_IsZero (Bundle_Identity (bundle s (pbCur s))) = false ->
   Bundle_Identity (bundle s' (pbCur s')) = Bundle_Identity (bundle s (pbCur s))).

Lemma later_refl s s' : bundle s' (pbCur s') = bundle s (pbCur s) -> later s s'.
Proof. intros E. unfold later. rewrite E. split; [lia|done]. Qed.

Lemma publish_later b bd retain s s' : pub_ok s -> lineage_ok s -> pbBundles s !! b = None -> Publish b bd retain s = Ok s' ->
  later s s' /\ lineage_ok s'.
Proof.
  intros Hok Hlin Hb H. destruct (po_fresh s Hok b Hb) as (Hb1 & _). unfold Publish in H. do 3 (case_if_in H; [done|]).
  rename Heqb1 into Hver, Heqb0 into Hid. apply Z.ltb_ge in Hver.
  assert (pbCur s <> b) as Hcb by (intros <-; pose proof (po_cur_holders s); lia).
  assert ((Bundle_Version (bundle s (pbCur s)) <= Bundle_Version bd)%Z /\
          (Identity_IsZero (Bundle_Identity (bundle s (pbCur s))) = false -> Bundle_Identity bd = Bundle_Identity (bundle s (pbCur s)))) as [Hv Hi].
  { destruct (pbPending s) as [n|] eqn:Ep; simpl in *.
    - destruct (po_pending s Hok n Ep) as (_ & _ & Hle). split; [lia|]. intros Hz. pose proof (Hlin n Ep Hz) as E. rewrite E, Hz in Hid. simpl in Hid.
      apply negb_false_iff, bool_decide_eq_true in Hid. done.
    - split; [done|]. intros Hz. rewrite Hz in Hid. simpl in Hid. by apply negb_false_iff, bool_decide_eq_true in Hid. }
  assert (forall m, pbBundles m = <[b := bd]> (pbBundles s) -> bundle m b = bd) as Hnew by (intros m E; unfold bundle; by rewrite E, lookup_insert_eq).
  unfold swapLocked in H. simpl in H. destruct (MaxRetired <=? pbRetired s)%nat; apply Ok_inj in H as <-.
  - assert (bundle (park b bd [] s) (pbCur s) = bundle s (pbCur s)) as Hcur by by apply (bundle_insert s b bd). split; [by apply later_refl|].
    intros n [= <-] Hz. rewrite Hnew by done. simpl. change (Bundle_Identity bd = Bundle_Identity (bundle (park b bd [] s) (pbCur s))). rewrite Hcur. apply Hi.
    change (Identity_IsZero (Bundle_Identity (bundle (park b bd [] s) (pbCur s))) = false) in Hz. by rewrite Hcur in Hz.
  - split; [|intros n [=]]. unfold later. simpl. rewrite Hnew by done. done.
Qed.

Lemma pstep_later s s' : pstep s s' -> pub_ok s -> lineage_ok s -> later s s' /\ lineage_ok s'.
Proof.
  intros Hs Hok Hlin. destruct Hs as [s b bd retain s' Hb Hp|s|s b ls Hl Hr|s b ls Hl Hr|s b rs Hrs|s a k ts Hts];
    [by eapply publish_later|split; [by apply later_refl|exact Hlin]..|].
  destruct a as [b|b|b|b]; try (split; [by apply later_refl|exact Hlin]). simpl. destruct (pbPending s) as [n|] eqn:Ep.
  - destruct (po_pending s Hok n Ep) as (_ & _ & Hle). pose proof (Hlin n Ep) as Hid. unfold swapLocked. simpl.
    destruct (MaxRetired <=? _)%nat; simpl.
    + split; [by apply later_refl|]. intros n' [= <-]. exact Hid.
    + split; [|intros n' [=]]. by split.
  - split; [by apply later_refl|]. intros n [=].
Qed.

(** The bundle requests acquire never goes back: over any run its directory version only grows,
    and once it has a lineage it keeps it. *)
Theorem publisher_monotone b0 bd s s' (Hrun : rtc pstep (NewPublisher b0 bd) s) (Hmore : rtc pstep s s') : later s s'.
Proof.
  assert (pub_ok s /\ lineage_ok s) as [Hok Hlin].
  { assert (forall x y, rtc pstep x y -> pub_ok x -> lineage_ok x -> pub_ok y /\ lineage_ok y) as Hk.
    { induction 1; [done|]. intros. apply IHrtc; [by eapply pstep_ok|by eapply pstep_later]. }
    apply (Hk _ _ Hrun); [apply NewPublisher_ok|]. intros n [=]. }
  clear Hrun. induction Hmore as [s|s s1 s' Hs _ IH]; [by apply later_refl|].
  destruct (pstep_later _ _ Hs Hok Hlin) as [[Hv1 Hi1] Hlin1]. destruct (IH (pstep_ok _ _ Hs Hok) Hlin1) as [Hv2 Hi2]. split; [lia|].
  intros Hz. rewrite <- (Hi1 Hz). apply Hi2. by rewrite (Hi1 Hz).
Qed.

(** ** A run: two publishes whose callbacks run in the other order *)

Definition at_version (v : Z) : Bundle := mkBundle (mkFile v 2 zeroIdentity None None None None) true.

(** The state after a publish that is accepted, and after one action of the first thread. *)
Definition published (b : nat) (bd : Bundle) (s : Pub) : Pub := match Publish b bd true s with Ok s' => s' | Err _ => s end.
Definition acted (a : act) (k : list act) (ts : list (list act)) (s : Pub) : Pub :=
  let '(more, s') := run_act a s in set_threads ((more ++ k) :: ts) s'.

Lemma published_step b bd s : pbBundles s !! b = None -> is_Ok (Publish b bd true s) = true -> pstep s (published b bd s).
Proof. intros Hb Hok. apply (ps_publish s b bd true); [done|]. unfold published. by destruct (Publish b bd true s). Qed.
Lemma acted_step a k ts s l : pbThreads s = l -> l ≡ₚ (a :: k) :: ts -> pstep s (acted a k ts s).
Proof. intros <-. apply ps_act. Qed.

(** Bundle 1 (version 5) is published, then bundle 2 (version 6); the thread that published bundle 1
    is stopped between unlocking and its callback. *)
Definition pub_v4 : Pub := NewPublisher 0 (at_version 4).
Definition pub_v6 : Pub := published 2 (at_version 6) (published 1 (at_version 5) pub_v4).

Lemma pub_v6_run : rtc pstep pub_v4 pub_v6.
Proof.
  eapply rtc_l; [apply (published_step 1 (at_version 5)); vm_compute; reflexivity|].
  eapply rtc_l; [apply (published_step 2 (at_version 6)); vm_compute; reflexivity|]. apply rtc_refl.
Qed.

(** The rest of the second publish, then the rest of the first. *)
Definition late_thread : list act := [ARelease 0; APublished 1].
Definition pub_late : Pub :=
  let s1 := acted (ARelease 1) [APublished 2] [late_thread] pub_v6 in
  let s2 := acted (ASetRelease 1) [ADrained 1; APublished 2] [late_thread] s1 in
  let s3 := acted (ADrained 1) [APublished 2] [late_thread] s2 in
  let s4 := acted (APublished 2) [] [late_thread] s3 in
  let s5 := acted (ARelease 0) [APublished 1] [[]] s4 in
  let s6 := acted (ASetRelease 0) [ADrained 0; APublished 1] [[]] s5 in
  let s7 := acted (ADrained 0) [APublished 1] [[]] s6 in
  acted (APublished 1) [] [[]] s7.

(** The Published callback is called outside the publisher's lock, so two callbacks can run in
    the other order than their publishes: there is a run in which version 6 is current, every
    thread has finished, and the last callback was for version 5. *)
Theorem published_out_of_order : exists s, rtc pstep pub_v4 s /\
  Bundle_Version (bundle s (pbCur s)) = 6%Z /\ Forall (fun k => k = []) (pbThreads s) /\
  (fun b => Bundle_Version (bundle s b)) <$> pbLog s = [6%Z; 5%Z].
Proof.
  exists pub_late. split.
  - etrans; [exact pub_v6_run|]. unfold pub_late. cbv zeta.
    do 4 (eapply rtc_l; [eapply acted_step; [vm_compute; reflexivity|reflexivity]|]).
    eapply rtc_l; [eapply acted_step; [vm_compute; reflexivity|apply perm_swap]|].
    do 3 (eapply rtc_l; [eapply acted_step; [vm_compute; reflexivity|reflexivity]|]). apply rtc_refl.
  - split; [vm_compute; reflexivity|]. split; [|vm_compute; reflexivity]. vm_compute. repeat constructor.
Qed.

Lemma publisher_monotone_witness : later pub_v4 pub_v6.
Proof. apply (publisher_monotone 0 (at_version 4) _ _ (rtc_refl _ _) pub_v6_run). Defined.

(** A request acquires the first bundle, which is then replaced. *)
Definition pub_held : Pub :=
  acted (ARelease 0) [APublished 1] []
    (published 1 (at_version 5) (set_reqs [0%nat] (add_ref 0 (set_loads [] (set_loads [0%nat] pub_v4))))).

Lemma pub_held_run : rtc pstep pub_v4 pub_held.
Proof.
  eapply rtc_l; [apply ps_load|]. eapply rtc_l; [apply (ps_acquire _ 0 []); [reflexivity|vm_compute; reflexivity]|].
  eapply rtc_l; [apply (published_step 1 (at_version 5)); vm_compute; reflexivity|].
  eapply rtc_l; [eapply acted_step; [vm_compute; reflexivity|reflexivity]|]. apply rtc_refl.
Qed.

Lemma bundle_lifetime_witness : pbReqs pub_held = [0%nat] /\ pbCur pub_held = 1%nat /\
  (forall b, b ∈ pbReqs pub_held -> b ∉ pbReleased pub_held /\ nact (ASetRelease b) (pbThreads pub_held) = 0 /\ (0 < pbRefs pub_held b)%Z).
Proof.
  split; [vm_compute; reflexivity|]. split; [vm_compute; reflexivity|]. exact (proj1 (bundle_lifetime 0 (at_version 4) pub_held pub_held_run)).
Defined.
