(* ===== verification/Keeper.v ===== *)
(** * The gate keeper (internal/proxy/gates.go)

    The gate keeper applies to a front end's gates the barriers of the directory version it has
    installed and of the one its requests route by, and opens a gate only when neither carries the
    barrier.  With the gates of [Admission] this gives the guarantee a change relies on: once a
    gate is drained, no request that routes by a version before the commit of the change touches
    the placement again.  The callback order the publisher of [Runtime] allows is taken up at the
    end. *)

From S2P Require Import Prelude Config Placement Directory Validate Admission Runtime.

(** ** State and operations *)

Record GateKeeper : Type := mkKeeper { kGates : Gates; kInstalled : option File; kServed : option File }.

(** What closes first wins: the installed directory's barrier, else the served one's. *)
Definition first_closed (have c : Closed) : Closed :=
  mkPer (if bool_decide (onMutations have = "") then onMutations c else onMutations have)
        (if bool_decide (onSource have = "") then onSource c else onSource have).

Definition merge_closures (acc : Closures) (snap : option File) : Closures :=
  match snap with
  | None => acc
  | Some f => union_with (fun have c => Some (first_closed have c)) acc (fst (Barriers f))
  end.

Definition keeper_closures (k : GateKeeper) : Closures := foldl merge_closures ∅ [kInstalled k; kServed k].

Definition keeper_sticky (k : GateKeeper) : bool :=
  match kInstalled k, kServed k with Some i, Some s => (fVersion s <? fVersion i)%Z | _, _ => false end.

Definition keeper_version (k : GateKeeper) : Z :=
  foldl (fun v snap => match snap with Some f => if (v <? fVersion f)%Z then fVersion f else v | None => v end) 0%Z
    [kInstalled k; kServed k].

Definition applyLocked (k : GateKeeper) : GateKeeper :=
  mkKeeper (Apply_closures (keeper_closures k) (keeper_version k) (keeper_sticky k) (kGates k)) (kInstalled k) (kServed k).

Definition Installed (f : File) (k : GateKeeper) : GateKeeper := applyLocked (mkKeeper (kGates k) (Some f) (kServed k)).
Definition Served (f : File) (k : GateKeeper) : GateKeeper := applyLocked (mkKeeper (kGates k) (kInstalled k) (Some f)).

(** dispatched: may a failed exchange have reached the backend whole?  The error is given by what the
    code asks of it; [sent] is how much of the body was read, when there is one. *)
Definition dispatched (failed connectErr buildErr : bool) (sent : option Z) (contentLength : Z) : bool :=
  if negb failed || connectErr || buildErr then false
  else match sent with None => true | Some n => (contentLength <? 0)%Z || (contentLength <=? n)%Z end.

(** releaseTokens: a request's two tokens, with how its backend work ended. *)
Definition releaseTokens (tok src : Token) (uncertain srcUncertain : bool) (g : Gates) : Gates :=
  Release src (if srcUncertain then Uncertain_ else Definitive) (Release tok (if uncertain then Uncertain_ else Definitive) g).

(** ** What the keeper closes and opens *)

(** What closes a kind of a placement in a directory, "" for nothing. *)
Definition closes (f : File) (key : string) (kind : Kind) : string := at_kind kind (default open_gates (fst (Barriers f) !! key)).

Lemma first_closed_at kind a b : at_kind kind (first_closed a b) = if bool_decide (at_kind kind a = "") then at_kind kind b else at_kind kind a.
Proof. by destruct kind. Qed.

Lemma merge_closures_at acc snap key kind :
  at_kind kind (default open_gates (merge_closures acc snap !! key)) =
    let have := at_kind kind (default open_gates (acc !! key)) in
    if bool_decide (have = "") then match snap with Some f => closes f key kind | None => "" end else have.
Proof.
  simpl. unfold merge_closures, closes. destruct snap as [f|]; [|by case_bool_decide].
  rewrite lookup_union_with. destruct (acc !! key) as [a|], (fst (Barriers f) !! key) as [c|]; simpl.
  - apply first_closed_at.
  - case_bool_decide as E; [|done]. rewrite E. by destruct kind.
  - by destruct kind.
  - by destruct kind.
Qed.

Definition snap_closes (snap : option File) (key : string) (kind : Kind) : string :=
  match snap with Some f => closes f key kind | None => "" end.

Lemma keeper_closures_at k key kind :
  at_kind kind (default open_gates (keeper_closures k !! key)) =
    if bool_decide (snap_closes (kInstalled k) key kind = "") then snap_closes (kServed k) key kind else snap_closes (kInstalled k) key kind.
Proof.
  unfold keeper_closures. simpl. rewrite !merge_closures_at. simpl. rewrite lookup_empty. simpl.
  assert (at_kind kind open_gates = "") as -> by by destruct kind. done.
Qed.

Lemma keeper_version_ge k f : kInstalled k = Some f \/ kServed k = Some f -> (fVersion f <= keeper_version k)%Z.
Proof.
  unfold keeper_version. intros [E|E]; rewrite E; simpl; destruct (kServed k), (kInstalled k); repeat case_match; simplify_eq; lia.
Qed.

(** after every install and every publish, a gate is closed if the installed directory or the
    one requests route by carries a barrier for it; it is open otherwise, except that while requests
    route by an older version than the installed one, a closed gate stays closed; and a gate that
    was closed and is now open refuses every request that routes by a version older than both. *)
Theorem keeper_gates k key kind :
  let old := gate_of key (kGates k) in
  let new := gate_of key (kGates (applyLocked k)) in
  let carried := negb (bool_decide (snap_closes (kInstalled k) key kind = "")) || negb (bool_decide (snap_closes (kServed k) key kind = "")) in
  (carried = true -> at_kind kind (gClosed new) <> "") /\
  (carried = false -> at_kind kind (gClosed new) = if keeper_sticky k then at_kind kind (gClosed old) else "") /\
  (at_kind kind (gClosed old) <> "" -> at_kind kind (gClosed new) = "" -> forall f, kInstalled k = Some f \/ kServed k = Some f -> (fVersion f <= gFrom new)%Z).
Proof.
  simpl. pose proof (Apply_closed (keeper_closures k) (keeper_version k) (keeper_sticky k) (kGates k) key kind) as Hcl. simpl in Hcl.
  rewrite keeper_closures_at in Hcl. split; [|split].
  - intros Hc. rewrite Hcl. destruct (bool_decide_reflect (snap_closes (kInstalled k) key kind = "")) as [Ei|Ei]; simpl in *.
    + apply negb_true_iff in Hc. rewrite Hc. by apply bool_decide_eq_false in Hc.
    + by rewrite bool_decide_false.
  - intros [Hi Hs]%orb_false_iff. apply negb_false_iff in Hi, Hs. rewrite Hi in Hcl. rewrite Hcl, Hs. simpl.
    apply bool_decide_eq_true in Hs. by destruct (keeper_sticky k).
  - intros Hold Hnew f Hf. destruct (Apply_from (keeper_closures k) (keeper_version k) (keeper_sticky k) (kGates k) key kind (keeper_version k)) as [?|Hge];
      [lia|by left|done|]. etrans; [by apply keeper_version_ge|exact Hge].
Qed.

(** ** From the drain of a barrier to its commit *)

(** A front end: its gates with the tokens out, and the two directories of its keeper. *)
Record front : Type := mkFront { frState : astate; frInstalled : option File; frServed : option File }.

Definition keeper_of (x : front) : GateKeeper := mkKeeper (aGates (frState x)) (frInstalled x) (frServed x).
Definition with_keeper (k : GateKeeper) (x : front) : front := mkFront (mkA (kGates k) (aHeld (frState x))) (kInstalled k) (kServed k).

(** Requests enter and leave; the keeper is told of an installed or of a served directory.  Each gate
    is locked on its own, so for one gate the keeper's round is one critical section. *)
Inductive fstep : front -> option File -> front -> Prop :=
| fs_request x key s' : gstep (frState x) (key, None) s' -> fstep x None (mkFront s' (frInstalled x) (frServed x))
| fs_installed x f : fstep x (Some f) (with_keeper (Installed f (keeper_of x)) x)
| fs_served x f : fstep x (Some f) (with_keeper (Served f (keeper_of x)) x).

Inductive fsteps : front -> list File -> front -> Prop :=
| fss_nil x : fsteps x [] x
| fss_cons x o x' fs x'' : fstep x o x' -> fsteps x' fs x'' -> fsteps x (match o with Some f => f :: fs | None => fs end) x''.

Definition new_front : front := mkFront (mkA New []) None None.

Lemma fstep_run x o x' : fstep x o x' -> exists ls, gsteps (frState x) ls (frState x').
Proof.
  destruct 1 as [x key s' Hs|x f|x f]; [eexists; eapply gss_cons; [exact Hs|apply gss_nil]|..].
  all: destruct x as [[g ts] i v]; simpl.
  - destruct (Apply_steps (keeper_closures (mkKeeper g (Some f) v)) (keeper_version (mkKeeper g (Some f) v)) (keeper_sticky (mkKeeper g (Some f) v)) g ts) as (ls & Hls & _).
    exists ls. exact Hls.
  - destruct (Apply_steps (keeper_closures (mkKeeper g i (Some f))) (keeper_version (mkKeeper g i (Some f))) (keeper_sticky (mkKeeper g i (Some f))) g ts) as (ls & Hls & _).
    exists ls. exact Hls.
Qed.

Lemma fsteps_run x fs x' : fsteps x fs x' -> exists ls, gsteps (frState x) ls (frState x').
Proof.
  induction 1 as [x|x o x1 fs x' Hs _ [ls2 H2]]; [eexists; apply gss_nil|]. destruct (fstep_run _ _ _ Hs) as [ls1 H1].
  exists (ls1 ++ ls2). by eapply gsteps_app.
Qed.

(** A directory before version [v] carries a barrier on the gate. *)
Definition barred (key : string) (kind : Kind) (v : Z) (f : File) : Prop := (fVersion f < v)%Z -> closes f key kind <> "".

Lemma applyLocked_fenced k key kind v ts :
  (forall f, kInstalled k = Some f \/ kServed k = Some f -> barred key kind v f) -> is_Some (kInstalled k) \/ is_Some (kServed k) ->
  fenced_from key kind v (mkA (kGates k) ts) -> fenced_from key kind v (mkA (kGates (applyLocked k)) ts).
Proof.
  intros Hbar Hsome [Ht Hg]. split; [exact Ht|]. simpl in *. destruct (decide (v <= keeper_version k)%Z) as [Hle|Hgt]; [by apply Apply_from|].
  left. rewrite Apply_closed, keeper_closures_at.
  assert (forall f, kInstalled k = Some f \/ kServed k = Some f -> closes f key kind <> "") as Hcl.
  { intros f Hf. apply (Hbar f Hf). pose proof (keeper_version_ge k f Hf). lia. }
  destruct (kInstalled k) as [i|]; simpl.
  - pose proof (Hcl i (or_introl eq_refl)) as Hi. rewrite (bool_decide_false (closes i key kind = "")) by done. by rewrite bool_decide_false.
  - destruct (kServed k) as [sv|]; simpl; [|by destruct Hsome as [[? [=]]|[? [=]]]].
    pose proof (Hcl sv (or_intror eq_refl)) as Hs. by rewrite bool_decide_false.
Qed.

(** The directories of the front end carry the barrier until [v], and its gate lets no older request in. *)
Definition front_fenced (key : string) (kind : Kind) (v : Z) (x : front) : Prop :=
  (forall f, frInstalled x = Some f \/ frServed x = Some f -> barred key kind v f) /\ fenced_from key kind v (frState x).

Lemma fsteps_fenced key kind v x fs x' : fsteps x fs x' -> Forall (barred key kind v) fs -> front_fenced key kind v x -> front_fenced key kind v x'.
Proof.
  induction 1 as [x|x o x1 fs x' Hs _ IH]; [done|]. intros Hall [Hb Hf]. destruct Hs as [x k s' Hs|x f|x f]; simpl in *.
  - apply IH; [done|]. split; [done|]. eapply gstep_fenced; [exact Hs| |done]. intros _ w [=].
  - apply Forall_cons in Hall as [Hbf Hall]. apply IH; [done|]. split; simpl.
    + intros g [[= <-]|E]; [done|]. apply Hb. by right.
    + destruct x as [[g ts] i sv]. apply (applyLocked_fenced (mkKeeper g (Some f) sv)); [|left; eauto|done]. simpl. intros h [[= <-]|E]; [done|].
      apply Hb. by right.
  - apply Forall_cons in Hall as [Hbf Hall]. apply IH; [done|]. split; simpl.
    + intros g [E|[= <-]]; [|done]. apply Hb. by left.
    + destruct x as [[g ts] i sv]. apply (applyLocked_fenced (mkKeeper g i (Some f))); [|right; eauto|done]. simpl. intros h [E|[= <-]]; [|done].
      apply Hb. by left.
Qed.

(** A drained gate whose directories carry the barrier until [v]. *)
Lemma drained_separates x0 fs0 fs x key kind v
    (Hreach : fsteps new_front fs0 x0) (Hd : drained (frState x0) key kind)
    (Hnow : forall f, frInstalled x0 = Some f \/ frServed x0 = Some f -> barred key kind v f)
    (Hfs : Forall (barred key kind v) fs) (Hrun : fsteps x0 fs x) :
  forall t, t ∈ aHeld (frState x) -> t.1 = (key, kind) -> (v <= t.2)%Z.
Proof.
  destruct (fsteps_run _ _ _ Hreach) as [ls0 H0]. pose proof (gsteps_counted _ _ _ H0 counted_new) as Hc. destruct Hd as [Hcl Hin].
  destruct (fsteps_fenced key kind v _ _ _ Hrun Hfs) as [_ [Ht _]]; [|exact Ht]. split; [done|]. split; [|by left].
  intros t Hin' E. exfalso. eapply out_zero; [rewrite <- (Hc key kind); exact Hin|exact Hin'|exact E].
Qed.

(** At one front end, from the moment its gate for a kind is drained: if every directory it has,
    installs or serves before version [v] carries a barrier on that gate, then no request that
    routes by a version before [v] is ever let through it again.  So a change committed at [v], after
    every front end acknowledged the drain, is not undone by a request that still follows the old
    route, however installs, publishes and requests interleave. *)
Theorem commit_separates x0 fs0 fs x key kind v
    (Hreach : fsteps new_front fs0 x0) (Hd : drained (frState x0) key kind)
    (Hnow : forall f, frInstalled x0 = Some f \/ frServed x0 = Some f -> barred key kind v f)
    (Hfs : Forall (barred key kind v) fs) (Hrun : fsteps x0 fs x) :
  forall t, t ∈ aHeld (frState x) -> t.1 = (key, kind) -> (v <= t.2)%Z.
Proof. by eapply drained_separates. Qed.

(** ** A barrier from its install to its commit *)

(** The directory of version 5: the barrier of [ex_file] (version 4) is committed. *)
Definition ex_committed : File :=
  mkFile 5 2 zeroIdentity (Some {[PlacementResource ex_key := 5%Z]}) None (Some {["t" := mkTenant "a"]})
    (Some {[ex_key := zeroPlacement |> set_State StateActive |> set_Primary "a" |> set_Names (Some {["a" := "logs"]})]}).

Definition ex_barred : front := with_keeper (Served ex_file (keeper_of (with_keeper (Installed ex_file (keeper_of new_front)) new_front)))
  (with_keeper (Installed ex_file (keeper_of new_front)) new_front).
Definition ex_installed : front := with_keeper (Installed ex_committed (keeper_of ex_barred)) ex_barred.
Definition ex_served : front := with_keeper (Served ex_committed (keeper_of ex_installed)) ex_installed.

Lemma ex_barred_run : fsteps new_front [ex_file; ex_file] ex_barred.
Proof.
  eapply (fss_cons _ (Some ex_file)); [apply fs_installed|]. eapply (fss_cons _ (Some ex_file)); [apply fs_served|]. apply fss_nil.
Qed.

Lemma ex_barred_until f : f ∈ [ex_file; ex_committed] -> barred ex_key Mutations 5 f.
Proof.
  intros [-> |[-> |?%elem_of_nil]%elem_of_cons]%elem_of_cons; [|unfold barred; simpl; lia|done].
  intros _. vm_compute. discriminate.
Qed.

(** A request of version 5 is let through after the commit. *)
Lemma commit_separates_witness : exists g', Enter (Some (aGates (frState ex_served))) ex_key Mutations 5 = (Some g', Ok (Some (ex_key, Mutations))) /\
  forall t, t ∈ [(ex_key, Mutations, 5%Z)] -> t.1 = (ex_key, Mutations) -> (5 <= t.2)%Z.
Proof.
  assert (exists g', Enter (Some (aGates (frState ex_served))) ex_key Mutations 5 = (Some g', Ok (Some (ex_key, Mutations)))) as [g' E]
    by (eexists; vm_compute; reflexivity).
  exists g'. split; [exact E|].
  apply (commit_separates ex_barred [ex_file; ex_file] [ex_committed; ex_committed]
    (mkFront (mkA g' [(ex_key, Mutations, 5%Z)]) (Some ex_committed) (Some ex_committed)) ex_key Mutations 5 ex_barred_run).
  - split; vm_compute; [discriminate|reflexivity].
  - intros f [[= <-]|[= <-]]; apply ex_barred_until; left.
  - repeat constructor; apply ex_barred_until; right; left.
  - eapply (fss_cons _ (Some ex_committed) ex_installed); [apply fs_installed|]. eapply (fss_cons _ (Some ex_committed) ex_served); [apply fs_served|].
    eapply (fss_cons _ None); [|apply fss_nil]. apply (fs_request ex_served ex_key). exact (gs_enter _ ex_key Mutations 5 g' _ E).
Defined.

(** ** A late callback

    [Runtime.published_out_of_order]: the callbacks of two publishes can run in the other order.  The
    keeper then hears of version 5, published, and installed, and last of version 4. *)
Definition ex_late : front := with_keeper (Served ex_file (keeper_of ex_served)) ex_served.

(** A run on which, after such a late callback, the placement's gate is closed by a barrier that the
    installed directory no longer carries and that had been taken off the gate before: mutations of
    every version are refused. *)
Theorem late_callback_closes_gate :
  closes ex_committed ex_key Mutations = "" /\ at_kind Mutations (gClosed (gate_of ex_key (aGates (frState ex_served)))) = "" /\
  frInstalled ex_late = Some ex_committed /\
  forall version, snd (Enter (Some (aGates (frState ex_late))) ex_key Mutations version) = Err "b1".
Proof. split_and!; [vm_compute; reflexivity..|]. intros version. vm_compute. reflexivity. Qed.
