(* ===== verification/Listing.v ===== *)
(** * Merged listings (internal/proxy/merge.go)

    While a bucket migrates, a listing is a sorted merge of two paginated streams, the primary's entry
    winning when both hold a name.  The client's continuation token carries each side's own token and
    the last name sent.  A backend is a parameter: what it answers to one page request.  Its contract
    is S3's: pages are slices of one sorted list, and a continuation token names where the next page
    starts. *)

From S2P Require Import Prelude S3Names.
From Stdlib Require Import Sorting.Sorted.

(** ** Data *)

Section Listing.
Context {obj : Type}.

Record listItem : Type := mkItem { liName : string; liPrefix : bool; liObj : option obj }.

(** One page of a backend: keys and common prefixes as the XML has them, still encoded. *)
Record page : Type := mkPage {
  pgContents : list (option string * obj);
  pgPrefixes : list string;
  pgTruncated : option bool;
  pgNext : option string;
}.

Inductive answer : Type :=
| AFail
| AMissing
| APage (p : page).

(** A backend's answer to a page request: with a continuation token, or after a name. *)
Definition backend_fn : Type := string -> string -> answer.

(** [listSide] without the cluster and bucket, which are the backend's. *)
Record listSide : Type := mkSide {
  lsUsed : string; lsNext : string; lsDone : bool; lsStarted : bool; lsMissing : bool; lsItems : list listItem;
}.

Definition name_le (a b : listItem) : Prop := String.le (liName a) (liName b).
#[global] Instance name_le_dec : RelDecision name_le.
Proof. intros a b. unfold name_le. apply _. Defined.
#[global] Instance name_le_trans : Transitive name_le.
Proof. intros a b c. unfold name_le. apply transitivity. Qed.
#[global] Instance name_le_total : Total name_le.
Proof. intros a b. unfold name_le. apply (total String.le). Qed.

(** Go's [a < b] on strings. *)
Definition str_ltb (a b : string) : bool := negb (String.leb b a).

(** The entries of a page, in name order. *)
Definition page_items (p : page) : list listItem :=
  merge_sort name_le
    (omap (fun c => (fun k => mkItem (DecodeListingKey k) false (Some c.2)) <$> c.1) (pgContents p) ++
     List.map (fun k => mkItem (DecodeListingKey k) true None) (pgPrefixes p)).

(** [for len(items) > 0 && after != "" && items[0].name <= after { items = items[1:] }] *)
Fixpoint skip_to (after : string) (items : list listItem) : list listItem :=
  match items with
  | it :: rest => if negb (bool_decide (after = "")) && String.leb (liName it) after then skip_to after rest else items
  | [] => []
  end.

Definition next_of (p : page) : string :=
  match pgTruncated p, pgNext p with Some true, Some t => t | _, _ => "" end.

(** fetchListPage: the side with a page buffered; [Ok false] when the bucket is missing. *)
Definition fetchListPage (ask : backend_fn) (after startAfter : string) (s : listSide) : result () (bool * listSide) :=
  let start := if bool_decide (after = "") then startAfter else after in
  match ask (lsUsed s) (if bool_decide (lsUsed s = "") then start else "") with
  | AFail => Err ()
  | AMissing => Ok (false, mkSide (lsUsed s) (lsNext s) true (lsStarted s) true [])
  | APage p =>
      let items := skip_to after (page_items p) in
      let next := next_of p in
      Ok (true, mkSide (lsUsed s) next (lsDone s || (bool_decide (items = []) && bool_decide (next = ""))) true (lsMissing s) items)
  end.

(** The [head] closure: pages are read until one has an entry; fuel bounds the pages. *)
Fixpoint head_ (fuel : nat) (ask : backend_fn) (after startAfter : string) (s : listSide) : option (result () (option listItem * listSide)) :=
  match lsItems s with
  | it :: _ => Some (Ok (Some it, s))
  | [] =>
      if lsDone s then Some (Ok (None, s))
      else if lsStarted s && bool_decide (lsNext s = "") then
        Some (Ok (None, mkSide (lsUsed s) (lsNext s) true (lsStarted s) (lsMissing s) (lsItems s)))
      else
        let s := if lsStarted s then mkSide (lsNext s) (lsNext s) (lsDone s) (lsStarted s) (lsMissing s) (lsItems s) else s in
        match fuel with
        | O => None
        | S fuel =>
            match fetchListPage ask after startAfter s with
            | Err e => Some (Err e)
            | Ok (false, s) => Some (Ok (None, s))
            | Ok (true, s) => head_ fuel ask after startAfter s
            end
        end
  end.

Definition pop (s : listSide) : listSide := mkSide (lsUsed s) (lsNext s) (lsDone s) (lsStarted s) (lsMissing s) (tail (lsItems s)).

(** The merge loop: up to [n] more entries, and whether it stopped because both streams ended.  [Some (Err _)] is a page that could not be read. *)
Fixpoint merge_loop (fuel : nat) (askP askS : backend_fn) (after startAfter : string) (n : nat) (ps ss : listSide) (emitted : list listItem)
    : option (result () (list listItem * bool * listSide * listSide)) :=
  match n with
  | O => Some (Ok (emitted, false, ps, ss))
  | S n =>
      match head_ fuel askP after startAfter ps with
      | None => None
      | Some (Err e) => Some (Err e)
      | Some (Ok (ph, ps)) =>
          match head_ fuel askS after startAfter ss with
          | None => None
          | Some (Err e) => Some (Err e)
          | Some (Ok (sh, ss)) =>
              match ph, sh with
              | None, None => Some (Ok (emitted, true, ps, ss))
              | Some p, None => merge_loop fuel askP askS after startAfter n (pop ps) ss (emitted ++ [p])
              | None, Some s => merge_loop fuel askP askS after startAfter n ps (pop ss) (emitted ++ [s])
              | Some p, Some s =>
                  if str_ltb (liName p) (liName s) then merge_loop fuel askP askS after startAfter n (pop ps) ss (emitted ++ [p])
                  else if str_ltb (liName s) (liName p) then merge_loop fuel askP askS after startAfter n ps (pop ss) (emitted ++ [s])
                  else merge_loop fuel askP askS after startAfter n (pop ps) (pop ss) (emitted ++ [p])
              end
          end
      end
  end.

(** [mergeToken]; its base64 JSON is not modelled. *)
Record mergeToken : Type := mkToken { tkP : string; tkPD : bool; tkS : string; tkSD : bool; tkLast : string }.
Definition zeroToken : mergeToken := mkToken "" false "" false "".

(** What a merged page answers: the entries, whether there is more, the next token, and the page size
    it reports; or no bucket; or an upstream error. *)
Inductive listing : Type :=
| LPage (items : list listItem) (truncated : bool) (next : option mergeToken) (maxKeys : nat)
| LNoSuchBucket
| LError.

Definition maxListKeys : nat := 1000.

(** The page size: the client's, when it is less than 1000. *)
Definition page_size (maxKeys : option nat) : nat :=
  match maxKeys with Some n => if (n <? maxListKeys)%nat then n else maxListKeys | None => maxListKeys end.

Definition new_side (used : string) (done : bool) : listSide := mkSide used "" done false false [].

(** mergeListing *)
Definition mergeListing (fuel : nat) (askP askS : backend_fn) (startAfter : string) (maxKeys : option nat) (tok : mergeToken) : option listing :=
  let n := page_size maxKeys in
  let after := tkLast tok in
  match merge_loop fuel askP askS after startAfter n (new_side (tkP tok) (tkPD tok)) (new_side (tkS tok) (tkSD tok)) [] with
  | None => None
  | Some (Err _) => Some LError
  | Some (Ok (emitted, ended, ps, ss)) =>
      let n := if ended then length emitted else n in
      match head_ fuel askP after startAfter ps with
      | None => None
      | Some (Err _) => Some LError
      | Some (Ok (ph, ps)) =>
          match head_ fuel askS after startAfter ss with
          | None => None
          | Some (Err _) => Some LError
          | Some (Ok (sh, ss)) =>
              if lsMissing ps && lsMissing ss then Some LNoSuchBucket
              else
                let truncated := bool_decide (is_Some ph) || bool_decide (is_Some sh) in
                let next := if truncated then
                              (fun it => mkToken (lsUsed ps) (lsDone ps) (lsUsed ss) (lsDone ss) (liName it)) <$> last emitted
                            else None in
                Some (LPage emitted truncated next n)
          end
      end
  end.

(** ** What a backend promises *)

Definition lt_name (a b : string) : Prop := String.le a b /\ a <> b.

Lemma leb_le a b : String.leb a b = true <-> String.le a b.
Proof. unfold String.le. by rewrite Is_true_true. Qed.

Lemma lt_name_not_le a b : lt_name a b <-> String.leb b a = false.
Proof.
  rewrite <- not_true_iff_false, leb_le. unfold lt_name. split.
  - intros [Hle Hne] Hba. apply Hne. by apply (anti_symm String.le).
  - intros Hn. destruct (total String.le a b) as [?|?]; [|done]. split; [done|]. by intros ->.
Qed.

Lemma str_ltb_lt a b : str_ltb a b = true <-> lt_name a b.
Proof. unfold str_ltb. by rewrite negb_true_iff, lt_name_not_le. Qed.

Lemma lt_name_trans a b c : lt_name a b -> lt_name b c -> lt_name a c.
Proof. intros [H1 N1] [H2 N2]. split; [by etrans|]. intros ->. apply N1. by apply (anti_symm String.le). Qed.
Lemma le_lt_name_trans a b c : String.le a b -> lt_name b c -> lt_name a c.
Proof. intros H1 [H2 N2]. split; [by etrans|]. intros ->. apply N2. by apply (anti_symm String.le). Qed.
Lemma lt_le_name_trans a b c : lt_name a b -> String.le b c -> lt_name a c.
Proof. intros [H1 N1] H2. split; [by etrans|]. intros ->. apply N1. by apply (anti_symm String.le). Qed.

(** A bucket's entries in order, each name once. *)
Definition increasing (B : list listItem) : Prop :=
  forall i j x y, i < j -> B !! i = Some x -> B !! j = Some y -> lt_name (liName x) (liName y).

(** The entries of a page as the XML has them. *)
Definition raw_items (p : page) : list listItem :=
  omap (fun c => (fun k => mkItem (DecodeListingKey k) false (Some c.2)) <$> c.1) (pgContents p) ++
  List.map (fun k => mkItem (DecodeListingKey k) true None) (pgPrefixes p).

(** A page that starts at entry [k] of [B]: [m] entries from there in any order, and a token for
    where the next page starts, unless this is the last. *)
Definition page_at (B : list listItem) (pos : string -> option nat) (k : nat) (a : answer) : Prop :=
  exists p m, a = APage p /\ raw_items p ≡ₚ take m (drop k B) /\ k + m <= length B /\
    (next_of p = "" -> k + m = length B) /\ (next_of p <> "" -> 0 < m /\ pos (next_of p) = Some (k + m)).

(** A backend that holds the entries [B] for a listing after [startAfter]: asked for the names after
    [after] it skips only names up to it; a token continues where it says. *)
Record serves (ask : backend_fn) (startAfter : string) (B : list listItem) (pos : string -> option nat) : Prop := {
  sv_increasing : increasing B;
  sv_names : forall x, x ∈ B -> liName x <> "" /\ String.le startAfter (liName x);
  sv_first : page_at B pos 0 (ask "" startAfter);
  sv_after : forall after, after <> "" -> String.le startAfter after -> exists k, page_at B pos k (ask "" after) /\
    forall i x, B !! i = Some x -> i < k -> String.le (liName x) after;
  sv_next : forall tok k, tok <> "" -> pos tok = Some k -> page_at B pos k (ask tok "");
}.

(** A cluster without the bucket answers so every time, and offers nothing. *)
Definition absent (ask : backend_fn) : Prop := forall tok start, ask tok start = AMissing.

Definition offers (ask : backend_fn) (startAfter : string) (B : list listItem) (pos : string -> option nat) : Prop :=
  serves ask startAfter B pos \/ absent ask /\ B = [].

Lemma increasing_slice B k m : increasing B -> StronglySorted (fun a b => lt_name (liName a) (liName b)) (take m (drop k B)).
Proof.
  intros Hinc. assert (increasing (take m (drop k B))) as Hs.
  { intros i j x y Hij Hx Hy. apply lookup_take_Some in Hx as [Hx _]. apply lookup_take_Some in Hy as [Hy _].
    rewrite lookup_drop in Hx, Hy. eapply Hinc; [|exact Hx|exact Hy]. lia. }
  clear Hinc. induction (take m (drop k B)) as [|x l IH]; constructor.
  - apply IH. intros i j a b Hij Ha Hb. apply (Hs (S i) (S j)); [lia|done|done].
  - apply Forall_lookup. intros i y Hy. apply (Hs 0 (S i)); [lia|done|done].
Qed.

(** Sorting the entries of a page gives the slice. *)
Lemma page_items_slice B k m p : increasing B -> raw_items p ≡ₚ take m (drop k B) -> page_items p = take m (drop k B).
Proof.
  intros Hinc Hperm. unfold page_items. fold (raw_items p). pose proof (increasing_slice B k m Hinc) as Hs.
  apply (StronglySorted_unique_strong name_le).
  - intros x y Hx Hy Hxy Hyx. rewrite merge_sort_Permutation, Hperm in Hx.
    apply list_elem_of_lookup in Hx as [i Hi]. apply list_elem_of_lookup in Hy as [j Hj].
    assert (liName x = liName y) as E by by apply (anti_symm String.le).
    apply lookup_take_Some in Hi as [Hi _]. apply lookup_take_Some in Hj as [Hj _]. rewrite lookup_drop in Hi, Hj.
    destruct (Nat.lt_trichotomy i j) as [Hlt|[->|Hlt]]; [|congruence|].
    + destruct (Hinc (k + i) (k + j) x y) as [_ ?]; [lia|done|done|]. done.
    + destruct (Hinc (k + j) (k + i) y x) as [_ ?]; [lia|done|done|]. done.
  - apply (StronglySorted_merge_sort name_le).
  - clear Hperm. induction Hs as [|a l _ IH Ha]; constructor; [done|]. eapply Forall_impl; [exact Ha|]. by intros ? [? _].
  - by rewrite merge_sort_Permutation.
Qed.

(** ** One side's stream *)

(** [j0] is the first entry after the name [after]. *)
Definition splits_at (B : list listItem) (after : string) (j0 : nat) : Prop :=
  (forall i x, B !! i = Some x -> i < j0 -> String.le (liName x) after) /\
  (forall i x, B !! i = Some x -> j0 <= i -> lt_name after (liName x)).

Lemma skip_to_none after B k m j0 : after = "" \/ splits_at B after j0 /\ j0 <= k -> skip_to after (take m (drop k B)) = take m (drop k B).
Proof.
  intros H. destruct (take m (drop k B)) as [|x l] eqn:E; [done|]. simpl. destruct H as [->|[[_ Hgt] Hk]]; [done|].
  assert (B !! k = Some x) as Hx.
  { assert (take m (drop k B) !! 0 = Some x) as Hx by by rewrite E. apply lookup_take_Some in Hx as [Hx _]. by rewrite lookup_drop, Nat.add_0_r in Hx. }
  apply Hgt, lt_name_not_le in Hx; [|done]. by rewrite Hx, andb_false_r.
Qed.

Lemma skip_to_slice after B k m j0 : after <> "" -> splits_at B after j0 -> k <= j0 -> k + m <= length B ->
  skip_to after (take m (drop k B)) = take (k + m - j0) (drop j0 B).
Proof.
  intros Hne Hsp. revert k. induction m as [|m IH]; intros k Hk Hlen.
  { simpl. replace (k + 0 - j0) with 0 by lia. done. }
  destruct (decide (k = j0)) as [->|Hlt].
  { rewrite (skip_to_none after B j0 (S m) j0) by (right; auto). f_equal. lia. }
  destruct (lookup_lt_is_Some_2 B k) as [x Hx]; [lia|]. rewrite (drop_S B x k Hx). simpl.
  destruct Hsp as [Hle Hgt]. pose proof (Hle k x Hx ltac:(lia)) as Hxa. apply leb_le in Hxa. rewrite Hxa, bool_decide_false by done. simpl.
  rewrite IH by lia. do 2 f_equal. lia.
Qed.

Lemma offers_increasing ask startAfter B pos : offers ask startAfter B pos -> increasing B.
Proof. intros [H|[_ ->]]; [apply H|]. intros i j x y _ Hx. by rewrite lookup_nil in Hx. Qed.

Section Side.
Context (ask : backend_fn) (B : list listItem) (pos : string -> option nat) (after startAfter : string) (j0 : nat).

(** The first page a side asks for. *)
Definition first_page (used : string) : answer :=
  ask used (if bool_decide (used = "") then if bool_decide (after = "") then startAfter else after else "").

(** The buffer of a side at entry [j], the next page starting at [kn]. *)
Record buffered (s : listSide) (j kn : nat) : Prop := {
  bu_items : lsItems s = take (kn - j) (drop j B);
  bu_next : kn <= length B;
  bu_skipped : kn < j -> j = j0 /\ after <> "";
  bu_last : lsNext s = "" -> kn = length B;
  bu_token : lsNext s <> "" -> pos (lsNext s) = Some kn;
}.

(** A side whose next entry is entry [j] of [B]. *)
Record side_ok (s : listSide) (j : nat) : Prop := {
  so_from : j0 <= j <= length B;
  so_done : lsDone s = true -> lsItems s = [] /\ j = length B;
  so_page : lsDone s = false -> lsStarted s = true -> serves ask startAfter B pos /\ exists kn, buffered s j kn;
  so_new : lsDone s = false -> lsStarted s = false -> lsItems s = [] /\ j = j0 /\ (absent ask \/ exists k0, k0 <= j0 /\
    (after = "" -> k0 = j0) /\ (lsUsed s <> "" -> pos (lsUsed s) = Some k0) /\ page_at B pos k0 (first_page (lsUsed s)));
  so_used : lsUsed s <> "" -> lsDone s = false -> exists ku, pos (lsUsed s) = Some ku /\ ku <= j;
}.

Hypothesis Hserves : offers ask startAfter B pos.
Hypothesis Hsplit : after = "" \/ splits_at B after j0.

(** The entries of a page that starts at [k], where the side is at [j]. *)
Lemma page_from k j m p : raw_items p ≡ₚ take m (drop k B) -> k + m <= length B -> j0 <= j -> (k = j \/ (k < j /\ j = j0 /\ after <> "")) ->
  skip_to after (page_items p) = take (k + m - j) (drop j B).
Proof.
  intros Hraw Hlen Hj Hk. rewrite (page_items_slice B k m p (offers_increasing _ _ _ _ Hserves) Hraw). destruct Hk as [->|(Hlt & -> & Hne)].
  - rewrite (skip_to_none after B j m j0) by tauto. f_equal. lia.
  - destruct Hsplit as [->|Hsp]; [done|]. by rewrite (skip_to_slice after B k m j0) by (done || lia).
Qed.

(** A fetch of the page that starts at [k]. *)
Lemma fetch_ok s j k : j0 <= j <= length B -> lsDone s = false -> (k = j \/ (k < j /\ j = j0 /\ after <> "")) ->
  page_at B pos k (first_page (lsUsed s)) -> (lsUsed s <> "" -> pos (lsUsed s) = Some k) ->
  exists s', fetchListPage ask after startAfter s = Ok (true, s') /\ side_ok s' j /\ lsStarted s' = true /\
    lsMissing s' = lsMissing s /\ (lsDone s' = false -> exists kn, buffered s' j kn /\ k < kn).
Proof.
  intros Hj Hd Hk (p & m & Ha & Hraw & Hlen & Hlast & Hnext) Hu. unfold first_page in Ha. unfold fetchListPage. rewrite Ha.
  assert (serves ask startAfter B pos) as Hsv by (destruct Hserves as [?|[Hab _]]; [done|by rewrite Hab in Ha]).
  set (items := skip_to after (page_items p)).
  assert (items = take (k + m - j) (drop j B)) as Hitems by (apply page_from; [done|done|lia|done]).
  assert (length items = k + m - j) as Hli by (rewrite Hitems, length_take, length_drop; lia).
  eexists. split; [reflexivity|]. rewrite Hd. simpl.
  set (dn := bool_decide (items = []) && bool_decide (next_of p = "")).
  assert (dn = true -> items = [] /\ j = length B) as Hdn.
  { unfold dn. intros [Hi Hn]%andb_true_iff. apply bool_decide_eq_true in Hi, Hn. specialize (Hlast Hn).
    rewrite Hi in Hli. simpl in Hli. split; [done|lia]. }
  assert (dn = false -> buffered (mkSide (lsUsed s) (next_of p) dn true (lsMissing s) items) j (k + m) /\ k < k + m) as Hbu.
  { unfold dn. intros Hf. split.
    - split; simpl; [done|done| |done|]; [destruct Hk as [->|(? & ? & ?)]; [lia|tauto]|]. intros Hn. by apply Hnext.
    - destruct (decide (next_of p = "")) as [En|En]; [|destruct (Hnext En); lia].
      apply andb_false_iff in Hf as [Hf|Hf]; apply bool_decide_eq_false in Hf; [|done]. destruct items; [done|]. simpl in Hli. lia. }
  split_and!; [|done|done|intros Hf; exists (k + m); by apply Hbu]. split; simpl; [done|done|intros Hf _; split; [done|exists (k + m); by apply Hbu]|done|].
  intros Hne _. exists k. split; [by apply Hu|]. destruct Hk as [->|(? & ? & ?)]; lia.
Qed.

(** What [head_] answers: the entry the side is at, first in its buffer. *)
Definition at_head (s : listSide) (j : nat) : Prop := side_ok s j /\ (j < length B -> head (lsItems s) = B !! j /\ lsDone s = false /\ lsStarted s = true) /\ (j = length B -> lsDone s = true).

Lemma done_head fuel s j : side_ok s j -> lsDone s = true -> head_ fuel ask after startAfter s = Some (Ok (B !! j, s)) /\ at_head s j.
Proof.
  intros Hs Hd. destruct (so_done s j Hs Hd) as [Hi ->]. rewrite (proj2 (lookup_ge_None B (length B))) by lia.
  split; [destruct fuel; simpl; by rewrite Hi, Hd|]. split; [done|]. split; [lia|done].
Qed.

Lemma head_started fuel s j kn : side_ok s j -> lsStarted s = true -> lsDone s = false -> buffered s j kn -> length B - kn < fuel ->
  exists s', head_ fuel ask after startAfter s = Some (Ok (B !! j, s')) /\ at_head s' j /\ lsMissing s' = lsMissing s.
Proof.
  revert s kn. induction fuel as [|fuel IH]; [lia|]. intros s kn Hs Hst Hd Hbu Hf. destruct (Hbu) as [Hit Hkn Hlt Hlast Hnext].
  pose proof (so_from s j Hs) as Hj. destruct (decide (j < kn)) as [Hjk|Hjk].
  { destruct (lookup_lt_is_Some_2 B j) as [x Hx]; [lia|]. rewrite (drop_S B x j Hx) in Hit.
    replace (kn - j) with (S (kn - S j)) in Hit by lia. simpl in Hit. exists s. simpl. rewrite Hit, Hx.
    split_and!; [done| |done]. split; [done|]. rewrite Hit, Hx. simpl. split; [done|lia]. }
  replace (kn - j) with 0 in Hit by lia. simpl in Hit. destruct (decide (lsNext s = "")) as [En|En].
  - assert (j = length B) as -> by (specialize (Hlast En); lia). rewrite (proj2 (lookup_ge_None B (length B))) by lia.
    eexists. split; [simpl; rewrite Hit, Hd, Hst, (bool_decide_true (lsNext s = "")) by done; reflexivity|].
    split; [|done]. split; [|simpl; split; [lia|done]]. split; simpl; done.
  - set (s1 := mkSide (lsNext s) (lsNext s) (lsDone s) (lsStarted s) (lsMissing s) (lsItems s)).
    destruct (so_page s j Hs Hd Hst) as [Hsv _].
    destruct (fetch_ok s1 j kn) as (s' & Hfe & Hs' & Hst' & Hm' & Hkn'); [lia|done| | |by intros _; apply Hnext|].
    { destruct (decide (kn = j)) as [|Hn]; [by left|right]. assert (kn < j) as Hkj by lia. destruct (Hlt Hkj). auto. }
    { unfold first_page. simpl. rewrite (bool_decide_false (lsNext s = "")) by done. by apply (sv_next _ _ _ _ Hsv); [|apply Hnext]. }
    assert (head_ (S fuel) ask after startAfter s = head_ fuel ask after startAfter s') as E.
    { simpl. rewrite Hit, Hd, Hst, (bool_decide_false (lsNext s = "")) by done. simpl. unfold s1 in Hfe. rewrite Hit, Hd, Hst in Hfe. by rewrite Hfe. }
    rewrite E. destruct (lsDone s') eqn:Ed'; [exists s'; split; [|split]; [by apply done_head..|done]|].
    destruct (Hkn' eq_refl) as (kn2 & Hbu2 & Hlt2). destruct (IH s' kn2) as (s2 & ? & ? & Hm2); [done|done|done|done|pose proof (bu_next _ _ _ Hbu2); lia|].
    exists s2. split_and!; [done|done|]. by rewrite Hm2.
Qed.

(** [head_] answers the entry the side is at; a cluster without the bucket answers none. *)
Lemma head_ok fuel s j : side_ok s j -> S (length B) < fuel ->
  exists s', head_ fuel ask after startAfter s = Some (Ok (B !! j, s')) /\ at_head s' j /\
    (lsMissing s' = true <-> lsMissing s = true \/ absent ask /\ lsDone s = false).
Proof.
  intros Hs Hf. destruct (lsDone s) eqn:Hd.
  { exists s. split; [|split]; [by apply done_head..|]. split; [tauto|intros [?|[_ ?]]; done]. }
  destruct (lsStarted s) eqn:Hst.
  { destruct (so_page s j Hs Hd Hst) as [Hsv (kn & Hbu)]. destruct (head_started fuel s j kn) as (s' & Hh & Hat & Hm); [done..|lia|].
    exists s'. rewrite Hm. split_and!; [done|done|]. split; [tauto|intros [?|[Hab _]]; [done|]].
    destruct (sv_first _ _ _ _ Hsv) as (p & m & Ha & _). by rewrite Hab in Ha. }
  destruct (so_new s j Hs Hd Hst) as (Hi & -> & [Hab|(k0 & Hk0 & Hk0' & Hu & Hpage)]).
  - destruct Hserves as [Hsv|[_ HB]].
    { destruct (sv_first _ _ _ _ Hsv) as (p & m & Ha & _). by rewrite Hab in Ha. }
    pose proof (so_from s j0 Hs) as Hj. rewrite HB in Hj. simpl in Hj. assert (j0 = 0) as E0 by lia.
    destruct fuel as [|fuel]; [lia|]. eexists. split.
    { simpl. rewrite Hi, Hd, Hst. simpl. unfold fetchListPage. rewrite (Hab _ _), HB, lookup_nil. simpl. reflexivity. }
    split; [|simpl; tauto]. split; [|rewrite HB; simpl; split; [lia|done]]. split; simpl; try done; rewrite HB; simpl; [lia|by rewrite E0].
  - destruct fuel as [|fuel]; [lia|]. pose proof (so_from s j0 Hs) as Hj.
    destruct (fetch_ok s j0 k0) as (s' & Hfe & Hs' & Hst' & Hm' & Hkn'); [done|done| |done|done|].
    { destruct (decide (k0 = j0)) as [|Hn]; [by left|right]. split_and!; [lia|done|]. intros Ha. by apply Hn, Hk0'. }
    assert (head_ (S fuel) ask after startAfter s = head_ fuel ask after startAfter s') as E by (simpl; by rewrite Hi, Hd, Hst, Hfe).
    assert (~ absent ask) as Hnab by (destruct Hpage as (p & m & Ha & _); intros Hab; unfold first_page in Ha; by rewrite Hab in Ha).
    rewrite E. destruct (lsDone s') eqn:Hd'.
    { exists s'. split; [|split]; [by apply done_head..|]. rewrite Hm'. tauto. }
    destruct (Hkn' eq_refl) as (kn & Hbu & Hlt). destruct (head_started fuel s' j0 kn) as (s2 & Hh & Hat & Hm2); [done|done|done|done|lia|].
    exists s2. rewrite Hm2, Hm'. split_and!; [done|done|]. tauto.
Qed.

(** Taking the entry moves the side on. *)
Lemma pop_ok s j : at_head s j -> j < length B -> side_ok (pop s) (S j).
Proof.
  intros (Hs & Hh & _) Hlt. destruct (Hh Hlt) as (Hhd & Hd & Hst). destruct (so_page s j Hs Hd Hst) as [Hsv (kn & [Hit Hkn Hsk Hl Ht])].
  pose proof (so_from s j Hs). destruct (lookup_lt_is_Some_2 B j Hlt) as [x Hx]. assert (j < kn) as Hjk.
  { destruct (decide (j < kn)); [done|]. rewrite Hit in Hhd. replace (kn - j) with 0 in Hhd by lia. simpl in Hhd. congruence. }
  split; simpl; [lia|congruence| |congruence|].
  - intros _ _. split; [done|]. exists kn. split; simpl; [|done|lia|done|done]. rewrite Hit, (drop_S B x j Hx).
    by replace (kn - j) with (S (kn - S j)) by lia.
  - intros Hu _. destruct (so_used s j Hs Hu Hd) as (ku & ? & ?). exists ku. split; [done|lia].
Qed.

(** The missing mark of a side that began with the done mark [d]. *)
Definition missing_ok (d : bool) (s : listSide) : Prop :=
  (lsMissing s = true -> absent ask /\ d = false) /\ (lsDone s = false -> d = false) /\
  (absent ask -> d = false -> lsDone s = true -> lsMissing s = true).

Lemma head_next fuel d s j : side_ok s j -> missing_ok d s -> S (length B) < fuel ->
  exists s', head_ fuel ask after startAfter s = Some (Ok (B !! j, s')) /\ at_head s' j /\ missing_ok d s'.
Proof.
  intros Hs (M1 & M2 & M3) Hf. destruct (head_ok fuel s j Hs Hf) as (s' & Hh & Hat & Hm). exists s'. split_and!; [done|done|].
  assert (lsDone s = true -> lsDone s' = true) as Hdd by (intros Hd; by apply Hat, (so_done s j Hs Hd)).
  split_and!.
  - intros [?|[? ?]]%Hm; [by apply M1|]. auto.
  - intros Hf'. apply M2. by destruct (lsDone s); [rewrite Hdd in Hf'|].
  - intros Hab Hd Hd'. apply Hm. destruct (lsDone s) eqn:E; [left; auto|by right].
Qed.

(** Both heads at the end say whether the bucket was missing. *)
Lemma missing_head d s j : at_head s j -> missing_ok d s -> lsMissing s = true <-> absent ask /\ d = false.
Proof.
  intros (Hs & _ & Hend) (M1 & M2 & M3). split; [done|]. intros [Hab Hd]. apply M3; [done..|]. apply Hend.
  destruct Hserves as [Hsv|[_ HB]]; [destruct (sv_first _ _ _ _ Hsv) as (p & m & Ha & _); by rewrite Hab in Ha|].
  pose proof (so_from s j Hs). rewrite HB in *. simpl in *. lia.
Qed.

End Side.

(** A token's side picks up where the page left it. *)
Lemma resume_ok ask B pos after startAfter j0 s j after' : offers ask startAfter B pos -> at_head ask B pos after startAfter j0 s j ->
  after' <> "" -> String.le startAfter after' -> splits_at B after' j ->
  side_ok ask B pos after' startAfter j (new_side (lsUsed s) (lsDone s)) j.
Proof.
  intros Hof (Hs & Hh & Hend) Hne Hle Hsp. pose proof (so_from _ _ _ _ _ _ _ _ Hs) as Hj. split; simpl; [lia| |done| |apply Hs].
  { intros Hd. split; [done|]. by apply Hs. }
  intros Hd _. split_and!; [done|done|]. destruct Hof as [Hsv|[Hab _]]; [right|by left]. unfold first_page.
  destruct (decide (lsUsed s = "")) as [Eu|Eu].
  - destruct (sv_after _ _ _ _ Hsv after' Hne Hle) as (k & Hpage & Hk). exists k.
    rewrite Eu, (bool_decide_false (after' = "")) by done. simpl. split_and!; [|done|done|done].
    destruct (decide (k <= j)); [done|]. destruct Hpage as (p & m & _ & _ & Hlen & _).
    destruct (lookup_lt_is_Some_2 B j) as [x Hx]; [lia|]. destruct (proj2 Hsp j x Hx) as [Hax Hxa]; [done|].
    destruct Hxa. apply (anti_symm String.le); [done|]. apply (Hk j); [done|lia].
  - destruct (so_used _ _ _ _ _ _ _ _ Hs Eu Hd) as (ku & Hpos & Hku). exists ku. rewrite (bool_decide_false (lsUsed s = "")) by done.
    split_and!; [done|done|done|]. by apply (sv_next _ _ _ _ Hsv).
Qed.

(** ** The merge *)

(** Both buckets' entries in one order, the primary's entry for a name they share. *)
Fixpoint merge2 (P : list listItem) : list listItem -> list listItem :=
  fix go S :=
    match P, S with
    | [], _ => S
    | _, [] => P
    | p :: P', s :: S' =>
        if str_ltb (liName p) (liName s) then p :: merge2 P' S
        else if str_ltb (liName s) (liName p) then s :: go S'
        else p :: merge2 P' S'
    end.

(** No name before [jp] in [P] comes after one from [js] in [S]. *)
Definition before (P S : list listItem) (jp js : nat) : Prop :=
  forall i j x y, P !! i = Some x -> S !! j = Some y -> i < jp -> js <= j -> String.le (liName x) (liName y).

Lemma splits_at_le B j it it' : increasing B -> B !! j = Some it -> lt_name it' (liName it) ->
  (forall i x, B !! i = Some x -> i < j -> String.le (liName x) it') -> splits_at B it' j.
Proof.
  intros Hinc Hj Hlt Hle. split; [done|]. intros i x Hx Hi. destruct (decide (i = j)) as [->|Hne]; [by simplify_eq|].
  eapply lt_name_trans; [done|]. eapply (Hinc j i); [lia|done|done].
Qed.

Lemma splits_at_S B j it : increasing B -> B !! j = Some it -> splits_at B (liName it) (S j).
Proof.
  intros Hinc Hj. split; intros i x Hx Hi.
  - destruct (decide (i = j)) as [->|Hne]; [by simplify_eq|]. by destruct (Hinc i j x it) as [? _]; [lia|..].
  - eapply (Hinc j i); [lia|done|done].
Qed.

Lemma splits_at_end B j a : B !! j = None -> (forall i x, B !! i = Some x -> i < j -> String.le (liName x) a) -> splits_at B a j.
Proof. intros Hj Hle. split; [done|]. intros i x Hx Hi. apply lookup_ge_None in Hj. apply lookup_lt_Some in Hx. lia. Qed.

Lemma splits_before P S a jp js : splits_at P a jp -> splits_at S a js -> before P S jp js.
Proof. intros [H1 _] [_ H2] i j x y Hx Hy Hi Hj. trans a; [by eapply H1|]. by destruct (H2 j y Hy Hj). Qed.

Section Two.
Context (askP askS : backend_fn) (BP BS : list listItem) (posP posS : string -> option nat) (after startAfter : string) (j0p j0s : nat).
Hypothesis HP : offers askP startAfter BP posP.
Hypothesis HS : offers askS startAfter BS posS.
Hypothesis HsP : after = "" \/ splits_at BP after j0p.
Hypothesis HsS : after = "" \/ splits_at BS after j0s.

Let okP := side_ok askP BP posP after startAfter j0p.
Let okS := side_ok askS BS posS after startAfter j0s.

Definition rest (jp js : nat) : list listItem := merge2 (drop jp BP) (drop js BS).

(** The name last taken, when there is one, lies between what was taken and what is left. *)
Definition taken (emitted : list listItem) (jp js : nat) : Prop :=
  before BP BS jp js /\ before BS BP js jp /\
  forall it, last emitted = Some it -> splits_at BP (liName it) jp /\ splits_at BS (liName it) js /\ (it ∈ BP \/ it ∈ BS).

(** One round: the next entry of the merge and where the sides are after it. *)
Definition round (jp js : nat) : option (listItem * nat * nat) :=
  match BP !! jp, BS !! js with
  | None, None => None
  | Some p, None => Some (p, S jp, js)
  | None, Some s => Some (s, jp, S js)
  | Some p, Some s =>
      if str_ltb (liName p) (liName s) then Some (p, S jp, js)
      else if str_ltb (liName s) (liName p) then Some (s, jp, S js)
      else Some (p, S jp, S js)
  end.

Lemma drop_None {A} (l : list A) j : l !! j = None -> drop j l = [].
Proof. intros H. apply drop_ge. by apply lookup_ge_None. Qed.

Lemma merge2_nil_r P : merge2 P [] = P.
Proof. by destruct P. Qed.

Lemma merge2_nil_l S : merge2 [] S = S.
Proof. by destruct S. Qed.

Lemma round_rest jp js : rest jp js = match round jp js with Some (it, jp', js') => it :: rest jp' js' | None => [] end.
Proof.
  unfold rest, round. destruct (BP !! jp) as [p|] eqn:Ep, (BS !! js) as [s|] eqn:Es.
  - rewrite (drop_S BP p jp Ep), (drop_S BS s js Es). simpl.
    destruct (str_ltb (liName p) (liName s)); [by rewrite (drop_S BS s js Es)|].
    destruct (str_ltb (liName s) (liName p)); [by rewrite (drop_S BP p jp Ep)|done].
  - rewrite (drop_None BS js Es), !merge2_nil_r. by apply drop_S.
  - rewrite (drop_None BP jp Ep), !merge2_nil_l. by apply drop_S.
  - by rewrite (drop_None BP jp Ep), (drop_None BS js Es).
Qed.

Lemma not_ltb_le a b : str_ltb a b = false -> String.le b a.
Proof. unfold str_ltb. rewrite negb_false_iff. apply leb_le. Qed.

Lemma round_taken emitted jp js it jp' js' : taken emitted jp js -> round jp js = Some (it, jp', js') -> taken (emitted ++ [it]) jp' js'.
Proof.
  intros (Hps & Hsp & _) Hr. assert (increasing BP) as IP by by eapply offers_increasing. assert (increasing BS) as IS by by eapply offers_increasing.
  assert (splits_at BP (liName it) jp' /\ splits_at BS (liName it) js' /\ (it ∈ BP \/ it ∈ BS)) as (H1 & H2 & H3).
  { assert (forall p, BP !! jp = Some p -> forall i x, BS !! i = Some x -> i < js -> String.le (liName x) (liName p)) as HleP
      by (intros p Hp i x Hx Hi; by eapply Hsp).
    assert (forall s, BS !! js = Some s -> forall i x, BP !! i = Some x -> i < jp -> String.le (liName x) (liName s)) as HleS
      by (intros s Hs i x Hx Hi; by eapply Hps).
    unfold round in Hr. destruct (BP !! jp) as [p|] eqn:Ep, (BS !! js) as [s|] eqn:Es; simplify_eq.
    - destruct (str_ltb (liName p) (liName s)) eqn:E1; simplify_eq.
      { apply str_ltb_lt in E1. split_and!; [by apply splits_at_S|by eapply splits_at_le; [..|apply HleP]|left; by eapply list_elem_of_lookup_2]. }
      destruct (str_ltb (liName s) (liName p)) eqn:E2; simplify_eq.
      { apply str_ltb_lt in E2. split_and!; [by eapply splits_at_le; [..|apply HleS]|by apply splits_at_S|right; by eapply list_elem_of_lookup_2]. }
      apply not_ltb_le in E1, E2. assert (liName it = liName s) as E by by apply (anti_symm String.le).
      split_and!; [by apply splits_at_S|rewrite E; by apply splits_at_S|left; by eapply list_elem_of_lookup_2].
    - split_and!; [by apply splits_at_S|by apply splits_at_end; [|apply HleP]|left; by eapply list_elem_of_lookup_2].
    - split_and!; [by apply splits_at_end; [|apply HleS]|by apply splits_at_S|right; by eapply list_elem_of_lookup_2]. }
  split_and!; [by eapply splits_before|by eapply splits_before|]. intros it'. rewrite last_snoc. by intros [= <-].
Qed.

Let headP := head_next askP BP posP after startAfter j0p HP HsP.
Let headS := head_next askS BS posS after startAfter j0s HS HsS.

(** The loop takes the next [n] entries of the merge. *)
Lemma merge_loop_ok fuel dp ds n ps ss emitted jp js : okP ps jp -> okS ss js -> missing_ok askP dp ps -> missing_ok askS ds ss ->
  taken emitted jp js -> S (length BP) < fuel -> S (length BS) < fuel ->
  exists ended ps' ss' jp' js', merge_loop fuel askP askS after startAfter n ps ss emitted = Some (Ok (emitted ++ take n (rest jp js), ended, ps', ss')) /\
    okP ps' jp' /\ okS ss' js' /\ missing_ok askP dp ps' /\ missing_ok askS ds ss' /\ taken (emitted ++ take n (rest jp js)) jp' js' /\
    rest jp' js' = drop n (rest jp js).
Proof.
  intros Hp Hs Mp Ms Ht Fp Fs. revert ps ss emitted jp js Hp Hs Mp Ms Ht. induction n as [|n IH]; intros ps ss emitted jp js Hp Hs Mp Ms Ht.
  { exists false, ps, ss, jp, js. rewrite take_0, app_nil_r. by split_and!. }
  simpl merge_loop. destruct (headP fuel dp ps jp Hp Mp Fp) as (ps1 & -> & Ap & Mp1).
  destruct (headS fuel ds ss js Hs Ms Fs) as (ss1 & -> & As & Ms1).
  pose proof (round_rest jp js) as Hr. pose proof (round_taken emitted jp js) as Hrt. pose proof (proj1 Ap) as Hp1. pose proof (proj1 As) as Hs1.
  assert (forall p, BP !! jp = Some p -> okP (pop ps1) (S jp)) as Pp.
  { intros p E. eapply pop_ok; [done|by eapply lookup_lt_Some]. }
  assert (forall p, BS !! js = Some p -> okS (pop ss1) (S js)) as Ps.
  { intros p E. eapply pop_ok; [done|by eapply lookup_lt_Some]. }
  assert (forall it jp' js' ps2 ss2, round jp js = Some (it, jp', js') -> okP ps2 jp' -> okS ss2 js' ->
    missing_ok askP dp ps2 -> missing_ok askS ds ss2 ->
    exists ended ps' ss' jp2 js2, merge_loop fuel askP askS after startAfter n ps2 ss2 (emitted ++ [it]) = Some (Ok (emitted ++ take (S n) (rest jp js), ended, ps', ss')) /\
    okP ps' jp2 /\ okS ss' js2 /\ missing_ok askP dp ps' /\ missing_ok askS ds ss' /\ taken (emitted ++ take (S n) (rest jp js)) jp2 js2 /\
    rest jp2 js2 = drop (S n) (rest jp js)) as Hgo.
  { intros it jp' js' ps2 ss2 E H1 H2 H3 H4. rewrite E in Hr. rewrite Hr. simpl.
    destruct (IH ps2 ss2 (emitted ++ [it]) jp' js' H1 H2 H3 H4 (Hrt _ _ _ Ht E)) as (en & ps' & ss' & jp2 & js2 & Hm & Hrest).
    rewrite <- app_assoc in Hm, Hrest. simpl in Hm, Hrest. by exists en, ps', ss', jp2, js2. }
  unfold round in Hgo, Hr. destruct (BP !! jp) as [p|] eqn:Ep, (BS !! js) as [s|] eqn:Es.
  - destruct (str_ltb (liName p) (liName s)); [by eapply Hgo; eauto|]. destruct (str_ltb (liName s) (liName p)); by eapply Hgo; eauto.
  - by eapply Hgo; eauto.
  - by eapply Hgo; eauto.
  - rewrite Hr. simpl. rewrite app_nil_r. exists true, ps1, ss1, jp, js. by split_and!.
Qed.

End Two.

(** ** Pages and tokens *)

Section Pages.
Context (askP askS : backend_fn) (BP BS : list listItem) (posP posS : string -> option nat) (startAfter : string).
Hypothesis HP : offers askP startAfter BP posP.
Hypothesis HS : offers askS startAfter BS posS.

(** A token from which the listing goes on at entry [jp] of the primary and [js] of the source. *)
Record token_ok (tok : mergeToken) (jp js : nat) : Prop := {
  tk_primary : side_ok askP BP posP (tkLast tok) startAfter jp (new_side (tkP tok) (tkPD tok)) jp;
  tk_source : side_ok askS BS posS (tkLast tok) startAfter js (new_side (tkS tok) (tkSD tok)) js;
  tk_last : tkLast tok = "" \/ splits_at BP (tkLast tok) jp /\ splits_at BS (tkLast tok) js;
  tk_before : before BP BS jp js /\ before BS BP js jp;
}.

(** Neither cluster holds the bucket, and the token does not say the listing began. *)
Definition nowhere (tok : mergeToken) : Prop := (absent askP /\ tkPD tok = false) /\ (absent askS /\ tkSD tok = false).

Lemma new_missing ask used d : missing_ok ask d (new_side used d).
Proof. split; [done|]. split; [done|]. simpl. intros _ -> ?. done. Qed.

Lemma zero_token_ok : token_ok zeroToken 0 0.
Proof.
  assert (forall ask B pos, offers ask startAfter B pos -> side_ok ask B pos "" startAfter 0 (new_side "" false) 0) as H.
  { intros ask B pos Hof. split; simpl; [lia|done|done| |done]. intros _ _. split_and!; [done|done|].
    destruct Hof as [Hsv|[Hab _]]; [right|by left]. exists 0. split_and!; [done|done|done|]. apply Hsv. }
  split; [by apply H|by apply H|by left|]. split; intros i j x y _ _ Hi; lia.
Qed.

Lemma offered_name ask B pos x : offers ask startAfter B pos -> x ∈ B -> liName x <> "" /\ String.le startAfter (liName x).
Proof. intros [Hsv|[_ ->]] Hx; [by apply (sv_names _ _ _ _ Hsv)|]. by apply elem_of_nil in Hx. Qed.

(** A page: the next entries of the merge, and a token for what is left. *)
Lemma page_ok fuel maxKeys tok jp js : token_ok tok jp js -> S (length BP) < fuel -> S (length BS) < fuel ->
  let n := page_size maxKeys in let M := rest BP BS jp js in
  (nowhere tok -> mergeListing fuel askP askS startAfter maxKeys tok = Some LNoSuchBucket) /\
  (~ nowhere tok -> exists next size, mergeListing fuel askP askS startAfter maxKeys tok = Some (LPage (take n M) (bool_decide (drop n M <> [])) next size) /\
    (0 < n -> drop n M <> [] -> exists t jp' js', next = Some t /\ token_ok t jp' js' /\ rest BP BS jp' js' = drop n M)).
Proof.
  intros [Tp Ts Tl [Tb1 Tb2]] Fp Fs n M. unfold mergeListing. cbv zeta. fold n. set (after := tkLast tok) in *.
  assert (after = "" \/ splits_at BP after jp) as LP by tauto. assert (after = "" \/ splits_at BS after js) as LS by tauto.
  destruct (merge_loop_ok askP askS BP BS posP posS after startAfter jp js HP HS LP LS fuel (tkPD tok) (tkSD tok) n _ _ [] jp js
    Tp Ts (new_missing _ _ _) (new_missing _ _ _)) as (ended & ps & ss & jp1 & js1 & Hm & Hp & Hs & Mp & Ms & Ht & Hrest); [by split_and!|done|done|].
  simpl app in Hm, Ht. rewrite Hm. clear Hm.
  destruct (head_next askP BP posP after startAfter jp HP LP fuel _ ps jp1 Hp Mp Fp) as (ps1 & -> & Ap & Mp1).
  destruct (head_next askS BS posS after startAfter js HS LS fuel _ ss js1 Hs Ms Fs) as (ss1 & -> & As & Ms1).
  assert (lsMissing ps1 = true <-> absent askP /\ tkPD tok = false) as Wp by by eapply missing_head.
  assert (lsMissing ss1 = true <-> absent askS /\ tkSD tok = false) as Ws by by eapply missing_head.
  split.
  { intros [N1 N2]. by rewrite (proj2 Wp N1), (proj2 Ws N2). }
  intros Hnot. assert (lsMissing ps1 && lsMissing ss1 = false) as ->.
  { apply not_true_iff_false. intros [Hmp Hms]%andb_true_iff. apply Hnot. split; tauto. }
  assert (bool_decide (is_Some (BP !! jp1)) || bool_decide (is_Some (BS !! js1)) = bool_decide (drop n M <> [])) as ->.
  { unfold M. rewrite <- Hrest, (round_rest BP BS jp1 js1). unfold round.
    destruct (BP !! jp1), (BS !! js1); try done. by repeat case_match. }
  fold M. eexists _, _. split; [reflexivity|]. intros Hn Hd. rewrite bool_decide_true by done.
  destruct (last (take n M)) as [it|] eqn:Elast.
  2: { apply last_None in Elast. destruct n as [|n']; [lia|]. by destruct M. }
  destruct Ht as (_ & _ & Ht). destruct (Ht it Elast) as (SP & SS & Hin).
  assert (liName it <> "" /\ String.le startAfter (liName it)) as [Hne Hle] by (destruct Hin; [by apply (offered_name askP BP posP)|by apply (offered_name askS BS posS)]).
  exists (mkToken (lsUsed ps1) (lsDone ps1) (lsUsed ss1) (lsDone ss1) (liName it)), jp1, js1. split; [done|]. split; [|done].
  split; simpl; [by eapply resume_ok|by eapply resume_ok|by right|]. split; by eapply splits_before.
Qed.

(** A client that follows the tokens, for at most so many pages. *)
Fixpoint list_all (pages fuel : nat) (maxKeys : option nat) (tok : mergeToken) : option (list listItem) :=
  match pages with
  | O => None
  | S pages =>
      match mergeListing fuel askP askS startAfter maxKeys tok with
      | Some (LPage items false _ _) => Some items
      | Some (LPage items true (Some t) _) => app items <$> list_all pages fuel maxKeys t
      | _ => None
      end
  end.

Lemma list_all_ok pages fuel maxKeys tok jp js : token_ok tok jp js -> S (length BP) < fuel -> S (length BS) < fuel ->
  0 < page_size maxKeys -> ~ (absent askP /\ absent askS) -> length (rest BP BS jp js) < pages ->
  list_all pages fuel maxKeys tok = Some (rest BP BS jp js).
Proof.
  intros Ht Fp Fs Hn Hab. revert tok jp js Ht. induction pages as [|pages IH]; [lia|]. intros tok jp js Ht Hlen. simpl.
  destruct (page_ok fuel maxKeys tok jp js Ht Fp Fs) as [_ Hpage].
  destruct Hpage as (next & size & -> & Hnext); [intros [[? _] [? _]]; tauto|].
  set (M := rest BP BS jp js) in *. set (n := page_size maxKeys) in *. destruct (bool_decide (drop n M <> [])) eqn:Ed.
  - apply bool_decide_eq_true in Ed. destruct (Hnext Hn Ed) as (t & jp' & js' & -> & Ht' & Hr).
    rewrite (IH t jp' js' Ht'), Hr; [simpl; by rewrite take_drop|]. rewrite Hr, length_drop.
    destruct M; [by rewrite drop_nil in Ed|]. simpl in *. lia.
  - apply bool_decide_eq_false in Ed. f_equal. destruct (drop n M) eqn:E; [|by destruct Ed].
    rewrite <- (take_drop n M) at 2. by rewrite E, app_nil_r.
Qed.

End Pages.

(** ** What the merge is *)

Definition name_lt (a b : listItem) : Prop := lt_name (liName a) (liName b).

Lemma increasing_sorted B : increasing B <-> StronglySorted name_lt B.
Proof.
  split.
  - intros H. apply (increasing_slice B 0 (length B)) in H. by rewrite drop_0, firstn_all in H.
  - induction 1 as [|a l _ IH Ha]; intros i j x y Hij Hx Hy; [by rewrite lookup_nil in Hx|].
    destruct j as [|j]; [lia|]. destruct i as [|i]; simpl in *; [|by apply (IH i j); [lia|..]]. simplify_eq. by eapply (Forall_lookup_1 _ _ _ _ Ha).
Qed.

Lemma ltb_cases a b : (str_ltb (liName a) (liName b) = true /\ name_lt a b) \/
  (str_ltb (liName a) (liName b) = false /\ str_ltb (liName b) (liName a) = true /\ name_lt b a) \/
  (str_ltb (liName a) (liName b) = false /\ str_ltb (liName b) (liName a) = false /\ liName a = liName b).
Proof.
  unfold name_lt. rewrite <- !str_ltb_lt.
  destruct (str_ltb (liName a) (liName b)) eqn:E1; [by left|right]. destruct (str_ltb (liName b) (liName a)) eqn:E2; [by left|right].
  split_and!; [done|done|]. apply not_ltb_le in E1, E2. by apply (anti_symm String.le).
Qed.

Lemma merge2_cons p P s S : merge2 (p :: P) (s :: S) =
  if str_ltb (liName p) (liName s) then p :: merge2 P (s :: S)
  else if str_ltb (liName s) (liName p) then s :: merge2 (p :: P) S else p :: merge2 P S.
Proof. done. Qed.

Lemma merge2_Forall (Q : listItem -> Prop) P : Forall Q P -> forall S, Forall Q S -> Forall Q (merge2 P S).
Proof.
  induction 1 as [|p P Hp HP IHP]; [intros S; by rewrite merge2_nil_l|]. induction 1 as [|s S Hs HS IHS]; [by constructor|].
  rewrite merge2_cons. repeat case_match; constructor; auto.
Qed.

Lemma above_all a b l : name_lt a b -> Forall (name_lt b) l -> Forall (name_lt a) l.
Proof. intros H Hl. eapply Forall_impl; [exact Hl|]. intros c. unfold name_lt. by apply lt_name_trans. Qed.

Lemma merge2_sorted P : StronglySorted name_lt P -> forall S, StronglySorted name_lt S -> StronglySorted name_lt (merge2 P S).
Proof.
  induction 1 as [|p P HP IHP Hp]; [intros S; by rewrite merge2_nil_l|]. induction 1 as [|s S HS IHS Hs]; [by constructor|].
  rewrite merge2_cons. destruct (ltb_cases p s) as [[-> Hlt]|[(-> & -> & Hlt)|(-> & -> & Heq)]]; constructor; auto.
  - apply IHP. by constructor.
  - apply merge2_Forall; [done|]. constructor; [done|]. by eapply above_all.
  - apply merge2_Forall; [|done]. constructor; [done|]. by eapply above_all.
  - apply merge2_Forall; [done|]. eapply Forall_impl; [exact Hs|]. intros c. unfold name_lt. by rewrite Heq.
Qed.

Lemma merge2_length P S : length (merge2 P S) <= length P + length S.
Proof.
  revert S. induction P as [|p P IHP]; intros S; [by rewrite merge2_nil_l|]. induction S as [|s S IHS]; [simpl; lia|].
  rewrite merge2_cons. specialize (IHP (s :: S)) as H1. specialize (IHP S) as H2. simpl in *. repeat case_match; simpl; lia.
Qed.

(** The primary's entries, and the source's whose name the primary does not hold. *)
Definition prefers (P S : list listItem) (x : listItem) : Prop := x ∈ P \/ x ∈ S /\ forall y, y ∈ P -> liName y <> liName x.

Lemma lt_ne a b l : name_lt a b -> Forall (name_lt b) l -> forall y, y ∈ b :: l -> liName y <> liName a.
Proof.
  intros Hab Hl y Hy E. assert (name_lt a y) as [_ H]; [|congruence].
  apply elem_of_cons in Hy as [->|Hy]; [done|]. rewrite Forall_forall in Hl. eapply lt_name_trans; [done|by apply Hl].
Qed.

Lemma merge2_elem P : StronglySorted name_lt P -> forall S, StronglySorted name_lt S -> forall x, x ∈ merge2 P S <-> prefers P S x.
Proof.
  unfold prefers. induction 1 as [|p P HP IHP Hp].
  { intros S _ x. rewrite merge2_nil_l. set_solver. }
  induction 1 as [|s S HS IHS Hs]; intros x; [set_solver|].
  rewrite merge2_cons. destruct (ltb_cases p s) as [[-> Hlt]|[(-> & -> & Hlt)|(-> & -> & Heq)]]; rewrite elem_of_cons.
  - rewrite IHP by by constructor. pose proof (lt_ne p s S Hlt Hs). set_solver.
  - rewrite IHS. pose proof (lt_ne s p P Hlt Hp). set_solver.
  - rewrite IHP by done. assert (forall y, y ∈ S -> liName y <> liName p) as Hn.
    { intros y Hy E. rewrite Forall_forall in Hs. destruct (Hs y Hy) as [_ H]. congruence. }
    set_solver.
Qed.
End Listing.

Arguments listItem : clear implicits.
Arguments page : clear implicits.
Arguments answer : clear implicits.
Arguments backend_fn : clear implicits.
Arguments listing : clear implicits.

(** C30: while a bucket migrates, a client that follows the continuation tokens of the merged listing, at any page size of at least one key, gets every name of either cluster exactly once and in order, with the primary's entry for a name both hold; it takes no more pages than there are names, plus one. *)
Theorem merged_listing_complete {obj} (askP askS : backend_fn obj) BP BS posP posS startAfter maxKeys pages fuel :
  offers askP startAfter BP posP -> offers askS startAfter BS posS -> ~ (absent askP /\ absent askS) -> 0 < page_size maxKeys ->
  length BP + length BS < pages -> length BP + length BS + 1 < fuel ->
  exists M, list_all askP askS startAfter pages fuel maxKeys zeroToken = Some M /\ increasing M /\ forall x, x ∈ M <-> prefers BP BS x.
Proof.
  intros HP HS Hab Hn Hpages Hfuel.
  assert (increasing BP) as IP by by eapply offers_increasing.
  assert (increasing BS) as IS by by eapply offers_increasing.
  exists (merge2 BP BS). split_and!.
  - assert (rest BP BS 0 0 = merge2 BP BS) as Er by (unfold rest; by rewrite !drop_0). rewrite <- Er.
    apply (list_all_ok askP askS BP BS posP posS startAfter HP HS); [by apply zero_token_ok|lia|lia|done|done|].
    rewrite Er. pose proof (merge2_length BP BS). lia.
  - apply increasing_sorted, merge2_sorted; by apply increasing_sorted.
  - apply merge2_elem; by apply increasing_sorted.
Qed.

(** The first page of a merged listing whose first read of the primary fails, or of the source when the primary is absent, is answered as an error; and a bucket neither cluster holds is answered as missing. *)
Theorem merged_listing_errors {obj} (askP askS : backend_fn obj) startAfter maxKeys fuel :
  (askP "" startAfter = AFail -> mergeListing (S fuel) askP askS startAfter maxKeys zeroToken = Some LError) /\
  (absent askP -> askS "" startAfter = AFail -> mergeListing (S fuel) askP askS startAfter maxKeys zeroToken = Some LError) /\
  (absent askP -> absent askS -> mergeListing (S (S fuel)) askP askS startAfter maxKeys zeroToken = Some LNoSuchBucket).
Proof.
  assert (forall ask : backend_fn obj, absent ask -> forall f, head_ (S f) ask "" startAfter (new_side "" false) = Some (Ok (None, mkSide "" "" true false true []))) as Hh
    by (intros ask Hab f; simpl; unfold fetchListPage; by rewrite Hab).
  split_and!.
  - intros Hf. unfold mergeListing, zeroToken. cbn [tkP tkPD tkS tkSD tkLast].
    assert (forall f, head_ (S f) askP "" startAfter (new_side "" false) = Some (Err ())) as Hp by (intros f; simpl; unfold fetchListPage; simpl; by rewrite Hf).
    destruct (page_size maxKeys) as [|n]; cbn [merge_loop]; by rewrite Hp.
  - intros Hab Hf. unfold mergeListing, zeroToken. cbn [tkP tkPD tkS tkSD tkLast].
    assert (forall f, head_ (S f) askS "" startAfter (new_side "" false) = Some (Err ())) as Hs by (intros f; simpl; unfold fetchListPage; simpl; by rewrite Hf).
    destruct (page_size maxKeys) as [|n]; cbn [merge_loop]; by rewrite (Hh askP Hab), Hs.
  - intros Hp Hs. unfold mergeListing, zeroToken. cbn [tkP tkPD tkS tkSD tkLast].
    destruct (page_size maxKeys) as [|n]; cbn [merge_loop]; by rewrite (Hh askP Hp), (Hh askS Hs).
Qed.

(** ** A backend to try it on *)

Section Toy.
Context (B : list string) (size : nat).
Hypothesis Hsize : 0 < size.
Hypothesis Hinc : StronglySorted lt_name B.
Hypothesis Hnames : Forall (fun n => n <> "" /\ DecodeListingKey n = n) B.

Definition toy_items : list (listItem nat) := (fun n => mkItem n false (Some (String.length n))) <$> B.
Fixpoint toy_token (k : nat) : string := match k with S k => String "x" (toy_token k) | O => "" end.
Definition toy_pos (tok : string) : option nat := if (String.length tok <=? length B)%nat then Some (String.length tok) else None.
Fixpoint toy_lead (start : string) (l : list string) : nat :=
  match l with n :: l => if String.leb n start then S (toy_lead start l) else 0 | [] => 0 end.

Definition toy_page (k : nat) : answer nat :=
  APage (mkPage ((fun n => (Some n, String.length n)) <$> take size (drop k B)) [] (Some (k + size <? length B)%nat) (Some (toy_token (k + size)))).
Definition toy : backend_fn nat := fun tok start =>
  if bool_decide (tok = "") then toy_page (toy_lead start B) else toy_page (String.length tok).

Lemma toy_token_length k : String.length (toy_token k) = k.
Proof. induction k; simpl; [done|]. by f_equal. Qed.

Lemma toy_raw l : Forall (fun n => n <> "" /\ DecodeListingKey n = n) l ->
  omap (fun c : option string * nat => (fun k => mkItem (DecodeListingKey k) false (Some c.2)) <$> c.1) ((fun n => (Some n, String.length n)) <$> l) =
  (fun n => mkItem n false (Some (String.length n))) <$> l.
Proof. induction 1 as [|n l [_ Hn] _ IH]; [done|]. simpl. rewrite Hn. f_equal. exact IH. Qed.

Lemma toy_page_at k : k <= length B -> page_at toy_items toy_pos k (toy_page k).
Proof.
  intros Hk. eexists _, (min size (length B - k)). split; [reflexivity|]. assert (length toy_items = length B) as El by by apply length_fmap.
  split; [|split].
  - unfold raw_items. simpl. rewrite app_nil_r, toy_raw by by apply Forall_take, Forall_drop. unfold toy_items. rewrite fmap_take, fmap_drop.
    rewrite <- (take_ge (drop k _) (length B - k)) at 1 by (rewrite length_drop, length_fmap; lia). rewrite take_take. done.
  - lia.
  - unfold next_of. simpl. destruct (Nat.ltb_spec (k + size) (length B)) as [Hlt|Hge].
    + split; [|intros _; unfold toy_pos; rewrite toy_token_length; split; [lia|]].
      * intros E. apply (f_equal String.length) in E. rewrite toy_token_length in E. simpl in E. lia.
      * destruct (Nat.leb_spec (k + size) (length B)); [f_equal; lia|lia].
    + split; [lia|done].
Qed.

Lemma toy_lead_le start l i x : l !! i = Some x -> i < toy_lead start l -> String.le x start.
Proof.
  revert i. induction l as [|n l IH]; intros i Hx Hi; [done|]. simpl in Hi. destruct (String.leb n start) eqn:E; [|lia].
  destruct i as [|i]; simpl in *; [|apply (IH i); [done|lia]]. simplify_eq. by apply leb_le.
Qed.

Lemma toy_lead_length start l : toy_lead start l <= length l.
Proof. induction l; simpl; [done|]. case_match; lia. Qed.

Lemma toy_serves : serves toy "" toy_items toy_pos.
Proof.
  assert (forall start, page_at toy_items toy_pos (toy_lead start B) (toy "" start)) as Hst by (intros start; apply toy_page_at, toy_lead_length).
  split.
  - apply increasing_sorted. unfold toy_items. clear Hnames Hst. induction Hinc as [|n l Hl IH Hn]; [constructor|]. rewrite fmap_cons.
    constructor; [by apply IH|]. by apply Forall_fmap.
  - intros x [n [-> Hn]]%list_elem_of_fmap. simpl. rewrite Forall_forall in Hnames. split; [by apply Hnames|]. apply leb_le. by destruct n.
  - assert (toy_lead "" B = 0) as E.
    { destruct B as [|n l]; [done|]. simpl. apply Forall_cons in Hnames as [[Hn _] _]. by destruct n. }
    rewrite <- E at 1. apply Hst.
  - intros after _ _. exists (toy_lead after B). split; [apply Hst|]. intros i x Hx. unfold toy_items in Hx. rewrite list_lookup_fmap in Hx.
    destruct (B !! i) as [n|] eqn:E; [|done]. simplify_eq/=. by apply toy_lead_le.
  - intros tok k Hne. unfold toy_pos. destruct (Nat.leb_spec (String.length tok) (length B)) as [Hle|]; [|done]. intros [= <-].
    unfold toy. rewrite bool_decide_false by done. by apply toy_page_at.
Qed.

End Toy.

(** Two clusters with pages of two: the target holds a, c, d, the source b, c, e, f. *)
Definition toy_primary : list string := ["a"; "c"; "d"].
Definition toy_source : list string := ["b"; "c"; "e"; "f"].

Example toy_merged : list_all (toy toy_primary 2) (toy toy_source 2) "" 9 9 (Some 2%nat) zeroToken =
  Some ((fun n => mkItem n false (Some (String.length n))) <$> ["a"; "b"; "c"; "d"; "e"; "f"]).
Proof. vm_compute. reflexivity. Qed.

Lemma toy_sorted : StronglySorted lt_name toy_primary /\ StronglySorted lt_name toy_source.
Proof. split; repeat (constructor; try done). Qed.

Lemma merged_listing_complete_witness :
  exists M, list_all (toy toy_primary 2) (toy toy_source 2) "" 8 9 (Some 2%nat) zeroToken = Some M /\ increasing M /\
    forall x, x ∈ M <-> prefers (toy_items toy_primary) (toy_items toy_source) x.
Proof.
  apply (merged_listing_complete _ _ _ _ (toy_pos toy_primary) (toy_pos toy_source)).
  - left. apply toy_serves; [lia|apply toy_sorted|repeat constructor; done].
  - left. apply toy_serves; [lia|apply toy_sorted|repeat constructor; done].
  - intros [Hab _]. discriminate (Hab "" "").
  - vm_compute. lia.
  - simpl. lia.
  - simpl. lia.
Defined.
