(* ===== verification/OpRecord.v ===== *)
(** * Operation records (internal/control: operation.go, scope.go, barrier.go)

    Every operator action runs under a durable record: its kind, what it reserves, who owns it, the
    phase it is in, its drain barrier and how it ended.  This file holds the record, the tests the
    code makes on it, and the rewriting of a record whose owner is gone.  Times are nanoseconds as
    integers; the texts for an operator (a blocker's or an error's message) are left out. *)

From S2P Require Import Prelude Float64 KeyHash HashRange Config Placement Transition S3Op S3Names Route Backend Scopes Directory Validate.

(** ** Constants *)

Definition OpRamp : string := "ramp".
Definition OpMigrate : string := "migrate".
Definition OpMover : string := "mover".
Definition OpCutover : string := "cutover".
Definition OpPurge : string := "purge-source".
Definition OpFinish : string := "finish".
Definition OpClusterReadOnly : string := "cluster-read-only".
Definition OpPlacementReadOnly : string := "placement-read-only".
Definition OpControlJoin : string := "control-join".
Definition OpControlRemove : string := "control-remove".

Definition StatusPending : string := "pending".
Definition StatusRunning : string := "running".
Definition StatusBlocked : string := "blocked".
Definition StatusSucceeded : string := "succeeded".
Definition StatusFailed : string := "failed".
Definition StatusCancelled : string := "cancelled".

Definition EffectNone : string := "none".
Definition EffectCommitted : string := "committed".
Definition EffectUncertain : string := "uncertain".

Definition PhaseQueued : string := "queued".
Definition PhasePrecondition : string := "precondition".
Definition PhaseHold : string := "hold".
Definition PhaseDrain : string := "drain".
Definition PhaseCommit : string := "commit".
Definition PhaseStep : string := "step".
Definition PhaseSettle : string := "settle".
Definition PhaseWindow : string := "window".
Definition PhaseDiff : string := "diff".
Definition PhaseDone : string := "done".

Definition ActionResume : string := "resume".
Definition ActionCancel : string := "cancel".

Definition CodeNotCancellable : string := "not_cancellable".
Definition BlockerOldRequests : string := "old_requests".
Definition BlockerBackendOutcomeUnknown : string := "backend_outcome_unknown".
Definition BlockerProxyMissing : string := "proxy_missing".
Definition BlockerInstallPending : string := "install_pending".
Definition BlockerIncarnationUnresolved : string := "incarnation_unresolved".
Definition BlockerCacheNotDurable : string := "cache_not_durable".
Definition BlockerInstallBackpressure : string := "install_backpressure".
Definition BlockerOwnerLost : string := "owner_lost".
Definition BlockerQuorumUnavailable : string := "quorum_unavailable".

(** ** Data *)

Record OpProgress : Type := mkProgress { pgDone : Z; pgTotal : Z; pgUnit : string }.

Record Blocker : Type := mkBlockerText { bkCode : string; bkProxyID : string; bkIncarnation : string; bkCount : Z; bkMessage : string }.

(** A blocker without its message, a text for the operator that is left out where it has one wording. *)
Definition mkBlocker (code proxy incarnation : string) (count : Z) : Blocker := mkBlockerText code proxy incarnation count "".

Record ReadOnlyPrior : Type := mkPrior { prReadOnly : bool; prReject : bool }.

Record BarrierState : Type := mkBarrierState {
  bsID : string;
  bsScope : string;
  bsKind : string;
  bsHoldVersion : Z;
  bsGeneration : Z;
  bsCommitted : bool;
  bsCommitVersion : Z;
  bsDispatchStarted : bool;
  bsHeldAt : Z;
  bsDrainedAt : Z;
  bsCommittedAt : Z;
  bsPrior : option ReadOnlyPrior;
}.

Record WorkerSession : Type := mkWorker {
  wsID : string; wsIdentity : Identity; wsGeneration : Z; wsSequence : Z; wsState : string; wsInflight : Z; wsUncertain : Z;
  wsLastSeen : Z; wsCompletedAt : Z; wsError : string; wsResolvedBy : string; wsAttestation : string;
}.

Record JoinMember : Type := mkJoinMember { jmID : string; jmPeerURL : string }.
Record CancelRequest : Type := mkCancelRequest { crActor : string; crAt : Z }.

(** What an operation reserves. *)
Record OpScope : Type := mkScope { scResource : string; scGeneration : Z; scClusters : list string }.

(** An error on a record or in an answer, by its code. *)
Record opErr : Type := mkErr { erCode : string }.

Record Operation : Type := mkOperation {
  opID : string;
  opKind : string;
  opPlacement : string;
  opCluster : string;
  opActor : string;
  opNode : string;
  opIdentity : Identity;
  opScope : option OpScope;
  opRequestID : string;
  opIntentDigest : string;
  opSequence : Z;
  opOwnerTerm : Z;
  opCreated : Z;
  opUpdated : Z;
  opStatus : string;
  opEffectState : string;
  opAllowedActions : list string;
  opBlockers : list Blocker;
  opBlockerCount : Z;
  opBarrier : option BarrierState;
  opWorker : option WorkerSession;
  opMember : option JoinMember;
  opCancelRequest : option CancelRequest;
  opPhase : string;
  opWaitingOn : list string;
  opSilent : list string;
  opProgress : option OpProgress;
  opVersion : Z;
  opArgs : string;
  opResult : string;
  opError : option opErr;
}.

Definition op_Node (v : string) (o : Operation) : Operation :=
  mkOperation (opID o) (opKind o) (opPlacement o) (opCluster o) (opActor o) v (opIdentity o) (opScope o) (opRequestID o) (opIntentDigest o) (opSequence o) (opOwnerTerm o) (opCreated o) (opUpdated o) (opStatus o) (opEffectState o) (opAllowedActions o) (opBlockers o) (opBlockerCount o) (opBarrier o) (opWorker o) (opMember o) (opCancelRequest o) (opPhase o) (opWaitingOn o) (opSilent o) (opProgress o) (opVersion o) (opArgs o) (opResult o) (opError o).
Definition op_Sequence (v : Z) (o : Operation) : Operation :=
  mkOperation (opID o) (opKind o) (opPlacement o) (opCluster o) (opActor o) (opNode o) (opIdentity o) (opScope o) (opRequestID o) (opIntentDigest o) v (opOwnerTerm o) (opCreated o) (opUpdated o) (opStatus o) (opEffectState o) (opAllowedActions o) (opBlockers o) (opBlockerCount o) (opBarrier o) (opWorker o) (opMember o) (opCancelRequest o) (opPhase o) (opWaitingOn o) (opSilent o) (opProgress o) (opVersion o) (opArgs o) (opResult o) (opError o).
Definition op_OwnerTerm (v : Z) (o : Operation) : Operation :=
  mkOperation (opID o) (opKind o) (opPlacement o) (opCluster o) (opActor o) (opNode o) (opIdentity o) (opScope o) (opRequestID o) (opIntentDigest o) (opSequence o) v (opCreated o) (opUpdated o) (opStatus o) (opEffectState o) (opAllowedActions o) (opBlockers o) (opBlockerCount o) (opBarrier o) (opWorker o) (opMember o) (opCancelRequest o) (opPhase o) (opWaitingOn o) (opSilent o) (opProgress o) (opVersion o) (opArgs o) (opResult o) (opError o).
Definition op_Updated (v : Z) (o : Operation) : Operation :=
  mkOperation (opID o) (opKind o) (opPlacement o) (opCluster o) (opActor o) (opNode o) (opIdentity o) (opScope o) (opRequestID o) (opIntentDigest o) (opSequence o) (opOwnerTerm o) (opCreated o) v (opStatus o) (opEffectState o) (opAllowedActions o) (opBlockers o) (opBlockerCount o) (opBarrier o) (opWorker o) (opMember o) (opCancelRequest o) (opPhase o) (opWaitingOn o) (opSilent o) (opProgress o) (opVersion o) (opArgs o) (opResult o) (opError o).
Definition op_Status (v : string) (o : Operation) : Operation :=
  mkOperation (opID o) (opKind o) (opPlacement o) (opCluster o) (opActor o) (opNode o) (opIdentity o) (opScope o) (opRequestID o) (opIntentDigest o) (opSequence o) (opOwnerTerm o) (opCreated o) (opUpdated o) v (opEffectState o) (opAllowedActions o) (opBlockers o) (opBlockerCount o) (opBarrier o) (opWorker o) (opMember o) (opCancelRequest o) (opPhase o) (opWaitingOn o) (opSilent o) (opProgress o) (opVersion o) (opArgs o) (opResult o) (opError o).
Definition op_EffectState (v : string) (o : Operation) : Operation :=
  mkOperation (opID o) (opKind o) (opPlacement o) (opCluster o) (opActor o) (opNode o) (opIdentity o) (opScope o) (opRequestID o) (opIntentDigest o) (opSequence o) (opOwnerTerm o) (opCreated o) (opUpdated o) (opStatus o) v (opAllowedActions o) (opBlockers o) (opBlockerCount o) (opBarrier o) (opWorker o) (opMember o) (opCancelRequest o) (opPhase o) (opWaitingOn o) (opSilent o) (opProgress o) (opVersion o) (opArgs o) (opResult o) (opError o).
Definition op_AllowedActions (v : list string) (o : Operation) : Operation :=
  mkOperation (opID o) (opKind o) (opPlacement o) (opCluster o) (opActor o) (opNode o) (opIdentity o) (opScope o) (opRequestID o) (opIntentDigest o) (opSequence o) (opOwnerTerm o) (opCreated o) (opUpdated o) (opStatus o) (opEffectState o) v (opBlockers o) (opBlockerCount o) (opBarrier o) (opWorker o) (opMember o) (opCancelRequest o) (opPhase o) (opWaitingOn o) (opSilent o) (opProgress o) (opVersion o) (opArgs o) (opResult o) (opError o).
Definition op_Blockers (v : list Blocker) (o : Operation) : Operation :=
  mkOperation (opID o) (opKind o) (opPlacement o) (opCluster o) (opActor o) (opNode o) (opIdentity o) (opScope o) (opRequestID o) (opIntentDigest o) (opSequence o) (opOwnerTerm o) (opCreated o) (opUpdated o) (opStatus o) (opEffectState o) (opAllowedActions o) v (opBlockerCount o) (opBarrier o) (opWorker o) (opMember o) (opCancelRequest o) (opPhase o) (opWaitingOn o) (opSilent o) (opProgress o) (opVersion o) (opArgs o) (opResult o) (opError o).
Definition op_BlockerCount (v : Z) (o : Operation) : Operation :=
  mkOperation (opID o) (opKind o) (opPlacement o) (opCluster o) (opActor o) (opNode o) (opIdentity o) (opScope o) (opRequestID o) (opIntentDigest o) (opSequence o) (opOwnerTerm o) (opCreated o) (opUpdated o) (opStatus o) (opEffectState o) (opAllowedActions o) (opBlockers o) v (opBarrier o) (opWorker o) (opMember o) (opCancelRequest o) (opPhase o) (opWaitingOn o) (opSilent o) (opProgress o) (opVersion o) (opArgs o) (opResult o) (opError o).
Definition op_Barrier (v : option BarrierState) (o : Operation) : Operation :=
  mkOperation (opID o) (opKind o) (opPlacement o) (opCluster o) (opActor o) (opNode o) (opIdentity o) (opScope o) (opRequestID o) (opIntentDigest o) (opSequence o) (opOwnerTerm o) (opCreated o) (opUpdated o) (opStatus o) (opEffectState o) (opAllowedActions o) (opBlockers o) (opBlockerCount o) v (opWorker o) (opMember o) (opCancelRequest o) (opPhase o) (opWaitingOn o) (opSilent o) (opProgress o) (opVersion o) (opArgs o) (opResult o) (opError o).
Definition op_Worker (v : option WorkerSession) (o : Operation) : Operation :=
  mkOperation (opID o) (opKind o) (opPlacement o) (opCluster o) (opActor o) (opNode o) (opIdentity o) (opScope o) (opRequestID o) (opIntentDigest o) (opSequence o) (opOwnerTerm o) (opCreated o) (opUpdated o) (opStatus o) (opEffectState o) (opAllowedActions o) (opBlockers o) (opBlockerCount o) (opBarrier o) v (opMember o) (opCancelRequest o) (opPhase o) (opWaitingOn o) (opSilent o) (opProgress o) (opVersion o) (opArgs o) (opResult o) (opError o).
Definition op_Member (v : option JoinMember) (o : Operation) : Operation :=
  mkOperation (opID o) (opKind o) (opPlacement o) (opCluster o) (opActor o) (opNode o) (opIdentity o) (opScope o) (opRequestID o) (opIntentDigest o) (opSequence o) (opOwnerTerm o) (opCreated o) (opUpdated o) (opStatus o) (opEffectState o) (opAllowedActions o) (opBlockers o) (opBlockerCount o) (opBarrier o) (opWorker o) v (opCancelRequest o) (opPhase o) (opWaitingOn o) (opSilent o) (opProgress o) (opVersion o) (opArgs o) (opResult o) (opError o).
Definition op_CancelRequest (v : option CancelRequest) (o : Operation) : Operation :=
  mkOperation (opID o) (opKind o) (opPlacement o) (opCluster o) (opActor o) (opNode o) (opIdentity o) (opScope o) (opRequestID o) (opIntentDigest o) (opSequence o) (opOwnerTerm o) (opCreated o) (opUpdated o) (opStatus o) (opEffectState o) (opAllowedActions o) (opBlockers o) (opBlockerCount o) (opBarrier o) (opWorker o) (opMember o) v (opPhase o) (opWaitingOn o) (opSilent o) (opProgress o) (opVersion o) (opArgs o) (opResult o) (opError o).
Definition op_Phase (v : string) (o : Operation) : Operation :=
  mkOperation (opID o) (opKind o) (opPlacement o) (opCluster o) (opActor o) (opNode o) (opIdentity o) (opScope o) (opRequestID o) (opIntentDigest o) (opSequence o) (opOwnerTerm o) (opCreated o) (opUpdated o) (opStatus o) (opEffectState o) (opAllowedActions o) (opBlockers o) (opBlockerCount o) (opBarrier o) (opWorker o) (opMember o) (opCancelRequest o) v (opWaitingOn o) (opSilent o) (opProgress o) (opVersion o) (opArgs o) (opResult o) (opError o).
Definition op_WaitingOn (v : list string) (o : Operation) : Operation :=
  mkOperation (opID o) (opKind o) (opPlacement o) (opCluster o) (opActor o) (opNode o) (opIdentity o) (opScope o) (opRequestID o) (opIntentDigest o) (opSequence o) (opOwnerTerm o) (opCreated o) (opUpdated o) (opStatus o) (opEffectState o) (opAllowedActions o) (opBlockers o) (opBlockerCount o) (opBarrier o) (opWorker o) (opMember o) (opCancelRequest o) (opPhase o) v (opSilent o) (opProgress o) (opVersion o) (opArgs o) (opResult o) (opError o).
Definition op_Progress (v : option OpProgress) (o : Operation) : Operation :=
  mkOperation (opID o) (opKind o) (opPlacement o) (opCluster o) (opActor o) (opNode o) (opIdentity o) (opScope o) (opRequestID o) (opIntentDigest o) (opSequence o) (opOwnerTerm o) (opCreated o) (opUpdated o) (opStatus o) (opEffectState o) (opAllowedActions o) (opBlockers o) (opBlockerCount o) (opBarrier o) (opWorker o) (opMember o) (opCancelRequest o) (opPhase o) (opWaitingOn o) (opSilent o) v (opVersion o) (opArgs o) (opResult o) (opError o).
Definition op_Version (v : Z) (o : Operation) : Operation :=
  mkOperation (opID o) (opKind o) (opPlacement o) (opCluster o) (opActor o) (opNode o) (opIdentity o) (opScope o) (opRequestID o) (opIntentDigest o) (opSequence o) (opOwnerTerm o) (opCreated o) (opUpdated o) (opStatus o) (opEffectState o) (opAllowedActions o) (opBlockers o) (opBlockerCount o) (opBarrier o) (opWorker o) (opMember o) (opCancelRequest o) (opPhase o) (opWaitingOn o) (opSilent o) (opProgress o) v (opArgs o) (opResult o) (opError o).
Definition op_Result (v : string) (o : Operation) : Operation :=
  mkOperation (opID o) (opKind o) (opPlacement o) (opCluster o) (opActor o) (opNode o) (opIdentity o) (opScope o) (opRequestID o) (opIntentDigest o) (opSequence o) (opOwnerTerm o) (opCreated o) (opUpdated o) (opStatus o) (opEffectState o) (opAllowedActions o) (opBlockers o) (opBlockerCount o) (opBarrier o) (opWorker o) (opMember o) (opCancelRequest o) (opPhase o) (opWaitingOn o) (opSilent o) (opProgress o) (opVersion o) (opArgs o) v (opError o).
Definition op_Error (v : option opErr) (o : Operation) : Operation :=
  mkOperation (opID o) (opKind o) (opPlacement o) (opCluster o) (opActor o) (opNode o) (opIdentity o) (opScope o) (opRequestID o) (opIntentDigest o) (opSequence o) (opOwnerTerm o) (opCreated o) (opUpdated o) (opStatus o) (opEffectState o) (opAllowedActions o) (opBlockers o) (opBlockerCount o) (opBarrier o) (opWorker o) (opMember o) (opCancelRequest o) (opPhase o) (opWaitingOn o) (opSilent o) (opProgress o) (opVersion o) (opArgs o) (opResult o) v.
Definition op_ID (v : string) (o : Operation) : Operation :=
  mkOperation v (opKind o) (opPlacement o) (opCluster o) (opActor o) (opNode o) (opIdentity o) (opScope o) (opRequestID o) (opIntentDigest o) (opSequence o) (opOwnerTerm o) (opCreated o) (opUpdated o) (opStatus o) (opEffectState o) (opAllowedActions o) (opBlockers o) (opBlockerCount o) (opBarrier o) (opWorker o) (opMember o) (opCancelRequest o) (opPhase o) (opWaitingOn o) (opSilent o) (opProgress o) (opVersion o) (opArgs o) (opResult o) (opError o).
Definition op_Kind (v : string) (o : Operation) : Operation :=
  mkOperation (opID o) v (opPlacement o) (opCluster o) (opActor o) (opNode o) (opIdentity o) (opScope o) (opRequestID o) (opIntentDigest o) (opSequence o) (opOwnerTerm o) (opCreated o) (opUpdated o) (opStatus o) (opEffectState o) (opAllowedActions o) (opBlockers o) (opBlockerCount o) (opBarrier o) (opWorker o) (opMember o) (opCancelRequest o) (opPhase o) (opWaitingOn o) (opSilent o) (opProgress o) (opVersion o) (opArgs o) (opResult o) (opError o).
Definition op_Actor (v : string) (o : Operation) : Operation :=
  mkOperation (opID o) (opKind o) (opPlacement o) (opCluster o) v (opNode o) (opIdentity o) (opScope o) (opRequestID o) (opIntentDigest o) (opSequence o) (opOwnerTerm o) (opCreated o) (opUpdated o) (opStatus o) (opEffectState o) (opAllowedActions o) (opBlockers o) (opBlockerCount o) (opBarrier o) (opWorker o) (opMember o) (opCancelRequest o) (opPhase o) (opWaitingOn o) (opSilent o) (opProgress o) (opVersion o) (opArgs o) (opResult o) (opError o).
Definition op_Identity (v : Identity) (o : Operation) : Operation :=
  mkOperation (opID o) (opKind o) (opPlacement o) (opCluster o) (opActor o) (opNode o) v (opScope o) (opRequestID o) (opIntentDigest o) (opSequence o) (opOwnerTerm o) (opCreated o) (opUpdated o) (opStatus o) (opEffectState o) (opAllowedActions o) (opBlockers o) (opBlockerCount o) (opBarrier o) (opWorker o) (opMember o) (opCancelRequest o) (opPhase o) (opWaitingOn o) (opSilent o) (opProgress o) (opVersion o) (opArgs o) (opResult o) (opError o).
Definition op_Created (v : Z) (o : Operation) : Operation :=
  mkOperation (opID o) (opKind o) (opPlacement o) (opCluster o) (opActor o) (opNode o) (opIdentity o) (opScope o) (opRequestID o) (opIntentDigest o) (opSequence o) (opOwnerTerm o) v (opUpdated o) (opStatus o) (opEffectState o) (opAllowedActions o) (opBlockers o) (opBlockerCount o) (opBarrier o) (opWorker o) (opMember o) (opCancelRequest o) (opPhase o) (opWaitingOn o) (opSilent o) (opProgress o) (opVersion o) (opArgs o) (opResult o) (opError o).
Definition op_RequestID (v : string) (o : Operation) : Operation :=
  mkOperation (opID o) (opKind o) (opPlacement o) (opCluster o) (opActor o) (opNode o) (opIdentity o) (opScope o) v (opIntentDigest o) (opSequence o) (opOwnerTerm o) (opCreated o) (opUpdated o) (opStatus o) (opEffectState o) (opAllowedActions o) (opBlockers o) (opBlockerCount o) (opBarrier o) (opWorker o) (opMember o) (opCancelRequest o) (opPhase o) (opWaitingOn o) (opSilent o) (opProgress o) (opVersion o) (opArgs o) (opResult o) (opError o).
Definition op_IntentDigest (v : string) (o : Operation) : Operation :=
  mkOperation (opID o) (opKind o) (opPlacement o) (opCluster o) (opActor o) (opNode o) (opIdentity o) (opScope o) (opRequestID o) v (opSequence o) (opOwnerTerm o) (opCreated o) (opUpdated o) (opStatus o) (opEffectState o) (opAllowedActions o) (opBlockers o) (opBlockerCount o) (opBarrier o) (opWorker o) (opMember o) (opCancelRequest o) (opPhase o) (opWaitingOn o) (opSilent o) (opProgress o) (opVersion o) (opArgs o) (opResult o) (opError o).
Definition op_Args (v : string) (o : Operation) : Operation :=
  mkOperation (opID o) (opKind o) (opPlacement o) (opCluster o) (opActor o) (opNode o) (opIdentity o) (opScope o) (opRequestID o) (opIntentDigest o) (opSequence o) (opOwnerTerm o) (opCreated o) (opUpdated o) (opStatus o) (opEffectState o) (opAllowedActions o) (opBlockers o) (opBlockerCount o) (opBarrier o) (opWorker o) (opMember o) (opCancelRequest o) (opPhase o) (opWaitingOn o) (opSilent o) (opProgress o) (opVersion o) v (opResult o) (opError o).
Definition op_Scope (v : option OpScope) (o : Operation) : Operation :=
  mkOperation (opID o) (opKind o) (opPlacement o) (opCluster o) (opActor o) (opNode o) (opIdentity o) v (opRequestID o) (opIntentDigest o) (opSequence o) (opOwnerTerm o) (opCreated o) (opUpdated o) (opStatus o) (opEffectState o) (opAllowedActions o) (opBlockers o) (opBlockerCount o) (opBarrier o) (opWorker o) (opMember o) (opCancelRequest o) (opPhase o) (opWaitingOn o) (opSilent o) (opProgress o) (opVersion o) (opArgs o) (opResult o) (opError o).

#[export] Instance Blocker_eq_dec : EqDecision Blocker.
Proof. solve_decision. Defined.
#[export] Instance ReadOnlyPrior_eq_dec : EqDecision ReadOnlyPrior.
Proof. solve_decision. Defined.
#[export] Instance BarrierState_eq_dec : EqDecision BarrierState.
Proof. solve_decision. Defined.
#[export] Instance OpScope_eq_dec : EqDecision OpScope.
Proof. solve_decision. Defined.

(** ** Tests on a record *)

(** [Operation.Terminal] *)
Definition Terminal (o : Operation) : bool :=
  bool_decide (opStatus o = StatusSucceeded) || bool_decide (opStatus o = StatusFailed) || bool_decide (opStatus o = StatusCancelled).

(** 7 days, in nanoseconds. *)
Definition IdempotencyRetention : Z := 604800000000000.

(** [Operation.Prunable] *)
Definition Prunable (now : Z) (o : Operation) : bool :=
  if negb (Terminal o) || bool_decide (opEffectState o = EffectUncertain) then false
  else bool_decide (opRequestID o = "") || (IdempotencyRetention <=? now - opUpdated o)%Z.

(** [Scope.cluster]: the cluster a cluster scope names. *)
Definition scope_cluster (sc : OpScope) : option string := CutPrefix (scResource sc) "cluster:".

(** [Scope.touches] *)
Definition touches (sc : OpScope) (cluster : string) : bool :=
  match scope_cluster sc with Some _ => false | None => bool_decide (cluster ∈ scClusters sc) end.

(** The switch of [conflict]: whether scope [sc] conflicts with the one [so] of an unfinished operation. *)
Definition conflicts (sc so : OpScope) : bool :=
  if bool_decide (scResource so = scResource sc) then true
  else match scope_cluster sc with
       | Some cl => touches so cl
       | None => match scope_cluster so with Some ocl => bool_decide (ocl ∈ scClusters sc) | None => false end
       end.

Definition resumable (kind : string) : bool :=
  bool_decide (kind ∈ [OpRamp; OpMigrate; OpPlacementReadOnly; OpClusterReadOnly; OpCutover; OpPurge]).

Definition carriesOn (o : Operation) : bool :=
  (resumable (opKind o) && bool_decide (is_Some (opBarrier o))) || bool_decide (opKind o = OpControlJoin) || bool_decide (opKind o = OpControlRemove).

Definition cancelPhases : list string := [""; PhaseQueued; PhasePrecondition; PhaseDiff].

(** Why an operation cannot be canceled now: not any more, or not yet ("refused"). *)
Definition notCancellable (o : Operation) (ownerGone : bool) : option opErr :=
  if bool_decide (opKind o = OpControlJoin) then None
  else if bool_decide (opKind o = OpControlRemove) then Some (mkErr CodeNotCancellable)
  else if bool_decide (opKind o = OpMover) then Some (mkErr CodeNotCancellable)
  else if negb (resumable (opKind o)) then Some (mkErr CodeNotCancellable)
  else match opBarrier o with
       | None => if negb (bool_decide (opPhase o ∈ cancelPhases)) then Some (mkErr CodeNotCancellable) else None
       | Some b =>
           if bsCommitted b then Some (mkErr CodeNotCancellable)
           else if bsDispatchStarted b then Some (mkErr CodeNotCancellable)
           else if (bsHoldVersion b =? 0)%Z && negb ownerGone then Some (mkErr "refused")
           else if bool_decide (opPhase o = PhaseCommit) && negb ownerGone then Some (mkErr CodeNotCancellable)
           else None
       end.

Definition beforeFirstWrite (o : Operation) : bool :=
  if bool_decide (is_Some (opBarrier o)) then false
  else bool_decide (opPhase o ∈ [PhaseQueued; PhasePrecondition; PhaseWindow; PhaseDiff]).

(** ** A record whose owner is gone *)

Definition orphan (now : Z) (o : Operation) : Operation :=
  let o := o |> op_Sequence (opSequence o + 1)%Z |> op_Updated now in
  if carriesOn o then
    o |> op_Status StatusBlocked |> op_Blockers [mkBlocker BlockerOwnerLost "" "" 0] |> op_BlockerCount 1
      |> op_AllowedActions (ActionResume :: if bool_decide (notCancellable (op_Status StatusBlocked o) true = None) then [ActionCancel] else [])
  else
    let o := if bool_decide (opEffectState o = EffectNone) || bool_decide (opEffectState o = "") then
               o |> op_EffectState (if bool_decide (opStatus o = StatusPending) || beforeFirstWrite o then EffectNone else EffectUncertain)
             else o in
    o |> op_Status StatusFailed |> op_Phase PhaseDone |> op_Blockers [] |> op_BlockerCount 0 |> op_AllowedActions []
      |> op_Error (Some (mkErr "unavailable")).
