(* ===== verification/OpStore.v ===== *)
(** * The store of operation records (internal/control: operation.go, scope.go)

    [MemOperations] keeps the records of one control node.  Create reserves a scope, Update replaces a
    record over the sequence it was read at, and ended records past a limit are forgotten.  The
    store's promises: no two unfinished operations hold conflicting scopes, a request repeated with
    its idempotency key is never run twice, and evidence is never dropped. *)

From S2P Require Import Prelude Float64 KeyHash HashRange Config Placement Transition S3Op S3Names Route Backend Scopes Directory Validate OpRecord.

(** ** The store *)

Definition defaultOperationLimit : Z := 1000.
Definition DefaultCapacity : Z := 256.

(** SHA-256 in hexadecimal is the standard library's; nothing here depends on which function it is. *)
Section OpStore.
Context (sha256hex : string -> string).

Definition nul : string := String "000"%char "".

Definition IdempotencyIndex (o : Operation) : string :=
  sha256hex ("shunt-idempotency-v1" +:+ nul +:+ idEpoch (opIdentity o) +:+ nul +:+ opActor o +:+ nul +:+ opRequestID o).

Record MemOperations : Type := mkMem {
  mLimit : Z;
  mDir : option File;
  mCapacity : Z;
  mOrder : list string;
  mByID : gmap string Operation;
  mIdem : gmap string string;
}.

Definition mem_records (order : list string) (byID : gmap string Operation) (idem : gmap string string) (m : MemOperations) : MemOperations :=
  mkMem (mLimit m) (mDir m) (mCapacity m) order byID idem.

Inductive storeErr : Type :=
| ErrDuplicate
| IdempotentReplay (existing : Operation)
| IdempotencyConflictError (owner : string)
| CapacityError (limit : Z)
| LineageError
| GenerationError (resource : string) (expected current : Z)
| ScopeBusyError (resource owner held : string)
| ErrUnknownOperation
| ErrStaleSequence.

Definition replay (o existing : Operation) : storeErr :=
  if negb (bool_decide (opIntentDigest existing = opIntentDigest o)) then IdempotencyConflictError (opID existing)
  else IdempotentReplay existing.

(** [conflict]: the unfinished operation in the way, if any.  Go visits the records in no fixed order,
    so which of several is named is not determined; that there is one is. *)
Definition conflict (sc : OpScope) (live : list Operation) : option storeErr :=
  match List.find (fun o => negb (Terminal o) && match opScope o with Some so => conflicts sc so | None => false end) live with
  | Some o =>
      let held := match opScope o with Some so => if bool_decide (scResource so = scResource sc) then "" else scResource so | None => "" end in
      Some (ScopeBusyError (scResource sc) (opID o) held)
  | None => None
  end.

(** checkScope; an operation of another lineage is refused by [checkLineage]. *)
Definition checkScope (f : File) (o : Operation) : result storeErr unit :=
  if negb (Identity_IsZero (opIdentity o)) && negb (bool_decide (opIdentity o = fIdentity f)) then Err LineageError
  else match opScope o with
       | Some sc =>
           let cur := Generation f (scResource sc) in
           if negb (cur =? scGeneration sc)%Z then Err (GenerationError (scResource sc) (scGeneration sc) cur) else Ok tt
       | None => Ok tt
       end.

(** [trim]: the oldest prunable records past the limit go.  [kept] and [rest] are the order before and
    from the loop's index.  A record missing from the map would be a nil dereference: [None]. *)
Fixpoint trim_loop (limit now : Z) (kept rest : list string) (byID : gmap string Operation) (idem : gmap string string)
    : option (list string * gmap string Operation * gmap string string) :=
  match rest with
  | [] => Some (kept, byID, idem)
  | id :: rest' =>
      if (limit <? Z.of_nat (length kept + length rest))%Z then
        match byID !! id with
        | None => None
        | Some o =>
            if Prunable now o then
              trim_loop limit now kept rest' (delete id byID) (if negb (bool_decide (opRequestID o = "")) then delete (IdempotencyIndex o) idem else idem)
            else trim_loop limit now (kept ++ [id]) rest' byID idem
        end
      else Some (kept ++ rest, byID, idem)
  end.

Definition trim (now : Z) (m : MemOperations) : option MemOperations :=
  let limit := if (mLimit m <=? 0)%Z then defaultOperationLimit else mLimit m in
  '(order, byID, idem) ← trim_loop limit now [] (mOrder m) (mByID m) (mIdem m);
  Some (mem_records order byID idem m).

Definition unfinished (m : MemOperations) : nat := length (List.filter (fun o => negb (Terminal o)) (map_to_list (mByID m)).*2).

(** Whether a scope may be reserved now. *)
Definition reserve (o : Operation) (m : MemOperations) : result storeErr unit :=
  match opScope o with
  | None => Ok tt
  | Some sc =>
      let limit := if (mCapacity m <=? 0)%Z then DefaultCapacity else mCapacity m in
      if (limit <=? Z.of_nat (unfinished m))%Z then Err (CapacityError limit)
      else
        _ ← match mDir m with Some f => checkScope f o | None => Ok tt end;
        match conflict sc (map_to_list (mByID m)).*2 with Some busy => Err busy | None => Ok tt end
  end.

Definition insert_record (o : Operation) (m : MemOperations) : MemOperations :=
  mem_records (mOrder m ++ [opID o]) (<[opID o := o]> (mByID m))
    (if negb (bool_decide (opRequestID o = "")) then <[IdempotencyIndex o := opID o]> (mIdem m) else mIdem m) m.

(** Create; [None] is a nil dereference. *)
Definition CreateOp (now : Z) (o : Operation) (m : MemOperations) : option (result storeErr MemOperations) :=
  if bool_decide (is_Some (mByID m !! opID o)) then Some (Err ErrDuplicate)
  else
    match (if negb (bool_decide (opRequestID o = "")) then mIdem m !! IdempotencyIndex o else None) with
    | Some id => match mByID m !! id with Some existing => Some (Err (replay o existing)) | None => None end
    | None =>
        match reserve o m with
        | Err e => Some (Err e)
        | Ok _ => m' ← trim now (insert_record o m); Some (Ok m')
        end
    end.

(** Update *)
Definition UpdateOp (now : Z) (o : Operation) (m : MemOperations) : option (result storeErr MemOperations) :=
  match mByID m !! opID o with
  | None => Some (Err ErrUnknownOperation)
  | Some cur =>
      if negb (opSequence cur =? opSequence o - 1)%Z then Some (Err ErrStaleSequence)
      else m' ← trim now (mem_records (mOrder m) (<[opID o := o]> (mByID m)) (mIdem m) m); Some (Ok m')
  end.

Definition GetOp (id : string) (m : MemOperations) : option Operation := mByID m !! id.

(** List: the newest first, by placement and cluster when given. *)
Definition listed (placement cluster : string) (o : Operation) : bool :=
  (bool_decide (placement = "") || bool_decide (opPlacement o = placement)) && (bool_decide (cluster = "") || bool_decide (opCluster o = cluster)).
Definition ListOps (placement cluster : string) (limit : nat) (m : MemOperations) : list Operation :=
  take limit (List.filter (listed placement cluster) (omap (fun id => mByID m !! id) (reverse (mOrder m)))).

(** Evidence: every record that is unfinished or whose effect is uncertain, the newest first. *)
Definition Evidence (m : MemOperations) : list Operation :=
  List.filter (fun o => negb (Terminal o) || bool_decide (opEffectState o = EffectUncertain)) (omap (fun id => mByID m !! id) (reverse (mOrder m))).

(** ** The invariant *)

Record store_ok (m : MemOperations) : Prop := {
  st_order : NoDup (mOrder m);
  st_ids : forall id, id ∈ mOrder m <-> is_Some (mByID m !! id);
  st_names : forall id o, mByID m !! id = Some o -> opID o = id;
  st_idem : forall k id, mIdem m !! k = Some id <-> exists o, mByID m !! id = Some o /\ opRequestID o <> "" /\ IdempotencyIndex o = k;
  st_scopes : forall id1 id2 o1 o2 s1 s2, id1 <> id2 -> mByID m !! id1 = Some o1 -> mByID m !! id2 = Some o2 ->
    Terminal o1 = false -> Terminal o2 = false -> opScope o1 = Some s1 -> opScope o2 = Some s2 -> conflicts s1 s2 = false;
}.

(** What every writer of a record keeps: it writes over a copy of the stored record, changes neither
    what it reserves nor its idempotency key, and never revives an ended one. *)
Record revises (cur o : Operation) : Prop := {
  rv_scope : opScope o = opScope cur;
  rv_key : opRequestID o = opRequestID cur /\ opActor o = opActor cur /\ opIdentity o = opIdentity cur;
  rv_ended : Terminal cur = true -> Terminal o = true;
}.

Lemma conflicts_sym s1 s2 : conflicts s1 s2 = conflicts s2 s1.
Proof.
  unfold conflicts, touches. destruct (decide (scResource s1 = scResource s2)) as [E|E].
  { by rewrite !bool_decide_true by done. }
  rewrite !bool_decide_false by congruence. destruct (scope_cluster s1) as [c1|], (scope_cluster s2) as [c2|]; simpl; try done.
Qed.

(** ** Trimming *)

(** The records a trim may drop. *)
Definition droppable (now : Z) (byID byID' : gmap string Operation) : Prop :=
  forall id o, byID !! id = Some o -> byID' !! id = Some o \/ (byID' !! id = None /\ Prunable now o = true).

Record indexed (order : list string) (byID : gmap string Operation) (idem : gmap string string) : Prop := {
  ix_order : NoDup order;
  ix_ids : forall id, id ∈ order <-> is_Some (byID !! id);
  ix_names : forall id o, byID !! id = Some o -> opID o = id;
  ix_idem : forall k id, idem !! k = Some id <-> exists o, byID !! id = Some o /\ opRequestID o <> "" /\ IdempotencyIndex o = k;
}.

Lemma indexed_drop order1 order2 id byID idem o : indexed (order1 ++ id :: order2) byID idem -> byID !! id = Some o ->
  indexed (order1 ++ order2) (delete id byID) (if negb (bool_decide (opRequestID o = "")) then delete (IdempotencyIndex o) idem else idem).
Proof.
  intros [Hnd Hids Hn Hi] Ho. assert (order1 ++ id :: order2 ≡ₚ id :: order1 ++ order2) as Hperm by by rewrite Permutation_middle.
  rewrite Hperm in Hnd. apply NoDup_cons in Hnd as [Hnot Hnd]. split; [done| | |].
  - intros id'. destruct (decide (id' = id)) as [->|Hne].
    + rewrite lookup_delete_eq. split; [done|by intros [? ?]].
    + rewrite lookup_delete_ne, <- Hids, Hperm, elem_of_cons by done. naive_solver.
  - intros id' o' Hl. apply lookup_delete_Some in Hl as [_ Hl]. by apply Hn.
  - intros k id'. split.
    + intros Hk. assert (idem !! k = Some id' /\ (opRequestID o <> "" -> k <> IdempotencyIndex o)) as [Hk' Hne].
      { destruct (decide (opRequestID o = "")) as [E|E]; [rewrite bool_decide_true in Hk by done|rewrite bool_decide_false in Hk by done]; simpl in Hk; [done|].
        apply lookup_delete_Some in Hk as [? ?]. split; [done|]. congruence. }
      apply Hi in Hk' as (o' & Hl & Hr & Hx). exists o'. split; [|done]. apply lookup_delete_Some. split; [|done].
      intros <-. simplify_eq. by apply Hne.
    + intros (o' & Hl & Hr & Hx). apply lookup_delete_Some in Hl as [Hid Hl].
      assert (idem !! k = Some id') as Hk by (apply Hi; eauto).
      case_bool_decide as E; simpl; [done|]. apply lookup_delete_Some. split; [|done]. intros Ex.
      assert (idem !! k = Some id) as Hk2 by (apply Hi; exists o; auto). congruence.
Qed.

Lemma trim_loop_ok limit now rest kept byID idem : indexed (kept ++ rest) byID idem ->
  exists order' byID' idem', trim_loop limit now kept rest byID idem = Some (order', byID', idem') /\ indexed order' byID' idem' /\
    droppable now byID byID' /\ (forall id o, byID' !! id = Some o -> byID !! id = Some o).
Proof.
  revert kept byID idem. induction rest as [|id rest IH]; intros kept byID idem Hix; simpl.
  { rewrite app_nil_r in Hix. exists kept, byID, idem. split_and!; [done|done| |done]. intros id o Ho. by left. }
  destruct (_ <? _)%Z.
  2: { exists (kept ++ id :: rest), byID, idem. split_and!; [done|done| |done]. intros id' o Ho. by left. }
  destruct (proj1 (ix_ids _ _ _ Hix id)) as [o Ho]; [set_solver|]. rewrite Ho. destruct (Prunable now o) eqn:Hp.
  - destruct (IH kept (delete id byID) _ (indexed_drop _ _ _ _ _ _ Hix Ho)) as (order' & byID' & idem' & -> & Hix' & Hd & Hsub).
    exists order', byID', idem'. split_and!; [done|done| |].
    + intros id' o' Ho'. destruct (decide (id' = id)) as [->|Hne].
      * right. simplify_eq. split; [|done]. destruct (byID' !! id) as [o''|] eqn:E; [|done]. apply Hsub in E. by rewrite lookup_delete_eq in E.
      * apply Hd. by rewrite lookup_delete_ne.
    + intros id' o' Ho'. by apply Hsub, lookup_delete_Some in Ho' as [_ ?].
  - apply IH. by rewrite <- app_assoc.
Qed.

Lemma store_indexed m : store_ok m -> indexed (mOrder m) (mByID m) (mIdem m).
Proof. intros [? ? ? ? ?]. by split. Qed.

Definition exclusive (byID : gmap string Operation) : Prop :=
  forall id1 id2 o1 o2 s1 s2, id1 <> id2 -> byID !! id1 = Some o1 -> byID !! id2 = Some o2 ->
    Terminal o1 = false -> Terminal o2 = false -> opScope o1 = Some s1 -> opScope o2 = Some s2 -> conflicts s1 s2 = false.

(** Trimming never panics, keeps the invariant and drops only prunable records. *)
Lemma trim_ok now m : indexed (mOrder m) (mByID m) (mIdem m) -> exclusive (mByID m) ->
  exists m', trim now m = Some m' /\ store_ok m' /\ droppable now (mByID m) (mByID m') /\ (forall id o, mByID m' !! id = Some o -> mByID m !! id = Some o) /\
    mLimit m' = mLimit m /\ mDir m' = mDir m /\ mCapacity m' = mCapacity m.
Proof.
  intros Hix Hex. unfold trim.
  destruct (trim_loop_ok (if (mLimit m <=? 0)%Z then defaultOperationLimit else mLimit m) now (mOrder m) [] (mByID m) (mIdem m) Hix)
    as (order' & byID' & idem' & -> & [Hnd Hids Hn Hi] & Hd & Hsub).
  eexists. split; [reflexivity|]. split_and!; [|done|done|done|done|done]. split; simpl; try done.
  intros id1 id2 o1 o2 s1 s2 Hne H1 H2. apply (Hex id1 id2); auto.
Qed.

Lemma conflict_none sc live o so : conflict sc live = None -> o ∈ live -> Terminal o = false -> opScope o = Some so -> conflicts sc so = false.
Proof.
  unfold conflict. destruct (List.find _ live) as [o'|] eqn:E; [done|]. intros _ Hin Ht Hs.
  pose proof (find_none _ _ E o (proj1 (list_elem_of_In _ _) Hin)) as Hf. simpl in Hf. by rewrite Ht, Hs in Hf.
Qed.

(** ** The operations *)

Lemma insert_indexed o m : store_ok m -> mByID m !! opID o = None -> (opRequestID o <> "" -> mIdem m !! IdempotencyIndex o = None) ->
  indexed (mOrder (insert_record o m)) (mByID (insert_record o m)) (mIdem (insert_record o m)).
Proof.
  intros [Hnd Hids Hn Hi _] Hnew Hidem. split; simpl.
  - apply NoDup_app. split_and!; [done| |apply NoDup_singleton]. intros id Hid ->%list_elem_of_singleton. apply Hids in Hid as [? ?]. congruence.
  - intros id. rewrite elem_of_app, list_elem_of_singleton, Hids. destruct (decide (id = opID o)) as [->|Hne].
    + rewrite lookup_insert_eq. naive_solver.
    + rewrite lookup_insert_ne by done. naive_solver.
  - intros id o'. rewrite lookup_insert_Some. intros [[<- <-]|[_ ?]]; [done|by apply Hn].
  - intros k id. destruct (decide (opRequestID o = "")) as [E|E].
    + rewrite bool_decide_true by done. simpl. rewrite Hi. split; intros (o' & Hl & Hr & Hx); exists o'; split; try done.
      * rewrite lookup_insert_ne; [done|]. intros <-. congruence.
      * apply lookup_insert_Some in Hl as [[<- <-]|[_ ?]]; done.
    + rewrite bool_decide_false by done. simpl. rewrite lookup_insert_Some, Hi. split.
      * intros [[<- <-]|[Hne (o' & Hl & Hr & Hx)]]; [exists o; by rewrite lookup_insert_eq|].
        exists o'. split; [|done]. rewrite lookup_insert_ne; [done|]. intros <-. congruence.
      * intros (o' & Hl & Hr & Hx). apply lookup_insert_Some in Hl as [[<- <-]|[Hne Hl]]; [by left|right].
        split; [|by eauto]. intros E'. specialize (Hidem E). assert (mIdem m !! k = Some id) as Hk by (apply Hi; eauto). congruence.
Qed.

Lemma insert_exclusive o m : store_ok m -> reserve o m = Ok tt -> exclusive (mByID (insert_record o m)).
Proof.
  intros Hok Hres. assert (forall id o' sc so, mByID m !! id = Some o' -> Terminal o' = false -> opScope o = Some sc -> opScope o' = Some so -> conflicts sc so = false) as Hfree.
  { intros id o' sc so Hl Ht Hs Hso. unfold reserve in Hres. rewrite Hs in Hres. pass_check Hres.
    apply bind_Ok in Hres as (u & _ & Hres). destruct (conflict sc _) as [|] eqn:Ec; [done|]. eapply conflict_none; [done| |done|done].
    apply list_elem_of_fmap. exists (id, o'). split; [done|]. by apply elem_of_map_to_list. }
  intros id1 id2 o1 o2 s1 s2 Hne H1 H2 T1 T2 S1 S2. simpl in H1, H2. apply lookup_insert_Some in H1, H2.
  destruct H1 as [[<- <-]|[_ H1]], H2 as [[<- <-]|[_ H2]]; [done|by eapply Hfree| |by eapply (st_scopes m Hok id1 id2)].
  rewrite conflicts_sym. by eapply Hfree.
Qed.

(** A create that is accepted. *)
Lemma CreateOp_Ok now o m m' : store_ok m -> CreateOp now o m = Some (Ok m') ->
  mByID m !! opID o = None /\ reserve o m = Ok tt /\ (opRequestID o <> "" -> mIdem m !! IdempotencyIndex o = None) /\ trim now (insert_record o m) = Some m'.
Proof.
  intros Hok. unfold CreateOp. case_bool_decide as Hdup; [done|].
  destruct (if negb (bool_decide (opRequestID o = "")) then _ else _) as [id|] eqn:Ei; [by destruct (mByID m !! id)|].
  destruct (reserve o m) as [[]|e] eqn:Er; [|done]. destruct (trim now _) as [m1|] eqn:Et; [|done]. simpl. intros [= <-].
  split_and!; [|done| |done].
  - by apply eq_None_not_Some.
  - intros Hr. by rewrite bool_decide_false in Ei.
Qed.

(** Replacing a record by one that revises it. *)
Lemma replace_ok o cur m : store_ok m -> mByID m !! opID o = Some cur -> revises cur o ->
  indexed (mOrder m) (<[opID o := o]> (mByID m)) (mIdem m) /\ exclusive (<[opID o := o]> (mByID m)).
Proof.
  intros [Hnd Hids Hn Hi Hs] Hcur [Hsc (Hr & Ha & Hid) Hend]. assert (IdempotencyIndex o = IdempotencyIndex cur) as Ex by (unfold IdempotencyIndex; by rewrite Hr, Ha, Hid).
  split; [split; [done| | |]|].
  - intros id. rewrite Hids. destruct (decide (id = opID o)) as [->|Hne]; [rewrite lookup_insert_eq, Hcur|rewrite lookup_insert_ne by done]; naive_solver.
  - intros id o'. rewrite lookup_insert_Some. intros [[<- <-]|[_ ?]]; [done|by apply Hn].
  - intros k id. rewrite Hi. destruct (decide (id = opID o)) as [->|Hne].
    + rewrite lookup_insert_eq, Hcur. split; intros (o' & [= <-] & Hr' & Hx); eexists; (split; [reflexivity|]); split; congruence.
    + by rewrite lookup_insert_ne.
  - intros id1 id2 o1 o2 s1 s2 Hne H1 H2 T1 T2 S1 S2. apply lookup_insert_Some in H1, H2.
    assert (Terminal o = false -> Terminal cur = false) as Hlive by (intros Ht; destruct (Terminal cur); [by rewrite Hend in Ht|done]).
    destruct H1 as [[<- <-]|[_ H1]], H2 as [[<- <-]|[_ H2]]; [done| | |by eapply (Hs id1 id2)].
    + eapply (Hs (opID o) id2); [done|done|done|auto|done|congruence|done].
    + eapply (Hs id1 (opID o)); [done|done|done|done|auto|done|congruence].
Qed.

Lemma UpdateOp_Ok now o m m' : UpdateOp now o m = Some (Ok m') ->
  exists cur, mByID m !! opID o = Some cur /\ opSequence o = (opSequence cur + 1)%Z /\
    trim now (mem_records (mOrder m) (<[opID o := o]> (mByID m)) (mIdem m) m) = Some m'.
Proof.
  unfold UpdateOp. destruct (mByID m !! opID o) as [cur|]; [|done]. destruct (Z.eqb_spec (opSequence cur) (opSequence o - 1)) as [E|]; [|done]. simpl.
  destruct (trim now _) as [m1|] eqn:Et; [|done]. simpl. intros [= <-]. exists cur. split_and!; [done|lia|done].
Qed.

(** ** Runs *)

(** A step of the store at a time, and what was asked of it. *)
Inductive store_step : MemOperations -> Z -> MemOperations -> Prop :=
| step_create m now o m' : CreateOp now o m = Some (Ok m') -> store_step m now m'
| step_update m now o cur m' : mByID m !! opID o = Some cur -> revises cur o -> (opUpdated cur <= opUpdated o)%Z ->
    UpdateOp now o m = Some (Ok m') -> store_step m now m'
| step_dir m now f : store_step m now (mkMem (mLimit m) f (mCapacity m) (mOrder m) (mByID m) (mIdem m)).

(** Runs whose steps happen up to a time. *)
Inductive store_run (until : Z) : MemOperations -> MemOperations -> Prop :=
| run_refl m : store_run until m m
| run_step m1 m2 m3 now : store_step m1 now m2 -> (now <= until)%Z -> store_run until m2 m3 -> store_run until m1 m3.

Definition new_store (limit capacity : Z) (f : option File) : MemOperations := mkMem limit f capacity [] ∅ ∅.

Lemma new_store_ok limit capacity f : store_ok (new_store limit capacity f).
Proof.
  split; simpl; [constructor| | | |]; intros *; rewrite ?lookup_empty; try done.
  - split; [by intros ?%elem_of_nil|by intros [? ?]].
  - split; [done|]. by intros (o & [=] & _).
Qed.

Lemma store_step_ok m now m' : store_ok m -> store_step m now m' -> store_ok m'.
Proof.
  intros Hok Hstep. destruct Hstep as [m now o m' Hc|m now o cur m' Hcur Hrev _ Hu|m now f].
  - destruct (CreateOp_Ok now o m m' Hok Hc) as (Hnew & Hres & Hidem & Ht).
    destruct (trim_ok now (insert_record o m) (insert_indexed o m Hok Hnew Hidem) (insert_exclusive o m Hok Hres)) as (m1 & Ht' & Hok' & _). congruence.
  - destruct (UpdateOp_Ok now o m m' Hu) as (cur' & Hcur' & _ & Ht). destruct (replace_ok o cur m Hok Hcur Hrev) as [Hix Hex].
    destruct (trim_ok now (mem_records (mOrder m) (<[opID o := o]> (mByID m)) (mIdem m) m) Hix Hex) as (m1 & Ht' & Hok' & _). congruence.
  - destruct Hok. by split.
Qed.

(** What a step does to one record: it stays, is revised, or is dropped because it may be. *)
Lemma store_step_record m now m' id o : store_ok m -> store_step m now m' -> mByID m !! id = Some o ->
  exists o', (mByID m' !! id = Some o' \/ mByID m' !! id = None /\ Prunable now o' = true) /\ revises o o' /\ (opUpdated o <= opUpdated o')%Z.
Proof.
  intros Hok Hstep Ho. assert (revises o o /\ (opUpdated o <= opUpdated o)%Z) as [Hrefl Hle] by (split; [by split|lia]).
  destruct Hstep as [m now o1 m' Hc|m now o1 cur m' Hcur Hrev Hup Hu|m now f]; [| |by exists o; auto].
  - destruct (CreateOp_Ok now o1 m m' Hok Hc) as (Hnew & Hres & Hidem & Ht).
    destruct (trim_ok now (insert_record o1 m) (insert_indexed o1 m Hok Hnew Hidem) (insert_exclusive o1 m Hok Hres)) as (m1 & Ht' & _ & Hd & _). simplify_eq.
    exists o. split; [|done]. apply Hd. simpl. rewrite lookup_insert_ne; [done|]. intros <-. congruence.
  - destruct (UpdateOp_Ok now o1 m m' Hu) as (cur' & Hcur' & _ & Ht). destruct (replace_ok o1 cur m Hok Hcur Hrev) as [Hix Hex].
    destruct (trim_ok now (mem_records (mOrder m) (<[opID o1 := o1]> (mByID m)) (mIdem m) m) Hix Hex) as (m1 & Ht' & _ & Hd & _). simplify_eq.
    destruct (decide (id = opID o1)) as [->|Hne].
    + simplify_eq. exists o1. split; [|done]. apply Hd. simpl. by rewrite lookup_insert_eq.
    + exists o. split; [|done]. apply Hd. simpl. by rewrite lookup_insert_ne.
Qed.

Lemma store_run_ok until m m' : store_ok m -> store_run until m m' -> store_ok m'.
Proof. intros Hok Hrun. induction Hrun as [|m1 m2 m3 now Hs _ _ IH]; [done|]. apply IH. by eapply store_step_ok. Qed.

(** Evidence and a request's key outlive any run that ends within the retention. *)
Definition kept_until (until : Z) (o : Operation) : Prop := opRequestID o <> "" /\ (until - opUpdated o < IdempotencyRetention)%Z.

Lemma kept_not_prunable until now o : kept_until until o -> (now <= until)%Z -> Prunable now o = false.
Proof.
  intros [Hr Hu] Hnow. unfold Prunable. destruct (negb _ || _); [done|]. rewrite bool_decide_false by done. simpl. apply Z.leb_gt. lia.
Qed.

Lemma kept_revised until o o' : kept_until until o -> revises o o' -> (opUpdated o <= opUpdated o')%Z -> kept_until until o'.
Proof. intros [Hr Hu] [_ (Hr' & _) _] Hle. split; [congruence|lia]. Qed.

Lemma store_run_kept until m m' id o : store_ok m -> store_run until m m' -> mByID m !! id = Some o -> kept_until until o ->
  exists o', mByID m' !! id = Some o' /\ revises o o' /\ kept_until until o'.
Proof.
  intros Hok Hrun. revert o. induction Hrun as [m|m1 m2 m3 now Hs Hnow Hrun IH]; intros o Ho Hk; [exists o; split_and!; [done|by split|done]|].
  destruct (store_step_record m1 now m2 id o Hok Hs Ho) as (o1 & [Ho1|[_ Hp]] & Hrev & Hup).
  - destruct (IH (store_step_ok _ _ _ Hok Hs) o1 Ho1 (kept_revised _ _ _ Hk Hrev Hup)) as (o2 & Ho2 & [S2 (K1 & K2 & K3) E2] & Hk2).
    exists o2. split_and!; [done| |done]. destruct Hrev as [S1 (L1 & L2 & L3) E1]. split; [congruence|split_and!; congruence|auto].
  - by rewrite (kept_not_prunable until now o1 (kept_revised _ _ _ Hk Hrev Hup) Hnow) in Hp.
Qed.

Lemma not_prunable_evidence now o : Terminal o = false \/ opEffectState o = EffectUncertain -> Prunable now o = false.
Proof. intros [H|H]; unfold Prunable; [by rewrite H|]. rewrite (bool_decide_true (opEffectState o = _)) by done. by rewrite orb_true_r. Qed.

Lemma Evidence_spec m o : store_ok m -> o ∈ Evidence m <-> mByID m !! opID o = Some o /\ (Terminal o = false \/ opEffectState o = EffectUncertain).
Proof.
  intros Hok. unfold Evidence. rewrite list_elem_of_In, filter_In, <- list_elem_of_In, orb_true_iff, negb_true_iff, bool_decide_eq_true, list_elem_of_omap.
  split.
  - intros [(id & _ & Hl) H]. by rewrite (st_names m Hok id o Hl).
  - intros [Hl H]. split; [|done]. exists (opID o). split; [|done]. apply elem_of_reverse, (st_ids m Hok). eauto.
Qed.

Lemma Create_replays now m o existing : store_ok m -> mByID m !! opID o = None -> mByID m !! opID existing = Some existing -> opRequestID o <> "" ->
  IdempotencyIndex existing = IdempotencyIndex o -> opRequestID existing <> "" -> CreateOp now o m = Some (Err (replay o existing)).
Proof.
  intros Hok Hnew Hex Hr Hx Hr'. unfold CreateOp. rewrite bool_decide_false by (rewrite Hnew; by intros [? ?]). rewrite bool_decide_false by done. simpl.
  assert (mIdem m !! IdempotencyIndex o = Some (opID existing)) as -> by (apply (st_idem m Hok); eauto). by rewrite Hex.
Qed.

Lemma CreateOp_total now m o : store_ok m -> exists r, CreateOp now o m = Some r.
Proof.
  intros Hok. unfold CreateOp. case_bool_decide as Hdup; [by eexists|].
  destruct (if negb (bool_decide (opRequestID o = "")) then _ else _) as [id|] eqn:Ei.
  - case_bool_decide; [done|]. simpl in Ei. apply (st_idem m Hok) in Ei as (o' & -> & _). by eexists.
  - destruct (reserve o m) as [[]|e] eqn:Er; [|by eexists].
    destruct (trim_ok now (insert_record o m)) as (m' & -> & _); [|by apply insert_exclusive|by eexists].
    apply insert_indexed; [done|by apply eq_None_not_Some|]. intros Hr. by rewrite bool_decide_false in Ei.
Qed.

(** ** Promises *)

(** C18: no two unfinished operations ever hold conflicting scopes: neither the same placement or
    cluster, nor a placement and a cluster it touches, however creates and updates follow each other.
    The updates are those of [store_step]: of a record that keeps its scope, request, actor and
    identity, that does not revive an ended record and does not set its time back.  [UpdateOp] itself
    checks only the sequence, so it is its callers that keep to them.  No create on such a store
    dereferences a missing record. *)
Theorem scopes_exclusive limit capacity f until m id1 id2 o1 o2 s1 s2
    (Hrun : store_run until (new_store limit capacity f) m) (Hne : id1 <> id2)
    (H1 : GetOp id1 m = Some o1) (H2 : GetOp id2 m = Some o2) (T1 : Terminal o1 = false) (T2 : Terminal o2 = false)
    (S1 : opScope o1 = Some s1) (S2 : opScope o2 = Some s2) :
  conflicts s1 s2 = false /\ scResource s1 <> scResource s2 /\ forall now o, exists r, CreateOp now o m = Some r.
Proof.
  pose proof (store_run_ok _ _ _ (new_store_ok limit capacity f) Hrun) as Hok.
  assert (conflicts s1 s2 = false) as Hc by (by eapply (st_scopes m Hok id1 id2)). split_and!; [done| |].
  - intros E. unfold conflicts in Hc. by rewrite bool_decide_true in Hc.
  - intros now o. by apply CreateOp_total.
Qed.

(** C38: once a request with an idempotency key is accepted, the same request (same actor, directory
    epoch, key and intent) made again within the retention, counted from the acceptance, is answered
    with that operation's record and writes nothing, whatever was created, trimmed or, by the updates
    of [store_step], updated in between; with another intent it is refused. *)
Theorem accepted_once until m0 m1 m2 now now' o o'
    (Hok : store_ok m0) (Hacc : CreateOp now o m0 = Some (Ok m1)) (Hnow : (now <= until)%Z) (Hrun : store_run until m1 m2)
    (Hkey : opRequestID o <> "") (Hkept : (until - opUpdated o < IdempotencyRetention)%Z)
    (Hsame : opRequestID o' = opRequestID o /\ opActor o' = opActor o /\ idEpoch (opIdentity o') = idEpoch (opIdentity o)) (Hid : GetOp (opID o') m2 = None) :
  exists cur, GetOp (opID o) m2 = Some cur /\ revises o cur /\ CreateOp now' o' m2 = Some (Err (replay o' cur)).
Proof.
  destruct (CreateOp_Ok now o m0 m1 Hok Hacc) as (Hnew & Hres & Hidem & Ht).
  destruct (trim_ok now (insert_record o m0) (insert_indexed o m0 Hok Hnew Hidem) (insert_exclusive o m0 Hok Hres)) as (m1' & Ht' & Hok1 & Hd & _). simplify_eq.
  assert (mByID m1 !! opID o = Some o) as Ho.
  { destruct (Hd (opID o) o) as [?|[_ Hp]]; [by apply lookup_insert_eq|done|]. by rewrite (kept_not_prunable until now o) in Hp. }
  destruct (store_run_kept until m1 m2 (opID o) o Hok1 Hrun Ho) as (cur & Hcur & Hrev & [Hr2 _]); [done|].
  pose proof (store_run_ok _ _ _ Hok1 Hrun) as Hok2. pose proof (st_names m2 Hok2 _ _ Hcur) as Hname.
  exists cur. split_and!; [done|done|]. destruct Hsame as (E1 & E2 & E3), Hrev as [_ (K1 & K2 & K3) _].
  apply Create_replays; [done|done|by rewrite Hname|congruence| |done]. unfold IdempotencyIndex. by rewrite K1, K2, K3, E1, E2, E3.
Qed.

(** A record that is unfinished, or whose effect is uncertain, is never dropped, however many newer records there are: a create leaves it as it is, an update of another record too, and an update of it to a record that is still evidence stores that one; what is evidence in the store is in the answer of [Evidence]. *)
Theorem evidence_kept m now m' o o1 (Hok : store_ok m) (Ho : o ∈ Evidence m) :
  (CreateOp now o1 m = Some (Ok m') -> GetOp (opID o) m' = Some o /\ o ∈ Evidence m') /\
  (forall cur, GetOp (opID o1) m = Some cur -> revises cur o1 -> UpdateOp now o1 m = Some (Ok m') ->
     (opID o1 <> opID o -> GetOp (opID o) m' = Some o /\ o ∈ Evidence m') /\
     (Terminal o1 = false \/ opEffectState o1 = EffectUncertain -> GetOp (opID o1) m' = Some o1 /\ o1 ∈ Evidence m')).
Proof.
  apply Evidence_spec in Ho as [Hl He]; [|done].
  assert (forall m1 o', store_ok m1 -> Terminal o' = false \/ opEffectState o' = EffectUncertain ->
    mByID m1 !! opID o' = Some o' \/ (mByID m1 !! opID o' = None /\ Prunable now o' = true) -> GetOp (opID o') m1 = Some o' /\ o' ∈ Evidence m1) as Hstay.
  { intros m1 o' Hok1 He' [Hl'|[_ Hp]]; [|by rewrite not_prunable_evidence in Hp]. split; [done|]. by apply Evidence_spec. }
  split.
  - intros Hc. destruct (CreateOp_Ok now o1 m m' Hok Hc) as (Hnew & Hres & Hidem & Ht).
    destruct (trim_ok now (insert_record o1 m) (insert_indexed o1 m Hok Hnew Hidem) (insert_exclusive o1 m Hok Hres)) as (m1 & Ht' & Hok' & Hd & _). simplify_eq.
    apply Hstay; [done|done|]. apply Hd. simpl. rewrite lookup_insert_ne; [done|]. intros E. rewrite E in Hnew. congruence.
  - intros cur Hcur Hrev Hu. destruct (UpdateOp_Ok now o1 m m' Hu) as (cur' & Hcur' & _ & Ht). destruct (replace_ok o1 cur m Hok Hcur Hrev) as [Hix Hex].
    destruct (trim_ok now (mem_records (mOrder m) (<[opID o1 := o1]> (mByID m)) (mIdem m) m) Hix Hex) as (m1 & Ht' & Hok' & Hd & _). simplify_eq. split.
    + intros Hne. apply Hstay; [done|done|]. apply Hd. simpl. by rewrite lookup_insert_ne.
    + intros He1. apply Hstay; [done|done|]. apply Hd. simpl. by rewrite lookup_insert_eq.
Qed.

End OpStore.

(** ** Examples *)

Definition example_op (id : string) (res : string) (clusters : list string) (key : string) : Operation :=
  mkOperation id OpRamp "" "" "ops" "lab" zeroIdentity (Some (mkScope res 0 clusters)) key "digest" 1 0 0 0 StatusPending EffectNone [] [] 0 None None None None
    PhaseQueued [] [] None 0 "" "" None.

Definition op_logs : Operation := example_op "1" (PlacementResource "t/logs") ["east"] "key-1".
Definition op_media : Operation := example_op "2" (PlacementResource "t/media") ["east"] "key-2".
Definition op_east : Operation := example_op "3" (ClusterResource "east") [] "key-3".

Definition created (o : Operation) (m : MemOperations) : MemOperations := match CreateOp id 0 o m with Some (Ok m') => m' | _ => m end.
Definition two_ops : MemOperations := created op_media (created op_logs (new_store 0 0 None)).

Lemma two_ops_run : store_run id 0 (new_store 0 0 None) two_ops.
Proof.
  eapply (run_step _ _ _ (created op_logs (new_store 0 0 None)) _ 0); [eapply step_create with (o := op_logs); vm_compute; reflexivity|lia|].
  eapply (run_step _ _ _ two_ops _ 0); [eapply step_create with (o := op_media); vm_compute; reflexivity|lia|]. apply run_refl.
Qed.

(** A cluster operation conflicts with an unfinished placement operation that touches the cluster. *)
Example cluster_busy : CreateOp id 0 op_east two_ops = Some (Err (ScopeBusyError "cluster:east" "1" "placement:t/logs")) \/
  CreateOp id 0 op_east two_ops = Some (Err (ScopeBusyError "cluster:east" "2" "placement:t/media")).
Proof. vm_compute. auto. Qed.

Lemma scopes_exclusive_witness : conflicts (mkScope (PlacementResource "t/logs") 0 ["east"]) (mkScope (PlacementResource "t/media") 0 ["east"]) = false /\
  scResource (mkScope (PlacementResource "t/logs") 0 ["east"]) <> scResource (mkScope (PlacementResource "t/media") 0 ["east"]) /\
  forall now o, exists r, CreateOp id now o two_ops = Some r.
Proof. eapply (scopes_exclusive id 0 0 None 0 two_ops "1" "2" op_logs op_media); [apply two_ops_run|done|vm_compute; reflexivity..]. Defined.

Lemma accepted_once_witness : exists cur, GetOp "1" two_ops = Some cur /\ revises op_logs cur /\
  CreateOp id 5 (example_op "9" (PlacementResource "t/logs") ["east"] "key-1") two_ops = Some (Err (replay (example_op "9" (PlacementResource "t/logs") ["east"] "key-1") cur)).
Proof.
  apply (accepted_once id 10 (new_store 0 0 None) (created op_logs (new_store 0 0 None)) two_ops 0 5 op_logs).
  - apply new_store_ok.
  - vm_compute. reflexivity.
  - lia.
  - eapply (run_step _ _ _ two_ops _ 0); [eapply step_create with (o := op_media); vm_compute; reflexivity|lia|]. apply run_refl.
  - done.
  - vm_compute. reflexivity.
  - by vm_compute.
  - vm_compute. reflexivity.
Defined.

Lemma evidence_kept_witness : op_logs ∈ Evidence (created op_logs (new_store 0 0 None)) /\ GetOp "1" two_ops = Some op_logs /\ op_logs ∈ Evidence two_ops.
Proof.
  assert (op_logs ∈ Evidence (created op_logs (new_store 0 0 None))) as He by (vm_compute; apply elem_of_cons; by left).
  split; [done|]. apply (evidence_kept id (created op_logs (new_store 0 0 None)) 0 two_ops op_logs op_media); [|done|vm_compute; reflexivity].
  apply (store_step_ok id (new_store 0 0 None) 0); [apply new_store_ok|]. apply (step_create id _ 0 op_logs). vm_compute. reflexivity.
Defined.
