(* ===== verification/Drain.v ===== *)
(** * What a drain barrier waits for (internal/control: barrier.go, ops.go, fleet.go)

    Before a held change is committed the control plane reads the fleet table and names whatever
    stands in the way: a member that is silent, that has not acknowledged the hold, that still has
    requests out through the gate, or an earlier process of it that ended without retiring.  No
    blocker means that every proxy that could have served the old routing has drained.  *)

From S2P Require Import Prelude Float64 KeyHash HashRange Config Placement Transition S3Op S3Names Route Backend Scopes Directory Admission Validate Keeper OpRecord.

(** ** The fleet table *)

Record Incarnation : Type := mkInc { inID : string; inStarted : Z; inEnded : Z; inState : string; inUncertain : Z; inAttestation : string; inResolvedBy : string; inResolvedAt : Z }.

Definition IncarnationActive : string := "active".
Definition IncarnationRetired : string := "retired".
Definition IncarnationUnclean : string := "unclean".
Definition IncarnationResolved : string := "resolved".

(** The fields of a member the barriers read; what it reports for display is left out. *)
Record Member : Type := mkMember {
  mbID : string;
  mbLive : bool;
  mbIncarnation : option Incarnation;
  mbUnresolved : list Incarnation;
  mbBarriers : list Ack;
  mbIdentity : Identity;
  mbApplied : Z;
  mbDurable : Z;
  mbInstalled : Z;
}.

(** [Member.Has] *)
Definition Has (m : Member) (id : Identity) (v : Z) : bool := bool_decide (mbIdentity m = id) && (v <=? mbApplied m)%Z.

(** [Member.Retired] *)
Definition Retired (m : Member) : bool :=
  match mbIncarnation m with Some i => bool_decide (inState i = IncarnationRetired) | None => false end.

Definition member_le (a b : Member) : Prop := String.le (mbID a) (mbID b).
#[export] Instance member_le_dec : RelDecision member_le.
Proof. intros a b. unfold member_le. apply _. Defined.

(** [Server.members]: the fleet table by id, or the error of reading it. *)
Definition members (table : result () (list Member)) : result () (list Member) := ms ← table; Ok (merge_sort member_le ms).

(** ** Blockers *)

(** The blockers of the processes of a member that ended without retiring. *)
Definition unresolvedBlockers (m : Member) : list Blocker :=
  List.map (fun inc => mkBlocker BlockerIncarnationUnresolved (mbID m) (inID inc) (inUncertain inc)) (mbUnresolved m).

Definition memberBlockers (id : string) (acks : list Ack) (durable : Z) (st : BarrierState) : list Blocker :=
  match List.find (fun a => bool_decide (akID a = bsID st)) acks with
  | None => [mkBlocker BlockerInstallPending id "" 0]
  | Some ack =>
      if (akGeneration ack <? bsGeneration st)%Z || negb (akClosed ack) then [mkBlocker BlockerInstallPending id "" 0]
      else
        (if (durable <? bsHoldVersion st)%Z then [mkBlocker BlockerCacheNotDurable id "" 0] else []) ++
        (if (0 <? akUncertain ack)%Z then [mkBlocker BlockerBackendOutcomeUnknown id "" (akUncertain ack)] else []) ++
        (if (0 <? akInflight ack)%Z then [mkBlocker BlockerOldRequests id "" (akInflight ack)] else [])
  end.

(** One member's part of [drainBlockers]. *)
Definition drainMember (cur : Identity) (st : BarrierState) (m : Member) : list Blocker :=
  unresolvedBlockers m ++
  (if Retired m then []
   else if negb (mbLive m) then [mkBlocker BlockerProxyMissing (mbID m) "" 0]
   else if negb (bool_decide (mbIdentity m = cur)) then [mkBlocker BlockerProxyMissing (mbID m) "" 0]
   else memberBlockers (mbID m) (mbBarriers m) (mbDurable m) st).

(** [drainBlockers]: [local] is a lab's own proxy (its name and acknowledgements), [extra] the
    barrier's own checks, which run only once the fleet has drained. *)
Definition drainBlockers (table : result () (list Member)) (dir : File) (local : option (string * list Ack)) (extra : option (result () (list Blocker)))
    (st : BarrierState) : result () (list Blocker) :=
  ms ← members table;
  let out := concat (List.map (drainMember (fIdentity dir) st) ms) ++
             match local with Some (node, acks) => memberBlockers node acks (fVersion dir) st | None => [] end in
  match extra with
  | Some extra => if bool_decide (out = []) then more ← extra; Ok (out ++ more) else Ok out
  | None => Ok out
  end.

(** One member's part of [versionBlockers]. *)
Definition versionMember (cur : Identity) (v : Z) (m : Member) : list Blocker :=
  unresolvedBlockers m ++
  (if Retired m then []
   else if negb (mbLive m) then [mkBlocker BlockerProxyMissing (mbID m) "" 0]
   else if negb (bool_decide (mbIdentity m = cur)) then [mkBlocker BlockerProxyMissing (mbID m) "" 0]
   else if (v <=? mbInstalled m)%Z && (mbApplied m <? v)%Z then [mkBlocker BlockerInstallBackpressure (mbID m) "" 0]
   else if negb (Has m cur v) then [mkBlocker BlockerInstallPending (mbID m) "" 0]
   else []).

Definition versionBlockers (table : result () (list Member)) (dir : File) (v : Z) : result () (list Blocker) :=
  ms ← members table; Ok (concat (List.map (versionMember (fIdentity dir) v) ms)).

(** ** What no blocker means *)

(** The acknowledgement of a drained proxy. *)
Definition drained_ack (acks : list Ack) (durable : Z) (st : BarrierState) : Prop :=
  exists ack, ack ∈ acks /\ akID ack = bsID st /\ (bsGeneration st <= akGeneration ack)%Z /\ akClosed ack = true /\
    (akInflight ack <= 0)%Z /\ (akUncertain ack <= 0)%Z /\ (bsHoldVersion st <= durable)%Z.

Lemma memberBlockers_nil id acks durable st : memberBlockers id acks durable st = [] -> drained_ack acks durable st.
Proof.
  unfold memberBlockers. destruct (List.find _ acks) as [ack|] eqn:E; [|done]. apply find_some in E as [Hin Hid].
  apply bool_decide_eq_true in Hid. destruct (Z.ltb_spec (akGeneration ack) (bsGeneration st)), (akClosed ack) eqn:Ec; simpl; try done.
  destruct (Z.ltb_spec durable (bsHoldVersion st)), (Z.ltb_spec 0 (akUncertain ack)), (Z.ltb_spec 0 (akInflight ack)); simpl; try done.
  intros _. exists ack. split_and!; [by apply list_elem_of_In|done..].
Qed.

Lemma unresolved_nil m : unresolvedBlockers m = [] <-> mbUnresolved m = [].
Proof. unfold unresolvedBlockers. destruct (mbUnresolved m); split; done. Qed.

(** What a member that stands in no one's way has shown. *)
Definition member_drained (cur : Identity) (st : BarrierState) (m : Member) : Prop :=
  mbUnresolved m = [] /\ (Retired m = true \/ mbLive m = true /\ mbIdentity m = cur /\ drained_ack (mbBarriers m) (mbDurable m) st).

Lemma drainMember_nil cur st m : drainMember cur st m = [] -> member_drained cur st m.
Proof.
  unfold drainMember, member_drained. intros [Hu H]%app_eq_nil. apply unresolved_nil in Hu. split; [done|].
  destruct (Retired m); [by left|right]. destruct (mbLive m); [|done]. simpl in H. case_bool_decide as Hid; [|done].
  simpl in H. split_and!; [done|done|]. by eapply memberBlockers_nil.
Qed.

Lemma members_Ok table ms : members table = Ok ms -> exists t, table = Ok t /\ ms ≡ₚ t.
Proof. unfold members. destruct table as [t|]; simpl; [|done]. intros [= <-]. exists t. split; [done|]. by rewrite merge_sort_Permutation. Qed.

Lemma concat_nil_all {A B} (f : A -> list B) l : concat (List.map f l) = [] -> forall x, x ∈ l -> f x = [].
Proof.
  induction l as [|y l IH]; simpl; [by intros _ x ?%elem_of_nil|]. intros [Hy Hl]%app_eq_nil x [->|Hx]%elem_of_cons; [done|by apply IH].
Qed.

Lemma drainBlockers_nil table dir local extra st : drainBlockers table dir local extra st = Ok [] ->
  exists t, table = Ok t /\ (forall m, m ∈ t -> member_drained (fIdentity dir) st m) /\
    (forall node acks, local = Some (node, acks) -> drained_ack acks (fVersion dir) st) /\ (forall r, extra = Some r -> r = Ok []).
Proof.
  unfold drainBlockers. destruct (members table) as [ms|] eqn:Em; simpl; [|done]. apply members_Ok in Em as (t & -> & Hperm).
  set (out := concat _ ++ _). intros H. assert (out = [] /\ forall r, extra = Some r -> r = Ok []) as [Hout Hex].
  { destruct extra as [r|]; [|split; [congruence|done]]. case_bool_decide as Ho; [|congruence]. rewrite Ho in H. simpl in H. split; [done|]. intros r' [= <-].
    by destruct r as [more|]; simpl in H; simplify_eq. }
  apply app_eq_nil in Hout as [Hms Hlocal]. exists t. split_and!; [done| | |done].
  - intros m Hm. apply drainMember_nil. eapply concat_nil_all; [exact Hms|]. by rewrite Hperm.
  - intros node acks ->. by eapply memberBlockers_nil.
Qed.

(** ** The fleet and its front ends *)

(** A member whose reported acknowledgements are those of its front end [x], which has installed [f]. *)
Definition reports (m : Member) (x : front) (f : File) : Prop :=
  (exists fs, fsteps new_front fs x) /\ frInstalled x = Some f /\ mbBarriers m = Acks (aGates (frState x)) f.

(** In a directory that carries the hold, only the held placement carries its barrier's id. *)
Definition held_by (f : File) (st : BarrierState) (key : string) (kind : Kind) : Prop :=
  bsScope st = PlacementResource key /\ bsID st <> "" /\
  (exists b, pBarrier (placement_at f key) = Some b /\ bID b = bsID st /\ KindOf (bKind b) = Some kind) /\
  forall a g, a ∈ Acks g f -> akID a = bsID st -> akScope a = PlacementResource key.

Lemma reported_drained m x f st key kind : reports m x f -> held_by f st key kind -> drained_ack (mbBarriers m) (mbDurable m) st -> drained (frState x) key kind.
Proof.
  intros ((fs & Hrun) & _ & Hacks) (_ & Hne & (b & Hb & Hbid & Hk) & Honly) (ack & Hin & Hid & _ & Hcl & Hi & _).
  destruct (fsteps_run _ _ _ Hrun) as [ls Hls]. rewrite Hacks in Hin. pose proof (Honly _ _ Hin Hid) as Hscope.
  pose proof (gsteps_counted _ _ _ Hls counted_new) as Hcnt.
  assert (akInflight ack = 0%Z) as Hz.
  { unfold Acks in Hin. rewrite merge_sort_Permutation, elem_of_app in Hin.
    destruct Hin as [([[k b'] kd] & <- & Hin')%list_elem_of_In%in_map_iff|([name b'] & <- & Hin')%list_elem_of_In%in_map_iff].
    - simpl in *. pose proof (Hcnt k kd) as E. unfold State_ in Hi |- *. rewrite E in Hi |- *. unfold out in *. lia.
    - exfalso. unfold cluster_ack in Hscope. by rewrite (proj1 (cluster_ack_fold _ _ _)) in Hscope. }
  destruct (ack_drained f (frState x) ls ack Hls Hin Hcl Hz) as [Hd _]. apply (Hd key b kind); [done|done|done|congruence].
Qed.

(** When the control plane finds nothing in a barrier's way, every proxy of the fleet table has been heard: no earlier process of any is unresolved, and each is retired, or live on this directory's lineage with its gate for the held placement closed and drained and the hold in its restart cache, when each proxy that is not retired reports from a directory that carries the hold. *)
Theorem no_blocker_no_writer table dir local extra st key kind f front_of
    (Hnone : drainBlockers table dir local extra st = Ok []) (Hheld : held_by f st key kind)
    (Hfront : forall t m, table = Ok t -> m ∈ t -> Retired m = false -> reports m (front_of (mbID m)) f) :
  exists t, table = Ok t /\ forall m, m ∈ t -> mbUnresolved m = [] /\
    (Retired m = true \/ mbLive m = true /\ mbIdentity m = fIdentity dir /\ (bsHoldVersion st <= mbDurable m)%Z /\
      drained (frState (front_of (mbID m))) key kind).
Proof.
  destruct (drainBlockers_nil _ _ _ _ _ Hnone) as (t & -> & Hall & _). exists t. split; [done|]. intros m Hm.
  destruct (Hall m Hm) as [Hu Hm']. split; [done|]. destruct (Retired m) eqn:Hr; [by left|right].
  destruct Hm' as [?|(Hl & Hi & Hack)]; [done|]. split_and!; [done|done| |].
  - by destruct Hack as (? & _ & _ & _ & _ & _ & _ & ?).
  - by eapply reported_drained; [apply (Hfront t)|..].
Qed.

(** C12: a change committed after the control plane found nothing in its barrier's way is separated on the whole fleet: at every proxy that is not retired, however its requests, installs and publishes go on from the drain it reported, no request that routes by a directory from before the commit is ever let through the held gate again. *)
Theorem commit_separates_fleet table dir local extra st key kind f front_of v m x fs
    (Hnone : drainBlockers table dir local extra st = Ok []) (Hheld : held_by f st key kind)
    (Hm : exists t, table = Ok t /\ m ∈ t) (Hserving : Retired m = false) (Hfront : reports m (front_of (mbID m)) f)
    (Hnow : forall g, frInstalled (front_of (mbID m)) = Some g \/ frServed (front_of (mbID m)) = Some g -> barred key kind v g)
    (Hbarred : Forall (barred key kind v) fs) (Hrun : fsteps (front_of (mbID m)) fs x) :
  forall tok, tok ∈ aHeld (frState x) -> tok.1 = (key, kind) -> (v <= tok.2)%Z.
Proof.
  destruct Hm as (t & Ht & Hm). destruct (drainBlockers_nil _ _ _ _ _ Hnone) as (t' & Ht' & Hall & _). rewrite Ht in Ht'. simplify_eq.
  destruct (Hall m Hm) as [_ [Hr|(_ & _ & Hack)]]; [congruence|]. destruct (Hfront) as ((fs0 & Hreach) & _ & _).
  eapply drained_separates; [exact Hreach|by eapply reported_drained|exact Hnow|exact Hbarred|exact Hrun].
Qed.

(** ** A fleet of one *)

Definition ex_state : BarrierState := mkBarrierState "b1" (PlacementResource ex_key) BarrierMutations 4 4 false 0 false 0 0 0 None.
Definition ex_member : Member := mkMember "p1" true (Some (mkInc "i" 0 0 IncarnationActive 0 "" "" 0)) [] [ex_ack] zeroIdentity 4 4 4.

Lemma ex_held_by : held_by ex_file ex_state ex_key Mutations.
Proof.
  split_and!; [done|done|by exists (mkBarrier "b1" BarrierMutations)|]. intros a g Ha _. unfold Acks in Ha. rewrite merge_sort_Permutation in Ha.
  assert (dvOwn (derive ex_file) = [(ex_key, mkBarrier "b1" BarrierMutations, Mutations)]) as E1 by (vm_compute; reflexivity).
  assert (dvClusters (derive ex_file) = []) as E2 by (vm_compute; reflexivity).
  rewrite E1, E2 in Ha. simpl in Ha. by apply list_elem_of_singleton in Ha as ->.
Qed.

Lemma ex_reports : reports ex_member ex_barred ex_file.
Proof. split; [exists [ex_file; ex_file]; apply ex_barred_run|]. split; vm_compute; reflexivity. Qed.

(** A member that has not acknowledged the hold is in the way, and one that drained is not. *)
Example ex_pending : drainBlockers (Ok [mkMember "p1" true (mbIncarnation ex_member) [] [] zeroIdentity 3 3 3]) ex_file None None ex_state =
  Ok [mkBlocker BlockerInstallPending "p1" "" 0].
Proof. vm_compute. reflexivity. Qed.

Lemma no_blocker_no_writer_witness : exists t, @Ok () _ [ex_member] = Ok t /\ forall m, m ∈ t -> mbUnresolved m = [] /\
  (Retired m = true \/ mbLive m = true /\ mbIdentity m = fIdentity ex_file /\ (bsHoldVersion ex_state <= mbDurable m)%Z /\ drained (frState ex_barred) ex_key Mutations).
Proof.
  apply (no_blocker_no_writer (Ok [ex_member]) ex_file None None ex_state ex_key Mutations ex_file (fun _ => ex_barred)).
  - vm_compute. reflexivity.
  - apply ex_held_by.
  - intros t m [= <-] ->%list_elem_of_singleton _. apply ex_reports.
Defined.

Lemma commit_separates_fleet_witness : exists x, fsteps ex_barred [ex_committed; ex_committed] x /\
  forall tok, tok ∈ aHeld (frState x) -> tok.1 = (ex_key, Mutations) -> (5 <= tok.2)%Z.
Proof.
  exists ex_served. assert (fsteps ex_barred [ex_committed; ex_committed] ex_served) as Hrun.
  { eapply (fss_cons _ (Some ex_committed) ex_installed); [apply fs_installed|]. eapply (fss_cons _ (Some ex_committed) ex_served); [apply fs_served|]. apply fss_nil. }
  split; [exact Hrun|].
  apply (commit_separates_fleet (Ok [ex_member]) ex_file None None ex_state ex_key Mutations ex_file (fun _ => ex_barred) 5 ex_member ex_served [ex_committed; ex_committed]).
  - vm_compute. reflexivity.
  - apply ex_held_by.
  - exists [ex_member]. split; [reflexivity|left].
  - vm_compute. reflexivity.
  - apply ex_reports.
  - intros g [[= <-]|[= <-]]; apply ex_barred_until; left.
  - repeat constructor; apply ex_barred_until; right; left.
  - exact Hrun.
Defined.
