(* ===== verification/Barrier.v ===== *)
(** * The drain barrier of an operation (internal/control: barrier.go, operation.go)

    The node that owns an operation drives its change in steps: the intent on the record, the hold in
    the directory, the drain of the fleet, the commit.  Other requests, on any node, may cancel the
    operation meanwhile.  The record is written by compare-and-swap on its sequence, the directory's
    hold by the barrier's id; nothing else orders them.

    The handlers are programs of atomic actions: a read or a compare-and-swap of the durable record, a
    write of the guarded scope, a poll of the fleet.  Between any two actions other handlers may act.
    What an action answers is chosen by its environment, replies may be lost after a write landed, and
    a handler may stop for good at any point.  The clock's readings are only stored and are one value
    here. *)

From S2P Require Import Prelude Float64 KeyHash HashRange Config Placement Transition S3Op S3Names Route Backend Scopes Directory Admission Validate Keeper OpRecord.

(** ** Actions and programs *)

Inductive updRes : Type := UOk | UStale | UFail.
Inductive commitErr : Type := CGone | CFailed (why : string).
Inductive relRes : Type := ROk | RConflict | RFail.

(** The actions of a handler.  [AHold], [ACommit] and [ARelease] are the barrier's [hold] and [commit]
    closures and [releaseHold], each one conditional write of the scope. *)
Inductive act : Type -> Type :=
| AGet : act (result () (option Operation))
| AUpdate (o : Operation) : act updRes
| AHold : act (result () (Z * Z))
| ACommit : act (result commitErr (Z * bool))
| ACarries : act (result () bool)
| ARelease : act relRes
| ADrain (st : BarrierState) : act (result string (list Blocker))
| AOwnerGone : act (result () bool)
| ASleep : act (result () ())
| ALost : act bool
| ASetLost : act ()
| AMarkLost : act ()
| AMoved : act bool
| ACtxEnded : act bool.

Inductive prog (A : Type) : Type :=
| Ret (a : A)
| Do {R : Type} (a : act R) (k : R -> prog A).
Arguments Ret {A} a.
Arguments Do {A R} a k.

Fixpoint bindp {A B} (p : prog A) (f : A -> prog B) : prog B :=
  match p with Ret a => f a | Do a k => Do a (fun r => bindp (k r) f) end.
Definition call {R} (a : act R) : prog R := Do a Ret.

Notation "x <- p ; k" := (bindp p (fun x => k)) (at level 100, p at next level, right associativity, only parsing) : shunt_scope.

(** ** The owner's run *)

(** How a run ends other than well: [errCanceled], [errLost], or another error. *)
Inductive runErr : Type := errCanceled | errLost | errOther.

Section Owner.
Context (node : string) (now : Z).

(** [tracker.put].  The mark [lost] is the tracker's; the rest of a tracker is its copy of the record,
    which the functions below take and return. *)
Definition put_op (o : Operation) : Operation := o |> op_Updated now |> op_Sequence (opSequence o + 1)%Z.

(** The owner's copy with what another supported writer put on the stored record. *)
Definition merge_stored (stored o : Operation) : Operation :=
  let o := o |> op_Worker (opWorker stored) in
  let o := match opCancelRequest stored with Some r => o |> op_CancelRequest (Some r) |> op_AllowedActions [] | None => o end in
  o |> op_Sequence (opSequence stored + 1)%Z.

Fixpoint put_retry (attempts : nat) (o : Operation) : prog (updRes * Operation) :=
  match attempts with
  | O => Ret (UStale, o)
  | S attempts =>
      got <- call AGet;
      match got with
      | Ok (Some stored) =>
          if negb (bool_decide (opNode stored = opNode o)) || negb (opOwnerTerm stored =? opOwnerTerm o)%Z || Terminal stored
          then Ret (UStale, o)
          else
            let o := merge_stored stored o in
            r <- call (AUpdate o);
            match r with UStale => put_retry attempts o | _ => Ret (r, o) end
      | _ => Ret (UStale, o)
      end
  end.

Definition put (o : Operation) : prog Operation :=
  lost <- call ALost;
  if (lost : bool) then Ret o
  else
    let o := put_op o in
    r <- call (AUpdate o);
    ro <- match r with UStale => put_retry 16 o | _ => Ret (r, o) end;
    match ro with
    | (UStale, o) => _ <- call ASetLost; Ret o
    | (UFail, o) => Ret (o |> op_Sequence (opSequence o - 1)%Z)
    | (UOk, o) => Ret o
    end.

(** [tracker.setBarrier], [phase], [blocked] *)
Definition setBarrier (st : BarrierState) (actions : list string) (o : Operation) : prog Operation :=
  put (o |> op_Barrier (Some st) |> op_AllowedActions actions).

Definition phase (p : string) (o : Operation) : prog Operation :=
  if bool_decide (opPhase o = p) then Ret o else put (o |> op_Phase p).

Definition blocked (bs : list Blocker) (o : Operation) : prog Operation :=
  let status := if bool_decide (bs = []) then StatusRunning else StatusBlocked in
  if bool_decide (opStatus o = status) && bool_decide (opBlockers o = bs) then Ret o
  else put (o |> op_Status status |> op_Blockers bs |> op_BlockerCount (Z.of_nat (length bs))).

(** [tracker.check]: the error to end a run with, when another request ended or took its record. *)
Definition check : prog (option runErr) :=
  lost <- call ALost;
  if (lost : bool) then
    got <- call AGet;
    Ret (Some match got with Ok (Some o) => if bool_decide (opStatus o = StatusCancelled) then errCanceled else errLost | _ => errLost end)
  else Ret None.

(** [blockUntil] for the drain; the polls are bounded by the fuel, after which the context has ended. *)
Fixpoint blockUntil (fuel : nat) (st : BarrierState) (o : Operation) : prog (Operation * option runErr) :=
  match fuel with
  | O => Ret (o, Some errOther)
  | S fuel =>
      c <- check;
      match c with
      | Some e => Ret (o, Some e)
      | None =>
          r <- call (ADrain st);
          let bs := match r with Ok bs => bs | Err why => [mkBlockerText BlockerQuorumUnavailable "" "" 0 why] end in
          o <- blocked bs o;
          if bool_decide (bs = []) then Ret (o, None)
          else
            s <- call ASleep;
            match s with Err _ => Ret (o, Some errOther) | Ok _ => blockUntil fuel st o end
      end
  end.

(** The commit loop of [runBarrier]: only destructive work already dispatched is retried. *)
Fixpoint commit_loop (fuel : nat) (o : Operation) : prog (Operation * result runErr Z) :=
  match fuel with
  | O => Ret (o, Err errOther)
  | S fuel =>
      r <- call ACommit;
      match r with
      | Ok (v, _) => o <- blocked [] o; Ret (o, Ok v)
      | Err CGone => Ret (o, Err errCanceled)
      | Err (CFailed why) =>
          if match opBarrier o with Some b => bsDispatchStarted b | None => false end then
            o <- blocked [mkBlockerText BlockerBackendOutcomeUnknown "" "" 0 why] o;
            s <- call ASleep;
            match s with
            | Err _ => Ret (o, Err errOther)
            | Ok _ => c <- check; match c with Some e => Ret (o, Err e) | None => commit_loop fuel o end
            end
          else Ret (o, Err errOther)
      end
  end.

Definition with_hold (v gen : Z) (st : BarrierState) : BarrierState :=
  mkBarrierState (bsID st) (bsScope st) (bsKind st) v gen (bsCommitted st) (bsCommitVersion st) (bsDispatchStarted st) now (bsDrainedAt st) (bsCommittedAt st) (bsPrior st).
Definition with_drained (st : BarrierState) : BarrierState :=
  mkBarrierState (bsID st) (bsScope st) (bsKind st) (bsHoldVersion st) (bsGeneration st) (bsCommitted st) (bsCommitVersion st) (bsDispatchStarted st) (bsHeldAt st) now (bsCommittedAt st) (bsPrior st).
Definition with_commit (v : Z) (st : BarrierState) : BarrierState :=
  mkBarrierState (bsID st) (bsScope st) (bsKind st) (bsHoldVersion st) (bsGeneration st) true v (bsDispatchStarted st) (bsHeldAt st) (bsDrainedAt st) now (bsPrior st).

(** The steps of [runBarrier]: the intent, the hold, the drain, the commit. *)
Definition intent (scope kind : string) (prior : option ReadOnlyPrior) (o : Operation) : prog (Operation * BarrierState) :=
  match opBarrier o with
  | Some st => Ret (o, st)
  | None =>
      let st := mkBarrierState (opID o) scope kind 0 0 false 0 false 0 0 0 prior in
      o <- setBarrier st [] o; Ret (o, st)
  end.

Definition take_hold (st : BarrierState) (o : Operation) : prog (Operation * result runErr BarrierState) :=
  if (bsHoldVersion st =? 0)%Z then
    o <- phase PhaseHold o;
    c <- check;
    match c with
    | Some e => Ret (o, Err e)
    | None =>
        h <- call AHold;
        match h with
        | Err _ => Ret (o, Err errOther)
        | Ok (v, gen) => let st := with_hold v gen st in o <- setBarrier st [ActionCancel] o; Ret (o, Ok st)
        end
    end
  else Ret (o, Ok st).

Definition drain (fuel : nat) (st : BarrierState) (o : Operation) : prog (Operation * result runErr BarrierState) :=
  carried <- call ACarries;
  match carried with
  | Err _ => Ret (o, Err errOther)
  | Ok false => Ret (o, Ok st)
  | Ok true =>
      o <- phase PhaseDrain o;
      oe <- blockUntil fuel st o;
      Ret match oe with (o, Some e) => (o, Err e) | (o, None) => (o, Ok (with_drained st)) end
  end.

Definition commit (fuel : nat) (st : BarrierState) (o : Operation) : prog (Operation * option runErr) :=
  o <- phase PhaseCommit o;
  c <- check;
  match c with
  | Some e => Ret (o, Some e)
  | None =>
      ov <- commit_loop fuel o;
      match ov with
      | (o, Err e) => Ret (o, Some e)
      | (o, Ok v) => o <- setBarrier (with_commit v st) [] o; Ret (o, None)
      end
  end.

Definition runBarrier (fuel : nat) (scope kind : string) (prior : option ReadOnlyPrior) (o : Operation) : prog (Operation * option runErr) :=
  os <- intent scope kind prior o;
  let '(o, st) := os in
  oh <- take_hold st o;
  match oh with
  | (o, Err e) => Ret (o, Some e)
  | (o, Ok st) =>
      if bsCommitted st then Ret (o, None)
      else
        od <- drain fuel st o;
        match od with
        | (o, Err e) => Ret (o, Some e)
        | (o, Ok st) => commit fuel st o
        end
  end.

(** [settleEffect]; [moved] is whether the directory moved past the version the run started on. *)
Definition settleEffect (moved : bool) (o : Operation) : Operation :=
  if bool_decide (opStatus o = StatusCancelled) && match opBarrier o with Some b => negb (bsCommitted b) | None => true end then o |> op_EffectState EffectNone
  else if bool_decide (opEffectState o = EffectNone) && ((0 <? opVersion o)%Z || moved) then o |> op_EffectState EffectCommitted
  else o.

(** [tracker.finish], for a result without a body; which code another error gets is not modelled. *)
Definition finish (e : option runErr) (o : Operation) : prog Operation :=
  let o := o |> op_Phase PhaseDone |> op_Blockers [] |> op_BlockerCount 0 |> op_AllowedActions [] in
  match e with
  | Some errLost => Ret o
  | _ =>
      let o := match e with
               | Some errCanceled => o |> op_Status StatusCancelled |> op_Error (Some (mkErr StatusCancelled))
               | Some _ => o |> op_Error (Some (mkErr "unavailable")) |> op_Status StatusFailed
               | None => o |> op_Status StatusSucceeded
               end in
      moved <- call AMoved;
      put (settleEffect moved o)
  end.

(** [operate] around [runBarrier]: the record says running, the barrier runs, the record ends, unless
    the server is stopping, which is owner loss.  The settling of a committed change, which only waits
    and reports, is left out. *)
Definition owner_run (fuel : nat) (scope kind : string) (prior : option ReadOnlyPrior) (o : Operation) : prog (Operation * option runErr) :=
  o <- put (o |> op_Status StatusRunning);
  oe <- runBarrier fuel scope kind prior o;
  let '(o, e) := oe in
  e <- match e with
       | Some _ => stopping <- call ACtxEnded; Ret (if (stopping : bool) && bool_decide (is_Some (opBarrier o)) then Some errLost else e)
       | None => Ret None
       end;
  o <- finish e o; Ret (o, e).

End Owner.

(** ** Cancellation *)

(** What a cancellation answers: canceled, by its own write or because it was already; or not. *)
Inductive answer : Type :=
| ACanceledNow
| ACanceledBefore
| ANotCancellable
| ARefused
| ANotFound
| AUnavailable
| AJoin.

Section Cancel.
Context (now : Z).

(** [updateRecord] *)
Fixpoint updateRecord (attempts : nat) (change : Operation -> result answer Operation) : prog (result answer (Operation * bool)) :=
  match attempts with
  | O => Ret (Err AUnavailable)
  | S attempts =>
      got <- call AGet;
      match got with
      | Err _ => Ret (Err AUnavailable)
      | Ok None => Ret (Err ANotFound)
      | Ok (Some cur) =>
          if Terminal cur then Ret (Ok (cur, false))
          else match change cur with
               | Err e => Ret (Err e)
               | Ok o =>
                   let o := o |> op_Sequence (opSequence o + 1)%Z |> op_Updated now in
                   r <- call (AUpdate o);
                   match r with UOk => Ret (Ok (o, true)) | UFail => Ret (Err AUnavailable) | UStale => updateRecord attempts change end
               end
      end
  end.

Definition notCancellable_answer (e : opErr) : answer := if bool_decide (erCode e = CodeNotCancellable) then ANotCancellable else ARefused.

(** The change of [cancelOperation]: the record ends canceled, unless it cannot be, or was taken over. *)
Definition cancel_change (fromNode : string) (fromTerm : Z) (ownerGone : bool) (cur : Operation) : result answer Operation :=
  if negb (bool_decide (opNode cur = fromNode)) || negb (opOwnerTerm cur =? fromTerm)%Z then Err ARefused
  else match notCancellable cur ownerGone with
       | Some e => Err (notCancellable_answer e)
       | None => Ok (cur |> op_Status StatusCancelled |> op_Phase PhaseDone |> op_Blockers [] |> op_BlockerCount 0 |> op_AllowedActions []
                         |> op_EffectState EffectNone |> op_Error (Some (mkErr StatusCancelled)))
       end.

(** [correctCommitted] *)
Definition corrected (cur : Operation) : Operation :=
  let o := match opBarrier cur with
           | Some b => cur |> op_Barrier (Some (mkBarrierState (bsID b) (bsScope b) (bsKind b) (bsHoldVersion b) (bsGeneration b) true (bsCommitVersion b)
                                                  (bsDispatchStarted b) (bsHeldAt b) (bsDrainedAt b) (bsCommittedAt b) (bsPrior b)))
           | None => cur
           end in
  o |> op_Status StatusFailed |> op_EffectState EffectCommitted |> op_Error (Some (mkErr CodeNotCancellable))
    |> op_Sequence (opSequence cur + 1)%Z |> op_Updated now.

Fixpoint correctCommitted (attempts : nat) : prog answer :=
  match attempts with
  | O => Ret AUnavailable
  | S attempts =>
      got <- call AGet;
      match got with
      | Err _ => Ret AUnavailable
      | Ok None => Ret ANotFound
      | Ok (Some cur) =>
          r <- call (AUpdate (corrected cur));
          match r with UOk => Ret ANotCancellable | UFail => Ret AUnavailable | UStale => correctCommitted attempts end
      end
  end.

(** [releaseCanceled]: whether a hold the canceled record may still carry is gone. *)
Definition releaseCanceled (o : Operation) : prog bool :=
  match opBarrier o with
  | None => Ret true
  | Some _ =>
      carried <- call ACarries;
      match carried with
      | Err _ => Ret false
      | Ok false => Ret true
      | Ok true => r <- call ARelease; Ret match r with RFail => false | _ => true end
      end
  end.

(** [cancelOperation] *)
Definition cancelOperation : prog answer :=
  got <- call AGet;
  match got with
  | Err _ => Ret AUnavailable
  | Ok None => Ret ANotFound
  | Ok (Some o) =>
      if bool_decide (opStatus o = StatusCancelled) then
        done <- releaseCanceled o; Ret (if (done : bool) then ACanceledBefore else AUnavailable)
      else if Terminal o then Ret ANotCancellable
      else if bool_decide (opKind o = OpControlJoin) then Ret AJoin
      else
        gone <- call AOwnerGone;
        match gone with
        | Err _ => Ret AUnavailable
        | Ok ownerGone =>
            match notCancellable o ownerGone with
            | Some e => Ret (notCancellable_answer e)
            | None =>
                u <- updateRecord 16 (cancel_change (opNode o) (opOwnerTerm o) ownerGone);
                match u with
                | Err e => Ret e
                | Ok (ended, false) => Ret (if bool_decide (opStatus ended = StatusCancelled) then ACanceledBefore else ANotCancellable)
                | Ok (ended, true) =>
                    _ <- call AMarkLost;
                    match opBarrier ended with
                    | None => Ret ACanceledNow
                    | Some b =>
                        carried <- call ACarries;
                        rel <- match carried with
                               | Ok true => r <- call ARelease; Ret match r with ROk => Ok true | RConflict => Ok false | RFail => Err () end
                               | _ => Ret carried
                               end;
                        match rel with
                        | Err _ => Ret AUnavailable
                        | Ok carried => if negb carried && (0 <? bsHoldVersion b)%Z then correctCommitted 16 else Ret ACanceledNow
                        end
                    end
                end
            end
        end
  end.

End Cancel.

(** ** Semantics *)

(** The guarded scope as the operation sees it: untouched, carrying its hold, or changed by its commit. *)
Inductive scopeState : Type := SFree | SHeld | SDone.

(** The durable record, the scope, and the mark of the owner's tracker. *)
Record world : Type := mkWorld { wRec : Operation; wScope : scopeState; wLost : bool }.

(** What the environment chooses for an action: it goes well, fails (having landed or not), or answers
    something the model leaves open. *)
Inductive choice : Type :=
| CPlain
| CFail (landed : bool) (why : string)
| CBool (b : bool)
| CVersion (v gen : Z)
| CSeen (v : Z)
| CBlockers (r : result string (list Blocker)).

Definition set_scope (d : scopeState) (w : world) : world := mkWorld (wRec w) d (wLost w).
Definition set_rec (o : Operation) (w : world) : world := mkWorld o (wScope w) (wLost w).
Definition set_lost (b : bool) (w : world) : world := mkWorld (wRec w) (wScope w) b.

(** The scope carries the operation's barrier. *)
Definition held (w : world) : bool := match wScope w with SHeld => true | _ => false end.

(** Whether an update finds the sequence it was read at. *)
Definition fresh (o : Operation) (w : world) : bool := (opSequence (wRec w) =? opSequence o - 1)%Z.

(** One action under a choice; [flaky] is whether a write of the record may fail for other reasons than
    its sequence.  [None]: the choice is not one of the action's.

    A commit lands only on a scope that carries the barrier; otherwise it finds its change already
    written, or its barrier gone, or is refused.  A release lands only on such a scope too.  [DirBarrier]
    shows that the directory's writes do no more than this. *)
Definition exec (flaky : bool) (c : choice) {R} (a : act R) (w : world) : option (R * world) :=
  match a in act R return option (R * world) with
  | AGet => match c with CPlain => Some (Ok (Some (wRec w)), w) | CFail _ why => Some (Err (), w) | _ => None end
  | AUpdate o =>
      match c with
      | CPlain => if fresh o w then Some (UOk, set_rec o w) else Some (UStale, w)
      | CFail landed why => if flaky then Some (UFail, if landed && fresh o w then set_rec o w else w) else None
      | _ => None
      end
  | AHold =>
      match c with
      | CVersion v gen => if (0 <? v)%Z then Some (Ok (v, gen), set_scope SHeld w) else None
      | CFail landed why => Some (Err (), if landed then set_scope SHeld w else w)
      | _ => None
      end
  | ACommit =>
      match c with
      | CVersion v _ => if held w then Some (Ok (v, false), set_scope SDone w) else None
      | CSeen v => Some (Ok (v, true), w)
      | CPlain => Some (Err CGone, w)
      | CFail landed why => Some (Err (CFailed why), if landed && held w then set_scope SDone w else w)
      | _ => None
      end
  | ACarries => match c with CPlain => Some (Ok (held w), w) | CFail _ why => Some (Err (), w) | _ => None end
  | ARelease =>
      match c with
      | CPlain => if held w then Some (ROk, set_scope SFree w) else Some (RConflict, w)
      | CBool _ => Some (RConflict, w)
      | CFail landed why => Some (RFail, if landed && held w then set_scope SFree w else w)
      | _ => None
      end
  | ADrain _ => match c with CBlockers r => Some (r, w) | _ => None end
  | AOwnerGone => match c with CBool b => Some (Ok b, w) | CFail _ why => Some (Err (), w) | _ => None end
  | ASleep => match c with CPlain => Some (Ok (), w) | CFail _ why => Some (Err (), w) | _ => None end
  | ALost => match c with CPlain => Some (wLost w, w) | _ => None end
  | ASetLost => match c with CPlain => Some ((), set_lost true w) | _ => None end
  | AMarkLost => match c with CBool b => Some ((), set_lost (wLost w || b) w) | _ => None end
  | AMoved => match c with CBool b => Some (b, w) | _ => None end
  | ACtxEnded => match c with CBool b => Some (b, w) | _ => None end
  end.

(** One owner and any number of cancellations; each may stop for good, cancellations arrive, and another
    operation's write may take the barrier off the scope. *)
Record sys : Type := mkSys { syWorld : world; syOwner : option (prog (Operation * option runErr)); syCancels : list (prog answer) }.

Inductive sys_step (now : Z) (flaky : bool) : sys -> sys -> Prop :=
| ss_owner w R (a : act R) k cs c r w' :
    exec flaky c a w = Some (r, w') -> sys_step now flaky (mkSys w (Some (Do a k)) cs) (mkSys w' (Some (k r)) cs)
| ss_cancel w o cs1 R (a : act R) k cs2 c r w' :
    exec true c a w = Some (r, w') -> sys_step now flaky (mkSys w o (cs1 ++ Do a k :: cs2)) (mkSys w' o (cs1 ++ k r :: cs2))
| ss_lost w p cs : sys_step now flaky (mkSys w (Some p) cs) (mkSys w None cs)
| ss_gone w o cs1 p cs2 : sys_step now flaky (mkSys w o (cs1 ++ p :: cs2)) (mkSys w o (cs1 ++ cs2))
| ss_clear w o cs : held w = true -> sys_step now flaky (mkSys w o cs) (mkSys (set_scope SFree w) o cs)
| ss_request w o cs : sys_step now flaky (mkSys w o cs) (mkSys w o (cs ++ [cancelOperation now])).
