(* ===== verification/BarrierSafe.v ===== *)
(** * Cancellation against commit (internal/control: barrier.go, operation.go)

    The handlers of [Barrier] run concurrently.  This file gives a small rely-guarantee logic for their
    programs and proves that a cancellation that ended the record and answered so is final: the
    guarded change is never committed, whatever the owner was doing.  Two runs show where the code
    promises more than it keeps. *)

From S2P Require Import Prelude Float64 KeyHash HashRange Config Placement Transition S3Op S3Names Route Backend Scopes Directory Admission Validate Keeper OpRecord Barrier.

(** ** A logic for programs under interference *)

Section Logic.
Context (flaky : bool) (rely guar : world -> world -> Prop).

(** From [w], whatever the others do between its actions, [p] keeps its guarantee and ends in [Q]. *)
Fixpoint wp {A} (p : prog A) (Q : A -> world -> Prop) (w : world) {struct p} : Prop :=
  match p with
  | Ret a => Q a w
  | Do a k => forall w1, rely w w1 -> forall c r w2, exec flaky c a w1 = Some (r, w2) -> guar w1 w2 /\ wp (k r) Q w2
  end.

Lemma wp_bind {A B} (p : prog A) (f : A -> prog B) Q w : wp p (fun a w => wp (f a) Q w) w -> wp (bindp p f) Q w.
Proof.
  revert w. induction p as [a|R a k IH]; intros w; simpl; [done|]. intros H w1 Hr c r w2 He. destruct (H w1 Hr c r w2 He) as [Hg Hk].
  split; [done|]. by apply IH.
Qed.

Lemma wp_mono {A} (p : prog A) (Q Q' : A -> world -> Prop) w : (forall a w, Q a w -> Q' a w) -> wp p Q w -> wp p Q' w.
Proof.
  intros HQ. revert w. induction p as [a|R a k IH]; intros w; simpl; [apply HQ|]. intros H w1 Hr c r w2 He. destruct (H w1 Hr c r w2 He) as [Hg Hk].
  split; [done|]. by apply IH.
Qed.

Lemma wp_call {R} (a : act R) Q w :
  (forall w1, rely w w1 -> forall c r w2, exec flaky c a w1 = Some (r, w2) -> guar w1 w2 /\ Q r w2) -> wp (call a) Q w.
Proof. done. Qed.

End Logic.

(** ** What the handlers may do to the world *)

(** The record shows a hold. *)
Definition shows_hold (o : Operation) : bool := match opBarrier o with Some b => (0 <? bsHoldVersion b)%Z | None => false end.

(** A record only changes with its sequence. *)
Definition rec_step (o o' : Operation) : Prop := o' = o \/ (opSequence o < opSequence o')%Z.

(** What the other writers do: they never change whether the record shows a hold, never revive it, and
    only release the scope. *)
Record others (w w' : world) : Prop := {
  ot_rec : rec_step (wRec w) (wRec w');
  ot_hold : shows_hold (wRec w') = shows_hold (wRec w);
  ot_end : Terminal (wRec w) = true -> Terminal (wRec w') = true;
  ot_lost : wLost w = true -> wLost w' = true;
  ot_scope : wScope w' = wScope w \/ wScope w = SHeld /\ wScope w' = SFree;
}.

(** What the owner does: it writes no ended record, holds the scope only while the record shows no hold,
    and commits only once it does. *)
Record owner (w w' : world) : Prop := {
  ow_rec : rec_step (wRec w) (wRec w');
  ow_end : Terminal (wRec w) = true -> wRec w' = wRec w;
  ow_hold : shows_hold (wRec w) = true -> shows_hold (wRec w') = true;
  ow_lost : wLost w = true -> wLost w' = true;
  ow_scope : wScope w' = wScope w \/ (wScope w' = SHeld /\ shows_hold (wRec w) = false /\ wRec w' = wRec w) \/
    (wScope w = SHeld /\ wScope w' = SDone /\ shows_hold (wRec w') = true);
}.

Lemma rec_step_refl o : rec_step o o.
Proof. by left. Qed.
Lemma rec_step_trans o1 o2 o3 : rec_step o1 o2 -> rec_step o2 o3 -> rec_step o1 o3.
Proof. intros [->|H1] [->|H2]; [by left|by right|by right|right; lia]. Qed.

Lemma others_refl w : others w w.
Proof. split; auto using rec_step_refl. Qed.
Lemma others_trans w1 w2 w3 : others w1 w2 -> others w2 w3 -> others w1 w3.
Proof.
  intros [R1 H1 E1 L1 S1] [R2 H2 E2 L2 S2]. split; [by eapply rec_step_trans|congruence|auto|auto|].
  destruct S1 as [S1|[S1 S1']], S2 as [S2|[S2 S2']]; [left|right|right|]; try (split; congruence); congruence.
Qed.
Lemma owner_refl w : owner w w.
Proof. split; auto using rec_step_refl. Qed.

(** An action that only reads. *)
Lemma owner_same w w' : wRec w' = wRec w -> wScope w' = wScope w -> (wLost w = true -> wLost w' = true) -> owner w w'.
Proof. intros E1 E2 E3. split; rewrite ?E1; auto using rec_step_refl. Qed.

(** ** The owner's run *)

Section OwnerRun.
Context (now : Z).

#[local] Abbreviation wpo := (wp false others owner).

(** The owner knows the record it copied: it was not ended then, and shows the same hold. *)
Definition knows (o : Operation) (w : world) : Prop :=
  (opSequence o <= opSequence (wRec w))%Z /\ (opSequence (wRec w) = opSequence o -> Terminal (wRec w) = false) /\ shows_hold (wRec w) = shows_hold o.
Definition informed (o : Operation) (w : world) : Prop := wLost w = true \/ knows o w.

(** What a write needs: as [knows], but the copy may show a hold the record does not yet. *)
Definition may_put (o : Operation) (w : world) : Prop :=
  wLost w = true \/ ((opSequence o <= opSequence (wRec w))%Z /\ (opSequence (wRec w) = opSequence o -> Terminal (wRec w) = false) /\
    (shows_hold (wRec w) = true -> shows_hold o = true)).

Definition same (o o' : Operation) : Prop := opBarrier o' = opBarrier o /\ opStatus o' = opStatus o /\ opPhase o' = opPhase o.

Lemma same_hold o o' : same o o' -> shows_hold o' = shows_hold o.
Proof. intros (E & _). unfold shows_hold. by rewrite E. Qed.
Lemma same_end o o' : same o o' -> Terminal o' = Terminal o.
Proof. intros (_ & E & _). unfold Terminal. by rewrite E. Qed.
Lemma same_trans o1 o2 o3 : same o1 o2 -> same o2 o3 -> same o1 o3.
Proof. intros (? & ? & ?) (? & ? & ?). split_and!; congruence. Qed.
Lemma same_merge stored o : same o (merge_stored stored o).
Proof. unfold merge_stored. destruct (opCancelRequest stored); by split_and!. Qed.

Lemma seq_stable (n : Z) w w' : rec_step (wRec w) (wRec w') -> (n <= opSequence (wRec w))%Z -> (opSequence (wRec w) = n -> Terminal (wRec w) = false) ->
  (n <= opSequence (wRec w'))%Z /\ (opSequence (wRec w') = n -> Terminal (wRec w') = false).
Proof. intros [->|H] H1 H2; [done|]. split; [lia|]. intros. lia. Qed.

Lemma informed_others o w w' : informed o w -> others w w' -> informed o w'.
Proof.
  intros [Hl|(H1 & H2 & H3)] Hr; [left; by apply (ot_lost _ _ Hr)|right]. destruct (seq_stable _ _ _ (ot_rec _ _ Hr) H1 H2).
  split_and!; [done|done|]. by rewrite (ot_hold _ _ Hr).
Qed.
Lemma may_put_others o w w' : may_put o w -> others w w' -> may_put o w'.
Proof.
  intros [Hl|(H1 & H2 & H3)] Hr; [left; by apply (ot_lost _ _ Hr)|right]. destruct (seq_stable _ _ _ (ot_rec _ _ Hr) H1 H2).
  split_and!; [done|done|]. by rewrite (ot_hold _ _ Hr).
Qed.

(** Replacing the record by one over the sequence it has. *)
Lemma owner_update o w : opSequence (wRec w) = (opSequence o - 1)%Z -> Terminal (wRec w) = false -> (shows_hold (wRec w) = true -> shows_hold o = true) ->
  owner w (set_rec o w).
Proof. intros Hs Ht Hh. split; simpl; [right; lia|congruence|done|done|by left]. Qed.

Definition put_done (o : Operation) (ro : updRes * Operation) (w : world) : Prop :=
  same o ro.2 /\ ro.1 <> UFail /\ (ro.1 = UOk -> wRec w = ro.2).

Lemma put_retry_ok attempts o w : (shows_hold (wRec w) = true -> shows_hold o = true) -> wpo (put_retry attempts o) (put_done o) w.
Proof.
  revert o w. induction attempts as [|attempts IH]; intros o w Hh; simpl; [by split_and!|].
  intros w1 Hr c r w2 He. destruct c; simpl in He; simplify_eq; (split; [apply owner_refl|]); [|by split_and!].
  destruct (_ || Terminal (wRec w2)) eqn:Hend; [by split_and!|]. apply orb_false_iff in Hend as [_ Hend].
  set (o1 := merge_stored (wRec w2) o). intros w3 Hr3 c3 r3 w4 He3.
  assert (shows_hold (wRec w3) = true -> shows_hold o1 = true) as Hh3.
  { rewrite (ot_hold _ _ Hr3), (ot_hold _ _ Hr), (same_hold o o1 (same_merge _ _)). done. }
  destruct c3; simpl in He3; simplify_eq. unfold fresh in He3. destruct (Z.eqb_spec (opSequence (wRec w3)) (opSequence o1 - 1)) as [E|E]; simplify_eq; simpl.
  - assert (wRec w3 = wRec w2) as E3.
    { destruct (ot_rec _ _ Hr3) as [?|Hlt]; [done|]. unfold o1, merge_stored in E. destruct (opCancelRequest (wRec w2)); simpl in E; lia. }
    split; [apply owner_update; [done|by rewrite E3|done]|]. split_and!; [apply same_merge|done|done].
  - split; [apply owner_refl|]. eapply wp_mono; [|apply IH; exact Hh3]. intros [r' o'] w' (S1 & S2 & S3).
    split_and!; [|done|done]. eapply same_trans; [apply same_merge|exact S1].
Qed.

#[local] Arguments put_retry : simpl never.

(** A write by the owner: the record has it, or the owner is marked lost. *)
Lemma put_ok o w : may_put o w -> wpo (put now o) (fun o' w' => same o o' /\ (Terminal o = false -> informed o' w')) w.
Proof.
  intros Hm. simpl. intros w1 Hr c r w2 He. destruct c; simpl in He; simplify_eq. split; [apply owner_refl|].
  pose proof (may_put_others _ _ _ Hm Hr) as Hm2. destruct (wLost w2) eqn:Hlost; [split; [by split_and!|by left]|].
  destruct Hm2 as [?|(H1 & H2 & H3)]; [congruence|]. simpl. intros w3 Hr3 c3 r3 w4 He3.
  destruct (seq_stable _ _ _ (ot_rec _ _ Hr3) H1 H2) as [H1' H2'].
  assert (shows_hold (wRec w3) = true -> shows_hold (put_op now o) = true) as Hh by (rewrite (ot_hold _ _ Hr3); exact H3).
  assert (forall ro w, put_done (put_op now o) ro w ->
    wpo match ro with (UStale, o) => Do ASetLost (fun _ => Ret o) | (UFail, o) => Ret (op_Sequence (opSequence o - 1) o) | (UOk, o) => Ret o end
      (fun o' w' => same o o' /\ (Terminal o = false -> informed o' w')) w) as Hend.
  { intros [r o'] w0 (S1 & S2 & S3). simpl in *. destruct r; [|intros w5 _ c5 r5 w6 He5; destruct c5; simpl in He5; simplify_eq|done].
    - split; [exact S1|]. intros Ht. right. unfold knows. rewrite (S3 eq_refl). split_and!; [done| |done]. intros _. by rewrite (same_end _ _ S1).
    - split; [by apply owner_same|]. split; [exact S1|]. by left. }
  destruct c3; simpl in He3; simplify_eq. unfold fresh in He3. destruct (Z.eqb_spec (opSequence (wRec w3)) (opSequence (put_op now o) - 1)) as [E|E]; simplify_eq.
  - simpl in E. split; [apply owner_update; [done|apply H2'; lia|done]|]. apply (Hend (UOk, put_op now o)). by split_and!.
  - split; [apply owner_refl|]. apply wp_bind. eapply wp_mono; [|apply put_retry_ok; exact Hh]. intros ro w'. apply Hend.
Qed.

#[local] Arguments put : simpl never.

(** A copy that is not ended and that the owner is informed of. *)
Definition live (o : Operation) (w : world) : Prop := informed o w /\ Terminal o = false.

Lemma live_others o w w' : live o w -> others w w' -> live o w'.
Proof. intros [Hi Ht] Hr. split; [by eapply informed_others|done]. Qed.

Lemma informed_may_put o o' w : informed o w -> opSequence o' = opSequence o -> (shows_hold o = true -> shows_hold o' = true) -> may_put o' w.
Proof. intros [?|(H1 & H2 & H3)] Hs Hh; [by left|right]. rewrite Hs. split_and!; [done|done|]. by rewrite H3. Qed.

(** A write of a copy that keeps the barrier. *)
Lemma put_live o o1 w : informed o w -> opSequence o1 = opSequence o -> opBarrier o1 = opBarrier o -> Terminal o1 = false ->
  wpo (put now o1) (fun o' w' => live o' w' /\ opBarrier o' = opBarrier o) w.
Proof.
  intros Hi Hs Hb Ht. eapply wp_mono; [|apply put_ok; eapply informed_may_put; [exact Hi|exact Hs|unfold shows_hold; by rewrite Hb]].
  intros o' w' [S1 Hi']. split; [split; [by apply Hi'|]|].
  - by rewrite (same_end _ _ S1).
  - destruct S1 as (-> & _). exact Hb.
Qed.

Lemma phase_ok p o w : live o w -> wpo (phase now p o) (fun o' w' => live o' w' /\ opBarrier o' = opBarrier o) w.
Proof. intros [Hi Ht]. unfold phase. case_bool_decide; [by split|]. by apply put_live. Qed.

Lemma blocked_ok bs o w : live o w -> wpo (blocked now bs o) (fun o' w' => live o' w' /\ opBarrier o' = opBarrier o) w.
Proof.
  intros [Hi Ht]. unfold blocked. destruct (_ && _); [by split|]. apply put_live; [exact Hi|done|done|].
  unfold Terminal. simpl. by destruct (bool_decide (bs = [])).
Qed.

Lemma setBarrier_ok st actions o w : live o w -> (shows_hold o = true -> (0 < bsHoldVersion st)%Z) ->
  wpo (setBarrier now st actions o) (fun o' w' => live o' w' /\ opBarrier o' = Some st) w.
Proof.
  intros [Hi Ht] Hh. unfold setBarrier. eapply wp_mono; [|apply put_ok; eapply informed_may_put; [exact Hi|done|]].
  - intros o' w' [S1 Hi']. destruct (S1) as (Hb & _). split; [|exact Hb]. split; [by apply Hi'|]. by rewrite (same_end _ _ S1).
  - intros H. unfold shows_hold. simpl. apply Z.ltb_lt. by apply Hh.
Qed.

(** A check that passes was made while the owner knew the record. *)
Lemma check_ok o w : live o w -> wpo check (fun c w' => live o w' /\ (c = None -> shows_hold (wRec w') = shows_hold o)) w.
Proof.
  intros Hl. simpl. intros w1 Hr c r w2 He. destruct c; simpl in He; simplify_eq. split; [apply owner_refl|].
  pose proof (live_others _ _ _ Hl Hr) as Hl2. destruct (wLost w2) eqn:Hlost.
  - simpl. intros w3 Hr3 c3 r3 w4 He3. assert (live o w3) as Hl3 by by eapply live_others. destruct c3; simpl in He3; simplify_eq; (split; [apply owner_refl|done]).
  - simpl. split; [done|]. intros _. destruct Hl2 as [[?|(_ & _ & E)] _]; [congruence|done].
Qed.

#[local] Arguments phase : simpl never.
#[local] Arguments blocked : simpl never.
#[local] Arguments setBarrier : simpl never.
#[local] Arguments check : simpl never.

(** An action of the owner that only reads, or waits. *)
Lemma owner_reads {R} (a : act R) c w r w' : exec false c a w = Some (r, w') ->
  match a with AGet | ACarries | ADrain _ | ASleep | ALost | AMoved | ACtxEnded => True | _ => False end -> w' = w.
Proof. destruct a; try done; destruct c; simpl; intros; simplify_eq; done. Qed.

Lemma blockUntil_ok fuel st o w : live o w -> wpo (blockUntil now fuel st o) (fun oe w' => live oe.1 w' /\ opBarrier oe.1 = opBarrier o) w.
Proof.
  revert o w. induction fuel as [|fuel IH]; intros o w Hl; [by split|]. cbn [blockUntil]. apply wp_bind.
  eapply wp_mono; [|by apply check_ok]. intros c w1 [Hl1 _]. destruct c as [e|]; [by split|]. apply wp_bind. apply wp_call.
  intros w2 Hr c r w3 He. apply owner_reads in He as ->; [|done]. split; [apply owner_refl|]. apply wp_bind.
  eapply wp_mono; [|apply blocked_ok; by eapply live_others]. intros o2 w4 [Hl4 Hb4]. case_bool_decide; [by split|]. apply wp_bind. apply wp_call.
  intros w5 Hr5 c5 r5 w6 He5. apply owner_reads in He5 as ->; [|done]. split; [apply owner_refl|]. assert (live o2 w5) as Hl5 by by eapply live_others.
  destruct r5; [|by split]. eapply wp_mono; [|apply IH; exact Hl5]. intros oe w7 [H1 H2]. split; [done|congruence].
Qed.

(** Committing, while the record shows the hold. *)
Lemma commit_step w c r w' : exec false c ACommit w = Some (r, w') -> shows_hold (wRec w) = true -> owner w w' /\ wRec w' = wRec w /\ (wLost w = true -> wLost w' = true).
Proof.
  intros He Hh. assert (held w = true -> owner w (set_scope SDone w)) as Hdone.
  { unfold held. destruct (wScope w) eqn:Es; [done| |done]. intros _. split; simpl; auto using rec_step_refl. }
  destruct c; simpl in He; simplify_eq; try (split_and!; [apply owner_refl|done|done]).
  - destruct landed, (held w); simpl; split_and!; auto using owner_refl.
  - destruct (held w); simplify_eq. split_and!; auto.
Qed.

Lemma owner_keeps_live o w w' : live o w -> wRec w' = wRec w -> (wLost w = true -> wLost w' = true) -> live o w'.
Proof. intros [[Hl|Hk] Ht] E1 E2; (split; [|done]); [left; auto|right]. unfold knows. by rewrite E1. Qed.

Lemma commit_loop_ok fuel o w : live o w -> shows_hold o = true -> shows_hold (wRec w) = true ->
  wpo (commit_loop now fuel o) (fun ov w' => live ov.1 w' /\ opBarrier ov.1 = opBarrier o) w.
Proof.
  revert o w. induction fuel as [|fuel IH]; intros o w Hl Ho Hw; [by split|]. cbn [commit_loop]. apply wp_bind. apply wp_call.
  intros w1 Hr c r w2 He. assert (shows_hold (wRec w1) = true) as Hw1 by (rewrite (ot_hold _ _ Hr); exact Hw).
  destruct (commit_step _ _ _ _ He Hw1) as (Hg & Er & El). split; [exact Hg|].
  assert (live o w2) as Hl2 by (eapply owner_keeps_live; [by eapply live_others|exact Er|exact El]).
  destruct r as [[v already]|[|]]; [|by split|].
  - apply wp_bind. eapply wp_mono; [|by apply blocked_ok]. intros o3 w3 [H1 H2]. by split.
  - destruct (match opBarrier o with Some b => bsDispatchStarted b | None => false end); [|by split]. apply wp_bind.
    eapply wp_mono; [|by apply blocked_ok]. intros o3 w3 [Hl3 Hb3]. apply wp_bind. apply wp_call.
    intros w4 Hr4 c4 r4 w5 He4. apply owner_reads in He4 as ->; [|done]. split; [apply owner_refl|]. assert (live o3 w4) as Hl4 by by eapply live_others.
    destruct r4; [|by split]. apply wp_bind. eapply wp_mono; [|apply check_ok; exact Hl4]. intros c5 w6 [Hl6 Hc]. destruct c5 as [e|]; [by split|].
    assert (shows_hold o3 = true) as Ho3 by (unfold shows_hold; rewrite Hb3; exact Ho).
    eapply wp_mono; [|apply IH; [exact Hl6|exact Ho3|rewrite Hc by done; exact Ho3]]. intros ov w7 [H1 H2]. split; [done|congruence].
Qed.

#[local] Arguments blockUntil : simpl never.
#[local] Arguments commit_loop : simpl never.

Definition sane (o : Operation) : Prop := forall st, opBarrier o = Some st -> (0 <= bsHoldVersion st)%Z.

Lemma intent_ok scope kind prior o w : live o w -> sane o ->
  wpo (intent now scope kind prior o) (fun os w' => live os.1 w' /\ opBarrier os.1 = Some os.2 /\ (0 <= bsHoldVersion os.2)%Z) w.
Proof.
  intros Hl Hsane. unfold intent. destruct (opBarrier o) as [st|] eqn:Eb; [split_and!; [done|done|by apply Hsane]|]. apply wp_bind.
  eapply wp_mono; [|apply setBarrier_ok; [exact Hl|unfold shows_hold; by rewrite Eb]]. intros o' w' [H1 H2]. by split_and!.
Qed.

(** Holding, while the record shows no hold. *)
Lemma hold_step w c r w' : exec false c AHold w = Some (r, w') -> shows_hold (wRec w) = false ->
  owner w w' /\ wRec w' = wRec w /\ (wLost w = true -> wLost w' = true) /\ (forall v gen, r = Ok (v, gen) -> (0 < v)%Z).
Proof.
  intros He Hh. assert (owner w (set_scope SHeld w)) as Hheld by (split; simpl; auto 6 using rec_step_refl).
  destruct c as [|landed why|b|v gen|v|l]; simpl in He; simplify_eq.
  - destruct landed; split_and!; auto using owner_refl; done.
  - destruct (Z.ltb_spec 0 v); simplify_eq. split_and!; [done..|]. intros ? ? [= <- <-]. done.
Qed.

Lemma take_hold_ok st o w : live o w -> opBarrier o = Some st -> (0 <= bsHoldVersion st)%Z ->
  wpo (take_hold now st o) (fun oh w' => live oh.1 w' /\ forall st', oh.2 = Ok st' -> opBarrier oh.1 = Some st' /\ (0 < bsHoldVersion st')%Z) w.
Proof.
  intros Hl Hb Hv. unfold take_hold. destruct (Z.eqb_spec (bsHoldVersion st) 0) as [E|E]; [|split; [done|]; intros st' [= <-]; split; [done|lia]].
  apply wp_bind. eapply wp_mono; [|by apply phase_ok]. intros o1 w1 [Hl1 Hb1]. apply wp_bind. eapply wp_mono; [|apply check_ok; exact Hl1].
  intros c w2 [Hl2 Hc]. destruct c as [e|]; [by split|]. assert (shows_hold o1 = false) as Hs by (unfold shows_hold; rewrite Hb1, Hb, E; done).
  apply wp_bind. apply wp_call. intros w3 Hr c r w4 He.
  assert (shows_hold (wRec w3) = false) as Hs3 by (rewrite (ot_hold _ _ Hr), Hc by done; exact Hs).
  destruct (hold_step _ _ _ _ He Hs3) as (Hg & Er & El & Hpos). split; [exact Hg|].
  assert (live o1 w4) as Hl4 by (eapply owner_keeps_live; [by eapply live_others|exact Er|exact El]).
  destruct r as [[v gen]|]; [|by split]. specialize (Hpos v gen eq_refl). apply wp_bind.
  eapply wp_mono; [|apply setBarrier_ok; [exact Hl4|done]]. intros o5 w5 [Hl5 Hb5]. split; [done|]. intros st' [= <-]. by split.
Qed.

Lemma drain_ok fuel st o w : live o w ->
  wpo (drain now fuel st o) (fun od w' => live od.1 w' /\ opBarrier od.1 = opBarrier o /\ forall st', od.2 = Ok st' -> bsHoldVersion st' = bsHoldVersion st) w.
Proof.
  intros Hl. unfold drain. apply wp_bind. apply wp_call. intros w1 Hr c r w2 He. apply owner_reads in He as ->; [|done]. split; [apply owner_refl|].
  assert (live o w1) as Hl1 by by eapply live_others. destruct r as [[|]|]; [|split_and!; [done|done|by intros ? [= <-]]|by split_and!].
  apply wp_bind. eapply wp_mono; [|by apply phase_ok]. intros o3 w3 [Hl3 Hb3]. apply wp_bind. eapply wp_mono; [|by apply blockUntil_ok].
  intros [o4 [e|]] w4 [Hl4 Hb4]; simpl in *; (split_and!; [done|congruence|]); intros st'; [done|by intros [= <-]].
Qed.

Lemma commit_ok fuel st o w : live o w -> shows_hold o = true -> (0 < bsHoldVersion st)%Z ->
  wpo (commit now fuel st o) (fun oe w' => live oe.1 w') w.
Proof.
  intros Hl Ho Hv. unfold commit. apply wp_bind. eapply wp_mono; [|by apply phase_ok]. intros o1 w1 [Hl1 Hb1].
  assert (shows_hold o1 = true) as Ho1 by (unfold shows_hold; rewrite Hb1; exact Ho).
  apply wp_bind. eapply wp_mono; [|apply check_ok; exact Hl1]. intros c w2 [Hl2 Hc]. destruct c as [e|]; [done|].
  apply wp_bind. eapply wp_mono; [|apply commit_loop_ok; [exact Hl2|exact Ho1|rewrite Hc by done; exact Ho1]].
  intros [o3 [v|e]] w3 [Hl3 Hb3]; [|done]. apply wp_bind. eapply wp_mono; [|apply setBarrier_ok; [exact Hl3|done]]. by intros o4 w4 [? _].
Qed.

Lemma runBarrier_ok fuel scope kind prior o w : live o w -> sane o -> wpo (runBarrier now fuel scope kind prior o) (fun oe w' => live oe.1 w') w.
Proof.
  intros Hl Hsane. unfold runBarrier. apply wp_bind. eapply wp_mono; [|by apply intent_ok]. intros [o1 st] w1 (Hl1 & Hb1 & Hv1). cbn [fst snd] in *.
  apply wp_bind. eapply wp_mono; [|by apply take_hold_ok]. intros [o2 [st2|e]] w2 [Hl2 Hst2]; [|done]. cbn [fst snd] in *. destruct (Hst2 st2 eq_refl) as [Hb2 Hv2].
  destruct (bsCommitted st2); [done|]. apply wp_bind. eapply wp_mono; [|by apply drain_ok]. intros [o3 [st3|e]] w3 (Hl3 & Hb3 & Hst3); [|done]. cbn [fst snd] in *.
  apply commit_ok; [done| |by rewrite (Hst3 st3)]. unfold shows_hold. rewrite Hb3, Hb2. by apply Z.ltb_lt.
Qed.

#[local] Arguments runBarrier : simpl never.

Lemma settle_keeps moved o : opSequence (settleEffect moved o) = opSequence o /\ opBarrier (settleEffect moved o) = opBarrier o.
Proof. unfold settleEffect. repeat case_match; done. Qed.

Lemma finish_ok e o w : live o w -> wpo (finish now e o) (fun _ _ => True) w.
Proof.
  intros [Hi Ht]. assert (forall o1, opSequence o1 = opSequence o -> opBarrier o1 = opBarrier o ->
    wpo (moved <- call AMoved; put now (settleEffect moved o1)) (fun _ _ => True) w) as Hput.
  { intros o1 Hs Hb. apply wp_bind. apply wp_call. intros w1 Hr c r w2 He. apply owner_reads in He as ->; [|done]. split; [apply owner_refl|].
    destruct (settle_keeps r o1) as [E1 E2]. eapply wp_mono; [|apply put_ok; eapply informed_may_put]; [done|by eapply informed_others|congruence|].
    unfold shows_hold. by rewrite E2, Hb. }
  unfold finish. destruct e as [[| |]|]; [by apply Hput|done|by apply Hput|by apply Hput].
Qed.

(** Whatever the others do, a run of the owner does only what [owner] allows. *)
Lemma owner_run_ok fuel scope kind prior o w : informed o w -> sane o -> Terminal o = false -> wpo (owner_run now fuel scope kind prior o) (fun _ _ => True) w.
Proof.
  intros Hi Hsane Ht. unfold owner_run. apply wp_bind. eapply wp_mono; [|by eapply (put_live o)]. intros o1 w1 [Hl1 Hb1]. apply wp_bind.
  eapply wp_mono; [|apply runBarrier_ok; [exact Hl1|unfold sane; rewrite Hb1; exact Hsane]]. intros [o2 e] w2 Hl2. cbn [fst snd] in *.
  apply wp_bind. destruct e as [e|].
  - apply wp_bind. apply wp_call. intros w3 Hr c r w4 He. apply owner_reads in He as ->; [|done]. split; [apply owner_refl|].
    apply wp_bind. eapply wp_mono; [|apply finish_ok; by eapply live_others]. done.
  - apply wp_bind. eapply wp_mono; [|by apply finish_ok]. done.
Qed.

End OwnerRun.

(** ** Cancellations *)

(** Everything anyone does. *)
Definition anyone : world -> world -> Prop := rtc (fun w w' => others w w' \/ owner w w').

(** A committed change is one whose record showed its hold. *)
Definition sound (w : world) : Prop := wScope w = SDone -> shows_hold (wRec w) = true.

(** The change is off for good: the record has ended, and shows no hold, or its hold is released. *)
Definition off (w : world) : Prop :=
  Terminal (wRec w) = true /\ ((shows_hold (wRec w) = false /\ wScope w <> SDone) \/ (shows_hold (wRec w) = true /\ wScope w = SFree)).

(** The record ended, showing a hold or not. *)
Definition ended (h : bool) (w : world) : Prop := Terminal (wRec w) = true /\ shows_hold (wRec w) = h /\ sound w.

Lemma anyone_rec w w' : anyone w w' -> rec_step (wRec w) (wRec w').
Proof. induction 1 as [|w1 w2 w3 [H|H] _ IH]; [by left| |]; (eapply rec_step_trans; [apply H|done]). Qed.

Lemma sound_step w w' : others w w' \/ owner w w' -> sound w -> sound w'.
Proof.
  unfold sound. intros [H|H] Hs Hd.
  - rewrite (ot_hold _ _ H). apply Hs. destruct (ot_scope _ _ H) as [E|[_ E]]; congruence.
  - destruct (ow_scope _ _ H) as [E|[(E & _)|(_ & _ & E)]]; [|congruence|done]. apply (ow_hold _ _ H), Hs. congruence.
Qed.

Lemma anyone_sound w w' : anyone w w' -> sound w -> sound w'.
Proof. induction 1 as [|w1 w2 w3 H _ IH]; [done|]. intros. by eapply IH, sound_step. Qed.

Lemma ended_step h w w' : others w w' \/ owner w w' -> ended h w -> ended h w'.
Proof.
  intros H (Ht & Hh & Hs). split_and!; [| |by eapply sound_step].
  - destruct H as [H|H]; [by apply (ot_end _ _ H)|by rewrite (ow_end _ _ H)].
  - destruct H as [H|H]; [by rewrite (ot_hold _ _ H)|by rewrite (ow_end _ _ H)].
Qed.
Lemma anyone_ended h w w' : anyone w w' -> ended h w -> ended h w'.
Proof. induction 1 as [|w1 w2 w3 H _ IH]; [done|]. intros. by eapply IH, ended_step. Qed.

Lemma off_step w w' : others w w' \/ owner w w' -> off w -> off w'.
Proof.
  intros H [Ht Hoff]. destruct H as [H|H].
  - split; [by apply (ot_end _ _ H)|]. rewrite (ot_hold _ _ H). destruct (ot_scope _ _ H) as [E|[E1 E2]]; rewrite ?E, ?E2; [done|].
    destruct Hoff as [[? _]|[_ ?]]; [left; done|congruence].
  - pose proof (ow_end _ _ H Ht) as E. split; [by rewrite E|]. rewrite E.
    destruct (ow_scope _ _ H) as [E2|[(E2 & E3 & _)|(E1 & E2 & E3)]]; [by rewrite E2| |]; destruct Hoff as [[? ?]|[? ?]]; try congruence.
    left. split; [done|]. congruence.
Qed.
Lemma anyone_off w w' : anyone w w' -> off w -> off w'.
Proof. induction 1 as [|w1 w2 w3 H _ IH]; [done|]. intros. by eapply IH, off_step. Qed.

Section CancelRun.
Context (now : Z).

#[local] Abbreviation wpc := (wp true anyone others).

Lemma others_same w w' : wRec w' = wRec w -> wScope w' = wScope w -> (wLost w = true -> wLost w' = true) -> others w w'.
Proof. intros E1 E2 E3. split; rewrite ?E1; auto using rec_step_refl. Qed.

(** The actions of a cancellation that leave the record and the scope. *)
Lemma others_reads {R} (a : act R) c w r w' : exec true c a w = Some (r, w') ->
  match a with AGet | ACarries | AOwnerGone | AMarkLost => True | _ => False end -> others w w' /\ wRec w' = wRec w /\ wScope w' = wScope w.
Proof.
  intros He Ha. assert (wRec w' = wRec w /\ wScope w' = wScope w /\ (wLost w = true -> wLost w' = true)) as (E1 & E2 & E3).
  { destruct a; try done; destruct c; simpl in He; simplify_eq; try done. simpl. split_and!; [done|done|]. by intros ->. }
  split_and!; [by apply others_same|done|done].
Qed.

(** A compare-and-swap of the record over what was read of it. *)
Lemma others_update cur o c w r w' : exec true c (AUpdate o) w = Some (r, w') -> rec_step cur (wRec w) -> opSequence o = (opSequence cur + 1)%Z ->
  opBarrier o = opBarrier cur -> Terminal o = true -> others w w' /\ (r = UOk -> wRec w' = o /\ wScope w' = wScope w /\ wRec w = cur).
Proof.
  intros He Hrec Hs Hb Ht. assert (fresh o w = true -> others w (set_rec o w) /\ wRec w = cur) as Hset.
  { unfold fresh. intros E%Z.eqb_eq. assert (wRec w = cur) as Ec by (destruct Hrec as [?|?]; [done|lia]). split; [|done].
    split; simpl; [right; rewrite Ec; lia|unfold shows_hold; by rewrite Hb, Ec|done|done|by left]. }
  destruct c as [|landed why|b|v gen|v|l]; simpl in He; simplify_eq.
  - destruct (fresh o w) eqn:Ef; simplify_eq; [|split; [apply others_refl|done]]. destruct (Hset eq_refl) as [H1 H2]. split; [done|]. by intros _.
  - split; [|done]. destruct landed, (fresh o w) eqn:Ef; simpl; try apply others_refl. by apply Hset.
Qed.

Lemma read_then c w1 w2 r : exec true c AGet w1 = Some (r, w2) -> w2 = w1 /\ (forall o, r = Ok (Some o) -> o = wRec w1).
Proof. destruct c; simpl; intros; simplify_eq; (split; [done|]); intros o; congruence. Qed.

(** The record is ended by this call, over what it read of it. *)
Lemma updateRecord_ok attempts change w : sound w ->
  (forall cur o, change cur = Ok o -> opSequence o = opSequence cur /\ opBarrier o = opBarrier cur /\ Terminal o = true) ->
  (forall cur, change cur <> Err ACanceledNow) ->
  wpc (updateRecord now attempts change) (fun u w' => (forall o, u = Ok (o, true) -> ended (shows_hold o) w') /\ u <> Err ACanceledNow) w.
Proof.
  intros Hsound Hch Hno. revert w Hsound. induction attempts as [|attempts IH]; intros w Hsound; [by split|]. cbn [updateRecord]. apply wp_bind, wp_call.
  intros w1 Hr c r w2 He. apply read_then in He as [-> Hread]. split; [apply others_refl|]. assert (sound w1) as Hs1 by by eapply anyone_sound.
  destruct r as [[cur|]|]; [|by split..]. specialize (Hread cur eq_refl) as ->. destruct (Terminal (wRec w1)) eqn:Ht; [by split|].
  destruct (change (wRec w1)) as [o|e] eqn:Ec; [|split; [done|]; intros [= ->]; by eapply Hno]. destruct (Hch _ _ Ec) as (Hs & Hb & Hto). set (o1 := op_Updated now (op_Sequence (opSequence o + 1) o)).
  apply wp_bind, wp_call. intros w3 Hr3 c3 r3 w4 He3. pose proof (anyone_sound _ _ Hr3 Hs1) as Hs3.
  destruct (others_update (wRec w1) o1 c3 w3 r3 w4 He3) as [Hot Hok]; [by apply anyone_rec|simpl; lia|exact Hb|exact Hto|]. split; [exact Hot|].
  pose proof (sound_step w3 w4 (or_introl Hot) Hs3) as Hs4. destruct r3; [|by apply IH|by split].
  split; [|done]. intros o' [= <-]. destruct (Hok eq_refl) as (E1 & E2 & E3). split_and!; [by rewrite E1|by rewrite E1|done].
Qed.

Lemma correctCommitted_ok attempts w h : ended h w -> wpc (correctCommitted now attempts) (fun a w' => a <> ACanceledNow) w.
Proof.
  revert w. induction attempts as [|attempts IH]; intros w Hend; [done|]. cbn [correctCommitted]. apply wp_bind, wp_call.
  intros w1 Hr c r w2 He. apply read_then in He as [-> Hread]. split; [apply others_refl|]. pose proof (anyone_ended _ _ _ Hr Hend) as Hend1.
  destruct r as [[cur|]|]; [|done..]. specialize (Hread cur eq_refl) as ->. apply wp_bind, wp_call. intros w3 Hr3 c3 r3 w4 He3.
  assert (others w3 w4) as Hot.
  { assert (shows_hold (corrected now (wRec w1)) = shows_hold (wRec w1)) as Eh by (unfold corrected, shows_hold; destruct (opBarrier (wRec w1)) eqn:E; simpl; by rewrite ?E).
    assert (Terminal (corrected now (wRec w1)) = true) as Et by (unfold corrected; destruct (opBarrier _); done).
    assert (opSequence (corrected now (wRec w1)) = (opSequence (wRec w1) + 1)%Z) as Es by (unfold corrected; destruct (opBarrier _); done).
    assert (fresh (corrected now (wRec w1)) w3 = true -> others w3 (set_rec (corrected now (wRec w1)) w3)) as Hset.
    { unfold fresh. intros E%Z.eqb_eq. assert (wRec w3 = wRec w1) as Ec by (destruct (anyone_rec _ _ Hr3) as [?|?]; [done|lia]).
      split; simpl; [right; rewrite Ec; lia|by rewrite Eh, Ec|done|done|by left]. }
    destruct c3 as [|landed why|b|v gen|v|l]; cbn [exec] in He3; simplify_eq.
    - destruct (fresh _ w3); simplify_eq; [by apply Hset|apply others_refl].
    - destruct landed, (fresh _ w3); simpl; try apply others_refl. by apply Hset. }
  split; [exact Hot|]. destruct r3; [done| |done]. apply IH. eapply ended_step; [by left|]. by eapply anyone_ended.
Qed.

(** The scope without the barrier it carried. *)
Lemma scope_cleared w : held w = true -> others w (set_scope SFree w).
Proof. unfold held. destruct (wScope w) eqn:Es; [done| |done]. intros _. split; simpl; auto using rec_step_refl. Qed.

(** A release lets the scope go, or finds it no longer held. *)
Lemma scope_release_step c w r w' h : exec true c ARelease w = Some (r, w') -> ended h w -> others w w' /\ ended h w' /\ (r = ROk -> off w').
Proof.
  intros He Hend. assert (others w w' /\ (r = ROk -> wScope w' = SFree)) as [Hot Hfree].
  { pose proof (scope_cleared w) as Hclr. destruct c as [|landed why|b|v gen|v|l]; simpl in He; simplify_eq; try (split; [apply others_refl|done]).
    - destruct (held w); simplify_eq; split; auto using others_refl; done.
    - split; [|done]. destruct landed, (held w); simpl; auto using others_refl. }
  pose proof (ended_step _ _ _ (or_introl Hot) Hend) as (Ht & Hh & Hs). split_and!; [done|done|]. intros Hr. specialize (Hfree Hr).
  split; [done|]. destruct (shows_hold (wRec w')) eqn:E; [right; done|left; split; [done|congruence]].
Qed.

Lemma cancel_change_err n t g cur : cancel_change n t g cur <> Err ACanceledNow.
Proof. unfold cancel_change, notCancellable_answer. repeat case_match; congruence. Qed.

Lemma cancel_change_ok n t g cur o : cancel_change n t g cur = Ok o -> opSequence o = opSequence cur /\ opBarrier o = opBarrier cur /\ Terminal o = true.
Proof. unfold cancel_change. repeat case_match; intros [= <-]. done. Qed.

(** A record that ended without showing a hold is off. *)
Lemma ended_off w : ended false w -> off w.
Proof. intros (Ht & Hh & Hs). split; [done|]. left. split; [done|]. intros E. by rewrite (Hs E) in Hh. Qed.

#[local] Arguments updateRecord : simpl never.
#[local] Arguments correctCommitted : simpl never.

(** Every cancellation does only what [others] allows, and one that ended the record itself and answers
    so leaves the change off. *)
Lemma cancelOperation_ok w : sound w -> wpc (cancelOperation now) (fun a w' => a = ACanceledNow -> off w') w.
Proof.
  intros Hsound. unfold cancelOperation. apply wp_bind, wp_call. intros w1 Hr c r w2 He. apply read_then in He as [-> Hread]. split; [apply others_refl|].
  pose proof (anyone_sound _ _ Hr Hsound) as Hs1. destruct r as [[o|]|]; [|done..]. specialize (Hread o eq_refl) as ->.
  case_bool_decide as Hcan.
  - apply wp_bind. eapply (wp_mono _ _ _ _ (fun _ _ => True)); [by intros [|]|]. unfold releaseCanceled. destruct (opBarrier (wRec w1)) as [b|]; [|done].
    assert (ended (shows_hold (wRec w1)) w1) as Hend by (split_and!; [unfold Terminal; by rewrite Hcan|done|done]).
    apply wp_bind, wp_call. intros w2 Hr2 c2 r2 w3 He2. destruct (others_reads _ _ _ _ _ He2 I) as (Hot & _). split; [exact Hot|]. destruct r2 as [[|]|]; [|done..].
    apply wp_bind, wp_call. intros w4 Hr4 c4 r4 w5 He4.
    assert (ended (shows_hold (wRec w1)) w4) as Hend4 by (eapply anyone_ended; [exact Hr4|]; eapply ended_step; [by left|]; by eapply anyone_ended).
    destruct (scope_release_step _ _ _ _ _ He4 Hend4) as (Hot4 & _). by split.
  - destruct (Terminal (wRec w1)); [done|]. case_bool_decide; [done|]. apply wp_bind, wp_call. intros w2 Hr2 c2 r2 w3 He2.
    destruct (others_reads _ _ _ _ _ He2 I) as (Hot & _). split; [exact Hot|]. destruct r2 as [gone|]; [|done].
    destruct (notCancellable _ _) as [e|]; [unfold notCancellable_answer; by case_bool_decide|].
    assert (sound w3) as Hs3 by (eapply sound_step; [by left|]; by eapply anyone_sound).
    apply wp_bind. eapply wp_mono; [|apply updateRecord_ok; [exact Hs3|intros cur o; apply cancel_change_ok|intros cur; apply cancel_change_err]].
    intros [[o [|]]|e] w4 [Hend Hne]; [|by case_bool_decide|by intros ->]. specialize (Hend o eq_refl).
    apply wp_bind, wp_call. intros w5 Hr5 c5 r5 w6 He5. destruct (others_reads _ _ _ _ _ He5 I) as (Hot5 & _). split; [exact Hot5|].
    assert (ended (shows_hold o) w6) as Hend6 by (eapply ended_step; [by left|]; by eapply anyone_ended).
    destruct (opBarrier o) as [b|] eqn:Eb; [|intros _; apply ended_off; revert Hend6; unfold shows_hold; by rewrite Eb].
    apply wp_bind, wp_call. intros w7 Hr7 c7 r7 w8 He7. destruct (others_reads _ _ _ _ _ He7 I) as (Hot7 & _). split; [exact Hot7|].
    assert (ended (shows_hold o) w8) as Hend8 by (eapply ended_step; [by left|]; by eapply anyone_ended).
    assert (forall carried w, ended (shows_hold o) w -> (carried = true -> off w) ->
      wpc (if negb carried && (0 <? bsHoldVersion b)%Z then correctCommitted now 16 else Ret ACanceledNow) (fun a w' => a = ACanceledNow -> off w') w) as Hlast.
    { intros carried w0 Hw0 Hoff. destruct carried; [intros _; by apply Hoff|]. unfold shows_hold in Hw0. rewrite Eb in Hw0.
      destruct (0 <? bsHoldVersion b)%Z eqn:Ev; cbn [negb andb]; [|intros _; by apply ended_off].
      eapply wp_mono; [|by eapply correctCommitted_ok]. done. }
    destruct r7 as [[|]|]; [|by apply Hlast|done]. apply wp_bind. apply wp_bind, wp_call. intros w9 Hr9 c9 r9 w10 He9.
    destruct (scope_release_step _ _ _ _ _ He9 (anyone_ended _ _ _ Hr9 Hend8)) as (Hot9 & Hend10 & Hoff). split; [exact Hot9|].
    destruct r9; [|by apply Hlast|done]. apply Hlast; [done|]. by intros _; apply Hoff.
Qed.

End CancelRun.

(** ** The system *)

Definition owner_inv (w : world) (p : option (prog (Operation * option runErr))) : Prop :=
  forall p', p = Some p' -> exists w0, wp false others owner p' (fun _ _ => True) w0 /\ others w0 w.
Definition cancel_inv (w : world) (p : prog answer) : Prop :=
  exists w0, wp true anyone others p (fun a w' => a = ACanceledNow -> off w') w0 /\ anyone w0 w.

Definition sys_inv (s : sys) : Prop :=
  sound (syWorld s) /\ owner_inv (syWorld s) (syOwner s) /\ forall p, p ∈ syCancels s -> cancel_inv (syWorld s) p.

Lemma cancel_inv_step w w' p : others w w' \/ owner w w' -> cancel_inv w p -> cancel_inv w' p.
Proof. intros Hs (w0 & Hp & Hr). exists w0. split; [done|]. eapply rtc_r; [exact Hr|exact Hs]. Qed.

Lemma sys_step_inv now s s' : sys_step now false s s' -> sys_inv s ->
  sys_inv s' /\ (syWorld s' = syWorld s \/ others (syWorld s) (syWorld s') \/ owner (syWorld s) (syWorld s')).
Proof.
  intros Hstep (Hs & Ho & Hc). destruct Hstep as [w R a k cs c r w' He|w o cs1 R a k cs2 c r w' He|w p cs|w o cs1 p cs2|w o cs Hh|w o cs]; simpl in *.
  - destruct (Ho _ eq_refl) as (w0 & Hp & Hr). destruct (Hp w Hr c r w' He) as [Hg Hk]. split; [|by auto].
    split_and!; [by eapply sound_step; [right|]| |intros p Hin; eapply cancel_inv_step; [by right|by apply Hc]].
    intros p' [= <-]. exists w'. split; [done|apply others_refl].
  - destruct (Hc (Do a k)) as (w0 & Hp & Hr); [set_solver|]. destruct (Hp w Hr c r w' He) as [Hg Hk]. split; [|by auto]. split_and!.
    + by eapply sound_step; [left|].
    + intros p' E. destruct (Ho _ E) as (w1 & Hp1 & Hr1). exists w1. split; [done|]. by eapply others_trans.
    + intros p Hin. apply elem_of_app in Hin as [Hin|[->|Hin]%elem_of_cons]; [eapply cancel_inv_step; [by left|apply Hc; set_solver]| |eapply cancel_inv_step; [by left|apply Hc; set_solver]].
      exists w'. split; [done|apply rtc_refl].
  - split; [|by left]. by split_and!.
  - split; [|by left]. split_and!; [done|done|]. intros p' Hin. apply Hc. set_solver.
  - pose proof (scope_cleared w Hh) as Hot. split; [|by auto]. split_and!; [by eapply sound_step; [left|]| |intros p Hin; eapply cancel_inv_step; [by left|by apply Hc]].
    intros p' E. destruct (Ho _ E) as (w1 & Hp1 & Hr1). exists w1. split; [done|]. by eapply others_trans.
  - split; [|by left]. split_and!; [done|done|]. intros p Hin. apply elem_of_app in Hin as [Hin|Hin]; [by apply Hc|]. apply list_elem_of_singleton in Hin as ->.
    exists w. split; [by apply cancelOperation_ok|apply rtc_refl].
Qed.

Lemma sys_run_inv now s s' : rtc (sys_step now false) s s' -> sys_inv s -> sys_inv s' /\ (off (syWorld s) -> off (syWorld s')).
Proof.
  induction 1 as [|s1 s2 s3 H _ IH]; [done|]. intros Hi. destruct (sys_step_inv now s1 s2 H Hi) as [Hi2 Hw]. destruct (IH Hi2) as [Hi3 Hoff].
  split; [done|]. intros Ho. apply Hoff. destruct Hw as [->|Hw]; [done|by eapply off_step].
Qed.

(** An operation just accepted, about to run. *)
Lemma start_inv now fuel scope kind prior o : Terminal o = false -> sane o ->
  sys_inv (mkSys (mkWorld o SFree false) (Some (owner_run now fuel scope kind prior o)) []).
Proof.
  intros Hlive Hsane. split_and!; [done| |by intros p ?%elem_of_nil]. intros p' [= <-]. eexists. split; [|apply others_refl]. apply owner_run_ok; [|done|done].
  right. split_and!; simpl; [lia|done|done].
Qed.

Lemma canceled_off s : sys_inv s -> Ret ACanceledNow ∈ syCancels s -> off (syWorld s).
Proof. intros (_ & _ & Hc) Hanswer. destruct (Hc _ Hanswer) as (w0 & Hq & Hr). eapply anyone_off; [exact Hr|by apply Hq]. Qed.

Lemma off_not_done w : off w -> wScope w <> SDone /\ Terminal (wRec w) = true.
Proof. intros [Ht [[_ Hd]|[_ Hd]]]; (split; [congruence|done]). Qed.

(** C5: a cancellation that ends an operation's record and answers that it is canceled is final. Whatever the owner was doing when the record was ended (about to hold, draining, about to commit, its replies lost), however many other cancellations run, and wherever any of them stops, the guarded change is not committed then and never will be. The owner's writes of the record may be stale but do not fail otherwise. *)
Theorem canceled_never_commits now fuel scope kind prior o s s'
    (Hlive : Terminal o = false) (Hsane : sane o)
    (Hrun : rtc (sys_step now false) (mkSys (mkWorld o SFree false) (Some (owner_run now fuel scope kind prior o)) []) s)
    (Hanswer : Ret ACanceledNow ∈ syCancels s) (Hlater : rtc (sys_step now false) s s') :
  wScope (syWorld s') <> SDone /\ Terminal (wRec (syWorld s')) = true.
Proof.
  destruct (sys_run_inv _ _ _ Hrun (start_inv now fuel scope kind prior o Hlive Hsane)) as [Hi _].
  destruct (sys_run_inv _ _ _ Hlater Hi) as [_ Hoff]. by apply off_not_done, Hoff, canceled_off.
Qed.

(** ** Runs *)

(** A schedule: which handler acts, and what its environment chooses. *)
Inductive event : Type := EOwner (c : choice) | ECancel (i : nat) (c : choice) | ERequest.

Definition run_event (now : Z) (flaky : bool) (e : event) (s : sys) : option sys :=
  match e with
  | EOwner c =>
      match syOwner s with
      | Some (Do a k) => match exec flaky c a (syWorld s) with Some (r, w') => Some (mkSys w' (Some (k r)) (syCancels s)) | None => None end
      | _ => None
      end
  | ECancel i c =>
      match syCancels s !! i with
      | Some (Do a k) =>
          match exec true c a (syWorld s) with
          | Some (r, w') => Some (mkSys w' (syOwner s) (take i (syCancels s) ++ k r :: drop (S i) (syCancels s)))
          | None => None
          end
      | _ => None
      end
  | ERequest => Some (mkSys (syWorld s) (syOwner s) (syCancels s ++ [cancelOperation now]))
  end.

Fixpoint run_events (now : Z) (flaky : bool) (es : list event) (s : sys) : option sys :=
  match es with [] => Some s | e :: es => s' ← run_event now flaky e s; run_events now flaky es s' end.

Lemma run_event_step now flaky e s s' : run_event now flaky e s = Some s' -> sys_step now flaky s s'.
Proof.
  destruct s as [w o cs], e as [c|i c|]; simpl.
  - destruct o as [[|R a k]|]; [done| |done]. destruct (exec flaky c a w) as [[r w']|] eqn:E; [|done]. intros [= <-]. by eapply ss_owner.
  - destruct (cs !! i) as [[|R a k]|] eqn:Ei; [done| |done]. destruct (exec true c a w) as [[r w']|] eqn:E; [|done]. intros [= <-].
    rewrite <- (take_drop_middle cs i (Do a k) Ei) at 1. by eapply ss_cancel.
  - intros [= <-]. apply ss_request.
Qed.

Lemma run_events_steps now flaky es s s' : run_events now flaky es s = Some s' -> rtc (sys_step now flaky) s s'.
Proof.
  revert s. induction es as [|e es IH]; intros s; simpl; [intros [= <-]; apply rtc_refl|].
  destruct (run_event now flaky e s) as [s1|] eqn:E; [|done]. simpl. intros H. eapply rtc_l; [by eapply run_event_step|by apply IH].
Qed.

(** A ramp step of [t/logs], just accepted. *)
Definition example_ramp : Operation :=
  mkOperation "op1" OpRamp "t/logs" "" "ops" "n1" zeroIdentity (Some (mkScope "placement:t/logs" 3 ["east"])) "" "" 1 0 0 0 StatusPending EffectNone [] [] 0 None None None None
    PhaseQueued [] [] None 0 "" "" None.

Definition example_start : sys :=
  mkSys (mkWorld example_ramp SFree false) (Some (owner_run 7 3 "placement:t/logs" BarrierMutations None example_ramp)) [].

(** The owner's actions up to its check before the commit, every one going well. *)
Definition to_commit : list event :=
  EOwner <$> [CPlain; CPlain] ++ [CPlain; CPlain] ++ [CPlain; CPlain] ++ [CPlain; CVersion 4 4] ++ [CPlain; CPlain] ++
    [CPlain] ++ [CPlain; CPlain] ++ [CPlain; CBlockers (Ok [])] ++ [CPlain; CPlain] ++ [CPlain].

(** A cancellation while the fleet drains ends the record and releases the hold; the owner finds out. *)
Definition canceled_run : list event :=
  take 15 to_commit ++ [ERequest; ECancel 0 CPlain; ECancel 0 (CBool false); ECancel 0 CPlain; ECancel 0 CPlain; ECancel 0 (CBool false); ECancel 0 CPlain; ECancel 0 CPlain].

(** What is seen of a state: the scope, the record's status and effect, and the answers given. *)
Definition seen (s : sys) : scopeState * (string * string) * list (option answer) :=
  (wScope (syWorld s), (opStatus (wRec (syWorld s)), opEffectState (wRec (syWorld s))), (fun p => match p with Ret a => Some a | Do _ _ => None end) <$> syCancels s).

Definition outcome (flaky : bool) (es : list event) : option (scopeState * (string * string) * list (option answer)) :=
  seen <$> run_events 7 flaky es example_start.

Lemma outcome_run flaky es x : outcome flaky es = Some x -> exists s, rtc (sys_step 7 flaky) example_start s /\ seen s = x.
Proof.
  unfold outcome. destruct (run_events 7 flaky es example_start) as [s|] eqn:E; [|done]. simpl. intros [= <-]. exists s. split; [by eapply run_events_steps|done].
Qed.

Lemma seen_answer s d st a answers : seen s = (d, st, answers) -> Some a ∈ answers -> Ret a ∈ syCancels s.
Proof.
  intros [= _ _ <-] (p & Hp & Hin)%list_elem_of_fmap. destruct p; [|done]. by simplify_eq.
Qed.

Lemma canceled_never_commits_witness : exists s, rtc (sys_step 7 false) example_start s /\ Ret ACanceledNow ∈ syCancels s /\
  wScope (syWorld s) <> SDone /\ Terminal (wRec (syWorld s)) = true.
Proof.
  destruct (outcome_run false canceled_run (SFree, (StatusCancelled, EffectNone), [Some ACanceledNow])) as (s & Hrun & Hseen); [vm_compute; reflexivity|].
  assert (Ret ACanceledNow ∈ syCancels s) as Hin by (eapply seen_answer; [exact Hseen|left]).
  exists s. split; [exact Hrun|]. split; [exact Hin|].
  apply (canceled_never_commits 7 3 "placement:t/logs" BarrierMutations None example_ramp s s); [reflexivity|intros st [=]|exact Hrun|exact Hin|apply rtc_refl].
Defined.

(** ** Where the promise ends *)

(** The owner is about to commit and believed gone; a cancellation ends the record, cannot read the
    directory and asks to be repeated; the commit lands; the repeated cancellation finds the record
    canceled and the scope without the hold. *)
Definition repeated_run : list event :=
  to_commit ++ [ERequest; ECancel 0 CPlain; ECancel 0 (CBool true); ECancel 0 CPlain; ECancel 0 CPlain; ECancel 0 (CBool false); ECancel 0 (CFail false "timeout")] ++
  [EOwner (CVersion 5 5)] ++ [ERequest; ECancel 1 CPlain; ECancel 1 CPlain].

(** A repeated cancellation can answer that the operation is canceled, with its routing as it was and no effect on the record, while its change is committed and in force: only the first cancellation looks for a commit that landed before it. *)
Theorem repeated_cancellation_after_commit : exists s, rtc (sys_step 7 false) example_start s /\
  Ret AUnavailable ∈ syCancels s /\ Ret ACanceledBefore ∈ syCancels s /\ wScope (syWorld s) = SDone /\
  opStatus (wRec (syWorld s)) = StatusCancelled /\ opEffectState (wRec (syWorld s)) = EffectNone.
Proof.
  destruct (outcome_run false repeated_run (SDone, (StatusCancelled, EffectNone), [Some AUnavailable; Some ACanceledBefore])) as (s & Hrun & Hseen); [vm_compute; reflexivity|].
  exists s. split; [exact Hrun|]. split_and!; [by eapply seen_answer; [exact Hseen|left]|by eapply seen_answer; [exact Hseen|right; left]|by injection Hseen..].
Qed.

(** Every write of the record after the first fails and nothing is written, while the directory's writes
    succeed: the owner goes on. *)
Definition unwritten_run : list event :=
  (EOwner <$> [CPlain; CPlain] ++ [CPlain; CFail false "timeout"] ++ [CPlain; CFail false "timeout"] ++ [CPlain; CVersion 4 4] ++ [CPlain; CFail false "timeout"] ++
    [CPlain] ++ [CPlain; CFail false "timeout"] ++ [CPlain; CBlockers (Ok [])] ++ [CPlain; CFail false "timeout"] ++ [CPlain]) ++
  [ERequest; ECancel 0 CPlain; ECancel 0 (CBool false); ECancel 0 CPlain; ECancel 0 CPlain; ECancel 0 (CBool false)] ++ [EOwner (CVersion 5 5)].

(** A write of the record that fails for another reason than its sequence is only logged, so the hold is written in the directory without the intent on the record, and then the commit: a cancellation meanwhile finds no barrier on the record, answers that the operation is canceled, and the change is committed after it. The promise above needs the owner's record writes to succeed. *)
Theorem unwritten_intent_commits : exists s, rtc (sys_step 7 true) example_start s /\
  Ret ACanceledNow ∈ syCancels s /\ wScope (syWorld s) = SDone /\ opStatus (wRec (syWorld s)) = StatusCancelled.
Proof.
  destruct (outcome_run true unwritten_run (SDone, (StatusCancelled, EffectNone), [Some ACanceledNow])) as (s & Hrun & Hseen); [vm_compute; reflexivity|].
  exists s. split; [exact Hrun|]. split_and!; [by eapply seen_answer; [exact Hseen|left]|by injection Hseen..].
Qed.

(** ** A run that goes well *)

(** What an undisturbed environment chooses: every write lands, the directory gives the hold version
    [v] and the commit version [w], the fleet answers the polls in turn and has drained after the
    last of them, and nobody stops the server. *)
Definition calm (v w : Z) {R} (a : act R) (polls : list (result string (list Blocker))) : choice * list (result string (list Blocker)) :=
  match a with
  | AHold => (CVersion v 0, polls)
  | ACommit => (CVersion w 0, polls)
  | ADrain _ => (CBlockers (default (Ok []) (head polls)), tail polls)
  | AMoved => (CBool true, polls)
  | AOwnerGone | AMarkLost | ACtxEnded => (CBool false, polls)
  | _ => (CPlain, polls)
  end.

(** The run of a program in that environment: what it answers, the polls left, and the world. *)
Fixpoint play {A} (v w : Z) (p : prog A) (polls : list (result string (list Blocker))) (wd : world) {struct p}
    : option (A * list (result string (list Blocker)) * world) :=
  match p with
  | Ret a => Some (a, polls, wd)
  | Do a k =>
      match exec false (calm v w a polls).1 a wd with
      | Some (r, wd') => play v w (k r) (calm v w a polls).2 wd'
      | None => None
      end
  end.

Section Quiet.
Context (now v w : Z).

Notation polled := (list (result string (list Blocker))).
Notation plays p polls wd a polls' wd' := (play v w p polls wd = Some (a, polls', wd')).

Lemma play_bind {A B} (p : prog A) (f : A -> prog B) polls wd a polls1 wd1 : plays p polls wd a polls1 wd1 ->
  play v w (bindp p f) polls wd = play v w (f a) polls1 wd1.
Proof.
  revert polls wd. induction p as [b|R x k IH]; intros polls wd; simpl; [by intros [= <- <- <-]|].
  destruct (exec _ _ x wd) as [[r wd']|]; [|done]. apply IH.
Qed.

Lemma play_call {R B} (x : act R) (f : R -> prog B) (polls : polled) c polls' wd r wd' :
  calm v w x polls = (c, polls') -> exec false c x wd = Some (r, wd') -> play v w (bindp (call x) f) polls wd = play v w (f r) polls' wd'.
Proof. intros Hc E. cbn [call bindp play]. rewrite Hc. cbn [fst snd]. by rewrite E. Qed.

(** A played run is one of the system's. *)
Lemma play_steps (p : prog (Operation * option runErr)) polls wd a polls' wd' cs : plays p polls wd a polls' wd' ->
  rtc (sys_step now false) (mkSys wd (Some p) cs) (mkSys wd' (Some (Ret a)) cs).
Proof.
  revert polls wd. induction p as [b|R x k IH]; intros polls wd; simpl; [intros [= <- _ <-]; apply rtc_refl|].
  destruct (exec _ _ x wd) as [[r wd1]|] eqn:E; [|done]. intros Hp. eapply rtc_l; [by eapply ss_owner|by eapply IH].
Qed.

(** The record is as the owner last wrote it. *)
Definition quiet (o : Operation) (d : scopeState) : world := mkWorld o d false.

Lemma put_plays o o0 d polls : opSequence o = opSequence o0 -> plays (put now o) polls (quiet o0 d) (put_op now o) polls (quiet (put_op now o) d).
Proof. intros Hs. unfold put. simpl. unfold fresh. simpl. rewrite (proj2 (Z.eqb_eq _ _)) by lia. done. Qed.

(** A write that keeps the barrier. *)
Definition kept (o o' : Operation) : Prop := opBarrier o' = opBarrier o /\ Terminal o' = false.

Lemma phase_plays p o d polls : Terminal o = false -> exists o', plays (phase now p o) polls (quiet o d) o' polls (quiet o' d) /\ kept o o'.
Proof. intros Ht. unfold phase. case_bool_decide; [by exists o|]. eexists. split; [by apply put_plays|done]. Qed.

Lemma blocked_plays bs o d polls : Terminal o = false -> exists o', plays (blocked now bs o) polls (quiet o d) o' polls (quiet o' d) /\ kept o o'.
Proof.
  intros Ht. unfold blocked. destruct (_ && _); [by exists o|]. eexists. split; [by apply put_plays|]. split; [done|].
  unfold Terminal. simpl. by destruct (bool_decide (bs = [])).
Qed.

Lemma setBarrier_plays st actions o d polls : Terminal o = false ->
  exists o', plays (setBarrier now st actions o) polls (quiet o d) o' polls (quiet o' d) /\ opBarrier o' = Some st /\ Terminal o' = false.
Proof. intros Ht. eexists. split; [by apply put_plays|]. done. Qed.

Lemma check_plays o d polls : plays check polls (quiet o d) None polls (quiet o d).
Proof. done. Qed.

(** What [blockUntil] makes of its polls: it takes every blocked one and then the empty one, unless
    its patience ends first. *)
Definition patience (fuel : nat) (polls : polled) : option runErr := if decide (length polls < fuel) then None else Some errOther.

(** The blockers a poll is reported as; a poll that cannot be answered is a blocker itself. *)
Definition reported (r : result string (list Blocker)) : list Blocker :=
  match r with Ok bs => bs | Err why => [mkBlockerText BlockerQuorumUnavailable "" "" 0 why] end.

Lemma blockUntil_plays st (polls : polled) fuel o : Terminal o = false -> Forall (fun r => r <> Ok []) polls ->
  exists o', plays (blockUntil now fuel st o) polls (quiet o SHeld) (o', patience fuel polls) (drop fuel polls) (quiet o' SHeld) /\ kept o o'.
Proof.
  revert fuel o. induction polls as [|r polls IH]; intros [|fuel] o Ht Hp; cbn [blockUntil]; [by exists o| |by exists o|].
  - destruct (blocked_plays [] o SHeld [] Ht) as (o1 & H1 & K1). exists o1. split; [|done]. rewrite (play_bind _ _ _ _ _ _ _ (check_plays _ _ _)).
    rewrite (play_call (ADrain st) _ [] _ _ (quiet o SHeld) (Ok []) (quiet o SHeld) eq_refl eq_refl). by rewrite (play_bind _ _ _ _ _ _ _ H1).
  - apply Forall_cons in Hp as [Hne Hp]. destruct (blocked_plays (reported r) o SHeld polls Ht) as (o1 & H1 & [K1 T1]).
    destruct (IH fuel o1 T1 Hp) as (o2 & H2 & [K2 T2]). exists o2. split; [|split; [congruence|done]].
    rewrite (play_bind _ _ _ _ _ _ _ (check_plays _ _ _)). rewrite (play_call (ADrain st) _ (r :: polls) _ _ (quiet o SHeld) r (quiet o SHeld) eq_refl eq_refl).
    cbn iota beta. fold (reported r). rewrite (play_bind _ _ _ _ _ _ _ H1). rewrite bool_decide_false by (by destruct r as [[]|]).
    rewrite (play_call ASleep _ polls _ _ (quiet o1 SHeld) (Ok ()) (quiet o1 SHeld) eq_refl eq_refl). cbn iota beta. cbn [drop]. rewrite H2. unfold patience. simpl.
    destruct (decide (length polls < fuel)), (decide (S (length polls) < S fuel)); done || lia.
Qed.

(** The record a barrier leaves: committed at the versions the directory gave. *)
Definition committed_at (o : Operation) : Prop :=
  exists st, opBarrier o = Some st /\ bsHoldVersion st = v /\ bsCommitted st = true /\ bsCommitVersion st = w.
(** The record of a barrier that holds and has not committed. *)
Definition held_at (o : Operation) : Prop := exists st, opBarrier o = Some st /\ bsHoldVersion st = v /\ bsCommitted st = false.

(** How a barrier ends: committed if the fleet drained in time, still holding otherwise. *)
Definition ends_so (e : option runErr) (o : Operation) (d : scopeState) : Prop :=
  match e with None => d = SDone /\ committed_at o | Some _ => d = SHeld /\ held_at o end.

Lemma commit_plays fuel st o : Terminal o = false -> 0 < fuel -> bsHoldVersion st = v ->
  exists o', plays (commit now fuel st o) [] (quiet o SHeld) (o', None) [] (quiet o' SDone) /\ Terminal o' = false /\ committed_at o'.
Proof.
  intros Ht Hf Hv. destruct (phase_plays PhaseCommit o SHeld [] Ht) as (o6 & A6 & [B6 T6]). destruct (blocked_plays [] o6 SDone [] T6) as (o7 & A7 & [B7 T7]).
  destruct (setBarrier_plays (with_commit now w st) [] o7 SDone [] T7) as (o8 & A8 & B8 & T8). exists o8. split; [|split; [done|]; by exists (with_commit now w st)].
  unfold commit. rewrite (play_bind _ _ _ _ _ _ _ A6), (play_bind _ _ _ _ _ _ _ (check_plays _ _ _)). destruct fuel as [|fuel]; [lia|].
  assert (plays (commit_loop now (S fuel) o6) [] (quiet o6 SHeld) (o7, Ok w) [] (quiet o7 SDone)) as HL.
  { cbn [commit_loop]. rewrite (play_call ACommit _ [] _ _ (quiet o6 SHeld) (Ok (w, false)) (quiet o6 SDone) eq_refl eq_refl). by rewrite (play_bind _ _ _ _ _ _ _ A7). }
  rewrite (play_bind _ _ _ _ _ _ _ HL). cbn iota beta. by rewrite (play_bind _ _ _ _ _ _ _ A8).
Qed.

Lemma take_hold_plays st o polls : Terminal o = false -> bsHoldVersion st = 0%Z -> (0 < v)%Z ->
  exists o', plays (take_hold now st o) polls (quiet o SFree) (o', Ok (with_hold now v 0 st)) polls (quiet o' SHeld) /\
    opBarrier o' = Some (with_hold now v 0 st) /\ Terminal o' = false.
Proof.
  intros Ht Hz Hv. destruct (phase_plays PhaseHold o SFree polls Ht) as (o2 & A2 & [B2 T2]).
  destruct (setBarrier_plays (with_hold now v 0 st) [ActionCancel] o2 SHeld polls T2) as (o3 & A3 & B3 & T3). exists o3. split; [|done].
  unfold take_hold. rewrite Hz. cbn iota. change (0 =? 0)%Z with true. cbn iota. rewrite (play_bind _ _ _ _ _ _ _ A2), (play_bind _ _ _ _ _ _ _ (check_plays _ _ _)).
  rewrite (play_call AHold _ polls _ _ (quiet o2 SFree) (Ok (v, 0%Z)) (quiet o2 SHeld) eq_refl); [|simpl; by rewrite (proj2 (Z.ltb_lt 0 v))].
  cbn iota beta. by rewrite (play_bind _ _ _ _ _ _ _ A3).
Qed.

Lemma drain_plays fuel st o polls : Terminal o = false -> Forall (fun r => r <> Ok []) polls ->
  exists o', plays (drain now fuel st o) polls (quiet o SHeld)
      (o', match patience fuel polls with Some e => Err e | None => Ok (with_drained now st) end) (drop fuel polls) (quiet o' SHeld) /\ kept o o'.
Proof.
  intros Ht Hp. destruct (phase_plays PhaseDrain o SHeld polls Ht) as (o4 & A4 & [B4 T4]). destruct (blockUntil_plays st polls fuel o4 T4 Hp) as (o5 & A5 & [B5 T5]).
  exists o5. split; [|split; congruence]. unfold drain. rewrite (play_call ACarries _ polls _ _ (quiet o SHeld) (Ok true) (quiet o SHeld) eq_refl eq_refl). cbn iota beta. rewrite (play_bind _ _ _ _ _ _ _ A4), (play_bind _ _ _ _ _ _ _ A5). by destruct (patience fuel polls).
Qed.

Lemma runBarrier_plays scope kind prior o (polls : polled) fuel :
  Terminal o = false -> opBarrier o = None -> Forall (fun r => r <> Ok []) polls -> (0 < v)%Z ->
  exists o' d, plays (runBarrier now fuel scope kind prior o) polls (quiet o SFree) (o', patience fuel polls) (drop fuel polls) (quiet o' d) /\
    Terminal o' = false /\ ends_so (patience fuel polls) o' d.
Proof.
  intros Ht Hb Hp Hv. set (st0 := mkBarrierState (opID o) scope kind 0 0 false 0 false 0 0 0 prior).
  destruct (setBarrier_plays st0 [] o SFree polls Ht) as (o1 & A1 & B1 & T1). destruct (take_hold_plays st0 o1 polls T1 eq_refl Hv) as (o3 & A3 & B3 & T3).
  destruct (drain_plays fuel (with_hold now v 0 st0) o3 polls T3 Hp) as (o5 & A5 & [B5 T5]).
  assert (plays (intent now scope kind prior o) polls (quiet o SFree) (o1, st0) polls (quiet o1 SFree)) as A0 by (unfold intent; rewrite Hb; fold st0; by rewrite (play_bind _ _ _ _ _ _ _ A1)).
  unfold runBarrier. rewrite (play_bind _ _ _ _ _ _ _ A0). cbn iota beta. rewrite (play_bind _ _ _ _ _ _ _ A3). cbn iota beta.
  change (bsCommitted (with_hold now v 0 st0)) with false. cbn iota. rewrite (play_bind _ _ _ _ _ _ _ A5).
  unfold patience. destruct (decide (length polls < fuel)) as [Hlt|Hge]; cbn iota beta.
  - destruct (commit_plays fuel (with_drained now (with_hold now v 0 st0)) o5 T5) as (o8 & A8 & T8 & C8); [lia|done|].
    exists o8, SDone. rewrite drop_ge by lia. by rewrite A8.
  - exists o5, SHeld. split_and!; [done|done|]. split; [done|]. exists (with_hold now v 0 st0). rewrite B5, B3. by split_and!.
Qed.

(** The record at the end of the run, before its effect is settled, and before its last write. *)
Definition ended_record (e : option runErr) (o : Operation) : Operation :=
  let o := o |> op_Phase PhaseDone |> op_Blockers [] |> op_BlockerCount 0 |> op_AllowedActions [] in
  match e with Some _ => o |> op_Error (Some (mkErr "unavailable")) |> op_Status StatusFailed | None => o |> op_Status StatusSucceeded end.
Definition last_record (e : option runErr) (o : Operation) : Operation := settleEffect true (ended_record e o).

Lemma last_record_keeps e o : opSequence (last_record e o) = opSequence o /\ opBarrier (last_record e o) = opBarrier o /\
  opStatus (last_record e o) = match e with Some _ => StatusFailed | None => StatusSucceeded end.
Proof. unfold last_record, settleEffect, ended_record. destruct e; repeat case_match; done. Qed.

Lemma finish_eq e o : e = None \/ e = Some errOther -> finish now e o = bindp (call AMoved) (fun moved => put now (settleEffect moved (ended_record e o))).
Proof. intros [-> | ->]; reflexivity. Qed.

Lemma finish_plays o d e polls : e = None \/ e = Some errOther ->
  plays (finish now e o) polls (quiet o d) (put_op now (last_record e o)) polls (quiet (put_op now (last_record e o)) d).
Proof.
  intros He. rewrite (finish_eq e o He), (play_call AMoved _ polls _ _ (quiet o d) true (quiet o d) eq_refl eq_refl).
  apply put_plays. apply last_record_keeps.
Qed.

End Quiet.


(** A fleet that cannot be asked once, then has one request left of the old version, then drains. *)
Definition example_polls : list (result string (list Blocker)) := [Err "no quorum"; Ok [mkBlocker BlockerOldRequests "p1" "" 2]].

