(* ===== verification/ScopeWrites.v ===== *)
(** * The directory writes of an operation's barrier (internal/control: ops.go, readonly.go, barrier.go)

    A barrier is driven through four writes and reads of its scope: the hold, the commit and the release,
    and whether the scope still carries it.  This file models the closures of the operations that have a
    barrier (ramp and migrate steps, cutover, read-only) over the directory's mutations, and states
    what each promises as an interface, [Guarded]: a hold leaves the scope carrying the barrier, a
    commit or a release lands only on a scope that carries it. *)

From S2P Require Import Prelude Float64 KeyHash HashRange Config Placement Transition S3Op S3Names Route Backend Scopes Directory ApplyFacts Steps Fence MoveFence OpRecord Barrier.

(** ** What a transition does to the barrier of its placement *)

Definition barrier_law (p : Placement) (t : Transition) (np : Placement) : Prop :=
  if tRelease t then pBarrier np = None /\ (tBarrier t <> "" -> carries p (tBarrier t) = true)
  else if tHold t then tBarrier t <> "" -> pBarrier np = Some (mkBarrier (tBarrier t) BarrierMutations)
  else (tBarrier t <> "" -> carries p (tBarrier t) = true /\ pBarrier np = None) /\
       (tComplete t = true -> Held p = true /\ pBarrier np = None).

Definition same_guard (t t' : Transition) : Prop :=
  tHold t' = tHold t /\ tRelease t' = tRelease t /\ tComplete t' = tComplete t /\ tBarrier t' = tBarrier t.

Lemma same_guard_trans t1 t2 t3 : same_guard t1 t2 -> same_guard t2 t3 -> same_guard t1 t3.
Proof. intros (? & ? & ? & ?) (? & ? & ? & ?). split_and!; congruence. Qed.

Lemma barrier_law_ext p t t' np np' : same_guard t t' -> pBarrier np' = pBarrier np -> barrier_law p t' np -> barrier_law p t np'.
Proof. intros (E1 & E2 & E3 & E4) Eb. unfold barrier_law. by rewrite E1, E2, E3, E4, Eb. Qed.

Lemma applyPlain_barrier p t np : applyPlain p t = Ok np -> barrier_law p t np.
Proof.
  unfold applyPlain, barrier_law. destruct (tRelease t).
  - unfold release. destruct (pRamp p) as [r|]; [|done]. destruct (_ || _); [done|].
    destruct (bool_decide (tBarrier t = "")) eqn:Eb, (carries p (tBarrier t)) eqn:Ec; simpl; try done.
    all: destruct (_ && _); intros [= <-]; (split; [done|]); intros Hne; try done; apply bool_decide_eq_true in Eb; congruence.
  - intros H. apply bind_Ok in H as ([] & Hc & H). apply bind_Ok in H as (t' & Hi & H). apply bind_Ok in H as ([] & _ & H).
    apply bind_Ok in H as (np' & _ & [= <-]). destruct (inheritTarget_Ok _ _ _ Hi) as (target & name & ->).
    unfold finishStep. cbn [tComplete tHold tBarrier set_tTarget]. unfold checkStep in Hc.
    destruct (tHold t) eqn:Hh.
    + rewrite andb_false_r. intros Hne. unfold holdStep. cbn [tBarrier set_tTarget]. rewrite (bool_decide_eq_false_2 _ Hne). done.
    + destruct (bool_decide (tBarrier t = "")) eqn:Eb; [apply bool_decide_eq_true in Eb|]; cbn [negb andb] in Hc |- *.
      * split; [done|]. intros Hco. rewrite Hco in *. destruct (negb _); [done|]. destruct (_ && false); [done|]. cbn [andb] in Hc.
        destruct (Held p); [|done]. done.
      * destruct (carries p (tBarrier t)); [|done]. cbn [negb andb] in Hc. split; [by rewrite orb_false_r; destruct (tComplete t)|].
        intros Hco. rewrite Hco in *. destruct (negb _); [done|]. destruct (_ && false); [done|]. cbn [andb] in Hc. by destruct (Held p).
Qed.

Lemma settle_barrier p : pBarrier (settle p) = pBarrier p.
Proof.
  assert (forall legs ids v, pBarrier (foldl (settle_step legs) v ids) = pBarrier v) as Hfold.
  { intros legs ids. induction ids as [|id ids IH]; intros v; simpl; [done|]. rewrite IH. unfold settle_step. by repeat case_match. }
  unfold settle. destruct (_ || _); [done|]. destruct (sl (pOwners p)); [done|]. by rewrite Hfold.
Qed.

Lemma endMove_barrier p m np : pBarrier (endMove p m np) = pBarrier np.
Proof. unfold endMove. rewrite settle_barrier. unfold setScopeTable. destruct (decide _), (ownsKeys _ _); done. Qed.

Lemma MoveView_Held p m : pMove p = Some m -> Held (MoveView p m) = Held p.
Proof. intros Hm. unfold Held. rewrite Hm. simpl. unfold v2ramp. destruct (mvRamp m) as [r|]; [|done]. simpl. by destruct (rHold r). Qed.

Lemma stepMove_barrier p m t np : pMove p = Some m -> stepMove applyPlain p m t = Ok np -> barrier_law p t np.
Proof.
  intros Hm H. destruct (stepMove_Ok _ _ _ _ H) as (nv & Hnv & ->). apply applyPlain_barrier in Hnv.
  assert (barrier_law p (step_only "" "" t) nv) as Hlaw.
  { revert Hnv. unfold barrier_law. change (carries (MoveView p m)) with (carries p). by rewrite (MoveView_Held p m Hm). }
  eapply barrier_law_ext; [| |exact Hlaw]; [done|]. destruct (bool_decide _); [|done].
  destruct (tRelease t); rewrite ?settle_barrier, ?endMove_barrier; done.
Qed.

Lemma spreadPlain_guard p t np t' : spreadPlain p t = Ok (np, t') -> same_guard t t'.
Proof.
  unfold spreadPlain. destruct (Spread p); [by intros [= <- <-]|]. intros H. pass_check H. apply bind_Ok in H as (t1 & Ht & [= <- <-]).
  repeat case_match; by simplify_eq.
Qed.

Lemma resolveRange_guard p np t t' rg : resolveRange p np t = Ok (t', rg) -> same_guard t t'.
Proof.
  unfold resolveRange. intros H. apply bind_Ok in H as (t1 & Ht & H). apply bind_Ok in H as (rg1 & _ & H).
  assert (t' = t1) as -> by (repeat case_match; by simplify_eq). repeat case_match; by simplify_eq.
Qed.

Lemma startMove_barrier p t np : startMove applyPlain p t = Ok np -> barrier_law p t np.
Proof.
  unfold startMove. intros H. repeat pass_check H. apply bind_Ok in H as ([np0 t1] & H1 & H). pass_check H. apply bind_Ok in H as ([t2 rg] & H2 & H).
  repeat pass_check H. apply bind_Ok in H as ([np1 dst] & _ & H). pass_check H. apply bind_Ok in H as (nv & Hnv & [= <-]). apply applyPlain_barrier in Hnv.
  pose proof (same_guard_trans _ _ _ (spreadPlain_guard _ _ _ _ H1) (resolveRange_guard _ _ _ _ _ H2)) as (E1 & E2 & E3 & E4).
  revert Hnv. unfold barrier_law. cbn [tRelease tHold tComplete tBarrier step_only]. rewrite E1, E2, E3, E4. cbn [pBarrier set_Barrier set_State set_Move].
  destruct (tRelease t); [|destruct (tHold t); [done|]].
  - intros [Hb Hc]. split; [done|]. intros Hne. by specialize (Hc Hne).
  - intros [Hc Hco]. split; intros Hx; [by destruct (Hc Hx)|by destruct (Hco Hx)].
Qed.

Lemma resolve_guard p t t1 t2 : resolveShare p t = Ok t1 -> resolveLeg p (resolveWhole p t1) = Ok t2 -> same_guard t t2.
Proof.
  intros H1 H2. assert (same_guard t t1) as G1 by (unfold resolveShare in H1; repeat case_match; by simplify_eq).
  assert (same_guard t1 (resolveWhole p t1)) as G2 by (unfold resolveWhole; repeat case_match; done).
  assert (same_guard (resolveWhole p t1) t2) as G3 by (unfold resolveLeg in H2; repeat case_match; by simplify_eq).
  by eapply same_guard_trans, same_guard_trans.
Qed.

(** Every transition [Apply] accepts obeys the law, of a whole bucket or of a move. *)
Lemma Apply_barrier p t np : Apply p t = Ok np -> barrier_law p t np.
Proof.
  unfold Apply. rewrite (ApplyF_top 0). unfold applyTop. intros H. apply bind_Ok in H as (t1 & H1 & H). apply bind_Ok in H as (t2 & H2 & H).
  eapply (barrier_law_ext p t t2 np np); [by eapply resolve_guard|done|]. destruct (is_move p t2); [|by apply applyPlain_barrier].
  unfold applyMove in H. destruct (pMove p) as [m|] eqn:Hm; [by eapply stepMove_barrier|by apply startMove_barrier].
Qed.

(** ** The step of a transition *)

(** [strings.Cut] of a placement key, as [SplitKey] without its check. *)
Definition cut_key (k : string) : string * string := default (k, "") (Cut k "/"%char).

(** [moving]: the two-cluster placement the control plane reasons about. *)
Definition moving (p : Placement) : Placement := match pMove p with Some m => MoveView p m | None => p end.

Definition hasLegOn (p : Placement) (cluster : string) : bool :=
  existsb (fun id => bool_decide (legCluster (mget zeroLeg id (pLegs p)) = cluster)) (msortedKeys (pLegs p)).

(** [Capabilities.ConditionalWriteOr] of a cluster of the file; the zero cluster when it is missing. *)
Definition conditionalWriteOr (f : File) (cluster : string) (def : bool) : bool :=
  match mlookup cluster (fClusters f) with Some c => default def (ConditionalWrite (cCapabilities c)) | None => def end.

Inductive stepErr : Type :=
| SApply (e : applyErr)
| SOtherTarget
| SLostWriteWindow
| SSharedBucket.

Section Steps.
(** The hash in a generated backend name. *)
Context (hex4 : string -> string).

Definition withDefaultName (key : string) (p : Placement) (t : Transition) : Transition :=
  if bool_decide (pState p = StateActive) && bool_decide (pTarget p = "") && negb (bool_decide (tTarget t = "")) && bool_decide (tName t = "") && negb (hasLegOn p (tTarget t))
  then let '(tenant, bucket) := cut_key key in t |> set_tTarget (tTarget t) (BackendName hex4 tenant bucket 0)
  else t.

(** [transition] up to its write: what it refuses, and the transition it submits.  Its calls to the
    backends (the target's bucket, the probes) may fail at any point and are the environment's. *)
Definition transition_check (key : string) (p : Placement) (f : File) (t : Transition) (acceptLoss : bool) : result stepErr Transition :=
  let t := withDefaultName key p t in
  let pv := moving p in
  if negb (bool_decide (pState p = StateActive)) && negb (bool_decide (tTarget t = "")) && negb (bool_decide (tTarget t = ClusterOf pv (pPrimary pv)))
  then Err SOtherTarget
  else
    let t := if negb (bool_decide (pState p = StateActive)) && negb (bool_decide (tTarget t = "")) then t |> set_tTarget "" "" else t in
    match Apply p t with
    | Err e => Err (SApply e)
    | Ok full =>
        let np := if bool_decide (pMove full = None) && bool_decide (is_Some (pMove p)) then moving p else moving full in
        let dst := ClusterOf np (pPrimary np) in
        if bool_decide (pState full = StateMigrating) && negb (bool_decide (pState p = StateMigrating)) && negb (conditionalWriteOr f dst true) && negb acceptLoss
        then Err SLostWriteWindow
        else if bool_decide (pState p = StateActive) && negb (bool_decide (BucketUser f dst (mget "" (pPrimary np) (pNames np)) key = ""))
        then Err SSharedBucket
        else Ok t
    end.

(** The write of [transition]: [SetState] from the state its snapshot had. *)
Definition transition_write (key : string) (p : Placement) (t : Transition) : File -> result dirErr File :=
  let '(tenant, bucket) := cut_key key in SetState tenant bucket (pState p) t.

Definition stepInForce (p : Placement) (t : Transition) : bool :=
  let pv := moving p in
  if Held pv then false
  else if bool_decide (tTo t = StateMigrating) then bool_decide (pState pv = StateMigrating)
  else if bool_decide (tTo t = StateRamping) then
    bool_decide (pState pv = StateRamping) &&
    match pRamp pv with
    | Some r => negb (f64_ltb (rRatio r) (tRatio t)) && forallb (fun pre => bool_decide (pre ∈ rPrefixes r)) (tPrefixes t)
    | None => false
    end
  else false.

(** ** The closures of a barrier

    What a closure does with the snapshot it reads: answer at once, refuse, or write. *)

Inductive hold_plan : Type :=
| HSeen (v : Z)
| HRefused
| HWrite (w : File -> result dirErr File).

Inductive commit_plan : Type :=
| KAlready (v : Z)
| KGone
| KRefused (why : string)
| KWrite (w : File -> result dirErr File).

Record guard : Type := mkGuard {
  g_hold : File -> hold_plan;
  g_commit : File -> commit_plan;
  g_release : File -> result dirErr File;
}.

(** [carriesBarrier], on the snapshot it reads. *)
Definition carriesBarrier (f : File) (scope id : string) : bool :=
  match CutPrefix scope "cluster:" with
  | Some name => match mlookup name (fClusters f) with Some c => carries_barrier (cBarrier c) id | None => false end
  | None =>
      let '(tenant, bucket) := cut_key (TrimPrefix scope "placement:") in
      match lookup_placement f (Key tenant bucket) with Some p => carries_barrier (pBarrier p) id | None => false end
  end.

(** [Store.ClearBarrier] *)
Definition clearBarrier (resource id : string) (f : File) : result dirErr File :=
  match CutPrefix resource "cluster:" with
  | Some name => ClearClusterBarrier name id f
  | None => match SplitKey (TrimPrefix resource "placement:") with
            | Some (tenant, bucket) => ClearBarrier tenant bucket id f
            | None => Err ErrNotFound
            end
  end.

(** [releaseHold], by the operation's kind. *)
Definition releaseHold (kind placement scope id : string) (prior : option ReadOnlyPrior) (f : File) : result dirErr File :=
  if bool_decide (kind ∈ [OpRamp; OpMigrate]) then
    let '(tenant, bucket) := cut_key placement in
    SetState tenant bucket StateRamping (mkTransition "" "" "" f0 [] None false true false id None "" "" f0) f
  else if bool_decide (kind ∈ [OpPlacementReadOnly; OpClusterReadOnly]) then
    let pr := default (mkPrior false false) prior in ReleaseReadOnly scope id (prReadOnly pr) (prReject pr) f
  else if bool_decide (kind ∈ [OpCutover; OpPurge]) then clearBarrier scope id f
  else Ok f.

(** [fencedStep]: the step as it is held, and as it is completed. *)
Definition held_step (id : string) (t : Transition) : Transition :=
  mkTransition (tTo t) (tTarget t) (tName t) (tRatio t) (tPrefixes t) (tCutover t) true (tRelease t) (tComplete t) id (tRange t) (tLeg t) (tScope t) (tShare t).
Definition complete_step (t : Transition) : Transition :=
  mkTransition (tTo t) "" "" (tRatio t) (tPrefixes t) (tCutover t) (tHold t) (tRelease t) true (tBarrier t) None "" "" (tShare t).

Definition step_guard (kind key id : string) (t : Transition) (acceptLoss : bool) : guard := mkGuard
  (fun f1 => let p1 := mget zeroPlacement key (fPlacements f1) in
    if Held p1 && carries_barrier (pBarrier p1) id then HSeen (fVersion f1)
    else match transition_check key p1 f1 (held_step id t) acceptLoss with
         | Err _ => HRefused
         | Ok t' => HWrite (transition_write key p1 t')
         end)
  (fun f2 => match lookup_placement f2 key with
    | None => KRefused "conflict"
    | Some p2 =>
        if negb (Held p2) || negb (carries_barrier (pBarrier p2) id) then
          if stepInForce p2 t then KAlready (fVersion f2) else KGone
        else match transition_check key p2 f2 (complete_step t) acceptLoss with
             | Err _ => KRefused "refused"
             | Ok t' => KWrite (transition_write key p2 t')
             end
    end)
  (releaseHold kind key (PlacementResource key) id None).

(** [runCutover]: the hold, and the commit with the evidence its drain established. *)
Definition cutover_hold (key id : string) (f : File) : hold_plan :=
  match lookup_placement f key with
  | None => HRefused
  | Some cp => if carries_barrier (pBarrier cp) id then HSeen (fVersion f)
               else let '(tenant, bucket) := cut_key key in HWrite (SetBarrier tenant bucket (mkBarrier id BarrierMutations))
  end.

Definition cutover_commit (key id : string) (evidence : option CutoverEvidence) (f : File) : commit_plan :=
  match lookup_placement f key with
  | None => KRefused "not found"
  | Some cp =>
      if bool_decide (pState cp = StateCutover) then KAlready (fVersion f)
      else if negb (carries_barrier (pBarrier cp) id) then KGone
      else match evidence with
           | None => KRefused "no evidence"
           | Some e =>
               match transition_check key cp f (mkTransition StateCutover "" "" f0 [] (Some e) false false false id None "" "" f0) false with
               | Err _ => KRefused "refused"
               | Ok t' => KWrite (transition_write key cp t')
               end
           end
  end.

Definition cutover_guard (key id : string) (evidence : option CutoverEvidence) : guard :=
  mkGuard (cutover_hold key id) (cutover_commit key id evidence) (releaseHold OpCutover key (PlacementResource key) id None).

(** [readOnlySwitch]; the zero value of a missing scope. *)
Definition readOnlySwitch (f : File) (scope : string) : bool * bool * option Config.Barrier :=
  match CutPrefix scope "cluster:" with
  | Some name => match mlookup name (fClusters f) with Some c => (cReadOnly c, cRejectWrites c, cBarrier c) | None => (false, false, None) end
  | None => let p := mget zeroPlacement (TrimPrefix scope "placement:") (fPlacements f) in (pReadOnly p, pRejectWrites p, pBarrier p)
  end.

(** [runReadOnly], switching on; [set] is the scope's read-only mutation. *)
Definition readonly_guard (kind scope id : string) (reject : bool) (prior : option ReadOnlyPrior) (set : bool -> bool -> string -> File -> result dirErr File) : guard := mkGuard
  (fun f => let '(ro, _, bar) := readOnlySwitch f scope in
    if ro && carries_barrier bar id then HSeen (fVersion f) else HWrite (set true reject id))
  (fun f => let '(ro, _, bar) := readOnlySwitch f scope in
    if negb (carries_barrier bar id) then if (ro : bool) then KAlready (fVersion f) else KGone
    else KWrite (clearBarrier scope id))
  (releaseHold kind "" scope id prior).

End Steps.

(** ** What a scope promises its operation *)

(** The parts of a file a barrier's closures read; a store stamps the rest. *)
Definition same_scopes (f f' : File) : Prop := fPlacements f' = fPlacements f /\ fClusters f' = fClusters f.

(** The closures of [G] guard [scope] with the barrier [id], on the files [ok] allows: a hold leaves the
    scope carrying it, and a commit or a release lands only on a scope that does, and takes it off. *)
Class Guarded (G : guard) (scope id : string) (ok : File -> Prop) : Prop := {
  gd_seen f v : g_hold G f = HSeen v -> carriesBarrier f scope id = true /\ v = fVersion f;
  gd_hold f1 w f f' : g_hold G f1 = HWrite w -> w f = Ok f' -> carriesBarrier f' scope id = true;
  gd_commit f1 w f f' : g_commit G f1 = KWrite w -> ok f -> w f = Ok f' -> carriesBarrier f scope id = true /\ carriesBarrier f' scope id = false;
  gd_release f f' : g_release G f = Ok f' -> carriesBarrier f scope id = true /\ carriesBarrier f' scope id = false;
}.

Lemma same_scopes_carries f f' scope id : same_scopes f f' -> carriesBarrier f' scope id = carriesBarrier f scope id.
Proof. intros [E1 E2]. unfold carriesBarrier, lookup_placement. by rewrite E1, E2. Qed.

Lemma put_placement_lookup k p q f : lookup_placement f k = Some q -> lookup_placement (put_placement k p f) k = Some p.
Proof. unfold lookup_placement, put_placement. simpl. destruct (fPlacements f); simpl; [by rewrite lookup_insert_eq|done]. Qed.
Lemma put_cluster_lookup k c d f : mlookup k (fClusters f) = Some d -> mlookup k (fClusters (put_cluster k c f)) = Some c.
Proof. unfold put_cluster. simpl. destruct (fClusters f); simpl; [by rewrite lookup_insert_eq|done]. Qed.

Section Placement.
Context (key tenant bucket id : string) (Hkey : SplitKey key = Some (tenant, bucket)).

Lemma split_cut : cut_key key = (tenant, bucket) /\ Key tenant bucket = key.
Proof.
  unfold SplitKey in Hkey. unfold cut_key. destruct (Cut key "/"%char) as [[a b]|] eqn:E; [|done]. cbn in Hkey |- *.
  destruct (_ || _); [done|]. injection Hkey as <- <-. split; [done|]. symmetry. by apply Cut_Some in E.
Qed.

Lemma carries_placement f : carriesBarrier f (PlacementResource key) id = match lookup_placement f key with Some p => carries_barrier (pBarrier p) id | None => false end.
Proof.
  destruct split_cut as [E1 E2]. unfold carriesBarrier. change (CutPrefix (PlacementResource key) "cluster:") with (@None string). cbv iota beta.
  change (TrimPrefix (PlacementResource key) "placement:") with key. by rewrite E1, E2.
Qed.

Lemma transition_write_barrier p t f f' : transition_write key p t f = Ok f' ->
  exists q nq, lookup_placement f key = Some q /\ lookup_placement f' key = Some nq /\ barrier_law q t nq.
Proof.
  destruct split_cut as [E1 E2]. unfold transition_write, SetState. rewrite E1, E2. destruct (lookup_placement f key) as [q|] eqn:Eq; [|done].
  destruct (negb _); [done|]. destruct (Apply q t) as [nq|] eqn:Ea; [|done]. intros [= <-]. exists q, nq.
  split_and!; [done|by eapply put_placement_lookup|by apply Apply_barrier].
Qed.

Lemma transition_check_guard hex4 p f t acceptLoss t' : transition_check hex4 key p f t acceptLoss = Ok t' -> same_guard t t'.
Proof.
  assert (forall t, same_guard t (withDefaultName hex4 key p t)) as Hn.
  { intros t0. unfold withDefaultName. destruct (_ && _); [|done]. by destruct (cut_key key). }
  unfold transition_check. intros H. pass_check H. destruct (Apply _ _); [|done]. do 2 pass_check H. injection H as <-.
  eapply same_guard_trans; [apply Hn|]. by destruct (_ && _).
Qed.

Hypothesis Hid : id <> "".

(** A release of the step's hold. *)
Lemma release_step_law kind prior f f' : kind ∈ [OpRamp; OpMigrate] -> releaseHold kind key (PlacementResource key) id prior f = Ok f' ->
  carriesBarrier f (PlacementResource key) id = true /\ carriesBarrier f' (PlacementResource key) id = false.
Proof.
  intros Hk. unfold releaseHold. rewrite bool_decide_true by done. destruct split_cut as [E1 E2]. rewrite E1. intros H.
  assert (transition_write key (zeroPlacement |> set_State StateRamping) (mkTransition "" "" "" f0 [] None false true false id None "" "" f0) f = Ok f') as H'
    by (unfold transition_write; by rewrite E1).
  destruct (transition_write_barrier _ _ _ _ H') as (q & nq & Eq & Eq' & [Hb Hc]). rewrite !carries_placement, Eq, Eq', Hb.
  split; [|done]. by apply Hc.
Qed.

(** Clearing the barrier, of a placement. *)
Lemma clear_law f f' : clearBarrier (PlacementResource key) id f = Ok f' ->
  carriesBarrier f (PlacementResource key) id = true /\ carriesBarrier f' (PlacementResource key) id = false.
Proof.
  unfold clearBarrier. change (CutPrefix (PlacementResource key) "cluster:") with (@None string). cbv iota beta.
  change (TrimPrefix (PlacementResource key) "placement:") with key. rewrite Hkey. destruct split_cut as [_ E2]. unfold ClearBarrier. rewrite E2, !carries_placement.
  destruct (lookup_placement f key) as [p|] eqn:Ep; [|done]. destruct (carries_barrier (pBarrier p) id); [|done]. intros [= <-].
  by rewrite (put_placement_lookup _ _ _ _ Ep).
Qed.

(** The hold of a step on the placement is the operation's own. *)
Definition own_hold (f : File) : Prop := forall p, lookup_placement f key = Some p -> Held p = true -> carries_barrier (pBarrier p) id = true.

(** A ramp or migrate step: its completion names no barrier, so it is guarded while no other operation's
    hold is on the placement. *)
#[export] Instance step_guarded hex4 kind t acceptLoss : kind ∈ [OpRamp; OpMigrate] -> tHold t = false -> tRelease t = false ->
  Guarded (step_guard hex4 kind key id t acceptLoss) (PlacementResource key) id own_hold.
Proof.
  intros Hkind Hth Htr. split; cbn [g_hold g_commit g_release step_guard].
  - intros f v H. destruct (Held _ && _) eqn:E; [|by destruct (transition_check _ _ _ _ _ _)]. injection H as <-. apply andb_true_iff in E as [_ E].
    rewrite carries_placement. unfold mget in E. unfold lookup_placement. by destruct (mlookup key (fPlacements f)).
  - intros f1 w f f' H Hw. destruct (Held _ && _); [done|]. destruct (transition_check _ _ _ _ _ _) as [t'|] eqn:Et; [|done]. injection H as <-.
    destruct (transition_write_barrier _ _ _ _ Hw) as (q & nq & Eq & Eq' & Hlaw). destruct (transition_check_guard _ _ _ _ _ _ Et) as (G1 & G2 & _ & G4).
    unfold barrier_law in Hlaw. rewrite G1, G2, G4 in Hlaw. cbn in Hlaw. rewrite Htr in Hlaw. specialize (Hlaw Hid).
    rewrite carries_placement, Eq', Hlaw. simpl. by apply bool_decide_eq_true.
  - intros f1 w f f' H Hok Hw. destruct (lookup_placement f1 key) as [p2|]; [|done]. destruct (_ || _); [by destruct (stepInForce p2 t)|].
    destruct (transition_check _ _ _ _ _ _) as [t'|] eqn:Et; [|done]. injection H as <-.
    destruct (transition_write_barrier _ _ _ _ Hw) as (q & nq & Eq & Eq' & Hlaw). destruct (transition_check_guard _ _ _ _ _ _ Et) as (G1 & G2 & G3 & _).
    unfold barrier_law in Hlaw. rewrite G1, G2, G3 in Hlaw. cbn in Hlaw. rewrite Htr, Hth in Hlaw. destruct Hlaw as [_ Hlaw]. destruct (Hlaw eq_refl) as [Hh Hb].
    rewrite !carries_placement, Eq, Eq', Hb. split; [by apply Hok|done].
  - intros f f'. by apply release_step_law.
Qed.

(** A cutover: its transition names its barrier. *)
#[export] Instance cutover_guarded hex4 evidence : Guarded (cutover_guard hex4 key id evidence) (PlacementResource key) id (fun _ => True).
Proof.
  split; cbn [g_hold g_commit g_release cutover_guard]; unfold cutover_hold, cutover_commit.
  - intros f v H. rewrite carries_placement. destruct (lookup_placement f key) as [cp|]; [|done]. destruct (carries_barrier _ id); [by simplify_eq|].
    by destruct (cut_key key).
  - intros f1 w f f' H Hw. destruct (lookup_placement f1 key) as [cp|]; [|done]. destruct (carries_barrier _ id); [done|]. destruct split_cut as [E1 E2].
    rewrite E1 in H. injection H as <-. unfold SetBarrier in Hw. rewrite E2 in Hw. destruct (lookup_placement f key) as [p|] eqn:Ep; [|done].
    destruct (bool_decide _); [done|]. injection Hw as <-. rewrite carries_placement, (put_placement_lookup _ _ _ _ Ep). simpl. by apply bool_decide_eq_true.
  - intros f1 w f f' H _ Hw. destruct (lookup_placement f1 key) as [cp|]; [|done]. destruct (bool_decide _); [done|]. destruct (negb _); [done|].
    destruct evidence as [e|]; [|done]. destruct (transition_check _ _ _ _ _ _) as [t'|] eqn:Et; [|done]. injection H as <-.
    destruct (transition_write_barrier _ _ _ _ Hw) as (q & nq & Eq & Eq' & Hlaw). destruct (transition_check_guard _ _ _ _ _ _ Et) as (G1 & G2 & _ & G4).
    unfold barrier_law in Hlaw. rewrite G1, G2, G4 in Hlaw. cbn in Hlaw. destruct Hlaw as [Hlaw _]. destruct (Hlaw Hid) as [Hh Hb].
    by rewrite !carries_placement, Eq, Eq', Hb.
  - intros f f'. unfold releaseHold. cbn. by apply clear_law.
Qed.

(** A placement's read-only switch. *)
#[export] Instance placement_readonly_guarded kind reject prior : kind ∈ [OpPlacementReadOnly; OpClusterReadOnly] ->
  Guarded (readonly_guard kind (PlacementResource key) id reject prior (SetPlacementReadOnly tenant bucket)) (PlacementResource key) id (fun _ => True).
Proof.
  intros Hkind. destruct split_cut as [E1 E2].
  assert (forall f, readOnlySwitch f (PlacementResource key) = let p := mget zeroPlacement key (fPlacements f) in (pReadOnly p, pRejectWrites p, pBarrier p)) as Hsw by done.
  split; cbn [g_hold g_commit g_release readonly_guard].
  - intros f v. rewrite Hsw. simpl. destruct (_ && _) eqn:E; intros [= <-]. apply andb_true_iff in E as [_ E]. rewrite carries_placement. unfold mget in E.
    unfold lookup_placement. by destruct (mlookup key (fPlacements f)).
  - intros f1 w f f'. rewrite Hsw. simpl. destruct (_ && _); intros [= <-]. unfold SetPlacementReadOnly. rewrite E2. destruct (lookup_placement f key) as [p|] eqn:Ep; [|done].
    destruct (readOnlyConflict _ _ _ _ _ _); intros [= <-]. rewrite carries_placement, (put_placement_lookup _ _ _ _ Ep). simpl.
    unfold readOnlyBarrier. rewrite (bool_decide_eq_false_2 _ Hid). simpl. by apply bool_decide_eq_true.
  - intros f1 w f f'. rewrite Hsw. simpl. destruct (carries_barrier _ id); simpl; [intros [= <-] _; apply clear_law|by destruct (pReadOnly _)].
  - intros f f'. unfold releaseHold. rewrite bool_decide_false by set_solver. rewrite bool_decide_true by done. unfold ReleaseReadOnly.
    change (CutPrefix (PlacementResource key) "cluster:") with (@None string). cbv iota beta zeta. change (TrimPrefix (PlacementResource key) "placement:") with key.
    rewrite !carries_placement. destruct (lookup_placement f key) as [p|] eqn:Ep; [|done]. destruct (carries_barrier (pBarrier p) id); intros [= <-].
    by rewrite (put_placement_lookup _ _ _ _ Ep).
Qed.

End Placement.

(** A cluster's read-only switch. *)
#[export] Instance cluster_readonly_guarded name id kind reject prior : id <> "" -> kind ∈ [OpPlacementReadOnly; OpClusterReadOnly] ->
  Guarded (readonly_guard kind (ClusterResource name) id reject prior (SetClusterReadOnly name)) (ClusterResource name) id (fun _ => True).
Proof.
  intros Hid Hkind.
  assert (forall f, carriesBarrier f (ClusterResource name) id = match mlookup name (fClusters f) with Some c => carries_barrier (cBarrier c) id | None => false end) as Hc by done.
  assert (forall f, readOnlySwitch f (ClusterResource name) = match mlookup name (fClusters f) with Some c => (cReadOnly c, cRejectWrites c, cBarrier c) | None => (false, false, None) end) as Hsw by done.
  split; cbn [g_hold g_commit g_release readonly_guard].
  - intros f v. rewrite Hsw, Hc. destruct (mlookup name (fClusters f)) as [c|]; [|done]. destruct (_ && _) eqn:E; intros [= <-]. by apply andb_true_iff in E as [_ E].
  - intros f1 w f f'. rewrite Hsw. assert (forall f', SetClusterReadOnly name true reject id f = Ok f' -> carriesBarrier f' (ClusterResource name) id = true) as Hset.
    { intros g. unfold SetClusterReadOnly. rewrite Hc. destruct (mlookup name (fClusters f)) as [c|] eqn:Ec; [|done]. destruct (readOnlyConflict _ _ _ _ _ _); intros [= <-].
      rewrite (put_cluster_lookup _ _ _ _ Ec). simpl. unfold readOnlyBarrier. rewrite (bool_decide_eq_false_2 _ Hid). simpl. by apply bool_decide_eq_true. }
    destruct (mlookup name (fClusters f1)) as [c|]; simpl; [destruct (_ && _)|]; intros [= <-]; apply Hset.
  - intros f1 w f f'. rewrite Hsw. assert (clearBarrier (ClusterResource name) id f = Ok f' -> carriesBarrier f (ClusterResource name) id = true /\ carriesBarrier f' (ClusterResource name) id = false) as Hclr.
    { unfold clearBarrier. change (CutPrefix (ClusterResource name) "cluster:") with (Some name). cbv iota. unfold ClearClusterBarrier. rewrite !Hc.
      destruct (mlookup name (fClusters f)) as [c|] eqn:Ec; [|done]. destruct (carries_barrier (cBarrier c) id); intros [= <-]. by rewrite (put_cluster_lookup _ _ _ _ Ec). }
    destruct (mlookup name (fClusters f1)) as [c|]; simpl; [|done]. destruct (carries_barrier _ id); simpl; [intros [= <-] _; apply Hclr|by destruct (cReadOnly c)].
  - intros f f'. unfold releaseHold. rewrite bool_decide_false by set_solver. rewrite bool_decide_true by done. unfold ReleaseReadOnly.
    change (CutPrefix (ClusterResource name) "cluster:") with (Some name). cbv iota zeta. rewrite !Hc.
    destruct (mlookup name (fClusters f)) as [c|] eqn:Ec; [|done]. destruct (carries_barrier (cBarrier c) id); intros [= <-]. by rewrite (put_cluster_lookup _ _ _ _ Ec).
Qed.

(** ** The steps of the control plane are fenced *)

Section FencedStep.
Context (hex4 : string -> string) (key id : string) (acceptLoss : bool).

(** [fencedStep]: whether a step moves writes, and is held first. *)
Definition step_moves (p : Placement) (t : Transition) : bool :=
  bool_decide (tTo t = StateRamping) ||
  (bool_decide (tTo t = StateMigrating) &&
   (negb (bool_decide (pState p = StateRamping)) || match pRamp (moving p) with Some r => f64_ltb (rRatio r) f1 | None => true end || Held p)).

(** The transitions [fencedStep] submits for a step [t], by the placement it reads: a step that moves no writes as it is,
    the step as a hold, and its completion once the placement carries the operation's hold. *)
Inductive step_write (t : Transition) (f : File) (p : Placement) : Transition -> Prop :=
| sw_direct t' : step_moves p t = false -> transition_check hex4 key p f t acceptLoss = Ok t' -> step_write t f p t'
| sw_hold t' : transition_check hex4 key p f (held_step id t) acceptLoss = Ok t' -> step_write t f p t'
| sw_complete t' : Held p = true -> carries_barrier (pBarrier p) id = true -> transition_check hex4 key p f (complete_step t) acceptLoss = Ok t' -> step_write t f p t'.

Lemma transition_check_step p f t t' : transition_check hex4 key p f t acceptLoss = Ok t' ->
  tHold t' = tHold t /\ tTo t' = tTo t /\ tRatio t' = tRatio t /\ tRange t' = tRange t.
Proof.
  assert (forall t, let t' := withDefaultName hex4 key p t in tHold t' = tHold t /\ tTo t' = tTo t /\ tRatio t' = tRatio t /\ tRange t' = tRange t) as Hn.
  { intros t0. unfold withDefaultName. destruct (_ && _); [|done]. by destruct (cut_key key). }
  unfold transition_check. intros H. pass_check H. destruct (Apply _ _); [|done]. do 2 pass_check H. injection H as <-.
  destruct (Hn t) as (E1 & E2 & E3 & E4). by destruct (_ && _).
Qed.

Lemma direct_whole p t : tTo t = StateRamping \/ tTo t = StateMigrating -> step_moves p t = false -> tTo t = StateMigrating /\ whole_ramp p = true.
Proof.
  unfold step_moves, whole_ramp, moving. intros [->| ->]; [done|]. cbn [bool_decide]. rewrite (bool_decide_eq_true_2 (StateMigrating = StateMigrating)) by done.
  rewrite (bool_decide_eq_false_2 (StateMigrating = StateRamping)) by done. cbn [orb andb]. intros H. split; [done|].
  apply orb_false_iff in H as [H _]. apply orb_false_iff in H as [_ H]. destruct (pMove p) as [m|]; [|destruct (pRamp p); [by rewrite H|done]].
  simpl in H. destruct (mvRamp m) as [r|]; simpl in H; [by rewrite H|done].
Qed.

End FencedStep.

(** C11: the control plane keeps the fence: whatever ramp or migrate step it is asked for, each transition it submits for it (the step itself when it moves no writes, its hold, its completion) is one across which a front end on the old placement and one on the new answer every key consistently: two accepted writes go to one backend, and each reads where the other writes. *)
Theorem fencedStep_fenced hex4 key id acceptLoss t f p t' np k
    (Hto : tTo t = StateRamping \/ tTo t = StateMigrating) (Hwf : wf_placement p) (Hrange : forall rg, tRange t = Some rg -> range_u64 rg)
    (Hratio : ratio_ok (tRatio t)) (Hsub : step_write hex4 key id acceptLoss t f p t') (Hnp : Apply p t' = Ok np) :
  exists wp rp wq rq, routed p k = Ok (wp, rp) /\ routed np k = Ok (wq, rq) /\
    (forall a b, wp = Some a -> wq = Some b -> a = b) /\ (forall a, wp = Some a -> a ∈ rq) /\ (forall b, wq = Some b -> b ∈ rp).
Proof.
  assert (fenced p t' /\ tRatio t' = tRatio t /\ forall rg, tRange t' = Some rg -> range_u64 rg) as (Hf & Er & Hrg).
  { destruct Hsub as [t' Hm Hc|t' Hc|t' Hh _ Hc]; destruct (transition_check_step _ _ _ _ _ _ _ Hc) as (E1 & E2 & E3 & E4); cbn in *; rewrite E3, E4; split_and!; try done.
    - right; right; right; right. rewrite E2. by apply direct_whole.
    - by left.
    - by right; left. }
  unfold Apply in Hnp. rewrite ApplyF_top in Hnp. rewrite <- Er in Hratio.
  destruct (applyTop_agree p t' np k Hwf Hrg Hratio Hf Hnp) as ([wp rp] & [wq rq] & Hp & Hq & Hc).
  exists wp, rp, wq, rq. split; [exact Hp|]. split; [exact Hq|]. exact Hc.
Qed.

Definition empty_file : File := mkFile 1 2 zeroIdentity None None None None.

Lemma fencedStep_fenced_witness : exists t' np, step_write (fun _ => "0000") "t/logs" "op1" false example_move empty_file example_spread t' /\ Apply example_spread t' = Ok np /\
  exists wp rp wq rq, routed example_spread "k" = Ok (wp, rp) /\ routed np "k" = Ok (wq, rq) /\
    (forall a b, wp = Some a -> wq = Some b -> a = b) /\ (forall a, wp = Some a -> a ∈ rq) /\ (forall b, wq = Some b -> b ∈ rp).
Proof.
  assert (exists t', transition_check (fun _ => "0000") "t/logs" example_spread empty_file (held_step "op1" example_move) false = Ok t' /\ t' = held_step "op1" example_move) as (t' & Ht & ->)
    by (eexists; split; vm_compute; reflexivity).
  exists (held_step "op1" example_move). eexists. split; [by apply sw_hold|]. split; [vm_compute; reflexivity|].
  apply (fencedStep_fenced (fun _ => "0000") "t/logs" "op1" false example_move empty_file example_spread (held_step "op1" example_move) _ "k");
    [by left|exact example_spread_wf|by intros ? [=]|exact quarter_ok|by apply sw_hold|vm_compute; reflexivity].
Defined.
