(* ===== verification/DirBarrier.v ===== *)
(** * Barriers over the directory (internal/control: barrier.go, ops.go, readonly.go; internal/directory)

    [Barrier] runs an operation against an abstract scope.  Here the scope is the directory file: the
    closures of [ScopeWrites] read a snapshot, decide, and write by a mutation of the file as it is then,
    while other operations write it too.  The detailed system refines the abstract one, so what is proved
    of the abstract one holds of the file.  A step whose completion names no barrier does not meet the
    interface when another operation holds the placement; the file ends with the run that shows it. *)

From S2P Require Import Prelude Float64 KeyHash HashRange Config Placement Transition S3Op S3Names Route Backend Scopes Directory Admission Validate Keeper OpRecord Barrier BarrierSafe ScopeWrites.

(** ** The system *)

(** The record, the directory file, whether the operation's commit was ever written to it, and the mark of
    the owner's tracker. *)
Record cworld : Type := mkCWorld { cwRec : Operation; cwFile : File; cwDone : bool; cwLost : bool }.

(** A handler: its program, and the snapshot the closure of its next action has read. *)
Definition cthread (A : Type) : Type := prog A * option File.

(** The actions that read or write the directory. *)
Definition on_directory {R} (a : act R) : bool :=
  match a with AHold | ACommit | ACarries | ARelease => true | _ => false end.

Section System.
Context (G : guard) (scope id : string) (ok : File -> Prop).

(** A mutation's result as a store installs it: stamped, with a version. *)
Definition installed (f f' : File) : Prop := same_scopes f f' /\ (0 < fVersion f')%Z /\ ok f'.

(** One access of a closure to the directory: it answers, or goes on with the snapshot it read.  The reply to a
    write may be lost. *)
Inductive dstep : forall R, act R -> option File -> File * bool -> R + File -> File * bool -> Prop :=
| d_hold_fail s x : dstep _ AHold s x (inl (Err ())) x
| d_hold_seen f d v : g_hold G f = HSeen v -> dstep _ AHold None (f, d) (inl (Ok (v, Generation f scope))) (f, d)
| d_hold_read f d w : g_hold G f = HWrite w -> dstep _ AHold None (f, d) (inr f) (f, d)
| d_hold_write f1 w f d f0 f' v gen : g_hold G f1 = HWrite w -> w f = Ok f0 -> installed f0 f' -> (0 < v)%Z ->
    dstep _ AHold (Some f1) (f, d) (inl (Ok (v, gen))) (f', d)
| d_hold_lost f1 w f d f0 f' : g_hold G f1 = HWrite w -> w f = Ok f0 -> installed f0 f' -> dstep _ AHold (Some f1) (f, d) (inl (Err ())) (f', d)
| d_commit_fail s x why : dstep _ ACommit s x (inl (Err (CFailed why))) x
| d_commit_already f d v : g_commit G f = KAlready v -> dstep _ ACommit None (f, d) (inl (Ok (v, true))) (f, d)
| d_commit_gone f d : g_commit G f = KGone -> dstep _ ACommit None (f, d) (inl (Err CGone)) (f, d)
| d_commit_read f d w : g_commit G f = KWrite w -> dstep _ ACommit None (f, d) (inr f) (f, d)
| d_commit_write f1 w f d f0 f' v : g_commit G f1 = KWrite w -> w f = Ok f0 -> installed f0 f' -> dstep _ ACommit (Some f1) (f, d) (inl (Ok (v, false))) (f', true)
| d_commit_lost f1 w f d f0 f' why : g_commit G f1 = KWrite w -> w f = Ok f0 -> installed f0 f' -> dstep _ ACommit (Some f1) (f, d) (inl (Err (CFailed why))) (f', true)
| d_carries_fail s x : dstep _ ACarries s x (inl (Err ())) x
| d_carries s f d : dstep _ ACarries s (f, d) (inl (Ok (carriesBarrier f scope id))) (f, d)
| d_release_fail s x : dstep _ ARelease s x (inl RFail) x
| d_release_refused s f d e : g_release G f = Err e -> dstep _ ARelease s (f, d) (inl RConflict) (f, d)
| d_release_write s f d f0 f' : g_release G f = Ok f0 -> installed f0 f' -> dstep _ ARelease s (f, d) (inl ROk) (f', d)
| d_release_lost s f d f0 f' : g_release G f = Ok f0 -> installed f0 f' -> dstep _ ARelease s (f, d) (inl RFail) (f', d).

(** The scope the abstract system sees. *)
Definition scope_of (f : File) (done : bool) : scopeState := if done then SDone else if carriesBarrier f scope id then SHeld else SFree.
Definition abs_world (w : cworld) : world := mkWorld (cwRec w) (scope_of (cwFile w) (cwDone w)) (cwLost w).

(** One step of a handler. *)
Inductive tstep (flaky : bool) {A} : cthread A -> cworld -> cthread A -> cworld -> Prop :=
| t_rec R (a : act R) k s w c r w' : on_directory a = false -> exec flaky c a (abs_world w) = Some (r, w') ->
    tstep flaky (Do a k, s) w (k r, None) (mkCWorld (wRec w') (cwFile w) (cwDone w) (wLost w'))
| t_dir R (a : act R) k s w x f' d' : dstep R a s (cwFile w, cwDone w) x (f', d') ->
    tstep flaky (Do a k, s) w match x with inl r => (k r, None) | inr f => (Do a k, Some f) end (mkCWorld (cwRec w) f' d' (cwLost w)).

Record csys : Type := mkCSys { csWorld : cworld; csOwner : option (cthread (Operation * option runErr)); csCancels : list (cthread answer) }.

(** The owner, cancellations, and the other operations, whose writes never put this operation's barrier on the
    scope. *)
Inductive cstep (now : Z) (flaky : bool) : csys -> csys -> Prop :=
| cs_owner w t cs w' t' : tstep flaky t w t' w' -> cstep now flaky (mkCSys w (Some t) cs) (mkCSys w' (Some t') cs)
| cs_cancel w o cs1 t cs2 w' t' : tstep true t w t' w' -> cstep now flaky (mkCSys w o (cs1 ++ t :: cs2)) (mkCSys w' o (cs1 ++ t' :: cs2))
| cs_lost w t cs : cstep now flaky (mkCSys w (Some t) cs) (mkCSys w None cs)
| cs_gone w o cs1 t cs2 : cstep now flaky (mkCSys w o (cs1 ++ t :: cs2)) (mkCSys w o (cs1 ++ cs2))
| cs_request w o cs : cstep now flaky (mkCSys w o cs) (mkCSys w o (cs ++ [(cancelOperation now, None)]))
| cs_other w o cs f' : (carriesBarrier f' scope id = true -> carriesBarrier (cwFile w) scope id = true) -> (0 < fVersion f')%Z -> ok f' ->
    cstep now flaky (mkCSys w o cs) (mkCSys (mkCWorld (cwRec w) f' (cwDone w) (cwLost w)) o cs).

Definition abs_sys (s : csys) : sys := mkSys (abs_world (csWorld s)) (fst <$> csOwner s) (fst <$> csCancels s).

(** ** The refinement *)

Context `{!Guarded G scope id ok}.

(** A committed change no longer carries its barrier. *)
Record cinv (w : cworld) : Prop := {
  ci_done : cwDone w = true -> carriesBarrier (cwFile w) scope id = false;
  ci_version : (0 < fVersion (cwFile w))%Z;
  ci_ok : ok (cwFile w);
}.

(** Actions on the record leave the scope. *)
Lemma exec_scope flaky c R (a : act R) w r w' : on_directory a = false -> exec flaky c a w = Some (r, w') -> wScope w' = wScope w.
Proof. destruct a; try done; intros _; destruct c; simpl; intros; simplify_eq; try done; repeat case_match; by simplify_eq. Qed.

Lemma installed_carries f f' : installed f f' -> carriesBarrier f' scope id = carriesBarrier f scope id.
Proof. intros (Hs & _). by apply same_scopes_carries. Qed.

Definition handler_sim (flaky : bool) {A} (p p' : prog A) (w w' : world) : Prop :=
  (p' = p /\ w' = w) \/ exists R (a : act R) k c r, p = Do a k /\ p' = k r /\ exec flaky c a w = Some (r, w').

(** A write that took the barrier off the scope. *)
Lemma taken_off rec f d lost f0 f' : cinv (mkCWorld rec f d lost) -> carriesBarrier f scope id = true /\ carriesBarrier f0 scope id = false -> installed f0 f' ->
  d = false /\ scope_of f d = SHeld /\ scope_of f' false = SFree /\ forall d', cinv (mkCWorld rec f' d' lost).
Proof.
  intros [Hdone _ _] [Hc Hc0] Hi. pose proof Hi as (_ & Hv & Hok). rewrite <- (installed_carries _ _ Hi) in Hc0. cbn in Hdone.
  destruct d; [rewrite Hdone in Hc; done|]. unfold scope_of. rewrite Hc, Hc0. by split_and!.
Qed.

(** The hold is written. *)
Lemma hold_taken rec f d lost f0 f' : cinv (mkCWorld rec f d lost) -> d = false -> carriesBarrier f0 scope id = true -> installed f0 f' ->
  scope_of f' d = SHeld /\ cinv (mkCWorld rec f' d lost).
Proof.
  intros _ -> Hc Hi. pose proof Hi as (_ & Hv & Hok). rewrite <- (installed_carries _ _ Hi) in Hc. unfold scope_of. rewrite Hc. by split_and!.
Qed.

(** What a closure does to the directory is one abstract action, or nothing yet. *)
Lemma dstep_sim R (a : act R) s y x y' : dstep R a s y x y' -> forall flaky rec lost, cinv (mkCWorld rec y.1 y.2 lost) ->
  (match a with AHold => y.2 = false | _ => True end) ->
  cinv (mkCWorld rec y'.1 y'.2 lost) /\
  match x with
  | inl r => exists c, exec flaky c a (mkWorld rec (scope_of y.1 y.2) lost) = Some (r, mkWorld rec (scope_of y'.1 y'.2) lost)
  | inr _ => scope_of y'.1 y'.2 = scope_of y.1 y.2
  end.
Proof.
  intros Hd flaky rec lost. destruct Hd as [s x|f d v Hg|f d w Hg|f1 w f d f0 f' v gen Hg Hw Hi Hv|f1 w f d f0 f' Hg Hw Hi|s x why|f d v Hg|f d Hg|f d w Hg
    |f1 w f d f0 f' v Hg Hw Hi|f1 w f d f0 f' why Hg Hw Hi|s x|s f d|s x|s f d e Hg|s f d f0 f' Hg Hi|s f d f0 f' Hg Hi]; cbn [fst snd]; intros Hinv Hnd;
    pose proof Hinv as [Hdone Hver Hok]; cbn [cwDone cwFile] in *; try (split; [exact Hinv|]); try done; try (by exists (CFail false "")).
  - exists (CVersion v (Generation f scope)). destruct (gd_seen f v Hg) as [Hc ->]. unfold scope_of. rewrite Hnd, Hc. simpl. by rewrite (proj2 (Z.ltb_lt _ _) Hver).
  - destruct (hold_taken _ _ _ _ _ _ Hinv Hnd (gd_hold _ _ _ _ Hg Hw) Hi) as [-> Hc]. split; [done|]. exists (CVersion v gen). simpl. by rewrite (proj2 (Z.ltb_lt _ _) Hv).
  - destruct (hold_taken _ _ _ _ _ _ Hinv Hnd (gd_hold _ _ _ _ Hg Hw) Hi) as [-> Hc]. split; [done|]. by exists (CFail true "").
  - by exists (CFail false why).
  - by exists (CSeen v).
  - by exists CPlain.
  - destruct (taken_off _ _ _ _ _ _ Hinv (gd_commit _ _ _ _ Hg Hok Hw) Hi) as (_ & -> & _ & Hc). split; [done|]. by exists (CVersion v 0).
  - destruct (taken_off _ _ _ _ _ _ Hinv (gd_commit _ _ _ _ Hg Hok Hw) Hi) as (_ & -> & _ & Hc). split; [done|]. by exists (CFail true why).
  - exists CPlain. unfold scope_of. destruct d; [by rewrite Hdone|]. by destruct (carriesBarrier f scope id).
  - by exists (CBool true).
  - destruct (taken_off _ _ _ _ _ _ Hinv (gd_release _ _ Hg) Hi) as (-> & -> & -> & Hc). split; [done|]. by exists CPlain.
  - destruct (taken_off _ _ _ _ _ _ Hinv (gd_release _ _ Hg) Hi) as (-> & -> & -> & Hc). split; [done|]. by exists (CFail true "").
Qed.

(** A step of a handler is a step of its program, or none. *)
Lemma tstep_sim flaky {A} (t t' : cthread A) w w' : tstep flaky t w t' w' -> cinv w ->
  (forall k, t.1 = Do AHold k -> cwDone w = false) ->
  cinv w' /\ handler_sim flaky t.1 t'.1 (abs_world w) (abs_world w').
Proof.
  intros Ht Hinv Hnd. destruct Ht as [R a k s w c r w' Ha He|R a k s w x f' d' Hd].
  - pose proof (exec_scope _ _ _ _ _ _ _ Ha He) as Es. split; [by destruct Hinv|]. right. exists R, a, k, c, r. split_and!; [done..|]. rewrite He. do 2 f_equal.
    destruct w'. simpl in *. by subst.
  - destruct w as [rec f d lost]. cbn in *. destruct (dstep_sim _ _ _ _ _ _ Hd flaky rec lost Hinv) as [Hinv' Hx]; [destruct a; try done; by eapply Hnd|]. cbn in *.
    split; [done|]. destruct x as [r|f1].
    + destruct Hx as [c Hc]. right. by exists R, a, k, c, r.
    + left. unfold abs_world. cbn. by rewrite Hx.
Qed.

(** ** The system refines the abstract one *)

(** In a reachable state of the abstract system no handler is about to hold a scope that is committed. *)
Lemma owner_hold_not_done s k : sys_inv s -> syOwner s = Some (Do AHold k) -> wScope (syWorld s) <> SDone.
Proof.
  intros (Hs & Ho & _) E Hd. destruct (Ho _ E) as (w0 & Hp & Hr). destruct (Hp _ Hr (CVersion 1 0) (Ok (1%Z, 0%Z)) (set_scope SHeld (syWorld s)) eq_refl) as [Hg _].
  destruct (ow_scope _ _ Hg) as [E1|[(_ & E1 & _)|(_ & E1 & _)]]; simpl in E1; [congruence| |done]. by rewrite (Hs Hd) in E1.
Qed.

Lemma cancel_hold_not_done s k : sys_inv s -> Do AHold k ∈ syCancels s -> wScope (syWorld s) <> SDone.
Proof.
  intros (_ & _ & Hc) Hin Hd. destruct (Hc _ Hin) as (w0 & Hp & Hr). destruct (Hp _ Hr (CVersion 1 0) (Ok (1%Z, 0%Z)) (set_scope SHeld (syWorld s)) eq_refl) as [Hg _].
  destruct (ot_scope _ _ Hg) as [E1|[_ E1]]; simpl in E1; congruence.
Qed.

Lemma scope_of_done f d : scope_of f d <> SDone -> d = false.
Proof. unfold scope_of. by destruct d. Qed.

Lemma cstep_sim now s s' : cstep now false s s' -> cinv (csWorld s) -> sys_inv (abs_sys s) -> cinv (csWorld s') /\ rtc (sys_step now false) (abs_sys s) (abs_sys s').
Proof.
  intros Hstep Hinv Hsys. destruct Hstep as [w t cs w' t' Ht|w o cs1 t cs2 w' t' Ht|w t cs|w o cs1 t cs2|w o cs|w o cs f' Hc Hv Hok]; cbn [csWorld] in *.
  - destruct (tstep_sim _ _ _ _ _ Ht Hinv) as [Hinv' [[E1 E2]|(R & a & k & c & r & E1 & E2 & He)]].
    + intros k E. eapply scope_of_done, (owner_hold_not_done _ k Hsys). simpl. by rewrite E.
    + split; [done|]. unfold abs_sys. simpl. rewrite E1, E2. apply rtc_refl.
    + split; [done|]. unfold abs_sys. simpl. rewrite E1, E2. apply rtc_once. by eapply ss_owner.
  - destruct (tstep_sim _ _ _ _ _ Ht Hinv) as [Hinv' [[E1 E2]|(R & a & k & c & r & E1 & E2 & He)]].
    + intros k E. eapply scope_of_done, (cancel_hold_not_done _ k Hsys). simpl. rewrite fmap_app, fmap_cons, E. set_solver.
    + split; [done|]. unfold abs_sys. simpl. rewrite !fmap_app, !fmap_cons, E1, E2. apply rtc_refl.
    + split; [done|]. unfold abs_sys. simpl. rewrite !fmap_app, !fmap_cons, E1, E2. apply rtc_once. by eapply ss_cancel.
  - split; [done|]. apply rtc_once, ss_lost.
  - split; [done|]. unfold abs_sys. simpl. rewrite !fmap_app, fmap_cons. apply rtc_once, ss_gone.
  - split; [done|]. unfold abs_sys. simpl. rewrite fmap_app. apply rtc_once, ss_request.
  - destruct w as [rec f d lost]. cbn in *. split.
    { destruct Hinv as [Hd _ _]. split; cbn in *; [|done|done]. intros E. specialize (Hd E). destruct (carriesBarrier f' scope id); [by rewrite Hc in Hd|done]. }
    unfold abs_sys, abs_world, scope_of. cbn. destruct d; [apply rtc_refl|]. destruct (carriesBarrier f scope id) eqn:E, (carriesBarrier f' scope id); try apply rtc_refl.
    + apply rtc_once. by apply (ss_clear now false (mkWorld rec SHeld lost)).
    + by specialize (Hc eq_refl).
Qed.

Lemma crun_sim now s s' : rtc (cstep now false) s s' -> cinv (csWorld s) -> sys_inv (abs_sys s) ->
  cinv (csWorld s') /\ sys_inv (abs_sys s') /\ rtc (sys_step now false) (abs_sys s) (abs_sys s').
Proof.
  induction 1 as [s|s1 s2 s3 H _ IH]; intros Hinv Hsys; [by split_and!; try apply rtc_refl|]. destruct (cstep_sim _ _ _ H Hinv Hsys) as [Hinv2 Hrun].
  destruct (sys_run_inv _ _ _ Hrun Hsys) as [Hsys2 _]. destruct (IH Hinv2 Hsys2) as (? & ? & ?). split_and!; [done|done|]. by etrans.
Qed.

End System.

(** C7: what the directory holds obeys the cancellation.  It holds for the barrier of any operation
    whose closures meet the interface [Guarded], while the directory keeps to the interface's condition
    [ok]: cutover and the read-only switches on every file, a ramp or migrate step only while no other
    operation's hold is on its placement (without that it fails, [stale_completion_lands]).  The
    owner's writes of the record may find another sequence but do not fail otherwise (without that it
    fails too, [unwritten_intent_commits]).  Then, once a cancellation ended the record and answered
    that the operation is canceled, the operation's commit has not been written to the directory and
    never will be, whatever other operations write within the condition and however the replies of the
    directory's writes are lost. *)
Theorem canceled_change_never_written (o : Operation) G scope ok {HG : Guarded G scope (opID o) ok} now fuel kind prior f s s'
    (Hlive : Terminal o = false) (Hsane : sane o) (Hversion : (0 < fVersion f)%Z) (Hok : ok f) (Hfree : carriesBarrier f scope (opID o) = false)
    (Hrun : rtc (cstep G scope (opID o) ok now false) (mkCSys (mkCWorld o f false false) (Some (owner_run now fuel scope kind prior o, None)) []) s)
    (Hanswer : Ret ACanceledNow ∈ (csCancels s).*1) (Hlater : rtc (cstep G scope (opID o) ok now false) s s') :
  cwDone (csWorld s') = false /\ Terminal (cwRec (csWorld s')) = true.
Proof.
  destruct (crun_sim G scope (opID o) ok now _ _ Hrun) as (Hi & Hs & _); [by split| |].
  { unfold abs_sys, abs_world, scope_of. cbn. rewrite Hfree. by apply start_inv. }
  destruct (crun_sim G scope (opID o) ok now _ _ Hlater Hi Hs) as (_ & _ & Hr).
  destruct (sys_run_inv _ _ _ Hr Hs) as [_ Hoff]. destruct (off_not_done _ (Hoff (canceled_off _ Hs Hanswer))) as [Hd Ht].
  split; [eapply scope_of_done; exact Hd|exact Ht].
Qed.

(** ** Runs *)

(** A store's next version of a file. *)
Definition bump (f : File) : File := set_Lineage (fVersion f + 1) (fSchema f) (fIdentity f) (fGenerations f) f.

(** A schedule: the owner or a cancellation acts on the record under a choice, or on the directory with success;
    a cancellation arrives; another operation writes. *)
Inductive cevent : Type :=
| XRec (who : option nat) (c : choice)
| XDir (who : option nat)
| XRequest
| XOther (w : File -> result dirErr File).

Section Runs.
Context (G : guard) (scope id : string).
#[local] Abbreviation anyfile := (fun _ : File => True).

Definition dir_run {R} (a : act R) (s : option File) (x : File * bool) : option ((R + File) * (File * bool)) :=
  let '(f, d) := x in
  match a in act R return option ((R + File) * (File * bool)) with
  | AHold =>
      match s with
      | None => match g_hold G f with HSeen v => Some (inl (Ok (v, Generation f scope)), x) | HWrite _ => Some (inr f, x) | HRefused => Some (inl (Err ()), x) end
      | Some f1 => match g_hold G f1 with
                   | HWrite w => match w f with Ok f0 => if (0 <? fVersion (bump f0))%Z then Some (inl (Ok (fVersion (bump f0), 0%Z)), (bump f0, d)) else None | Err _ => Some (inl (Err ()), x) end
                   | _ => None
                   end
      end
  | ACommit =>
      match s with
      | None => match g_commit G f with KAlready v => Some (inl (Ok (v, true)), x) | KGone => Some (inl (Err CGone), x) | KRefused why => Some (inl (Err (CFailed why)), x) | KWrite _ => Some (inr f, x) end
      | Some f1 => match g_commit G f1 with
                   | KWrite w => match w f with Ok f0 => if (0 <? fVersion (bump f0))%Z then Some (inl (Ok (fVersion (bump f0), false)), (bump f0, true)) else None | Err _ => Some (inl (Err (CFailed "")), x) end
                   | _ => None
                   end
      end
  | ACarries => Some (inl (Ok (carriesBarrier f scope id)), x)
  | ARelease => match g_release G f with Ok f0 => if (0 <? fVersion (bump f0))%Z then Some (inl ROk, (bump f0, d)) else None | Err _ => Some (inl RConflict, x) end
  | _ => None
  end.

Lemma dir_run_dstep R (a : act R) s x y x' : dir_run a s x = Some (y, x') -> dstep G scope id anyfile R a s x y x'.
Proof.
  destruct x as [f d]. destruct a; simpl; try done.
  - destruct s as [f1|].
    + destruct (g_hold G f1) as [| |w] eqn:Eg; [done..|]. destruct (w f) as [f0|] eqn:Ew; [|intros [= <- <-]; constructor].
      destruct (Z.ltb_spec 0 (fVersion f0 + 1)); [|done]. intros [= <- <-]. by eapply d_hold_write.
    + destruct (g_hold G f) eqn:Eg; intros [= <- <-]; by econstructor.
  - destruct s as [f1|].
    + destruct (g_commit G f1) as [| | |w] eqn:Eg; [done..|]. destruct (w f) as [f0|] eqn:Ew; [|intros [= <- <-]; constructor].
      destruct (Z.ltb_spec 0 (fVersion f0 + 1)); [|done]. intros [= <- <-]. by eapply d_commit_write.
    + destruct (g_commit G f) eqn:Eg; intros [= <- <-]; by econstructor.
  - intros [= <- <-]. constructor.
  - destruct (g_release G f) as [f0|e] eqn:Eg; [|intros [= <- <-]; by eapply d_release_refused].
    destruct (Z.ltb_spec 0 (fVersion f0 + 1)); [|done]. intros [= <- <-]. by eapply d_release_write.
Qed.

Definition trun {A} (flaky : bool) (c : option choice) (t : cthread A) (w : cworld) : option (cthread A * cworld) :=
  match t with
  | (Do a k, s) =>
      match c with
      | Some c => if on_directory a then None
                  else match exec flaky c a (abs_world scope id w) with
                       | Some (r, w') => Some ((k r, None), mkCWorld (wRec w') (cwFile w) (cwDone w) (wLost w'))
                       | None => None
                       end
      | None => match dir_run a s (cwFile w, cwDone w) with
                | Some (inl r, (f', d')) => Some ((k r, None), mkCWorld (cwRec w) f' d' (cwLost w))
                | Some (inr f, (f', d')) => Some ((Do a k, Some f), mkCWorld (cwRec w) f' d' (cwLost w))
                | None => None
                end
      end
  | _ => None
  end.

Lemma trun_tstep {A} flaky c (t t' : cthread A) w w' : trun flaky c t w = Some (t', w') -> tstep G scope id anyfile flaky t w t' w'.
Proof.
  destruct t as [[a|R a k] s]; cbn [trun]; [done|]. destruct c as [c|].
  - destruct (on_directory a) eqn:Ed; [done|]. destruct (exec flaky c a _) as [[r w1]|] eqn:Ee; [|done]. intros [= <- <-]. by eapply t_rec.
  - destruct (dir_run a s (cwFile w, cwDone w)) as [[[r|f] [f' d']]|] eqn:Er; [| |done]; intros [= <- <-]; apply dir_run_dstep in Er.
    + by apply (t_dir _ _ _ _ flaky R a k s w (inl r)).
    + by apply (t_dir _ _ _ _ flaky R a k s w (inr f)).
Qed.

Definition crun_act (flaky : bool) (who : option nat) (c : option choice) (s : csys) : option csys :=
  match who with
  | None => match csOwner s with Some t => '(t', w') ← trun flaky c t (csWorld s); Some (mkCSys w' (Some t') (csCancels s)) | None => None end
  | Some i => match csCancels s !! i with
              | Some t => '(t', w') ← trun true c t (csWorld s); Some (mkCSys w' (csOwner s) (take i (csCancels s) ++ t' :: drop (S i) (csCancels s)))
              | None => None
              end
  end.

Definition crun_event (now : Z) (flaky : bool) (e : cevent) (s : csys) : option csys :=
  match e with
  | XRec who c => crun_act flaky who (Some c) s
  | XDir who => crun_act flaky who None s
  | XRequest => Some (mkCSys (csWorld s) (csOwner s) (csCancels s ++ [(cancelOperation now, None)]))
  | XOther w =>
      match w (cwFile (csWorld s)) with
      | Ok f0 =>
          let f' := bump f0 in
          if negb (carriesBarrier f' scope id) && (0 <? fVersion f')%Z
          then Some (mkCSys (mkCWorld (cwRec (csWorld s)) f' (cwDone (csWorld s)) (cwLost (csWorld s))) (csOwner s) (csCancels s)) else None
      | Err _ => None
      end
  end.

Fixpoint crun_events (now : Z) (flaky : bool) (es : list cevent) (s : csys) : option csys :=
  match es with [] => Some s | e :: es => s' ← crun_event now flaky e s; crun_events now flaky es s' end.

Lemma crun_act_step now flaky who c s s' : crun_act flaky who c s = Some s' -> cstep G scope id anyfile now flaky s s'.
Proof.
  destruct s as [w o cs], who as [i|]; simpl.
  - destruct (cs !! i) as [t|] eqn:Ei; [|done]. destruct (trun true c t w) as [[t' w']|] eqn:Et; [|done]. intros [= <-].
    rewrite <- (take_drop_middle cs i t Ei) at 1. apply cs_cancel. by eapply trun_tstep.
  - destruct o as [t|]; [|done]. destruct (trun flaky c t w) as [[t' w']|] eqn:Et; [|done]. intros [= <-]. apply cs_owner. by eapply trun_tstep.
Qed.

Lemma crun_events_steps now flaky es s s' : crun_events now flaky es s = Some s' -> rtc (cstep G scope id anyfile now flaky) s s'.
Proof.
  revert s. induction es as [|e es IH]; intros s; simpl; [intros [= <-]; apply rtc_refl|].
  destruct (crun_event now flaky e s) as [s1|] eqn:E; [|done]. simpl. intros H. eapply rtc_l; [|by apply IH]. destruct e as [who c|who| |w]; cbn [crun_event] in E.
  - by eapply crun_act_step.
  - by eapply crun_act_step.
  - injection E as <-. destruct s. apply cs_request.
  - destruct (w _) as [f0|]; [|done]. destruct (carriesBarrier (bump f0) scope id) eqn:Ec; [done|]. cbn [negb andb] in E.
    destruct (Z.ltb_spec 0 (fVersion (bump f0))); [|done]. injection E as <-. destruct s. by apply cs_other; [congruence| |].
Qed.

(** What is seen of a state: whether the commit was written, the record's status, the answers, and the placement's state,
    ramp and barrier. *)
Definition cseen (key : string) (s : csys) : bool * string * list (option answer) * option (string * option Ramp * option Config.Barrier) :=
  (cwDone (csWorld s), opStatus (cwRec (csWorld s)), (fun t => match t.1 with Ret a => Some a | Do _ _ => None end) <$> csCancels s,
   (fun p => (pState p, pRamp p, pBarrier p)) <$> lookup_placement (cwFile (csWorld s)) key).

Lemma cseen_answer key s a d st answers x : cseen key s = (d, st, answers, x) -> Some a ∈ answers -> Ret a ∈ (csCancels s).*1.
Proof.
  intros [= _ _ <- _] (t & Ht & Hin)%list_elem_of_fmap. destruct t as [[b|] sn]; [|done]. simpl in Ht. simplify_eq. apply list_elem_of_fmap. by exists (Ret b, sn).
Qed.

End Runs.

(** The owner's accesses up to the drain: its record, the hold's read and write, whether it is carried. *)
Definition to_drain : list cevent :=
  replicate 7 (XRec None CPlain) ++ [XDir None; XDir None] ++ replicate 2 (XRec None CPlain) ++ [XDir None].

(** A cancellation that ends the record, [gone] its belief about the owner, and releases the hold. *)
Definition cancel_events (gone : bool) : list cevent :=
  [XRequest; XRec (Some 0) CPlain; XRec (Some 0) (CBool gone); XRec (Some 0) CPlain; XRec (Some 0) CPlain; XRec (Some 0) (CBool false); XDir (Some 0); XDir (Some 0)].

Definition example_switch : Operation := op_Kind OpPlacementReadOnly example_ramp.
Definition switch_guard : guard := readonly_guard OpPlacementReadOnly (PlacementResource "t/logs") "op1" false None (SetPlacementReadOnly "t" "logs").
Definition switch_start : csys :=
  mkCSys (mkCWorld example_switch example_file false false) (Some (owner_run 7 3 (PlacementResource "t/logs") BarrierMutations None example_switch, None)) [].

Lemma run_seen G scope id key es s0 x : cseen key <$> crun_events G scope id 7 false es s0 = Some x ->
  exists s, rtc (cstep G scope id (fun _ => True) 7 false) s0 s /\ cseen key s = x.
Proof. destruct (crun_events G scope id 7 false es s0) as [s|] eqn:E; [|done]. intros [= <-]. exists s. split; [by eapply crun_events_steps|done]. Qed.

Lemma canceled_change_never_written_witness : exists s, rtc (cstep switch_guard (PlacementResource "t/logs") "op1" (fun _ => True) 7 false) switch_start s /\
  Ret ACanceledNow ∈ (csCancels s).*1 /\ cwDone (csWorld s) = false /\ Terminal (cwRec (csWorld s)) = true.
Proof.
  destruct (run_seen switch_guard (PlacementResource "t/logs") "op1" "t/logs" (to_drain ++ cancel_events false) switch_start
    (false, StatusCancelled, [Some ACanceledNow], Some (StateActive, None, None))) as (s & Hrun & Hseen); [vm_compute; reflexivity|].
  assert (Ret ACanceledNow ∈ (csCancels s).*1) as Hin by (eapply cseen_answer; [exact Hseen|left]).
  exists s. split; [exact Hrun|]. split; [exact Hin|].
  apply (canceled_change_never_written example_switch switch_guard (PlacementResource "t/logs") (fun _ => True) (HG := placement_readonly_guarded "t/logs" "t" "logs" "op1" eq_refl ltac:(discriminate) OpPlacementReadOnly false None ltac:(left))
    7 3 BarrierMutations None example_file s s); [reflexivity|intros st [=]|reflexivity|exact I|reflexivity|exact Hrun|exact Hin|apply rtc_refl].
Defined.

(** ** A completion that names no barrier *)

(** Two ramps of [t/logs] to cluster [b], of a quarter and of half its keys. *)
Definition ramp_to (ratio : f64) : Transition := mkTransition StateRamping "b" "logs-b" ratio [] None false false false "" None "" "" f0.
Definition quarter_guard : guard := step_guard (fun _ => "0000") OpRamp "t/logs" "op1" (ramp_to (Fin (f_unit / 4))) false.
Definition half_guard : guard := step_guard (fun _ => "0000") OpRamp "t/logs" "op2" (ramp_to (Fin (f_unit / 2))) false.
Definition half_hold (f : File) : result dirErr File := match g_hold half_guard f with HWrite w => w f | _ => Err ErrConflict end.

Definition ramp_start : csys :=
  mkCSys (mkCWorld example_ramp example_file false false) (Some (owner_run 7 3 (PlacementResource "t/logs") BarrierMutations None example_ramp, None)) [].

(** The owner of the first reads the directory to complete its step; it is believed gone, and canceled; the second
    operation holds its own step; the first's completion is written. *)
Definition stale_completion : list cevent :=
  to_drain ++ [XRec None CPlain; XRec None CPlain; XRec None CPlain; XRec None (CBlockers (Ok [])); XRec None CPlain; XRec None CPlain; XRec None CPlain; XDir None] ++
  cancel_events true ++ [XOther half_hold; XDir None].

(** Without that condition the promise fails: there is a run in which a ramp step was answered canceled,
    its completion is written all the same, and the placement ends at the canceled step's ratio with no
    barrier.  In the run the proof takes, [stale_completion], the owner stalls between its last look at
    the directory and its write, and completes its step on the hold of the next operation. *)
Theorem stale_completion_lands : exists s, rtc (cstep quarter_guard (PlacementResource "t/logs") "op1" (fun _ => True) 7 false) ramp_start s /\
  Ret ACanceledNow ∈ (csCancels s).*1 /\ cwDone (csWorld s) = true /\
  exists p, lookup_placement (cwFile (csWorld s)) "t/logs" = Some p /\ pBarrier p = None /\ pRamp p = Some (mkRamp RampHash (Fin (f_unit / 4)) [] None None).
Proof.
  destruct (run_seen quarter_guard (PlacementResource "t/logs") "op1" "t/logs" stale_completion ramp_start
    (true, StatusCancelled, [Some ACanceledNow], Some (StateRamping, Some (mkRamp RampHash (Fin (f_unit / 4)) [] None None), None))) as (s & Hrun & Hseen); [vm_compute; reflexivity|].
  exists s. split; [exact Hrun|]. split; [eapply cseen_answer; [exact Hseen|left]|]. injection Hseen as Hd _ _ Hp. split; [exact Hd|].
  destruct (lookup_placement (cwFile (csWorld s)) "t/logs") as [p|]; [|done]. injection Hp as _ Hr Hb. by exists p.
Qed.
