(* ===== verification/Fleet.v ===== *)
(** * The fleet table (internal/cp/fleet.go, internal/control/fleet.go)

    The control plane keeps, for each proxy, a persistent member record with its current process
    (incarnation) and the ones that ended without retiring, and its last heartbeat on a lease.  A
    barrier waits on what this table lists, so the table must not lose a process whose work may still
    land.  Each operation reads a record, changes it, and writes it by comparing its revision, so it acts
    on the record as it is at its write; what it read besides (the lease, the forgotten incarnations) may
    be stale by then and is an argument of the operation. *)

From S2P Require Import Prelude Float64 KeyHash HashRange Config Placement Transition S3Op S3Names Route Backend Scopes Directory Admission Validate Keeper OpRecord Drain.

(** ** Data *)

Definition MaxUnresolvedIncarnations : nat := 8.
Definition maxResolvedKept : nat := 4.

Record memberRecord : Type := mkRecord {
  mrJoined : Z;
  mrCurrent : option Incarnation;
  mrUnresolved : list Incarnation;
  mrResolved : list Incarnation;
  mrRetireRequested : bool;
}.

Definition zeroRecord : memberRecord := mkRecord 0 None [] [] false.

(** The fields of a heartbeat the fleet table and the barriers read. *)
Record Heartbeat : Type := mkHeartbeat {
  hbIncarnation : string;
  hbStarted : Z;
  hbPrevious : list Incarnation;
  hbIdentity : Identity;
  hbApplied : Z;
  hbDurable : Z;
  hbInstalled : Z;
  hbBarriers : list Ack;
}.

Record Grant : Type := mkGrant { grRetire : bool; grPreviousRecorded : bool }.

Inductive fleetErr : Type := RetirementError | FleetRefused | FleetNotFound.

Definition set_current (c : option Incarnation) (r : memberRecord) : memberRecord := mkRecord (mrJoined r) c (mrUnresolved r) (mrResolved r) (mrRetireRequested r).
Definition set_unresolved (l : list Incarnation) (r : memberRecord) : memberRecord := mkRecord (mrJoined r) (mrCurrent r) l (mrResolved r) (mrRetireRequested r).
Definition set_resolved (l : list Incarnation) (r : memberRecord) : memberRecord := mkRecord (mrJoined r) (mrCurrent r) (mrUnresolved r) l (mrRetireRequested r).
Definition set_retire (b : bool) (r : memberRecord) : memberRecord := mkRecord (mrJoined r) (mrCurrent r) (mrUnresolved r) (mrResolved r) b.
Definition set_joined (t : Z) (r : memberRecord) : memberRecord := mkRecord t (mrCurrent r) (mrUnresolved r) (mrResolved r) (mrRetireRequested r).

Definition inc_end (state : string) (ended : Z) (i : Incarnation) : Incarnation :=
  mkInc (inID i) (inStarted i) ended state (inUncertain i) (inAttestation i) (inResolvedBy i) (inResolvedAt i).
Definition inc_uncertain (u : Z) (i : Incarnation) : Incarnation :=
  mkInc (inID i) (inStarted i) (inEnded i) (inState i) u (inAttestation i) (inResolvedBy i) (inResolvedAt i).

Definition is_inc (id : string) (i : Incarnation) : bool := bool_decide (inID i = id).
Definition active (i : Incarnation) : bool := bool_decide (inState i = IncarnationActive).

(** [memberRecord.knows] *)
Definition knows_inc (r : memberRecord) (id : string) : bool :=
  match mrCurrent r with Some c => is_inc id c | None => false end || existsb (is_inc id) (mrUnresolved r) || existsb (is_inc id) (mrResolved r).

(** [memberRecord.addUnresolved]: evidence is refused at the bound, never dropped. *)
Definition addUnresolved (i : Incarnation) (r : memberRecord) : result fleetErr memberRecord :=
  if (MaxUnresolvedIncarnations <=? length (mrUnresolved r))%nat then Err RetirementError else Ok (set_unresolved (mrUnresolved r ++ [i]) r).

(** [memberRecord.endedIncarnations] *)
Definition endedIncarnations (r : memberRecord) : list string :=
  match mrCurrent r with Some c => if active c then [] else [inID c] | None => [] end ++ List.map inID (mrResolved r).

(** ** The changes of a record *)

(** A previous process's own marker: a clean end, with nothing uncertain. *)
Definition clean_end (p : Incarnation) : bool := bool_decide (inState p = IncarnationRetired) && (inUncertain p =? 0)%Z.

Definition previous_retired (inc : string) (now : Z) (r : memberRecord) (p : Incarnation) : memberRecord :=
  if is_inc inc p then r
  else
    let ended := if (inEnded p =? 0)%Z then now else inEnded p in
    let late := if clean_end p then set_unresolved (List.filter (fun i => negb (is_inc (inID p) i)) (mrUnresolved r)) r else r in
    match mrCurrent r with
    | Some cur =>
        if is_inc (inID p) cur && active cur then
          set_current (Some (if clean_end p then inc_end IncarnationRetired ended cur else inc_uncertain (Z.max (inUncertain cur) (inUncertain p)) cur)) r
        else late
    | None => late
    end.

(** The process before this one is not current any more: unresolved, unless it retired. *)
Definition replace_current (inc : string) (now : Z) (r : memberRecord) : result fleetErr memberRecord :=
  match mrCurrent r with
  | Some cur =>
      if is_inc inc cur then Ok r
      else if active cur then r' ← addUnresolved (inc_end IncarnationUnclean now cur) r; Ok (set_current None r')
      else Ok (set_current None r)
  | None => Ok r
  end.

Definition register (hb : Heartbeat) (r : memberRecord) : memberRecord :=
  match mrCurrent r with
  | Some _ => r
  | None => r |> set_current (Some (mkInc (hbIncarnation hb) (hbStarted hb) 0 IncarnationActive 0 "" "" 0)) |> set_retire false
  end.

(** Evidence only the proxy held: a process that ended while the control plane was unreachable. *)
Definition dirty_end (p : Incarnation) : bool := bool_decide (inState p = IncarnationUnclean) || (0 <? inUncertain p)%Z.

Fixpoint record_previous (forgotten : list string) (now : Z) (prev : list Incarnation) (r : memberRecord) : result fleetErr memberRecord :=
  match prev with
  | [] => Ok r
  | p :: prev =>
      if knows_inc r (inID p) || bool_decide (inID p ∈ forgotten) then record_previous forgotten now prev r
      else if dirty_end p then
        r' ← addUnresolved (mkInc (inID p) (inStarted p) (if (inEnded p =? 0)%Z then now else inEnded p) IncarnationUnclean (inUncertain p) "" "" 0) r;
        record_previous forgotten now prev r'
      else record_previous forgotten now prev r
  end.

(** The change a heartbeat makes. *)
Definition heartbeat_change (forgotten : list string) (now : Z) (hb : Heartbeat) (r : memberRecord) : result fleetErr (memberRecord * Grant) :=
  let r := if (mrJoined r =? 0)%Z then set_joined now r else r in
  let r := foldl (previous_retired (hbIncarnation hb) now) r (hbPrevious hb) in
  r ← replace_current (hbIncarnation hb) now r;
  r ← record_previous forgotten now (hbPrevious hb) (register hb r);
  Ok (r, mkGrant (mrRetireRequested r) (negb (bool_decide (hbPrevious hb = [])))).

(** The first element that matches, deleted or changed. *)
Fixpoint delete_first {A} (f : A -> bool) (l : list A) : list A :=
  match l with [] => [] | x :: l => if f x then l else x :: delete_first f l end.
Fixpoint update_first {A} (f : A -> bool) (g : A -> A) (l : list A) : list A :=
  match l with [] => [] | x :: l => if f x then g x :: l else x :: update_first f g l end.

(** [Retire]: the process says how it ended; late, after a newer one replaced it, it may discharge itself. *)
Definition retire_change (now : Z) (inc : string) (uncertain : Z) (r : memberRecord) : result fleetErr memberRecord :=
  let late :=
    if existsb (is_inc inc) (mrUnresolved r) then
      Ok (if (uncertain =? 0)%Z then set_unresolved (delete_first (is_inc inc) (mrUnresolved r)) r
          else set_unresolved (update_first (is_inc inc) (fun i => inc_uncertain uncertain (inc_end (inState i) now i)) (mrUnresolved r)) r)
    else if knows_inc r inc then Ok r
    else Err FleetRefused in
  match mrCurrent r with
  | Some cur =>
      if is_inc inc cur then
        if bool_decide (inState cur = IncarnationRetired) then Ok r
        else if (0 <? uncertain)%Z then
          r' ← addUnresolved (inc_uncertain uncertain (inc_end IncarnationUnclean now cur)) r; Ok (r' |> set_current None |> set_retire false)
        else Ok (r |> set_current (Some (inc_uncertain uncertain (inc_end IncarnationRetired now cur))) |> set_retire false)
      else late
  | None => late
  end.

Definition request_retire_change (r : memberRecord) : result fleetErr memberRecord :=
  match mrCurrent r with Some cur => if active cur then Ok (set_retire true r) else Err FleetRefused | None => Err FleetRefused end.

(** The last few resolved, with their attestation. *)
Definition keep_resolved (l : list Incarnation) : list Incarnation :=
  if (maxResolvedKept <? length l)%nat then drop (length l - maxResolvedKept) l else l.

Definition resolved (attestation actor : string) (now : Z) (i : Incarnation) (r : memberRecord) : memberRecord :=
  set_resolved (keep_resolved (mrResolved r ++ [mkInc (inID i) (inStarted i) (inEnded i) IncarnationResolved (inUncertain i) attestation actor now])) r.

(** [Resolve]; [live] is whether it saw the proxy's lease. *)
Definition resolve_change (live : bool) (now : Z) (inc attestation actor : string) (r : memberRecord) : result fleetErr memberRecord :=
  match List.find (is_inc inc) (mrUnresolved r) with
  | Some i => Ok (resolved attestation actor now i (set_unresolved (delete_first (is_inc inc) (mrUnresolved r)) r))
  | None =>
      match mrCurrent r with
      | Some cur =>
          if is_inc inc cur && active cur then
            if live then Err FleetRefused else Ok (resolved attestation actor now (inc_end (inState cur) now cur) (set_current None r))
          else if knows_inc r inc then Err FleetRefused else Err FleetNotFound
      | None => if knows_inc r inc then Err FleetRefused else Err FleetNotFound
      end
  end.

(** ** The table *)

Record fleet : Type := mkFleet {
  flMembers : gmap string memberRecord;
  flProxies : gmap string Heartbeat;
  flForgotten : gmap string (list string);
}.

Definition put_member (id : string) (r : memberRecord) (fl : fleet) : fleet := mkFleet (<[id := r]> (flMembers fl)) (flProxies fl) (flForgotten fl).
Definition put_heartbeat (id : string) (hb : Heartbeat) (fl : fleet) : fleet := mkFleet (flMembers fl) (<[id := hb]> (flProxies fl)) (flForgotten fl).
Definition drop_heartbeat (id : string) (fl : fleet) : fleet := mkFleet (flMembers fl) (delete id (flProxies fl)) (flForgotten fl).

(** [change]: the record as it is, and a missing one made when [create]. *)
Definition change {A} (id : string) (create : bool) (fn : memberRecord -> result fleetErr (memberRecord * A)) (fl : fleet) : result fleetErr (fleet * A) :=
  match flMembers fl !! id with
  | Some r => '(r', a) ← fn r; Ok (put_member id r' fl, a)
  | None => if create then '(r', a) ← fn zeroRecord; Ok (put_member id r' fl, a) else Err FleetNotFound
  end.
Definition change_ (id : string) (fn : memberRecord -> result fleetErr memberRecord) (fl : fleet) : result fleetErr fleet :=
  '(fl', _) ← change id false (fun r => r' ← fn r; Ok (r', ())) fl; Ok fl'.

(** What a node last read of a record, and the previous processes a heartbeat carried then. *)
Record cached : Type := mkCached { caRec : memberRecord; caPrevIDs : string }.

Definition previousIDs (prev : list Incarnation) : string := String.concat "," (List.map inID prev).

(** The heartbeat that changes nothing, and finds the record as this node last read it. *)
Definition unchanged (c : option cached) (id : string) (hb : Heartbeat) (fl : fleet) : Prop :=
  exists ca cur, c = Some ca /\ mrCurrent (caRec ca) = Some cur /\ inID cur = hbIncarnation hb /\ active cur = true /\
    (hbPrevious hb = [] \/ caPrevIDs ca = previousIDs (hbPrevious hb)) /\ flMembers fl !! id = Some (caRec ca).

(** [Fleet.Heartbeat]: one transaction when nothing changes, or a change of the record with it. *)
Definition heartbeat_fast (ca : cached) (id : string) (hb : Heartbeat) (fl : fleet) : fleet * Grant :=
  (put_heartbeat id hb fl, mkGrant (mrRetireRequested (caRec ca)) (negb (bool_decide (hbPrevious hb = [])))).
Definition heartbeat_slow (forgotten : list string) (now : Z) (id : string) (hb : Heartbeat) (fl : fleet) : result fleetErr (fleet * Grant) :=
  '(fl', g) ← change id true (heartbeat_change forgotten now hb) fl; Ok (put_heartbeat id hb fl', g).

(** [Fleet.Retire]: the change; the lease key of the retired process is deleted by a second write that may be lost, as a lease that ends ([drop_heartbeat]). *)
Definition Retire (now : Z) (id inc : string) (uncertain : Z) : fleet -> result fleetErr fleet := change_ id (retire_change now inc uncertain).
Definition RequestRetire (id : string) : fleet -> result fleetErr fleet := change_ id request_retire_change.
Definition Resolve (live : bool) (now : Z) (id inc attestation actor : string) : fleet -> result fleetErr fleet := change_ id (resolve_change live now inc attestation actor).

(** [Fleet.Forget]: only a member without a lease and with every process proven ended. *)
Definition Forget (id : string) (fl : fleet) : result fleetErr fleet :=
  match flMembers fl !! id with
  | None => Err FleetNotFound
  | Some r =>
      if bool_decide (is_Some (flProxies fl !! id)) then Err FleetRefused
      else if match mrCurrent r with Some cur => active cur | None => false end || negb (bool_decide (mrUnresolved r = [])) then Err RetirementError
      else Ok (mkFleet (delete id (flMembers fl)) (flProxies fl) (<[id := endedIncarnations r]> (flForgotten fl)))
  end.

(** [Fleet.Members] *)
Definition member_of (id : string) (r : option memberRecord) (hb : option Heartbeat) : Member :=
  mkMember id (bool_decide (is_Some hb)) (r ≫= mrCurrent) (from_option mrUnresolved [] r)
    (from_option hbBarriers [] hb) (from_option hbIdentity zeroIdentity hb) (from_option hbApplied 0%Z hb) (from_option hbDurable 0%Z hb) (from_option hbInstalled 0%Z hb).
Definition Members (fl : fleet) : list Member :=
  (fun id => member_of id (flMembers fl !! id) (flProxies fl !! id)) <$> elements (dom (flMembers fl) ∪ dom (flProxies fl)).

(** ** What a record tracks *)

(** The record still counts process [i] as one whose work may land. *)
Definition tracked (r : memberRecord) (i : string) : Prop :=
  (exists cur, mrCurrent r = Some cur /\ inID cur = i /\ active cur = true) \/ (exists u, u ∈ mrUnresolved r /\ inID u = i).

Definition bounded (r : memberRecord) : Prop := (length (mrUnresolved r) <= MaxUnresolvedIncarnations)%nat /\ (length (mrResolved r) <= maxResolvedKept)%nat.

Lemma is_inc_iff id i : is_inc id i = true <-> inID i = id.
Proof. unfold is_inc. by rewrite bool_decide_eq_true. Qed.
Lemma is_inc_false id i : is_inc id i = false <-> inID i <> id.
Proof. unfold is_inc. by rewrite bool_decide_eq_false. Qed.

Ltac case_inc := match goal with
  | |- context [is_inc ?a ?b] => let E := fresh "Eid" in destruct (is_inc a b) eqn:E; [apply is_inc_iff in E|apply is_inc_false in E]
  | H : context [is_inc ?a ?b] |- _ => let E := fresh "Eid" in destruct (is_inc a b) eqn:E; [apply is_inc_iff in E|apply is_inc_false in E]
  end.

Lemma addUnresolved_Ok i r r' : addUnresolved i r = Ok r' -> r' = set_unresolved (mrUnresolved r ++ [i]) r /\ (bounded r -> bounded r').
Proof.
  unfold addUnresolved. destruct (Nat.leb_spec MaxUnresolvedIncarnations (length (mrUnresolved r))); intros [= <-]. split; [done|].
  intros [? ?]. split; simpl; [rewrite length_app; simpl; lia|done].
Qed.

Lemma tracked_added i r j : tracked r j -> tracked (set_unresolved (mrUnresolved r ++ [i]) r) j.
Proof. intros [H|(u & Hu & Hj)]; [by left|right]. exists u. simpl. set_solver. Qed.
Lemma tracked_new i r : tracked (set_unresolved (mrUnresolved r ++ [i]) r) (inID i).
Proof. right. exists i. simpl. set_solver. Qed.

Lemma unclean_not_active now c : active (inc_end IncarnationUnclean now c) = false.
Proof. reflexivity. Qed.

(** A list shorter than another is bounded with it. *)
Lemma bounded_shrink l r : bounded r -> (length l <= length (mrUnresolved r))%nat -> bounded (set_unresolved l r).
Proof. intros [? ?] ?. split; simpl; [lia|done]. Qed.
Lemma length_filter_le {A} (f : A -> bool) l : (length (List.filter f l) <= length l)%nat.
Proof. induction l as [|x l IH]; simpl; [done|]. destruct (f x); simpl; lia. Qed.
Lemma bounded_current c r : bounded r -> bounded (set_current c r).
Proof. done. Qed.

(** *** Heartbeats *)

(** What a heartbeat reports of a process before its own: ended with nothing uncertain, or not. *)
Definition says_clean (hb : Heartbeat) (i : string) : Prop := exists p, p ∈ hbPrevious hb /\ inID p = i /\ i <> hbIncarnation hb /\ clean_end p = true.
Definition says_dirty (hb : Heartbeat) (i : string) : Prop := exists p, p ∈ hbPrevious hb /\ inID p = i /\ i <> hbIncarnation hb /\ dirty_end p = true.

(** The current process has said that it ended. *)
Definition said_ended (r : memberRecord) (i : string) : Prop := exists cur, mrCurrent r = Some cur /\ inID cur = i /\ active cur = false.

Lemma previous_tracked inc now r p i : tracked r i -> ~ (inID p = i /\ i <> inc /\ clean_end p = true) -> tracked (previous_retired inc now r p) i.
Proof.
  intros Ht Hno. unfold previous_retired. case_inc; [done|].
  assert (tracked (if clean_end p then set_unresolved (List.filter (fun i => negb (is_inc (inID p) i)) (mrUnresolved r)) r else r) i) as Hlate.
  { destruct (clean_end p) eqn:Ec; [|done]. destruct Ht as [Ht|(u & Hu & Hi)]; [by left|right]. exists u. split; [|done]. simpl.
    apply list_elem_of_In, filter_In. split; [by apply list_elem_of_In|]. case_inc; [|done]. exfalso. apply Hno. split_and!; congruence. }
  destruct (mrCurrent r) as [cur|] eqn:Ecur; [|done]. case_inc; [|done]. destruct (active cur) eqn:Ea; [|done]. simpl.
  destruct Ht as [(c & Hc & Hi & Hact)|Hu]; [left|by right]. simplify_eq. exists (if clean_end p then inc_end IncarnationRetired (if (inEnded p =? 0)%Z then now else inEnded p) c else inc_uncertain (Z.max (inUncertain c) (inUncertain p)) c).
  destruct (clean_end p) eqn:Ec; [|done]. exfalso. apply Hno. split_and!; congruence.
Qed.

Lemma previous_bounded inc now r p : bounded r -> bounded (previous_retired inc now r p).
Proof.
  intros Hb. unfold previous_retired. case_inc; [done|].
  assert (bounded (if clean_end p then set_unresolved (List.filter (fun i => negb (is_inc (inID p) i)) (mrUnresolved r)) r else r)) as Hlate.
  { destruct (clean_end p); [|done]. apply bounded_shrink; [done|apply length_filter_le]. }
  destruct (mrCurrent r) as [cur|]; [|done]. by destruct (_ && _).
Qed.

(** A report about others leaves the reporter's own entry, and every attestation, alone. *)
Lemma previous_keeps inc now r p cur : mrCurrent r = Some cur -> inID cur = inc -> mrCurrent (previous_retired inc now r p) = Some cur.
Proof.
  intros Hc Hi. unfold previous_retired. rewrite Hc. case_inc; [done|]. case_inc; [congruence|]. simpl. by destruct (clean_end p).
Qed.
Lemma previous_resolved inc now r p : mrResolved (previous_retired inc now r p) = mrResolved r.
Proof.
  unfold previous_retired. destruct (is_inc inc p); [done|]. destruct (mrCurrent r) as [c|]; [destruct (_ && _)|]; destruct (clean_end p); done.
Qed.
Lemma previous_id inc now r p : inID <$> mrCurrent (previous_retired inc now r p) = inID <$> mrCurrent r.
Proof.
  unfold previous_retired. destruct (is_inc inc p); [done|]. destruct (mrCurrent r) as [c|] eqn:E; [destruct (_ && _)|]; destruct (clean_end p); simpl; by rewrite ?E.
Qed.

Lemma previous_all inc now prev r : bounded r ->
  let r' := foldl (previous_retired inc now) r prev in
  bounded r' /\ mrResolved r' = mrResolved r /\ inID <$> mrCurrent r' = inID <$> mrCurrent r /\
  (forall cur, mrCurrent r = Some cur -> inID cur = inc -> mrCurrent r' = Some cur) /\
  (forall i, tracked r i -> ~ (exists p, p ∈ prev /\ inID p = i /\ i <> inc /\ clean_end p = true) -> tracked r' i).
Proof.
  revert r. induction prev as [|p prev IH]; intros r Hb; simpl; [done|].
  destruct (IH (previous_retired inc now r p) (previous_bounded _ _ _ _ Hb)) as (Hb' & Hr & Hid & Hkeep & Ht).
  split_and!; [done|by rewrite Hr, previous_resolved|by rewrite Hid, previous_id| |].
  - intros cur Hc Hi. by apply Hkeep; [apply previous_keeps|].
  - intros i Hi Hno. apply Ht; [apply previous_tracked; [done|]|]; intros H; apply Hno; [exists p; set_solver|destruct H as (q & ? & ?); exists q; set_solver].
Qed.

Lemma replace_current_Ok inc now r r' : replace_current inc now r = Ok r' -> bounded r ->
  bounded r' /\ mrResolved r' = mrResolved r /\ (forall cur, mrCurrent r' = Some cur -> mrCurrent r = Some cur /\ inID cur = inc) /\
  (forall cur, mrCurrent r = Some cur -> inID cur = inc -> r' = r) /\ (forall i, tracked r i -> tracked r' i).
Proof.
  unfold replace_current. intros H Hb. destruct (mrCurrent r) as [c|] eqn:Ec.
  2: { simplify_eq. split_and!; try done. intros cur. by rewrite Ec. }
  case_inc.
  { simplify_eq. split_and!; try done. intros cur. rewrite Ec. intros [= <-]. done. }
  destruct (active c) eqn:Ea.
  - destruct (addUnresolved (inc_end IncarnationUnclean now c) r) as [r1|] eqn:Eadd; simpl in H; simplify_eq.
    apply addUnresolved_Ok in Eadd as [-> Hb1]. split_and!; [by apply bounded_current, Hb1|done|done|congruence|].
    intros i [(cur & Hc & Hi & _)|(u & Hu & Hi)]; right.
    + rewrite Ec in Hc. simplify_eq. exists (inc_end IncarnationUnclean now cur). simpl. set_solver.
    + exists u. simpl. set_solver.
  - simplify_eq. split_and!; [done|done|done|congruence|]. intros i [(cur & Hc & _ & Ha)|Hu]; [congruence|by right].
Qed.

Lemma register_spec hb r : (forall cur, mrCurrent r = Some cur -> inID cur = hbIncarnation hb) ->
  mrUnresolved (register hb r) = mrUnresolved r /\ mrResolved (register hb r) = mrResolved r /\
  (exists cur, mrCurrent (register hb r) = Some cur /\ inID cur = hbIncarnation hb) /\
  (forall cur, mrCurrent r = Some cur -> register hb r = r) /\ (mrCurrent r = None -> tracked (register hb r) (hbIncarnation hb)) /\
  (forall i, tracked r i -> tracked (register hb r) i).
Proof.
  intros Hcur. unfold register. destruct (mrCurrent r) as [c|] eqn:Ec; simpl.
  - split_and!; try done. exists c. by rewrite (Hcur c).
  - split_and!; try done; [by eexists|left; by eexists|]. intros i [(cur & ? & _)|Hu]; [congruence|by right].
Qed.

Lemma record_previous_Ok forgotten now prev r r' : record_previous forgotten now prev r = Ok r' -> bounded r ->
  bounded r' /\ mrCurrent r' = mrCurrent r /\ (forall i, tracked r i -> tracked r' i) /\
  (forall p, p ∈ prev -> dirty_end p = true -> inID p ∉ forgotten -> inID p ∉ List.map inID (mrResolved r) ->
     (forall cur, mrCurrent r = Some cur -> inID cur <> inID p) -> tracked r' (inID p)).
Proof.
  revert r. induction prev as [|p prev IH]; intros r H Hb; simpl in H; [simplify_eq; split_and!; try done; set_solver|].
  destruct (knows_inc r (inID p) || bool_decide (inID p ∈ forgotten)) eqn:Ek.
  { destruct (IH r H Hb) as (Hb' & Hc & Hmono & Hrec). split_and!; [done..|]. intros q [->|Hq]%elem_of_cons Hd Hf Hr Hcur; [|by apply Hrec].
    apply Hmono. apply orb_true_iff in Ek as [Ek|Ek%bool_decide_eq_true]; [|done]. unfold knows_inc in Ek.
    apply orb_true_iff in Ek as [[Ek|(u & Hu & Hi%is_inc_iff)%existsb_exists]%orb_true_iff|(u & Hu & Hi%is_inc_iff)%existsb_exists].
    - destruct (mrCurrent r) as [c|]; [|done]. apply is_inc_iff in Ek. by destruct (Hcur c).
    - right. exists u. split; [by apply list_elem_of_In|done].
    - destruct Hr. rewrite <- Hi. apply list_elem_of_In, in_map, Hu. }
  destruct (dirty_end p) eqn:Ed.
  - destruct (addUnresolved _ r) as [r1|] eqn:Eadd; simpl in H; [|done]. apply addUnresolved_Ok in Eadd as [-> Hb1].
    destruct (IH _ H (Hb1 Hb)) as (Hb' & Hc & Hmono & Hrec). split_and!; [done|done|intros i Hi; by apply Hmono, tracked_added|].
    intros q [->|Hq]%elem_of_cons Hd Hf Hr Hcur; [|by apply Hrec]. apply Hmono. exact (tracked_new (mkInc _ _ _ _ _ _ _ _) r).
  - destruct (IH r H Hb) as (Hb' & Hc & Hmono & Hrec). split_and!; [done..|]. intros q [->|Hq]%elem_of_cons Hd; [congruence|by apply Hrec].
Qed.

(** What a heartbeat leaves in the record: its own process current, no process lost but those it reported cleanly ended, and every process it reported otherwise on record. *)
Lemma heartbeat_change_Ok forgotten now hb r r' g : heartbeat_change forgotten now hb r = Ok (r', g) -> bounded r ->
  bounded r' /\ (forall cur, mrCurrent r' = Some cur -> inID cur = hbIncarnation hb) /\
  (forall i, tracked r i -> ~ says_clean hb i -> tracked r' i) /\
  (~ said_ended r (hbIncarnation hb) -> tracked r' (hbIncarnation hb)) /\
  (forall i, says_dirty hb i -> i ∉ forgotten -> i ∉ List.map inID (mrResolved r) -> tracked r' i).
Proof.
  unfold heartbeat_change. set (inc := hbIncarnation hb). intros H Hb.
  set (r0 := if (mrJoined r =? 0)%Z then set_joined now r else r) in H.
  assert (bounded r0 /\ mrCurrent r0 = mrCurrent r /\ mrResolved r0 = mrResolved r /\ (forall i, tracked r i -> tracked r0 i)) as (Hb0 & Hc0 & Hr0 & Ht0)
    by (unfold r0; destruct (mrJoined r =? 0)%Z; done).
  clearbody r0. destruct (previous_all inc now (hbPrevious hb) r0 Hb0) as (Hb1 & Hr1 & Hid1 & Hk1 & Ht1). set (r1 := foldl _ _ _) in *.
  destruct (replace_current inc now r1) as [r2|] eqn:E2; simpl in H; [|done]. destruct (replace_current_Ok _ _ _ _ E2 Hb1) as (Hb2 & Hr2 & Hc2 & Hk2 & Ht2).
  destruct (register_spec hb r2) as (Hu3 & Hr3 & (c3 & Hc3 & Hi3) & Hk3 & Hn3 & Ht3); [intros cur Hc; by destruct (Hc2 cur Hc)|]. set (r3 := register hb r2) in *.
  assert (bounded r3) as Hb3 by (unfold bounded; by rewrite Hu3, Hr3).
  destruct (record_previous forgotten now (hbPrevious hb) r3) as [r4|] eqn:E4; simpl in H; simplify_eq.
  destruct (record_previous_Ok _ _ _ _ _ E4 Hb3) as (Hb4 & Hc4 & Ht4 & Hd4). split_and!; [done| | | |].
  - intros cur. rewrite Hc4, Hc3. by intros [= <-].
  - intros i Hi Hno. apply Ht4, Ht3, Ht2, Ht1; [by apply Ht0|]. exact Hno.
  - intros Hne. apply Ht4. destruct (mrCurrent r2) as [c2|] eqn:Ec2; [|by apply Hn3]. destruct (Hc2 _ eq_refl) as [Hc1 Hi2].
    rewrite Hc1 in Hid1. destruct (mrCurrent r0) as [c|] eqn:Ec; simplify_eq/=. rewrite (Hk1 c eq_refl) in Hc1 by congruence. injection Hc1 as <-.
    apply Ht3. left. exists c. split_and!; [done|done|]. destruct (active c) eqn:Ea; [done|]. destruct Hne. by exists c.
  - intros i (p & Hp & <- & Hne & Hd) Hf Hr. apply Hd4; [done..|by rewrite Hr3, Hr2, Hr1, Hr0|]. intros cur. rewrite Hc3. intros [= <-]. congruence.
Qed.

(** *** Retirement and resolution *)

Lemma elem_delete_first {A} (f : A -> bool) l x : x ∈ l -> f x = false -> x ∈ delete_first f l.
Proof. induction l as [|y l IH]; simpl; [set_solver|]. intros [->|H]%elem_of_cons Hf; [rewrite Hf; set_solver|]. destruct (f y); set_solver. Qed.
Lemma length_delete_first {A} (f : A -> bool) l : (length (delete_first f l) <= length l)%nat.
Proof. induction l as [|x l IH]; simpl; [done|]. destruct (f x); simpl; lia. Qed.
Lemma elem_update_first (f : Incarnation -> bool) g l u : (forall i, inID (g i) = inID i) -> u ∈ l -> exists u', u' ∈ update_first f g l /\ inID u' = inID u.
Proof.
  intros Hg. induction l as [|y l IH]; simpl; [set_solver|]. intros [->|H]%elem_of_cons; destruct (f y).
  - exists (g y). rewrite Hg. set_solver.
  - exists y. set_solver.
  - exists u. set_solver.
  - destruct (IH H) as (u' & ? & ?). exists u'. set_solver.
Qed.
Lemma length_update_first {A} (f : A -> bool) g l : length (update_first f g l) = length l.
Proof. induction l as [|x l IH]; simpl; [done|]. destruct (f x); simpl; lia. Qed.

Lemma keep_resolved_length l : (length (keep_resolved l) <= maxResolvedKept)%nat.
Proof. unfold keep_resolved. destruct (Nat.ltb_spec maxResolvedKept (length l)); [rewrite length_drop|]; lia. Qed.

(** What a change other than a heartbeat does to a record: it stays within its bounds, makes no process current, and loses only the processes in [closed]. *)
Definition narrows (closed : string -> Prop) (r r' : memberRecord) : Prop :=
  (bounded r -> bounded r') /\
  (forall cur, mrCurrent r' = Some cur -> active cur = true -> exists cur0, mrCurrent r = Some cur0 /\ active cur0 = true /\ inID cur0 = inID cur) /\
  (forall i, tracked r i -> ~ closed i -> tracked r' i).

Lemma narrows_refl closed r : narrows closed r r.
Proof. split_and!; [done| |done]. intros cur. by exists cur. Qed.

Lemma narrows_delete inc (closed : string -> Prop) r : closed inc -> narrows closed r (set_unresolved (delete_first (is_inc inc) (mrUnresolved r)) r).
Proof.
  intros Hc. split_and!.
  - intros Hb. apply bounded_shrink; [done|apply length_delete_first].
  - intros cur. by exists cur.
  - intros i [H|(u & Hu & Hi)] Hn; [by left|right]. exists u. split; [|done]. apply elem_delete_first; [done|]. apply is_inc_false. intros E. apply Hn. congruence.
Qed.

Lemma narrows_drop_current (closed : string -> Prop) c r cur : mrCurrent r = Some cur -> closed (inID cur) -> from_option active false c = false ->
  narrows closed r (set_current c r).
Proof.
  intros Hcur Hc Hn. split_and!; [done| |].
  - simpl. intros c' ->. simpl in Hn. congruence.
  - intros i [(c' & Hc' & Hi & _)|Hu] Hcl; [|by right]. exfalso. apply Hcl. congruence.
Qed.

Lemma narrows_trans closed r1 r2 r3 : narrows closed r1 r2 -> narrows closed r2 r3 -> narrows closed r1 r3.
Proof.
  intros (B1 & C1 & T1) (B2 & C2 & T2). split_and!; [auto| |auto]. intros cur Hc Ha. destruct (C2 _ Hc Ha) as (c2 & Hc2 & Ha2 & <-). eauto.
Qed.

Lemma narrows_resolved closed att actor now i r : narrows closed r (resolved att actor now i r).
Proof. split_and!; [intros [? ?]; split; simpl; [done|apply keep_resolved_length]| |done]. intros cur. by exists cur. Qed.

Lemma retire_narrows now inc u r r' : retire_change now inc u r = Ok r' -> narrows (fun i => i = inc /\ (u <= 0)%Z) r r'.
Proof.
  unfold retire_change. set (late := if existsb _ _ then _ else _). assert (late = Ok r' -> narrows (fun i => i = inc /\ (u <= 0)%Z) r r') as Hlate.
  { unfold late. destruct (existsb _ _); [|destruct (knows_inc r inc); intros [= <-]; apply narrows_refl]. intros [= <-].
    destruct (Z.eqb_spec u 0); [apply narrows_delete; split; [done|lia]|]. split_and!.
    - intros Hb. apply bounded_shrink; [done|by rewrite length_update_first].
    - intros cur. by exists cur.
    - intros i [H|(x & Hx & Hi)] _; [by left|right]. destruct (elem_update_first (is_inc inc) (fun i => inc_uncertain u (inc_end (inState i) now i)) _ _ (fun _ => eq_refl) Hx) as (x' & Hx' & Hi').
      exists x'. split; [done|congruence]. }
  clearbody late. destruct (mrCurrent r) as [cur|] eqn:Ec; [|done]. case_inc; [|done]. case_bool_decide; [intros [= <-]; apply narrows_refl|].
  destruct (Z.ltb_spec 0 u).
  - destruct (addUnresolved _ r) as [r1|] eqn:Ea; simpl; intros [= <-]. apply addUnresolved_Ok in Ea as [-> Hb]. split_and!; [done|done|].
    intros i [(c & Hc & Hi & _)|(x & Hx & Hi)] _; right; [|exists x; simpl; set_solver]. exists (inc_uncertain u (inc_end IncarnationUnclean now cur)). simpl. split; [set_solver|congruence].
  - intros [= <-]. eapply narrows_trans; [apply (narrows_drop_current _ (Some (inc_uncertain u (inc_end IncarnationRetired now cur))) r cur); [done|split; [done|lia]|done]|].
    split_and!; [done| |done]. intros c. by exists c.
Qed.

Lemma request_retire_narrows closed r r' : request_retire_change r = Ok r' -> narrows closed r r'.
Proof.
  unfold request_retire_change. destruct (mrCurrent r) as [cur|] eqn:E; [|done]. destruct (active cur) eqn:Ea; [|done]. intros [= <-].
  split_and!; [done| |done]. intros c. by exists c.
Qed.

Lemma resolve_narrows live now inc att actor r r' : resolve_change live now inc att actor r = Ok r' -> narrows (fun i => i = inc) r r'.
Proof.
  unfold resolve_change. destruct (List.find _ _) as [i|] eqn:Ef.
  - intros [= <-]. eapply narrows_trans; [by apply (narrows_delete inc)|apply narrows_resolved].
  - destruct (mrCurrent r) as [cur|] eqn:Ec; [|by destruct (knows_inc r inc)]. destruct (is_inc inc cur && active cur) eqn:E; [|by destruct (knows_inc r inc)].
    apply andb_true_iff in E as [Hi%is_inc_iff _]. destruct live; intros [= <-].
    eapply narrows_trans; [by apply (narrows_drop_current _ None r cur)|apply narrows_resolved].
Qed.

(** ** The fleet's processes *)

(** Which processes of which proxy may still have work landing at a backend: what the operations say of them. *)
Definition processes : Type := string -> string -> Prop.

Definition closing (id : string) (closed : string -> Prop) (open : processes) : processes := fun k i => open k i /\ ~ (k = id /\ closed i).

(** A heartbeat shows a process running, unless it said before that it ended; and tells how the processes before it ended. *)
Definition heard (id : string) (hb : Heartbeat) (forgotten : list string) (r : memberRecord) (open : processes) : processes := fun k i =>
  closing id (says_clean hb) open k i \/
  k = id /\ (i = hbIncarnation hb /\ ~ said_ended r i \/ says_dirty hb i /\ i ∉ forgotten /\ i ∉ List.map inID (mrResolved r)).

Definition record_of (id : string) (fl : fleet) : memberRecord := default zeroRecord (flMembers fl !! id).

(** Every operation, in any order, from any node; a lease ends whenever it ends. *)
Inductive flstep : fleet * processes -> fleet * processes -> Prop :=
  | fl_fast fl open c id hb : unchanged (Some c) id hb fl ->
      flstep (fl, open) ((heartbeat_fast c id hb fl).1, fun k i => open k i \/ k = id /\ i = hbIncarnation hb)
  | fl_slow fl open forgotten now id hb fl' g : heartbeat_slow forgotten now id hb fl = Ok (fl', g) ->
      flstep (fl, open) (fl', heard id hb forgotten (record_of id fl) open)
  | fl_retire fl open now id inc u fl' : Retire now id inc u fl = Ok fl' -> flstep (fl, open) (fl', closing id (fun i => i = inc /\ (u <= 0)%Z) open)
  | fl_request fl open id fl' : RequestRetire id fl = Ok fl' -> flstep (fl, open) (fl', open)
  | fl_resolve fl open live now id inc att actor fl' : Resolve live now id inc att actor fl = Ok fl' -> flstep (fl, open) (fl', closing id (fun i => i = inc) open)
  | fl_forget fl open id fl' : Forget id fl = Ok fl' -> flstep (fl, open) (fl', open)
  | fl_expire fl open id : flstep (fl, open) (drop_heartbeat id fl, open).

Definition new_fleet : fleet := mkFleet ∅ ∅ ∅.
Definition no_processes : processes := fun _ _ => False.
Definition fleet_run (fl : fleet) (open : processes) : Prop := rtc flstep (new_fleet, no_processes) (fl, open).

(** The invariant: no open process is off the table, and the current process of a live proxy is the one that holds its lease. *)
Definition fleet_inv (x : fleet * processes) : Prop :=
  (forall id i, x.2 id i -> exists r, flMembers x.1 !! id = Some r /\ tracked r i) /\
  (forall id r, flMembers x.1 !! id = Some r -> bounded r /\
     forall hb cur, flProxies x.1 !! id = Some hb -> mrCurrent r = Some cur -> active cur = true -> inID cur = hbIncarnation hb).

Lemma change__Ok id fn fl fl' : change_ id fn fl = Ok fl' -> exists r r', flMembers fl !! id = Some r /\ fn r = Ok r' /\ fl' = put_member id r' fl.
Proof.
  unfold change_, change. destruct (flMembers fl !! id) as [r|]; [|done]. simpl. destruct (fn r) as [r'|] eqn:E; [|done]. simpl. intros [= <-]. eauto.
Qed.

Lemma heartbeat_slow_Ok forgotten now id hb fl fl' g : heartbeat_slow forgotten now id hb fl = Ok (fl', g) ->
  exists r', heartbeat_change forgotten now hb (record_of id fl) = Ok (r', g) /\ fl' = put_heartbeat id hb (put_member id r' fl).
Proof.
  unfold heartbeat_slow, change, record_of. destruct (flMembers fl !! id) as [r|]; simpl.
  - destruct (heartbeat_change forgotten now hb r) as [[r' g']|]; simpl; [intros [= <- <-]; eauto|done].
  - destruct (heartbeat_change forgotten now hb zeroRecord) as [[r' g']|]; simpl; [intros [= <- <-]; eauto|done].
Qed.

Lemma narrows_inv id closed fn fl fl' open : (forall r r', fn r = Ok r' -> narrows closed r r') -> change_ id fn fl = Ok fl' -> fleet_inv (fl, open) ->
  fleet_inv (fl', closing id closed open).
Proof.
  intros Hfn (r & r' & Hr & E & ->)%change__Ok [Hopen Hrec]. destruct (Hfn _ _ E) as (Hb & Hc & Ht). destruct (Hrec _ _ Hr) as [Hbr Hcr]. split; simpl.
  - intros k i [Ho Hn]. destruct (Hopen _ _ Ho) as (r0 & Hr0 & Htr). simpl in Hr0. destruct (decide (k = id)) as [->|Hne].
    + simplify_eq. exists r'. rewrite lookup_insert_eq. split; [done|]. apply Ht; [done|]. intros ?. by apply Hn.
    + exists r0. by rewrite lookup_insert_ne.
  - intros k r0. destruct (decide (k = id)) as [->|Hne]; [rewrite lookup_insert_eq; intros [= <-]|rewrite lookup_insert_ne by done; apply Hrec].
    split; [by apply Hb|]. intros hb cur Hhb Hcur Ha. destruct (Hc _ Hcur Ha) as (c0 & Hc0 & Ha0 & <-). by eapply Hcr.
Qed.

Lemma fleet_inv_weaken fl (open open' : processes) : fleet_inv (fl, open) -> (forall k i, open' k i -> open k i) -> fleet_inv (fl, open').
Proof. intros [Ho Hr] Hsub. split; [intros k i ?; by apply Ho, Hsub|done]. Qed.

Lemma record_of_bounded id fl open : fleet_inv (fl, open) -> bounded (record_of id fl).
Proof. intros [_ Hrec]. unfold record_of. destruct (flMembers fl !! id) as [r|] eqn:E; simpl; [by apply (Hrec id)|]. split; simpl; unfold MaxUnresolvedIncarnations, maxResolvedKept; lia. Qed.

Lemma slow_inv forgotten now id hb fl fl' g open : heartbeat_slow forgotten now id hb fl = Ok (fl', g) -> fleet_inv (fl, open) ->
  fleet_inv (fl', heard id hb forgotten (record_of id fl) open).
Proof.
  intros (r' & E & ->)%heartbeat_slow_Ok Hinv. destruct (heartbeat_change_Ok _ _ _ _ _ _ E (record_of_bounded id _ _ Hinv)) as (Hb & Hc & Ht & Hnew & Hd).
  destruct Hinv as [Hopen Hrec]. split; simpl.
  - intros k i Hh. destruct (decide (k = id)) as [->|Hne].
    + exists r'. rewrite lookup_insert_eq. split; [done|]. destruct Hh as [[Ho Hn]|[_ [[-> Hs]|(Hs & Hf & Hr)]]]; [|by apply Hnew|by apply Hd].
      destruct (Hopen _ _ Ho) as (r0 & Hr0 & Htr). simpl in Hr0. apply Ht; [by unfold record_of; rewrite Hr0|]. intros ?. by apply Hn.
    + destruct Hh as [[Ho _]|[? _]]; [|done]. rewrite lookup_insert_ne by done. by apply Hopen.
  - intros k r0. destruct (decide (k = id)) as [->|Hne].
    + rewrite !lookup_insert_eq. intros [= <-]. split; [done|]. intros h cur [= <-] Hcur _. by apply Hc.
    + rewrite !lookup_insert_ne by done. apply Hrec.
Qed.

Lemma fast_inv c id hb fl open : unchanged (Some c) id hb fl -> fleet_inv (fl, open) ->
  fleet_inv ((heartbeat_fast c id hb fl).1, fun k i => open k i \/ k = id /\ i = hbIncarnation hb).
Proof.
  intros (ca & cur & [= <-] & Hcur & Hid & Ha & _ & Hr) [Hopen Hrec]. split; simpl.
  - intros k i [Ho|[-> ->]]; [by apply Hopen|]. exists (caRec c). split; [done|]. left. by exists cur.
  - intros k r0 Hr0. destruct (Hrec _ _ Hr0) as [Hb Hl]. split; [done|]. intros h c0. destruct (decide (k = id)) as [->|Hne].
    + rewrite lookup_insert_eq. simpl in Hr0. intros [= <-] Hc0 _. congruence.
    + rewrite lookup_insert_ne by done. apply Hl.
Qed.

Lemma untracked r i : match mrCurrent r with Some cur => active cur | None => false end || negb (bool_decide (mrUnresolved r = [])) = false -> ~ tracked r i.
Proof.
  intros [Hc Hu%negb_false_iff%bool_decide_eq_true]%orb_false_iff [(cur & E & _ & Ha)|(u & H & _)]; [rewrite E in Hc; congruence|rewrite Hu in H; set_solver].
Qed.

Lemma forget_inv id fl fl' open : Forget id fl = Ok fl' -> fleet_inv (fl, open) -> fleet_inv (fl', open).
Proof.
  unfold Forget. destruct (flMembers fl !! id) as [r|] eqn:Er; [|done]. case_bool_decide as Hlive; [done|]. destruct (_ || _) eqn:Eu; intros [= <-] [Hopen Hrec].
  split; simpl.
  - intros k i Ho. destruct (Hopen _ _ Ho) as (r0 & Hr0 & Ht). simpl in Hr0. exists r0. split; [|done]. apply lookup_delete_Some. split; [|done].
    intros <-. rewrite Er in Hr0. simplify_eq. by eapply untracked.
  - intros k r0 [_ Hr0]%lookup_delete_Some. by apply Hrec.
Qed.

Lemma expire_inv id fl open : fleet_inv (fl, open) -> fleet_inv (drop_heartbeat id fl, open).
Proof.
  intros [Hopen Hrec]. split; simpl; [done|]. intros k r Hr. destruct (Hrec _ _ Hr) as [Hb Hl]. split; [done|]. intros hb cur [_ Hhb]%lookup_delete_Some. by apply Hl.
Qed.

Lemma flstep_inv x y : flstep x y -> fleet_inv x -> fleet_inv y.
Proof.
  intros Hs Hx. destruct Hs as [fl open c id hb H|fl open forgotten now id hb fl' g H|fl open now id inc u fl' H|fl open id fl' H|fl open live now id inc att actor fl' H|fl open id fl' H|fl open id].
  - by apply fast_inv.
  - by eapply slow_inv.
  - eapply narrows_inv; [|exact H|exact Hx]. intros r r'. apply retire_narrows.
  - eapply fleet_inv_weaken; [eapply (narrows_inv id (fun _ => False)); [|exact H|exact Hx]; intros r r'; apply request_retire_narrows|]. intros k i Ho. split; [done|tauto].
  - eapply narrows_inv; [|exact H|exact Hx]. intros r r'. apply resolve_narrows.
  - by eapply forget_inv.
  - by apply expire_inv.
Qed.

Lemma flsteps_inv x y : rtc flstep x y -> fleet_inv x -> fleet_inv y.
Proof. induction 1 as [|x y z Hs _ IH]; [done|]. intros Hx. by apply IH, (flstep_inv x). Qed.

Lemma fleet_run_inv fl open : fleet_run fl open -> fleet_inv (fl, open).
Proof. intros H. apply (flsteps_inv _ _ H). split; simpl; [done|]. intros id r. by rewrite lookup_empty. Qed.

(** ** What the table promises *)

(** C33: the fleet table loses no process: after any sequence of heartbeats, retirements, resolutions and forgettings, from any node and with leases ending at any time, every process that was seen running or was reported to have ended uncleanly, and that has neither said that it ended with nothing uncertain nor been resolved by an operator, is on its proxy's record, as its active current process or as an unresolved one; and a record never keeps more unresolved or resolved processes than its bounds. *)
Theorem fleet_keeps_evidence fl open (Hrun : fleet_run fl open) :
  (forall id i, open id i -> exists r, flMembers fl !! id = Some r /\ tracked r i) /\
  (forall id r, flMembers fl !! id = Some r -> (length (mrUnresolved r) <= 8)%nat /\ (length (mrResolved r) <= 4)%nat).
Proof. destruct (fleet_run_inv _ _ Hrun) as [Hopen Hrec]. split; [exact Hopen|]. intros id r Hr. by destruct (Hrec id r Hr). Qed.

Lemma members_in id r fl : flMembers fl !! id = Some r -> member_of id (Some r) (flProxies fl !! id) ∈ Members fl.
Proof.
  intros Hr. unfold Members. apply list_elem_of_fmap. exists id. rewrite Hr. split; [done|]. apply elem_of_elements, elem_of_union_l, elem_of_dom. by exists r.
Qed.

(** A drained member's tracked process is the one behind its lease, and has drained. *)
Lemma tracked_drained cur st id r hb i : member_drained cur st (member_of id (Some r) hb) -> tracked r i ->
  exists c h, mrCurrent r = Some c /\ inID c = i /\ active c = true /\ hb = Some h /\ hbIdentity h = cur /\ drained_ack (hbBarriers h) (hbDurable h) st.
Proof.
  intros [Hu Hd] Ht. simpl in Hu. destruct Ht as [(c & Hc & Hi & Ha)|(u & Hin & _)]; [|rewrite Hu in Hin; set_solver]. exists c.
  assert (Retired (member_of id (Some r) hb) = false) as Hret.
  { unfold Retired. simpl. rewrite Hc. unfold active in Ha. apply bool_decide_eq_true in Ha. by rewrite Ha. }
  destruct Hd as [Hd|(Hl & Hid & Hack)]; [congruence|]. simpl in Hl. destruct hb as [h|]; [|done]. by exists h.
Qed.

(** C13: a drain waits on every process, not only on every proxy: when nothing is in a barrier's way, each process of the fleet whose work may still land is the one behind its proxy's live lease, on this directory's lineage, and its own last heartbeat acknowledges the closed and drained gate; no process that crashed, was replaced or was forgotten is passed over. *)
Theorem drain_waits_on_every_process fl open dir local extra st id i
    (Hrun : fleet_run fl open) (Hnone : drainBlockers (Ok (Members fl)) dir local extra st = Ok []) (Hopen : open id i) :
  exists hb, flProxies fl !! id = Some hb /\ hbIncarnation hb = i /\ hbIdentity hb = fIdentity dir /\ drained_ack (hbBarriers hb) (hbDurable hb) st.
Proof.
  destruct (fleet_run_inv _ _ Hrun) as [Ho Hrec]. destruct (Ho _ _ Hopen) as (r & Hr & Ht). destruct (drainBlockers_nil _ _ _ _ _ Hnone) as (t & [= <-] & Hall & _).
  destruct (tracked_drained _ _ _ _ _ _ (Hall _ (members_in _ _ _ Hr)) Ht) as (c & hb & Hc & Hi & Ha & Hhb & Hid & Hack). exists hb. split_and!; [done| |done|done].
  destruct (Hrec _ _ Hr) as [_ Hl]. rewrite <- Hi. symmetry. by apply Hl.
Qed.

(** The one-transaction heartbeat, taken when the record is as this node last read it and the heartbeat carries nothing to record and names no previous process, does what the full change of the record would have done: the same table and the same grant. *)
Theorem heartbeat_fast_equiv c forgotten now id hb fl (Hun : unchanged (Some c) id hb fl) (Hprev : hbPrevious hb = []) (Hjoined : mrJoined (caRec c) <> 0%Z) :
  heartbeat_slow forgotten now id hb fl = Ok (heartbeat_fast c id hb fl).
Proof.
  destruct Hun as (ca & cur & [= <-] & Hcur & Hid & _ & _ & Hr). unfold heartbeat_slow, change, heartbeat_fast. rewrite Hr. simpl.
  assert (heartbeat_change forgotten now hb (caRec c) = Ok (caRec c, mkGrant (mrRetireRequested (caRec c)) false)) as ->.
  { unfold heartbeat_change. rewrite Hprev, (proj2 (Z.eqb_neq _ _) Hjoined). simpl. unfold replace_current. rewrite Hcur. assert (is_inc (hbIncarnation hb) cur = true) as -> by by apply is_inc_iff.
    simpl. unfold register. by rewrite Hcur. }
  simpl. rewrite Hprev. unfold put_member. rewrite insert_id by done. by destruct fl.
Qed.

(** ** A proxy that crashed and came back *)

Definition ex_hb (inc : string) (prev : list Incarnation) (acks : list Ack) : Heartbeat := mkHeartbeat inc 1 prev zeroIdentity 4 4 4 acks.
Definition run_slow (now : Z) (id : string) (hb : Heartbeat) (fl : fleet) : fleet := match heartbeat_slow [] now id hb fl with Ok (fl', _) => fl' | Err _ => fl end.
Definition run_ (op : fleet -> result fleetErr fleet) (fl : fleet) : fleet := match op fl with Ok fl' => fl' | Err _ => fl end.

Definition ex_fleet1 : fleet := run_slow 1 "p1" (ex_hb "i1" [] []) new_fleet.
Definition ex_fleet2 : fleet := run_slow 2 "p1" (ex_hb "i2" [] [ex_ack]) ex_fleet1.
Definition ex_fleet3 : fleet := run_ (Resolve true 3 "p1" "i1" "host reinstalled" "op") ex_fleet2.

(** The crashed process is in the way of a drain until it is resolved. *)
Example ex_crashed : drainBlockers (Ok (Members ex_fleet2)) ex_file None None ex_state = Ok [mkBlocker BlockerIncarnationUnresolved "p1" "i1" 0].
Proof. vm_compute. reflexivity. Qed.
Example ex_crash_resolved : drainBlockers (Ok (Members ex_fleet3)) ex_file None None ex_state = Ok [].
Proof. vm_compute. reflexivity. Qed.
Example ex_forget_refused : Forget "p1" (drop_heartbeat "p1" ex_fleet2) = Err RetirementError.
Proof. vm_compute. reflexivity. Qed.

Definition ex_open1 : processes := heard "p1" (ex_hb "i1" [] []) [] (record_of "p1" new_fleet) no_processes.
Definition ex_open2 : processes := heard "p1" (ex_hb "i2" [] [ex_ack]) [] (record_of "p1" ex_fleet1) ex_open1.
Definition ex_open3 : processes := closing "p1" (fun i => i = "i1") ex_open2.

Lemma ex_fleet_run2 : fleet_run ex_fleet2 ex_open2.
Proof.
  eapply rtc_l; [|apply rtc_once].
  - apply (fl_slow _ _ [] 1 "p1" (ex_hb "i1" [] []) ex_fleet1 (mkGrant false false)). vm_compute. reflexivity.
  - apply (fl_slow _ _ [] 2 "p1" (ex_hb "i2" [] [ex_ack]) ex_fleet2 (mkGrant false false)). vm_compute. reflexivity.
Qed.
Lemma ex_fleet_run3 : fleet_run ex_fleet3 ex_open3.
Proof. eapply rtc_r; [apply ex_fleet_run2|]. apply (fl_resolve _ _ true 3 "p1" "i1" "host reinstalled" "op"). vm_compute. reflexivity. Qed.

Lemma ex_open2_i1 : ex_open2 "p1" "i1".
Proof. left. split; [|intros [_ (p & Hp & _)]; set_solver]. right. split; [done|]. left. split; [done|]. intros (cur & Hc & _). vm_compute in Hc. done. Qed.
Lemma ex_open3_i2 : ex_open3 "p1" "i2".
Proof. split; [|intros [_ ?]; done]. right. split; [done|]. left. split; [done|]. intros (cur & Hc & Hi & _). vm_compute in Hc. simplify_eq. Qed.

Lemma fleet_keeps_evidence_witness : exists r, flMembers ex_fleet2 !! "p1" = Some r /\ tracked r "i1".
Proof. apply (proj1 (fleet_keeps_evidence ex_fleet2 ex_open2 ex_fleet_run2)). apply ex_open2_i1. Defined.

Lemma drain_waits_on_every_process_witness : exists hb, flProxies ex_fleet3 !! "p1" = Some hb /\ hbIncarnation hb = "i2" /\ hbIdentity hb = fIdentity ex_file /\
  drained_ack (hbBarriers hb) (hbDurable hb) ex_state.
Proof. apply (drain_waits_on_every_process ex_fleet3 ex_open3 ex_file None None ex_state "p1" "i2" ex_fleet_run3 ex_crash_resolved ex_open3_i2). Defined.

Definition ex_cached : cached := mkCached (record_of "p1" ex_fleet1) "".
Lemma heartbeat_fast_equiv_witness : heartbeat_slow [] 5 "p1" (ex_hb "i1" [] [ex_ack]) ex_fleet1 = Ok (heartbeat_fast ex_cached "p1" (ex_hb "i1" [] [ex_ack]) ex_fleet1).
Proof.
  apply (heartbeat_fast_equiv ex_cached [] 5 "p1" (ex_hb "i1" [] [ex_ack]) ex_fleet1).
  - exists ex_cached, (mkInc "i1" 1 0 IncarnationActive 0 "" "" 0). split_and!; [reflexivity|vm_compute; reflexivity|reflexivity|vm_compute; reflexivity|by left|vm_compute; reflexivity].
  - reflexivity.
  - vm_compute. discriminate.
Defined.
