(* ===== verification/Crypto.v ===== *)
(** * Digests and text encodings (Go's crypto and encoding packages, as the code uses them)

    SHA-256 and SHA-1, HMAC, the cyclic checksums S3 names, hexadecimal and base64, over byte strings
    as lists.  They are computed, so that the signing code's published vectors are evaluated. *)

From S2P Require Import Prelude.

Notation bytes := (list Ascii.ascii).

(** [[]byte(s)] and [string(b)]. *)
Definition B (s : string) : bytes := String.list_ascii_of_string s.
Definition S_ (b : bytes) : string := String.string_of_list_ascii b.

Lemma S_B s : S_ (B s) = s.
Proof. apply String.string_of_list_ascii_of_string. Qed.
Lemma B_S b : B (S_ b) = b.
Proof. apply String.list_ascii_of_string_of_list_ascii. Qed.
Lemma B_app s t : B (s +:+ t) = B s ++ B t.
Proof. induction s as [|c s IH]; [done|]. rewrite append_cons. change (c :: B (s +:+ t) = c :: (B s ++ B t)). by rewrite IH. Qed.
Lemma B_inj s t : B s = B t -> s = t.
Proof. intros H. by rewrite <- (S_B s), <- (S_B t), H. Qed.

Definition byte_of (z : Z) : Ascii.ascii := Ascii.ascii_of_N (Z.to_N (Z.land z 255)).

Lemma byte_of_byteZ c : byte_of (byteZ c) = c.
Proof.
  unfold byte_of, byteZ. rewrite (Z.land_ones _ 8) by lia. rewrite Z.mod_small; [by rewrite N2Z.id, Ascii.ascii_N_embedding|].
  pose proof (Ascii.N_ascii_bounded c). lia.
Qed.
Lemma byteZ_byte_of z : (0 <= z < 256)%Z -> byteZ (byte_of z) = z.
Proof.
  intros. unfold byte_of, byteZ. rewrite (Z.land_ones _ 8) by lia. rewrite Z.mod_small by lia. rewrite Ascii.N_ascii_embedding; lia.
Qed.

(** ** 32-bit words *)

Definition w32 (x : Z) : Z := Z.land x 0xffffffff.
Definition rotr (n x : Z) : Z := Z.lor (Z.shiftr x n) (w32 (Z.shiftl x (32 - n))).
Definition add32 (x y : Z) : Z := w32 (x + y).
Definition not32 (x : Z) : Z := Z.lxor x 0xffffffff.

(** Big-endian words of a byte string, and the bytes of a word. *)
Fixpoint words (b : bytes) : list Z :=
  match b with
  | b0 :: b1 :: b2 :: b3 :: b => (byteZ b0 * 16777216 + byteZ b1 * 65536 + byteZ b2 * 256 + byteZ b3)%Z :: words b
  | _ => []
  end.
Definition be32 (x : Z) : bytes := [byte_of (Z.shiftr x 24); byte_of (Z.shiftr x 16); byte_of (Z.shiftr x 8); byte_of x].
Definition be64 (x : Z) : bytes := be32 (Z.shiftr x 32) ++ be32 x.

(** The padding of SHA-1 and SHA-256: a one bit, zeros, and the length in bits. *)
Definition pad (b : bytes) : bytes :=
  let n := Z.of_nat (length b) in b ++ byte_of 128 :: repeat (byte_of 0) (Z.to_nat ((55 - n) mod 64)) ++ be64 (8 * n).

(** The blocks of sixteen words, folded into the state. *)
Fixpoint blocks {St} (step : St -> list Z -> St) (n : nat) (ws : list Z) (st : St) : St :=
  match n with O => st | S n => blocks step n (drop 16 ws) (step st (take 16 ws)) end.
Definition digest_blocks {St} (step : St -> list Z -> St) (b : bytes) (st : St) : St :=
  let ws := words (pad b) in blocks step (length ws / 16) ws st.

(** ** SHA-256 *)

(** The constants are the first 32 bits of the fractional parts of the square and cube roots of primes. *)
Definition is_prime (n : Z) : bool := forallb (fun d => negb (n mod (2 + Z.of_nat d) =? 0)%Z) (seq 0 (Z.to_nat (n - 2))).
Definition primes (count limit : nat) : list Z := take count (List.filter is_prime (List.map (fun i => (2 + Z.of_nat i)%Z) (seq 0 limit))).
Fixpoint cbrt_bits (n : nat) (x r : Z) : Z :=
  match n with O => r | S n => let r' := (r + Z.shiftl 1 (Z.of_nat n))%Z in cbrt_bits n x (if (r' * r' * r' <=? x)%Z then r' else r) end.

Definition sha256_k : list Z := Eval vm_compute in List.map (fun p => w32 (cbrt_bits 36 (Z.shiftl p 96) 0)) (primes 64 312).
Definition sha256_h : list Z := Eval vm_compute in List.map (fun p => w32 (Z.sqrt (Z.shiftl p 64))) (primes 8 20).

Definition s256_0 (x : Z) : Z := Z.lxor (Z.lxor (rotr 7 x) (rotr 18 x)) (Z.shiftr x 3).
Definition s256_1 (x : Z) : Z := Z.lxor (Z.lxor (rotr 17 x) (rotr 19 x)) (Z.shiftr x 10).
Definition S256_0 (x : Z) : Z := Z.lxor (Z.lxor (rotr 2 x) (rotr 13 x)) (rotr 22 x).
Definition S256_1 (x : Z) : Z := Z.lxor (Z.lxor (rotr 6 x) (rotr 11 x)) (rotr 25 x).

(** The message schedule, newest word first. *)
Fixpoint sched256 (n : nat) (w : list Z) : list Z :=
  match n with
  | O => w
  | S n => sched256 n (add32 (add32 (s256_1 (nth 1 w 0%Z)) (nth 6 w 0%Z)) (add32 (s256_0 (nth 14 w 0%Z)) (nth 15 w 0%Z)) :: w)
  end.

Definition round256 (st : list Z) (kw : Z * Z) : list Z :=
  match st with
  | [a; b; c; d; e; f; g; h] =>
      let ch := Z.lxor (Z.land e f) (Z.land (not32 e) g) in
      let maj := Z.lxor (Z.lxor (Z.land a b) (Z.land a c)) (Z.land b c) in
      let t1 := w32 (h + S256_1 e + ch + kw.1 + kw.2) in
      [add32 t1 (S256_0 a + maj); a; b; c; add32 d t1; e; f; g]
  | _ => st
  end.
Definition block256 (st ws : list Z) : list Z := zip_with add32 st (foldl round256 st (zip sha256_k (rev (sched256 48 (rev ws))))).
Definition sha256 (b : bytes) : bytes := concat (List.map be32 (digest_blocks block256 b sha256_h)).

(** ** SHA-1 *)

Definition rotl1 (x : Z) : Z := rotr 31 x.
Fixpoint sched1 (n : nat) (w : list Z) : list Z :=
  match n with O => w | S n => sched1 n (rotl1 (Z.lxor (Z.lxor (nth 2 w 0%Z) (nth 7 w 0%Z)) (Z.lxor (nth 13 w 0%Z) (nth 15 w 0%Z))) :: w) end.
Definition round1 (st : list Z) (tw : nat * Z) : list Z :=
  match st with
  | [a; b; c; d; e] =>
      let '(f, k) := match (tw.1 / 20)%nat with
        | 0%nat => (Z.lor (Z.land b c) (Z.land (not32 b) d), 0x5a827999%Z)
        | 1%nat => (Z.lxor (Z.lxor b c) d, 0x6ed9eba1%Z)
        | 2%nat => (Z.lor (Z.lor (Z.land b c) (Z.land b d)) (Z.land c d), 0x8f1bbcdc%Z)
        | _ => (Z.lxor (Z.lxor b c) d, 0xca62c1d6%Z)
        end in
      [w32 (rotr 27 a + f + e + k + tw.2); a; rotr 2 b; c; d]
  | _ => st
  end.
Definition block1 (st ws : list Z) : list Z := zip_with add32 st (foldl round1 st (zip (seq 0 80) (rev (sched1 64 (rev ws))))).
Definition sha1_h : list Z := [0x67452301; 0xefcdab89; 0x98badcfe; 0x10325476; 0xc3d2e1f0]%Z.
Definition sha1 (b : bytes) : bytes := concat (List.map be32 (digest_blocks block1 b sha1_h)).

(** ** HMAC-SHA256 *)

Definition xor_key (k : bytes) (m : Z) : bytes := List.map (fun c => byte_of (Z.lxor (byteZ c) m)) (k ++ repeat (byte_of 0) (64 - length k)).
Definition hmac256 (key data : bytes) : bytes :=
  let k := if (64 <? length key)%nat then sha256 key else key in
  sha256 (xor_key k 0x5c ++ sha256 (xor_key k 0x36 ++ data)).

(** ** Cyclic checksums, bit-reflected *)

Fixpoint crc_bits (poly : Z) (n : nat) (x : Z) : Z :=
  match n with O => x | S n => crc_bits poly n (if Z.odd x then Z.lxor (Z.shiftr x 1) poly else Z.shiftr x 1) end.
Definition crc_byte (poly : Z) (x : Z) (c : Ascii.ascii) : Z := crc_bits poly 8 (Z.lxor x (byteZ c)).
Definition crc (poly mask : Z) (b : bytes) : Z := Z.lxor (foldl (crc_byte poly) mask b) mask.

Definition crc32_ieee (b : bytes) : bytes := be32 (crc 0xedb88320 0xffffffff b).
Definition crc32_castagnoli (b : bytes) : bytes := be32 (crc 0x82f63b78 0xffffffff b).

(** [bits.Reverse64]. *)
Fixpoint reverse_bits (n : nat) (x acc : Z) : Z :=
  match n with O => acc | S n => reverse_bits n (Z.shiftr x 1) (2 * acc + Z.land x 1) end.
Definition crc64_nvme (b : bytes) : bytes := be64 (crc (reverse_bits 64 0xad93d23594c93659 0) 0xffffffffffffffff b).

(** ** Hexadecimal *)

Definition hex_digit (n : Z) : Ascii.ascii := byte_of (if (n <? 10)%Z then 48 + n else 87 + n).
Definition hex (b : bytes) : bytes := concat (List.map (fun c => [hex_digit (Z.shiftr (byteZ c) 4); hex_digit (Z.land (byteZ c) 15)]) b).

(** ** Vectors *)

Example sha256_empty : S_ (hex (sha256 [])) = "e3b0c44298fc1c149afbf4c8996fb92427ae41e4649b934ca495991b7852b855".
Proof. vm_compute. reflexivity. Qed.
Example sha256_abc : S_ (hex (sha256 (B "abc"))) = "ba7816bf8f01cfea414140de5dae2223b00361a396177a9cb410ff61f20015ad".
Proof. vm_compute. reflexivity. Qed.
Example sha1_abc : S_ (hex (sha1 (B "abc"))) = "a9993e364706816aba3e25717850c26c9cd0d89d".
Proof. vm_compute. reflexivity. Qed.
Example hmac256_fox : S_ (hex (hmac256 (B "key") (B "The quick brown fox jumps over the lazy dog"))) = "f7bc83f430538424b13298e6aa6fb143ef4d59a14946175997479dbc2d1a3cd8".
Proof. vm_compute. reflexivity. Qed.
Example crc_check : (S_ (hex (crc32_ieee (B "123456789"))), S_ (hex (crc32_castagnoli (B "123456789"))), S_ (hex (crc64_nvme (B "123456789")))) =
  ("cbf43926", "e3069283", "ae8b14860a799888").
Proof. vm_compute. reflexivity. Qed.

(** ** Base64, with its padding *)

Definition b64_digit (n : Z) : Ascii.ascii :=
  byte_of (if (n <? 26)%Z then 65 + n else if (n <? 52)%Z then 71 + n else if (n <? 62)%Z then n - 4 else if (n =? 62)%Z then 43 else 47).
Definition b64_val (c : Ascii.ascii) : option Z :=
  let z := byteZ c in
  if (65 <=? z)%Z && (z <=? 90)%Z then Some (z - 65)%Z
  else if (97 <=? z)%Z && (z <=? 122)%Z then Some (z - 71)%Z
  else if (48 <=? z)%Z && (z <=? 57)%Z then Some (z + 4)%Z
  else if (z =? 43)%Z then Some 62%Z
  else if (z =? 47)%Z then Some 63%Z
  else None.

(** [base64.StdEncoding.EncodeToString] *)
Fixpoint base64 (b : bytes) : bytes :=
  match b with
  | x :: y :: z :: b =>
      let n := (byteZ x * 65536 + byteZ y * 256 + byteZ z)%Z in
      b64_digit (n / 262144) :: b64_digit (n / 4096 mod 64) :: b64_digit (n / 64 mod 64) :: b64_digit (n mod 64) :: base64 b
  | [x; y] =>
      let n := (byteZ x * 65536 + byteZ y * 256)%Z in
      [b64_digit (n / 262144); b64_digit (n / 4096 mod 64); b64_digit (n / 64 mod 64); "="%char]
  | [x] => let n := (byteZ x * 65536)%Z in [b64_digit (n / 262144); b64_digit (n / 4096 mod 64); "="%char; "="%char]
  | [] => []
  end.

(** [base64.StdEncoding.DecodeString]; line breaks are skipped first, as it does. *)
Definition b64_pad (c : Ascii.ascii) : bool := bool_decide (c = "="%char).
Fixpoint unbase64_groups (b : bytes) : option bytes :=
  match b with
  | [] => Some []
  | w :: x :: y :: z :: b =>
      n0 ← b64_val w; n1 ← b64_val x;
      if b64_pad y && b64_pad z && bool_decide (b = []) then Some [byte_of (n0 * 4 + n1 / 16)]
      else n2 ← b64_val y;
      if b64_pad z && bool_decide (b = []) then Some [byte_of (n0 * 4 + n1 / 16); byte_of (n1 * 16 + n2 / 4)]
      else n3 ← b64_val z;
      rest ← unbase64_groups b; Some (byte_of (n0 * 4 + n1 / 16) :: byte_of (n1 * 16 + n2 / 4) :: byte_of (n2 * 64 + n3) :: rest)
  | _ => None
  end.
Definition is_break (c : Ascii.ascii) : bool := (byteZ c =? 13)%Z || (byteZ c =? 10)%Z.
Definition unbase64 (b : bytes) : option bytes := unbase64_groups (List.filter (fun c => negb (is_break c)) b).

Example base64_vectors : (S_ (base64 (B "foobar")), S_ (base64 (B "fooba")), S_ (base64 (B "foob"))) = ("Zm9vYmFy", "Zm9vYmE=", "Zm9vYg==").
Proof. vm_compute. reflexivity. Qed.

(** ** Lengths and alphabets *)

(** A property of the numbers below a bound, by evaluation. *)
Fixpoint all_from (n : nat) (z : Z) (P : Z -> bool) : bool := match n with O => true | S n => if P z then all_from n (z + 1) P else false end.
Lemma below (n : nat) (P : Z -> bool) : all_from n 0 P = true -> forall z, (0 <= z < Z.of_nat n)%Z -> P z = true.
Proof.
  assert (forall n z0, all_from n z0 P = true -> forall z, (z0 <= z < z0 + Z.of_nat n)%Z -> P z = true) as H; [|intros E z Hz; by apply (H n 0%Z)].
  clear n. induction n as [|n IH]; intros z0 H z Hz; [lia|]. simpl in H. destruct (P z0) eqn:E; [|done]. destruct (decide (z = z0)) as [->|]; [done|]. apply (IH _ H). lia.
Qed.

Definition lower_hex (c : Ascii.ascii) : bool := in_range "0" "9" c || in_range "a" "f" c.

Lemma hex_digit_lower n : (0 <= n < 16)%Z -> lower_hex (hex_digit n) = true.
Proof. apply (below 16 (fun n => lower_hex (hex_digit n))). vm_compute. reflexivity. Qed.
Lemma hex_lower b : Forall (fun c => lower_hex c = true) (hex b).
Proof.
  induction b as [|c b IH]; simpl; [done|]. pose proof (byteZ_range c). repeat constructor; [| |exact IH]; apply hex_digit_lower.
  - rewrite Z.shiftr_div_pow2 by lia. change (2 ^ 4)%Z with 16%Z. split; [apply Z.div_pos; lia|apply Z.div_lt_upper_bound; lia].
  - rewrite (Z.land_ones _ 4) by lia. apply Z.mod_pos_bound. done.
Qed.
Lemma hex_length b : length (hex b) = (2 * length b)%nat.
Proof. induction b as [|c b IH]; [done|]. change (hex (c :: b)) with ([hex_digit (Z.shiftr (byteZ c) 4); hex_digit (Z.land (byteZ c) 15)] ++ hex b). rewrite length_app, IH. simpl. lia. Qed.

Lemma blocks_inv {St} (P : St -> Prop) (step : St -> list Z -> St) n ws st : (forall st ws, P st -> P (step st ws)) -> P st -> P (blocks step n ws st).
Proof. intros Hs. revert ws st. induction n as [|n IH]; simpl; auto. Qed.
Lemma be32_all_length l : length (concat (List.map be32 l)) = (4 * length l)%nat.
Proof. induction l as [|x l IH]; [done|]. simpl in *. lia. Qed.

(** A round keeps the number of words of the state. *)
Lemma fold_length {A} (f : list Z -> A -> list Z) n l st : (forall st x, length st = n -> length (f st x) = n) -> length st = n -> length (foldl f st l) = n.
Proof. intros Hf. revert st. induction l; simpl; auto. Qed.
Lemma digest_length {A} (f : list Z -> A -> list Z) (sched : list Z -> list A) n h b : (forall st x, length st = n -> length (f st x) = n) -> length h = n ->
  length (digest_blocks (fun st ws => zip_with add32 st (foldl f st (sched ws))) b h) = n.
Proof.
  intros Hf Hh. unfold digest_blocks. apply (blocks_inv (fun st => length st = n)); [|done]. intros st ws Hst. rewrite length_zip_with, Hst, (fold_length f n); [lia|done|done].
Qed.

Lemma sha256_length b : length (sha256 b) = 32%nat.
Proof.
  unfold sha256. rewrite be32_all_length. unfold block256. rewrite (digest_length round256 (fun ws => zip sha256_k (rev (sched256 48 (rev ws)))) 8); [done| |done].
  intros st x Hst. do 9 (destruct st as [|? st]; try done).
Qed.
Lemma sha1_length b : length (sha1 b) = 20%nat.
Proof.
  unfold sha1. rewrite be32_all_length. unfold block1. rewrite (digest_length round1 (fun ws => zip (seq 0 80) (rev (sched1 64 (rev ws)))) 5); [done| |done].
  intros st x Hst. do 6 (destruct st as [|? st]; try done). unfold round1. by destruct (x.1 / 20)%nat as [|[|[|n]]].
Qed.
Lemma hmac256_length k b : length (hmac256 k b) = 32%nat.
Proof. apply sha256_length. Qed.

(** ** Base64 decodes what it encoded *)

Lemma b64_digit_val n : (0 <= n < 64)%Z -> b64_val (b64_digit n) = Some n /\ b64_pad (b64_digit n) = false /\ is_break (b64_digit n) = false.
Proof.
  intros Hn. pose proof (below 64 (fun n => match b64_val (b64_digit n) with Some m => (m =? n)%Z | None => false end && negb (b64_pad (b64_digit n)) && negb (is_break (b64_digit n))) ltac:(vm_compute; reflexivity) n Hn) as H.
  apply andb_true_iff in H as [[H1 H2%negb_true_iff]%andb_true_iff H3%negb_true_iff].
  split_and!; [|done..]. destruct (b64_val _) as [m|]; [|done]. by apply Z.eqb_eq in H1 as ->.
Qed.

(** The four digits of three bytes. *)
Lemma b64_group x y z : let n := (byteZ x * 65536 + byteZ y * 256 + byteZ z)%Z in
  (0 <= n / 262144 < 64)%Z /\ (0 <= n / 4096 mod 64 < 64)%Z /\ (0 <= n / 64 mod 64 < 64)%Z /\ (0 <= n mod 64 < 64)%Z /\
  byte_of (n / 262144 * 4 + n / 4096 mod 64 / 16) = x /\ byte_of (n / 4096 mod 64 * 16 + n / 64 mod 64 / 4) = y /\ byte_of (n / 64 mod 64 * 64 + n mod 64) = z.
Proof.
  intros n. pose proof (byteZ_range x). pose proof (byteZ_range y). pose proof (byteZ_range z). unfold n.
  assert (forall c v, (v mod 256 = byteZ c)%Z -> byte_of v = c) as Hb.
  { intros c v Hv. rewrite <- (byte_of_byteZ c), <- Hv. unfold byte_of. by rewrite !(Z.land_ones _ 8), Z.mod_mod by lia. }
  split_and!; try apply Hb; Z.to_euclidean_division_equations; lia.
Qed.

Lemma unbase64_groups_base64 b : unbase64_groups (base64 b) = Some b.
Proof.
  assert (forall n, (length b <= n)%nat -> unbase64_groups (base64 b) = Some b) as H; [|by apply (H (length b))].
  intros n. revert b. induction n as [|n IH]; intros b Hn; [by destruct b; simpl in *; [|lia]|].
  destruct b as [|x [|y [|z b]]]; [done| | |].
  - pose proof (b64_group x "000" "000") as (H0 & H1 & _ & _ & E1 & _). cbn [base64 unbase64_groups]. change (byteZ "000") with 0%Z in *. rewrite !Z.mul_0_l, !Z.add_0_r in *.
    destruct (b64_digit_val _ H0) as (-> & _ & _), (b64_digit_val _ H1) as (-> & _ & _). cbn. by rewrite E1.
  - pose proof (b64_group x y "000") as (H0 & H1 & H2 & _ & E1 & E2 & _). cbn [base64 unbase64_groups]. change (byteZ "000") with 0%Z in *. rewrite !Z.add_0_r in *.
    destruct (b64_digit_val _ H0) as (-> & _ & _), (b64_digit_val _ H1) as (-> & _ & _), (b64_digit_val _ H2) as (V2 & P2 & _). cbn. rewrite P2, V2. cbn. by rewrite E1, E2.
  - destruct (b64_group x y z) as (H0 & H1 & H2 & H3 & E1 & E2 & E3). cbn [base64 unbase64_groups].
    destruct (b64_digit_val _ H0) as (-> & _ & _), (b64_digit_val _ H1) as (-> & _ & _), (b64_digit_val _ H2) as (V2 & P2 & _), (b64_digit_val _ H3) as (V3 & P3 & _).
    cbn. rewrite P2, V2. cbn. rewrite P3, V3. cbn. rewrite IH by (simpl in Hn; lia). cbn. by rewrite E1, E2, E3.
Qed.

Definition b64_char (c : Ascii.ascii) : Prop := is_break c = false.
Lemma base64_chars b : Forall b64_char (base64 b).
Proof.
  assert (forall n, (length b <= n)%nat -> Forall b64_char (base64 b)) as H; [|by apply (H (length b))].
  intros n. revert b. induction n as [|n IH]; intros b Hn; [by destruct b; simpl in *; [|lia]|].
  assert (forall v, (0 <= v < 64)%Z -> b64_char (b64_digit v)) as Hd by (intros v Hv; by destruct (b64_digit_val v Hv) as (_ & _ & ?)).
  destruct b as [|x [|y [|z b]]]; cbn [base64]; [done| | |].
  - pose proof (b64_group x "000" "000") as (H0 & H1 & _). change (byteZ "000") with 0%Z in *. rewrite !Z.mul_0_l, !Z.add_0_r in *. repeat constructor; auto.
  - pose proof (b64_group x y "000") as (H0 & H1 & H2 & _). change (byteZ "000") with 0%Z in *. rewrite !Z.add_0_r in *. repeat constructor; auto.
  - destruct (b64_group x y z) as (H0 & H1 & H2 & H3 & _). repeat constructor; auto. apply IH. simpl in Hn. lia.
Qed.

(** [DecodeString] gives back what [EncodeToString] was given. *)
Lemma unbase64_base64 b : unbase64 (base64 b) = Some b.
Proof.
  unfold unbase64. assert (List.filter (fun c => negb (is_break c)) (base64 b) = base64 b) as ->; [|apply unbase64_groups_base64].
  pose proof (base64_chars b) as H. induction H as [|c l Hc _ IH]; simpl; [done|]. unfold b64_char in Hc. rewrite Hc. simpl. by rewrite IH.
Qed.

Lemma base64_length b : length (base64 b) = (4 * ((length b + 2) / 3))%nat.
Proof.
  assert (forall n, (length b <= n)%nat -> length (base64 b) = (4 * ((length b + 2) / 3))%nat) as H; [|by apply (H (length b))].
  intros n. revert b. induction n as [|n IH]; intros b Hn; [by destruct b; simpl in *; [|lia]|].
  destruct b as [|x [|y [|z b]]]; try done. cbn [base64 length]. rewrite IH by (simpl in Hn; lia).
  replace (S (S (S (length b))) + 2)%nat with (1 * 3 + (length b + 2))%nat by lia. rewrite Nat.div_add_l by lia. lia.
Qed.
