(* ===== verification/Strconv.v ===== *)
(** * Numbers and spaces in text (Go's strconv and strings packages, as the code uses them) *)

From S2P Require Import Prelude Crypto.

(** ** Integers *)

Definition MaxInt64 : Z := 9223372036854775807.
Definition MinInt64 : Z := -9223372036854775808.

(** The value of a digit of base 10 or 16. *)
Definition digit_val (c : Ascii.ascii) : Z :=
  let z := byteZ c in
  if (48 <=? z)%Z && (z <=? 57)%Z then (z - 48)%Z
  else if (97 <=? z)%Z && (z <=? 122)%Z then (z - 87)%Z
  else if (65 <=? z)%Z && (z <=? 90)%Z then (z - 55)%Z
  else 99%Z.

Fixpoint digits_value (base acc : Z) (b : bytes) : option Z :=
  match b with
  | [] => Some acc
  | c :: b => if (digit_val c <? base)%Z then digits_value base (acc * base + digit_val c) b else None
  end.

(** [strconv.ParseUint(s, base, 64)] before its range check, [strconv.ParseInt(s, base, 64)]. *)
Definition parse_digits (base : Z) (b : bytes) : option Z := if bool_decide (b = []) then None else digits_value base 0 b.
Definition in_int64 (v : Z) : option Z := if (MinInt64 <=? v)%Z && (v <=? MaxInt64)%Z then Some v else None.
Definition ParseInt (base : Z) (b : bytes) : option Z :=
  match b with
  | "-"%char :: b => v ← parse_digits base b; in_int64 (- v)
  | "+"%char :: b => v ← parse_digits base b; in_int64 v
  | b => v ← parse_digits base b; in_int64 v
  end.

(** [strconv.FormatInt(v, base)] for [v >= 0]; a 64-bit value has at most 64 digits. *)
Fixpoint format_digits (fuel : nat) (base v : Z) (acc : bytes) : bytes :=
  match fuel with
  | O => acc
  | S fuel => let acc := hex_digit (v mod base) :: acc in if (v <? base)%Z then acc else format_digits fuel base (v / base) acc
  end.
Definition FormatInt (base v : Z) : bytes := if (v <? 0)%Z then "-"%char :: format_digits 64 base (- v) [] else format_digits 64 base v [].

Lemma hex_digit_val n : (0 <= n < 16)%Z -> digit_val (hex_digit n) = n.
Proof. intros Hn. apply Z.eqb_eq, (below 16 (fun n => digit_val (hex_digit n) =? n)%Z); [|done]. vm_compute. reflexivity. Qed.

Lemma format_digits_acc fuel base v acc : format_digits fuel base v acc = format_digits fuel base v [] ++ acc.
Proof.
  revert v acc. induction fuel as [|fuel IH]; intros v acc; simpl; [done|]. destruct (v <? base)%Z; [done|]. rewrite IH, (IH _ [_]), <- app_assoc. done.
Qed.

Lemma digits_value_app base acc b c : digits_value base acc (b ++ c) = digits_value base acc b ≫= fun a => digits_value base a c.
Proof. revert acc. induction b as [|x b IH]; intros acc; simpl; [done|]. destruct (_ <? _)%Z; [apply IH|done]. Qed.

Lemma format_digits_value fuel base v : (2 <= base <= 16)%Z -> (0 <= v < base ^ Z.of_nat fuel)%Z -> (0 < fuel)%nat ->
  digits_value base 0 (format_digits fuel base v []) = Some v /\ format_digits fuel base v [] <> [].
Proof.
  intros Hbase. revert v. induction fuel as [|fuel IH]; intros v Hv Hf; [lia|]. cbn [format_digits].
  pose proof (Z.mod_pos_bound v base ltac:(lia)) as Hm. destruct (Z.ltb_spec v base).
  - split; [|done]. cbn [digits_value]. rewrite hex_digit_val by lia. rewrite (proj2 (Z.ltb_lt _ _)) by lia. by rewrite Z.mul_0_l, Z.mod_small by lia.
  - rewrite format_digits_acc. destruct fuel as [|fuel]; [rewrite Z.pow_1_r in Hv; lia|].
    rewrite Nat2Z.inj_succ, Z.pow_succ_r in Hv by lia.
    destruct (IH (v / base)%Z) as [E Hne]; [split; [apply Z.div_pos; lia|apply Z.div_lt_upper_bound; lia]|lia|]. split; [|by destruct (format_digits _ _ _ _)].
    rewrite digits_value_app, E. cbn [digits_value mbind option_bind]. rewrite hex_digit_val by lia. rewrite (proj2 (Z.ltb_lt _ _)) by lia. f_equal.
    pose proof (Z.div_mod v base ltac:(lia)). lia.
Qed.

(** No digit is a sign. *)
Lemma digits_no_sign base b v : digits_value base 0 b = Some v -> (base <= 16)%Z -> match b with c :: _ => c <> "-"%char /\ c <> "+"%char | [] => True end.
Proof. destruct b as [|c b]; [done|]. simpl. intros H Hb. destruct (Z.ltb_spec (digit_val c) base) as [Hlt|]; [|done]. split; intros ->; change (99 < base)%Z in Hlt; lia. Qed.

Lemma format_nonneg base v : (0 <= v)%Z -> FormatInt base v = format_digits 64 base v [].
Proof. intros. unfold FormatInt. by rewrite (proj2 (Z.ltb_ge _ _)). Qed.

Lemma format_value base v : (2 <= base <= 16)%Z -> (0 <= v <= MaxInt64)%Z -> digits_value base 0 (FormatInt base v) = Some v /\ FormatInt base v <> [].
Proof.
  intros Hb Hv. rewrite format_nonneg by lia. apply format_digits_value; [done| |lia]. split; [lia|]. apply (Z.lt_le_trans _ (2 ^ Z.of_nat 64)).
  - unfold MaxInt64 in Hv. change (2 ^ Z.of_nat 64)%Z with 18446744073709551616%Z. lia.
  - apply Z.pow_le_mono_l. lia.
Qed.

(** [ParseInt] reads what [FormatInt] wrote. *)
Lemma ParseInt_FormatInt base v : (2 <= base <= 16)%Z -> (0 <= v <= MaxInt64)%Z -> ParseInt base (FormatInt base v) = Some v.
Proof.
  intros Hb Hv. destruct (format_value base v Hb Hv) as [E Hne]. pose proof (digits_no_sign _ _ _ E ltac:(lia)) as Hs.
  assert (parse_digits base (FormatInt base v) ≫= in_int64 = Some v) as Hp.
  { unfold parse_digits. rewrite bool_decide_false by done. rewrite E. cbn. unfold in_int64. unfold MinInt64, MaxInt64 in *. rewrite !(proj2 (Z.leb_le _ _)) by lia. done. }
  unfold ParseInt. destruct (FormatInt base v) as [|c b]; [done|]. destruct Hs as [H1 H2].
  destruct c as [[] [] [] [] [] [] [] []]; try exact Hp; done.
Qed.

(** Every byte of a number is a digit. *)
Lemma format_digits_hex fuel base v acc : (2 <= base <= 16)%Z -> (0 <= v)%Z -> Forall (fun c => lower_hex c = true) acc -> Forall (fun c => lower_hex c = true) (format_digits fuel base v acc).
Proof.
  intros Hb. revert v acc. induction fuel as [|fuel IH]; intros v acc Hv Ha; simpl; [done|]. pose proof (Z.mod_pos_bound v base ltac:(lia)).
  assert (Forall (fun c => lower_hex c = true) (hex_digit (v mod base) :: acc)) by (constructor; [apply hex_digit_lower; lia|done]).
  destruct (v <? base)%Z; [done|]. apply IH; [apply Z.div_pos; lia|done].
Qed.
Lemma FormatInt_hex base v : (2 <= base <= 16)%Z -> (0 <= v)%Z -> Forall (fun c => lower_hex c = true) (FormatInt base v).
Proof. intros. rewrite format_nonneg by done. apply format_digits_hex; done. Qed.
Lemma format_digits_length fuel base v acc : (length (format_digits fuel base v acc) <= fuel + length acc)%nat.
Proof. revert v acc. induction fuel as [|fuel IH]; intros v acc; simpl; [lia|]. destruct (v <? base)%Z; simpl; [lia|]. etrans; [apply IH|]. simpl. lia. Qed.

(** ** Spaces *)

(** [unicode.IsSpace] on the ASCII range, as [strings.TrimSpace] uses it. *)
Definition is_space (c : Ascii.ascii) : bool := let z := byteZ c in (9 <=? z)%Z && (z <=? 13)%Z || (z =? 32)%Z.

Fixpoint trim_left (f : Ascii.ascii -> bool) (b : bytes) : bytes :=
  match b with [] => [] | c :: b' => if f c then trim_left f b' else b end.
Definition trim (f : Ascii.ascii -> bool) (b : bytes) : bytes := reverse (trim_left f (reverse (trim_left f b))).

(** [bytes.TrimSpace] *)
Definition TrimSpace (b : bytes) : bytes := trim is_space b.

Lemma trim_left_none f b : match b with c :: _ => f c = false | [] => True end -> trim_left f b = b.
Proof. destruct b as [|c b]; simpl; [done|]. by intros ->. Qed.
Lemma trim_left_suffix f b : exists p, b = p ++ trim_left f b /\ Forall (fun c => f c = true) p.
Proof.
  induction b as [|c b (p & IH & Hp)]; simpl; [by exists []|]. destruct (f c) eqn:E; [|by exists []]. exists (c :: p). split; [simpl; by f_equal|by constructor].
Qed.
Lemma trim_none f b : Forall (fun c => f c = false) b -> trim f b = b.
Proof.
  intros H. unfold trim. assert (forall l, Forall (fun c => f c = false) l -> trim_left f l = l) as Hl by (intros [|c l] Hc; [done|]; apply trim_left_none; by apply Forall_cons in Hc as [? _]).
  rewrite (Hl b H), Hl; [apply reverse_involutive|]. by apply Forall_reverse.
Qed.

Lemma FormatInt_length base v : (length (FormatInt base v) <= 65)%nat.
Proof.
  unfold FormatInt. pose proof (format_digits_length 64 base (- v) []). pose proof (format_digits_length 64 base v []).
  generalize dependent (format_digits 64 base (- v) []). generalize dependent (format_digits 64 base v []). intros b Hb c Hc. destruct (v <? 0)%Z; simpl in *; lia.
Qed.
