(* ===== verification/Civil.v ===== *)
(** * UTC times in the two layouts of Signature V4 (Go's time package, as the code uses it)

    A [time.Time] in UTC is its calendar fields; its instant is the nanoseconds since 1970. *)

From S2P Require Import Prelude Crypto Strconv.

Record Time : Type := mkTime { tYear : Z; tMonth : Z; tDay : Z; tHour : Z; tMinute : Z; tSecond : Z; tNano : Z }.

#[export] Instance Time_eq_dec : EqDecision Time.
Proof. solve_decision. Defined.

Definition is_leap (y : Z) : bool := (y mod 4 =? 0)%Z && (negb (y mod 100 =? 0)%Z || (y mod 400 =? 0)%Z).
Definition days_in (y m : Z) : Z :=
  if (m =? 2)%Z then if is_leap y then 29 else 28
  else if bool_decide (m ∈ [4; 6; 9; 11]%Z) then 30 else 31.

(** A date and a time of day that exist, in a year of four digits. *)
Definition valid_date (t : Time) : bool :=
  (0 <=? tYear t)%Z && (tYear t <=? 9999)%Z && (1 <=? tMonth t)%Z && (tMonth t <=? 12)%Z && (1 <=? tDay t)%Z && (tDay t <=? days_in (tYear t) (tMonth t))%Z.
Definition valid_clock (t : Time) : bool :=
  (0 <=? tHour t)%Z && (tHour t <? 24)%Z && (0 <=? tMinute t)%Z && (tMinute t <? 60)%Z && (0 <=? tSecond t)%Z && (tSecond t <? 60)%Z.
Definition valid_time (t : Time) : bool := valid_date t && valid_clock t.

(** Days since 1970-01-01 of a date of the proleptic Gregorian calendar. *)
Definition days_from_civil (y m d : Z) : Z :=
  let y' := if (m <=? 2)%Z then (y - 1)%Z else y in
  let m' := if (m <=? 2)%Z then (m + 9)%Z else (m - 3)%Z in
  (365 * y' + y' / 4 - y' / 100 + y' / 400 + (153 * m' + 2) / 5 + d - 1 - 719468)%Z.

Definition UnixNano (t : Time) : Z :=
  ((((days_from_civil (tYear t) (tMonth t) (tDay t) * 24 + tHour t) * 60 + tMinute t) * 60 + tSecond t) * 1000000000 + tNano t)%Z.

Example unix_epoch : UnixNano (mkTime 1970 1 1 0 0 0 0) = 0%Z.
Proof. reflexivity. Qed.
Example unix_2013 : UnixNano (mkTime 2013 5 24 0 0 0 0) = (1369353600 * 1000000000)%Z.
Proof. vm_compute. reflexivity. Qed.
Example unix_leap : UnixNano (mkTime 2024 2 29 12 0 1 5) = (1709208001 * 1000000000 + 5)%Z.
Proof. vm_compute. reflexivity. Qed.

(** ** Formatting *)

Definition zero_pad (n : nat) (b : bytes) : bytes := repeat ("0"%char) (n - length b) ++ b.
Definition num (n : nat) (v : Z) : bytes := zero_pad n (FormatInt 10 v).

(** [t.Format("20060102")] and [t.Format("20060102T150405Z")]. *)
Definition formatDate (t : Time) : bytes := num 4 (tYear t) ++ num 2 (tMonth t) ++ num 2 (tDay t).
Definition formatTime (t : Time) : bytes :=
  formatDate t ++ "T"%char :: num 2 (tHour t) ++ num 2 (tMinute t) ++ num 2 (tSecond t) ++ ["Z"%char].

(** ** Parsing *)

Definition is_num (c : Ascii.ascii) : bool := in_range "0" "9" c.

(** A number of exactly [n] digits at the front. *)
Definition take_num (n : nat) (b : bytes) : option (Z * bytes) :=
  if (length b <? n)%nat || negb (forallb is_num (take n b)) then None else v ← digits_value 10 0 (take n b); Some (v, drop n b).

(** [time.Parse("20060102", s)] *)
Definition parse_date_prefix (b : bytes) : option (Time * bytes) :=
  '(y, b) ← take_num 4 b; '(m, b) ← take_num 2 b; '(d, b) ← take_num 2 b;
  let t := mkTime y m d 0 0 0 0 in
  if valid_date t then Some (t, b) else None.
Definition parseDate (b : bytes) : option Time :=
  '(t, b) ← parse_date_prefix b; if bool_decide (b = []) then Some t else None.

(** A fraction of a second is taken though the layout has none: a point or comma and digits, nine of
    which count. *)
Fixpoint span_num (b : bytes) : bytes * bytes :=
  match b with c :: b' => if is_num c then let '(x, y) := span_num b' in (c :: x, y) else ([], b) | [] => ([], []) end.
Definition parse_fraction (b : bytes) : Z * bytes :=
  match b with
  | p :: b' =>
      let '(ds, rest) := span_num b' in
      if bool_decide (p ∈ ["."; ","]%char) && negb (bool_decide (ds = [])) then
        (default 0%Z (digits_value 10 0 (take 9 ds)) * 10 ^ Z.of_nat (9 - length ds), rest)%Z
      else (0%Z, b)
  | [] => (0%Z, [])
  end.

(** [time.Parse("20060102T150405Z", s)] *)
Definition parseTime (b : bytes) : option Time :=
  '(t, b) ← parse_date_prefix b;
  match b with
  | "T"%char :: b =>
      '(h, b) ← take_num 2 b; '(mi, b) ← take_num 2 b; '(s, b) ← take_num 2 b;
      let '(ns, b) := parse_fraction b in
      let t := mkTime (tYear t) (tMonth t) (tDay t) h mi s ns in
      if valid_clock t && bool_decide (b = ["Z"%char]) then Some t else None
  | _ => None
  end.

Example parse_time_vector : parseTime (B "20130524T000000Z") = Some (mkTime 2013 5 24 0 0 0 0).
Proof. vm_compute. reflexivity. Qed.
Example parse_time_fraction : parseTime (B "20130524T235959.25Z") = Some (mkTime 2013 5 24 23 59 59 250000000).
Proof. vm_compute. reflexivity. Qed.
Example parse_time_bad : (parseTime (B "20130229T000000Z"), parseTime (B "20130524T240000Z"), parseDate (B "2013-5-24")) = (None, None, None).
Proof. vm_compute. reflexivity. Qed.

(** ** A time is read back as it was written *)

Lemma take_num_num (n : nat) v rest : (1 <= n <= 4)%nat -> (0 <= v < 10 ^ Z.of_nat n)%Z -> take_num n (num n v ++ rest) = Some (v, rest).
Proof.
  intros Hn Hv. assert (forall (n : nat) v, (1 <= n <= 4)%nat -> (0 <= v < 10 ^ Z.of_nat n)%Z -> take_num n (num n v) = Some (v, []) /\ length (num n v) = n) as H.
  { clear. intros n v Hn Hv.
    pose proof (below (Z.to_nat (10 ^ Z.of_nat n)) (fun v => match take_num n (num n v) with Some (w, r) => (w =? v)%Z && bool_decide (r = []) | None => false end && (length (num n v) =? n)%nat)) as H.
    rewrite Z2Nat.id in H by lia. specialize (H ltac:(destruct n as [|n]; [lia|]; do 4 (destruct n as [|n]; [vm_compute; reflexivity|]); lia) v Hv).
    apply andb_true_iff in H as [H1 H2%Nat.eqb_eq]. split; [|done]. destruct (take_num n (num n v)) as [[w r]|]; [|done].
    by apply andb_true_iff in H1 as [->%Z.eqb_eq ->%bool_decide_eq_true]. }
  destruct (H n v Hn Hv) as [E Hl]. unfold take_num in *. rewrite length_app, Hl. rewrite Hl, Nat.ltb_irrefl, take_ge, drop_ge in E by lia.
  rewrite (proj2 (Nat.ltb_ge (n + length rest) n)) by lia. rewrite take_app_length', drop_app_length' by done.
  simpl in *. destruct (negb (forallb is_num (num n v))); [done|]. destruct (digits_value 10 0 (num n v)); simpl in *; by simplify_eq.
Qed.

Lemma valid_date_bounds t : valid_date t = true -> (0 <= tYear t < 10 ^ Z.of_nat 4)%Z /\ (0 <= tMonth t < 10 ^ Z.of_nat 2)%Z /\ (0 <= tDay t < 10 ^ Z.of_nat 2)%Z.
Proof.
  unfold valid_date. rewrite !andb_true_iff, !Z.leb_le. intros [[[[[? ?] ?] ?] ?] Hd]. change (10 ^ Z.of_nat 4)%Z with 10000%Z. change (10 ^ Z.of_nat 2)%Z with 100%Z.
  assert (days_in (tYear t) (tMonth t) <= 31)%Z; [|lia]. unfold days_in. destruct (_ =? _)%Z; [destruct (is_leap _); lia|]. case_bool_decide; lia.
Qed.

Lemma parse_date_format t rest : valid_date t = true -> parse_date_prefix (formatDate t ++ rest) = Some (mkTime (tYear t) (tMonth t) (tDay t) 0 0 0 0, rest).
Proof.
  intros Hv. destruct (valid_date_bounds t Hv) as (Hy & Hm & Hd). unfold parse_date_prefix, formatDate. rewrite <- !app_assoc.
  rewrite take_num_num by (try done; lia). cbn. rewrite take_num_num by (try done; lia). cbn. rewrite take_num_num by (try done; lia). cbn.
  unfold valid_date in *. cbn. by rewrite Hv.
Qed.

Lemma parseDate_format t : valid_date t = true -> parseDate (formatDate t) = Some (mkTime (tYear t) (tMonth t) (tDay t) 0 0 0 0).
Proof. intros Hv. unfold parseDate. rewrite <- (app_nil_r (formatDate t)), parse_date_format by done. done. Qed.

Lemma parseTime_format t : valid_time t = true -> tNano t = 0%Z -> parseTime (formatTime t) = Some t.
Proof.
  unfold valid_time. intros [Hd Hc]%andb_true_iff Hn. unfold parseTime, formatTime. rewrite parse_date_format by done. cbn.
  assert ((0 <= tHour t < 10 ^ Z.of_nat 2)%Z /\ (0 <= tMinute t < 10 ^ Z.of_nat 2)%Z /\ (0 <= tSecond t < 10 ^ Z.of_nat 2)%Z) as (Hh & Hm & Hs).
  { change (10 ^ Z.of_nat 2)%Z with 100%Z. unfold valid_clock in Hc. rewrite !andb_true_iff, !Z.leb_le, !Z.ltb_lt in Hc. lia. }
  rewrite take_num_num by (try done; lia). cbn. rewrite take_num_num by (try done; lia). cbn. rewrite take_num_num by (try done; lia). cbn.
  unfold valid_clock in *. cbn. rewrite Hc. simpl. destruct t; simpl in *; by subst.
Qed.

Lemma formatDate_length t : valid_date t = true -> length (formatDate t) = 8%nat.
Proof.
  intros Hv. destruct (valid_date_bounds t Hv) as (Hy & Hm & Hd). unfold formatDate.
  assert (forall (n : nat) v, (1 <= n <= 4)%nat -> (0 <= v < 10 ^ Z.of_nat n)%Z -> length (num n v) = n) as Hl; [|rewrite !length_app, !Hl by (try done; lia); done].
  intros n v Hn Hr. pose proof (take_num_num n v [] Hn Hr) as E. rewrite app_nil_r in E. unfold take_num in E.
  destruct (_ || _) eqn:Eb; [done|]. destruct (digits_value _ _ _); simpl in E; [|done]. injection E as _ E. apply orb_false_iff in Eb as [Eb%Nat.ltb_ge _].
  apply (f_equal length) in E. rewrite length_drop in E. simpl in E. lia.
Qed.
