(* ===== verification/Chunked.v ===== *)
(** * Signed chunked bodies (internal/sigv4/chunked)

    A client may send its body as chunks, each with a signature over the chunk and the signature before
    it.  The reader takes the body in whatever pieces the connection delivers, checks each chunk as it
    ends, and hands out the data.  A piece may end anywhere: in a chunk, or in a header, which is then
    stashed until more arrives.  The client side that produces the framing is in the repository too. *)

From S2P Require Import Prelude Crypto Strconv Civil.

Inductive chunkErr : Type :=
| IncompleteBody | SignatureDoesNotMatch | MalformedTrailerError | BadDigest | InvalidTrailingChecksum | InvalidChunkSizeError
| errContentLengthMismatch | MissingContentLength | EntityTooLarge | errTrailerNotSupported.

#[export] Instance chunkErr_eq_dec : EqDecision chunkErr.
Proof. solve_decision. Defined.

Definition CRLF : bytes := B (String "013" (String "010" EmptyString)).
Definition LF : bytes := B (String "010" EmptyString).

(** ** Checksums *)

Definition checksumTypeCrc32 : string := "x-amz-checksum-crc32".
Definition checksumTypeCrc32c : string := "x-amz-checksum-crc32c".
Definition checksumTypeSha1 : string := "x-amz-checksum-sha1".
Definition checksumTypeSha256 : string := "x-amz-checksum-sha256".
Definition checksumTypeCrc64nvme : string := "x-amz-checksum-crc64nvme".

(** [getHasher]; the checksum of what was written. *)
Definition getHasher (ct : string) : option (bytes -> bytes) :=
  if bool_decide (ct = checksumTypeCrc32) then Some crc32_ieee
  else if bool_decide (ct = checksumTypeCrc32c) then Some crc32_castagnoli
  else if bool_decide (ct = checksumTypeCrc64nvme) then Some crc64_nvme
  else if bool_decide (ct = checksumTypeSha1) then Some sha1
  else if bool_decide (ct = checksumTypeSha256) then Some sha256
  else None.

(** [checksumLengths], by the type's whole name: the reader keys it by the upper-case suffix. *)
Definition checksumLengths (ct : string) : option nat :=
  if bool_decide (ct = checksumTypeCrc32) then Some 4%nat
  else if bool_decide (ct = checksumTypeCrc32c) then Some 4%nat
  else if bool_decide (ct = checksumTypeSha1) then Some 20%nat
  else if bool_decide (ct = checksumTypeSha256) then Some 32%nat
  else if bool_decide (ct = checksumTypeCrc64nvme) then Some 8%nat
  else None.

Definition isValid (ct : string) : bool := bool_decide (is_Some (checksumLengths ct)).

Definition isValidChecksum (checksum : bytes) (ct : string) : bool :=
  match checksumLengths ct with
  | Some want => match unbase64 checksum with Some b => (length b =? want)%nat | None => false end
  | None => false
  end.

(** ** Parsing a header *)

(** A read from the bytes at hand: a value and the rest, too few bytes, or the wrong ones. *)
Inductive rd (A : Type) : Type := RGot (a : A) (rest : bytes) | RShort | RBad (e : chunkErr).
Arguments RGot {A} a rest.
Arguments RShort {A}.
Arguments RBad {A} e.

Definition rd_bind {A B} (m : rd A) (k : A -> bytes -> rd B) : rd B :=
  match m with RGot a r => k a r | RShort => RShort | RBad e => RBad e end.

Definition readAndSkip (expected : bytes) (b : bytes) : rd unit :=
  if (length b <? length expected)%nat then RShort
  else if bool_decide (take (length expected) b = expected) then RGot tt (drop (length expected) b) else RBad IncompleteBody.
Fixpoint readAndTrim (delim : Ascii.ascii) (b : bytes) : rd bytes :=
  match b with
  | [] => RShort
  | c :: b => if bool_decide (c = delim) then RGot [] b else rd_bind (readAndTrim delim b) (fun s r => RGot (c :: s) r)
  end.
Definition readBytes (n : nat) (b : bytes) : rd bytes := if (length b <? n)%nat then RShort else RGot (take n b) (drop n b).

Definition minChunkSize : Z := 8192.
Definition maxHeaderSize : nat := 1024.

(** Every chunk but the last has at least [minChunkSize] bytes: checked when the next one comes. *)
Definition isValidChunkSize (sizes : list Z) (size : Z) : bool :=
  match last sizes with None => true | Some lastSize => (size =? 0)%Z || (minChunkSize <=? lastSize)%Z end.

Definition parseChunkSize (sizes : list Z) (b : bytes) : rd Z :=
  rd_bind (readAndTrim ";" b) (fun s r =>
    match ParseInt 16 s with
    | Some size => if (size <? 0)%Z then RBad IncompleteBody else if isValidChunkSize sizes size then RGot size r else RBad InvalidChunkSizeError
    | None => RBad IncompleteBody
    end).

Definition chunkSignature : bytes := B "chunk-signature=".
Definition trailerSignatureHeader : bytes := B "x-amz-trailer-signature:".

(** The trailer after the last chunk: the checksum and the trailer's signature. *)
Definition parse_trailer (trailer : string) (b : bytes) : rd (bytes * bytes) :=
  rd_bind (readAndTrim ":" b) (fun name b =>
  if negb (bool_decide (name = B trailer)) then RBad MalformedTrailerError else
  rd_bind (readAndTrim "013" b) (fun checksum b =>
  rd_bind (readAndSkip LF b) (fun _ b =>
  if negb (isValidChecksum checksum trailer) then RBad InvalidTrailingChecksum else
  rd_bind (readBytes 24 b) (fun pre b =>
  if negb (bool_decide (pre = trailerSignatureHeader)) then RBad IncompleteBody else
  rd_bind (readBytes 64 b) (fun sig b =>
  rd_bind (readAndSkip CRLF b) (fun _ b => RGot (checksum, sig) b)))))).

(** A header: its size and signature and, of the last chunk, its trailer, which an empty line ends. *)
Record header : Type := mkHeader { hdSize : Z; hdSig : bytes; hdTrailer : option (bytes * bytes) }.

Definition parse_header (first requireTrailer : bool) (trailer : string) (sizes : list Z) (b : bytes) : rd header :=
  rd_bind (if first then RGot tt b else readAndSkip CRLF b) (fun _ b =>
  rd_bind (parseChunkSize sizes b) (fun size b =>
  rd_bind (readAndSkip chunkSignature b) (fun _ b =>
  rd_bind (readBytes 64 b) (fun sig b =>
  rd_bind (readAndSkip CRLF b) (fun _ b =>
  if (size =? 0)%Z then
    rd_bind (if requireTrailer then rd_bind (parse_trailer trailer b) (fun t b => RGot (Some t) b) else RGot None b) (fun t b => RGot (mkHeader 0 sig t) b)
  else RGot (mkHeader size sig None) b))))).

(** [bytes.Index(b, "\r\n")]; -1 when there is none. *)
Fixpoint IndexCRLF (b : bytes) : Z :=
  match b with
  | [] => -1
  | c :: b' => if bool_decide (take 2 b = CRLF) then 0 else let i := IndexCRLF b' in if (i <? 0)%Z then -1 else (i + 1)%Z
  end.

(** ** The reader *)

Section reader.

(** What the reader is made with ([NewSignedChunkReader]), and never changes. *)
Context (signingKey region : bytes) (date : Time) (trailer : string) (requireTrailer : bool) (cLength : Z).

Record ChunkReader : Type := mkReader {
  crPrevSig : bytes;
  crParsedSig : bytes;
  crChunkDataLeft : Z;
  crTrailerSig : bytes;
  crParsedChecksum : bytes;
  crStash : option bytes;
  crChunkHash : bytes;
  crChecksumHash : option bytes;
  crEOF : bool;
  crFirst : bool;
  crChunkSizes : list Z;
  crDataRead : Z;
}.

(** A digest in progress is the bytes written to it. *)
Definition NewSignedChunkReader (seed : bytes) : ChunkReader :=
  mkReader seed [] 0 [] [] None [] (if bool_decide (trailer = "") then None else Some []) false true [] 0.

Definition set_sig (prev parsed : bytes) (cr : ChunkReader) : ChunkReader :=
  mkReader prev parsed (crChunkDataLeft cr) (crTrailerSig cr) (crParsedChecksum cr) (crStash cr) [] (crChecksumHash cr) (crEOF cr) (crFirst cr) (crChunkSizes cr) (crDataRead cr).
Definition set_parsed (sig : bytes) (cr : ChunkReader) : ChunkReader :=
  mkReader (crPrevSig cr) sig (crChunkDataLeft cr) (crTrailerSig cr) (crParsedChecksum cr) (crStash cr) (crChunkHash cr) (crChecksumHash cr) (crEOF cr) (crFirst cr) (crChunkSizes cr) (crDataRead cr).
Definition set_left (n : Z) (cr : ChunkReader) : ChunkReader :=
  mkReader (crPrevSig cr) (crParsedSig cr) n (crTrailerSig cr) (crParsedChecksum cr) (crStash cr) (crChunkHash cr) (crChecksumHash cr) (crEOF cr) (crFirst cr) (crChunkSizes cr) (crDataRead cr).
Definition set_stash (s : option bytes) (cr : ChunkReader) : ChunkReader :=
  mkReader (crPrevSig cr) (crParsedSig cr) (crChunkDataLeft cr) (crTrailerSig cr) (crParsedChecksum cr) s (crChunkHash cr) (crChecksumHash cr) (crEOF cr) (crFirst cr) (crChunkSizes cr) (crDataRead cr).
Definition set_trailer (t : option (bytes * bytes)) (cr : ChunkReader) : ChunkReader :=
  match t with
  | Some (sum, sig) => mkReader (crPrevSig cr) (crParsedSig cr) (crChunkDataLeft cr) sig sum (crStash cr) (crChunkHash cr) (crChecksumHash cr) (crEOF cr) (crFirst cr) (crChunkSizes cr) (crDataRead cr)
  | None => cr
  end.
Definition set_EOF (e : bool) (cr : ChunkReader) : ChunkReader :=
  mkReader (crPrevSig cr) (crParsedSig cr) (crChunkDataLeft cr) (crTrailerSig cr) (crParsedChecksum cr) (crStash cr) (crChunkHash cr) (crChecksumHash cr) e (crFirst cr) (crChunkSizes cr) (crDataRead cr).
Definition set_read (n : Z) (cr : ChunkReader) : ChunkReader :=
  mkReader (crPrevSig cr) (crParsedSig cr) (crChunkDataLeft cr) (crTrailerSig cr) (crParsedChecksum cr) (crStash cr) (crChunkHash cr) (crChecksumHash cr) (crEOF cr) (crFirst cr) (crChunkSizes cr) n.
Definition addChunkSize (n : Z) (cr : ChunkReader) : ChunkReader :=
  mkReader (crPrevSig cr) (crParsedSig cr) (crChunkDataLeft cr) (crTrailerSig cr) (crParsedChecksum cr) (crStash cr) (crChunkHash cr) (crChecksumHash cr) (crEOF cr) false (crChunkSizes cr ++ [n]) (crDataRead cr).

(** Data goes to the digest of its chunk and to the checksum of the body. *)
Definition write (b : bytes) (cr : ChunkReader) : ChunkReader :=
  mkReader (crPrevSig cr) (crParsedSig cr) (crChunkDataLeft cr) (crTrailerSig cr) (crParsedChecksum cr) (crStash cr) (crChunkHash cr ++ b) ((fun s => s ++ b) <$> crChecksumHash cr)
    (crEOF cr) (crFirst cr) (crChunkSizes cr) (crDataRead cr).

(** *** Signatures *)

Definition getStringToSignPrefix (algo : bytes) : bytes :=
  algo ++ LF ++ formatTime date ++ LF ++ formatDate date ++ B "/" ++ region ++ B "/s3/aws4_request".
Definition zeroLenSig : bytes := B "e3b0c44298fc1c149afbf4c8996fb92427ae41e4649b934ca495991b7852b855".

Definition getChunkStringToSign (prev chunk : bytes) : bytes :=
  getStringToSignPrefix (B "AWS4-HMAC-SHA256-PAYLOAD") ++ LF ++ prev ++ LF ++ zeroLenSig ++ LF ++ hex (sha256 chunk).
Definition getTrailerChunkStringToSign (prev checksum : bytes) : bytes :=
  getStringToSignPrefix (B "AWS4-HMAC-SHA256-TRAILER") ++ LF ++ prev ++ LF ++ hex (sha256 (B trailer ++ B ":" ++ checksum ++ LF)).

(** The signature of a chunk after the signature before it, and of the trailer. *)
Definition chunk_sig (prev chunk : bytes) : bytes := hex (hmac256 signingKey (getChunkStringToSign prev chunk)).
Definition trailer_sig (prev checksum : bytes) : bytes := hex (hmac256 signingKey (getTrailerChunkStringToSign prev checksum)).

Definition verifyTrailerSignature (cr : ChunkReader) : bool := bool_decide (trailer_sig (crPrevSig cr) (crParsedChecksum cr) = crTrailerSig cr).
Definition verifyChecksum (cr : ChunkReader) : bool :=
  match getHasher trailer, crChecksumHash cr with Some sum, Some b => bool_decide (base64 (sum b) = crParsedChecksum cr) | _, _ => false end.
Definition checkSignature (cr : ChunkReader) : ChunkReader * bool :=
  let sig := chunk_sig (crPrevSig cr) (crChunkHash cr) in
  if bool_decide (sig = crParsedSig cr) then (set_sig sig [] cr, true) else (set_sig sig (crParsedSig cr) cr, false).

(** *** Headers *)

Inductive headerRead : Type := HHeader (h : header) (offset : Z) | HSkip | HErr (e : chunkErr).

(** [handleRdrErr], [stashAndSkipHeader]: a header that is not all there is stashed, unless the body
    has ended. *)
Definition handleRdrErr (b : bytes) (cr : ChunkReader) : ChunkReader * headerRead :=
  if crEOF cr then (cr, HErr IncompleteBody) else (set_stash (Some b) cr, HSkip).

Definition parseChunkHeaderBytes (cr : ChunkReader) (p : bytes) : ChunkReader * headerRead :=
  let stash := default [] (crStash cr) in
  if (maxHeaderSize <? length stash)%nat then (cr, HErr IncompleteBody)
  else
    let b := stash ++ p in
    let cr := set_stash None cr in
    match parse_header (crFirst cr) requireTrailer trailer (crChunkSizes cr) b with
    | RShort => handleRdrErr b cr
    | RBad e => (cr, HErr e)
    | RGot h rest =>
        if (hdSize h =? 0)%Z then
          let cr := set_trailer (hdTrailer h) cr in
          match readAndSkip CRLF rest with RShort => handleRdrErr b cr | RBad e => (cr, HErr e) | RGot _ _ => (cr, HHeader h 0) end
        else (addChunkSize (hdSize h) cr, HHeader h (IndexCRLF (drop 2 b) + 4 - Z.of_nat (length stash)))
    end.

(** What is left of a piece once the headers are taken out of it, whether the body ended, or a
    slice out of range. *)
Inductive parsed : Type := PData (b : bytes) (eof : bool) | PErr (e : chunkErr) | PPanic.

Definition after (d : bytes) (r : parsed) : parsed := match r with PData b eof => PData (d ++ b) eof | r => r end.

(** [parseAndRemoveChunkInfo]; a chunk has at least one byte, so the rest of the piece shrinks. *)
Fixpoint parseAndRemove (fuel : nat) (cr : ChunkReader) (p : bytes) : ChunkReader * parsed :=
  match fuel with
  | O => (cr, PPanic)
  | S fuel =>
      let '(cr, ok) := if bool_decide (crParsedSig cr = []) then (cr, true) else checkSignature cr in
      if negb ok then (cr, PErr SignatureDoesNotMatch) else
      match parseChunkHeaderBytes cr p with
      | (cr, HErr e) => (cr, PErr e)
      | (cr, HSkip) => (set_left 0 cr, PData [] false)
      | (cr, HHeader h offset) =>
          let cr := set_parsed (hdSig h) cr in
          if (hdSize h =? 0)%Z then
            let '(cr, ok) := checkSignature (set_sig (crPrevSig cr) (crParsedSig cr) cr) in
            if negb ok then (cr, PErr SignatureDoesNotMatch)
            else if negb (bool_decide (trailer = "")) && negb (verifyChecksum cr) then (cr, PErr BadDigest)
            else if negb (bool_decide (trailer = "")) && negb (verifyTrailerSignature cr) then (cr, PErr SignatureDoesNotMatch)
            else (cr, PData [] true)
          else if (offset <? 0)%Z || (Z.of_nat (length p) <? offset)%Z then (cr, PPanic)
          else
            let p := drop (Z.to_nat offset) p in
            if (hdSize h <? Z.of_nat (length p))%Z then
              let d := take (Z.to_nat (hdSize h)) p in
              let '(cr, r) := parseAndRemove fuel (write d (set_left 0 cr)) (drop (Z.to_nat (hdSize h)) p) in (cr, after d r)
            else (write p (set_left (hdSize h - Z.of_nat (length p)) cr), PData p false)
      end
  end.
Definition parseAndRemoveChunkInfo (cr : ChunkReader) (p : bytes) : ChunkReader * parsed := parseAndRemove (S (length p)) cr p.

(** *** Reads *)

(** What the connection answered a read with: bytes, and whether the body ended, or another error. *)
Inductive pieceEnd : Type := More | Ended | Broken.
Definition piece : Type := bytes * pieceEnd.

(** What a [Read] returns: data, with or without [io.EOF]; an S3 error; the connection's error. *)
Inductive readResult : Type := Got (b : bytes) (eof : bool) | Fails (e : chunkErr) | FailsIO | Panics.

(** The end of a read of [b]: no more than the declared length, and all of it once the body ended. *)
Definition hand_out (b : bytes) (eof : bool) (cr : ChunkReader) : ChunkReader * readResult :=
  let n := (crDataRead cr + Z.of_nat (length b))%Z in
  if (cLength <? n)%Z then (cr, Fails errContentLengthMismatch)
  else
    let cr := set_read n cr in
    if crEOF cr && negb (cLength =? n)%Z then (cr, Fails errContentLengthMismatch) else (cr, Got b eof).

Definition Read (cr : ChunkReader) (pc : piece) : ChunkReader * readResult :=
  let '(p, e) := pc in
  match e with
  | Broken => (cr, FailsIO)
  | _ =>
      let cr := set_EOF (match e with Ended => true | _ => false end) cr in
      if (crChunkDataLeft cr <? Z.of_nat (length p))%Z then
        let d := take (Z.to_nat (crChunkDataLeft cr)) p in
        match parseAndRemoveChunkInfo (write d cr) (drop (Z.to_nat (crChunkDataLeft cr)) p) with
        | (cr, PErr e) => (cr, Fails e)
        | (cr, PPanic) => (cr, Panics)
        | (cr, PData b eof) => hand_out (d ++ b) eof cr
        end
      else
        let n := (crDataRead cr + Z.of_nat (length p))%Z in
        if (cLength <? n)%Z then (cr, Fails errContentLengthMismatch)
        else hand_out p (crEOF cr) (write p (set_left (crChunkDataLeft cr - Z.of_nat (length p)) cr))
  end.

(** The reads of a body piece by piece, until one does not return data alone. *)
Inductive runEnd : Type := RunEOF | RunMore | RunFails (e : chunkErr) | RunFailsIO | RunPanics.

Fixpoint run (cr : ChunkReader) (ps : list piece) : ChunkReader * bytes * runEnd :=
  match ps with
  | [] => (cr, [], RunMore)
  | pc :: ps =>
      match Read cr pc with
      | (cr, Got b true) => (cr, b, RunEOF)
      | (cr, Got b false) => let '(cr, d, e) := run cr ps in (cr, b ++ d, e)
      | (cr, Fails e) => (cr, [], RunFails e)
      | (cr, FailsIO) => (cr, [], RunFailsIO)
      | (cr, Panics) => (cr, [], RunPanics)
      end
  end.

End reader.

(** ** Runs *)

(** The published vectors of the protocol's documentation: the signing key, the date and the seed. *)
Definition aws_key : bytes :=
  let h k d := hmac256 k (B d) in h (h (h (h (B "AWS4wJalrXUtnFEMI/K7MDENG/bPxRfiCYEXAMPLEKEY") "20130524") "us-east-1") "s3") "aws4_request".
Definition aws_date : Time := mkTime 2013 5 24 0 0 0 0.
Definition aws_seed : bytes := B "4f232c4386841ef735655705268965c44a0e4690baa4adea153f7db9fa80a0a9".

Example aws_chunk2 : S_ (chunk_sig aws_key (B "us-east-1") aws_date (B "ad80c730a21e5b8d04586a2213dd63b9a0e99e0e2307b0ade35a65485a288648") (repeat "a"%char 1024)) =
  "0055627c9e194cb4542bae2aa5492e3c1575bbb81b612b7d234b86a503ef5497".
Proof. vm_compute. reflexivity. Qed.

Definition forged_header : bytes := B "5;chunk-signature=" ++ repeat "0"%char 64 ++ CRLF.
Definition run_aws (cLength : Z) (ps : list piece) : bytes * runEnd :=
  let '(_, d, e) := run aws_key (B "us-east-1") aws_date "" false cLength (NewSignedChunkReader "" aws_seed) ps in (d, e).

Example truncated : run_aws 5 [(forged_header ++ B "hello", More); ([], Ended)] = (B "hello", RunEOF).
Proof. vm_compute. reflexivity. Qed.
Example negative_slice : run_aws 5 [(B "5;chunk-signature=" ++ CRLF ++ repeat "0"%char 40, More); (repeat "0"%char 22 ++ CRLF ++ B "hello", More)] = ([], RunPanics).
Proof. vm_compute. reflexivity. Qed.
