(* ===== verification/ChunkEncode.v ===== *)
(** * The encoders of chunked bodies (internal/sigv4/chunked/encoder.go, signed_encoder.go)

    [Encoder] re-frames a decoded body for a backend, with its checksum as an unsigned trailer;
    [SignedEncoder] is the client side of the framing the reader of Chunked takes.  Both fill one frame
    at a time from their source and hand it out as the caller's buffer allows. *)

From S2P Require Import Prelude Crypto Strconv Civil Chunked.

(** ** Sources *)

(** A source is the bytes it will give and how it ends. *)
Inductive srcEnd : Type := SrcEOF | SrcErr (e : chunkErr).
Record source : Type := mkSource { srcBytes : bytes; srcEnds : srcEnd }.

Inductive readErr : Type := EOF | UnexpectedEOF | SrcFailed (e : chunkErr).

(** [io.ReadFull] of [n] bytes. *)
Definition ReadFull (n : nat) (s : source) : bytes * option readErr * source :=
  let got := take n (srcBytes s) in
  (got,
   if (length got =? n)%nat then None
   else Some (match srcEnds s with SrcErr e => SrcFailed e | SrcEOF => if bool_decide (got = []) then EOF else UnexpectedEOF end),
   mkSource (drop n (srcBytes s)) (srcEnds s)).

Inductive encErr : Type := SourceShort | SourceLong | SourceErr (e : chunkErr).

(** [drain]: the source must be at its end. *)
Definition drain (s : source) : option encErr :=
  if bool_decide (srcBytes s = []) then match srcEnds s with SrcEOF => None | SrcErr e => Some (SourceErr e) end else Some SourceLong.

Definition DefaultChunkSize : Z := 65536.

(** ** The unsigned encoder *)

Section encoder.

(** The trailer's name and the checksum it has once the source has ended. *)
Context (name : bytes) (Checksum : bytes) (chunkSize : nat).

Record Encoder : Type := mkEncoder { enSrc : source; enRemaining : Z; enPending : bytes; enSrcEOF : bool; enFinalDone : bool }.

Definition NewEncoder (src : source) (decodedLen : Z) : Encoder := mkEncoder src decodedLen [] false false.

Definition frame (d : bytes) : bytes := FormatInt 16 (Z.of_nat (length d)) ++ CRLF ++ d ++ CRLF.
Definition final_frame : bytes := B "0" ++ CRLF ++ name ++ B ":" ++ Checksum ++ CRLF ++ CRLF.
Definition emit_final (e : Encoder) : Encoder := mkEncoder (enSrc e) (enRemaining e) final_frame (enSrcEOF e) true.

Definition fill (e : Encoder) : result encErr Encoder :=
  if enSrcEOF e then Ok (emit_final e)
  else
    let want := if (0 <=? enRemaining e)%Z && (enRemaining e <? Z.of_nat chunkSize)%Z then Z.to_nat (enRemaining e) else chunkSize in
    let '(got, err, src) := ReadFull want (enSrc e) in
    let n := length got in
    let remaining := if (0 <? n)%nat then (enRemaining e - Z.of_nat n)%Z else enRemaining e in
    let pending := if (0 <? n)%nat then frame got else enPending e in
    ended ← match err with
    | None => if (remaining =? 0)%Z then match drain src with Some de => Err de | None => Ok true end else Ok (enSrcEOF e)
    | Some (SrcFailed ce) => Err (SourceErr ce)
    | Some _ => if (0 <? remaining)%Z then Err SourceShort else Ok true
    end;
    let e := mkEncoder src remaining pending ended (enFinalDone e) in
    if (0 <? n)%nat then Ok e else Ok (emit_final e).

(** [Encoder.Read] of a buffer of [n] bytes; the code's loop fills at most once more than it hands out. *)
Inductive encRead : Type := EncGot (b : bytes) | EncEOF | EncErr (e : encErr).
Fixpoint encoder_read (fuel : nat) (n : nat) (e : Encoder) : Encoder * encRead :=
  if bool_decide (enPending e = []) then
    if enFinalDone e then (e, EncEOF)
    else match fuel with
         | O => (e, EncEOF)
         | S fuel => match fill e with Ok e => encoder_read fuel n e | Err er => (e, EncErr er) end
         end
  else (mkEncoder (enSrc e) (enRemaining e) (drop n (enPending e)) (enSrcEOF e) (enFinalDone e), EncGot (take n (enPending e))).
Definition Encoder_Read (n : nat) (e : Encoder) : Encoder * encRead := encoder_read 2 n e.

(** Reads with buffers of the given sizes, until the end or an error. *)
Inductive encEnd : Type := EncRunEOF | EncRunMore | EncRunErr (e : encErr).
Fixpoint encoder_run (sizes : list nat) (e : Encoder) : bytes * encEnd :=
  match sizes with
  | [] => ([], EncRunMore)
  | n :: sizes =>
      match Encoder_Read n e with
      | (e, EncGot b) => let '(d, r) := encoder_run sizes e in (b ++ d, r)
      | (_, EncEOF) => ([], EncRunEOF)
      | (_, EncErr er) => ([], EncRunErr er)
      end
  end.

End encoder.

(** [hexLen], [EncodedLength], [Base64Len]; [chunkSize] is the given one or the default. *)
Definition hexLen (v : Z) : Z := Z.of_nat (length (FormatInt 16 v)).
Definition chunk_size (chunkSize : Z) : Z := if (chunkSize <=? 0)%Z then DefaultChunkSize else chunkSize.
Definition EncodedLength (decodedLen chunkSize nameLen checksumLen : Z) : Z :=
  let c := chunk_size chunkSize in
  let full := (Z.quot decodedLen c)%Z in
  let rest := (Z.rem decodedLen c)%Z in
  (full * (hexLen c + 2 + c + 2) + (if (0 <? rest)%Z then hexLen rest + 2 + rest + 2 else 0) + (3 + nameLen + 1 + checksumLen + 2 + 2))%Z.
Definition Base64Len (ct : string) : Z := match checksumLengths ct with Some n => Z.of_nat (4 * ((n + 2) / 3)) | None => 0 end.

(** ** The signed encoder *)

Section signed.

Context (signingKey region : bytes) (date : Time) (trailer : string) (chunkSize : nat).

(** [seDone]: the source has ended; [seSum]: what the trailer's checksum was given. *)
Record SignedEncoder : Type := mkSigned { seSrc : source; sePrevSig : bytes; sePending : bytes; seDone : bool; seFinal : bool; seSum : bytes }.

Definition NewSignedEncoder (src : source) (seed : bytes) : SignedEncoder := mkSigned src seed [] false false [].

(** [SignedEncoder.chunkSig]: the prefix ends its scope line, and the hash of nothing is computed. *)
Definition prefix_of (algo : bytes) : bytes := algo ++ LF ++ formatTime date ++ LF ++ (formatDate date ++ B "/" ++ region ++ B "/s3/aws4_request") ++ LF.
Definition chunkSig (prev d : bytes) : bytes :=
  hex (hmac256 signingKey (prefix_of (B "AWS4-HMAC-SHA256-PAYLOAD") ++ prev ++ LF ++ hex (sha256 []) ++ LF ++ hex (sha256 d))).
Definition trailerSig (prev line : bytes) : bytes :=
  hex (hmac256 signingKey (prefix_of (B "AWS4-HMAC-SHA256-TRAILER") ++ prev ++ LF ++ hex (sha256 line))).

(** The frame of a chunk, and the last frame with its trailer. *)
Definition chunk_head (size : Z) (sig : bytes) : bytes := FormatInt 16 size ++ B ";chunk-signature=" ++ sig ++ CRLF.
Definition trailer_value (sum : bytes) : bytes := match getHasher trailer with Some h => base64 (h sum) | None => [] end.
Definition last_frame (prev sum : bytes) : bytes :=
  let sig := chunkSig prev [] in
  B "0;chunk-signature=" ++ sig ++ CRLF ++
  (if bool_decide (trailer = "") then []
   else B trailer ++ B ":" ++ trailer_value sum ++ CRLF ++
        B "x-amz-trailer-signature:" ++ trailerSig sig (B trailer ++ B ":" ++ trailer_value sum ++ LF) ++ CRLF) ++ CRLF.

Definition signed_fill (e : SignedEncoder) : result chunkErr SignedEncoder :=
  let final (e : SignedEncoder) := mkSigned (seSrc e) (chunkSig (sePrevSig e) []) (last_frame (sePrevSig e) (seSum e)) (seDone e) true (seSum e) in
  if seDone e then Ok (final e)
  else
    let '(d, err, src) := ReadFull chunkSize (seSrc e) in
    let n := length d in
    let sig := chunkSig (sePrevSig e) d in
    let e := if (0 <? n)%nat then mkSigned src sig (chunk_head (Z.of_nat n) sig ++ d ++ CRLF) (seDone e) (seFinal e) (seSum e ++ d)
             else mkSigned src (sePrevSig e) (sePending e) (seDone e) (seFinal e) (seSum e) in
    e ← match err with
    | Some (SrcFailed ce) => Err ce
    | Some _ => Ok (mkSigned (seSrc e) (sePrevSig e) (sePending e) true (seFinal e) (seSum e))
    | None => Ok e
    end;
    if (0 <? n)%nat then Ok e else Ok (final e).

(** Everything the encoder writes: each frame it fills, with enough fuel for the source's chunks. *)
Fixpoint signed_all (fuel : nat) (e : SignedEncoder) : bytes :=
  match fuel with
  | O => []
  | S fuel => if seFinal e then [] else match signed_fill e with Ok e' => sePending e' ++ signed_all fuel e' | Err _ => [] end
  end.

End signed.

(** [SignedEncodedLength] *)
Definition SignedEncodedLength (decodedLen chunkSize trailerLen checksumLen : Z) : Z :=
  let sigOverhead := (17 + 64 + 2)%Z in
  let c := chunk_size chunkSize in
  let full := (Z.quot decodedLen c)%Z in
  let rest := (Z.rem decodedLen c)%Z in
  (full * (hexLen c + sigOverhead + c + 2) + (if (0 <? rest)%Z then hexLen rest + sigOverhead + rest + 2 else 0) + (1 + sigOverhead) +
   (if (trailerLen =? 0)%Z then 0 else trailerLen + 1 + checksumLen + 2 + (24 + 64 + 2)) + 2)%Z.
