(* ===== verification/ChunkedSafe.v ===== *)
(** * What the signed reader delivers (internal/sigv4/chunked)

    A body the client side framed is decoded to its data however the connection splits it, with its
    checksum; and what the reader delivers is authenticated chunk by chunk, up to the chunk in progress. *)

From S2P Require Import Prelude Crypto Strconv Civil Chunked ChunkEncode.

(** ** Readers of a known prefix *)

(** [f] takes exactly [H] from the front of its input to give [a], and asks for more while it has less. *)
Definition reads {A} (f : bytes -> rd A) (H : bytes) (a : A) : Prop :=
  (forall r, f (H ++ r) = RGot a r) /\ (forall p q, H = p ++ q -> q <> [] -> f p = RShort).

Lemma app_split {A} (p q u v : list A) : p ++ q = u ++ v -> (exists w, u = p ++ w /\ w <> [] /\ q = w ++ v) \/ (exists w, p = u ++ w /\ v = w ++ q).
Proof.
  revert u. induction p as [|x p IH]; intros u E; simpl in E.
  - destruct u as [|y u]; [by right; exists []|]. left. exists (y :: u). by rewrite E.
  - destruct u as [|y u]; simpl in E; [right; exists (x :: p); by rewrite <- E|]. injection E as -> E.
    destruct (IH _ E) as [(w & -> & Hw & ->)|(w & -> & ->)]; [left|right]; by exists w.
Qed.

Lemma reads_bind {A C} (m : bytes -> rd A) (k : A -> bytes -> rd C) H1 H2 a c :
  reads m H1 a -> reads (k a) H2 c -> reads (fun b => rd_bind (m b) k) (H1 ++ H2) c.
Proof.
  intros [M1 M2] [K1 K2]. split; [intros r; rewrite <- app_assoc, M1; simpl; apply K1|]. intros p q E Hq.
  destruct (app_split _ _ _ _ (eq_sym E)) as [(w & -> & Hw & _)|(w & -> & ->)].
  - by rewrite (M2 p w).
  - rewrite M1. simpl. by apply (K2 w q).
Qed.

Lemma reads_ret {A} (a : A) : reads (fun b => RGot a b) [] a.
Proof. split; [done|]. intros p q E Hq. by destruct p, q. Qed.

Lemma reads_ext {A} (f g : bytes -> rd A) H a : (forall b, f b = g b) -> reads f H a -> reads g H a.
Proof. intros E [R1 R2]. split; intros; rewrite <- E; eauto. Qed.

Lemma reads_skip exp : reads (readAndSkip exp) exp tt.
Proof.
  unfold readAndSkip. split.
  - intros r. rewrite length_app, (proj2 (Nat.ltb_ge _ _)) by lia. by rewrite take_app_length, drop_app_length, bool_decide_true.
  - intros p q -> Hq. rewrite length_app. destruct q; [done|]. by rewrite (proj2 (Nat.ltb_lt _ _)) by (simpl; lia).
Qed.

Lemma reads_trim d s : Forall (fun c => c <> d) s -> reads (readAndTrim d) (s ++ [d]) s.
Proof.
  induction 1 as [|c s Hc _ [R1 R2]].
  - split; [intros r; simpl; by rewrite bool_decide_true|]. intros [|c p] [|x q] E Hq; simpl in *; try done. by injection E as _ E; destruct p.
  - split; [intros r; simpl; rewrite bool_decide_false by done; by rewrite R1|]. intros [|x p] q E Hq; [done|]. simpl in E. injection E as <- E.
    simpl. rewrite bool_decide_false by done. by rewrite (R2 p q).
Qed.

Lemma reads_bytes n s : length s = n -> reads (readBytes n) s s.
Proof.
  intros <-. unfold readBytes. split.
  - intros r. rewrite length_app, (proj2 (Nat.ltb_ge _ _)) by lia. by rewrite take_app_length, drop_app_length.
  - intros p q -> Hq. rewrite length_app. destruct q; [done|]. by rewrite (proj2 (Nat.ltb_lt _ _)) by (simpl; lia).
Qed.

(** A step that checks what was read, when the check passes. *)
Lemma reads_check {A} (c : bool) e (f : bytes -> rd A) H a : c = false -> reads f H a -> reads (fun b => if c then RBad e else f b) H a.
Proof. by intros ->. Qed.

(** ** Bytes of headers *)

Lemma lower_hex_ne c d : lower_hex c = true -> lower_hex d = false -> c <> d.
Proof. by intros H1 H2 ->; rewrite H1 in H2. Qed.
Lemma hex_no (d : Ascii.ascii) b : lower_hex d = false -> Forall (fun c => lower_hex c = true) b -> Forall (fun c => c <> d) b.
Proof. intros Hd Hb. eapply Forall_impl; [exact Hb|]. intros c Hc. by apply (lower_hex_ne c d). Qed.

Lemma getHasher_length ct h b : getHasher ct = Some h -> exists n, checksumLengths ct = Some n /\ length (h b) = n.
Proof.
  unfold getHasher, checksumLengths. repeat case_bool_decide; subst; try done; intros [= <-]; eexists; (split; [reflexivity|]); try done; [apply sha1_length|apply sha256_length].
Qed.
Lemma getHasher_name ct h : getHasher ct = Some h -> Forall (fun c => c <> ":"%char) (B ct) /\ (length (B ct) <= 24)%nat /\ ct <> "".
Proof.
  unfold getHasher. repeat case_bool_decide; subst; try done; intros _; (split; [apply (bool_decide_unpack _); vm_compute; exact I|split; [apply (bool_decide_unpack _); vm_compute; exact I|done]]).
Qed.

Lemma valid_base64 ct h b : getHasher ct = Some h -> isValidChecksum (base64 (h b)) ct = true.
Proof.
  intros Hh. destruct (getHasher_length ct h b Hh) as (n & Hn & Hl). unfold isValidChecksum. rewrite Hn, unbase64_base64. by apply Nat.eqb_eq.
Qed.

Lemma IndexCRLF_app m r : Forall (fun c => c <> "013"%char) m -> IndexCRLF (m ++ CRLF ++ r) = Z.of_nat (length m).
Proof.
  induction 1 as [|c m Hc _ IH]; [done|]. change ((c :: m) ++ CRLF ++ r) with (c :: (m ++ CRLF ++ r)). cbn [IndexCRLF].
  rewrite bool_decide_false; [|simpl; by intros [= ->]]. rewrite IH. rewrite (proj2 (Z.ltb_ge _ _)) by lia. simpl length. lia.
Qed.

Section signed.

Context (signingKey region : bytes) (date : Time) (trailer : string).

Notation req := (negb (bool_decide (trailer = ""))).
Notation chunk_sig := (chunk_sig signingKey region date).
Notation chunkSig := (chunkSig signingKey region date).
Notation last_frame := (last_frame signingKey region date trailer).

Lemma chunk_sig_length prev d : length (chunk_sig prev d) = 64%nat.
Proof. unfold Chunked.chunk_sig. by rewrite hex_length, hmac256_length. Qed.
Lemma chunk_sig_hex prev d : Forall (fun c => lower_hex c = true) (chunk_sig prev d).
Proof. apply hex_lower. Qed.

(** The reader and the client's encoder sign the same strings. *)
Lemma zeroLenSig_hash : hex (sha256 []) = zeroLenSig.
Proof. vm_compute. reflexivity. Qed.
Lemma chunkSig_eq prev d : chunkSig prev d = chunk_sig prev d.
Proof.
  unfold ChunkEncode.chunkSig, Chunked.chunk_sig, prefix_of, getChunkStringToSign, getStringToSignPrefix. rewrite zeroLenSig_hash. by rewrite <- !app_assoc.
Qed.
Lemma trailerSig_eq prev sum :
  trailerSig signingKey region date prev (B trailer ++ B ":" ++ sum ++ LF) = trailer_sig signingKey region date trailer prev sum.
Proof. unfold trailerSig, trailer_sig, prefix_of, getTrailerChunkStringToSign, getStringToSignPrefix. by rewrite <- !app_assoc. Qed.

(** *** The wire *)

(** The frames of the chunks left, after the signature [prev] and the data [sum]. *)
Fixpoint wire_tail (prev sum : bytes) (cs : list bytes) : bytes :=
  match cs with
  | [] => last_frame prev sum
  | c :: cs => let sig := chunk_sig prev c in chunk_head (Z.of_nat (length c)) sig ++ c ++ CRLF ++ wire_tail sig (sum ++ c) cs
  end.

(** The end of the data before a header is read as part of it. *)
Definition lead (first : bool) : bytes := if first then [] else CRLF.

(** What the next header takes, and what it says. *)
Definition trailer_bytes (prev sum : bytes) : bytes :=
  if bool_decide (trailer = "") then []
  else B trailer ++ B ":" ++ trailer_value trailer sum ++ CRLF ++ trailerSignatureHeader ++ trailer_sig signingKey region date trailer (chunk_sig prev []) (trailer_value trailer sum) ++ CRLF.
Definition the_header (prev sum : bytes) (cs : list bytes) : header :=
  match cs with
  | [] => mkHeader 0 (chunk_sig prev []) (if bool_decide (trailer = "") then None
            else Some (trailer_value trailer sum, trailer_sig signingKey region date trailer (chunk_sig prev []) (trailer_value trailer sum)))
  | c :: _ => mkHeader (Z.of_nat (length c)) (chunk_sig prev c) None
  end.
Definition head_bytes (first : bool) (prev sum : bytes) (cs : list bytes) : bytes :=
  lead first ++ match cs with
  | [] => chunk_head 0 (chunk_sig prev []) ++ trailer_bytes prev sum
  | c :: _ => chunk_head (Z.of_nat (length c)) (chunk_sig prev c)
  end.
(** What follows it. *)
Definition after_head (prev sum : bytes) (cs : list bytes) : bytes :=
  match cs with [] => CRLF | c :: cs => c ++ CRLF ++ wire_tail (chunk_sig prev c) (sum ++ c) cs end.

Lemma wire_split first prev sum cs : lead first ++ wire_tail prev sum cs = head_bytes first prev sum cs ++ after_head prev sum cs.
Proof.
  unfold head_bytes. rewrite <- app_assoc. f_equal. destruct cs as [|c cs]; simpl; [|done]. unfold ChunkEncode.last_frame, chunk_head, trailer_bytes, trailerSignatureHeader.
  rewrite !chunkSig_eq. change (FormatInt 16 0) with (B "0"). change (B "0;chunk-signature=") with (B "0" ++ B ";chunk-signature=").
  rewrite <- !app_assoc. do 4 f_equal. case_bool_decide; [done|]. rewrite trailerSig_eq. by rewrite <- !app_assoc.
Qed.

(** *** Reading a header *)

Context (Htrailer : trailer = "" \/ is_Some (getHasher trailer)).

Definition prev_ok (sizes : list Z) : bool := match last sizes with None => true | Some s => (minChunkSize <=? s)%Z end.

(** Chunks a client may send: each of at least one byte, all but the last of at least [minChunkSize]. *)
Fixpoint chunks_ok (ok : bool) (cs : list bytes) : Prop :=
  match cs with
  | [] => True
  | c :: cs => ok = true /\ (0 < Z.of_nat (length c) <= MaxInt64)%Z /\ chunks_ok (minChunkSize <=? Z.of_nat (length c))%Z cs
  end.

Lemma reads_size sizes size : (0 <= size <= MaxInt64)%Z -> size = 0%Z \/ prev_ok sizes = true -> reads (parseChunkSize sizes) (FormatInt 16 size ++ [";"%char]) size.
Proof.
  intros Hs Hok. unfold parseChunkSize. rewrite <- (app_nil_r (FormatInt 16 size ++ [";"%char])). eapply reads_bind; [apply reads_trim, hex_no; [done|apply FormatInt_hex; lia]|].
  rewrite ParseInt_FormatInt by lia. rewrite (proj2 (Z.ltb_ge _ _)) by lia. assert (isValidChunkSize sizes size = true) as ->; [|apply reads_ret].
  unfold isValidChunkSize. unfold prev_ok in Hok. destruct (last sizes); [|done]. destruct Hok as [->| ->]; [done|apply orb_true_r].
Qed.

Lemma reads_trailer prev sum : trailer <> "" -> reads (parse_trailer trailer) (trailer_bytes prev sum)
  (trailer_value trailer sum, trailer_sig signingKey region date trailer (chunk_sig prev []) (trailer_value trailer sum)).
Proof.
  intros Hne. destruct Htrailer as [?|[h Hh]]; [done|]. unfold trailer_bytes. rewrite bool_decide_false by done. unfold trailer_value. rewrite Hh.
  destruct (getHasher_name _ _ Hh) as (Hname & _ & _). unfold parse_trailer. rewrite (app_assoc (B trailer)). eapply reads_bind; [by apply reads_trim|].
  apply reads_check; [by rewrite bool_decide_true|]. change CRLF with (["013"%char] ++ LF) at 1. rewrite <- (app_assoc ["013"%char] LF), (app_assoc _ ["013"%char]). eapply reads_bind.
  { apply reads_trim. eapply Forall_impl; [apply base64_chars|]. intros c Hc ->. by vm_compute in Hc. }
  eapply reads_bind; [apply reads_skip|]. apply reads_check; [by rewrite (valid_base64 _ h)|].
  eapply reads_bind; [by apply reads_bytes|]. apply reads_check; [by rewrite bool_decide_true|].
  eapply reads_bind; [apply reads_bytes; unfold trailer_sig; by rewrite hex_length, hmac256_length|].
  rewrite <- (app_nil_r CRLF). eapply reads_bind; [apply reads_skip|apply reads_ret].
Qed.

Lemma reads_header first sizes prev sum cs : chunks_ok (prev_ok sizes) cs -> reads (parse_header first req trailer sizes) (head_bytes first prev sum cs) (the_header prev sum cs).
Proof.
  intros Hok. unfold parse_header, head_bytes. eapply reads_bind; [destruct first; [apply reads_ret|apply reads_skip]|].
  set (size := match cs with [] => 0%Z | c :: _ => Z.of_nat (length c) end). set (d := match cs with [] => [] | c :: _ => c end).
  set (tl := match cs with [] => trailer_bytes prev sum | _ => [] end).
  assert (match cs with [] => chunk_head 0 (chunk_sig prev []) ++ trailer_bytes prev sum | c :: _ => chunk_head (Z.of_nat (length c)) (chunk_sig prev c) end
    = (FormatInt 16 size ++ [";"%char]) ++ chunkSignature ++ chunk_sig prev d ++ CRLF ++ tl) as ->.
  { unfold chunk_head. change (B ";chunk-signature=") with ([";"%char] ++ chunkSignature). destruct cs; unfold size, d, tl; rewrite <- !app_assoc; [done|]. by rewrite app_nil_r. }
  assert ((0 <= size <= MaxInt64)%Z /\ (size = 0%Z \/ prev_ok sizes = true)) as [Hs Hp].
  { destruct cs as [|c cs]; simpl in Hok; unfold size; [unfold MaxInt64; split; [lia|by left]|]. destruct Hok as (-> & ? & _). split; [lia|by right]. }
  eapply reads_bind; [by apply reads_size|]. eapply reads_bind; [apply reads_skip|]. eapply reads_bind; [apply reads_bytes, chunk_sig_length|].
  eapply reads_bind; [apply reads_skip|]. destruct cs as [|c cs]; unfold size, tl, d; simpl.
  - rewrite <- (app_nil_r (trailer_bytes prev sum)). eapply reads_bind; [|apply reads_ret]. destruct (decide (trailer = "")) as [Ht|Ht].
    + rewrite bool_decide_true by done. simpl. unfold trailer_bytes. rewrite bool_decide_true by done. apply reads_ret.
    + rewrite bool_decide_false by done. simpl. rewrite <- (app_nil_r (trailer_bytes prev sum)). eapply reads_bind; [by apply reads_trailer|apply reads_ret].
  - simpl in Hok. destruct Hok as (_ & Hc & _). rewrite (proj2 (Z.eqb_neq _ _)) by lia. apply reads_ret.
Qed.

Lemma head_length first prev sum cs : (length (head_bytes first prev sum cs) + 2 <= maxHeaderSize)%nat.
Proof.
  assert (forall s sig, length sig = 64%nat -> (length (chunk_head s sig) <= 65 + 17 + 64 + 2)%nat) as Hh.
  { intros s sig Hs. unfold chunk_head. rewrite !length_app, Hs. pose proof (FormatInt_length 16 s). change (length (B ";chunk-signature=")) with 17%nat. change (length CRLF) with 2%nat. lia. }
  assert (length (trailer_bytes prev sum) <= 24 + 1 + 44 + 2 + 24 + 64 + 2)%nat as Ht.
  { unfold trailer_bytes. case_bool_decide; [simpl; lia|]. destruct Htrailer as [?|[h E]]; [done|]. destruct (getHasher_name _ _ E) as (_ & Hn & _).
    unfold trailer_value. rewrite E. destruct (getHasher_length _ _ sum E) as (n & Hc & Hl). unfold trailer_sig. rewrite !length_app, hex_length, hmac256_length, base64_length, Hl.
    assert (n <= 32)%nat; [|assert ((n + 2) / 3 < 12)%nat by (apply Nat.Div0.div_lt_upper_bound; lia); simpl length; lia].
    unfold checksumLengths in Hc. repeat case_bool_decide; simplify_eq; lia. }
  unfold head_bytes, maxHeaderSize. rewrite length_app. assert (length (lead first) <= 2)%nat by (destruct first; simpl; lia).
  destruct cs as [|c cs]; [rewrite length_app; specialize (Hh 0%Z _ (chunk_sig_length prev []))|specialize (Hh (Z.of_nat (length c)) _ (chunk_sig_length prev c))]; lia.
Qed.

(** Where the header's end is found: past the end of the data before it. *)
Lemma head_offset first prev sum c cs r :
  (IndexCRLF (drop 2 (head_bytes first prev sum (c :: cs) ++ r)) + 4)%Z = Z.of_nat (length (head_bytes first prev sum (c :: cs))).
Proof.
  unfold head_bytes, chunk_head. set (m := FormatInt 16 (Z.of_nat (length c)) ++ B ";chunk-signature=" ++ chunk_sig prev c).
  assert (Forall (fun c => c <> "013"%char) m) as Hm.
  { unfold m. apply Forall_app. split; [apply hex_no; [done|apply FormatInt_hex; lia]|]. apply Forall_app. split; [|apply hex_no; [done|apply chunk_sig_hex]].
    apply (bool_decide_unpack _). vm_compute. exact I. }
  replace (FormatInt 16 (Z.of_nat (length c)) ++ B ";chunk-signature=" ++ chunk_sig prev c ++ CRLF) with (m ++ CRLF) by (unfold m; by rewrite <- !app_assoc).
  assert (2 <= length m)%nat as Hl by (unfold m; rewrite !length_app; simpl; lia).
  clearbody m. destruct first; unfold lead; rewrite <- !app_assoc.
  - rewrite app_nil_l, drop_app_le by lia. rewrite IndexCRLF_app by by apply Forall_drop. rewrite length_drop, app_nil_l, length_app. simpl. lia.
  - change 2%nat with (length CRLF) at 1. rewrite drop_app_length, IndexCRLF_app by done. rewrite !length_app. simpl. lia.
Qed.

(** *** Where the reader is in the wire *)

Definition sum_ok (cr : ChunkReader) (sum : bytes) : Prop := crChecksumHash cr = if bool_decide (trailer = "") then None else Some sum.

(** The last header ends with the empty line after its trailer. *)
Definition full_head (first : bool) (prev sum : bytes) (cs : list bytes) : bytes :=
  head_bytes first prev sum cs ++ match cs with [] => CRLF | _ => [] end.
Definition after_full (prev sum : bytes) (cs : list bytes) : bytes :=
  match cs with [] => [] | c :: cs => c ++ CRLF ++ wire_tail (chunk_sig prev c) (sum ++ c) cs end.

Lemma wire_full first prev sum cs : lead first ++ wire_tail prev sum cs = full_head first prev sum cs ++ after_full prev sum cs.
Proof. rewrite wire_split. unfold full_head. destruct cs; simpl; by rewrite ?app_nil_r. Qed.
Lemma full_head_length first prev sum cs : (0 < length (full_head first prev sum cs) <= maxHeaderSize)%nat.
Proof.
  pose proof (head_length first prev sum cs). unfold full_head. rewrite length_app. assert (length (match cs with [] => CRLF | _ => [] end) <= 2)%nat by (destruct cs; simpl; lia).
  split; [|lia]. unfold head_bytes. rewrite length_app. destruct cs as [|c cs]; unfold chunk_head; rewrite !length_app, chunk_sig_length; lia.
Qed.

(** Verified so far, with no chunk in progress. *)
Definition ready (cr : ChunkReader) (prev sum : bytes) (cs : list bytes) : Prop :=
  crParsedSig cr = [] /\ crPrevSig cr = prev /\ crChunkHash cr = [] /\ sum_ok cr sum /\ chunks_ok (prev_ok (crChunkSizes cr)) cs.

(** In a chunk of [c1 ++ c2], of which [c1] was read. *)
Definition in_chunk (cr : ChunkReader) (prev sum c1 c2 : bytes) (cs : list bytes) : Prop :=
  crParsedSig cr = chunk_sig prev (c1 ++ c2) /\ crPrevSig cr = prev /\ crChunkHash cr = c1 /\ sum_ok cr (sum ++ c1) /\ chunks_ok (prev_ok (crChunkSizes cr)) cs /\
  crStash cr = None /\ crFirst cr = false.

(** The reader at a point of the wire: [rest] is to come, [data] is to be delivered, and [all] is the whole data. *)
Inductive pos (cr : ChunkReader) (rest data all : bytes) : Prop :=
| pos_header prev sum cs more : ready cr prev sum cs -> crChunkDataLeft cr = 0%Z ->
    full_head (crFirst cr) prev sum cs = default [] (crStash cr) ++ more -> more <> [] ->
    default [] (crStash cr) ++ rest = lead (crFirst cr) ++ wire_tail prev sum cs -> data = concat cs -> all = sum ++ concat cs -> pos cr rest data all
| pos_data prev sum c1 c2 cs : in_chunk cr prev sum c1 c2 cs -> crChunkDataLeft cr = Z.of_nat (length c2) ->
    rest = c2 ++ CRLF ++ wire_tail (chunk_sig prev (c1 ++ c2)) (sum ++ c1 ++ c2) cs -> data = c2 ++ concat cs -> all = sum ++ (c1 ++ c2) ++ concat cs -> pos cr rest data all.

(** The checksum the reader ends with. *)
Definition sum_read (cr : ChunkReader) (all : bytes) : Prop := trailer = "" \/ crParsedChecksum cr = trailer_value trailer all.

Notation parseChunkHeaderBytes := (parseChunkHeaderBytes trailer req).
Notation parseAndRemove := (parseAndRemove signingKey region date trailer req).

(** A header that is not all there is stashed. *)
Lemma header_short cr prev sum cs p q : chunks_ok (prev_ok (crChunkSizes cr)) cs -> crEOF cr = false ->
  full_head (crFirst cr) prev sum cs = (default [] (crStash cr) ++ p) ++ q -> q <> [] ->
  exists t, parseChunkHeaderBytes cr p = (set_stash (Some (default [] (crStash cr) ++ p)) (set_trailer t (set_stash None cr)), HSkip).
Proof.
  intros Hok He Hf Hq. unfold Chunked.parseChunkHeaderBytes. pose proof (full_head_length (crFirst cr) prev sum cs) as Hl. rewrite Hf, !length_app in Hl.
  rewrite (proj2 (Nat.ltb_ge _ _)) by (unfold maxHeaderSize in *; lia). simpl. destruct (reads_header (crFirst cr) (crChunkSizes cr) prev sum cs Hok) as [R1 R2].
  unfold full_head in Hf. destruct (app_split _ _ _ _ (eq_sym Hf)) as [(w & Ew & Hw & _)|(w & Ew & Er)].
  - rewrite (R2 _ w Ew Hw). exists None. unfold handleRdrErr. simpl. by rewrite He.
  - rewrite Ew, R1. destruct cs as [|c cs]; [|destruct w, q; done]. simpl. destruct (reads_skip CRLF) as [_ S2]. rewrite (S2 w q Er Hq).
    exists (if bool_decide (trailer = "") then None else Some (trailer_value trailer sum, trailer_sig signingKey region date trailer (chunk_sig prev []) (trailer_value trailer sum))).
    unfold handleRdrErr. case_bool_decide; simpl; by rewrite He.
Qed.

(** A header that is all there. *)
Lemma header_whole cr prev sum cs p r : chunks_ok (prev_ok (crChunkSizes cr)) cs -> (length (default [] (crStash cr)) <= maxHeaderSize)%nat ->
  default [] (crStash cr) ++ p = full_head (crFirst cr) prev sum cs ++ r ->
  parseChunkHeaderBytes cr p = match cs with
  | [] => (set_trailer (hdTrailer (the_header prev sum [])) (set_stash None cr), HHeader (the_header prev sum []) 0)
  | c :: _ => (addChunkSize (Z.of_nat (length c)) (set_stash None cr),
      HHeader (the_header prev sum cs) (Z.of_nat (length (full_head (crFirst cr) prev sum cs)) - Z.of_nat (length (default [] (crStash cr)))))
  end.
Proof.
  intros Hok Hst Hp. unfold Chunked.parseChunkHeaderBytes. rewrite (proj2 (Nat.ltb_ge _ _)) by done. rewrite Hp. cbv zeta. cbn [set_stash crFirst crChunkSizes].
  destruct (reads_header (crFirst cr) (crChunkSizes cr) prev sum cs Hok) as [R1 _]. unfold full_head. rewrite <- !app_assoc, R1. destruct cs as [|c cs].
  - change (hdSize (the_header prev sum []) =? 0)%Z with true. destruct (reads_skip CRLF) as [S1 _]. by rewrite S1.
  - simpl. simpl in Hok. destruct Hok as (_ & Hc & _). rewrite (proj2 (Z.eqb_neq _ _)) by lia. rewrite app_nil_r. rewrite head_offset. done.
Qed.

(** The parts of the state a parse leaves alone. *)
Definition same_io (cr cr' : ChunkReader) : Prop := crDataRead cr' = crDataRead cr /\ crEOF cr' = crEOF cr.
Lemma same_io_trans a b c : same_io a b -> same_io b c -> same_io a c.
Proof. unfold same_io. intros [? ?] [? ?]. split; congruence. Qed.
Lemma set_trailer_keeps t cr : crPrevSig (set_trailer t cr) = crPrevSig cr /\ crParsedSig (set_trailer t cr) = crParsedSig cr /\ crChunkHash (set_trailer t cr) = crChunkHash cr /\
  crChecksumHash (set_trailer t cr) = crChecksumHash cr /\ crChunkSizes (set_trailer t cr) = crChunkSizes cr /\ crFirst (set_trailer t cr) = crFirst cr /\ same_io cr (set_trailer t cr).
Proof. by destruct t as [[? ?]|]. Qed.

(** A chunk that ended is verified by the header after it. *)
Lemma parse_pending fuel cr prev sum c cs p : in_chunk cr prev sum c [] cs ->
  ready (set_sig (chunk_sig prev c) [] cr) (chunk_sig prev c) (sum ++ c) cs /\ parseAndRemove (S fuel) cr p = parseAndRemove (S fuel) (set_sig (chunk_sig prev c) [] cr) p.
Proof.
  intros (Hsig & Hprev & Hh & Hs & Hok & _ & _). rewrite app_nil_r in Hsig. split; [done|]. cbn [Chunked.parseAndRemove].
  rewrite bool_decide_false by (rewrite Hsig; intros E; pose proof (chunk_sig_length prev c) as Hl; by rewrite E in Hl).
  unfold checkSignature. rewrite Hprev, Hh, Hsig, bool_decide_true by done. done.
Qed.

(** The last header: the chain, the checksum and the trailer's signature are as the client computed them. *)
Lemma parse_final fuel cr prev sum p : ready cr prev sum [] -> parseChunkHeaderBytes cr p = (set_trailer (hdTrailer (the_header prev sum [])) (set_stash None cr), HHeader (the_header prev sum []) 0) ->
  exists cr', parseAndRemove (S fuel) cr p = (cr', PData [] true) /\ sum_read cr' sum /\ same_io cr cr'.
Proof.
  intros (Hsig & Hprev & _ & Hs & _) Hh. cbn [Chunked.parseAndRemove]. rewrite bool_decide_true by done. cbv beta iota zeta. cbn [negb]. rewrite Hh.
  change (hdSize (the_header prev sum []) =? 0)%Z with true. cbv beta iota zeta.
  set (cr1 := set_trailer _ _). destruct (set_trailer_keeps (hdTrailer (the_header prev sum [])) (set_stash None cr)) as (E1 & E2 & E3 & E4 & E5 & E6 & E7 & E8). fold cr1 in E1, E2, E3, E4, E5, E6, E7, E8.
  unfold checkSignature at 1. cbn [set_sig set_parsed crPrevSig crParsedSig crChunkHash the_header hdSig]. rewrite E1. cbn [set_stash crPrevSig]. rewrite Hprev.
  rewrite bool_decide_true by done. cbv beta iota zeta. cbn [negb]. set (cr2 := set_sig _ _ _).
  assert (crChecksumHash cr2 = crChecksumHash cr /\ same_io cr cr2) as [Esum Eio] by done.
  destruct (decide (trailer = "")) as [Ht|Ht].
  - rewrite bool_decide_true by done. exists cr2. split_and!; [done|by left|done].
  - rewrite bool_decide_false by done. destruct Htrailer as [?|[h Eh]]; [done|].
    assert (crParsedChecksum cr2 = trailer_value trailer sum /\ crTrailerSig cr2 = trailer_sig signingKey region date trailer (chunk_sig prev []) (trailer_value trailer sum)) as [Ec Et].
    { unfold cr2, cr1. simpl. by rewrite bool_decide_false by done. }
    unfold sum_ok in Hs. rewrite bool_decide_false in Hs by done.
    assert (verifyChecksum trailer cr2 = true) as -> by (unfold verifyChecksum; rewrite Eh, Esum, Hs, Ec; unfold trailer_value; rewrite Eh; by apply bool_decide_true).
    assert (verifyTrailerSignature signingKey region date trailer cr2 = true) as ->.
    { unfold verifyTrailerSignature. rewrite Et, Ec. by apply bool_decide_true. }
    exists cr2. split_and!; [done|by right|done].
Qed.

(** A header that is not all there: the reader waits for the rest. *)
Lemma parse_short fuel cr prev sum cs p w rest : ready cr prev sum cs -> crEOF cr = false -> full_head (crFirst cr) prev sum cs = (default [] (crStash cr) ++ p) ++ w -> w <> [] ->
  (default [] (crStash cr) ++ p) ++ rest = full_head (crFirst cr) prev sum cs ++ after_full prev sum cs ->
  exists cr', parseAndRemove (S fuel) cr p = (cr', PData [] false) /\ pos cr' rest (concat cs) (sum ++ concat cs) /\ same_io cr cr'.
Proof.
  intros (Hsig & Hprev & Hh & Hs & Hok) He Ew Hne Hw. destruct (header_short _ _ _ _ _ _ Hok He Ew Hne) as [t Ht].
  exists (set_left 0 (set_stash (Some (default [] (crStash cr) ++ p)) (set_trailer t (set_stash None cr)))).
  split; [cbn [Chunked.parseAndRemove]; rewrite bool_decide_true by done; cbv beta iota zeta; cbn [negb]; by rewrite Ht|].
  destruct (set_trailer_keeps t (set_stash None cr)) as (E1 & E2 & E3 & E4 & E5 & E6 & E7 & E8). split; [|by split].
  eapply (pos_header _ _ _ _ prev sum cs w); [|done| |done| |done|done].
  - split_and!; cbn [set_left set_stash crParsedSig crPrevSig crChunkHash crChunkSizes]; rewrite ?E1, ?E2, ?E3, ?E5; try done. unfold sum_ok. cbn [set_left set_stash crChecksumHash]. by rewrite E4.
  - cbn [set_left set_stash crFirst crStash]. by rewrite E6.
  - cbn [set_left set_stash crFirst crStash]. rewrite E6. cbn [set_stash crFirst]. by rewrite wire_full.
Qed.

Lemma prev_ok_app sizes n : prev_ok (sizes ++ [n]) = (minChunkSize <=? n)%Z.
Proof. unfold prev_ok. by rewrite last_snoc. Qed.

(** A header of a chunk: what is left of the piece is the chunk's, or goes past it. *)
Lemma parse_chunk fuel cr prev sum c cs p more r : ready cr prev sum (c :: cs) -> full_head (crFirst cr) prev sum (c :: cs) = default [] (crStash cr) ++ more -> p = more ++ r ->
  let cr1 := set_parsed (chunk_sig prev c) (addChunkSize (Z.of_nat (length c)) (set_stash None cr)) in
  parseAndRemove (S fuel) cr p =
    if (Z.of_nat (length c) <? Z.of_nat (length r))%Z then
      let d := take (length c) r in let '(cr, res) := parseAndRemove fuel (write d (set_left 0 cr1)) (drop (length c) r) in (cr, after d res)
    else (write r (set_left (Z.of_nat (length c) - Z.of_nat (length r)) cr1), PData r false).
Proof.
  intros (Hsig & Hprev & Hh & Hs & Hok) Hf -> cr1. cbn [Chunked.parseAndRemove]. rewrite bool_decide_true by done. cbv beta iota zeta. cbn [negb].
  pose proof (full_head_length (crFirst cr) prev sum (c :: cs)) as Hl. rewrite Hf, length_app in Hl.
  rewrite (header_whole cr prev sum (c :: cs) (more ++ r) r Hok) by (try lia; by rewrite app_assoc, Hf).
  assert (0 < Z.of_nat (length c))%Z as Hc by (simpl in Hok; lia). cbn [the_header hdSize hdSig]. rewrite (proj2 (Z.eqb_neq _ _)) by lia. fold cr1.
  rewrite Hf, length_app, length_app. rewrite (proj2 (Z.ltb_ge _ _)) by lia. rewrite (proj2 (Z.ltb_ge (Z.of_nat (length more + length r)) _)) by lia. cbn [orb].
  replace (Z.to_nat (Z.of_nat (length (default [] (crStash cr)) + length more) - Z.of_nat (length (default [] (crStash cr))))) with (length more) by lia.
  rewrite drop_app_length, Nat2Z.id. done.
Qed.

(** What a parse comes to: the end of the body, with all of its data, or a later point of it. *)
Definition outcome (cr : ChunkReader) (res : ChunkReader * parsed) (rest data all : bytes) : Prop :=
  (exists cr', res = (cr', PData data true) /\ rest = [] /\ sum_read cr' all /\ same_io cr cr') \/
  (exists cr' d data', res = (cr', PData d false) /\ data = d ++ data' /\ pos cr' rest data' all /\ same_io cr cr').

Lemma parse_ready cs : forall fuel cr prev sum p rest more, ready cr prev sum cs -> full_head (crFirst cr) prev sum cs = default [] (crStash cr) ++ more -> more <> [] ->
  default [] (crStash cr) ++ p ++ rest = lead (crFirst cr) ++ wire_tail prev sum cs -> (crEOF cr = true -> rest = []) -> (length p < fuel)%nat ->
  outcome cr (parseAndRemove fuel cr p) rest (concat cs) (sum ++ concat cs).
Proof.
  unfold outcome. induction cs as [|c cs IH]; intros fuel cr prev sum p rest more Hready Hf Hmore Hw Heof Hfuel; (destruct fuel as [|fuel]; [lia|]);
    rewrite wire_full, app_assoc in Hw; destruct (app_split _ _ _ _ Hw) as [(w & Ew & Hne & Er)|(r & Er & Ea)].
  1,3: right; assert (crEOF cr = false) as He by (destruct (crEOF cr); [rewrite Heof in Er by done; by destruct w|done]);
    destruct (parse_short fuel cr prev sum _ p w rest Hready He Ew Hne Hw) as (cr' & E & Hpos & Hio); exists cr', []; eexists; (split; [exact E|]); (split; [reflexivity|]); by split.
  - left. simpl in Ea. symmetry in Ea. apply app_eq_nil in Ea as [-> ->]. rewrite app_nil_r. destruct (parse_final fuel cr prev sum p Hready) as (cr' & E & Hsum & Hio); [|by exists cr'].
    destruct Hready as (_ & _ & _ & _ & Hok). pose proof (full_head_length (crFirst cr) prev sum []) as Hl. rewrite Hf, length_app in Hl.
    apply (header_whole cr prev sum [] p [] Hok); [lia|done].
  - assert (p = more ++ r) as Hp by (rewrite Hf, <- app_assoc in Er; by apply app_inv_head in Er).
    pose proof (parse_chunk fuel cr prev sum c cs p more r Hready Hf Hp) as E. cbv zeta in E. rewrite E. clear E.
    set (cr1 := set_parsed _ _). simpl in Ea. destruct Hready as (Hsig & Hprev & Hh & Hs & Hok). simpl in Hok. destruct Hok as (_ & Hc & Hok).
    assert (forall c1 c2 left, c = c1 ++ c2 -> in_chunk (write c1 (set_left left cr1)) prev sum c1 c2 cs) as Hin.
    { intros c1 c2 left ->. split_and!; try done; [cbn; by rewrite Hh| |cbn; by rewrite prev_ok_app]. unfold sum_ok in *. cbn. rewrite Hs. by case_bool_decide. }
    destruct (Z.ltb_spec (Z.of_nat (length c)) (Z.of_nat (length r))) as [Hlt|Hge].
    + destruct (app_split _ _ _ _ Ea) as [(w & -> & _ & Er')|(w & Ew & _)]; [|apply (f_equal length) in Ew; rewrite length_app in Ew; lia].
      cbv zeta. rewrite take_app_length, drop_app_length. set (cr2 := write c (set_left 0 cr1)).
      destruct fuel as [|fuel]; [subst p; rewrite !length_app in Hfuel; destruct more; [done|simpl in Hfuel; lia]|].
      destruct (parse_pending fuel cr2 prev sum c cs w (Hin c [] 0%Z (eq_sym (app_nil_r c)))) as [Hr2 ->]. set (cr3 := set_sig _ _ cr2) in *.
      destruct (IH (S fuel) cr3 (chunk_sig prev c) (sum ++ c) w rest (full_head (crFirst cr3) (chunk_sig prev c) (sum ++ c) cs)) as [(cr' & E & Hrest & Hsum & Hio)|(cr' & d & data & E & Hd & Hpos & Hio)].
      * done.
      * done.
      * pose proof (full_head_length (crFirst cr3) (chunk_sig prev c) (sum ++ c) cs) as Hl. intros E. rewrite E in Hl. simpl in Hl. lia.
      * cbn. symmetry. exact Er'.
      * exact Heof.
      * subst p. rewrite !length_app in Hfuel. destruct more; [done|]. simpl in Hfuel. lia.
      * left. exists cr'. rewrite E. split_and!; [done|done|simpl; by rewrite app_assoc|exact Hio].
      * right. exists cr', (c ++ d), data. rewrite E. split_and!; [done|simpl; by rewrite Hd, app_assoc|simpl; by rewrite app_assoc|exact Hio].
    + destruct (app_split _ _ _ _ (eq_sym Ea)) as [(w & -> & _ & Er')|(w & Ew & Er')].
      * right. eexists _, r, (w ++ concat cs). split; [reflexivity|]. split; [simpl; by rewrite app_assoc|]. split; [|done].
        eapply (pos_data _ _ _ _ prev sum r w cs); [by apply Hin|cbn; rewrite length_app; lia|done|done|simpl; by rewrite <- !app_assoc].
      * assert (w = []) as -> by (apply (f_equal length) in Ew; rewrite length_app in Ew; destruct w; [done|simpl in Ew; lia]). rewrite app_nil_r in Ew. subst r.
        right. eexists _, c, (concat cs). split; [reflexivity|]. split; [done|]. split; [|done].
        eapply (pos_data _ _ _ _ prev sum c [] cs); [apply Hin; by rewrite app_nil_r|cbn; lia| |done|simpl; by rewrite app_nil_r]. rewrite app_nil_r. simpl in Er'. done.
Qed.

(** *** Reads *)

Context (cLength : Z).
Notation Read := (Read signingKey region date trailer req cLength).

Lemma pos_rest cr data all : ~ pos cr [] data all.
Proof.
  intros [prev sum cs more _ _ Hf Hmore Hw _ _|prev sum c1 c2 cs _ _ Hw _ _].
  - rewrite wire_full, Hf, app_nil_r, <- app_assoc in Hw. rewrite <- (app_nil_r (default [] (crStash cr))) in Hw at 1. apply app_inv_head in Hw. by destruct more.
  - by destruct c2.
Qed.

Lemma pos_set_EOF e cr rest data all : pos cr rest data all -> pos (set_EOF e cr) rest data all.
Proof. intros [prev sum cs more H1 H2 H3 H4 H5 H6 H7|prev sum c1 c2 cs H1 H2 H3 H4 H5]; [eapply (pos_header _ _ _ _ prev sum cs more)|eapply (pos_data _ _ _ _ prev sum c1 c2 cs)]; done. Qed.

Lemma write_nil cr : write [] cr = cr.
Proof. destruct cr as [? ? ? ? ? ? ? [s|] ? ? ? ?]; unfold write; simpl; by rewrite !app_nil_r. Qed.

(** What a read hands out after a parse. *)
Lemma hand_out_outcome cr d res rest data all : outcome cr res rest data all -> (crDataRead cr + Z.of_nat (length (d ++ data)) = cLength)%Z -> (crEOF cr = true -> rest = []) ->
  let out := match res with (cr, PErr e) => (cr, Fails e) | (cr, PPanic) => (cr, Panics) | (cr, PData b eof) => hand_out cLength (d ++ b) eof cr end in
  (exists cr', out = (cr', Got (d ++ data) true) /\ sum_read cr' all) \/
  (exists cr' d' data', out = (cr', Got d' false) /\ d ++ data = d' ++ data' /\ pos cr' rest data' all /\ (crDataRead cr' + Z.of_nat (length data') = cLength)%Z).
Proof.
  intros [(cr' & -> & -> & Hsum & Hr & He)|(cr' & b & data' & -> & -> & Hpos & Hr & He)] Hlen Heof out; unfold out, hand_out; rewrite Hr.
  - left. rewrite (proj2 (Z.ltb_ge _ _)) by lia. rewrite (proj2 (Z.eqb_eq _ _)) by lia. rewrite andb_false_r. eexists. split; [done|]. exact Hsum.
  - right. rewrite !length_app in *. rewrite (proj2 (Z.ltb_ge _ _)) by lia. cbn [set_read crEOF]. rewrite He.
    assert (crEOF cr = false) as -> by (destruct (crEOF cr); [rewrite Heof in Hpos by done; by apply pos_rest in Hpos|done]). cbn [andb].
    eexists _, (d ++ b), data'. split_and!; [done|by rewrite app_assoc| |cbn; lia].
    destruct Hpos as [prev sum cs more H1 H2 H3 H4 H5 H6 H7|prev sum c1 c2 cs H1 H2 H3 H4 H5]; [eapply (pos_header _ _ _ _ prev sum cs more)|eapply (pos_data _ _ _ _ prev sum c1 c2 cs)]; done.
Qed.

(** A read inside a chunk. *)
Lemma read_data cr prev sum c1 p c2 cs rest data all : in_chunk cr prev sum c1 (p ++ c2) cs -> crChunkDataLeft cr = Z.of_nat (length (p ++ c2)) ->
  p ++ rest = (p ++ c2) ++ CRLF ++ wire_tail (chunk_sig prev (c1 ++ p ++ c2)) (sum ++ c1 ++ p ++ c2) cs -> data = (p ++ c2) ++ concat cs -> all = sum ++ (c1 ++ p ++ c2) ++ concat cs ->
  pos (write p (set_left (crChunkDataLeft cr - Z.of_nat (length p)) cr)) rest (c2 ++ concat cs) all.
Proof.
  intros (H1 & H2 & H3 & H4 & H5 & H6 & H7) Hleft Hw -> ->. rewrite length_app in Hleft. eapply (pos_data _ _ _ _ prev sum (c1 ++ p) c2 cs).
  - split_and!; try done; [by rewrite <- app_assoc|cbn; by rewrite H3|]. unfold sum_ok in *. cbn. rewrite H4. case_bool_decide; [done|]. cbn. by rewrite app_assoc.
  - cbn. lia.
  - rewrite <- !app_assoc in *. by apply app_inv_head in Hw.
  - done.
  - by rewrite <- !app_assoc.
Qed.

Lemma read_pos cr p e rest data all : pos cr (p ++ rest) data all -> (crDataRead cr + Z.of_nat (length data) = cLength)%Z -> e <> Broken -> (e = Ended -> rest = []) ->
  (exists cr', Read cr (p, e) = (cr', Got data true) /\ sum_read cr' all) \/
  (exists cr' d data', Read cr (p, e) = (cr', Got d false) /\ data = d ++ data' /\ pos cr' rest data' all /\ (crDataRead cr' + Z.of_nat (length data') = cLength)%Z).
Proof.
  intros Hpos Hlen Hb He. set (eof := match e with Ended => true | _ => false end). apply (pos_set_EOF eof) in Hpos.
  assert (Read cr (p, e) = let cr := set_EOF eof cr in if (crChunkDataLeft cr <? Z.of_nat (length p))%Z then
      let d := take (Z.to_nat (crChunkDataLeft cr)) p in
      match parseAndRemoveChunkInfo signingKey region date trailer req (write d cr) (drop (Z.to_nat (crChunkDataLeft cr)) p) with
      | (cr, PErr e) => (cr, Fails e) | (cr, PPanic) => (cr, Panics) | (cr, PData b eof) => hand_out cLength (d ++ b) eof cr end
    else let n := (crDataRead cr + Z.of_nat (length p))%Z in
      if (cLength <? n)%Z then (cr, Fails errContentLengthMismatch) else hand_out cLength p (crEOF cr) (write p (set_left (crChunkDataLeft cr - Z.of_nat (length p)) cr))) as ->
    by (unfold Chunked.Read; by destruct e).
  cbv zeta. set (cr0 := set_EOF eof cr) in *. assert (crDataRead cr0 = crDataRead cr /\ (crEOF cr0 = true -> rest = [])) as [Hr0 He0] by (split; [done|]; intros ?; apply He; by destruct e).
  rewrite <- Hr0 in Hlen. clearbody cr0. clear Hr0 He Hb e eof cr. rename cr0 into cr. unfold parseAndRemoveChunkInfo.
  destruct Hpos as [prev sum cs more Hready Hleft Hf Hmore Hw -> ->|prev sum c1 c2 cs Hin Hleft Hw -> ->]; rewrite Hleft.
  - destruct (Z.ltb_spec 0 (Z.of_nat (length p))) as [Hp|Hp].
    + change (Z.to_nat 0) with 0%nat. rewrite take_0, drop_0, write_nil. apply (hand_out_outcome cr []); [|done|done]. by apply (parse_ready cs _ cr prev sum p rest more); [..|lia].
    + destruct p; [|simpl in Hp; lia]. simpl length in *. rewrite (proj2 (Z.ltb_ge _ _)) by lia. right. rewrite write_nil.
      assert (crEOF cr = false) as E by (destruct (crEOF cr) eqn:E; [|done]; exfalso; eapply (pos_rest cr); eapply (pos_header _ _ _ _ prev sum cs more); try done; rewrite He0 in Hw by done; exact Hw).
      unfold hand_out. cbn [set_left set_read crDataRead crEOF]. rewrite (proj2 (Z.ltb_ge _ _)) by (simpl; lia). rewrite E. cbn [andb].
      eexists _, [], (concat cs). split_and!; [done|done| |cbn; lia]. by eapply (pos_header _ _ _ _ prev sum cs more).
  - destruct (Z.ltb_spec (Z.of_nat (length c2)) (Z.of_nat (length p))) as [Hp|Hp].
    + destruct (app_split _ _ _ _ Hw) as [(w & Ew & _)|(w & -> & Er)]; [apply (f_equal length) in Ew; rewrite length_app in Ew; lia|].
      rewrite Nat2Z.id, take_app_length, drop_app_length. apply (hand_out_outcome (write c2 cr)); [|done|done].
      assert (in_chunk (write c2 cr) prev sum (c1 ++ c2) [] cs) as Hin2.
      { destruct Hin as (H1 & H2 & H3 & H4 & H5 & H6 & H7). split_and!; try done; [by rewrite app_nil_r|cbn; by rewrite H3|]. unfold sum_ok in *. cbn. rewrite H4. case_bool_decide; [done|]. cbn. by rewrite app_assoc. }
      destruct (parse_pending (length w) _ _ _ _ _ w Hin2) as [Hr2 ->]. set (cr2 := set_sig _ _ _) in *. rewrite app_assoc.
      destruct Hin as (_ & _ & _ & _ & _ & Hst & Hfirst).
      eapply (parse_ready cs _ cr2 _ _ w rest (full_head false (chunk_sig prev (c1 ++ c2)) (sum ++ c1 ++ c2) cs) Hr2).
      * unfold cr2. cbn [set_sig write crStash crFirst]. by rewrite Hst, Hfirst.
      * intros E. pose proof (full_head_length false (chunk_sig prev (c1 ++ c2)) (sum ++ c1 ++ c2) cs) as Hl. rewrite E in Hl. simpl in Hl. lia.
      * unfold cr2. cbn [set_sig write crStash crFirst]. rewrite Hst, Hfirst. symmetry. exact Er.
      * done.
      * lia.
    + rewrite length_app in Hlen. rewrite (proj2 (Z.ltb_ge _ _)) by lia. right.
      assert (exists w, c2 = p ++ w) as [w ->].
      { destruct (app_split _ _ _ _ Hw) as [(w & -> & _)|(w & -> & _)]; [by exists w|]. exists []. rewrite length_app in Hp. destruct w; [by rewrite !app_nil_r|simpl in Hp; lia]. }
      pose proof (read_data cr prev sum c1 p w cs rest _ _ Hin Hleft Hw eq_refl eq_refl) as Hpos. rewrite Hleft in Hpos.
      assert (crEOF cr = false) as E by (destruct (crEOF cr) eqn:E; [|done]; exfalso; rewrite He0 in Hpos by done; by apply pos_rest in Hpos).
      rewrite length_app in Hlen. unfold hand_out. cbn [write set_left set_read crDataRead crEOF]. rewrite (proj2 (Z.ltb_ge _ _)) by lia. rewrite E. cbn [andb].
      eexists _, p, (w ++ concat cs). split_and!; [done|by rewrite <- app_assoc| |cbn; rewrite length_app; lia].
      destruct Hpos as [prev' sum' cs' more H1 H2 H3 H4 H5 H6 H7|prev' sum' c1' c2' cs' H1 H2 H3 H4 H5]; [eapply (pos_header _ _ _ _ prev' sum' cs' more)|eapply (pos_data _ _ _ _ prev' sum' c1' c2' cs')]; done.
Qed.

(** *** Whole bodies *)

Notation run := (run signingKey region date trailer req cLength).
Notation NewSignedChunkReader := (NewSignedChunkReader trailer).

Lemma run_pos ps q cr data all : pos cr (concat ps ++ q) data all -> (crDataRead cr + Z.of_nat (length data) = cLength)%Z ->
  exists cr', run cr (List.map (fun p => (p, More)) ps ++ [(q, Ended)]) = (cr', data, RunEOF) /\ sum_read cr' all.
Proof.
  revert cr data. induction ps as [|p ps IH]; intros cr data Hpos Hlen; cbn [app List.map Chunked.run concat] in *.
  - rewrite <- (app_nil_r q) in Hpos. destruct (read_pos cr q Ended [] data all Hpos Hlen) as [(cr' & -> & Hs)|(cr' & d & data' & _ & _ & Hp & _)]; [done|done| |].
    + by exists cr'.
    + by apply pos_rest in Hp.
  - rewrite <- app_assoc in Hpos. destruct (read_pos cr p More (concat ps ++ q) data all Hpos Hlen) as [(cr' & -> & Hs)|(cr' & d & data' & -> & -> & Hp & Hl)]; [done|done| |].
    + by exists cr'.
    + destruct (IH cr' data' Hp Hl) as (cr2 & -> & Hs). by exists cr2.
Qed.

Lemma pos_start seed cs : chunks_ok true cs -> pos (NewSignedChunkReader seed) (wire_tail seed [] cs) (concat cs) (concat cs).
Proof.
  intros Hok. eapply (pos_header _ _ _ _ seed [] cs (full_head true seed [] cs)); try done.
  intros E. pose proof (full_head_length true seed [] cs) as Hl. rewrite E in Hl. simpl in Hl. lia.
Qed.

(** *** The client's frames *)

Fixpoint split_chunks (fuel n : nat) (data : bytes) : list bytes :=
  match fuel with O => [] | S fuel => if bool_decide (data = []) then [] else take n data :: split_chunks fuel n (drop n data) end.

Lemma split_concat fuel n data : (0 < n)%nat -> (length data <= fuel)%nat -> concat (split_chunks fuel n data) = data.
Proof.
  intros Hn. revert data. induction fuel as [|fuel IH]; intros data Hl; simpl; [by destruct data; simpl in *; [|lia]|].
  case_bool_decide as Hd; [done|]. simpl. rewrite IH; [apply take_drop|]. rewrite length_drop. destruct data; simpl in *; [done|lia].
Qed.

Lemma split_ok fuel n data ok : (0 < n)%nat -> (Z.of_nat n <= MaxInt64)%Z -> (minChunkSize <= Z.of_nat n)%Z \/ (length data <= n)%nat -> (ok = true \/ data = []) ->
  chunks_ok ok (split_chunks fuel n data).
Proof.
  intros Hn Hmax. revert data ok. induction fuel as [|fuel IH]; intros data ok Hsize Hok; simpl; [done|]. case_bool_decide as Hd; [done|]. destruct Hok as [->|?]; [|done].
  assert (0 < length (take n data) <= n)%nat as Hlen by (rewrite length_take; destruct data; [done|simpl; lia]). simpl. split_and!; [done|lia|lia|]. apply IH.
  - destruct Hsize; [by left|right]. rewrite length_drop. lia.
  - destruct (decide (length data <= n)%nat) as [Hle|Hgt]; [right; apply drop_ge; lia|]. left. rewrite length_take. apply Z.leb_le. destruct Hsize; [|lia]. rewrite Nat.min_l by lia. done.
Qed.

Notation signed_all := (signed_all signingKey region date trailer).

Lemma signed_all_wire n data : (0 < n)%nat -> forall fuel f e, seSrc e = mkSource data SrcEOF -> seDone e = false -> seFinal e = false -> (length data + 2 <= fuel)%nat -> (length data <= f)%nat ->
  signed_all n fuel e = wire_tail (sePrevSig e) (seSum e) (split_chunks f n data).
Proof.
  intros Hn fuel. revert data. induction fuel as [|fuel IH]; intros data f e Hsrc Hdone Hfin Hfuel Hf; [lia|]. cbn [ChunkEncode.signed_all]. rewrite Hfin.
  unfold signed_fill. rewrite Hdone, Hsrc. unfold ReadFull. cbn [srcBytes srcEnds].
  destruct data as [|x data].
  - rewrite take_nil. simpl length. rewrite (proj2 (Nat.eqb_neq _ _)) by lia. rewrite bool_decide_true by done. change (0 <? 0)%nat with false.
    cbn [mbind result_bind sePending seSrc sePrevSig seDone seFinal seSum]. destruct fuel as [|fuel]; [simpl in Hfuel; lia|]. cbn [ChunkEncode.signed_all seFinal]. rewrite app_nil_r.
    destruct f; cbn [split_chunks wire_tail]; [done|]. by rewrite bool_decide_true by done.
  - set (data' := x :: data) in *. destruct f as [|f]; [simpl in Hf; lia|]. cbn [split_chunks]. rewrite (bool_decide_false (data' = [])) by done. cbn [wire_tail].
    assert (0 < length (take n data'))%nat as Hlen by (rewrite length_take; simpl; lia). rewrite (proj2 (Nat.ltb_lt _ _)) by done. rewrite chunkSig_eq.
    set (d := take n data') in *. set (sig := chunk_sig (sePrevSig e) d).
    destruct (Nat.eqb_spec (length d) n) as [Hfull|Hshort].
    + cbn [mbind result_bind sePending]. rewrite <- !app_assoc. f_equal. f_equal. f_equal. rewrite (IH (drop n data') f); [done|done|done|done| |]; rewrite length_drop; simpl in *; lia.
    + assert (drop n data' = []) as Hdrop by (apply drop_ge; unfold d in Hshort; rewrite length_take in Hshort; lia). rewrite Hdrop.
      rewrite bool_decide_false by (intros E; rewrite E in Hlen; simpl in Hlen; lia). cbn [mbind result_bind sePending seSrc sePrevSig seFinal seSum]. rewrite <- !app_assoc. f_equal. f_equal. f_equal.
      destruct fuel as [|[|fuel]]; [simpl in Hfuel; lia..|]. cbn [ChunkEncode.signed_all seFinal]. rewrite Hfin. unfold signed_fill. cbn [seDone sePending seFinal sePrevSig seSum seSrc]. rewrite app_nil_r.
      destruct f; cbn [split_chunks wire_tail]; [done|]. by rewrite bool_decide_true by done.
Qed.

End signed.

(** What the decoder makes of a client's body. *)
Lemma signed_roundtrip_lemma signingKey region date trailer seed data n ps q
    (Htrailer : trailer = "" \/ is_Some (getHasher trailer)) (Hn : (0 < Z.of_nat n <= MaxInt64)%Z) (Hsize : (minChunkSize <= Z.of_nat n)%Z \/ (length data <= n)%nat)
    (Hwire : concat ps ++ q = signed_all signingKey region date trailer n (length data + 2) (NewSignedEncoder (mkSource data SrcEOF) seed)) :
  exists cr, run signingKey region date trailer (negb (bool_decide (trailer = ""))) (Z.of_nat (length data)) (NewSignedChunkReader trailer seed)
      (List.map (fun p => (p, More)) ps ++ [(q, Ended)]) = (cr, data, RunEOF) /\
    (trailer = "" \/ crParsedChecksum cr = trailer_value trailer data).
Proof.
  rewrite (signed_all_wire signingKey region date trailer n data ltac:(lia) _ (length data)) in Hwire by (try done; lia).
  pose proof (split_concat (length data) n data ltac:(lia) ltac:(lia)) as Hc.
  pose proof (pos_start signingKey region date trailer Htrailer seed (split_chunks (length data) n data) ltac:(apply split_ok; auto; lia)) as Hpos.
  rewrite Hc in Hpos. simpl in Hwire. rewrite <- Hwire in Hpos. by apply (run_pos signingKey region date trailer Htrailer _ ps q _ data data).
Qed.

(** C17: a body framed by the client side, in chunks of at least the reader's smallest size or in a single one, with or without a signed trailer, is decoded to exactly its data however the connection splits it into reads, a header or a chunk cut at any byte included, and the reads then end; with a trailer the reader holds the checksum of the data. *)
Theorem signed_roundtrip signingKey region date trailer seed data n ps q
    (Htrailer : trailer = "" \/ is_Some (getHasher trailer)) (Hn : (0 < Z.of_nat n <= MaxInt64)%Z) (Hsize : (minChunkSize <= Z.of_nat n)%Z \/ (length data <= n)%nat)
    (Hwire : concat ps ++ q = signed_all signingKey region date trailer n (length data + 2) (NewSignedEncoder (mkSource data SrcEOF) seed)) :
  exists cr, run signingKey region date trailer (negb (bool_decide (trailer = ""))) (Z.of_nat (length data)) (NewSignedChunkReader trailer seed)
      (List.map (fun p => (p, More)) ps ++ [(q, Ended)]) = (cr, data, RunEOF) /\
    (trailer = "" \/ crParsedChecksum cr = trailer_value trailer data).
Proof. by apply (signed_roundtrip_lemma signingKey region date trailer seed data n). Qed.

(** A body with a trailer, sent a few bytes at a time. *)
Definition ex_wire : bytes := signed_all aws_key (B "us-east-1") aws_date checksumTypeCrc32 8 7 (NewSignedEncoder (mkSource (B "hello") SrcEOF) aws_seed).

Lemma signed_roundtrip_witness : exists cr, run aws_key (B "us-east-1") aws_date checksumTypeCrc32 true 5 (NewSignedChunkReader checksumTypeCrc32 aws_seed)
    (List.map (fun p => (p, More)) [take 40 ex_wire; drop 40 (take 86 ex_wire)] ++ [(drop 86 ex_wire, Ended)]) = (cr, B "hello", RunEOF) /\
  (checksumTypeCrc32 = "" \/ crParsedChecksum cr = trailer_value checksumTypeCrc32 (B "hello")).
Proof.
  apply (signed_roundtrip aws_key (B "us-east-1") aws_date checksumTypeCrc32 aws_seed (B "hello") 8 [take 40 ex_wire; drop 40 (take 86 ex_wire)] (drop 86 ex_wire)).
  - right. by exists crc32_ieee.
  - done.
  - right. simpl. lia.
  - vm_compute. reflexivity.
Defined.

(** ** A last chunk that is never checked *)

Section unchecked.

Context (signingKey region : bytes) (date : Time) (trailer : string) (requireTrailer : bool).

Lemma reads_any_sig size sig : (0 < size <= MaxInt64)%Z -> length sig = 64%nat -> reads (parse_header true requireTrailer trailer []) (chunk_head size sig) (mkHeader size sig None).
Proof.
  intros Hs Hl. unfold parse_header. change (B ";chunk-signature=") with ([";"%char] ++ chunkSignature).
  assert (chunk_head size sig = [] ++ (FormatInt 16 size ++ [";"%char]) ++ chunkSignature ++ sig ++ CRLF ++ []) as ->
    by (unfold chunk_head; change (B ";chunk-signature=") with ([";"%char] ++ chunkSignature); by rewrite <- !app_assoc, app_nil_r).
  eapply reads_bind; [apply reads_ret|]. eapply reads_bind; [apply reads_size; [lia|by right]|]. eapply reads_bind; [apply reads_skip|]. eapply reads_bind; [by apply reads_bytes|].
  eapply reads_bind; [apply reads_skip|]. rewrite (proj2 (Z.eqb_neq _ _)) by lia. apply reads_ret.
Qed.

(** A read that finds the end of the body between chunks, with the declared length handed out, ends the run; a signature still to be checked is left so. *)
Lemma read_end cLength cr : crChunkDataLeft cr = 0%Z -> crDataRead cr = cLength -> exists cr', Read signingKey region date trailer requireTrailer cLength cr ([], Ended) = (cr', Got [] true).
Proof.
  intros Hleft Hread. unfold Read. cbn [set_EOF crChunkDataLeft crDataRead length]. rewrite Hleft, Hread. change (0 <? Z.of_nat 0)%Z with false. cbv iota.
  rewrite (proj2 (Z.ltb_ge _ _)) by (simpl; lia). unfold hand_out. cbn [write set_left set_EOF crDataRead length]. rewrite Hread. rewrite (proj2 (Z.ltb_ge _ _)) by (simpl; lia).
  cbn [set_read crEOF andb]. rewrite (proj2 (Z.eqb_eq _ _)) by (simpl; lia). by eexists.
Qed.

(** The first read: a header with any signature, and its data. *)
Lemma read_first seed data sig : (0 < Z.of_nat (length data) <= MaxInt64)%Z -> length sig = 64%nat -> Forall (fun c => c <> "013"%char) sig ->
  exists cr, Read signingKey region date trailer requireTrailer (Z.of_nat (length data)) (NewSignedChunkReader trailer seed) (chunk_head (Z.of_nat (length data)) sig ++ data, More) = (cr, Got data false) /\
    crChunkDataLeft cr = 0%Z /\ crDataRead cr = Z.of_nat (length data).
Proof.
  intros Hd Hl Hsig.
  set (L := Z.of_nat (length data)). set (h := chunk_head L sig).
  assert (length h = length (FormatInt 16 L) + 83)%nat as Hh by (unfold h, chunk_head; rewrite !length_app, Hl; simpl; lia).
  assert (parseChunkHeaderBytes trailer requireTrailer (set_EOF false (NewSignedChunkReader trailer seed)) (h ++ data) =
    (addChunkSize L (set_stash None (set_EOF false (NewSignedChunkReader trailer seed))), HHeader (mkHeader L sig None) (Z.of_nat (length h)))) as Hp.
  { unfold parseChunkHeaderBytes. cbn [set_EOF Chunked.NewSignedChunkReader crStash default]. change (maxHeaderSize <? length (@nil Ascii.ascii))%nat with false. cbv zeta.
    cbn [set_stash crFirst crChunkSizes app]. destruct (reads_any_sig L sig Hd Hl) as [R _]. fold h in R. rewrite R. cbn [hdSize]. rewrite (proj2 (Z.eqb_neq _ _)) by lia. do 3 f_equal.
    assert (h = (FormatInt 16 L ++ B ";chunk-signature=" ++ sig) ++ CRLF) as Em by (unfold h, chunk_head; by rewrite <- !app_assoc). set (m := FormatInt 16 L ++ B ";chunk-signature=" ++ sig) in *.
    assert (Forall (fun c => c <> "013"%char) m) as Hm.
    { unfold m. apply Forall_app. split; [apply hex_no; [done|apply FormatInt_hex; lia]|]. apply Forall_app. split; [|done]. apply (bool_decide_unpack _). vm_compute. exact I. }
    rewrite Em in *. rewrite length_app in Hh. simpl in Hh. rewrite <- app_assoc, drop_app_le by lia. rewrite IndexCRLF_app by by apply Forall_drop. rewrite length_drop, length_app. simpl. lia. }
  unfold Read. cbn [set_EOF Chunked.NewSignedChunkReader crChunkDataLeft]. fold (set_EOF false (NewSignedChunkReader trailer seed)).
  rewrite (proj2 (Z.ltb_lt _ _)) by (rewrite length_app; lia). change (Z.to_nat 0) with 0%nat. rewrite take_0, drop_0, write_nil. unfold parseAndRemoveChunkInfo. cbn [parseAndRemove].
  change (bool_decide (crParsedSig (set_EOF false (NewSignedChunkReader trailer seed)) = [])) with true. cbv iota zeta beta. cbn [negb]. rewrite Hp. cbn [hdSize hdSig].
  rewrite (proj2 (Z.eqb_neq _ _)) by lia. rewrite length_app. rewrite (proj2 (Z.ltb_ge (Z.of_nat (length h)) 0)) by lia. rewrite (proj2 (Z.ltb_ge (Z.of_nat (length h + length data)) _)) by lia. cbn [orb].
  rewrite Nat2Z.id, drop_app_length. rewrite (proj2 (Z.ltb_ge _ _)) by (unfold L; lia). unfold hand_out. cbn [app write set_left set_parsed addChunkSize set_stash set_EOF Chunked.NewSignedChunkReader crDataRead crEOF].
  rewrite (proj2 (Z.ltb_ge _ _)) by (simpl; unfold L; lia). cbn [set_read crEOF andb]. eexists. split; [reflexivity|]. cbn [set_read write set_left crChunkDataLeft crDataRead]. unfold L. split; lia.
Qed.

(** A chunk at the end of a body is never checked when the body stops right after its data: whatever the signing key, for every data and every 64 bytes in place of its signature, the reader delivers the data and reports the end of the body. *)
Theorem unsigned_last_chunk_accepted seed data sig (Hd : (0 < Z.of_nat (length data) <= MaxInt64)%Z) (Hl : length sig = 64%nat) (Hsig : Forall (fun c => c <> "013"%char) sig) :
  exists cr, run signingKey region date trailer requireTrailer (Z.of_nat (length data)) (NewSignedChunkReader trailer seed)
    [(chunk_head (Z.of_nat (length data)) sig ++ data, More); ([], Ended)] = (cr, data, RunEOF).
Proof.
  destruct (read_first seed data sig Hd Hl Hsig) as (cr & E & Hleft & Hread). destruct (read_end _ cr Hleft Hread) as [cr' E']. exists cr'.
  cbn [run]. by rewrite E, E', app_nil_r.
Qed.

End unchecked.

Lemma unsigned_last_chunk_accepted_witness : exists cr, run aws_key (B "us-east-1") aws_date "" false 5 (NewSignedChunkReader "" aws_seed)
  [(forged_header ++ B "hello", More); ([], Ended)] = (cr, B "hello", RunEOF).
Proof.
  apply (unsigned_last_chunk_accepted aws_key (B "us-east-1") aws_date "" false aws_seed (B "hello") (repeat "0"%char 64)).
  - done.
  - reflexivity.
  - apply (bool_decide_unpack _). vm_compute. exact I.
Defined.
