(* ===== verification/ChunkedAuth.v ===== *)
(** * What a signed body proves (internal/sigv4/chunked/signed-chunk-reader.go)

    Whatever a client sends and however the connection splits it, what the reader has delivered is a
    sequence of chunks each of whose signatures, chained from the request's own, was in the body, and
    then at most one chunk that is still unchecked. *)

From S2P Require Import Prelude Crypto Strconv Civil Chunked ChunkEncode ChunkedSafe.

Section auth.

Context (signingKey region : bytes) (date : Time) (trailer : string) (requireTrailer : bool) (seed : bytes).

Notation chunk_sig := (chunk_sig signingKey region date).
Notation parseAndRemove := (parseAndRemove signingKey region date trailer requireTrailer).

(** The signature after a sequence of chunks. *)
Fixpoint chain (prev : bytes) (cs : list bytes) : bytes := match cs with [] => prev | c :: cs => chain (chunk_sig prev c) cs end.
Lemma chain_app prev cs ds : chain prev (cs ++ ds) = chain (chain prev cs) ds.
Proof. revert prev. induction cs as [|c cs IH]; intros prev; simpl; [done|apply IH]. Qed.

Definition in_wire (w sig : bytes) : Prop := exists a b, w = a ++ sig ++ b.
(** The signature of every chunk was in the body. *)
Definition presented (w : bytes) (cs : list bytes) : Prop := forall cs1 c cs2, cs = cs1 ++ c :: cs2 -> in_wire w (chunk_sig (chain seed cs1) c).

Lemma in_wire_app w x sig : in_wire w sig -> in_wire (w ++ x) sig.
Proof. intros (a & b & ->). exists a, (b ++ x). by rewrite <- !app_assoc. Qed.
Lemma in_wire_suffix a w sig : in_wire w sig -> in_wire (a ++ w) sig.
Proof. intros (b & c & ->). exists (a ++ b), c. by rewrite <- !app_assoc. Qed.
Lemma presented_app w x cs : presented w cs -> presented (w ++ x) cs.
Proof. intros H cs1 c cs2 E. by eapply in_wire_app, H. Qed.
Lemma presented_snoc w cs c : presented w cs -> in_wire w (chunk_sig (chain seed cs) c) -> presented w (cs ++ [c]).
Proof.
  intros H Hc cs1 d cs2 E. destruct cs2 as [|x cs2 _] using rev_ind.
  - apply app_inj_tail in E as [-> ->]. done.
  - rewrite app_comm_cons, app_assoc in E. apply app_inj_tail in E as [-> _]. by eapply H.
Qed.

(** *** A header's signature is part of it *)

Lemma rd_bind_Got {A C} (m : rd A) (k : A -> bytes -> rd C) c r : rd_bind m k = RGot c r -> exists a r', m = RGot a r' /\ k a r' = RGot c r.
Proof. destruct m as [a r'| |e]; simpl; intros H; try done. eauto. Qed.

(** What is left after a read is the end of what was there. *)
Definition consumes {A} (f : bytes -> rd A) : Prop := forall b a r, f b = RGot a r -> exists p, b = p ++ r.
Lemma skip_consumes exp : consumes (readAndSkip exp).
Proof. intros b a r. unfold readAndSkip. destruct (_ <? _)%nat; [done|]. case_bool_decide; [|done]. intros [= <- <-]. exists (take (length exp) b). by rewrite take_drop. Qed.
Lemma trim_consumes d : consumes (readAndTrim d).
Proof.
  intros b. induction b as [|c b IH]; intros a r; simpl; [done|]. case_bool_decide as Hd; [intros [= <- <-]; by exists [c]|]. intros (s & r' & E & H)%rd_bind_Got. injection H as <- <-.
  destruct (IH _ _ E) as [p ->]. by exists (c :: p).
Qed.
Lemma size_consumes sizes : consumes (parseChunkSize sizes).
Proof. intros b a r. unfold parseChunkSize. intros (s & r' & E & H)%rd_bind_Got. apply trim_consumes in E. destruct (ParseInt 16 s); [|done]. destruct (_ <? _)%Z; [done|]. destruct (isValidChunkSize _ _); [|done]. injection H as <- <-. exact E. Qed.

Lemma header_sig first sizes b h r : parse_header first requireTrailer trailer sizes b = RGot h r -> in_wire b (hdSig h) /\ hdSig h <> [].
Proof.
  unfold parse_header. intros (u & b1 & E1 & H)%rd_bind_Got. apply rd_bind_Got in H as (size & b2 & E2 & H). apply rd_bind_Got in H as (u2 & b3 & E3 & H). apply rd_bind_Got in H as (sig & b4 & E4 & H).
  apply rd_bind_Got in H as (u3 & b5 & E5 & H).
  assert (hdSig h = sig) as ->.
  { destruct (size =? 0)%Z; [|injection H as <- _; done]. apply rd_bind_Got in H as (t & b6 & _ & H). by injection H as <- _. }
  assert (exists p, b = p ++ b1) as [p1 ->] by (destruct first; [injection E1 as _ <-; by exists []|by apply skip_consumes in E1]).
  apply size_consumes in E2 as [p2 ->]. apply skip_consumes in E3 as [p3 ->]. unfold readBytes in E4. destruct (length b3 <? 64)%nat eqn:El; [done|]. injection E4 as <- <-. split.
  - do 3 apply in_wire_suffix. exists [], (drop 64 b3). by rewrite app_nil_l, take_drop.
  - apply Nat.ltb_ge in El. intros E. apply (f_equal length) in E. rewrite length_take, Nat.min_l in E by done. done.
Qed.

(** *** The invariant *)

(** [seen] came in and [out] went out: verified chunks, then the chunk in progress. *)
Definition auth (seen out : bytes) (cr : ChunkReader) : Prop :=
  exists cs, crPrevSig cr = chain seed cs /\ out = concat cs ++ crChunkHash cr /\ presented seen cs /\
    (crParsedSig cr <> [] -> in_wire seen (crParsedSig cr)) /\ (crParsedSig cr = [] -> crChunkHash cr = []).

(** What is stashed, and what comes after it, is the end of what was seen. *)
Definition ends_with (seen b : bytes) : Prop := exists a, seen = a ++ b.
Definition stashed (cr : ChunkReader) : bytes := default [] (crStash cr).

(** Between reads, a chunk in progress has its signature to be checked, and nothing is stashed. *)
Definition at_rest (cr : ChunkReader) : Prop :=
  (0 <= crChunkDataLeft cr)%Z /\ ((0 < crChunkDataLeft cr)%Z -> crParsedSig cr <> [] /\ stashed cr = []).

Lemma auth_more seen out cr x : auth seen out cr -> auth (seen ++ x) out cr.
Proof. intros (cs & Hp & Ho & Hpr & Hw & Hh). exists cs. split_and!; try done; [by apply presented_app|]. intros Hn. by apply in_wire_app, Hw. Qed.
Lemma ends_with_nil seen : ends_with seen [].
Proof. exists seen. by rewrite app_nil_r. Qed.

Lemma check_auth seen out cr cr' : auth seen out cr -> (if bool_decide (crParsedSig cr = []) then (cr, true) else checkSignature signingKey region date cr) = (cr', true) ->
  auth seen out cr' /\ crParsedSig cr' = [] /\ crStash cr' = crStash cr.
Proof.
  intros (cs & Hp & Ho & Hpr & Hw & Hh). case_bool_decide as Hn; [intros [= <-]; split_and!; try done; by exists cs|].
  unfold checkSignature. case_bool_decide as Hsig; intros [= <-]. split_and!; try done. exists (cs ++ [crChunkHash cr]). cbn [set_sig crPrevSig crChunkHash crStash crParsedSig].
  split_and!; try done.
  - rewrite chain_app. simpl. by rewrite <- Hp.
  - by rewrite concat_app, app_nil_r, Ho; simpl; rewrite app_nil_r.
  - apply presented_snoc; [done|]. rewrite <- Hp, Hsig. by apply Hw.
Qed.

(** Data of the chunk in progress. *)
Lemma auth_write seen out cr d : auth seen out cr -> crParsedSig cr <> [] -> auth seen (out ++ d) (write d cr).
Proof. intros (cs & Hp & Ho & Hpr & Hw & _) Hn. exists cs. cbn [write crPrevSig crChunkHash crParsedSig]. split_and!; try done. by rewrite Ho, app_assoc. Qed.

(** A header leaves what was delivered alone, and its signature was seen. *)
Lemma header_auth seen out cr p cr' r : auth seen out cr -> crParsedSig cr = [] -> ends_with seen (stashed cr ++ p) -> parseChunkHeaderBytes trailer requireTrailer cr p = (cr', r) ->
  match r with
  | HErr _ => True
  | HSkip => auth seen out cr' /\ crParsedSig cr' = [] /\ ends_with seen (stashed cr')
  | HHeader h off => crPrevSig cr' = crPrevSig cr /\ crChunkHash cr' = crChunkHash cr /\ crStash cr' = None /\ in_wire seen (hdSig h) /\ hdSig h <> []
  end.
Proof.
  intros (cs & Hp & Ho & Hpr & Hw & Hh) Hn Hend. unfold parseChunkHeaderBytes. fold (stashed cr). destruct (_ <? _)%nat; [by intros [= <- <-]|]. cbv zeta.
  assert (forall t c r, handleRdrErr (stashed cr ++ p) (set_trailer t (set_stash None cr)) = (c, r) ->
    match r with HSkip => auth seen out c /\ crParsedSig c = [] /\ ends_with seen (stashed c) | HErr _ => True | HHeader _ _ => False end) as Hshort.
  { intros t c r0. unfold handleRdrErr. destruct (crEOF _); intros [= <- <-]; [done|]. split_and!; [|by destruct t as [[? ?]|]|done].
    exists cs. by destruct t as [[? ?]|]. }
  destruct (parse_header _ _ _ _ _) as [h rest| |e] eqn:Eh.
  - destruct (header_sig _ _ _ _ _ Eh) as [Hin Hne].
    assert (in_wire seen (hdSig h)) as Hin' by (destruct Hend as [a ->]; by apply in_wire_suffix).
    destruct (hdSize h =? 0)%Z; [|by intros [= <- <-]]. destruct (readAndSkip CRLF rest) as [u r'| |e].
    + intros [= <- <-]. destruct (hdTrailer h) as [[? ?]|]; done.
    + intros E. specialize (Hshort _ _ _ E). by destruct r.
    + by intros [= <- <-].
  - intros E. specialize (Hshort None _ _ E). by destruct r.
  - by intros [= <- <-].
Qed.

Lemma parse_auth fuel seen out cr p cr' d eof : auth seen out cr -> ends_with seen (stashed cr ++ p) -> parseAndRemove fuel cr p = (cr', PData d eof) ->
  auth seen (out ++ d) cr' /\ ends_with seen (stashed cr') /\ (eof = false -> at_rest cr').
Proof.
  revert out cr p cr' d. induction fuel as [|fuel IH]; intros out cr p cr' d Ha Hend H; [done|]. cbn [Chunked.parseAndRemove] in H.
  destruct (if bool_decide (crParsedSig cr = []) then _ else _) as [cr1 ok] eqn:Ec. destruct ok; cbn [negb] in H; [|discriminate H]. destruct (check_auth _ _ _ _ Ha Ec) as (Ha1 & Hn1 & Est). clear Ec.
  unfold stashed in Hend. rewrite <- Est in Hend.
  destruct (parseChunkHeaderBytes trailer requireTrailer cr1 p) as [cr2 r] eqn:Eh. pose proof (header_auth _ _ _ _ _ _ Ha1 Hn1 Hend Eh) as Hr.
  destruct r as [h off| |e]; [|injection H as <- <- <-; rewrite app_nil_r; destruct Hr as (? & ? & ?); split_and!; try done; intros _; split; cbn; lia|done].
  destruct Hr as (E1 & E2 & E3 & Hin & Hne). destruct Ha1 as (cs & Hp & Ho & Hpr & Hw & Hh). rewrite (Hh Hn1) in Ho, E2.
  assert (forall left, auth seen out (set_left left (set_parsed (hdSig h) cr2))) as Hpar.
  { intros left. exists cs. cbn [set_left set_parsed crPrevSig crChunkHash crParsedSig]. rewrite E1, E2. split_and!; done. }
  destruct (hdSize h =? 0)%Z.
  - destruct (checkSignature _ _ _ _) as [cr3 ok] eqn:E. destruct ok; cbn [negb] in H; [|discriminate H].
    assert (cr' = cr3 /\ d = [] /\ eof = true) as (-> & -> & ->) by (repeat case_match; by simplify_eq).
    set (crf := set_parsed (hdSig h) cr2) in *.
    destruct (check_auth seen out (set_sig (crPrevSig crf) (crParsedSig crf) crf) cr3) as (Ha3 & _ & Est3).
    + exists cs. unfold crf. cbn [set_sig set_parsed crPrevSig crChunkHash crParsedSig]. rewrite E1. split_and!; done.
    + rewrite bool_decide_false by done. exact E.
    + rewrite app_nil_r. split_and!; [done| |done]. unfold stashed. rewrite Est3. unfold crf. cbn [set_sig set_parsed crStash]. rewrite E3. apply ends_with_nil.
  - destruct (_ || _) eqn:Eoff; [done|]. destruct (Z.ltb_spec (hdSize h) (Z.of_nat (length (drop (Z.to_nat off) p)))) as [Hlt|Hge].
    + set (q := drop (Z.to_nat off) p) in *. set (c := take (Z.to_nat (hdSize h)) q) in *.
      destruct (parseAndRemove fuel _ (drop (Z.to_nat (hdSize h)) q)) as [cr3 r] eqn:Er. injection H as <- Hd. destruct r as [b eof'| |]; [|done|done]. simpl in Hd. injection Hd as <- <-.
      apply (IH (out ++ c)) in Er as (Ha3 & Hs3 & Hrest); [by rewrite <- app_assoc in Ha3|by apply auth_write|].
      unfold stashed. cbn [write set_left set_parsed crStash]. rewrite E3. destruct Hend as [a ->]. simpl. unfold ends_with. exists (a ++ default [] (crStash cr1) ++ take (Z.to_nat off) p ++ c).
      rewrite <- !app_assoc. do 2 f_equal. unfold c. rewrite take_drop. unfold q. by rewrite take_drop.
    + injection H as <- <- <-. split_and!; [by apply auth_write| |].
      * unfold stashed. cbn [write set_left set_parsed crStash]. rewrite E3. apply ends_with_nil.
      * intros _. split; cbn [write set_left set_parsed crChunkDataLeft crParsedSig]; [lia|]. intros _. split; [done|]. unfold stashed. cbn [write set_left set_parsed crStash]. by rewrite E3.
Qed.

Context (cLength : Z).

Lemma hand_out_auth seen out b eof cr cr' d eof' : auth seen (out ++ b) cr -> hand_out cLength b eof cr = (cr', Got d eof') ->
  d = b /\ eof' = eof /\ auth seen (out ++ d) cr' /\ stashed cr' = stashed cr /\ (at_rest cr -> at_rest cr').
Proof. intros Ha. unfold hand_out. destruct (_ <? _)%Z; [done|]. destruct (_ && _); [done|]. intros [= <- <- <-]. done. Qed.

(** The invariant over one read. *)
Lemma read_auth seen out cr p e cr' d eof : auth seen out cr -> ends_with seen (stashed cr) -> at_rest cr ->
  Read signingKey region date trailer requireTrailer cLength cr (p, e) = (cr', Got d eof) ->
  auth (seen ++ p) (out ++ d) cr' /\ ends_with (seen ++ p) (stashed cr') /\ (eof = false -> at_rest cr').
Proof.
  intros Ha Hs [Hl Hrest] H. unfold Read in H. set (cr0 := set_EOF _ cr) in H.
  assert (auth (seen ++ p) out cr0 /\ ends_with seen (stashed cr0) /\ (0 <= crChunkDataLeft cr0)%Z /\ ((0 < crChunkDataLeft cr0)%Z -> crParsedSig cr0 <> [] /\ stashed cr0 = [])) as (Ha0 & Hs0 & Hl0 & Hr0).
  { split_and!; [|done|done|done]. exact (auth_more seen out cr p Ha). }
  assert ((if (crChunkDataLeft cr0 <? Z.of_nat (length p))%Z then
      let d := take (Z.to_nat (crChunkDataLeft cr0)) p in
      match parseAndRemoveChunkInfo signingKey region date trailer requireTrailer (write d cr0) (drop (Z.to_nat (crChunkDataLeft cr0)) p) with
      | (cr, PErr e) => (cr, Fails e) | (cr, PPanic) => (cr, Panics) | (cr, PData b eof) => hand_out cLength (d ++ b) eof cr end
    else let n := (crDataRead cr0 + Z.of_nat (length p))%Z in
      if (cLength <? n)%Z then (cr0, Fails errContentLengthMismatch) else hand_out cLength p (crEOF cr0) (write p (set_left (crChunkDataLeft cr0 - Z.of_nat (length p)) cr0))) = (cr', Got d eof)) as H'
    by (by destruct e). clear H. clearbody cr0. rename H' into H. cbv zeta in H.
  assert (forall c left, c = [] \/ (0 < crChunkDataLeft cr0)%Z -> auth (seen ++ p) (out ++ c) (write c (set_left left cr0))) as Hwr.
  { intros c left [->|Hp]; [|apply (auth_write _ _ (set_left left cr0)); [exact Ha0|by apply Hr0]]. rewrite app_nil_r. destruct Ha0 as (cs & ? & ? & ? & ? & ?). exists cs. cbn [write set_left crPrevSig crChunkHash crParsedSig]. by rewrite !app_nil_r. }
  destruct (Z.ltb_spec (crChunkDataLeft cr0) (Z.of_nat (length p))) as [Hlt|Hge].
  - set (c := take (Z.to_nat (crChunkDataLeft cr0)) p) in *. destruct (parseAndRemoveChunkInfo _ _ _ _ _ _ _) as [cr1 [b eof1| |]] eqn:Ep; try done.
    assert (auth (seen ++ p) (out ++ c) (write c cr0)) as Hw.
    { replace cr0 with (set_left (crChunkDataLeft cr0) cr0) by by destruct cr0. apply Hwr. destruct (decide (crChunkDataLeft cr0 = 0%Z)) as [E|]; [left; unfold c; by rewrite E|right; lia]. }
    apply (parse_auth _ (seen ++ p) (out ++ c)) in Ep as (Ha1 & Hs1 & Hr1); [|done|].
    + apply (hand_out_auth (seen ++ p) out) in H as (-> & -> & Ha2 & Es & Hr2); [|by rewrite app_assoc]. split_and!; [done|by rewrite Es|]. intros ->. by apply Hr2, Hr1.
    + unfold stashed. cbn [write crStash]. fold (stashed cr0). destruct (decide (crChunkDataLeft cr0 = 0%Z)) as [E|E].
      * rewrite E. change (Z.to_nat 0) with 0%nat. rewrite drop_0. destruct Hs0 as [a ->]. exists a. by rewrite app_assoc.
      * destruct Hr0 as [_ ->]; [lia|]. exists (seen ++ c). unfold c. by rewrite <- app_assoc, app_nil_l, take_drop.
  - destruct (_ <? _)%Z; [done|]. apply (hand_out_auth (seen ++ p) out) in H as (-> & -> & Ha2 & Es & Hr2).
    + split_and!; [done| |].
      * rewrite Es. unfold stashed. cbn [write set_left crStash]. fold (stashed cr0). destruct p as [|x p]; [by rewrite app_nil_r|]. destruct Hr0 as [_ ->]; [simpl in Hge; lia|]. apply ends_with_nil.
      * intros _. apply Hr2. split; cbn [write set_left crChunkDataLeft crParsedSig]; [lia|]. intros Hpos. unfold stashed. cbn [write set_left crStash]. apply Hr0. lia.
    + apply Hwr. destruct p as [|x p]; [by left|right; simpl in Hge; lia].
Qed.

Lemma run_auth ps seen out cr cr' d e : auth seen out cr -> ends_with seen (stashed cr) -> at_rest cr ->
  run signingKey region date trailer requireTrailer cLength cr ps = (cr', d, e) -> e = RunEOF \/ e = RunMore -> auth (seen ++ concat ps.*1) (out ++ d) cr'.
Proof.
  revert seen out cr d. induction ps as [|[p pe] ps IH]; intros seen out cr d Ha Hs Hr H He; cbn [run concat fmap list_fmap] in *.
  - injection H as <- <- <-. by rewrite !app_nil_r.
  - destruct (Read _ _ _ _ _ _ _ _) as [cr1 [b [|]|e0| |]] eqn:Er; try (injection H as <- <- <-; by destruct He).
    + injection H as <- <- <-. destruct (read_auth _ _ _ _ _ _ _ _ Ha Hs Hr Er) as (Ha1 & _ & _). rewrite app_assoc. by apply auth_more.
    + destruct (run _ _ _ _ _ _ cr1 ps) as [[cr2 d2] e2] eqn:E2. injection H as <- <- <-. destruct (read_auth _ _ _ _ _ _ _ _ Ha Hs Hr Er) as (Ha1 & Hs1 & Hr1).
      rewrite !app_assoc. by apply (IH _ _ cr1 d2 Ha1 Hs1 (Hr1 eq_refl)).
Qed.

Lemma auth_start : auth [] [] (NewSignedChunkReader trailer seed).
Proof. exists []. split_and!; try done. intros cs1 c cs2 E. by destruct cs1. Qed.

(** C8: whatever a client sends, in whatever pieces, everything the reader has delivered is a sequence of chunks whose signatures, each over its chunk and the signature before it from the request's own on, were all in the body, and then only the chunk in progress; so when no signature is left to check, every byte delivered was signed. *)
Theorem delivered_is_signed ps cr d e (Hrun : run signingKey region date trailer requireTrailer cLength (NewSignedChunkReader trailer seed) ps = (cr, d, e))
    (He : e = RunEOF \/ e = RunMore) :
  exists cs, d = concat cs ++ crChunkHash cr /\ presented (concat ps.*1) cs /\ crPrevSig cr = chain seed cs /\ (crParsedSig cr = [] -> crChunkHash cr = []).
Proof.
  destruct (run_auth ps [] [] _ _ _ _ auth_start (ends_with_nil []) ltac:(split; cbn; lia) Hrun He) as (cs & Hp & Hd & Hpr & _ & Hh). by exists cs.
Qed.

End auth.

Definition ex_run : ChunkReader * bytes * runEnd := run aws_key (B "us-east-1") aws_date checksumTypeCrc32 true 5 (NewSignedChunkReader checksumTypeCrc32 aws_seed) [(ex_wire, Ended)].

Lemma delivered_is_signed_witness : exists cs, B "hello" = concat cs ++ crChunkHash ex_run.1.1 /\ presented aws_key (B "us-east-1") aws_date aws_seed (concat [(ex_wire, Ended)].*1) cs /\
  crPrevSig ex_run.1.1 = chain aws_key (B "us-east-1") aws_date aws_seed cs /\ (crParsedSig ex_run.1.1 = [] -> crChunkHash ex_run.1.1 = []).
Proof.
  apply (delivered_is_signed aws_key (B "us-east-1") aws_date checksumTypeCrc32 true aws_seed 5 [(ex_wire, Ended)] ex_run.1.1 (B "hello") RunEOF).
  - vm_compute. reflexivity.
  - by left.
Defined.
