(* ===== verification/ChunkReframe.v ===== *)
(** * A body re-framed for a backend (internal/sigv4/chunked/encoder.go, internal/proxy/auth.go planBody)

    A body whose signed chunks the proxy decoded goes to the backend in unsigned frames of a fixed size,
    with the checksum as a trailer and with a length computed before the first byte.  Whatever buffers
    it is read with, the frames are the same, their length is the one computed, and a source that fails
    or is short never yields the final frame. *)

From S2P Require Import Prelude Crypto Strconv Civil Chunked ChunkEncode ChunkedSafe.

(** Reduce the fields of an encoder and its source, and nothing else. *)
Ltac enc := cbn [enSrc enRemaining enPending enSrcEOF enFinalDone srcBytes srcEnds] in *.

Section reframe.

Context (name Checksum : bytes) (chunkSize : nat) (Hsize : (0 < chunkSize)%nat).

Notation final_frame := (final_frame name Checksum).
Notation fill := (fill name Checksum chunkSize).
Notation Encoder_Read := (Encoder_Read name Checksum chunkSize).
Notation encoder_run := (encoder_run name Checksum chunkSize).

Definition frames (data : bytes) : bytes := concat (List.map frame (split_chunks (length data) chunkSize data)).
Definition encoded (data : bytes) : bytes := frames data ++ final_frame.

(** The frames of a body with at least one byte are those of its first chunk and of the rest. *)
Lemma split_fuel f1 f2 data : (length data <= f1)%nat -> (length data <= f2)%nat -> split_chunks f1 chunkSize data = split_chunks f2 chunkSize data.
Proof.
  revert f2 data. induction f1 as [|f1 IH]; intros f2 data H1 H2.
  - destruct data; [|simpl in H1; lia]. by destruct f2.
  - destruct f2 as [|f2]; [destruct data; [done|simpl in H2; lia]|]. cbn [split_chunks]. case_bool_decide as Hd; [done|]. f_equal.
    apply IH; rewrite length_drop; destruct data; simpl in *; try done; lia.
Qed.
Lemma frames_step data : data <> [] -> frames data = frame (take chunkSize data) ++ frames (drop chunkSize data).
Proof.
  intros Hd. unfold frames. destruct data as [|x data]; [done|]. set (d := x :: data) in *. change (length d) with (S (length data)). cbn [split_chunks].
  rewrite bool_decide_false by done. cbn [List.map concat]. f_equal. do 2 f_equal. apply split_fuel; rewrite length_drop; unfold d; simpl; lia.
Qed.
Lemma frame_ne d : frame d <> [].
Proof. unfold frame. intros E. apply (f_equal length) in E. rewrite !length_app in E. simpl in E. lia. Qed.
Lemma final_ne : final_frame <> [].
Proof. done. Qed.

(** *** A good source *)

(** What is still to come from an encoder whose source gives the declared bytes and ends. *)
Definition good (e : Encoder) : Prop :=
  srcEnds (enSrc e) = SrcEOF /\ enRemaining e = Z.of_nat (length (srcBytes (enSrc e))) /\ (enSrcEOF e = true -> srcBytes (enSrc e) = []) /\ (enFinalDone e = true -> enSrcEOF e = true).
Definition future (e : Encoder) : bytes :=
  enPending e ++ if enFinalDone e then [] else frames (srcBytes (enSrc e)) ++ final_frame.

Lemma fill_good e : good e -> enPending e = [] -> enFinalDone e = false -> exists e', fill e = Ok e' /\ good e' /\ future e' = future e /\ enPending e' <> [].
Proof.
  intros (He & Hr & Hs & _) Hp Hf. unfold ChunkEncode.fill, future. rewrite Hp, Hf. destruct (enSrcEOF e) eqn:Es.
  { eexists. split; [reflexivity|]. unfold emit_final, good. enc. rewrite (Hs eq_refl), Hr, (Hs eq_refl). rewrite app_nil_r. split_and!; done. }
  rewrite Hr. destruct e as [[data ends] rem pend seof fin]. enc. subst.
  set (want := if _ && _ then _ else _). assert (want = Nat.min chunkSize (length data)) as Hw.
  { unfold want. rewrite (proj2 (Z.leb_le _ _)) by lia. cbn [andb]. destruct (Z.ltb_spec (Z.of_nat (length data)) (Z.of_nat chunkSize)); lia. }
  assert (take want data = take chunkSize data) as Ht by (rewrite Hw; destruct (decide (chunkSize <= length data)%nat); [by rewrite Nat.min_l|rewrite Nat.min_r by lia; rewrite !take_ge by lia; done]).
  unfold ReadFull. cbn [srcBytes srcEnds]. assert (length (take want data) = want) as Hl by (rewrite length_take; lia). rewrite Hl, Nat.eqb_refl.
  destruct data as [|x data].
  - simpl in Hw. rewrite Nat.min_0_r in Hw. rewrite Hw. eexists. split; [reflexivity|]. unfold good, emit_final. enc. rewrite app_nil_r. split_and!; done.
  - set (d := x :: data) in *. assert (0 < want)%nat as Hpos by (rewrite Hw; simpl; lia). rewrite (proj2 (Nat.ltb_lt _ _)) by done.
    assert (drop want d = drop chunkSize d) as Hdr by (rewrite Hw; destruct (decide (chunkSize <= length d)%nat); [by rewrite Nat.min_l|rewrite Nat.min_r by lia; rewrite !drop_ge by lia; done]).
    assert (Z.of_nat (length d) - Z.of_nat want = Z.of_nat (length (drop want d)))%Z as Hrem by (rewrite length_drop; lia). rewrite Hrem.
    assert (forall ended, good (mkEncoder (mkSource (drop want d) SrcEOF) (Z.of_nat (length (drop want d))) (frame (take want d)) ended false) <-> (ended = true -> drop want d = [])) as Hgood by (intros ended; unfold good; enc; split; [by intros (_ & _ & ? & _)|intros ?; by split_and!]).
    assert (forall ended, future (mkEncoder (mkSource (drop want d) SrcEOF) (Z.of_nat (length (drop want d))) (frame (take want d)) ended false) = frames d ++ final_frame) as Hfut.
    { intros ended. unfold future. cbn [enPending enFinalDone enSrc srcBytes]. rewrite app_assoc. f_equal. rewrite (frames_step d) by done. by rewrite Ht, Hdr. }
    destruct (Z.eqb_spec (Z.of_nat (length (drop want d))) 0) as [E0|E0].
    + assert (drop want d = []) as E by (destruct (drop want d); [done|simpl in E0; lia]). unfold drain. cbn [srcBytes srcEnds]. rewrite bool_decide_true by done. cbn [mbind result_bind].
      eexists. split; [reflexivity|]. split; [by apply Hgood|]. split; [apply Hfut|apply frame_ne].
    + cbn [mbind result_bind]. eexists. split; [reflexivity|]. split; [by apply Hgood|]. split; [apply Hfut|apply frame_ne].
Qed.

Lemma read_good n e : good e -> (0 < n)%nat -> future e = [] /\ Encoder_Read n e = (e, EncEOF) \/
  exists e' b, Encoder_Read n e = (e', EncGot b) /\ b <> [] /\ good e' /\ future e = b ++ future e'.
Proof.
  intros Hg Hn. assert (forall fuel e, good e -> enPending e <> [] -> exists e' b, encoder_read name Checksum chunkSize fuel n e = (e', EncGot b) /\ b <> [] /\ good e' /\ future e = b ++ future e') as Hhand.
  { intros fuel e0 Hg0 Hp. exists (mkEncoder (enSrc e0) (enRemaining e0) (drop n (enPending e0)) (enSrcEOF e0) (enFinalDone e0)), (take n (enPending e0)).
    assert (encoder_read name Checksum chunkSize fuel n e0 = (mkEncoder (enSrc e0) (enRemaining e0) (drop n (enPending e0)) (enSrcEOF e0) (enFinalDone e0), EncGot (take n (enPending e0)))) as -> by (destruct fuel; cbn; by rewrite bool_decide_false).
    split_and!; [done|destruct n; [lia|]; by destruct (enPending e0)|done|]. unfold future. enc. by rewrite app_assoc, take_drop. }
  destruct (decide (enPending e = [])) as [Hp|Hp]; [|right; by apply Hhand]. destruct (enFinalDone e) eqn:Hf.
  - left. unfold future. rewrite Hp, Hf. split; [done|]. unfold ChunkEncode.Encoder_Read. cbn. by rewrite bool_decide_true, Hf.
  - right. destruct (fill_good e Hg Hp Hf) as (e1 & E1 & Hg1 & Hfu & Hp1). rewrite <- Hfu. unfold ChunkEncode.Encoder_Read. cbn [encoder_read]. rewrite bool_decide_true by done. rewrite Hf, E1. by apply (Hhand 1%nat).
Qed.

Lemma run_good sizes e : good e -> Forall (fun n => (0 < n)%nat) sizes -> exists out rest r, encoder_run sizes e = (out, r) /\ future e = out ++ rest /\
  (r = EncRunEOF /\ rest = [] \/ r = EncRunMore) /\ ((length (future e) < length sizes)%nat -> r = EncRunEOF).
Proof.
  intros Hg Hs. revert e Hg. induction Hs as [|n sizes Hn Hs IH]; intros e Hg.
  - exists [], (future e), EncRunMore. split_and!; [done|done|by right|simpl; lia].
  - cbn [ChunkEncode.encoder_run]. destruct (read_good n e Hg Hn) as [[Hf ->]|(e' & b & -> & Hb & Hg' & Hf)].
    + exists [], [], EncRunEOF. rewrite Hf. split_and!; [done|done|by left|done].
    + destruct (IH e' Hg') as (out & rest & r & -> & Hfu & Hr & Hlen). exists (b ++ out), rest, r. split_and!; [done|by rewrite Hf, Hfu, app_assoc|done|].
      rewrite Hf, length_app. destruct b; [done|]. simpl. intros ?. apply Hlen. lia.
Qed.

(** *** A source that fails *)

(** A source that ends in an error, or short of the declared length. *)
Definition failing (e : Encoder) : Prop := enSrcEOF e = false /\ enFinalDone e = false /\
  (match srcEnds (enSrc e) with SrcErr _ => (Z.of_nat (length (srcBytes (enSrc e))) <= enRemaining e)%Z | SrcEOF => (Z.of_nat (length (srcBytes (enSrc e))) < enRemaining e)%Z end).

Lemma fill_failing e : failing e -> match fill e with Ok e' => failing e' | Err _ => True end.
Proof.
  intros (Hs & Hf & Hr). unfold ChunkEncode.fill. rewrite Hs. destruct e as [[data ends] rem pend seof fin]. enc. subst.
  set (want := if (0 <=? rem)%Z && (rem <? Z.of_nat chunkSize)%Z then Z.to_nat rem else chunkSize). unfold ReadFull. cbn [srcBytes srcEnds].
  assert (Z.of_nat want <= rem \/ rem < 0)%Z as Hw by (unfold want; destruct (Z.leb_spec 0 rem), (Z.ltb_spec rem (Z.of_nat chunkSize)); cbn; lia).
  rewrite length_take. destruct (Nat.eqb_spec (Nat.min want (length data)) want) as [E|E].
  - set (rem' := if (0 <? Nat.min want (length data))%nat then (rem - Z.of_nat (Nat.min want (length data)))%Z else rem). assert (rem' = rem - Z.of_nat want)%Z as Hrem by (unfold rem'; destruct (Nat.ltb_spec 0 (Nat.min want (length data))); lia). rewrite Hrem.
    destruct (Z.eqb_spec (rem - Z.of_nat want) 0) as [E0|E0].
    + unfold drain. cbn [srcBytes srcEnds]. case_bool_decide as Hd; [|done]. destruct ends; [|done]. assert (length (drop want data) = 0)%nat as Hd0 by by rewrite Hd. rewrite length_drop in Hd0. lia.
    + cbn [mbind result_bind]. destruct (Nat.ltb_spec 0 (Nat.min want (length data))) as [Hlt|Hge].
      * split_and!; [done|done|]. cbn. rewrite length_drop. destruct ends; lia.
      * exfalso. assert (want = 0)%nat as W by lia. unfold want in W. destruct (Z.leb_spec 0 rem), (Z.ltb_spec rem (Z.of_nat chunkSize)); cbn in W; lia.
  - destruct ends as [|er]; [|done]. set (rem' := if (0 <? Nat.min want (length data))%nat then (rem - Z.of_nat (Nat.min want (length data)))%Z else rem). assert (0 < rem')%Z as Hrem by (unfold rem'; destruct (Nat.ltb_spec 0 (Nat.min want (length data))); lia).
    case_bool_decide; rewrite (proj2 (Z.ltb_lt _ _)) by done; done.
Qed.

Lemma run_failing sizes e : failing e -> (encoder_run sizes e).2 <> EncRunEOF.
Proof.
  revert e. induction sizes as [|n sizes IH]; intros e Hf; [done|]. cbn [ChunkEncode.encoder_run].
  assert (forall fuel e, failing e -> match encoder_read name Checksum chunkSize fuel n e with (e', EncGot _) => failing e' | (_, EncEOF) => fuel = 0%nat | _ => True end) as Hread.
  { clear e Hf. induction fuel as [|fuel IHf]; intros e Hf; cbn [encoder_read]; case_bool_decide; try done; destruct Hf as (Hs & Hfi & Hr); rewrite Hfi; try done.
    pose proof (fill_failing e (conj Hs (conj Hfi Hr))) as H1. destruct (fill e) as [e1|] eqn:E1; [|done]. specialize (IHf e1 H1). destruct (encoder_read _ _ _ fuel n e1) as [e2 [b| |]] eqn:E2; try done.
    exfalso. destruct H1 as (Hs1 & Hf1 & Hr1). unfold ChunkEncode.fill in E1. rewrite Hs in E1. subst fuel. cbn in E2. revert E2. case_bool_decide as Hp; [|done]. intros _.
    destruct (ReadFull _ _) as [[got err] src]. destruct (match err with None => _ | _ => _ end) as [ended|]; [|done]. cbn [mbind result_bind] in E1.
    destruct (Nat.ltb_spec 0 (length got)) as [Hlt|Hge]; [|injection E1 as <-; done]. injection E1 as <-. cbn in Hp. by apply frame_ne in Hp. }
  specialize (Hread 2%nat e Hf). unfold ChunkEncode.Encoder_Read. destruct (encoder_read _ _ _ 2 n e) as [e' [b| |]]; [|done|done].
  destruct (encoder_run sizes e') as [d r] eqn:E. simpl. specialize (IH e' Hread). by rewrite E in IH.
Qed.

(** *** Lengths *)

Lemma frame_length d : Z.of_nat (length (frame d)) = (hexLen (Z.of_nat (length d)) + 2 + Z.of_nat (length d) + 2)%Z.
Proof. unfold frame, hexLen. rewrite !length_app. change (length CRLF) with 2%nat. lia. Qed.

Lemma frames_length data : let c := Z.of_nat chunkSize in let L := Z.of_nat (length data) in
  Z.of_nat (length (frames data)) = (L / c * (hexLen c + 2 + c + 2) + if (0 <? L mod c)%Z then hexLen (L mod c) + 2 + L mod c + 2 else 0)%Z.
Proof.
  cbv zeta. remember (length data) as m eqn:Hm. revert data Hm. induction m as [m IH] using lt_wf_ind. intros data ->. destruct data as [|x data].
  - cbn [length frames split_chunks List.map concat]. rewrite Z.div_0_l, Z.mod_0_l by lia. done.
  - set (d := x :: data) in *. rewrite frames_step by done. rewrite length_app, Nat2Z.inj_add, frame_length.
    rewrite (IH (length (drop chunkSize d))) by (rewrite ?length_drop; unfold d; simpl; lia || done). rewrite length_take, length_drop.
    destruct (decide (chunkSize <= length d)%nat) as [Hle|Hgt].
    + rewrite Nat.min_l by done. rewrite Nat2Z.inj_sub by done. replace (Z.of_nat (length d) - Z.of_nat chunkSize)%Z with (Z.of_nat (length d) + (-1) * Z.of_nat chunkSize)%Z by lia.
      rewrite Z.div_add, Z.mod_add by lia. lia.
    + rewrite Nat.min_r by lia. replace (length d - chunkSize)%nat with 0%nat by lia. rewrite Z.div_0_l, Z.mod_0_l by lia. rewrite Z.div_small, Z.mod_small by lia.
      rewrite (proj2 (Z.ltb_lt 0 (Z.of_nat (length d)))) by (unfold d; simpl; lia). change (0 <? 0)%Z with false. lia.
Qed.

Lemma encoded_length data : Z.of_nat (length (encoded data)) = EncodedLength (Z.of_nat (length data)) (Z.of_nat chunkSize) (Z.of_nat (length name)) (Z.of_nat (length Checksum)).
Proof.
  unfold encoded, EncodedLength, chunk_size. rewrite (proj2 (Z.leb_gt _ _)) by lia. rewrite Z.quot_div_nonneg, Z.rem_mod_nonneg by lia. rewrite length_app, Nat2Z.inj_add, frames_length.
  unfold ChunkEncode.final_frame. rewrite !length_app. change (length CRLF) with 2%nat. simpl (length (B _)). lia.
Qed.

End reframe.

(** ** The decoder as a source *)

(** What reading the decoder to its end gives; a panic in it is answered as an incomplete body
    ([guardReader]), and a body that has not ended yet reads as one. *)
Definition source_of (d : bytes) (e : runEnd) : source :=
  mkSource d (match e with RunEOF => SrcEOF | RunFails er => SrcErr er | RunFailsIO | RunPanics | RunMore => SrcErr IncompleteBody end).

(** Only handing data out counts it. *)
Lemma check_count key region date c : crDataRead (checkSignature key region date c).1 = crDataRead c.
Proof. unfold checkSignature. by case_bool_decide. Qed.
Lemma trailer_count t c : crDataRead (set_trailer t c) = crDataRead c.
Proof. by destruct t as [[? ?]|]. Qed.
Lemma stash_count b c : crDataRead (handleRdrErr b c).1 = crDataRead c.
Proof. unfold handleRdrErr. by destruct (crEOF c). Qed.
Lemma header_count trailer req c p : crDataRead (parseChunkHeaderBytes trailer req c p).1 = crDataRead c.
Proof.
  unfold parseChunkHeaderBytes. destruct (_ <? _)%nat; [done|]. cbv zeta. destruct (parse_header _ _ _ _ _) as [h rest| |e]; [|by rewrite stash_count|done].
  destruct (hdSize h =? 0)%Z; [|done]. destruct (readAndSkip CRLF rest); rewrite ?stash_count; cbn [fst]; by rewrite trailer_count.
Qed.
Lemma parse_count key region date trailer req fuel c p : crDataRead (parseAndRemove key region date trailer req fuel c p).1 = crDataRead c.
Proof.
  revert c p. induction fuel as [|fuel IH]; intros c p; cbn [parseAndRemove]; [done|].
  assert (crDataRead (if bool_decide (crParsedSig c = []) then (c, true) else checkSignature key region date c).1 = crDataRead c) as H1 by (case_bool_decide; [done|apply check_count]).
  destruct (if bool_decide (crParsedSig c = []) then _ else _) as [c1 ok]. cbn [fst] in H1. destruct ok; cbn [negb fst]; [|done].
  pose proof (header_count trailer req c1 p) as H2. destruct (parseChunkHeaderBytes trailer req c1 p) as [c2 [h off| |e]]; cbn [fst] in H2; [|cbn; congruence|cbn; congruence].
  destruct (hdSize h =? 0)%Z.
  - set (c3 := set_sig _ _ _). pose proof (check_count key region date c3) as H3. destruct (checkSignature key region date c3) as [c4 ok]. cbn [fst] in H3. unfold c3 in H3. cbn [set_sig set_parsed crDataRead] in H3.
    destruct ok; cbn [negb fst]; [|congruence]. repeat case_match; cbn [fst]; congruence.
  - destruct (_ || _); [cbn; congruence|]. destruct (_ <? _)%Z; [|cbn; congruence].
    set (c3 := write _ _). pose proof (IH c3 (drop (Z.to_nat (hdSize h)) (drop (Z.to_nat off) p))) as H3. destruct (parseAndRemove _ _ _ _ _ fuel c3 _) as [c4 r]. cbn [fst] in *. rewrite H3. unfold c3. cbn. congruence.
Qed.
Lemma hand_out_count cLength b eof c c' b' eof' : hand_out cLength b eof c = (c', Got b' eof') -> b' = b /\ crDataRead c' = (crDataRead c + Z.of_nat (length b))%Z /\ (crDataRead c' <= cLength)%Z.
Proof. unfold hand_out. destruct (Z.ltb_spec cLength (crDataRead c + Z.of_nat (length b))); [done|]. destruct (_ && _); [done|]. by intros [= <- <- <-]. Qed.

(** The decoder never hands out more than the declared length. *)
Lemma read_bound key region date trailer req cLength cr pc cr' b eof : Read key region date trailer req cLength cr pc = (cr', Got b eof) ->
  crDataRead cr' = (crDataRead cr + Z.of_nat (length b))%Z /\ (crDataRead cr' <= cLength)%Z.
Proof.
  destruct pc as [p e]. unfold Read. destruct e; [| |done];
    (destruct (_ <? _)%Z;
      [unfold parseAndRemoveChunkInfo; set (c0 := write _ _); set (q := drop _ p); pose proof (parse_count key region date trailer req (S (length q)) c0 q) as Hc;
       destruct (parseAndRemove _ _ _ _ _ _ c0 q) as [c1 [x ef| |]]; try done; cbn [fst] in Hc; intros (-> & Hr & Hle)%hand_out_count; rewrite Hr, Hc in *; done
      |destruct (_ <? _)%Z; [done|]; intros (-> & Hr & Hle)%hand_out_count; done]).
Qed.

Lemma run_bound key region date trailer req cLength ps cr cr' d e : (crDataRead cr <= cLength)%Z -> run key region date trailer req cLength cr ps = (cr', d, e) ->
  (crDataRead cr + Z.of_nat (length d) <= cLength)%Z.
Proof.
  revert cr d. induction ps as [|pc ps IH]; intros cr d Hc; cbn [run]; [intros [= <- <- <-]; simpl; lia|].
  destruct (Read _ _ _ _ _ _ _ _) as [c1 [b [|]| | |]] eqn:Er; try (intros [= <- <- <-]; simpl; lia).
  - destruct (read_bound _ _ _ _ _ _ _ _ _ _ _ Er). intros [= <- <- <-]. lia.
  - destruct (read_bound _ _ _ _ _ _ _ _ _ _ _ Er) as [Hr Hb]. destruct (run _ _ _ _ _ _ c1 ps) as [[c2 d2] e2] eqn:E2. intros [= <- <- <-]. specialize (IH c1 d2 Hb E2). rewrite length_app. lia.
Qed.

(** The backend gets the end of a re-framed body only when the decoder ended it with every declared byte: whatever the client sent, in whatever pieces, and whatever buffers the encoder is read with, a body the decoder rejects, that panics it, or that is short never yields its final frame. *)
Theorem complete_means_whole key region date trailer req decodedLen seed ps cr d e name sum n sizes out
    (Hlen : (0 <= decodedLen)%Z) (Hn : (0 < n)%nat)
    (Hrun : run key region date trailer req decodedLen (NewSignedChunkReader trailer seed) ps = (cr, d, e))
    (Henc : encoder_run name sum n sizes (NewEncoder (source_of d e) decodedLen) = (out, EncRunEOF)) :
  e = RunEOF /\ Z.of_nat (length d) = decodedLen.
Proof.
  pose proof (run_bound _ _ _ _ _ _ _ _ _ _ _ (Hlen : (crDataRead (NewSignedChunkReader trailer seed) <= decodedLen)%Z) Hrun) as Hb. cbn in Hb.
  assert (e = RunEOF /\ Z.of_nat (length d) = decodedLen \/ failing (NewEncoder (source_of d e) decodedLen)) as [?|Hf]; [|done|].
  - unfold failing, NewEncoder, source_of. enc. destruct e; [destruct (Z.eq_dec (Z.of_nat (length d)) decodedLen); [by left|right]|right..]; split_and!; try done; lia.
  - pose proof (run_failing name sum n Hn sizes _ Hf) as H. by rewrite Henc in H.
Qed.

(** A client's signed body with a trailer, however it is split, re-frames to the same unsigned frames whatever buffers they are read with: the frames of its data at the chunk size, then the trailer with its checksum, in exactly the length announced for them; enough reads end it. *)
Theorem reframed_client_body key region date trailer seed data n ps q sizes
    (Htrailer : is_Some (getHasher trailer)) (Hn : (0 < Z.of_nat n <= MaxInt64)%Z) (Hsize : (minChunkSize <= Z.of_nat n)%Z \/ (length data <= n)%nat)
    (Hwire : concat ps ++ q = signed_all key region date trailer n (length data + 2) (NewSignedEncoder (mkSource data SrcEOF) seed))
    (Hsizes : Forall (fun n => (0 < n)%nat) sizes) :
  exists cr d e out rest r,
    run key region date trailer true (Z.of_nat (length data)) (NewSignedChunkReader trailer seed) (List.map (fun p => (p, More)) ps ++ [(q, Ended)]) = (cr, d, e) /\
    encoder_run (B trailer) (crParsedChecksum cr) (Z.to_nat DefaultChunkSize) sizes (NewEncoder (source_of d e) (Z.of_nat (length data))) = (out, r) /\
    out ++ rest = encoded (B trailer) (trailer_value trailer data) (Z.to_nat DefaultChunkSize) data /\
    Z.of_nat (length (out ++ rest)) = EncodedLength (Z.of_nat (length data)) DefaultChunkSize (Z.of_nat (length (B trailer))) (Base64Len trailer) /\
    (r = EncRunEOF /\ rest = [] \/ r = EncRunMore) /\ ((length (out ++ rest) < length sizes)%nat -> r = EncRunEOF).
Proof.
  destruct Htrailer as [h Hh]. destruct (getHasher_name _ _ Hh) as (_ & _ & Hne).
  destruct (signed_roundtrip_lemma key region date trailer seed data n ps q (or_intror (ex_intro _ h Hh)) Hn Hsize Hwire) as (cr & Hrun & Hsum). rewrite bool_decide_false in Hrun by done.
  destruct Hsum as [?|Hsum]; [done|]. exists cr, data, RunEOF.
  destruct (run_good (B trailer) (crParsedChecksum cr) (Z.to_nat DefaultChunkSize) ltac:(unfold DefaultChunkSize; lia) sizes (NewEncoder (source_of data RunEOF) (Z.of_nat (length data)))) as (out & rest & r & Henc & Hf & Hr & Hlen); [done|done|].
  assert (future (B trailer) (crParsedChecksum cr) (Z.to_nat DefaultChunkSize) (NewEncoder (source_of data RunEOF) (Z.of_nat (length data))) = encoded (B trailer) (trailer_value trailer data) (Z.to_nat DefaultChunkSize) data) as Efut
    by (unfold future, NewEncoder, source_of; enc; by rewrite Hsum).
  rewrite Efut in Hf, Hlen. exists out, rest, r. split_and!; [exact Hrun|exact Henc|done| |done|by rewrite <- Hf].
  rewrite <- Hf, encoded_length by (unfold DefaultChunkSize; lia). f_equal. unfold trailer_value, Base64Len. rewrite Hh. destruct (getHasher_length _ _ data Hh) as (m & -> & Hm). by rewrite base64_length, Hm.
Qed.

(** The vector's body, framed by the client and re-framed for the backend. *)
Lemma complete_means_whole_witness : RunEOF = RunEOF /\ Z.of_nat (length (B "hello")) = 5%Z.
Proof.
  apply (complete_means_whole aws_key (B "us-east-1") aws_date checksumTypeCrc32 true 5 aws_seed [(ex_wire, Ended)]
    (run aws_key (B "us-east-1") aws_date checksumTypeCrc32 true 5 (NewSignedChunkReader checksumTypeCrc32 aws_seed) [(ex_wire, Ended)]).1.1 (B "hello") RunEOF
    (B checksumTypeCrc32) (trailer_value checksumTypeCrc32 (B "hello")) 8 [100; 100; 100]%nat (encoded (B checksumTypeCrc32) (trailer_value checksumTypeCrc32 (B "hello")) 8 (B "hello"))).
  - lia.
  - lia.
  - vm_compute. reflexivity.
  - vm_compute. reflexivity.
Defined.
