(* ===== verification/SigV4.v ===== *)
(** * Signature Version 4 (internal/sigv4: canonical.go, sign.go, payload.go, verify.go)

    The proxy verifies the signature of a client's request and signs its own requests to the backends.
    Both sides build the canonical request of the same bytes; this file models the two, with times in
    UTC and the digests computed. *)

From S2P Require Import Prelude S3Op Placement S3Names Crypto Strconv Civil.

(** ** Text *)

Definition trimSpace (s : string) : string := S_ (TrimSpace (B s)).

Fixpoint Join (l : list string) (sep : string) : string :=
  match l with [] => "" | [x] => x | x :: l => x +:+ sep +:+ Join l sep end.

Definition sortStrings (l : list string) : list string := merge_sort String.le l.

Definition NL : string := String "010" EmptyString.

Definition Algorithm : string := "AWS4-HMAC-SHA256".
Definition AlgorithmA : string := "AWS4-ECDSA-P256-SHA256".
Definition Service : string := "s3".
Definition terminator : string := "aws4_request".
Definition UnsignedPayload : string := "UNSIGNED-PAYLOAD".
Definition StreamingUnsignedPayloadTrailer : string := "STREAMING-UNSIGNED-PAYLOAD-TRAILER".
Definition StreamingSignedPayload : string := "STREAMING-AWS4-HMAC-SHA256-PAYLOAD".
Definition StreamingSignedPayloadTrailer : string := "STREAMING-AWS4-HMAC-SHA256-PAYLOAD-TRAILER".

(** [Scope] and its [String]. *)
Record Scope : Type := mkScope { scDate : string; scRegion : string; scService : string }.
Definition Scope_String (s : Scope) : string := scDate s +:+ "/" +:+ scRegion s +:+ "/" +:+ scService s +:+ "/" +:+ terminator.

(** ** Queries *)

Definition unreserved (c : Ascii.ascii) : bool :=
  in_range "A" "Z" c || in_range "a" "z" c || in_range "0" "9" c || bool_decide (c ∈ ["-"; "_"; "."; "~"]%char).
Definition upper_hex (n : Z) : Ascii.ascii := byte_of (if (n <? 10)%Z then 48 + n else 55 + n).

(** [Escape]: the code copies the string when nothing is to be escaped; the bytes are the same. *)
Fixpoint Escape (s : string) : string :=
  match s with
  | EmptyString => ""
  | String c s =>
      if unreserved c then String c (Escape s)
      else String "%" (String (upper_hex (Z.shiftr (byteZ c) 4)) (String (upper_hex (Z.land (byteZ c) 15)) (Escape s)))
  end.

Definition canonicalQuery (q : values) : string :=
  Join (concat (List.map (fun k => List.map (fun v => Escape k +:+ "=" +:+ Escape v) (sortStrings (default [] (q !! k)))) (sortedKeys q))) "&".

(** [url.QueryUnescape] and [url.ParseQuery]: a pair that does not decode, or that holds a semicolon, is
    left out and makes the whole an error. *)
Fixpoint plus_space (s : string) : string :=
  match s with EmptyString => "" | String c s => String (if bool_decide (c = "+"%char) then " "%char else c) (plus_space s) end.
Definition QueryUnescape (s : string) : option string := PathUnescape (plus_space s).

Definition add_pair (q : values) (k v : string) : values := <[k := default [] (q !! k) ++ [v]]> q.
Definition query_pair (st : values * bool) (pair : string) : values * bool :=
  let '(q, ok) := st in
  if contains_byte ";" pair then (q, false)
  else if bool_decide (pair = "") then (q, ok)
  else
    let '(k, v) := default (pair, "") (Cut pair "=") in
    match QueryUnescape k, QueryUnescape v with Some k, Some v => (add_pair q k v, ok) | _, _ => (q, false) end.
Definition ParseQuery (raw : string) : values * bool := foldl query_pair (∅, true) (Split raw "&").

(** ** Requests *)

(** What of an [http.Request] the signing code reads.  [rqURI] is the request target as a server read
    it, empty on a request to be sent; [rqEscapedPath] is the URL's path in its encoded form. *)
Record HRequest : Type := mkHReq {
  rqMethod : string;
  rqURI : string;
  rqEscapedPath : string;
  rqRawQuery : string;
  rqHeader : values;
  rqHost : string;
  rqURLHost : string;
  rqContentLength : Z;
  rqHasBody : bool;
}.

Definition set_header (k v : string) (r : HRequest) : HRequest :=
  mkHReq (rqMethod r) (rqURI r) (rqEscapedPath r) (rqRawQuery r) (<[k := [v]]> (rqHeader r)) (rqHost r) (rqURLHost r) (rqContentLength r) (rqHasBody r).

(** [http.CanonicalHeaderKey]: words capitalised, when the name is a token. *)
Definition token_byte (c : Ascii.ascii) : bool :=
  in_range "a" "z" c || in_range "A" "Z" c || in_range "0" "9" c || bool_decide (c ∈ ["!"; "#"; "$"; "%"; "&"; "'"; "*"; "+"; "-"; "."; "^"; "_"; "`"; "|"; "~"]%char).
Definition upper_byte (c : Ascii.ascii) : Ascii.ascii := if in_range "a" "z" c then Ascii.ascii_of_N (Ascii.N_of_ascii c - 32) else c.
Fixpoint capitalise (up : bool) (s : string) : string :=
  match s with EmptyString => "" | String c s => String (if up then upper_byte c else lower_byte c) (capitalise (bool_decide (c = "-"%char)) s) end.
Definition CanonicalHeaderKey (s : string) : string := if all_bytes token_byte s then capitalise true s else s.

(** [RawPath]: the path as sent.  A target that is not a path (an absolute URI) is left to [absPath], the
    path [url.ParseRequestURI] finds in it. *)
Section request.
Context (absPath : string -> option string).

Definition RawPath (r : HRequest) : string :=
  let uri := if bool_decide (rqURI r = "") then (if bool_decide (rqRawQuery r = "") then rqEscapedPath r else rqEscapedPath r +:+ "?" +:+ rqRawQuery r) else rqURI r in
  let path := match Cut uri "?" with Some (p, _) => p | None => uri end in
  match path with
  | String "/" _ => path
  | _ => match absPath path with Some p => p | None => "/" end
  end.

(** [RawQuery]: empty when any pair of the query does not parse. *)
Definition RawQuery (r : HRequest) : values := let '(q, ok) := ParseQuery (rqRawQuery r) in if ok then q else ∅.

(** ** The canonical request *)

(** [foldSpace]; a value without spaces and tabs inside is left as it is, which the loop does too. *)
Fixpoint fold_loop (space : bool) (b : bytes) : bytes :=
  match b with
  | [] => []
  | c :: b => if bool_decide (c = " "%char) || bool_decide (c = "009"%char) then fold_loop true b
              else (if space then [" "%char] else []) ++ c :: fold_loop false b
  end.
Definition foldSpace (v : string) : string :=
  let t := TrimSpace (B v) in
  if existsb (fun c => bool_decide (c = " "%char) || bool_decide (c = "009"%char)) t then S_ (fold_loop false t) else S_ t.

Fixpoint dedup (seen l : list string) : list string :=
  match l with
  | [] => []
  | h :: l => let h := ToLower (trimSpace h) in if bool_decide (h = "") || bool_decide (h ∈ seen) then dedup seen l else h :: dedup (h :: seen) l
  end.
Definition normalizeSignedHeaders (l : list string) : list string := sortStrings (dedup [] l).

Definition canonicalHeaderValue (name : string) (headers : values) (host : string) (contentLength : Z) : string :=
  if bool_decide (name = "host") then trimSpace host
  else if bool_decide (name = "content-length") && (0 <=? contentLength)%Z then S_ (FormatInt 10 contentLength)
  else Join (List.map foldSpace (default [] (headers !! CanonicalHeaderKey name))) ",".

Definition CanonicalRequest (method rawPath : string) (query headers : values) (host : string) (contentLength : Z) (signedHeaders : list string) (payloadHash : string) : string :=
  let names := normalizeSignedHeaders signedHeaders in
  method +:+ NL +:+ (if bool_decide (rawPath = "") then "/" else rawPath) +:+ NL +:+ canonicalQuery query +:+ NL +:+
  foldr (fun n s => n +:+ ":" +:+ canonicalHeaderValue n headers host contentLength +:+ NL +:+ s) "" names +:+ NL +:+
  Join names ";" +:+ NL +:+ payloadHash.

(** ** Signing *)

Definition StringToSign (t : Time) (scope : Scope) (canonicalRequest : string) : string :=
  Algorithm +:+ NL +:+ S_ (formatTime t) +:+ NL +:+ Scope_String scope +:+ NL +:+ S_ (hex (sha256 (B canonicalRequest))).
Definition SigningKey (secret : string) (scope : Scope) : bytes :=
  hmac256 (hmac256 (hmac256 (hmac256 (B ("AWS4" +:+ secret)) (B (scDate scope))) (B (scRegion scope))) (B (scService scope))) (B terminator).
Definition Signature (signingKey : bytes) (stringToSign : string) : string := S_ (hex (hmac256 signingKey (B stringToSign))).

Definition sendsContentLength (r : HRequest) : bool :=
  if (0 <? rqContentLength r)%Z then true
  else if (rqContentLength r <? 0)%Z || negb (rqHasBody r) then false
  else bool_decide (rqMethod r ∈ ["PUT"; "POST"; "PATCH"]).

Definition signs_name (lower : string) : bool := HasPrefix lower "x-amz-" || bool_decide (lower = "content-md5") || bool_decide (lower = "content-type").

(** [Sign]: the request as it is sent.  The names of the header map come in no order; they are sorted. *)
Definition Sign (r : HRequest) (accessKey secret region payloadHash : string) (now : Time) : HRequest :=
  let r := r |> set_header "X-Amz-Date" (S_ (formatTime now)) |> set_header "X-Amz-Content-Sha256" payloadHash in
  let signed := "host" :: (if sendsContentLength r then ["content-length"] else []) ++ List.filter signs_name (List.map ToLower (map_to_list (rqHeader r)).*1) in
  let scope := mkScope (S_ (formatDate now)) region Service in
  let host := if bool_decide (rqHost r = "") then rqURLHost r else rqHost r in
  let canon := CanonicalRequest (rqMethod r) (RawPath r) (RawQuery r) (rqHeader r) host (rqContentLength r) signed payloadHash in
  let sig := Signature (SigningKey secret scope) (StringToSign now scope canon) in
  set_header "Authorization" (Algorithm +:+ " Credential=" +:+ accessKey +:+ "/" +:+ Scope_String scope +:+ ", SignedHeaders=" +:+ Join (normalizeSignedHeaders signed) ";" +:+ ", Signature=" +:+ sig) r.

(** ** Payload modes *)

Inductive PayloadMode : Type :=
| PayloadMissing | PayloadUnsigned | PayloadSHA256 | PayloadStreamingSigned | PayloadStreamingSignedTrailer | PayloadStreamingUnsignedTrailer | PayloadStreamingECDSA | PayloadInvalid.

#[export] Instance PayloadMode_eq_dec : EqDecision PayloadMode.
Proof. solve_decision. Defined.

(** [Streaming] and [Decodes] *)
Definition Streaming (m : PayloadMode) : bool := bool_decide (m ∈ [PayloadStreamingSigned; PayloadStreamingSignedTrailer; PayloadStreamingUnsignedTrailer]).
Definition Decodes (m : PayloadMode) : bool := bool_decide (m ∈ [PayloadStreamingSigned; PayloadStreamingSignedTrailer]).

Definition hex_byte (c : Ascii.ascii) : bool := in_range "0" "9" c || in_range "a" "f" c || in_range "A" "F" c.
Definition isHex (s : string) (n : nat) : bool := (String.length s =? n)%nat && all_bytes hex_byte s.

Definition parsePayloadMode (v : string) : PayloadMode :=
  if bool_decide (v = "") then PayloadMissing
  else if bool_decide (v = UnsignedPayload) then PayloadUnsigned
  else if bool_decide (v = StreamingSignedPayload) then PayloadStreamingSigned
  else if bool_decide (v = StreamingSignedPayloadTrailer) then PayloadStreamingSignedTrailer
  else if bool_decide (v = StreamingUnsignedPayloadTrailer) then PayloadStreamingUnsignedTrailer
  else if HasPrefix v "STREAMING-AWS4-ECDSA-P256-SHA256-PAYLOAD" then PayloadStreamingECDSA
  else if isHex v 64 then PayloadSHA256
  else PayloadInvalid.

(** ** Verification *)

Record Credential : Type := mkCred { cdAccessKey : string; cdSecret : string; cdTenant : string; cdBuckets : list string }.

(** What [Lookup] of a [CredentialStore] may return instead of a credential: [ErrUnknownAccessKey], or
    another error. *)
Inductive lookupErr : Type := ErrUnknownAccessKey | LookupFailed.

Inductive Reason : Type :=
| ReasonMissing | ReasonMalformed | ReasonUnknownKey | ReasonSignature | ReasonSkew | ReasonExpired | ReasonSigV4A | ReasonToken | ReasonMissingSHA256 | ReasonUnsignedHeaders
| ReasonChunkSignature | ReasonTrailer.

(** [AuthError]: the reason and the code of the S3 error; its message is left out. *)
Record AuthError : Type := fail { aeReason : Reason; aeCode : string }.

(** The store is the caller's, and so is [parseHTTPDate], which reads the three layouts of a Date header
    ([http.ParseTime]). *)
Context (Lookup : string -> result lookupErr Credential) (parseHTTPDate : string -> option Time).

Record Auth : Type := mkAuth {
  auAccessKey : string; auScope : Scope; auSignedHeaders : list string; auSignature : string;
  auPresigned : bool; auDate : string; auExpires : Z;
}.

Definition parseCredential (v : string) : result AuthError (string * Scope) :=
  match Split v "/" with
  | [p0; p1; p2; p3; p4] =>
      if negb (bool_decide (p3 = Service)) then Err (fail ReasonMalformed "AuthorizationHeaderMalformed")
      else if negb (bool_decide (p4 = terminator)) then Err (fail ReasonMalformed "AuthorizationHeaderMalformed")
      else if negb (bool_decide (is_Some (parseDate (B p1)))) then Err (fail ReasonMalformed "AuthorizationHeaderMalformed")
      else if bool_decide (p0 = "") || bool_decide (p2 = "") then Err (fail ReasonMalformed "AuthorizationHeaderMalformed")
      else Ok (p0, mkScope p1 p2 Service)
  | _ => Err (fail ReasonMalformed "AuthorizationHeaderMalformed")
  end.

(** A component [want=value] of the header. *)
Definition component (want part : string) : result AuthError string :=
  match Cut (trimSpace part) "=" with
  | Some (k, v) => if bool_decide (k = want) then Ok v else Err (fail ReasonMalformed "AuthorizationHeaderMalformed")
  | None => Err (fail ReasonMalformed "AuthorizationHeaderMalformed")
  end.

Definition parseAuthorization (h : string) : result AuthError Auth :=
  let h := trimSpace h in
  if bool_decide (h = "") then Err (fail ReasonMissing "AccessDenied")
  else
    let '(algo, rest) := default (h, "") (Cut h " ") in
    if bool_decide (algo = AlgorithmA) then Err (fail ReasonSigV4A "NotImplemented")
    else if bool_decide (algo = "AWS") then Err (fail ReasonMalformed "InvalidRequest")
    else if negb (bool_decide (algo = Algorithm)) then Err (fail ReasonMalformed "AuthorizationHeaderMalformed")
    else match Split rest "," with
    | [p0; p1; p2] =>
        v0 ← component "Credential" p0; '(ak, scope) ← parseCredential v0;
        v1 ← component "SignedHeaders" p1; v2 ← component "Signature" p2;
        if negb (isHex v2 64) then Err (fail ReasonMalformed "AuthorizationHeaderMalformed")
        else Ok (mkAuth ak scope (Split v1 ";") v2 false "" 0)
    | _ => Err (fail ReasonMalformed "AuthorizationHeaderMalformed")
    end.

Definition parsePresigned (r : HRequest) (maxExpires : Z) : result AuthError Auth :=
  let q := RawQuery r in
  let get k := Get k q in
  let err := Err (fail ReasonMalformed "AuthorizationQueryParametersError") in
  if negb (bool_decide (get "AWSAccessKeyId" = "")) || negb (bool_decide (get "Signature" = "")) && negb (bool_decide (get "Expires" = "")) then
    Err (fail ReasonMalformed "InvalidRequest")
  else if bool_decide (get "X-Amz-Algorithm" = AlgorithmA) then Err (fail ReasonSigV4A "NotImplemented")
  else if negb (bool_decide (get "X-Amz-Algorithm" = Algorithm)) then err
  else
    let cred := get "X-Amz-Credential" in let date := get "X-Amz-Date" in let sig := get "X-Amz-Signature" in
    let sh := get "X-Amz-SignedHeaders" in let exp := get "X-Amz-Expires" in
    if existsb (fun s => bool_decide (s = "")) [cred; date; sig; sh; exp] then err
    else match parseCredential cred with
    | Err e => Err (fail (aeReason e) "AuthorizationQueryParametersError")
    | Ok (ak, scope) =>
        if negb (bool_decide (is_Some (parseTime (B date)))) then err
        else if negb (bool_decide (String.substring 0 8 date = scDate scope)) then err
        else match ParseInt 10 (B exp) with
        | None => err
        | Some n =>
            if (n <? 1)%Z then err
            else if (maxExpires <? n)%Z then err
            else if negb (isHex sig 64) then err
            else Ok (mkAuth ak scope (Split sh ";") sig true date n)
        end
    end.

Definition ignoredHeaders : list string := ["authorization"; "user-agent"; "expect"; "transfer-encoding"; "x-amzn-trace-id"].

(** [now.Sub(t)]: a duration is an [int64] of nanoseconds and a difference out of range is the nearest
    one in it.  [time.Duration(n) * time.Second] wraps. *)
Definition Sub (a b : Time) : Z := Z.max MinInt64 (Z.min MaxInt64 (UnixNano a - UnixNano b)).
Definition wrap64 (z : Z) : Z := ((z + 2 ^ 63) mod 2 ^ 64 - 2 ^ 63)%Z.
Definition Seconds (n : Z) : Z := wrap64 (n * 1000000000).

Definition requestTime (r : HRequest) (now : Time) (skew : Z) : result AuthError Time :=
  let get k := Get k (rqHeader r) in
  t ← (if negb (bool_decide (get "X-Amz-Date" = "")) then
          match parseTime (B (get "X-Amz-Date")) with Some t => Ok t | None => Err (fail ReasonMalformed "AccessDenied") end
        else if negb (bool_decide (get "Date" = "")) then
          match parseHTTPDate (get "Date") with Some t => Ok t | None => Err (fail ReasonMalformed "AccessDenied") end
        else Err (fail ReasonMissing "AccessDenied"));
  let d := Sub now t in
  if (skew <? d)%Z || (d <? wrap64 (- skew))%Z then Err (fail ReasonSkew "RequestTimeTooSkewed") else Ok t.

Definition canonicalQueryValues (r : HRequest) (presigned : bool) : values :=
  if presigned then delete "X-Amz-Signature" (RawQuery r) else RawQuery r.

Record Options : Type := mkOptions { oClockSkew : Z; oMaxExpires : Z; oRequireHash : bool }.

Record Identity : Type := mkId {
  idCredential : Credential; idScope : Scope; idSigningKey : bytes; idSignature : string; idSignedHeaders : list string;
  idTime : Time; idPresigned : bool; idPayload : PayloadMode; idPayloadHash : string;
}.

(** The first part of [Verify]: how the request is signed, and when. *)
Definition authenticate (r : HRequest) (now : Time) (skew maxExpires : Z) : result AuthError (Auth * Time) :=
  let q := RawQuery r in
  if negb (bool_decide (Get "Authorization" (rqHeader r) = "")) then
    a ← parseAuthorization (Get "Authorization" (rqHeader r));
    t ← requestTime r now skew;
    if negb (bool_decide (S_ (formatDate t) = scDate (auScope a))) then Err (fail ReasonMalformed "AuthorizationHeaderMalformed") else Ok (a, t)
  else if negb (bool_decide (Get "X-Amz-Algorithm" q = "")) || negb (bool_decide (Get "X-Amz-Credential" q = "")) || negb (bool_decide (Get "X-Amz-Signature" q = "")) then
    a ← parsePresigned r maxExpires;
    let t := default (mkTime 1 1 1 0 0 0 0) (parseTime (B (auDate a))) in
    if (UnixNano t + Seconds (auExpires a) <? UnixNano now)%Z then Err (fail ReasonExpired "AccessDenied") else Ok (a, t)
  else Err (fail ReasonMissing "AccessDenied").

Definition unsigned_header (signed : list string) (name : string) : bool :=
  let lower := ToLower name in
  HasPrefix lower "x-amz-" && negb (bool_decide (lower ∈ List.map ToLower signed)) && negb (bool_decide (lower ∈ ignoredHeaders)).

(** The payload mode and the payload hash that was signed. *)
Definition payload_of (r : HRequest) (a : Auth) (requireHash : bool) : result AuthError (PayloadMode * string) :=
  if auPresigned a then Ok (PayloadUnsigned, UnsignedPayload)
  else
    let v := Get "X-Amz-Content-Sha256" (rqHeader r) in
    match parsePayloadMode v with
    | PayloadMissing => if requireHash && negb (bool_decide (rqMethod r = "HEAD")) then Err (fail ReasonMissingSHA256 "InvalidRequest") else Ok (PayloadMissing, "")
    | PayloadInvalid => Err (fail ReasonMalformed "InvalidArgument")
    | PayloadStreamingECDSA => Err (fail ReasonSigV4A "NotImplemented")
    | m => Ok (m, v)
    end.

Definition Verify (r : HRequest) (now : Time) (o : Options) : result AuthError Identity :=
  let skew := if (oClockSkew o =? 0)%Z then (15 * 60 * 1000000000)%Z else oClockSkew o in
  let maxExpires := if (oMaxExpires o =? 0)%Z then 604800%Z else oMaxExpires o in
  if negb (bool_decide (Get "X-Amz-Security-Token" (rqHeader r) = "")) || negb (bool_decide (Get "X-Amz-Security-Token" (RawQuery r) = "")) then
    Err (fail ReasonToken "InvalidToken")
  else
    '(a, signTime) ← authenticate r now skew maxExpires;
    if existsb (unsigned_header (auSignedHeaders a)) (sortedKeys (rqHeader r)) then Err (fail ReasonUnsignedHeaders "AccessDenied")
    else
      '(mode, payloadHash) ← payload_of r a (oRequireHash o);
      match Lookup (auAccessKey a) with
      | Err ErrUnknownAccessKey => Err (fail ReasonUnknownKey "InvalidAccessKeyId")
      | Err LookupFailed => Err (fail ReasonUnknownKey "InternalError")
      | Ok cred =>
          let canon := CanonicalRequest (rqMethod r) (RawPath r) (canonicalQueryValues r (auPresigned a)) (rqHeader r) (rqHost r) (rqContentLength r) (auSignedHeaders a) payloadHash in
          let key := SigningKey (cdSecret cred) (auScope a) in
          let want := Signature key (StringToSign signTime (auScope a) canon) in
          if negb (bool_decide (want = auSignature a)) then Err (fail ReasonSignature "SignatureDoesNotMatch")
          else Ok (mkId cred (auScope a) key (auSignature a) (normalizeSignedHeaders (auSignedHeaders a)) signTime (auPresigned a) mode payloadHash)
      end.

End request.
