(* ===== verification/TextFacts.v ===== *)
(** * Text: splitting, joining, trimming and sorting read back

    The facts about Go's strings package that the signing and verifying code rests on. *)

From S2P Require Import Prelude S3Op Placement S3Names Crypto Strconv SigV4.

(** A property of every byte, by evaluation. *)
Lemma each_byte (P : Ascii.ascii -> bool) : all_from 256 0 (fun z => P (byte_of z)) = true -> forall c, P c = true.
Proof. intros H c. rewrite <- (byte_of_byteZ c). apply (below 256 (fun z => P (byte_of z)) H). apply byteZ_range. Qed.

(** [by_bytes P] proves [P c = true] for a byte [c]. *)
Ltac by_bytes P := refine (each_byte P _ _); vm_compute; reflexivity.

Lemma append_assoc_r (a b c : string) : (a +:+ b) +:+ c = a +:+ (b +:+ c).
Proof. induction a as [|x a IH]; [done|]. rewrite !append_cons. by rewrite IH. Qed.
Lemma append_empty (a : string) : a +:+ "" = a.
Proof. induction a as [|x a IH]; [done|]. rewrite append_cons. by rewrite IH. Qed.

(** ** Splitting *)

Lemma Split_none s sep : contains_byte sep s = false -> Split s sep = [s].
Proof.
  induction s as [|c s IH]; [done|]. simpl. intros [Hc Hs]%orb_false_iff. apply bool_decide_eq_false in Hc.
  rewrite decide_False by done. by rewrite IH.
Qed.

Lemma Split_first a sep b : contains_byte sep a = false -> Split (a +:+ String sep b) sep = a :: Split b sep.
Proof.
  induction a as [|c a IH]; simpl; [by rewrite decide_True|]. intros [Hc Ha]%orb_false_iff. apply bool_decide_eq_false in Hc.
  rewrite decide_False by done. by rewrite IH.
Qed.

Definition no_byte (sep : Ascii.ascii) (s : string) : Prop := contains_byte sep s = false.

Lemma Join_cons x y l sep : Join (x :: y :: l) sep = x +:+ sep +:+ Join (y :: l) sep.
Proof. done. Qed.

(** [Split] undoes [Join]. *)
Lemma Split_Join l sep : l <> [] -> Forall (no_byte sep) l -> Split (Join l (String sep "")) sep = l.
Proof.
  intros Hne Hl. induction Hl as [|x l Hx Hl IH]; [done|]. destruct l as [|y l]; [by apply Split_none|].
  rewrite Join_cons. change (String sep "" +:+ ?z) with (String sep z). rewrite Split_first by done. by rewrite IH.
Qed.

Lemma Join_no_byte c l sep : no_byte c sep -> Forall (no_byte c) l -> no_byte c (Join l sep).
Proof.
  intros Hs Hl. induction Hl as [|x l Hx Hl IH]; [done|]. destruct l as [|y l]; [done|]. rewrite Join_cons. unfold no_byte in *.
  by rewrite !contains_byte_app, Hx, Hs, IH.
Qed.

(** ** Trimming *)

Definition ends_free (f : Ascii.ascii -> bool) (b : bytes) : Prop :=
  match b with c :: _ => f c = false | [] => True end /\ match reverse b with c :: _ => f c = false | [] => True end.

Lemma trim_free f b : ends_free f b -> trim f b = b.
Proof. intros [H1 H2]. unfold trim. rewrite (trim_left_none f b), trim_left_none by done. apply reverse_involutive. Qed.

Lemma trim_left_head f b : match trim_left f b with c :: _ => f c = false | [] => True end.
Proof. induction b as [|c b IH]; simpl; [done|]. destruct (f c) eqn:E; [done|]. simpl. done. Qed.

Lemma trim_ends f b : ends_free f (trim f b).
Proof.
  unfold trim. split; [|rewrite reverse_involutive; apply trim_left_head].
  destruct (trim_left_suffix f (reverse (trim_left f b))) as (p & E & _). pose proof (trim_left_head f b) as H.
  rewrite <- (reverse_involutive (trim_left f b)), E, reverse_app in H.
  destruct (reverse (trim_left f (reverse (trim_left f b)))); [done|]. exact H.
Qed.

Lemma ends_free_map f g b : (forall c, f (g c) = f c) -> ends_free f b -> ends_free f (g <$> b).
Proof.
  intros Hg [H1 H2]. split; [destruct b; simpl; [done|]; by rewrite Hg|]. rewrite <- fmap_reverse. destruct (reverse b); simpl; [done|]. by rewrite Hg.
Qed.

Lemma ends_free_app f c a b d : f c = false -> f d = false -> ends_free f (c :: a ++ b ++ [d]).
Proof. intros Hc Hd. split; [done|]. rewrite app_assoc, app_comm_cons, reverse_snoc. done. Qed.

Lemma trimSpace_free s : ends_free is_space (B s) -> trimSpace s = s.
Proof. intros H. unfold trimSpace, TrimSpace. rewrite trim_free by done. apply S_B. Qed.

Lemma trimSpace_idemp s : trimSpace (trimSpace s) = trimSpace s.
Proof. apply trimSpace_free. unfold trimSpace. rewrite B_S. apply trim_ends. Qed.

(** ** Lower case *)

Lemma B_ToLower s : B (ToLower s) = lower_byte <$> B s.
Proof. induction s as [|c s IH]; [done|]. change (lower_byte c :: B (ToLower s) = lower_byte c :: (lower_byte <$> B s)). by rewrite IH. Qed.

Lemma lower_byte_space c : is_space (lower_byte c) = is_space c.
Proof. apply eqb_true_iff. by_bytes (fun c => eqb (is_space (lower_byte c)) (is_space c)). Qed.
Lemma lower_byte_idemp c : lower_byte (lower_byte c) = lower_byte c.
Proof. apply (bool_decide_eq_true (lower_byte (lower_byte c) = lower_byte c)). by_bytes (fun c => bool_decide (lower_byte (lower_byte c) = lower_byte c)). Qed.

Lemma ToLower_idemp s : ToLower (ToLower s) = ToLower s.
Proof. induction s as [|c s IH]; [done|]. simpl. unfold ToLower in *. simpl. by rewrite lower_byte_idemp, IH. Qed.

Lemma trim_lower s : trimSpace (ToLower (trimSpace s)) = ToLower (trimSpace s).
Proof.
  apply trimSpace_free. rewrite B_ToLower. apply ends_free_map; [apply lower_byte_space|]. unfold trimSpace. rewrite B_S. apply trim_ends.
Qed.

(** ** Sorting *)

Lemma sortStrings_perm l : sortStrings l ≡ₚ l.
Proof. apply merge_sort_Permutation. Qed.
Lemma sortStrings_sorted l : Sorted String.le (sortStrings l).
Proof. apply Sorted_merge_sort. apply _. Qed.
Lemma sortStrings_unique l l' : l ≡ₚ l' -> sortStrings l = sortStrings l'.
Proof.
  intros H. apply (Sorted_unique String.le); [apply sortStrings_sorted..|]. by rewrite !sortStrings_perm.
Qed.
Lemma sortStrings_id l : Sorted String.le l -> sortStrings l = l.
Proof. intros H. apply (Sorted_unique String.le); [apply sortStrings_sorted|done|apply sortStrings_perm]. Qed.
Lemma sortStrings_nil l : sortStrings l = [] <-> l = [].
Proof. split; [|by intros ->]. intros H. pose proof (sortStrings_perm l) as P. rewrite H in P. by apply Permutation_nil in P. Qed.

(** ** Signed header names *)

Definition name_of (h : string) : string := ToLower (trimSpace h).
Definition normal_name (h : string) : Prop := h <> "" /\ name_of h = h.

Lemma name_of_idemp h : name_of (name_of h) = name_of h.
Proof. unfold name_of. by rewrite trim_lower, ToLower_idemp. Qed.

Lemma dedup_spec seen l : NoDup (dedup seen l) /\ Forall normal_name (dedup seen l) /\ (forall h, h ∈ dedup seen l <-> h ∉ seen /\ h <> "" /\ exists x, x ∈ l /\ name_of x = h).
Proof.
  revert seen. induction l as [|x l IH]; intros seen; simpl.
  { split_and!; [constructor|constructor|]. intros h. split; [by intros ?%elem_of_nil|]. by intros (_ & _ & x & ?%elem_of_nil & _). }
  change (ToLower (trimSpace x)) with (name_of x). case_bool_decide as E1; [|case_bool_decide as E2]; simpl.
  - destruct (IH seen) as (H1 & H2 & H3). split_and!; [done..|]. intros h. rewrite H3. setoid_rewrite elem_of_cons. split.
    + intros (? & ? & y & ? & ?). eauto 10.
    + intros (? & ? & y & [->|?] & ?); [by subst h|]. eauto 10.
  - destruct (IH seen) as (H1 & H2 & H3). split_and!; [done..|]. intros h. rewrite H3. setoid_rewrite elem_of_cons. split.
    + intros (? & ? & y & ? & ?). eauto 10.
    + intros (? & ? & y & [->|?] & ?); [by subst h|]. eauto 10.
  - destruct (IH (name_of x :: seen)) as (H1 & H2 & H3). split_and!.
    + constructor; [|done]. rewrite H3. intros [Hn _]. apply Hn. left.
    + constructor; [|done]. split; [done|apply name_of_idemp].
    + intros h. rewrite elem_of_cons, H3. setoid_rewrite elem_of_cons. split.
      * intros [->|(? & ? & y & ? & ?)]; [eauto 10|]. split_and!; [tauto|done|]. eauto.
      * intros (? & ? & y & [->|?] & ?); [by left|]. destruct (decide (h = name_of x)); [by left|]. right. split_and!; [tauto|done|]. eauto.
Qed.

Lemma names_spec l : NoDup (normalizeSignedHeaders l) /\ Forall normal_name (normalizeSignedHeaders l) /\ Sorted String.le (normalizeSignedHeaders l) /\
  (forall h, h ∈ normalizeSignedHeaders l <-> h <> "" /\ exists x, x ∈ l /\ name_of x = h).
Proof.
  destruct (dedup_spec [] l) as (H1 & H2 & H3). unfold normalizeSignedHeaders. split_and!; [| |apply sortStrings_sorted|].
  - by rewrite sortStrings_perm.
  - by rewrite sortStrings_perm.
  - intros h. rewrite sortStrings_perm, H3. split; [by intros (_ & ? & ?)|]. intros [? ?]. split_and!; [apply not_elem_of_nil|done|done].
Qed.

Lemma dedup_id seen l : NoDup l -> Forall normal_name l -> (forall h, h ∈ l -> h ∉ seen) -> dedup seen l = l.
Proof.
  revert seen. induction l as [|x l IH]; intros seen Hnd Hn Hs; simpl; [done|]. apply NoDup_cons in Hnd as [Hx Hnd]. apply Forall_cons in Hn as [[Hx1 Hx2] Hn].
  unfold name_of in Hx2. rewrite Hx2. rewrite !bool_decide_false; [simpl|apply Hs; left|done]. f_equal. apply IH; [done..|]. intros h Hh [->|?]%elem_of_cons; [done|].
  apply (Hs h); [by right|done].
Qed.

(** Names that are lower case, trimmed, without duplicates and sorted are left as they are. *)
Lemma names_idemp l : normalizeSignedHeaders (normalizeSignedHeaders l) = normalizeSignedHeaders l.
Proof.
  destruct (names_spec l) as (H1 & H2 & H3 & _). unfold normalizeSignedHeaders at 1. rewrite dedup_id; [by apply sortStrings_id|done|done|]. intros. apply not_elem_of_nil.
Qed.

(** ** Bytes of a string *)

Lemma no_byte_B c s : no_byte c s <-> c ∉ B s.
Proof.
  unfold no_byte. induction s as [|a s IH]; simpl; [split; [intros _; apply not_elem_of_nil|done]|]. change (B (String a s)) with (a :: B s).
  rewrite orb_false_iff, bool_decide_eq_false, not_elem_of_cons, IH. naive_solver.
Qed.

Lemma no_byte_app c s t : no_byte c (s +:+ t) <-> no_byte c s /\ no_byte c t.
Proof. unfold no_byte. by rewrite contains_byte_app, orb_false_iff. Qed.

Lemma Split_pieces s sep : Forall (fun p => no_byte sep p /\ forall c, no_byte c s -> no_byte c p) (Split s sep).
Proof.
  induction s as [|a s IH]; simpl; [by repeat constructor|]. case_decide as E.
  - subst a. constructor; [done|]. eapply Forall_impl; [exact IH|]. intros p [H1 H2]. split; [done|]. intros c [_ Hc]%orb_false_iff. by apply H2.
  - assert (no_byte sep (String a "")) as Ha by (unfold no_byte; simpl; by rewrite bool_decide_false).
    destruct (Split s sep) as [|f fs]; [constructor; [|constructor]; split; [done|]; intros c [Hc _]%orb_false_iff; unfold no_byte; simpl; by rewrite Hc|].
    apply Forall_cons in IH as [[H1 H2] IH]. constructor.
    + split; [unfold no_byte in *; simpl in *; rewrite H1; by rewrite bool_decide_false|]. intros c [Hc Hs]%orb_false_iff. unfold no_byte. simpl. rewrite Hc. by apply H2.
    + eapply Forall_impl; [exact IH|]. intros p [H3 H4]. split; [done|]. intros c [_ Hc]%orb_false_iff. by apply H4.
Qed.

Lemma trim_left_sub f b c : c ∈ trim_left f b -> c ∈ b.
Proof. induction b as [|a b IH]; simpl; [done|]. destruct (f a); [|done]. intros H. right. by apply IH. Qed.
Lemma trim_sub f b c : c ∈ trim f b -> c ∈ b.
Proof. unfold trim. rewrite elem_of_reverse. intros H%trim_left_sub. rewrite elem_of_reverse in H. by apply trim_left_sub in H. Qed.
Lemma trimSpace_no_byte c s : no_byte c s -> no_byte c (trimSpace s).
Proof. rewrite !no_byte_B. unfold trimSpace. rewrite B_S. intros H Hc. by apply trim_sub in Hc. Qed.

Lemma lower_no_byte c s : (forall a, lower_byte a = c -> a = c) -> no_byte c s -> no_byte c (ToLower s).
Proof. intros Hc. rewrite !no_byte_B, B_ToLower. intros H (a & E & Ha)%list_elem_of_fmap. symmetry in E. apply Hc in E. by subst. Qed.

Lemma name_of_no_byte c s : (forall a, lower_byte a = c -> a = c) -> no_byte c s -> no_byte c (name_of s).
Proof. intros Hc Hs. apply lower_no_byte; [done|]. by apply trimSpace_no_byte. Qed.

Lemma lower_keeps c : in_range "a" "z" c = false -> in_range "A" "Z" c = false -> forall a, lower_byte a = c -> a = c.
Proof.
  intros H1 H2 a <-. apply (bool_decide_eq_true (a = lower_byte a)). revert H1 H2. 
  assert (in_range "a" "z" (lower_byte a) || in_range "A" "Z" (lower_byte a) || bool_decide (a = lower_byte a) = true) as H
    by by_bytes (fun a => in_range "a" "z" (lower_byte a) || in_range "A" "Z" (lower_byte a) || bool_decide (a = lower_byte a)).
  intros H1 H2. by rewrite H1, H2 in H.
Qed.

Lemma all_bytes_B f s : all_bytes f s = true <-> Forall (fun c => f c = true) (B s).
Proof.
  induction s as [|a s IH]; simpl; [split; [constructor|done]|]. change (B (String a s)) with (a :: B s). by rewrite Forall_cons, andb_true_iff, IH.
Qed.

(** A line ends at its first break. *)
Lemma line_inj c a b x y : no_byte c a -> no_byte c b -> a +:+ String c x = b +:+ String c y -> a = b /\ x = y.
Proof. intros Ha Hb E. assert (Cut (a +:+ String c x) c = Cut (b +:+ String c y) c) as H by by rewrite E. rewrite !Cut_app in H by done. by simplify_eq. Qed.

Lemma append_inj_l a x y : a +:+ x = a +:+ y -> x = y.
Proof. induction a as [|c a IH]; [done|]. rewrite !append_cons. intros [= E]. by apply IH. Qed.

Lemma hex_inj b b' : hex b = hex b' -> b = b'.
Proof.
  assert (forall c, byteZ c = (digit_val (hex_digit (Z.shiftr (byteZ c) 4)) * 16 + digit_val (hex_digit (Z.land (byteZ c) 15)))%Z) as Hd.
  { intros c. apply Z.eqb_eq. by_bytes (fun c => (byteZ c =? digit_val (hex_digit (Z.shiftr (byteZ c) 4)) * 16 + digit_val (hex_digit (Z.land (byteZ c) 15)))%Z). }
  revert b'. induction b as [|c b IH]; intros [|c' b'] E; [done|done|done|]. cbn [hex] in E. injection E as E1 E2 E3. f_equal; [|by apply IH].
  by rewrite <- (byte_of_byteZ c), <- (byte_of_byteZ c'), (Hd c), (Hd c'), E1, E2.
Qed.
