(* ===== verification/SignVerify.v ===== *)
(** * What Sign signs, Verify accepts (internal/sigv4: sign.go against verify.go)

    The signing of a request to a backend and the verification of a client's request are two
    implementations of one protocol; a request signed by the one passes the other. *)

From S2P Require Import Prelude S3Op Placement S3Names Crypto Strconv Civil SigV4 TextFacts SigV4Safe.

(** ** Texts without spaces at their ends *)

Lemma ends_free_append f x y z : x <> [] -> z <> [] -> ends_free f x -> ends_free f z -> ends_free f (x ++ y ++ z).
Proof.
  intros Hx Hy [H1 _] [_ H2]. split; [by destruct x|]. rewrite !reverse_app, <- app_assoc. destruct (reverse z) eqn:E; [|done]. apply (f_equal reverse) in E. rewrite reverse_involutive in E. done.
Qed.

Lemma ends_free_all f b : Forall (fun c => f c = false) b -> ends_free f b.
Proof. intros H. split; [by destruct H|]. apply Forall_reverse in H. by destruct H. Qed.

Lemma byte_impl (P Q : Ascii.ascii -> bool) : all_from 256 0 (fun z => implb (P (byte_of z)) (Q (byte_of z))) = true -> forall c, P c = true -> Q c = true.
Proof. intros H c Hc. pose proof (each_byte (fun c => implb (P c) (Q c)) H c) as Hi. simpl in Hi. by rewrite Hc in Hi. Qed.

Lemma lower_hex_not_space c : lower_hex c = true -> is_space c = false.
Proof. intros H. apply negb_true_iff. revert c H. apply byte_impl. vm_compute. reflexivity. Qed.
Definition list_byte (c : Ascii.ascii) : bool := token_byte c || bool_decide (c = ";"%char).
Lemma list_byte_not_space c : list_byte c = true -> is_space c = false.
Proof. intros H. apply negb_true_iff. revert c H. apply byte_impl. vm_compute. reflexivity. Qed.

Lemma trimSpace_space s : trimSpace (String " " s) = trimSpace s.
Proof. done. Qed.

Lemma no_byte_class (f : Ascii.ascii -> bool) c b : f c = false -> Forall (fun c => f c = true) b -> no_byte c (S_ b).
Proof. intros Hc H. apply no_byte_B. rewrite B_S. intros Hin. rewrite Forall_forall in H. apply H in Hin. congruence. Qed.

(** ** Dates are digits *)

Lemma num_hex n v : (0 <= v)%Z -> Forall (fun c => lower_hex c = true) (num n v).
Proof. intros Hv. unfold num, zero_pad. apply Forall_app. split; [|apply FormatInt_hex; lia]. induction (_ - _)%nat; simpl; by constructor. Qed.

Lemma formatDate_hex t : valid_date t = true -> Forall (fun c => lower_hex c = true) (formatDate t).
Proof. intros H. destruct (valid_date_bounds t H) as (? & ? & ?). unfold formatDate. rewrite !Forall_app. split_and!; apply num_hex; lia. Qed.

(** ** The Authorization header *)

Definition authorization (ak : string) (scope : Scope) (names : list string) (sig : string) : string :=
  Algorithm +:+ " Credential=" +:+ ak +:+ "/" +:+ Scope_String scope +:+ ", SignedHeaders=" +:+ Join names ";" +:+ ", Signature=" +:+ sig.

(** A name of a credential: not empty, and without the bytes that separate the fields of the header. *)
Definition field (s : string) : Prop := s <> "" /\ no_byte "," s /\ no_byte "/" s.

Lemma parseCredential_ok ak date region t : field ak -> field region -> no_byte "/" date -> parseDate (B date) = Some t ->
  parseCredential (ak +:+ "/" +:+ Scope_String (mkScope date region Service)) = Ok (ak, mkScope date region Service).
Proof.
  intros (Ha & _ & Ha2) (Hr & _ & Hr2) Hd Ht. unfold parseCredential, Scope_String. cbn [scDate scRegion scService]. repeat change ("/" +:+ ?x) with (String "/" x).
  rewrite !Split_first by done. rewrite Split_none by done. rewrite Ht. rewrite (bool_decide_false (ak = "")), (bool_decide_false (region = "")) by done. reflexivity.
Qed.

Lemma names_list names : Forall (fun n => all_bytes token_byte n = true) names -> Forall (fun c => list_byte c = true) (B (Join names ";")).
Proof.
  intros H. induction H as [|n l Hn _ IH]; [constructor|].
  assert (Forall (fun c => list_byte c = true) (B n)) as Hb by (apply all_bytes_B in Hn; eapply Forall_impl; [exact Hn|]; intros c Hc; unfold list_byte; by rewrite Hc).
  destruct l as [|y l]; [done|]. rewrite Join_cons, !B_app. apply Forall_app. split; [done|]. apply Forall_app. split; [by repeat constructor|done].
Qed.

Lemma S_length b : String.length (S_ b) = length b.
Proof. induction b as [|c b IH]; [done|]. simpl. by rewrite <- IH. Qed.

Lemma component_ok k s : ends_free is_space (B (k +:+ String "=" s)) -> no_byte "=" k -> component k (k +:+ String "=" s) = Ok s.
Proof. intros He Hk. unfold component. rewrite trimSpace_free by done. rewrite Cut_app by done. by rewrite bool_decide_true. Qed.

Lemma component_space_ok k s : ends_free is_space (B (k +:+ String "=" s)) -> no_byte "=" k -> component k (String " " (k +:+ String "=" s)) = Ok s.
Proof. unfold component. rewrite trimSpace_space. apply component_ok. Qed.

Lemma ends_free_text a y b : a <> "" -> b <> "" -> ends_free is_space (B a) -> ends_free is_space (B b) -> ends_free is_space (B (a +:+ y +:+ b)).
Proof. intros Ha Hb H1 H2. rewrite !B_app. apply ends_free_append; [by destruct a|by destruct b|done|done]. Qed.

Lemma parseAuthorization_ok ak date region t names sigb : field ak -> field region -> Forall (fun c => lower_hex c = true) (B date) -> parseDate (B date) = Some t ->
  names <> [] -> Forall (fun n => n <> "" /\ all_bytes token_byte n = true) names -> Forall (fun c => lower_hex c = true) sigb -> length sigb = 64%nat ->
  parseAuthorization (authorization ak (mkScope date region Service) names (S_ sigb)) = Ok (mkAuth ak (mkScope date region Service) names (S_ sigb) false "" 0).
Proof.
  intros Ha Hr Hd Ht Hne Hn Hs Hl. set (scope := mkScope date region Service). set (cred := ak +:+ "/" +:+ Scope_String scope).
  assert (authorization ak scope names (S_ sigb) = Algorithm +:+ String " " (("Credential=" +:+ cred) +:+ String "," ((" SignedHeaders=" +:+ Join names ";") +:+ String "," (" Signature=" +:+ S_ sigb)))) as Eh.
  { unfold authorization, cred. by rewrite !append_assoc_r. }
  assert (Forall (fun n => all_bytes token_byte n = true) names) as Hnt by (eapply Forall_impl; [exact Hn|]; naive_solver).
  assert (Join names ";" <> "") as Hjn.
  { destruct names as [|n [|m l]]; [done| |]; apply Forall_cons in Hn as [[Hn _] _]; by destruct n. }
  pose proof (names_list names Hnt) as Hj.
  assert (no_byte "," cred) as Hcc.
  { unfold cred, Scope_String. cbn [scDate scRegion scService scope]. destruct Ha as (_ & Ha & _), Hr as (_ & Hr & _).
    repeat (apply no_byte_app; split; [first [done|rewrite <- (S_B date); by apply (no_byte_class lower_hex)]|]). done. }
  assert (no_byte "," (Join names ";")) as Hjc by (rewrite <- (S_B (Join names ";")); by apply (no_byte_class list_byte)).
  assert (no_byte "," (S_ sigb)) as Hsc by by apply (no_byte_class lower_hex).
  assert (component "Credential" ("Credential=" +:+ cred) = Ok cred) as Ec.
  { apply (component_ok "Credential" cred); [|done]. unfold cred, Scope_String. change (scService scope) with Service.
    replace ("Credential" +:+ String "=" _) with ("Credential=" +:+ (ak +:+ "/" +:+ date +:+ "/" +:+ region +:+ "/s3/") +:+ terminator) by (by rewrite !append_assoc_r).
    apply ends_free_text; [done|done|by split|by split]. }
  assert (component "SignedHeaders" (" SignedHeaders=" +:+ Join names ";") = Ok (Join names ";")) as En.
  { apply (component_space_ok "SignedHeaders"); [|done]. apply (ends_free_text "SignedHeaders=" "" (Join names ";")); [done|done|by split|].
    apply ends_free_all. eapply Forall_impl; [exact Hj|apply list_byte_not_space]. }
  assert (component "Signature" (" Signature=" +:+ S_ sigb) = Ok (S_ sigb)) as Es.
  { apply (component_space_ok "Signature"); [|done]. apply (ends_free_text "Signature=" "" (S_ sigb)); [done|by destruct sigb|by split|].
    apply ends_free_all. rewrite B_S. eapply Forall_impl; [exact Hs|apply lower_hex_not_space]. }
  assert (trimSpace (authorization ak scope names (S_ sigb)) = authorization ak scope names (S_ sigb)) as Et.
  { apply trimSpace_free. replace (authorization ak scope names (S_ sigb)) with (Algorithm +:+ (" Credential=" +:+ cred +:+ ", SignedHeaders=" +:+ Join names ";" +:+ ", Signature=") +:+ S_ sigb) by (unfold authorization, cred; by rewrite !append_assoc_r).
    apply ends_free_text; [done|by destruct sigb|by split|]. rewrite B_S. apply ends_free_all. eapply Forall_impl; [exact Hs|apply lower_hex_not_space]. }
  assert (parseCredential cred = Ok (ak, scope)) as Ep by (apply (parseCredential_ok ak date region t); [done|done|rewrite <- (S_B date); by apply (no_byte_class lower_hex)|done]).
  unfold parseAuthorization. rewrite Et. cbv zeta. rewrite bool_decide_false by done. rewrite Eh. rewrite Cut_app by done. cbn [default from_option id].
  rewrite (bool_decide_false (Algorithm = AlgorithmA)), (bool_decide_false (Algorithm = "AWS")), (bool_decide_true (Algorithm = Algorithm)) by done. cbn [negb].
  rewrite !Split_first by (apply no_byte_app; by split). rewrite Split_none by (apply no_byte_app; by split). rewrite Ec. cbn [mbind result_bind].
  rewrite Ep. cbn [mbind result_bind]. rewrite En. cbn [mbind result_bind]. rewrite Es. cbn [mbind result_bind].
  assert (isHex (S_ sigb) 64 = true) as ->.
  { unfold isHex. apply andb_true_iff. split; [apply Nat.eqb_eq; rewrite <- Hl; apply S_length|].
    apply all_bytes_B. rewrite B_S. eapply Forall_impl; [exact Hs|]. apply byte_impl. vm_compute. reflexivity. }
  cbn [negb]. rewrite Split_Join; [done|done|]. eapply Forall_impl; [exact Hnt|]. intros n Ht'. by apply (contains_byte_not token_byte).
Qed.

(** ** From the signer to the verifier *)

Lemma lower_capitalise up s : ToLower (capitalise up s) = ToLower s.
Proof.
  revert up. induction s as [|c s IH]; intros up; [done|]. unfold ToLower in *. cbn [capitalise map_string]. rewrite IH. f_equal.
  assert (bool_decide (lower_byte (upper_byte c) = lower_byte c) = true) as H%bool_decide_eq_true by by_bytes (fun c => bool_decide (lower_byte (upper_byte c) = lower_byte c)).
  destruct up; [done|apply lower_byte_idemp].
Qed.
Lemma lower_canonical s : ToLower (CanonicalHeaderKey s) = ToLower s.
Proof. unfold CanonicalHeaderKey. destruct (all_bytes _ _); [apply lower_capitalise|done]. Qed.

Section roundtrip.
Context (absPath : string -> option string) (parseHTTPDate : string -> option Time).
Context (r : HRequest) (ak secret region ph : string) (now : Time).

(** What [Sign] makes, by name. *)
Definition dated : HRequest := r |> set_header "X-Amz-Date" (S_ (formatTime now)) |> set_header "X-Amz-Content-Sha256" ph.
Definition signing_names : list string :=
  "host" :: (if sendsContentLength dated then ["content-length"] else []) ++ List.filter signs_name (List.map ToLower (map_to_list (rqHeader dated)).*1).
Definition signing_scope : Scope := mkScope (S_ (formatDate now)) region Service.
Definition signing_host : string := if bool_decide (rqHost dated = "") then rqURLHost dated else rqHost dated.
Definition signing_sig : bytes :=
  hex (hmac256 (SigningKey secret signing_scope) (B (StringToSign now signing_scope
    (CanonicalRequest (rqMethod dated) (RawPath absPath dated) (RawQuery dated) (rqHeader dated) signing_host (rqContentLength dated) signing_names ph)))).

Lemma Sign_eq : Sign absPath r ak secret region ph now = set_header "Authorization" (authorization ak signing_scope (normalizeSignedHeaders signing_names) (S_ signing_sig)) dated.
Proof. unfold Sign, authorization, signing_sig, signing_names, signing_scope, signing_host, dated, Signature. cbv zeta. reflexivity. Qed.

(** The headers that the signature depends on. *)
Definition relevant (k : string) : Prop := signs_name (ToLower k) = true \/ k = "Authorization".

(** [r'] is the signed request as a server reads it: the method, path, query and host that were signed, the
    length where it was signed, and the signed headers; any other header may have come or gone. *)
Record received (r' : HRequest) : Prop := {
  rec_method : rqMethod r' = rqMethod r;
  rec_path : RawPath absPath r' = RawPath absPath r;
  rec_query : RawQuery r' = RawQuery r;
  rec_host : rqHost r' = signing_host;
  rec_length : sendsContentLength r = true -> rqContentLength r' = rqContentLength r;
  rec_header : forall k, relevant k -> rqHeader r' !! k = rqHeader (Sign absPath r ak secret region ph now) !! k;
}.

(** What the caller of [Sign] is to give it. *)
Record signable : Prop := {
  sg_key : field ak;
  sg_region : field region;
  sg_time : valid_time now = true;
  sg_payload : parsePayloadMode ph ∈ [PayloadUnsigned; PayloadSHA256; PayloadStreamingSigned; PayloadStreamingSignedTrailer; PayloadStreamingUnsignedTrailer];
  sg_names : forall k, is_Some (rqHeader r !! k) -> signs_name (ToLower k) = true -> all_bytes token_byte k = true;
  sg_token : Get "X-Amz-Security-Token" (rqHeader r) = "" /\ Get "X-Amz-Security-Token" (RawQuery r) = "";
}.

Context (r' : HRequest) (Hrec : received r') (Hsig : signable).
Notation names := (normalizeSignedHeaders signing_names).

Lemma signing_name_key n : n ∈ signing_names -> n = "host" \/ n = "content-length" /\ sendsContentLength r = true \/ signs_name n = true /\ exists k, is_Some (rqHeader dated !! k) /\ ToLower k = n.
Proof.
  unfold signing_names. intros [->|H]%elem_of_cons; [by left|]. right. apply elem_of_app in H as [H|H].
  - left. change (sendsContentLength dated) with (sendsContentLength r) in H. destruct (sendsContentLength r); [by apply list_elem_of_singleton in H|by apply elem_of_nil in H].
  - right. apply list_elem_of_In, filter_In in H as [H Hs]. split; [done|]. apply list_elem_of_In, list_elem_of_fmap in H as (k & -> & Hk).
    apply list_elem_of_fmap in Hk as ([k' vs] & -> & Hk). apply elem_of_map_to_list in Hk. exists k'. split; [by exists vs|done].
Qed.

Lemma dated_lookup k : rqHeader dated !! k = if decide (k = "X-Amz-Content-Sha256") then Some [ph] else if decide (k = "X-Amz-Date") then Some [S_ (formatTime now)] else rqHeader r !! k.
Proof.
  unfold dated, set_header. cbn [rqHeader]. repeat case_decide; subst; rewrite ?lookup_insert_eq; [done| |]; rewrite lookup_insert_ne by done; [by rewrite lookup_insert_eq|by rewrite lookup_insert_ne].
Qed.

Lemma signing_token n : n ∈ signing_names -> n <> "" /\ all_bytes token_byte n = true.
Proof.
  intros [->|[[-> _]|(Hs & k & Hk & <-)]]%signing_name_key; [done|done|]. split; [intros E; rewrite E in Hs; done|].
  assert (all_bytes token_byte k = true) as Ht.
  { rewrite dated_lookup in Hk. case_decide; [by subst|]. case_decide; [by subst|]. by apply (sg_names Hsig). }
  apply all_bytes_B. rewrite B_ToLower. apply Forall_fmap. apply all_bytes_B in Ht. eapply Forall_impl; [exact Ht|]. intros c. unfold compose.
  apply (byte_impl token_byte (fun c => token_byte (lower_byte c))). vm_compute. reflexivity.
Qed.

Lemma names_tokens : names <> [] /\ Forall (fun n => n <> "" /\ all_bytes token_byte n = true) names /\ forall n, n ∈ names <-> n ∈ signing_names.
Proof.
  destruct (names_spec signing_names) as (_ & _ & _ & Hin).
  assert (forall n, n ∈ names <-> n ∈ signing_names) as H.
  { intros n. rewrite Hin. assert (forall x, x ∈ signing_names -> name_of x = x) as Hx.
    { intros x Hx. destruct (signing_token x Hx) as [Hne Ht]. unfold name_of. rewrite token_name by done.
      destruct (signing_name_key x Hx) as [->|[[-> _]|(_ & k & _ & <-)]]; [done|done|apply ToLower_idemp]. }
    split; [intros (_ & x & Hi & <-); by rewrite Hx|]. intros Hi. split; [by apply signing_token|]. exists n. auto. }
  split_and!; [|apply Forall_forall; intros n Hn; apply H in Hn; by apply signing_token|done].
  intros E. assert ("host" ∈ names) as Hh by (apply H; left). rewrite E in Hh. by apply elem_of_nil in Hh.
Qed.

Lemma received_header k : signs_name (ToLower k) = true -> rqHeader r' !! k = rqHeader dated !! k.
Proof.
  intros Hk. rewrite (rec_header r' Hrec) by by left. rewrite Sign_eq. unfold set_header at 1. cbn [rqHeader]. rewrite lookup_insert_ne; [done|]. intros <-. done.
Qed.

(** Each signed header has the value that was signed. *)
Lemma received_value n : n ∈ names -> canonicalHeaderValue n (rqHeader r') (rqHost r') (rqContentLength r') = canonicalHeaderValue n (rqHeader dated) signing_host (rqContentLength r).
Proof.
  intros Hn. apply names_tokens, signing_name_key in Hn. unfold canonicalHeaderValue. rewrite (rec_host r' Hrec).
  destruct Hn as [->|[[-> Hl]|(Hs & k & _ & <-)]].
  - reflexivity.
  - rewrite (rec_length r' Hrec Hl). rewrite !(bool_decide_false ("content-length" = "host")) by done. rewrite !(bool_decide_true ("content-length" = "content-length")) by done. cbn [andb].
    assert (0 <=? rqContentLength r = true)%Z as ->; [|done]. unfold sendsContentLength in Hl. apply Z.leb_le. destruct (Z.ltb_spec 0 (rqContentLength r)); [lia|].
    destruct (Z.ltb_spec (rqContentLength r) 0); [done|lia].
  - assert (ToLower k <> "host" /\ ToLower k <> "content-length") as [H1 H2] by (split; intros E; rewrite E in Hs; done).
    rewrite !(bool_decide_false (ToLower k = "host")), !(bool_decide_false (ToLower k = "content-length")) by done. cbn [andb]. rewrite received_header; [done|]. by rewrite lower_canonical, ToLower_idemp.
Qed.

(** The canonical request is the one that was signed. *)
Lemma received_canonical : CanonicalRequest (rqMethod r') (RawPath absPath r') (RawQuery r') (rqHeader r') (rqHost r') (rqContentLength r') names ph =
  CanonicalRequest (rqMethod dated) (RawPath absPath dated) (RawQuery dated) (rqHeader dated) signing_host (rqContentLength dated) signing_names ph.
Proof.
  rewrite !canonical_request_text, names_idemp, (rec_method r' Hrec), (rec_path r' Hrec), (rec_query r' Hrec).
  change (RawPath absPath dated) with (RawPath absPath r). change (RawQuery dated) with (RawQuery r). change (rqMethod dated) with (rqMethod r). change (rqContentLength dated) with (rqContentLength r).
  rewrite !canonical_text_lines. cbn [ptMethod ptPath ptQuery ptValue ptNames ptHash]. do 3 f_equal. f_equal. f_equal. f_equal.
  generalize (String "010" (Join names ";" +:+ String "010" ph)). intros rest. assert (Forall (fun n => n ∈ names) names) as Hf by by apply Forall_forall.
  revert Hf. generalize names at 2 3 4. intros l Hf. induction Hf as [|n l Hn _ IH]; [done|]. cbn [foldr]. rewrite IH. unfold header_line. by rewrite received_value.
Qed.

(** The instant that was signed: seconds only. *)
Definition signed_time : Time := mkTime (tYear now) (tMonth now) (tDay now) (tHour now) (tMinute now) (tSecond now) 0.

Lemma signed_time_parse : parseTime (formatTime now) = Some signed_time /\ formatTime signed_time = formatTime now /\ formatDate signed_time = formatDate now.
Proof. split_and!; [|done..]. change (formatTime now) with (formatTime signed_time). apply parseTime_format; [exact (sg_time Hsig)|done]. Qed.

Lemma received_get k v : relevant k -> rqHeader (Sign absPath r ak secret region ph now) !! k = Some [v] -> Get k (rqHeader r') = v.
Proof. intros Hk E. unfold Get. by rewrite (rec_header r' Hrec), E. Qed.

Lemma sent_authorization : rqHeader (Sign absPath r ak secret region ph now) !! "Authorization" = Some [authorization ak signing_scope names (S_ signing_sig)].
Proof. rewrite Sign_eq. unfold set_header at 1. cbn [rqHeader]. apply lookup_insert_eq. Qed.
Lemma sent_date : rqHeader (Sign absPath r ak secret region ph now) !! "X-Amz-Date" = Some [S_ (formatTime now)].
Proof. rewrite Sign_eq. unfold set_header at 1. cbn [rqHeader]. rewrite lookup_insert_ne, dated_lookup by done. done. Qed.
Lemma sent_payload : rqHeader (Sign absPath r ak secret region ph now) !! "X-Amz-Content-Sha256" = Some [ph].
Proof. rewrite Sign_eq. unfold set_header at 1. cbn [rqHeader]. rewrite lookup_insert_ne, dated_lookup by done. done. Qed.

Lemma received_authenticate now' skew mx : (Sub now' signed_time <= skew)%Z -> (wrap64 (- skew) <= Sub now' signed_time)%Z ->
  authenticate parseHTTPDate r' now' skew mx = Ok (mkAuth ak signing_scope names (S_ signing_sig) false "" 0, signed_time).
Proof.
  intros H1 H2. destruct signed_time_parse as (Ep & Ef & Ed). destruct names_tokens as (Hne & Hn & _).
  assert (valid_date now = true) as Hd by (pose proof (sg_time Hsig) as Ht; by apply andb_true_iff in Ht as [? _]).
  unfold authenticate. rewrite (received_get "Authorization" _ (or_intror eq_refl) sent_authorization). cbv zeta. rewrite bool_decide_false by done. cbn [negb].
  assert (parseDate (B (S_ (formatDate now))) = Some (mkTime (tYear now) (tMonth now) (tDay now) 0 0 0 0)) as Hpd by (rewrite B_S; by apply parseDate_format).
  unfold signing_scope at 1. rewrite (parseAuthorization_ok ak _ region _ names signing_sig (sg_key Hsig) (sg_region Hsig)) with (2 := Hpd); [|rewrite B_S; by apply formatDate_hex|done|done|apply hex_lower|by unfold signing_sig; rewrite hex_length, hmac256_length].
  cbn [mbind result_bind]. unfold requestTime. rewrite (received_get "X-Amz-Date" _ (or_introl eq_refl) sent_date). rewrite bool_decide_false by (intros E; apply (f_equal B) in E; by rewrite B_S in E; unfold formatTime in E; destruct (formatDate now)).
  cbn [negb]. rewrite B_S, Ep. cbn [mbind result_bind]. cbv zeta. rewrite (proj2 (Z.ltb_ge _ _)), (proj2 (Z.ltb_ge _ _)) by done. cbn [orb mbind result_bind auScope].
  rewrite Ed. rewrite bool_decide_true by done. done.
Qed.

(** Every x-amz header of the request was signed. *)
Lemma received_signed : existsb (unsigned_header names) (sortedKeys (rqHeader r')) = false.
Proof.
  apply not_true_is_false. intros (k & Hk%list_elem_of_In & Hu)%existsb_exists. apply elem_of_sortedKeys in Hk. unfold unsigned_header in Hu.
  apply andb_true_iff in Hu as [[Hp Hn%negb_true_iff%bool_decide_eq_false]%andb_true_iff _]. apply Hn.
  assert (signs_name (ToLower k) = true) as Hs by (unfold signs_name; by rewrite Hp). rewrite received_header in Hk by done.
  apply list_elem_of_fmap. exists (ToLower k). rewrite ToLower_idemp. split; [done|]. apply names_tokens. unfold signing_names. right. apply elem_of_app. right.
  apply list_elem_of_In, filter_In. split; [|done]. apply list_elem_of_In, list_elem_of_fmap. exists k. split; [done|]. destruct Hk as [vs Hk]. apply list_elem_of_fmap. exists (k, vs). split; [done|]. by apply elem_of_map_to_list.
Qed.

Lemma received_payload req : payload_of r' (mkAuth ak signing_scope names (S_ signing_sig) false "" 0) req = Ok (parsePayloadMode ph, ph).
Proof.
  unfold payload_of. cbn [auPresigned]. cbv zeta. rewrite (received_get "X-Amz-Content-Sha256" _ (or_introl eq_refl) sent_payload).
  pose proof (sg_payload Hsig) as Hp. destruct (parsePayloadMode ph) eqn:E; try done; exfalso; rewrite !elem_of_cons, elem_of_nil in Hp; naive_solver.
Qed.

Lemma received_no_token : Get "X-Amz-Security-Token" (rqHeader r') = "" /\ Get "X-Amz-Security-Token" (RawQuery r') = "".
Proof.
  destruct (sg_token Hsig) as [H1 H2]. rewrite (rec_query r' Hrec). split; [|done]. unfold Get in *. rewrite received_header by done. by rewrite dated_lookup, !decide_False by done.
Qed.
End roundtrip.

(** What Sign signs, Verify accepts. A request signed for an access key, and read by a server with the
    method, path, query, host, signed length and signed headers it was sent with, verifies under a store
    that knows the key's secret, whenever it arrives within the clock skew; the identity is that
    credential with the scope, names, payload mode and seed signature that were signed. *)
Theorem sign_verified absPath Lookup parseHTTPDate r ak cred region ph now r' now' o :
  signable r ak region ph now -> Lookup ak = Ok cred -> received absPath r ak (cdSecret cred) region ph now r' ->
  (let skew := if (oClockSkew o =? 0)%Z then (15 * 60 * 1000000000)%Z else oClockSkew o in wrap64 (- skew) <= Sub now' (signed_time now) <= skew)%Z ->
  Verify absPath Lookup parseHTTPDate r' now' o =
  Ok (mkId cred (signing_scope region now) (SigningKey (cdSecret cred) (signing_scope region now)) (S_ (signing_sig absPath r (cdSecret cred) region ph now))
        (normalizeSignedHeaders (signing_names r ph now)) (signed_time now) false (parsePayloadMode ph) ph).
Proof.
  intros Hs Hl Hr Hskew. set (skew := if (oClockSkew o =? 0)%Z then (15 * 60 * 1000000000)%Z else oClockSkew o) in *. cbv zeta in Hskew. destruct Hskew as [Hs1 Hs2].
  destruct (received_no_token absPath r ak (cdSecret cred) region ph now r' Hr Hs) as [Ht1 Ht2].
  unfold Verify. cbv zeta. fold skew. rewrite Ht1, Ht2. cbn [bool_decide]. rewrite !bool_decide_true by done. cbn [negb orb].
  rewrite (received_authenticate absPath parseHTTPDate r ak (cdSecret cred) region ph now r' Hr Hs now' skew _ Hs2 Hs1). cbn [mbind result_bind auSignedHeaders].
  rewrite (received_signed absPath r ak (cdSecret cred) region ph now r' Hr Hs). rewrite (received_payload absPath parseHTTPDate r ak (cdSecret cred) region ph now r' Hr Hs). cbn [mbind result_bind auAccessKey]. rewrite Hl.
  cbn [auSignedHeaders auScope auSignature auPresigned]. unfold canonicalQueryValues. rewrite (received_canonical absPath r ak (cdSecret cred) region ph now r' Hr Hs).
  assert (forall c, StringToSign (signed_time now) (signing_scope region now) c = StringToSign now (signing_scope region now) c) as Et by done. rewrite Et, names_idemp.
  unfold Signature, signing_sig. rewrite bool_decide_true by reflexivity. cbn [negb]. reflexivity.
Qed.

(** ** A put, signed and received *)

Definition put_request : HRequest := mkHReq "PUT" "" "/b/k" "" {["Content-Type" := ["text/plain"]]} "" "s3.example.com" 5 true.
Definition put_cred : Credential := mkCred "AK" "secret" "t" [].
Definition put_time : Time := mkTime 2026 9 24 12 0 0 500.
Definition put_sent : HRequest := Sign no_abs put_request "AK" "secret" "us-east-1" UnsignedPayload put_time.
Definition put_received : HRequest := mkHReq "PUT" "/b/k" "/b/k" "" (<["User-Agent" := ["Go-http-client/1.1"]]> (rqHeader put_sent)) "s3.example.com" "" 5 true.

Lemma put_is_received : received no_abs put_request "AK" (cdSecret put_cred) "us-east-1" UnsignedPayload put_time put_received.
Proof. split; try done. intros k [Hk| ->]; unfold put_received; cbn [rqHeader]; rewrite lookup_insert_ne; try done. by intros <-. Qed.

Lemma put_is_signable : signable put_request "AK" "us-east-1" UnsignedPayload put_time.
Proof.
  split; try done; [by apply (bool_decide_unpack _)|]. intros k [vs Hk] _. unfold put_request in Hk. cbn [rqHeader] in Hk. apply lookup_singleton_Some in Hk as [<- _]. done.
Qed.

Lemma sign_verified_witness : exists i, Verify no_abs (fun _ => Ok put_cred) no_date put_received (mkTime 2026 9 24 12 10 0 0) (mkOptions 0 0 true) = Ok i /\ idPayload i = PayloadUnsigned.
Proof.
  eexists. split; [refine (sign_verified no_abs (fun _ => Ok put_cred) no_date put_request "AK" put_cred "us-east-1" UnsignedPayload put_time put_received (mkTime 2026 9 24 12 10 0 0) (mkOptions 0 0 true) put_is_signable eq_refl put_is_received _)|].
  - vm_compute. split; discriminate.
  - reflexivity.
Defined.
