(* ===== verification/BodyPlan.v ===== *)
(** * The body of a re-signed request (internal/proxy/auth.go, headers.go; internal/upstream/cluster.go)

    A verified client's body goes to the backend untouched, hashed on the way, decoded from its signed
    chunks, or re-framed as an unsigned trailer, by its payload mode and the capabilities of the
    cluster it goes to; the client's own authentication is taken out of the query and the headers. *)

From S2P Require Import Prelude S3Op Placement S3Names Crypto Strconv Civil Chunked ChunkEncode ChunkedSafe ChunkReframe SigV4 TextFacts SigV4Safe.

(** ** Clusters *)

(** [upstream.Cluster], what a request reads of it. *)
Record UCluster : Type := mkUCluster {
  ucName : string; ucType : string; ucScheme : string; ucRegion : string; ucID : string; ucEndpoints : list string;
  ucAccessKey : string; ucSecret : string;
  ucEnforcesSHA256 : bool; ucUnsignedTrailer : bool; ucConditionalWrite : bool;
}.

(** ** Headers of a chunked body *)

Definition maxObjSizeLimit : Z := 5 * 1024 * 1024 * 1024.

Definition ExtractChecksumType (h : values) : result chunkErr string :=
  let chType := ToLower (Get "X-Amz-Trailer" h) in
  if negb (bool_decide (chType = "")) && negb (isValid chType) then Err errTrailerNotSupported else Ok chType.

Definition ParseDecodedContentLength (h : values) : result chunkErr Z :=
  let s := Get "X-Amz-Decoded-Content-Length" h in
  if bool_decide (s = "") then Err MissingContentLength
  else match ParseInt 10 (B s) with
       | None => Err MissingContentLength
       | Some n => if (maxObjSizeLimit <? n)%Z then Err EntityTooLarge else Ok n
       end.

(** The S3 code of a reader's error ([asS3]). *)
Definition asS3 (e : chunkErr) : string :=
  match e with
  | IncompleteBody | errContentLengthMismatch => "IncompleteBody"
  | SignatureDoesNotMatch => "SignatureDoesNotMatch"
  | MalformedTrailerError => "MalformedTrailerError"
  | BadDigest => "BadDigest"
  | InvalidTrailingChecksum | errTrailerNotSupported => "InvalidRequest"
  | InvalidChunkSizeError => "InvalidChunkSizeError"
  | MissingContentLength => "MissingContentLength"
  | EntityTooLarge => "EntityTooLarge"
  end.

(** ** The plan *)

(** What the body of the upstream request is read from: nothing, the client's bytes, those bytes hashed as
    they pass, the decoder of the signed chunks, or the decoder's data in unsigned frames. *)
Inductive planned : Type :=
| NoBody
| Verbatim
| Hashed (expectHex : string)
| Decoded
| Reframed (trailer : string).

Record bodyPlan : Type := mkPlan {
  bpBody : planned;
  bpContentLength : Z;
  bpPayloadHash : string;
  bpDecoder : option (string * bool);   (* the decoder's trailer type and whether it asks for a trailer *)
  bpStripEncoding : bool;
  bpKeepTrailer : bool;
  bpDecodedLen : Z;
}.

Definition plain_plan (body : planned) (cl : Z) (hash : string) : bodyPlan := mkPlan body cl hash None false false 0.

(** The signed chunk variants: the decoder is made of the request's identity. *)
Definition plan_signed (h : values) (withTrailer unsignedTrailer : bool) : result AuthError bodyPlan :=
  match ParseDecodedContentLength h with
  | Err e => Err (fail ReasonMalformed (asS3 e))
  | Ok decodedLen =>
      match ExtractChecksumType h with
      | Err e => Err (fail ReasonTrailer (asS3 e))
      | Ok trailerType =>
          if withTrailer && bool_decide (trailerType = "") then Err (fail ReasonTrailer "InvalidRequest")
          else
            let trailerType := if withTrailer then trailerType else "" in
            if withTrailer && unsignedTrailer then
              Ok (mkPlan (Reframed trailerType) (EncodedLength decodedLen DefaultChunkSize (Z.of_nat (String.length trailerType)) (Base64Len trailerType))
                    StreamingUnsignedPayloadTrailer (Some (trailerType, withTrailer)) false true decodedLen)
            else Ok (mkPlan Decoded decodedLen UnsignedPayload (Some (trailerType, withTrailer)) true false decodedLen)
      end
  end.

(** [planBody]; [hasBody] is whether the request has a body to read. *)
Definition planBody (r : HRequest) (id : Identity) (hasBody : bool) (cl : UCluster) : result AuthError bodyPlan :=
  if negb hasBody then
    Ok (plain_plan NoBody (rqContentLength r) (if idPresigned id || bool_decide (idPayload id = PayloadMissing) then UnsignedPayload else idPayloadHash id))
  else match idPayload id with
  | PayloadUnsigned | PayloadStreamingUnsignedTrailer => Ok (plain_plan Verbatim (rqContentLength r) (idPayloadHash id))
  | PayloadMissing => Ok (plain_plan Verbatim (rqContentLength r) UnsignedPayload)
  | PayloadSHA256 => Ok (plain_plan (if ucEnforcesSHA256 cl then Verbatim else Hashed (idPayloadHash id)) (rqContentLength r) (idPayloadHash id))
  | mode =>
      if idPresigned id then Ok (plain_plan Verbatim (rqContentLength r) UnsignedPayload)
      else plan_signed (rqHeader r) (bool_decide (mode = PayloadStreamingSignedTrailer)) (ucUnsignedTrailer cl)
  end.

(** ** What is taken out *)

Definition presignParams : list string :=
  ["X-Amz-Algorithm"; "X-Amz-Credential"; "X-Amz-Date"; "X-Amz-Expires"; "X-Amz-SignedHeaders"; "X-Amz-Signature"; "X-Amz-Security-Token"].
Definition clientAuthHeaders : list string := ["Authorization"; "X-Amz-Date"; "X-Amz-Content-Sha256"; "X-Amz-Security-Token"].

(** The name of a raw pair, decoded when it decodes. *)
Definition pair_name (p : string) : string :=
  let k := match Cut p "=" with Some (k, _) => k | None => p end in default k (QueryUnescape k).

Definition stripPresign (raw : string) : string :=
  if bool_decide (raw = "") then "" else Join (List.filter (fun p => negb (bool_decide (pair_name p ∈ presignParams))) (Split raw "&")) "&".

Definition EqualFold (a b : string) : bool := bool_decide (ToLower a = ToLower b).

Definition stripAWSChunked (h : values) : values :=
  let v := Get "Content-Encoding" h in
  if bool_decide (v = "") then h
  else
    let keep := List.filter (fun t => negb (bool_decide (t = "")) && negb (EqualFold t "aws-chunked")) (List.map trimSpace (Split v ",")) in
    if bool_decide (keep = []) then delete "Content-Encoding" h else <["Content-Encoding" := [Join keep ", "]]> h.

(** ** Headers between the client and the backend *)

Definition hopByHop : list string :=
  ["Connection"; "Keep-Alive"; "Proxy-Authenticate"; "Proxy-Authorization"; "Proxy-Connection"; "Te"; "Trailer"; "Transfer-Encoding"; "Upgrade"].

(** The names the Connection header lists. *)
Definition connection_named (src : values) : list string :=
  List.map CanonicalHeaderKey (List.filter (fun t => negb (bool_decide (t = "")))
    (List.map trimSpace (concat (List.map (fun v => Split v ",") (default [] (src !! "Connection")))))).

(** [copyHeaders] into an empty map. *)
Definition copyHeaders (src : values) : values :=
  filter (fun kv : string * list string => kv.1 ∉ hopByHop /\ kv.1 ∉ connection_named src) src.

Definition appendVia (via : string) (h : values) : values :=
  let prev := Get "Via" h in <["Via" := [if bool_decide (prev = "") then via else prev +:+ ", " +:+ via]]> h.

(** ** The query without the client's authentication *)

Definition kept (p : string) : bool := negb (bool_decide (pair_name p ∈ presignParams)).
Definition unauthenticated (q : values) : values := filter (fun kv : string * list string => kv.1 ∉ presignParams) q.

Lemma fold_query_false l q : (foldl query_pair (q, false) l).2 = false.
Proof.
  revert q. induction l as [|p l IH]; intros q; [done|]. cbn [foldl]. unfold query_pair at 2. destruct (contains_byte _ _); [apply IH|]. case_bool_decide; [apply IH|].
  destruct (default _ _) as [k v]. destruct (QueryUnescape k), (QueryUnescape v); apply IH.
Qed.

Lemma unauthenticated_add q k v : unauthenticated (add_pair q k v) = if bool_decide (k ∈ presignParams) then unauthenticated q else add_pair (unauthenticated q) k v.
Proof.
  unfold unauthenticated, add_pair. case_bool_decide as E.
  - rewrite map_filter_insert_False by (cbn [fst]; tauto). apply map_eq. intros j. rewrite !map_lookup_filter. destruct (decide (j = k)) as [->|Hj].
    + rewrite lookup_delete_eq. simpl. destruct (q !! k) as [vs|]; simpl; [|done]. by rewrite option_guard_False by tauto.
    + by rewrite lookup_delete_ne.
  - rewrite map_filter_insert_True by (cbn [fst]; tauto). do 3 f_equal. rewrite map_lookup_filter. destruct (q !! k) as [vs|]; simpl; [|done]. by rewrite option_guard_True by (cbn [fst]; tauto).
Qed.

Lemma fold_query_kept l q q' : foldl query_pair (q, true) l = (q', true) -> foldl query_pair (unauthenticated q, true) (List.filter kept l) = (unauthenticated q', true).
Proof.
  revert q. induction l as [|p l IH]; intros q H; [by simplify_eq/=|]. cbn [foldl List.filter] in *. unfold query_pair at 2 in H.
  assert (forall q, foldl query_pair (q, false) l <> (q', true)) as Hf by (intros q0 E; pose proof (fold_query_false l q0) as F; by rewrite E in F).
  destruct (contains_byte ";" p) eqn:Es; [by apply Hf in H|]. case_bool_decide as Ee.
  - subst p. cbn [kept]. change (kept "") with true. cbn iota. cbn [foldl]. unfold query_pair at 2. rewrite Es. rewrite bool_decide_true by done. by apply IH.
  - destruct (default (p, "") (Cut p "=")) as [k v] eqn:Ec. destruct (QueryUnescape k) as [k'|] eqn:Ek, (QueryUnescape v) as [v'|] eqn:Ev; try (by apply Hf in H).
    assert (pair_name p = k') as En by (unfold pair_name; destruct (Cut p "=") as [[k0 v0]|]; simplify_eq/=; by rewrite Ek).
    apply IH in H. rewrite unauthenticated_add in H. unfold kept at 1. rewrite En. case_bool_decide as Ep; cbn [negb]; [done|]. cbn [foldl]. unfold query_pair at 2. rewrite Es, bool_decide_false, Ec, Ek, Ev by done. done.
Qed.

(** What is left of a presigned query is the rest of it: when the query parses, the query without the
    presigning parameters parses to the same keys and values, all of them but those parameters, in the
    client's own encoding. *)
Theorem stripPresign_query raw q : ParseQuery raw = (q, true) -> ParseQuery (stripPresign raw) = (unauthenticated q, true).
Proof.
  unfold stripPresign. case_bool_decide as E; [by subst; intros [= <-]|]. intros H. apply fold_query_kept in H. assert (unauthenticated ∅ = ∅) as E1 by apply map_filter_empty. rewrite E1 in H.
  change (fun p => negb (bool_decide (pair_name p ∈ presignParams))) with kept. unfold ParseQuery. destruct (decide (List.filter kept (Split raw "&") = [])) as [E0|Hne]; [rewrite E0 in *; exact H|].
  rewrite Split_Join; [done|done|]. pose proof (Split_pieces raw "&") as Hp. rewrite Forall_forall in Hp |- *. intros p Hin. apply list_elem_of_In, filter_In in Hin as [Hin _]. apply list_elem_of_In in Hin. by destruct (Hp p Hin).
Qed.

Lemma stripPresign_query_witness : ParseQuery (stripPresign ("versionId=3&" +:+ presign_query)) = (unauthenticated (ParseQuery ("versionId=3&" +:+ presign_query)).1, true).
Proof. apply stripPresign_query. vm_compute. reflexivity. Defined.

(** ** The length that is announced *)

Lemma valid_hasher ct : isValid ct = true -> is_Some (getHasher ct).
Proof. unfold isValid, checksumLengths, getHasher. repeat case_bool_decide; simplify_eq; try done; by eexists. Qed.

(** The length announced to the backend is the length of what it gets. A client's signed body with a
    trailer, framed by the repository's own client side, cut into reads anywhere, and planned for a
    cluster: to one that takes unsigned trailers it is re-framed, and enough reads of any sizes end the
    frames with exactly the planned number of bytes; to any other it is decoded to exactly its data, whose
    length is the planned one. *)
Theorem planned_length r id cl key region date trailer seed data n ps q sizes
    (Hp : idPresigned id = false) (Hm : idPayload id = PayloadStreamingSignedTrailer)
    (Ht : ExtractChecksumType (rqHeader r) = Ok trailer) (Hne : trailer <> "")
    (Hl : ParseDecodedContentLength (rqHeader r) = Ok (Z.of_nat (length data)))
    (Hn : (0 < Z.of_nat n <= MaxInt64)%Z) (Hsize : (minChunkSize <= Z.of_nat n)%Z \/ (length data <= n)%nat)
    (Hwire : concat ps ++ q = signed_all key region date trailer n (length data + 2) (NewSignedEncoder (mkSource data SrcEOF) seed))
    (Hsizes : Forall (fun n => (0 < n)%nat) sizes) :
  exists plan cr, planBody r id true cl = Ok plan /\
    run key region date trailer true (Z.of_nat (length data)) (NewSignedChunkReader trailer seed) (List.map (fun p => (p, More)) ps ++ [(q, Ended)]) = (cr, data, RunEOF) /\
    if ucUnsignedTrailer cl then
      bpBody plan = Reframed trailer /\
      forall out e, encoder_run (B trailer) (crParsedChecksum cr) (Z.to_nat DefaultChunkSize) sizes (NewEncoder (source_of data RunEOF) (Z.of_nat (length data))) = (out, e) ->
        (bpContentLength plan < Z.of_nat (length sizes))%Z -> e = EncRunEOF /\ Z.of_nat (length out) = bpContentLength plan
    else bpBody plan = Decoded /\ bpContentLength plan = Z.of_nat (length data).
Proof.
  assert (is_Some (getHasher trailer)) as Hh.
  { apply valid_hasher. unfold ExtractChecksumType in Ht. case_bool_decide as E; cbn [negb andb] in Ht; [apply Ok_inj in Ht; congruence|]. destruct (isValid _) eqn:Ev; cbn [negb] in Ht; [|done]. apply Ok_inj in Ht as <-. done. }
  destruct (reframed_client_body key region date trailer seed data n ps q sizes Hh Hn Hsize Hwire Hsizes) as (cr & d & e & out & rest & x & Hrun & Henc & Eout & Elen & Hx & Hend).
  destruct (signed_roundtrip_lemma key region date trailer seed data n ps q (or_intror Hh) Hn Hsize Hwire) as (cr' & Hrun' & _). rewrite bool_decide_false in Hrun' by done. cbn [negb] in Hrun'.
  rewrite Hrun' in Hrun. injection Hrun as <- <- <-.
  unfold planBody. rewrite Hm, Hp. cbn [negb]. rewrite bool_decide_true by done. unfold plan_signed. rewrite Hl, Ht. rewrite bool_decide_false by done. cbn [andb].
  destruct (ucUnsignedTrailer cl); cbn [andb]; eexists; exists cr'; (split; [reflexivity|]); (split; [exact Hrun'|]); cbn [bpBody bpContentLength]; [|done].
  split; [done|]. intros out' e' H Hlt. rewrite Henc in H. injection H as <- <-.
  assert (String.length trailer = length (B trailer)) as El by (clear; induction trailer as [|c s IH]; [done|]; simpl; by rewrite IH). rewrite El, <- Elen in Hlt |- *.
  pose proof (Hend ltac:(lia)) as ->. destruct Hx as [[_ ->]|?]; [|done]. by rewrite app_nil_r.
Qed.

(** A put of five bytes with a CRC-32 trailer. *)
Definition trailer_request : HRequest :=
  mkHReq "PUT" "/b/k" "/b/k" "" (list_to_map [("X-Amz-Trailer", [checksumTypeCrc32]); ("X-Amz-Decoded-Content-Length", ["5"])]) "h" "" 300 true.
Definition trailer_identity : Identity := mkId (mkCred "AK" "s" "t" []) (mkScope "20130524" "us-east-1" "s3") aws_key "" [] aws_date false PayloadStreamingSignedTrailer StreamingSignedPayloadTrailer.
Definition trailer_cluster (b : bool) : UCluster := mkUCluster "c" "s3" "https" "us-east-1" "abcdef" ["h:443"] "AK" "s" false b true.

Lemma planned_length_witness : exists plan cr, planBody trailer_request trailer_identity true (trailer_cluster false) = Ok plan /\
  run aws_key (B "us-east-1") aws_date checksumTypeCrc32 true 5 (NewSignedChunkReader checksumTypeCrc32 aws_seed) (List.map (fun p => (p, More)) [take 40 ex_wire] ++ [(drop 40 ex_wire, Ended)]) = (cr, B "hello", RunEOF) /\
  bpBody plan = Decoded /\ bpContentLength plan = 5%Z.
Proof.
  apply (planned_length trailer_request trailer_identity (trailer_cluster false) aws_key (B "us-east-1") aws_date checksumTypeCrc32 aws_seed (B "hello") 8 [take 40 ex_wire] (drop 40 ex_wire) [7; 7]%nat).
  - reflexivity.
  - reflexivity.
  - reflexivity.
  - done.
  - reflexivity.
  - done.
  - right. simpl. lia.
  - vm_compute. reflexivity.
  - repeat constructor.
Defined.
