(* ===== verification/Conditional.v ===== *)
(** * Conditional writes across a migration (internal/proxy/conditional.go)

    While a bucket's objects are split over two clusters a backend can judge a precondition only against
    the copy it holds.  The proxy asks the other cluster first and forwards what is left to judge. *)

From S2P Require Import Prelude Config S3Op Placement S3Names Crypto Strconv SigV4 BodyPlan.

(** [upstream.Set]: the clusters by name and by opaque id. *)
Record Clusters : Type := mkClusters { byName : gmap string UCluster; byID : gmap string UCluster }.

Definition is_quote (c : Ascii.ascii) : bool := bool_decide (c = "034"%char).
Definition normalizeETag (v : string) : string := S_ (trim is_quote (B (TrimPrefix (trimSpace v) "W/"))).

Definition etagMatches (header etag : string) : bool :=
  let header := trimSpace header in
  bool_decide (header = "*") ||
  existsb (fun want => bool_decide (normalizeETag want = normalizeETag etag) && negb (bool_decide (etag = ""))) (Split header ",").

Record condAction : Type := mkCond { dropIfMatch : bool; createOnly : bool }.
Definition noAction : condAction := mkCond false false.

Definition hasWritePrecondition (h : values) : bool :=
  negb (bool_decide (Get "If-None-Match" h = "")) || negb (bool_decide (Get "If-Match" h = "")).

(** The placement's other cluster and bucket, when the bucket is mid-migration. *)
Definition cond_other (p : Placement) (clusters : Clusters) (role : string) : option (UCluster * string) :=
  if bool_decide (pState p = StateRamping) || bool_decide (pState p = StateMigrating) then
    let otherRole := if bool_decide (role = pSource p) then pPrimary p else pSource p in
    match byName clusters !! ClusterOf p otherRole with
    | Some oc => let name := mget "" otherRole (pNames p) in
                 if negb (bool_decide (otherRole = role)) && negb (bool_decide (name = "")) then Some (oc, name) else None
    | None => None
    end
  else None.

Section conditional.

(** [headKey]: the answer of the n-th HEAD of the request's key, on a cluster and bucket: the status, 200 or
    404, with the ETag, or nothing when no such answer came. *)
Context (headKey : nat -> UCluster -> string -> option (Z * string)).

(** The check of If-None-Match: [None] passes. *)
Definition judge_none_match (cl : UCluster) (backend inm : string) (onOther : bool) (otherETag : string) : option string :=
  if bool_decide (inm = "") then None
  else if onOther && etagMatches inm otherETag then Some "PreconditionFailed"
  else if ucConditionalWrite cl then None
  else match headKey 1 cl backend with
       | None => Some "ServiceUnavailable"
       | Some (status, etag) => if (status =? 200)%Z && etagMatches inm etag then Some "PreconditionFailed" else None
       end.

(** The check of If-Match on a split bucket. *)
Definition judge_match (cl : UCluster) (backend im : string) (onOther : bool) (otherETag : string) : result string condAction :=
  match headKey 2 cl backend with
  | None => Err "ServiceUnavailable"
  | Some (status, _) =>
      if (status =? 200)%Z then Ok noAction
      else if negb onOther || negb (etagMatches im otherETag) then Err "PreconditionFailed"
      else Ok (mkCond true (ucConditionalWrite cl))
  end.

Definition conditionalWrite (h : values) (op : Op) (p : Placement) (clusters : Clusters) (role : string) (cl : UCluster) (backend : string) : result string condAction :=
  if negb (hasWritePrecondition h) then Ok noAction
  else if negb (bool_decide (op ∈ [OpPutObject; OpCompleteMultipartUpload; OpCopyObject])) then Ok noAction
  else
    let other := cond_other p clusters role in
    if bool_decide (other = None) && ucConditionalWrite cl then Ok noAction
    else
      let inm := Get "If-None-Match" h in
      let im := Get "If-Match" h in
      match other with
      | None =>
          match judge_none_match cl backend inm false "" with Some code => Err code | None => Ok noAction end
      | Some (oc, otherBackend) =>
          match headKey 0 oc otherBackend with
          | None => Err "ServiceUnavailable"
          | Some (status, otherETag) =>
              let onOther := (status =? 200)%Z in
              match judge_none_match cl backend inm onOther otherETag with
              | Some code => Err code
              | None => if bool_decide (im = "") then Ok noAction else judge_match cl backend im onOther otherETag
              end
          end
      end.

(** The conditions the upstream request carries. *)
Definition forwarded (h : values) (act : condAction) : string * string :=
  if dropIfMatch act then (if createOnly act then "*" else "", "") else (Get "If-None-Match" h, Get "If-Match" h).

End conditional.

#[export] Instance UCluster_eq_dec : EqDecision UCluster.
Proof. solve_decision. Defined.

(** ** What S3 promises *)

(** An object that is there, with its ETag, meets or fails the conditions of a write. *)
Definition meets (inm im : string) (object : option string) : bool :=
  (bool_decide (inm = "") || match object with Some e => negb (etagMatches inm e) | None => true end) &&
  (bool_decide (im = "") || match object with Some e => etagMatches im e | None => false end).

(** A backend judges If-Match against its copy, and If-None-Match when its profile says so. *)
Definition backend_accepts (cl : UCluster) (inm im : string) (copy : option string) : bool :=
  meets (if ucConditionalWrite cl then inm else "") im copy.

(** The answers to HEAD of a copy that is there, or not. *)
Definition head_of (copy : option string) : option (Z * string) := match copy with Some e => Some (200%Z, e) | None => Some (404%Z, "") end.

(** The object of a split bucket: the copy where the write lands, else the other one. *)
Definition logical (dest other : option string) : option string := match dest with Some e => Some e | None => other end.

(** Decide every match of an ETag in the goal, then compute; a header of a star matches every ETag. *)
Ltac match_cases := repeat match goal with |- context [etagMatches ?a ?b] => destruct (etagMatches a b) eqn:? end.
Ltac known_matches := repeat match goal with
  | E : etagMatches ?a ?b = _, H : context [etagMatches ?a ?b] |- _ => rewrite E in H
  | E : etagMatches ?a ?b = _ |- context [etagMatches ?a ?b] => rewrite E
  end.
Ltac solve_cond Hstar :=
  match_cases; cbn; (split; [intros ? ? ?|intros [?|Hs] ?; [|specialize (Hstar Hs)]]); simplify_eq/=; try done;
  try (eexists; split; [reflexivity|]); cbn in *; repeat case_bool_decide; simplify_eq/=; known_matches; cbn in *; try done; try congruence;
  try (match goal with E : etagMatches ?a ?b = false, H : forall e, etagMatches ?a e = true |- _ => by rewrite H in E end).

Section agreement.
Context (headKey : nat -> UCluster -> string -> option (Z * string)).
Context (h : values) (op : Op) (p : Placement) (clusters : Clusters) (role : string) (cl : UCluster) (backend : string).
Context (dest other : option string).

(** The answers show the copies as they are: the destination's, and the other cluster's when there is one. *)
Definition shows : Prop :=
  headKey 1%nat cl backend = head_of dest /\ headKey 2%nat cl backend = head_of dest /\
  match cond_other p clusters role with Some (oc, name) => headKey 0%nat oc name = head_of other | None => other = None end.

End agreement.

(** An update-if-current write while the key is still on the source. *)
Definition ramp_placement : Placement :=
  zeroPlacement |> set_State StateRamping |> set_Primary "b" |> set_Source "a" |> set_Names (Some {["a" := "src"; "b" := "dst"]}).
Definition two_clusters : Clusters :=
  let c n := mkUCluster n "s3" "https" "r" n ["h:443"] "k" "s" true true true in mkClusters {["a" := c "a"; "b" := c "b"]} ∅.
Definition cluster_b : UCluster := mkUCluster "b" "s3" "https" "r" "b" ["h:443"] "k" "s" true true true.
Definition heads_source (n : nat) (c : UCluster) (_ : string) : option (Z * string) := if bool_decide (ucName c = "a") then head_of (Some "e1") else head_of None.

