(* ===== verification/Resign.v ===== *)
(** * The path of a request (internal/proxy: resign.go, crosscopy.go, buckets.go)

    [prepareResign] verifies the client, finds the placement, decides where the request goes, takes the
    admission tokens and prepares the request to the backend, or answers the client itself.  It is
    written as the code is: a sequence of checks that may answer at any point, over the state of the
    process's gates and the tokens the request holds. *)

From S2P Require Import Prelude Float64 KeyHash HashRange S3Op Config Crypto Strconv Civil Chunked SigV4 BodyPlan Placement Route Directory S3Names Admission Conditional.

(** ** Handling a request *)

(** A resolved cross-cluster copy ([copyPlan]). *)
Record copyPlan : Type := mkCopy {
  cpSrc : UCluster; cpSrcBackend : string; cpFallback : option (UCluster * string);
  cpRawKey : string; cpVersionID : string; cpSourceKey : string;
}.

(** A request ready to send ([prepared]). *)
Record prepared : Type := mkPrepared {
  prCluster : UCluster; prBackend : string; prOther : option (UCluster * string); prRoute : Route;
  prPlan : bodyPlan; prCond : condAction; prCopySource : string; prQuery : string; prRole : string; prPlacement : Placement;
}.

(** How the handling of a request ends: an S3 error by its code, with a Retry-After or not, one of the
    requests the proxy serves itself, or a panic.  A request to send is the result of the handling. *)
Inductive answer : Type :=
| Answer (code : string) (retry : bool)
| AuthFailed (e : AuthError)
| ListBuckets
| CreateBucket
| SpreadListing (p : Placement)
| SpreadDelete (p : Placement)
| MergeListing (cl : UCluster) (backend : string) (other : UCluster) (otherBackend : string)
| StreamCopy (plan : copyPlan) (cl : UCluster) (backend : string) (cond : condAction)
| Panics.

(** The gates of the process and the tokens of the request's outcome. *)
Record held : Type := mkHeld { hdGates : option Gates; hdTok : Token; hdSrc : Token }.

(** A step of the handling: it may change what is held, and may answer. *)
Definition handling (A : Type) : Type := held -> held * result answer A.
#[export] Instance handling_ret : MRet handling := fun A a st => (st, Ok a).
#[export] Instance handling_bind : MBind handling := fun A B k m st =>
  match m st with (st, Ok a) => k a st | (st, Err e) => (st, Err e) end.

Definition answers {A} (a : answer) : handling A := fun st => (st, Err a).
Definition refuse_if (b : bool) (a : answer) : handling unit := if b then answers a else mret tt.
Definition of_result {E A} (f : E -> answer) (m : result E A) : handling A := match m with Ok a => mret a | Err e => answers (f e) end.
Definition enter (key : string) (kind : Kind) (version : Z) : handling (result string Token) := fun st =>
  let '(g, t) := Enter (hdGates st) key kind version in (mkHeld g (hdTok st) (hdSrc st), Ok t).
Definition hold_tok (t : Token) : handling unit := fun st => (mkHeld (hdGates st) t (hdSrc st), Ok tt).
Definition hold_src (t : Token) : handling unit := fun st => (mkHeld (hdGates st) (hdTok st) t, Ok tt).
(** [o.tok.Release(h.Gates, admission.Definitive)], and [o.tok] is the zero token. *)
Definition give_back_tok : handling unit := fun st => (mkHeld (Release (hdTok st) Definitive <$> hdGates st) None (hdSrc st), Ok tt).

(** The refusals of buckets.go. *)
Definition refuseWrite : answer := Answer "ServiceUnavailable" true.
Definition refuseGate : answer := refuseWrite.
Definition refuseReadOnly (reject : bool) : answer := if reject then Answer "AccessDenied" false else Answer "ServiceUnavailable" true.

(** ** What a request is checked against *)

Definition refusedOps : list Op :=
  [OpGetBucketLogging; OpPutBucketLogging; OpGetBucketReplication; OpPutBucketReplication; OpDeleteBucketReplication;
   OpGetBucketInventoryConfiguration; OpPutBucketInventoryConfiguration; OpDeleteBucketInventoryConfiguration; OpListBucketInventoryConfigurations;
   OpGetBucketAnalyticsConfiguration; OpPutBucketAnalyticsConfiguration; OpDeleteBucketAnalyticsConfiguration; OpListBucketAnalyticsConfigurations;
   OpGetBucketNotificationConfiguration; OpPutBucketNotificationConfiguration].

Definition allowed (c : Credential) (bucket : string) : bool := bool_decide (cdBuckets c = []) || bool_decide (bucket ∈ cdBuckets c).

Definition ownerID (tenant : string) : string := S_ (hex (sha256 (B ("shunt-tenant:" +:+ tenant)))).
Definition ownerMatches (h : values) (name tenant : string) : bool :=
  let v := Get name h in bool_decide (v = "") || bool_decide (v = ownerID tenant).

(** [Snapshot.Lookup], by the key that splits into the tenant and the bucket; [Snapshot.Cluster]. *)
Definition snap_Lookup (f : File) (tenant bucket : string) : option Placement :=
  if bool_decide (SplitKey (Key tenant bucket) = Some (tenant, bucket)) then mlookup (Key tenant bucket) (fPlacements f) else None.
Definition snap_Cluster (f : File) (name : string) : option Cluster := mlookup name (fClusters f).

(** [staleFor], [staleRead]; [stale] is what [h.Stale] answers, and false where there is none. *)
Definition staleFor (stale : bool) (p : Placement) : bool := negb (bool_decide (pState p = StateActive)) && stale.
Definition staleRead (stale : bool) (class : OpClass) (route : Route) : Route :=
  if stale && bool_decide (class = ClassRead) && bool_decide (rtCluster route = Source) && negb (rtFallback route) then mkRoute Primary true false false false else route.

(** ** Upload ids *)

Definition sum3 (s : string) : string := S_ (hex (take 3 (sha256 (B s)))).

(** One pair of the query: the raw pair, and the prefix of the upload id in it. *)
Definition upload_pair (part : string) : option (string * string) :=
  let '(k, v) := default (part, "") (Cut part "=") in
  match QueryUnescape k with
  | None => None
  | Some dk =>
      if negb (bool_decide (dk = "uploadId")) && negb (bool_decide (dk = "upload-id-marker")) then None
      else dv ← QueryUnescape v; '(id, backendID) ← DecodeUploadID dv; Some (id, k +:+ "=" +:+ Escape backendID)
  end.

(** The loop over the pairs: the pairs rewritten so far, the prefix found, [None] for a conflict. *)
Fixpoint rewrite_pairs (parts : list string) (prefix : string) : option (list string * string) :=
  match parts with
  | [] => Some ([], prefix)
  | p :: ps =>
      match upload_pair p with
      | None => '(out, prefix) ← rewrite_pairs ps prefix; Some (p :: out, prefix)
      | Some (id, p') =>
          if negb (bool_decide (prefix = "")) && negb (bool_decide (prefix = id)) then None
          else '(out, prefix) ← rewrite_pairs ps id; Some (p' :: out, prefix)
      end
  end.

(** [rewriteUploadIDs]: the query and the prefix; [None] is a conflict. *)
Definition rewriteUploadIDs (raw : string) : option (string * string) :=
  if negb (Contains raw "pload") then Some (raw, "")
  else '(parts, prefix) ← rewrite_pairs (Split raw "&") ""; Some (if bool_decide (prefix = "") then raw else Join parts "&", prefix).

Definition uploadRole (p : Placement) (clusters : Clusters) (prefix : string) : option string :=
  let '(id, tag) := SplitUploadPrefix prefix in
  cl ← byID clusters !! id;
  let roles := List.filter (fun role => negb (bool_decide (role = "")) && bool_decide (ClusterOf p role = ucName cl) && negb (bool_decide (mget "" role (pNames p) = ""))) [pPrimary p; pSource p] in
  if bool_decide (roles = []) then None
  else if negb (bool_decide (tag = "")) then List.find (fun role => bool_decide (BucketTag sum3 (mget "" role (pNames p)) = tag)) roles
  else match roles with [role] => Some role | _ => Some (pSource p) end.

Definition uploadPrefix (p : Placement) (cl : UCluster) (backend : string) : string :=
  if negb (bool_decide (pSource p = "")) && bool_decide (ClusterOf p (pSource p) = ClusterOf p (pPrimary p))
  then ucID cl +:+ "." +:+ BucketTag sum3 backend else ucID cl.

(** ** Copies *)

(** The first "%2F" in either case, and what surrounds it; the header is ASCII here. *)
Fixpoint cut_2F (s : string) : option (string * string * string) :=
  if HasPrefix s "%2F" || HasPrefix s "%2f" then Some ("", String.substring 0 3 s, String.substring 3 (String.length s - 3) s)
  else match s with
       | EmptyString => None
       | String c s => '(a, sep, b) ← cut_2F s; Some (String c a, sep, b)
       end.

(** The bucket segment, the separator as it was written, and the rest. *)
Definition split_source (s : string) : option (string * string * string) :=
  match Cut s "/" with Some (seg, rest) => Some (seg, "/", rest) | None => cut_2F s end.

Definition split_version (rest : string) : string * string :=
  match Cut rest "?" with
  | None => (rest, "")
  | Some (rawKey, q) => (rawKey, let '(vs, ok) := ParseQuery q in if ok then Get "versionId" vs else "")
  end.

Section copy.
Context (stale : bool) (clusters : Clusters).

(** The plan of a copy the proxy streams. *)
Definition plan_copy (sp : Placement) (placementKey key rawKey versionID : string) : result string copyPlan :=
  match Decide sp ClassRead key with
  | Err _ => Err "ServiceUnavailable"
  | Ok route =>
      let route := staleRead (staleFor stale sp) ClassRead route in
      let readFrom := if bool_decide (rtCluster route = Source) then pSource sp else pPrimary sp in
      match byName clusters !! ClusterOf sp readFrom with
      | None => Err "NoSuchKey"
      | Some cl =>
          let name := mget "" readFrom (pNames sp) in
          if bool_decide (name = "") then Err "NoSuchKey"
          else
            let sourceClosed := match pBarrier sp with Some b => bool_decide (bKind b = BarrierSource) | None => false end in
            let fallback :=
              if rtFallback route && negb (bool_decide (pSource sp = "")) && negb sourceClosed then
                let other := if bool_decide (readFrom = pSource sp) then pPrimary sp else pSource sp in
                match byName clusters !! ClusterOf sp other with
                | Some oc => if bool_decide (mget "" other (pNames sp) = "") then None else Some (oc, mget "" other (pNames sp))
                | None => None
                end
              else None in
            if negb (bool_decide (pSource sp = "")) && (bool_decide (readFrom = pSource sp) || bool_decide (is_Some fallback)) then
              if sourceClosed && bool_decide (readFrom = pSource sp) then Err "ServiceUnavailable"
              else Ok (mkCopy cl name fallback rawKey versionID placementKey)
            else Ok (mkCopy cl name fallback rawKey versionID "")
      end
  end.

(** [resolveCopySource]: the header for a backend that can copy for itself, or a plan, or an S3 code. *)
Definition resolveCopySource (v tenant : string) (cred : Credential) (snap : File) (dst : UCluster) : result string (string + copyPlan) :=
  let '(lead, s) := match v with String "/" s => ("/", s) | _ => ("", v) end in
  match split_source s with
  | None => Err "InvalidArgument"
  | Some (seg, sep, rest) =>
      match PathUnescape seg with
      | None => Err "InvalidArgument"
      | Some bucket =>
          let '(rawKey, versionID) := split_version rest in
          match snap_Lookup snap tenant bucket with
          | None => Err "NoSuchBucket"
          | Some sp =>
              if negb (allowed cred bucket) then Err "NoSuchBucket"
              else
                sp ← (if Spread sp then
                        match PathUnescape rawKey with
                        | None => Err "InvalidArgument"
                        | Some skey => match Narrow sp skey with Err _ => Err "ServiceUnavailable" | Ok nsp => Ok nsp end
                        end
                      else Ok sp);
                let settled := bool_decide (pState sp = StateActive) || bool_decide (pState sp = StateCutover) in
                if settled && bool_decide (ClusterOf sp (pPrimary sp) = ucName dst) && negb (bool_decide (mget "" (pPrimary sp) (pNames sp) = ""))
                then Ok (inl (lead +:+ mget "" (pPrimary sp) (pNames sp) +:+ sep +:+ rest))
                else match PathUnescape rawKey with
                | None => Err "InvalidArgument"
                | Some key => plan ← plan_copy sp (Key tenant bucket) key rawKey versionID; Ok (inr plan)
                end
          end
      end
  end.
End copy.

(** ** The path *)

Section resign.
Context (absPath : string -> option string) (Lookup : string -> result lookupErr Credential) (parseHTTPDate : string -> option Time).
Context (headKey : nat -> UCluster -> string -> option (Z * string)).
(** Reading the planned body up to a limit and one more byte: its length, or the reader's error. *)
Context (readBody : bodyPlan -> Z -> result chunkErr Z).
Context (stale : bool) (clockSkew : Z) (now : Time).
Context (snap : File) (clusters : Clusters).

(** The requests that are answered before a placement is looked up. *)
Definition before_placement (info : RequestInfo) : handling unit :=
  _ ← refuse_if (bool_decide (iLevel info = LevelService) && bool_decide (iOp info = OpListBuckets)) ListBuckets;
  _ ← refuse_if (bool_decide (iLevel info = LevelService)) (Answer "NotImplemented" false);
  _ ← refuse_if (bool_decide (iOp info ∈ refusedOps)) (Answer "NotImplemented" false);
  refuse_if (bool_decide (iOp info = OpCreateBucket)) CreateBucket.

(** The placement of the bucket, for a client that may use it. *)
Definition find_placement (r : HRequest) (cred : Credential) (info : RequestInfo) : handling Placement :=
  p ← of_result id match snap_Lookup snap (cdTenant cred) (iBucket info) with
                   | Some p => if allowed cred (iBucket info) then Ok p else Err (Answer "NoSuchBucket" false)
                   | None => Err (Answer "NoSuchBucket" false)
                   end;
  _ ← refuse_if (negb (ownerMatches (rqHeader r) "X-Amz-Expected-Bucket-Owner" (cdTenant cred)) || negb (ownerMatches (rqHeader r) "X-Amz-Source-Expected-Bucket-Owner" (cdTenant cred))) (Answer "AccessDenied" false);
  _ ← refuse_if (negb (bool_decide (pState p = StateActive)) && (bool_decide (iOp info = OpPutBucketVersioning) || bool_decide (iOp info = OpDeleteBucket))) (Answer "InvalidBucketState" false);
  mret p.

(** The view of a placement spread over legs that one request has. *)
Definition spread_view (info : RequestInfo) (p : Placement) : handling Placement :=
  if negb (Spread p) then mret p
  else if bool_decide (iLevel info = LevelObject) then
    of_result (fun _ => Answer "ServiceUnavailable" false) (Narrow p (iKey info))
  else if bool_decide (iOp info = OpListObjectsV2) || bool_decide (iOp info = OpListObjects) then answers (SpreadListing p)
  else if bool_decide (iOp info = OpHeadBucket) || bool_decide (iOp info = OpGetBucketLocation) then
    match FirstLeg p with Some np => mret np | None => answers Panics end
  else if bool_decide (iOp info = OpDeleteObjects) then answers (SpreadDelete p)
  else answers (Answer "NotImplemented" false).

(** Where the request goes: the role, the route and the query, or a refusal. *)
Definition decide_role (r : HRequest) (presigned : bool) (info : RequestInfo) (p : Placement) : handling (string * Route * string) :=
  let rawQuery := if presigned then stripPresign (rqRawQuery r) else rqRawQuery r in
  let class := Class_ (iOp info) in
  let mutating := Mutates (iOp info) (rqMethod r) in
  _ ← refuse_if (pReadOnly p && mutating) (refuseReadOnly (pRejectWrites p));
  _ ← refuse_if (mutating && match pBarrier p with Some b => bool_decide (bKind b = BarrierMutations) | None => false end) refuseWrite;
  route ← of_result (fun _ => Answer "ServiceUnavailable" false) (Decide p class (iKey info));
  let st := staleFor stale p in
  let route := staleRead st class route in
  _ ← refuse_if (rtHeld route) refuseWrite;
  _ ← refuse_if (st && (bool_decide (class = ClassWrite) || bool_decide (class = ClassDelete))) refuseWrite;
  let role := if bool_decide (rtCluster route = Source) then pSource p else pPrimary p in
  '(rawQuery, prefix) ← of_result id match rewriteUploadIDs rawQuery with Some x => Ok x | None => Err (Answer "NoSuchUpload" false) end;
  if bool_decide (prefix = "") then mret (role, route, rawQuery)
  else match uploadRole p clusters prefix with
       | None => answers (Answer "NoSuchUpload" false)
       | Some pinned => mret (pinned, to_side Primary, rawQuery)
       end.

(** A cluster in maintenance, or under a barrier, takes no mutation. *)
Definition check_cluster (name : string) : handling unit :=
  match snap_Cluster snap name with
  | None => mret tt
  | Some c => _ ← refuse_if (cReadOnly c) (refuseReadOnly (cRejectWrites c)); refuse_if (bool_decide (is_Some (cBarrier c))) refuseWrite
  end.

(** The gates: a mutation's token, and one for a request that may touch a moving bucket's source. *)
Definition enter_gates (bucketKey : string) (mutating : bool) (p : Placement) (role : string) (route : Route) : handling Route :=
  let sourceClosed := match pBarrier p with Some b => bool_decide (bKind b = BarrierSource) | None => false end in
  _ ← (if mutating then
         _ ← check_cluster (ClusterOf p role);
         _ ← (if rtBoth route then check_cluster (ClusterOf p (pSource p)) else mret tt);
         t ← enter bucketKey Mutations (fVersion snap);
         match t with Err _ => answers refuseGate | Ok tok => hold_tok tok end
       else mret tt);
  if negb (rtFallback route || rtBoth route || rtMerge route) then mret route
  else
    closed ← (if sourceClosed then mret true
              else
                t ← enter bucketKey SourceKind (fVersion snap);
                match t with
                | Ok src => _ ← hold_src src; mret false
                | Err barrier =>
                    if bool_decide (barrier = Superseded) then _ ← give_back_tok; answers refuseGate
                    else _ ← hold_src None; mret true
                end);
    if (closed : bool) then
      _ ← refuse_if (rtBoth route) refuseWrite;
      mret (mkRoute (rtCluster route) false (rtBoth route) false (rtHeld route))
    else mret route.

(** The placement's other cluster, for a route that needs it. *)
Definition other_side (p : Placement) (role : string) (route : Route) : option (UCluster * string) :=
  if negb (bool_decide (pSource p = "")) && (rtFallback route || rtBoth route || rtMerge route) then
    let name := if bool_decide (role = pSource p) then pPrimary p else pSource p in
    match byName clusters !! ClusterOf p name with
    | Some oc => if bool_decide (mget "" name (pNames p) = "") then None else Some (oc, mget "" name (pNames p))
    | None => None
    end
  else None.

(** [buffer]: the body of a delete that goes to both clusters, read once. *)
Definition maxDeleteBody : Z := 1048576.
Definition buffer (plan : bodyPlan) : result AuthError bodyPlan :=
  match readBody plan maxDeleteBody with
  | Err e => Err (fail ReasonChunkSignature (asS3 e))
  | Ok n => if (maxDeleteBody <? n)%Z then Err (fail ReasonMalformed "MaxMessageLengthExceeded")
            else Ok (mkPlan NoBody n (bpPayloadHash plan) (bpDecoder plan) (bpStripEncoding plan) (bpKeepTrailer plan) (bpDecodedLen plan))
  end.

(** A copy's source, rewritten for the backend or streamed by the proxy. *)
Definition copy_source (r : HRequest) (cred : Credential) (cl : UCluster) (backend : string) (cond : condAction) : handling string :=
  let v := Get "X-Amz-Copy-Source" (rqHeader r) in
  if bool_decide (v = "") then mret ""
  else
    cs ← of_result (fun code => Answer code false) (resolveCopySource stale clusters v (cdTenant cred) cred snap cl);
    match cs with
    | inl cs => mret cs
    | inr plan =>
        if bool_decide (cpSourceKey plan = "") then answers (StreamCopy plan cl backend cond)
        else
          t ← enter (cpSourceKey plan) SourceKind (fVersion snap);
          match t with
          | Err _ => answers (Answer "ServiceUnavailable" false)
          | Ok src => _ ← hold_src src; answers (StreamCopy plan cl backend cond)
          end
    end.

(** From the role and route on: the cluster, the conditions, the other side, the copy and the body. *)
Definition prepare_send (r : HRequest) (ident : SigV4.Identity) (hasBody : bool) (info : RequestInfo) (p : Placement) (role : string) (route : Route) (rawQuery : string) : handling prepared :=
  match byName clusters !! ClusterOf p role with
  | None => answers (Answer "InternalError" false)
  | Some cl =>
      let backend := mget "" role (pNames p) in
      cond ← of_result (fun code => Answer code false) (conditionalWrite headKey (rqHeader r) (iOp info) p clusters role cl backend);
      let other := other_side p role route in
      _ ← match other with
          | Some (oc, name) => refuse_if (rtMerge route && bool_decide (iOp info = OpListObjectsV2)) (MergeListing cl backend oc name)
          | None => mret tt
          end;
      cs ← copy_source r (idCredential ident) cl backend cond;
      plan ← of_result AuthFailed (planBody r ident hasBody cl);
      plan ← (if rtBoth route && hasBody && negb (rqContentLength r =? 0)%Z then of_result AuthFailed (buffer plan) else mret plan);
      mret (mkPrepared cl backend other route plan cond cs rawQuery role p)
  end.

(** [prepareResign]; [info] is what [Parse] made of the request. *)
Definition prepareResign (r : HRequest) (hasBody : bool) (info : RequestInfo) : handling prepared :=
  ident ← of_result AuthFailed (Verify absPath Lookup parseHTTPDate r now (mkOptions clockSkew 0 true));
  let cred := idCredential ident in
  _ ← before_placement info;
  p ← find_placement r cred info;
  p ← spread_view info p;
  '(role, route, rawQuery) ← decide_role r (idPresigned ident) info p;
  route ← enter_gates (Key (cdTenant cred) (iBucket info)) (Mutates (iOp info) (rqMethod r)) p role route;
  prepare_send r ident hasBody info p role route rawQuery.

End resign.

(** What [Handler] makes of the request before it is prepared: [s3.Parse] over the path, the query as
    [r.URL.Query] reads it (a pair that does not parse is left out) and the headers. *)
Definition info_of (d : Domains) (r : HRequest) : RequestInfo := Parse (mkRequest (rqMethod r) (rqHost r) (rqEscapedPath r) (fst (ParseQuery (rqRawQuery r))) (rqHeader r)) d.
