(* ===== verification/ResignSafe.v ===== *)
(** * What a prepared request is known to be (internal/proxy/resign.go)

    Triples for the handling monad, and the properties of the request path: a write that is sent, or
    streamed as a copy, was admitted; it goes where the routing table says; a request that may touch a
    moving bucket's source holds a token for it; and no token is lost. *)

From S2P Require Import Prelude Float64 KeyHash HashRange S3Op Config Crypto Strconv Civil Chunked SigV4 SigV4Safe BodyPlan Placement Route Backend Directory S3Names Admission Keeper Conditional Resign.

(** ** Triples *)

(** [triple P m Q R]: from a state with [P], [m] ends with [Q], or answers with [R]. *)
Definition triple {A} (P : held -> Prop) (m : handling A) (Q : A -> held -> Prop) (R : answer -> held -> Prop) : Prop :=
  forall st, P st -> match m st with (st', Ok a) => Q a st' | (st', Err e) => R e st' end.

Lemma triple_ret {A} (P : held -> Prop) (a : A) Q R : (forall st, P st -> Q a st) -> triple P (mret a) Q R.
Proof. intros H st Hst. by apply H. Qed.

Lemma triple_bind {A B} P (m : handling A) (k : A -> handling B) Q S R : triple P m S R -> (forall a, triple (S a) (k a) Q R) -> triple P (m ≫= k) Q R.
Proof. intros Hm Hk st Hst. specialize (Hm st Hst). unfold mbind, handling_bind. destruct (m st) as [st1 [a|e]]; [by apply Hk|done]. Qed.

Lemma triple_answers {A} (P : held -> Prop) a Q (R : answer -> held -> Prop) : (forall st, P st -> R a st) -> triple P (answers (A := A) a) Q R.
Proof. intros H st Hst. by apply H. Qed.

Lemma triple_refuse P b a Q (R : answer -> held -> Prop) : (b = true -> forall st, P st -> R a st) -> (b = false -> forall st, P st -> Q tt st) -> triple P (refuse_if b a) Q R.
Proof. intros H1 H2 st Hst. unfold refuse_if. destruct b; [by apply H1|by apply H2]. Qed.

Lemma triple_result {E A} P (f : E -> answer) (m : result E A) Q (R : answer -> held -> Prop) :
  (forall a, m = Ok a -> forall st, P st -> Q a st) -> (forall e, m = Err e -> forall st, P st -> R (f e) st) -> triple P (of_result f m) Q R.
Proof. intros H1 H2 st Hst. unfold of_result. destruct m; [by apply H1|by apply H2]. Qed.

Lemma triple_weaken {A} (P P' : held -> Prop) (m : handling A) Q Q' (R R' : answer -> held -> Prop) :
  triple P' m Q' R' -> (forall st, P st -> P' st) -> (forall a st, Q' a st -> Q a st) -> (forall e st, R' e st -> R e st) -> triple P m Q R.
Proof. intros H H1 H2 H3 st Hst. specialize (H st (H1 st Hst)). destruct (m st) as [st' [a|e]]; auto. Qed.

(** ** Tokens and counts *)

Definition infl (g : Gates) (key : string) (kind : Kind) : Z := at_kind kind (gInflight (gate_of key g)).
Definition cnt (t : Token) (key : string) (kind : Kind) : Z := if bool_decide (t = Some (key, kind)) then 1 else 0.

(** [counts g0 st extra]: the gates of [st] have the requests of [g0] in flight, the tokens held, and
    [extra]; what is closed, and from which version, is as in [g0]. *)
Definition counts (g0 : Gates) (st : held) (extra : Token) : Prop :=
  exists g, hdGates st = Some g /\ forall key, gClosed (gate_of key g) = gClosed (gate_of key g0) /\ gFrom (gate_of key g) = gFrom (gate_of key g0) /\
    forall kind, infl g key kind = (infl g0 key kind + cnt (hdTok st) key kind + cnt (hdSrc st) key kind + cnt extra key kind)%Z.

Lemma gate_put key gt g key' : gate_of key' (put_gate key gt g) = if decide (key' = key) then gt else gate_of key' g.
Proof. unfold gate_of, put_gate. simpl. case_decide as E; [subst; by rewrite lookup_insert_eq|by rewrite lookup_insert_ne]. Qed.

Lemma cnt_none key kind : cnt None key kind = 0%Z.
Proof. done. Qed.

(** [enter] puts a token in flight when the gate admits, and nothing else. *)
Lemma triple_enter g0 key kind v tok src : triple (fun st => counts g0 st None /\ hdTok st = tok /\ hdSrc st = src) (enter key kind v)
  (fun t st => hdTok st = tok /\ hdSrc st = src /\
     match t with
     | Ok t => counts g0 st t /\ t = Some (key, kind) /\ at_kind kind (gClosed (gate_of key g0)) = "" /\ (gFrom (gate_of key g0) <= v)%Z
     | Err b => counts g0 st None /\ (b <> Superseded -> at_kind kind (gClosed (gate_of key g0)) = b)
     end) (fun _ _ => False).
Proof.
  intros [gs t0 s0] ((g & Hg & Hc) & Ht & Hs). simpl in *. subst gs t0 s0. unfold enter. cbn [hdGates]. unfold Enter.
  destruct (Hc key) as (Hcl & Hfr & _). case_bool_decide as Eb; cbn [negb].
  - destruct (Z.ltb_spec v (gFrom (gate_of key g))) as [Hv|Hv]; cbn [hdTok hdSrc]; split_and!; try done.
    + eexists. split; [reflexivity|]. intros key'. rewrite gate_put. unfold infl. rewrite gate_put. destruct (Hc key') as (H1 & H2 & H3). case_decide; subst; auto.
    + eexists. split; [reflexivity|]. intros key'. rewrite gate_put. unfold infl. rewrite gate_put. destruct (Hc key') as (H1 & H2 & H3).
      case_decide as Ek; cbn [gClosed gFrom gInflight]; [subst key'|]; split_and!; try done; intros kind'; cbn [hdTok hdSrc].
      * destruct (decide (kind' = kind)) as [->|Hk].
        -- rewrite at_put_eq. specialize (H3 kind). unfold infl in H3. cbn in H3. rewrite H3, cnt_none. unfold cnt at 5. rewrite bool_decide_true by done. lia.
        -- rewrite at_put_ne by done. specialize (H3 kind'). unfold infl in H3. cbn in H3. rewrite H3, cnt_none. unfold cnt at 5. rewrite bool_decide_false by congruence. lia.
      * specialize (H3 kind'). unfold infl in H3. cbn in H3. rewrite H3, cnt_none. unfold cnt at 5. rewrite bool_decide_false by congruence. lia.
    + by rewrite <- Hcl.
    + by rewrite <- Hfr.
  - cbn [hdTok hdSrc]. split_and!; try done; [|by rewrite <- Hcl].
    eexists. split; [reflexivity|]. intros key'. rewrite gate_put. unfold infl. rewrite gate_put. destruct (Hc key') as (H1 & H2 & H3). case_decide; subst; auto.
Qed.

(** A token in flight is held. *)
Lemma triple_hold_tok g0 t src : triple (fun st => counts g0 st t /\ hdTok st = None /\ hdSrc st = src) (hold_tok t)
  (fun _ st => counts g0 st None /\ hdTok st = t /\ hdSrc st = src) (fun _ _ => False).
Proof.
  intros [gs t0 s0] ((g & Hg & Hc) & Ht & Hs). simpl in *. subst. split; [|done]. exists g. split; [done|]. intros key. destruct (Hc key) as (H1 & H2 & H3). split_and!; [done..|].
  intros kind. rewrite H3. cbn [hdTok hdSrc]. rewrite !cnt_none. lia.
Qed.
Lemma triple_hold_src g0 t tok : triple (fun st => counts g0 st t /\ hdTok st = tok /\ hdSrc st = None) (hold_src t)
  (fun _ st => counts g0 st None /\ hdTok st = tok /\ hdSrc st = t) (fun _ _ => False).
Proof.
  intros [gs t0 s0] ((g & Hg & Hc) & Ht & Hs). simpl in *. subst. split; [|done]. exists g. split; [done|]. intros key. destruct (Hc key) as (H1 & H2 & H3). split_and!; [done..|].
  intros kind. rewrite H3. cbn [hdTok hdSrc]. rewrite !cnt_none. lia.
Qed.

(** [Release] takes one request out of flight and changes nothing a gate decides by. *)
Lemma release_gate t o g key : gClosed (gate_of key (Release t o g)) = gClosed (gate_of key g) /\ gFrom (gate_of key (Release t o g)) = gFrom (gate_of key g) /\
  forall kind, infl (Release t o g) key kind = (infl g key kind - cnt t key kind)%Z.
Proof.
  destruct t as [[k kd]|]; cbn [Release]; [|split_and!; try done; intros; rewrite cnt_none; lia].
  assert (forall gt, gClosed gt = gClosed (gate_of k g) -> gFrom gt = gFrom (gate_of k g) -> gInflight gt = put_kind kd (at_kind kd (gInflight (gate_of k g)) - 1)%Z (gInflight (gate_of k g)) ->
    gClosed (gate_of key (put_gate k gt g)) = gClosed (gate_of key g) /\ gFrom (gate_of key (put_gate k gt g)) = gFrom (gate_of key g) /\
    forall kind, infl (put_gate k gt g) key kind = (infl g key kind - cnt (Some (k, kd)) key kind)%Z) as H.
  { intros gt H1 H2 H3. unfold infl. rewrite !gate_put. case_decide as E; [subst key|]; split_and!; try done; intros kind; unfold cnt.
    - rewrite H3. destruct (decide (kind = kd)) as [->|Hk]; [rewrite at_put_eq, bool_decide_true by done; lia|]. rewrite at_put_ne, bool_decide_false by congruence. lia.
    - rewrite bool_decide_false by congruence. lia. }
  destruct o; [apply H; done|]. match goal with |- context [mkGates (gtMap ?g1) ?u] => assert (forall key, gate_of key (mkGates (gtMap g1) u) = gate_of key g1) as Hm by done end.
  unfold infl. rewrite Hm. apply H; done.
Qed.

Lemma triple_give_back g0 tok src : triple (fun st => counts g0 st None /\ hdTok st = tok /\ hdSrc st = src) give_back_tok
  (fun _ st => counts g0 st None /\ hdTok st = None /\ hdSrc st = src) (fun _ _ => False).
Proof.
  intros [gs t0 s0] ((g & Hg & Hc) & Ht & Hs). simpl in *. subst. split; [|done]. eexists. split; [reflexivity|]. intros key. destruct (Hc key) as (H1 & H2 & H3), (release_gate tok Definitive g key) as (R1 & R2 & R3).
  split_and!; [by rewrite R1|by rewrite R2|]. intros kind. rewrite R3, H3. cbn [hdTok hdSrc]. rewrite !cnt_none. lia.
Qed.

(** ** The stages before the gates *)

Section stages.
Context (stale : bool) (snap : File) (clusters : Clusters).
Context (I : held -> Prop).

(** An answer that sends nothing to a backend. *)
Definition quiet (e : answer) : Prop := match e with StreamCopy _ _ _ _ | MergeListing _ _ _ _ => False | _ => True end.

(** A stage answers quietly or yields a value with [F], and leaves what is held as it is. *)
Definition stage {A} (m : handling A) (F : A -> Prop) : Prop := triple I m (fun a st => F a /\ I st) (fun e st => quiet e /\ I st).

Lemma stage_ret {A} (a : A) (F : A -> Prop) : F a -> stage (mret a) F.
Proof. intros H st Hst. by split. Qed.
Lemma stage_answers {A} a (F : A -> Prop) : quiet a -> stage (answers a) F.
Proof. intros H st Hst. by split. Qed.
Lemma stage_bind {A B} (m : handling A) (k : A -> handling B) F G : stage m F -> (forall a, F a -> stage (k a) G) -> stage (m ≫= k) G.
Proof.
  intros Hm Hk st Hst. specialize (Hm st Hst). unfold mbind, handling_bind. destruct (m st) as [st1 [a|e]]; [|done]. destruct Hm as [Ha Hst1]. by apply Hk.
Qed.
Lemma stage_check b a : quiet a -> stage (refuse_if b a) (fun _ => b = false).
Proof. intros Ha st Hst. unfold refuse_if. by destruct b. Qed.
Lemma stage_result {E A} (f : E -> answer) (m : result E A) : (forall e, m = Err e -> quiet (f e)) -> stage (of_result f m) (fun a => m = Ok a).
Proof. intros H st Hst. unfold of_result. destruct m; [by split|]. split; [by apply H|done]. Qed.
Lemma stage_impl {A} (m : handling A) (F G : A -> Prop) : stage m F -> (forall a, F a -> G a) -> stage m G.
Proof. intros H HG st Hst. specialize (H st Hst). destruct (m st) as [st1 [a|e]]; [|done]. destruct H. split; auto. Qed.

Lemma stage_before info : stage (before_placement info) (fun _ => True).
Proof. unfold before_placement. repeat (eapply stage_bind; [by apply stage_check|]; intros [] _). eapply stage_impl; [by apply stage_check|done]. Qed.

Lemma stage_find r cred info : stage (find_placement snap r cred info) (fun p => snap_Lookup snap (cdTenant cred) (iBucket info) = Some p /\ allowed cred (iBucket info) = true).
Proof.
  unfold find_placement. eapply stage_bind; [apply stage_result|].
  - intros e. destruct (snap_Lookup _ _ _); [destruct (allowed _ _)|]; by intros [= <-].
  - intros p E. cbn beta in E. repeat (eapply stage_bind; [by apply stage_check|]; intros [] _). apply stage_ret. destruct (snap_Lookup _ _ _) as [q|]; [|done]. destruct (allowed _ _); [|done]. by simplify_eq.
Qed.

(** The placements a request can be routed by. *)
Definition view_of (info : RequestInfo) (p0 p : Placement) : Prop :=
  (Spread p0 = false /\ p = p0) \/ (Spread p0 = true /\ iLevel info = LevelObject /\ Narrow p0 (iKey info) = Ok p) \/ (Spread p0 = true /\ iLevel info <> LevelObject /\ FirstLeg p0 = Some p).

Lemma stage_view info p0 : stage (spread_view info p0) (view_of info p0).
Proof.
  unfold spread_view. destruct (Spread p0) eqn:Es; cbn [negb]; [|apply stage_ret; by left].
  case_bool_decide as El; [eapply stage_impl; [by apply stage_result|]; intros p E; right; left; by split_and!|].
  destruct (_ || _); [by apply stage_answers|]. destruct (_ || _).
  { destruct (FirstLeg p0) eqn:E; [apply stage_ret; right; right; by split_and!|by apply stage_answers]. }
  case_bool_decide; by apply stage_answers.
Qed.

Definition mutations_barred (p : Placement) : bool := match pBarrier p with Some b => bool_decide (bKind b = BarrierMutations) | None => false end.
Definition source_barred (p : Placement) : bool := match pBarrier p with Some b => bool_decide (bKind b = BarrierSource) | None => false end.
Definition sent_query (r : HRequest) (presigned : bool) : string := if presigned then stripPresign (rqRawQuery r) else rqRawQuery r.

(** What [decide_role] has decided. *)
Definition decided (r : HRequest) (presigned : bool) (info : RequestInfo) (p : Placement) (x : string * Route * string) : Prop :=
  let '(role, route, rawQuery) := x in let class := Class_ (iOp info) in
  exists route0 prefix, Decide p class (iKey info) = Ok route0 /\ rtHeld route0 = false /\
    (Mutates (iOp info) (rqMethod r) = true -> pReadOnly p = false /\ mutations_barred p = false) /\
    (class = ClassWrite \/ class = ClassDelete -> staleFor stale p = false) /\
    rewriteUploadIDs (sent_query r presigned) = Some (rawQuery, prefix) /\
    (if bool_decide (prefix = "") then
       route = staleRead (staleFor stale p) class route0 /\ role = (if bool_decide (rtCluster route = Source) then pSource p else pPrimary p)
     else route = to_side Primary /\ uploadRole p clusters prefix = Some role).

Lemma Decide_held_primary p class key route : Decide p class key = Ok route -> rtHeld route = true -> rtCluster route = Primary.
Proof.
  unfold Decide. destruct (_ || _); [by intros [= <-]|]. case_bool_decide; [by intros [= <-]|]. destruct class; try (by intros [= <-]); intros Hd; (case_bool_decide; [|by simplify_eq]);
    apply bind_Ok in Hd as (i & _ & Hd); (destruct i; [by simplify_eq|]); apply bind_Ok in Hd as (b & _ & Hd); (destruct b; [|by simplify_eq]); repeat case_bool_decide; by simplify_eq/=.
Qed.

(** A held route is not one a stale read widens. *)
Lemma staleRead_held b p class key route : Decide p class key = Ok route -> rtHeld (staleRead b class route) = false -> rtHeld route = false.
Proof.
  intros Hd. unfold staleRead. destruct (_ && _) eqn:E; [|done]. intros _. destruct (rtHeld route) eqn:Eh; [|done]. apply (Decide_held_primary _ _ _ _ Hd) in Eh.
  rewrite Eh in E. rewrite (bool_decide_false (Primary = Source)), andb_false_r in E by done. done.
Qed.

Lemma stage_decide r presigned info p : stage (decide_role stale clusters r presigned info p) (decided r presigned info p).
Proof.
  unfold decide_role. cbv zeta. eapply stage_bind; [apply stage_check; unfold refuseReadOnly; by destruct (pRejectWrites p)|]. intros [] Hro.
  eapply stage_bind; [by apply stage_check|]. intros [] Hba. eapply stage_bind; [by apply stage_result|]. intros route0 Hd. cbn beta in Hd.
  eapply stage_bind; [by apply stage_check|]. intros [] Hh. eapply stage_bind; [by apply stage_check|]. intros [] Hst.
  eapply stage_bind; [apply stage_result; intros e; destruct (rewriteUploadIDs _); by intros [= <-]|]. intros [q prefix] Hq. cbn beta in Hq.
  assert (rewriteUploadIDs (sent_query r presigned) = Some (q, prefix)) as Hq' by (unfold sent_query; destruct (rewriteUploadIDs _); by simplify_eq).
  assert (forall x, (let '(role, route, rq) := x in rq = q /\ if bool_decide (prefix = "") then
       route = staleRead (staleFor stale p) (Class_ (iOp info)) route0 /\ role = (if bool_decide (rtCluster route = Source) then pSource p else pPrimary p)
     else route = to_side Primary /\ uploadRole p clusters prefix = Some role) -> decided r presigned info p x) as Hx.
  { intros [[role route] rq] [-> Hx]. exists route0, prefix. split_and!; try done; [by eapply staleRead_held|intros Hm; rewrite Hm in *; unfold mutations_barred|].
    - rewrite andb_true_r in Hro. by rewrite andb_true_l in Hba.
    - intros Hc. unfold staleFor in *. apply andb_false_iff in Hst as [?|Hst]; [done|]. apply orb_false_iff in Hst as [H1%bool_decide_eq_false H2%bool_decide_eq_false]. by destruct Hc. }
  case_bool_decide as Ep; [by apply stage_ret, Hx|]. destruct (uploadRole p clusters prefix) as [role|] eqn:Er; [|by apply stage_answers].
  by apply stage_ret, Hx.
Qed.

Lemma stage_cluster name : stage (check_cluster snap name) (fun _ => forall c, snap_Cluster snap name = Some c -> cReadOnly c = false /\ cBarrier c = None).
Proof.
  unfold check_cluster. destruct (snap_Cluster snap name) as [c|]; [|by apply stage_ret]. eapply stage_bind; [apply stage_check; unfold refuseReadOnly; by destruct (cRejectWrites c)|].
  intros [] Hro. eapply stage_impl; [by apply stage_check|]. intros [] Hb c' [= <-]. split; [done|]. apply bool_decide_eq_false in Hb. by apply eq_None_not_Some.
Qed.
End stages.

(** ** The gates *)

Section gates.
Context (snap : File) (g0 : Gates).

(** A token [g0] gives out for a placement of this version: the gate is open to its kind. *)
Definition admits (key : string) (kind : Kind) : Prop := at_kind kind (gClosed (gate_of key g0)) = "" /\ (gFrom (gate_of key g0) <= fVersion snap)%Z.

(** No cluster a mutation goes to is in maintenance or under a barrier. *)
Definition writable (name : string) : Prop := forall c, snap_Cluster snap name = Some c -> cReadOnly c = false /\ cBarrier c = None.

Definition both_sides (route : Route) : bool := rtFallback route || rtBoth route || rtMerge route.

(** What is held, and which gates were open, once a request is admitted. *)
Definition mutation_token (key : string) (mutating : bool) (p : Placement) (role : string) (route : Route) (st : held) : Prop :=
  if mutating then hdTok st = Some (key, Mutations) /\ admits key Mutations /\ writable (ClusterOf p role) /\ (rtBoth route = true -> writable (ClusterOf p (pSource p)))
  else hdTok st = None.
Definition source_token (key : string) (p : Placement) (route : Route) (st : held) : Prop :=
  if both_sides route then hdSrc st = Some (key, SourceKind) /\ admits key SourceKind /\ source_barred p = false else hdSrc st = None.
Definition admitted (key : string) (mutating : bool) (p : Placement) (role : string) (route0 route : Route) (st : held) : Prop :=
  counts g0 st None /\ mutation_token key mutating p role route0 st /\ source_token key p route st /\
  rtCluster route = rtCluster route0 /\ rtBoth route = rtBoth route0 /\ (both_sides route0 = false -> route = route0).

Definition untouched (st : held) : Prop := counts g0 st None /\ hdTok st = None /\ hdSrc st = None.

Lemma triple_mutation key mutating p role route : triple untouched
  (if (mutating : bool) then
     _ ← check_cluster snap (ClusterOf p role);
     _ ← (if rtBoth route then check_cluster snap (ClusterOf p (pSource p)) else mret tt);
     t ← enter key Mutations (fVersion snap);
     match t with Err _ => answers refuseGate | Ok tok => hold_tok tok end
   else mret tt)
  (fun _ st => counts g0 st None /\ mutation_token key mutating p role route st /\ hdSrc st = None) (fun e st => quiet e /\ counts g0 st None).
Proof.
  destruct mutating; [|apply triple_ret; by intros st (? & ? & ?)].
  eapply triple_bind; [eapply triple_weaken; [apply (stage_cluster snap untouched)|done|exact (fun _ _ H => H)|by intros e st (? & ? & ?)]|]. intros [].
  eapply triple_bind; [|intros []; eapply triple_bind].
  - eapply (triple_weaken _ (fun st => writable (ClusterOf p role) /\ untouched st) _ _ (fun _ st => writable (ClusterOf p role) /\ (rtBoth route = true -> writable (ClusterOf p (pSource p))) /\ untouched st) _ (fun e st => quiet e /\ counts g0 st None));
      [|done|exact (fun _ _ H => H)|done]. destruct (rtBoth route); [|apply triple_ret; by intros st []]. intros st [Hw Hst].
    pose proof (stage_cluster snap untouched (ClusterOf p (pSource p)) st Hst) as Hc. destruct (check_cluster _ _ _) as [st' [[]|e]]; [by destruct Hc|]. destruct Hc as (? & ? & ?). by split.
  - instantiate (1 := fun t st => writable (ClusterOf p role) /\ (rtBoth route = true -> writable (ClusterOf p (pSource p))) /\ hdTok st = None /\ hdSrc st = None /\
      match t with Ok t => counts g0 st t /\ t = Some (key, Mutations) /\ admits key Mutations | Err b => counts g0 st None end).
    intros st (H1 & H2 & H3). pose proof (triple_enter g0 key Mutations (fVersion snap) None None st H3) as He. destruct (enter _ _ _ _) as [st' [t|e]]; [|done].
    destruct He as (? & ? & He). destruct t; [destruct He as (? & ? & ? & ?)|destruct He as (? & ?)]; split_and!; done.
  - intros [t|b]; [|apply triple_answers; intros st (_ & _ & _ & _ & Hc); by split]. intros st (H1 & H2 & H3 & H4 & H5 & -> & H7).
    pose proof (triple_hold_tok g0 (Some (key, Mutations)) None st (conj H5 (conj H3 H4))) as Hh. destruct (hold_tok _ _) as [st' [[]|e]]; [|done]. destruct Hh as (? & ? & ?). by split_and!.
Qed.

(** Entering the source's gate, as [enter_gates] does: closed or not, or superseded. *)
Lemma triple_source key (sourceClosed : bool) tok : triple (fun st => counts g0 st None /\ hdTok st = tok /\ hdSrc st = None)
  (if sourceClosed then mret true
   else
     t ← enter key SourceKind (fVersion snap);
     match t with
     | Ok src => _ ← hold_src src; mret false
     | Err barrier => if bool_decide (barrier = Superseded) then _ ← give_back_tok; answers refuseGate else _ ← hold_src None; mret true
     end)
  (fun closed st => counts g0 st None /\ hdTok st = tok /\ if (closed : bool) then hdSrc st = None else hdSrc st = Some (key, SourceKind) /\ admits key SourceKind /\ sourceClosed = false)
  (fun e st => quiet e /\ counts g0 st None).
Proof.
  destruct sourceClosed; [by apply triple_ret|]. eapply triple_bind.
  { eapply triple_weaken; [apply (triple_enter g0 key SourceKind (fVersion snap) tok None)|done|exact (fun _ _ H => H)|done]. }
  intros [t|b].
  - apply (triple_bind _ _ _ _ (fun _ st => counts g0 st None /\ hdTok st = tok /\ hdSrc st = Some (key, SourceKind) /\ admits key SourceKind)); [|intros []; apply triple_ret; by intros st (? & ? & ? & ?)].
    intros st (Ht & Hs & Hc & -> & Ha). pose proof (triple_hold_src g0 (Some (key, SourceKind)) tok st (conj Hc (conj Ht Hs))) as Hh.
    destruct (hold_src _ _) as [st' [[]|e]]; [|done]. by destruct Hh as (? & ? & ?).
  - case_bool_decide.
    + apply (triple_bind _ _ _ _ (fun _ st => counts g0 st None)); [|intros []; apply triple_answers; by intros st ?]. intros st (Ht & Hs & Hc & _). pose proof (triple_give_back g0 tok None st (conj Hc (conj Ht Hs))) as Hh.
      destruct (give_back_tok _) as [st' [[]|e]]; [|done]. by destruct Hh as (? & ? & ?).
    + apply (triple_bind _ _ _ _ (fun _ st => counts g0 st None /\ hdTok st = tok /\ hdSrc st = None)); [|intros []; by apply triple_ret]. intros st (Ht & Hs & Hc & _). pose proof (triple_hold_src g0 None tok st (conj Hc (conj Ht Hs))) as Hh.
      destruct (hold_src _ _) as [st' [[]|e]]; [|done]. by destruct Hh as (? & ? & ?).
Qed.

(** The gates enter_gates, or refuse with what the request had taken still counted. *)
Lemma triple_admit key mutating p role route0 : triple untouched (enter_gates snap key mutating p role route0) (admitted key mutating p role route0) (fun e st => quiet e /\ counts g0 st None).
Proof.
  unfold enter_gates. cbv zeta. eapply triple_bind; [apply triple_mutation|]. intros [].
  change (negb (rtFallback route0 || rtBoth route0 || rtMerge route0)) with (negb (both_sides route0)). destruct (both_sides route0) eqn:Eb; cbn [negb].
  - intros st (Hc & Hm & Hs). pose proof (triple_source key (source_barred p) (hdTok st) st (conj Hc (conj eq_refl Hs))) as Ht. unfold source_barred in Ht at 1. unfold mbind, handling_bind in Ht |- *.
    match type of Ht with context [match ?m with _ => _ end] => destruct m as [st1 [closed|e]] end; [|done]. destruct Ht as (Hc1 & Ht1 & Ht). destruct closed.
    + unfold refuse_if. destruct (rtBoth route0) eqn:E2; [by split|]. simpl. unfold admitted, mutation_token, source_token, both_sides in *. cbn [rtFallback rtBoth rtMerge rtCluster]. rewrite E2 in *. cbn [orb].
      rewrite Ht1, Eb. by split_and!.
    + cbn. unfold admitted, mutation_token, source_token. rewrite Eb. rewrite Ht1. destruct Ht as (? & ? & ?). by split_and!.
  - apply triple_ret. intros st (Hc & Hm & Hs). unfold admitted, source_token. rewrite Eb. by split_and!.
Qed.
End gates.

(** ** The whole path *)

Section path.
Context (absPath : string -> option string) (Lookup : string -> result lookupErr Credential) (parseHTTPDate : string -> option Time).
Context (headKey : nat -> UCluster -> string -> option (Z * string)).
Context (readBody : bodyPlan -> Z -> result chunkErr Z).
Context (stale : bool) (clockSkew : Z) (now : Time).
Context (snap : File) (clusters : Clusters) (g0 : Gates).

Notation prepare_send := (prepare_send headKey readBody stale snap clusters).
Notation prepareResign := (prepareResign absPath Lookup parseHTTPDate headKey readBody stale clockSkew now snap clusters).

Definition copies (r : HRequest) : Prop := Get "X-Amz-Copy-Source" (rqHeader r) <> "".

(** Counted when the state before was, unless a copy's source token may have replaced another. *)
Definition kept (r : HRequest) (st st' : held) : Prop := counts g0 st None -> (copies r -> hdSrc st = None) -> counts g0 st' None.

Lemma kept_refl r st : kept r st st.
Proof. by intros ??. Qed.

(** Resolving a copy sends nothing or streams the copy to the write's own backend; the mutation's token stays. *)
Lemma copy_source_run r cred cl backend cond st : match copy_source stale snap clusters r cred cl backend cond st with
  | (st', Ok _) => st' = st
  | (st', Err e) => hdTok st' = hdTok st /\ kept r st st' /\ (quiet e \/ copies r /\ exists plan, e = StreamCopy plan cl backend cond)
  end.
Proof.
  unfold copy_source. case_bool_decide as Ev; [done|]. unfold mbind, handling_bind, of_result. destruct (resolveCopySource _ _ _ _ _ _ _) as [[cs|plan]|code]; [done| |].
  - cbn [mret handling_ret]. case_bool_decide as Ek; [split_and!; [done|apply kept_refl|right; eauto]|].
    destruct (enter (cpSourceKey plan) SourceKind (fVersion snap) st) as [st' t] eqn:Ee.
    assert (hdTok st' = hdTok st /\ exists t', t = Ok t') as (Ht' & t' & ->) by (unfold enter in Ee; destruct (Enter _ _ _ _); by simplify_eq/=; eauto).
    assert (forall tok, hdTok st = tok -> counts g0 st None -> hdSrc st = None -> match t' with Ok t => counts g0 (mkHeld (hdGates st') (hdTok st') t) None | Err _ => counts g0 st' None end) as Hc.
    { intros tok Htok Hc Hs. pose proof (triple_enter g0 (cpSourceKey plan) SourceKind (fVersion snap) tok None st (conj Hc (conj Htok Hs))) as H. rewrite Ee in H.
      destruct H as (H1 & H2 & H). destruct t' as [t'|]; [|by destruct H]. destruct H as (H & -> & _). by destruct (triple_hold_src g0 _ tok st' (conj H (conj H1 H2))). }
    destruct t' as [t'|b]; cbn [answers]; split_and!; try done; try (right; eauto; done); try (by left); intros Hc0 Hs; by eapply Hc; eauto.
  - split_and!; [done|apply kept_refl|by left].
Qed.

(** The backend of a role, as the proxy finds it. *)
Definition reached (p : Placement) (role : string) (cl : UCluster) (backend : string) : Prop := byName clusters !! ClusterOf p role = Some cl /\ backend = mget "" role (pNames p).

(** A request that is sent goes to its role's backend with the body the plan says; what is held is unchanged. *)
Lemma prepare_send_run r ident hasBody info p role route rawQuery st : match prepare_send r ident hasBody info p role route rawQuery st with
  | (st', Ok pr) => st' = st /\ reached p role (prCluster pr) (prBackend pr) /\ prOther pr = other_side clusters p role route /\
      prRoute pr = route /\ prQuery pr = rawQuery /\ prRole pr = role /\ prPlacement pr = p /\
      conditionalWrite headKey (rqHeader r) (iOp info) p clusters role (prCluster pr) (prBackend pr) = Ok (prCond pr)
  | (st', Err e) => hdTok st' = hdTok st /\ kept r st st' /\
      match e with
      | StreamCopy _ cl backend _ => copies r /\ reached p role cl backend
      | MergeListing cl backend oc name => st' = st /\ rtMerge route = true /\ reached p role cl backend /\ other_side clusters p role route = Some (oc, name)
      | _ => True
      end
  end.
Proof.
  unfold Resign.prepare_send. destruct (byName clusters !! ClusterOf p role) as [cl|] eqn:Ecl; [|split_and!; [done|apply kept_refl|done]].
  cbv zeta. set (backend := mget "" role (pNames p)). unfold mbind, handling_bind, of_result at 1.
  destruct (conditionalWrite _ _ _ _ _ _ _ _) as [cond|code] eqn:Ec; [|split_and!; [done|apply kept_refl|done]]. cbn [mret handling_ret].
  destruct (match other_side clusters p role route with Some (oc, name) => refuse_if (rtMerge route && bool_decide (iOp info = OpListObjectsV2)) (MergeListing cl backend oc name) | None => mret tt end st) as [st1 [[]|e]] eqn:Em.
  2: { destruct (other_side _ _ _ _) as [[oc name]|]; [|by unfold mret, handling_ret in Em]. unfold refuse_if in Em. destruct (rtMerge route && _) eqn:Emm; [|by simplify_eq/=]. apply andb_true_iff in Emm as [? _]. unfold answers in Em. simplify_eq. split_and!; try done. apply kept_refl. }
  assert (st1 = st) as -> by (unfold refuse_if, answers, mret, handling_ret in Em; destruct (other_side _ _ _ _) as [[oc name]|]; [destruct (_ && _)|]; by simplify_eq).
  pose proof (copy_source_run r (idCredential ident) cl backend cond st) as Hcs. destruct (copy_source _ _ _ _ _ _ _ _ _) as [st2 [cs|e]].
  2: { destruct Hcs as (H1 & H2 & H3). split_and!; [done|done|]. destruct e; try done; destruct H3 as [[]|[? (? & ?)]]; simplify_eq; by split_and!. }
  subst st2. unfold of_result at 1. destruct (planBody r ident hasBody cl) as [plan|e]; [|split_and!; [done|apply kept_refl|done]]. cbn [mret handling_ret].
  destruct (rtBoth route && hasBody && negb _); [unfold of_result; destruct (buffer readBody plan) as [plan'|e]; [|split_and!; [done|apply kept_refl|done]]|]; cbn; by split_and!.
Qed.

(** The route of a request that sends an object, or an upload, has one side. *)
Lemma decided_one_side r presigned info p role route q : decided stale clusters r presigned info p (role, route, q) -> Class_ (iOp info) = ClassWrite \/ Class_ (iOp info) = ClassUpload -> both_sides route = false.
Proof.
  intros (route0 & prefix & Hd & _ & _ & _ & _ & Hr) Hc. case_bool_decide; [|by destruct Hr as [-> _]]. destruct Hr as [-> _].
  assert (staleRead (staleFor stale p) (Class_ (iOp info)) route0 = route0) as ->.
  { unfold staleRead. rewrite (bool_decide_false (Class_ (iOp info) = ClassRead)) by (destruct Hc; congruence). by rewrite andb_false_r. }
  unfold Decide in Hd. destruct (_ || _); [by simplify_eq|]. case_bool_decide.
  { simplify_eq. unfold both_sides. cbn. rewrite orb_false_r. apply bool_decide_eq_false. destruct Hc; congruence. }
  destruct Hc as [Hc|Hc]; rewrite Hc in Hd; [|by simplify_eq]. case_bool_decide; [|by simplify_eq].
  apply bind_Ok in Hd as ([] & _ & Hd); [by simplify_eq|]. apply bind_Ok in Hd as ([] & _ & Hd); repeat case_bool_decide; by simplify_eq.
Qed.

(** The checks and the gates a request has passed, up to the routing of [p] by [role] and [route]. *)
Definition passed (r : HRequest) (ident : SigV4.Identity) (info : RequestInfo) (p : Placement) (role : string) (route : Route) (q : string) (st : held) : Prop :=
  Verify absPath Lookup parseHTTPDate r now (mkOptions clockSkew 0 true) = Ok ident /\
  exists p0 route0, let cred := idCredential ident in
    snap_Lookup snap (cdTenant cred) (iBucket info) = Some p0 /\ allowed cred (iBucket info) = true /\ view_of info p0 p /\
    decided stale clusters r (idPresigned ident) info p (role, route0, q) /\
    admitted snap g0 (Key (cdTenant cred) (iBucket info)) (Mutates (iOp info) (rqMethod r)) p role route0 route st.

(** A copy source where the code expects one: on a request that writes an object or a part. *)
Definition copies_write (r : HRequest) (info : RequestInfo) : Prop := copies r -> Class_ (iOp info) = ClassWrite \/ Class_ (iOp info) = ClassUpload.

Lemma passed_source r ident info p role route q st : passed r ident info p role route q st -> copies_write r info -> copies r -> hdSrc st = None.
Proof.
  intros (_ & p0 & route0 & _ & _ & _ & Hd & Ha) Hw Hc. apply Hw, (decided_one_side _ _ _ _ _ _ _ Hd) in Hc. destruct Ha as (_ & _ & Hs & _ & _ & He).
  rewrite (He Hc) in Hs. unfold source_token in Hs. by rewrite Hc in Hs.
Qed.

(** What every way of answering that reaches a backend has passed. *)
Definition prepared_spec (r : HRequest) (info : RequestInfo) (pr : prepared) (st : held) : Prop :=
  exists ident, passed r ident info (prPlacement pr) (prRole pr) (prRoute pr) (prQuery pr) st /\
    reached (prPlacement pr) (prRole pr) (prCluster pr) (prBackend pr) /\ prOther pr = other_side clusters (prPlacement pr) (prRole pr) (prRoute pr) /\
    conditionalWrite headKey (rqHeader r) (iOp info) (prPlacement pr) clusters (prRole pr) (prCluster pr) (prBackend pr) = Ok (prCond pr).
Definition answered_spec (r : HRequest) (info : RequestInfo) (e : answer) (st : held) : Prop :=
  (copies_write r info -> counts g0 st None) /\
  match e with
  | StreamCopy _ cl backend _ => copies r /\ exists ident p role route q st0, passed r ident info p role route q st0 /\ hdTok st = hdTok st0 /\ reached p role cl backend
  | MergeListing cl backend oc name => exists ident p role route q, passed r ident info p role route q st /\ rtMerge route = true /\ reached p role cl backend /\ other_side clusters p role route = Some (oc, name)
  | _ => True
  end.

Lemma answered_quiet r info e st : quiet e -> counts g0 st None -> answered_spec r info e st.
Proof. intros Hq Hc. split; [done|]. by destruct e. Qed.

(** A stage of the path, before the gates. *)
Lemma triple_stage {A B} r info (m : handling A) (F : A -> Prop) (k : A -> handling B) Q : stage (untouched g0) m F ->
  (forall a, F a -> triple (untouched g0) (k a) Q (answered_spec r info)) -> triple (untouched g0) (m ≫= k) Q (answered_spec r info).
Proof.
  intros Hm Hk st Hst. specialize (Hm st Hst). unfold mbind, handling_bind. destruct (m st) as [st' [a|e]]; [|destruct Hm as [? (? & ? & ?)]; by apply answered_quiet].
  destruct Hm as [Ha Hst']. exact (Hk a Ha st' Hst').
Qed.

Lemma prepareResign_spec r hasBody info : triple (untouched g0) (prepareResign r hasBody info) (prepared_spec r info) (answered_spec r info).
Proof.
  unfold Resign.prepareResign. eapply triple_stage; [by apply stage_result|]. intros ident Hv. cbn beta in Hv. cbv zeta.
  eapply triple_stage; [apply stage_before|]. intros [] _. eapply triple_stage; [apply stage_find|]. intros p0 [Hp Ha]. eapply triple_stage; [apply stage_view|]. intros p Hview.
  eapply triple_stage; [apply stage_decide|]. intros [[role route0] q] Hd. intros st Hst. unfold mbind at 1, handling_bind at 1.
  pose proof (triple_admit snap g0 (Key (cdTenant (idCredential ident)) (iBucket info)) (Mutates (iOp info) (rqMethod r)) p role route0 st Hst) as Hadm.
  destruct (enter_gates _ _ _ _ _ _ _) as [st1 [route|e]]; [|destruct Hadm; by apply answered_quiet].
  assert (passed r ident info p role route q st1) as Hpass by (split; [done|]; exists p0, route0; by split_and!).
  pose proof (prepare_send_run r ident hasBody info p role route q st1) as Hs. destruct (prepare_send _ _ _ _ _ _ _ _ _) as [st2 [pr|e]].
  - destruct Hs as (-> & H1 & H2 & H3 & H4 & H5 & H6 & H7). exists ident. rewrite H2, H3, H4, H5, H6. by split_and!.
  - destruct Hs as (H1 & H2 & H3). split; [intros Hw; apply H2; [apply Hadm|intros Hcp; exact (passed_source _ _ _ _ _ _ _ _ Hpass Hw Hcp)]|].
    destruct e; try done; [destruct H3 as (-> & ? & ? & ?); eauto 10|destruct H3; split; [done|]; exists ident, p, role, route, q, st1; by split_and!].
Qed.

(** The backend a request was sent to, or a copy was streamed to. *)
Definition sent_to (out : result answer prepared) : option (UCluster * string) :=
  match out with Ok pr => Some (prCluster pr, prBackend pr) | Err (StreamCopy _ cl backend _) => Some (cl, backend) | _ => None end.

Lemma start_untouched : untouched g0 (mkHeld (Some g0) None None).
Proof. split; [|done]. exists g0. split; [done|]. intros key. split_and!; [done..|]. intros kind. cbn [hdTok hdSrc]. rewrite !cnt_none. lia. Qed.

(** Whatever reached a backend has passed the checks, with the mutation's token still held. *)
Lemma sent_passed r hasBody info st out cl backend : prepareResign r hasBody info (mkHeld (Some g0) None None) = (st, out) -> sent_to out = Some (cl, backend) ->
  exists ident p role route q st0, passed r ident info p role route q st0 /\ hdTok st = hdTok st0 /\ reached p role cl backend.
Proof.
  intros Hp Hs. pose proof (prepareResign_spec r hasBody info _ start_untouched) as H. rewrite Hp in H. destruct out as [pr|e]; cbn in Hs.
  - simplify_eq. destruct H as (ident & H1 & H2 & _). exists ident, (prPlacement pr), (prRole pr), (prRoute pr), (prQuery pr), st. by split_and!.
  - destruct e; simplify_eq. destruct H as (_ & _ & ident & p & role & route & q & st0 & H1 & H2 & H3). exists ident, p, role, route, q, st0. by split_and!.
Qed.


(** C10: an object's write goes where the routing table says. A write of one object that names no upload
    is sent, or streamed, to the backend the routing of its bucket's placement gives for its key's
    writes, reached through the configured cluster of that name. *)
Theorem sent_write_routed r hasBody info st out cl backend : prepareResign r hasBody info (mkHeld (Some g0) None None) = (st, out) -> sent_to out = Some (cl, backend) ->
  Class_ (iOp info) = ClassWrite -> iLevel info = LevelObject ->
  exists ident p0, Verify absPath Lookup parseHTTPDate r now (mkOptions clockSkew 0 true) = Ok ident /\ snap_Lookup snap (cdTenant (idCredential ident)) (iBucket info) = Some p0 /\
    ((exists q, rewriteUploadIDs (sent_query r (idPresigned ident)) = Some (q, "")) ->
     exists name, (v ← key_view p0 (iKey info); write_to v (iKey info)) = Ok (Some (name, backend)) /\ byName clusters !! name = Some cl).
Proof.
  intros Hp Hs Hc Hl. apply (sent_passed _ _ _ _ _ _ _ Hp) in Hs as (ident & p & role & route & q & st0 & (Hv & p0 & route0 & H1 & H2 & H3 & Hd & Ha) & Ht & Hr).
  exists ident, p0. split_and!; [done..|]. intros [q' Hq]. destruct Hd as (route1 & prefix & D1 & D2 & _ & _ & D5 & D6). rewrite D5 in Hq. simplify_eq. cbn in D6. destruct D6 as [-> ->].
  rewrite Hc in D1. assert (staleRead (staleFor stale p) (Class_ (iOp info)) route1 = route1) as E.
  { unfold staleRead. rewrite Hc. cbn. by rewrite andb_false_r. }
  rewrite E in Hr. destruct Hr as [Hcl ->]. set (role := if bool_decide (rtCluster route1 = Source) then pSource p else pPrimary p) in *. exists (ClusterOf p role). split; [|done].
  assert (key_view p0 (iKey info) = Ok p) as -> by (unfold key_view; destruct H3 as [[-> ->]|[(-> & _ & ->)|(_ & ? & _)]]; done).
  cbn. unfold write_to. rewrite D1. cbn. rewrite D2. unfold side_backend, role_backend, role. by destruct (rtCluster route1).
Qed.

(** C34: no token is lost. However the request ends, giving back the tokens it holds leaves every gate
    with the requests that were in flight before it, whatever its backend work's outcome, provided a copy
    source is only named by a request that writes an object or a part. *)
Theorem tokens_accounted r hasBody info st out uncertain srcUncertain : prepareResign r hasBody info (mkHeld (Some g0) None None) = (st, out) -> copies_write r info ->
  exists g, releaseTokens (hdTok st) (hdSrc st) uncertain srcUncertain <$> hdGates st = Some g /\ forall key kind, infl g key kind = infl g0 key kind.
Proof.
  intros Hp Hw. pose proof (prepareResign_spec r hasBody info _ start_untouched) as H. rewrite Hp in H.
  assert (counts g0 st None) as (g & Hg & Hc) by (destruct out; [destruct H as (? & (_ & ? & ? & _ & _ & _ & _ & Ha) & _); apply Ha|destruct H as [H _]; exact (H Hw)]).
  unfold releaseTokens. rewrite Hg. eexists. split; [reflexivity|]. intros key kind. destruct (Hc key) as (_ & _ & Hk). specialize (Hk kind).
  rewrite (proj2 (proj2 (release_gate _ _ _ key)) kind), (proj2 (proj2 (release_gate _ _ _ key)) kind), Hk, cnt_none. lia.
Qed.

(** Nothing touches a moving bucket's source without a token for it. A request sent with the
    placement's other cluster at hand, for a read that falls back or a delete that goes to both, and a
    listing that merges the two, holds a source token of the bucket's gate, which was open, and the
    directory it routes by bars no use of the source. *)
Theorem source_admitted r hasBody info st out : prepareResign r hasBody info (mkHeld (Some g0) None None) = (st, out) ->
  match out with Ok pr => prOther pr <> None | Err (MergeListing _ _ _ _) => True | _ => False end ->
  exists ident p0 p, Verify absPath Lookup parseHTTPDate r now (mkOptions clockSkew 0 true) = Ok ident /\
    let key := Key (cdTenant (idCredential ident)) (iBucket info) in
    snap_Lookup snap (cdTenant (idCredential ident)) (iBucket info) = Some p0 /\ view_of info p0 p /\ source_barred p = false /\ hdSrc st = Some (key, SourceKind) /\ admits snap g0 key SourceKind.
Proof.
  intros Hp Ho. pose proof (prepareResign_spec r hasBody info _ start_untouched) as H. rewrite Hp in H.
  assert (exists ident p role route q, passed r ident info p role route q st /\ both_sides route = true) as (ident & p & role & route & q & (Hv & p0 & route0 & H1 & H2 & H3 & Hd & Ha) & Hb).
  { destruct out as [pr|[]]; try done.
    - destruct H as (ident & Hpass & _ & Hoth & _). exists ident, (prPlacement pr), (prRole pr), (prRoute pr), (prQuery pr). split; [done|]. rewrite Hoth in Ho. unfold other_side in Ho.
      unfold both_sides. destruct (negb _ && _) eqn:E; [|done]. by apply andb_true_iff in E as [_ ?].
    - destruct H as (_ & ident & p & role & route & q & Hpass & Hm & _). exists ident, p, role, route, q. split; [done|]. unfold both_sides. rewrite Hm. by rewrite orb_true_r. }
  destruct Ha as (_ & _ & Hs & _). unfold source_token in Hs. rewrite Hb in Hs. destruct Hs as (? & ? & ?). exists ident, p0, p. by split_and!.
Qed.
End path.

(** ** Requests of a small deployment *)

(** Two clusters; [dst] and [src] are buckets of one tenant. *)
Definition site_clusters : Clusters :=
  let c n id := mkUCluster n "s3" "https" "r" id ["h:443"] "k" "s" true true true in mkClusters {["a" := c "a" "aaaaaa"; "b" := c "b" "bbbbbb"]} {["aaaaaa" := c "a" "aaaaaa"; "bbbbbb" := c "b" "bbbbbb"]}.
Definition site_cred : Credential := mkCred "AK" "secret" "t" [].
Definition site_store (ak : string) : result lookupErr Credential := if bool_decide (ak = "AK") then Ok site_cred else Err ErrUnknownAccessKey.
Definition site_time : Time := mkTime 2026 9 24 12 0 0 0.
Definition site_file (dst src : Placement) : File := mkFile 7 2 zeroIdentity None None None (Some {["t/dst" := dst; "t/src" := src]}).
Definition no_heads (_ : nat) (_ : UCluster) (_ : string) : option (Z * string) := None.
Definition no_body (_ : bodyPlan) (_ : Z) : result chunkErr Z := Ok 0%Z.
Definition site_domains : Domains := NewDomains [].

(** A request the client signs, as the proxy reads it. *)
Definition client (method path query : string) (h : values) : HRequest :=
  let r := Sign no_abs (mkHReq method "" path query h "" "s3.example.com" 0 false) "AK" "secret" "us-east-1" UnsignedPayload site_time in
  mkHReq method (if bool_decide (query = "") then path else path +:+ "?" +:+ query) path query (rqHeader r) "s3.example.com" "" 0 false.
Definition prepare (snap : File) (g : Gates) (r : HRequest) : held * result answer prepared :=
  prepareResign no_abs site_store no_date no_heads no_body false 0 site_time snap site_clusters r false (info_of site_domains r) (mkHeld (Some g) None None).

Definition at_rest (cluster name : string) : Placement := zeroPlacement |> set_State StateActive |> set_Primary cluster |> set_Names (Some {[cluster := name]}).
Definition split_bucket (state : string) (name : string) : Placement :=
  zeroPlacement |> set_State state |> set_Primary "b" |> set_Source "a" |> set_Names (Some {["a" := name +:+ "-a"; "b" := name +:+ "-b"]}).

(** The tokens held and the backend reached, by its cluster's name. *)
Definition summary (x : held * result answer prepared) : Token * Token * option (string * string) :=
  (hdTok (fst x), hdSrc (fst x), '(cl, backend) ← sent_to (snd x); Some (ucName cl, backend)).

(** A bucket at rest whose mutations are barred: read-only, under a barrier, its gate closed. *)
Definition barred_dst : Placement := at_rest "a" "dst-a" |> set_ReadOnly true |> set_Barrier (Some (mkBarrier "drain-1" BarrierMutations)).
Definition closed_gates : Gates := put_gate "t/dst" (mkGate (mkPer "drain-1" "") 7 (mkPer 0%Z 0%Z) (mkPer 0%Z 0%Z)) New.
Definition copy_header : values := {["X-Amz-Copy-Source" := ["/src/k2"]]}.

(** A GET that names a copy source is streamed as a copy. Into a bucket that is read-only, under a
    mutations barrier and with its gate closed, the PUT of a copy from another cluster is refused, while a
    GET of the same path with the same X-Amz-Copy-Source header makes the proxy stream that copy into the
    bucket's backend, and holds no mutations token. *)
Theorem get_streams_copy :
  summary (prepare (site_file barred_dst (at_rest "b" "src-b")) closed_gates (client "PUT" "/dst/k" "" copy_header)) = (None, None, None) /\
  summary (prepare (site_file barred_dst (at_rest "b" "src-b")) closed_gates (client "GET" "/dst/k" "" copy_header)) = (None, None, Some ("a", "dst-a")) /\
  Mutates (iOp (info_of site_domains (client "GET" "/dst/k" "" copy_header))) "GET" = false.
Proof. split_and!; vm_compute; reflexivity. Qed.

(** The requests in flight on a gate once the tokens are given back. *)
Definition left_over (x : held * result answer prepared) (key : string) (kind : Kind) : option Z :=
  g ← hdGates (fst x); Some (infl (releaseTokens (hdTok (fst x)) (hdSrc (fst x)) false false g) key kind).

(** The same request on a bucket that is moving loses a token. The GET holds a source token of its own
    bucket; the copy's source token replaces it, and when the request ends its bucket's gate still counts
    a request in flight, for which no later wait for the source to drain can end. *)
Theorem get_copy_leaks :
  let x := prepare (site_file (split_bucket StateMigrating "dst") (split_bucket StateMigrating "src")) New (client "GET" "/dst/k" "" copy_header) in
  hdSrc (fst x) = Some ("t/src", SourceKind) /\ left_over x "t/dst" SourceKind = Some 1%Z /\ left_over x "t/src" SourceKind = Some 0%Z.
Proof. split_and!; vm_compute; reflexivity. Qed.

(** An upload id pins any request. After the cutover of a bucket, a PUT of an object whose query
    carries an upload id of the source cluster, in a parameter such a request does not use, is sent to the
    source's bucket, where no read of the key looks. *)
Theorem upload_id_pins_put :
  let f := site_file (split_bucket StateCutover "dst") (at_rest "b" "src-b") in
  iOp (info_of site_domains (client "PUT" "/dst/k" "upload-id-marker=aaaaaa~x" ∅)) = OpPutObject /\
  summary (prepare f New (client "PUT" "/dst/k" "upload-id-marker=aaaaaa~x" ∅)) = (Some ("t/dst", Mutations), None, Some ("a", "dst-a")) /\
  summary (prepare f New (client "PUT" "/dst/k" "" ∅)) = (Some ("t/dst", Mutations), None, Some ("b", "dst-b")) /\
  routed (split_bucket StateCutover "dst") "k" = Ok (Some ("b", "dst-b"), [("b", "dst-b")]).
Proof. split_and!; vm_compute; reflexivity. Qed.

(** ** Witnesses *)

Definition quiet_file : File := site_file (at_rest "a" "dst-a") (at_rest "b" "src-b").
Definition plain_put : HRequest := client "PUT" "/dst/k" "" ∅.
Definition site_run (f : File) (r : HRequest) : held * result answer prepared := Eval cbv beta delta [prepare] in prepare f New r.

Definition cluster_a : UCluster := mkUCluster "a" "s3" "https" "r" "aaaaaa" ["h:443"] "k" "s" true true true.
Definition moving_file : File := site_file (split_bucket StateMigrating "dst") (at_rest "b" "src-b").
Definition plain_get : HRequest := client "GET" "/dst/k" "" ∅.


Lemma sent_write_routed_witness : exists ident p0 name, snap_Lookup quiet_file (cdTenant (idCredential ident)) "dst" = Some p0 /\
  (v ← key_view p0 (iKey (info_of site_domains plain_put)); write_to v (iKey (info_of site_domains plain_put))) = Ok (Some (name, "dst-a")) /\ byName site_clusters !! name = Some cluster_a.
Proof.
  destruct (sent_write_routed no_abs site_store no_date no_heads no_body false 0 site_time quiet_file site_clusters New plain_put false (info_of site_domains plain_put) (fst (site_run quiet_file plain_put)) (snd (site_run quiet_file plain_put)) cluster_a "dst-a")
    as (ident & p0 & _ & H & Hw); [vm_compute; reflexivity..|]. destruct Hw as (name & Hn & Hc); [|exists ident, p0, name; split; [exact H|]; split; [exact Hn|exact Hc]].
  exists "". destruct (idPresigned ident); vm_compute; reflexivity.
Defined.

Lemma tokens_accounted_witness : exists g, releaseTokens (hdTok (fst (site_run moving_file plain_get))) (hdSrc (fst (site_run moving_file plain_get))) true false <$> hdGates (fst (site_run moving_file plain_get)) = Some g /\ forall key kind, infl g key kind = infl New key kind.
Proof.
  refine (tokens_accounted no_abs site_store no_date no_heads no_body false 0 site_time moving_file site_clusters New plain_get false (info_of site_domains plain_get) (fst (site_run moving_file plain_get)) (snd (site_run moving_file plain_get)) true false _ _).
  - vm_compute. reflexivity.
  - intros H. exfalso. apply H. vm_compute. reflexivity.
Defined.

Lemma source_admitted_witness : exists ident, hdSrc (fst (site_run moving_file plain_get)) = Some (Key (cdTenant (idCredential ident)) "dst", SourceKind).
Proof.
  destruct (source_admitted no_abs site_store no_date no_heads no_body false 0 site_time moving_file site_clusters New plain_get false (info_of site_domains plain_get) (fst (site_run moving_file plain_get)) (snd (site_run moving_file plain_get)))
    as (ident & p0 & p & _ & _ & _ & _ & H & _); [vm_compute; reflexivity|vm_compute; discriminate|]. exists ident. exact H.
Defined.
