(* ===== verification/Mover.v ===== *)
(** * The mover (internal/mover: mover.go, run.go)

    The engine that copies a moving placement's objects from its source to its primary.  Every exchange
    with a backend, a local file or the caller's report is a request of a program, answered one at a
    time, so that what clients do in between can be interleaved; what the backends answer is a
    parameter of the properties, in [MoverSafe].  Durations, timestamps and the texts of errors and of
    the operator's output are left out. *)

From S2P Require Import Prelude Float64 KeyHash HashRange Config Placement S3Op S3Names Route Directory ScopeWrites Crypto Strconv.

(** ** Objects and requests *)

(** The headers of an object the mover reads, and one it does not. *)
Record meta : Type := mkMeta {
  mtContentType : string; mtMetadata : gmap string string; mtCacheControl : string; mtContentEncoding : string; mtContentDisposition : string;
  mtContentLanguage : string;
}.

(** What a HEAD answers; [hPartsCount] is 0 where the backend does not say. *)
Record headOut : Type := mkHead { hSize : Z; hETag : string; hPartsCount : Z; hMeta : meta; hModified : Z }.

Record stats : Type := mkStats { stCopied : Z; stSkipped : Z; stVanished : Z; stFailed : Z; stDrifted : Z; stBytes : Z }.
Definition no_stats : stats := mkStats 0 0 0 0 0 0.

Record LedgerEntry : Type := mkEntry {
  leKey : string; leSize : Z; leSrcETag : string; leDstETag : string; leParts : Z; leDrift : bool; leMode : string; leResult : string;
}.

Record Progress : Type := mkProgress {
  pgKey : string; pgSource : string; pgPrimary : string; pgPass : Z;
  pgCopied : Z; pgSkipped : Z; pgVanished : Z; pgFailed : Z; pgBytes : Z; pgLastKey : string; pgDone : bool; pgConverged : bool;
}.

(** A request to the source's bucket, to the target's, or to the process's own files and caller. *)
Inductive s3req : Type :=
| HeadSrc (key : string) (part : option Z)
| GetSrc (key : string) (rng : option (Z * Z))
| ListSrc (token after prefix : string)
| HeadDst (key : string)
| PutDst (key : string) (m : meta) (size : Z) (body : bytes) (ifNone : bool)
| CreateDst (key : string) (m : meta)
| UploadDst (key uploadID : string) (part : Z) (body : bytes)
| CompleteDst (key uploadID : string) (parts : list (Z * string)) (ifNone : bool)
| AbortDst (key uploadID : string)
| DeleteDst (key : string) (ifMatch : option string)
| TempFile
| ReadCursor (path : string) | WriteCursor (path key : string) | RemoveCursor (path : string)
| OpenLedger (path : string) | WriteLedger (path : string) (line : LedgerEntry) | UploadLedger (bucket path : string)
| CheckSide (target : bool)
| Report (p : Progress).

(** [RLost] is a request that was not answered: it may have been carried out. *)
Inductive reply : Type :=
| RHead (h : headOut)
| RBody (b : bytes)
| RPage (keys : list string) (truncated : bool) (next : string)
| RPut (etag : string) (date : option Z)
| RUpload (id : string)
| RCursor (key : string)
| RDone
| RNotFound
| RPrecondition
| RFail
| RLost.

(** A program of requests. *)
Inductive io (A : Type) : Type :=
| Return (a : A)
| Ask (r : s3req) (k : reply -> io A).
Arguments Return {A} a.
Arguments Ask {A} r k.

#[export] Instance io_ret : MRet io := @Return.
Fixpoint io_bind_ {A B} (k : A -> io B) (m : io A) : io B :=
  match m with Return a => k a | Ask r f => Ask r (fun rep => io_bind_ k (f rep)) end.
#[export] Instance io_bind : MBind io := @io_bind_.

Definition ask (r : s3req) : io reply := Ask r Return.

(** A call of the SDK: a request that is not answered is sent again, [RetryMaxAttempts] times in all. *)
Fixpoint attempt (again : nat) (r : s3req) : io reply :=
  rep ← ask r;
  match rep, again with
  | RLost, S again => attempt again r
  | RLost, O => mret RFail
  | rep, _ => mret rep
  end.
Definition call (r : s3req) : io reply := attempt 2 r.

(** Errors, as the mover tells them apart. *)
Inductive moveErr : Type := ENotFound | EPreconditionFailed | EOther.
#[export] Instance moveErr_eq_dec : EqDecision moveErr.
Proof. solve_decision. Defined.
Definition err_of (rep : reply) : moveErr := match rep with RNotFound => ENotFound | RPrecondition => EPreconditionFailed | _ => EOther end.
Definition isNotFound (e : moveErr) : bool := bool_decide (e = ENotFound).
Definition isPreconditionFailed (e : moveErr) : bool := bool_decide (e = EPreconditionFailed).

(** ** Jobs *)

Record side : Type := mkMSide { sdName : string; sdBucket : string }.
Record job : Type := mkJob { jTenant : string; jClient : string; jSrc : side; jDst : side; jConditional : bool; jCondDelete : bool; jKeep : string -> bool; jPrefix : string }.

Definition guardName (conditional : bool) : string := if conditional then "If-None-Match" else "HEAD-then-commit".

Inductive selectErr : Type := ENoCluster (name : string) | ENoSecret (name : string) | ENotMovable (key state : string) | ELostWriteWindow (key cluster : string).

Definition ConditionalWriteOr (c : Capabilities) (def : bool) : bool := default def (ConditionalWrite c).
Definition ConditionalDeleteOr (c : Capabilities) (def : bool) : bool := default def (ConditionalDelete c).

Section select.
(** Whether the secret a cluster's credentials name can be resolved on this host or came with the placement. *)
Context (resolves : string -> bool).

(** The client of a cluster. *)
Definition client_of (dir : File) (name : string) : result selectErr Cluster :=
  match mlookup name (fClusters dir) with
  | None => Err (ENoCluster name)
  | Some c => if resolves name then Ok c else Err (ENoSecret name)
  end.

(** Whether writes are no longer split. *)
Definition movable (p : Placement) : bool :=
  bool_decide (pState p = StateMigrating) || bool_decide (pState p = StateRamping) && match pRamp p with Some r => f64_leb f1 (rRatio r) | None => false end.

(** One placement of the directory: no job, one, or a refusal. *)
Definition select_one (dir : File) (one from : string) (acceptLoss : bool) (key : string) (p0 : Placement) : result selectErr (option job) :=
  let p := match pMove p0 with Some m => MoveView p0 m | None => p0 end in
  let keep := match pMove p0 with Some _ => InMove p0 | None => fun _ => true end in
  let prefix := match pMove p0 with Some m => mvScope m | None => "" end in
  let '(tenant, name) := default (key, "") (Cut key "/"%char) in
  if negb (bool_decide (one = "")) && negb (bool_decide (key = one)) then Ok None
  else if bool_decide (one = "") && negb (bool_decide (from = "")) && negb (bool_decide (ClusterOf p (pSource p) = from)) then Ok None
  else if bool_decide (one = "") && bool_decide (from = "") then Ok None
  else if negb (movable p) then (if bool_decide (one = "") then Ok None else Err (ENotMovable key (pState p)))
  else
    let srcName := ClusterOf p (pSource p) in let dstName := ClusterOf p (pPrimary p) in
    _ ← client_of dir srcName;
    dst ← client_of dir dstName;
    let conditional := ConditionalWriteOr (cCapabilities dst) true in
    if negb conditional && negb acceptLoss then Err (ELostWriteWindow key dstName)
    else Ok (Some (mkJob tenant name (mkMSide srcName (mget "" (pSource p) (pNames p))) (mkMSide dstName (mget "" (pPrimary p) (pNames p)))
                    conditional (ConditionalDeleteOr (cCapabilities dst) false) keep prefix)).

Fixpoint select_all (dir : File) (one from : string) (acceptLoss : bool) (keys : list string) : result selectErr (list job) :=
  match keys with
  | [] => Ok []
  | key :: keys =>
      j ← select_one dir one from acceptLoss key (mget zeroPlacement key (fPlacements dir));
      js ← select_all dir one from acceptLoss keys;
      Ok (match j with Some j => j :: js | None => js end)
  end.

Definition selectPlacements (dir : File) (one from : string) (acceptLoss : bool) : result selectErr (list job) :=
  select_all dir one from acceptLoss (msortedKeys (fPlacements dir)).
End select.

(** ** Copying one object *)

Definition inlineLimit : Z := 16777216.
Definition wrap32 (z : Z) : Z := ((z + 2 ^ 31) mod 2 ^ 32 - 2 ^ 31)%Z.

(** The part count a multipart ETag ends in, "<hex>-<n>". *)
Definition etag_parts (etag : string) : option Z :=
  match CutLast (S_ (trim (fun c => bool_decide (c = "034"%char)) (B etag))) "-"%char with
  | None => None
  | Some (_, n) => n ← ParseInt 10 (B n); if (n <? 1)%Z then None else Some n
  end.

Definition sourceParts (key : string) (head : headOut) : io (result moveErr Z) :=
  if (0 <? hPartsCount head)%Z then mret (Ok (hPartsCount head))
  else match etag_parts (hETag head) with
       | None => mret (Ok 1%Z)
       | Some n =>
           rep ← call (HeadSrc key (Some 1%Z));
           mret match rep with
                | RHead ph => Ok (if (0 <? hPartsCount ph)%Z then hPartsCount ph else wrap32 n)
                | rep => Err (err_of rep)
                end
       end.

(** What a copy keeps of the source's headers: of a PUT, and of a multipart upload. *)
Definition put_meta (m : meta) : meta := mkMeta (mtContentType m) (mtMetadata m) (mtCacheControl m) (mtContentEncoding m) (mtContentDisposition m) "".
Definition upload_meta (m : meta) : meta := mkMeta (mtContentType m) (mtMetadata m) "" "" "" "".

Definition put_answer (rep : reply) : result moveErr (string * option Z) := match rep with RPut etag date => Ok (etag, date) | rep => Err (err_of rep) end.

Definition copySingle (j : job) (key : string) (head : headOut) : io (result moveErr (string * option Z)) :=
  get ← call (GetSrc key None);
  match get with
  | RBody body =>
      spooled ← (if (hSize head <=? inlineLimit)%Z then mret RDone else ask TempFile);
      match spooled with
      | RDone => rep ← call (PutDst key (put_meta (hMeta head)) (hSize head) body (jConditional j)); mret (put_answer rep)
      | _ => mret (Err EOther)
      end
  | rep => mret (Err (err_of rep))
  end.

Definition abort {A} (key uploadID : string) (e : moveErr) : io (result moveErr A) := _ ← call (AbortDst key uploadID); mret (Err e).

(** The parts from [n] on: [todo] of them, from [offset] of the source. *)
Fixpoint copy_parts (key uploadID : string) (todo : nat) (n offset : Z) (completed : list (Z * string)) : io (result moveErr (list (Z * string))) :=
  match todo with
  | O => mret (Ok completed)
  | S todo =>
      ph ← call (HeadSrc key (Some n));
      match ph with
      | RHead ph =>
          let size := hSize ph in
          get ← call (GetSrc key (Some (offset, offset + size - 1)%Z));
          match get with
          | RBody body =>
              up ← call (UploadDst key uploadID n body);
              match up with
              | RPut etag _ => copy_parts key uploadID todo (n + 1) (offset + size) (completed ++ [(n, etag)])
              | rep => abort key uploadID (err_of rep)
              end
          | rep => abort key uploadID (err_of rep)
          end
      | rep => abort key uploadID (err_of rep)
      end
  end.

(** The guard before the commit of a target that ignores the condition. *)
Definition guard (j : job) (key : string) : io (result moveErr ()) :=
  if jConditional j then mret (Ok ())
  else rep ← call (HeadDst key);
       mret match rep with RHead _ => Err EPreconditionFailed | RNotFound => Ok () | rep => Err (err_of rep) end.

Definition copyMultipart (j : job) (key : string) (head : headOut) (parts : Z) : io (result moveErr (string * option Z)) :=
  create ← call (CreateDst key (upload_meta (hMeta head)));
  match create with
  | RUpload id =>
      copied ← copy_parts key id (Z.to_nat parts) 1 0 [];
      match copied with
      | Err e => mret (Err e)
      | Ok completed =>
          g ← guard j key;
          match g with
          | Err e => abort key id e
          | Ok _ =>
              rep ← call (CompleteDst key id completed (jConditional j));
              match rep with RPut etag date => mret (Ok (etag, date)) | rep => abort key id (err_of rep) end
          end
      end
  | rep => mret (Err (err_of rep))
  end.

Definition ownCopy (headETag putETag : string) (modified : Z) (putDate : option Z) : bool :=
  if bool_decide (headETag = "") || negb (bool_decide (headETag = putETag)) then false
  else match putDate with None => true | Some d => (modified <=? d)%Z end.

Definition withdraw (j : job) (key etag : string) (putDate : option Z) : io (result moveErr ()) :=
  if jCondDelete j then
    rep ← call (DeleteDst key (Some etag));
    mret match rep with RDone | RPrecondition | RNotFound => Ok () | rep => Err (err_of rep) end
  else
    head ← call (HeadDst key);
    match head with
    | RNotFound => mret (Ok ())
    | RHead h =>
        if negb (ownCopy (hETag h) etag (hModified h) putDate) then mret (Ok ())
        else rep ← call (DeleteDst key None); mret match rep with RDone => Ok () | rep => Err (err_of rep) end
    | rep => mret (Err (err_of rep))
    end.

Definition copyOne (j : job) (key : string) : io LedgerEntry :=
  let line size etag dst parts drift result := mkEntry key size etag dst parts drift (guardName (jConditional j)) result in
  rep ← call (HeadSrc key None);
  match rep with
  | RHead head =>
      let line := line (hSize head) (hETag head) in
      parts ← sourceParts key head;
      match parts with
      | Err _ => mret (line "" 0%Z false "error")
      | Ok parts =>
          rep ← call (HeadDst key);
          match rep with
          | RHead _ => mret (line "" parts false "skipped")
          | RNotFound =>
              copied ← (if (1 <? parts)%Z then copyMultipart j key head parts else copySingle j key head);
              match copied with
              | Err e => mret (line "" parts false (if isPreconditionFailed e then "skipped" else if isNotFound e then "vanished" else "error"))
              | Ok (etag, putDate) =>
                  let drift := negb (bool_decide (etag = "")) && negb (bool_decide (hETag head = "")) && negb (bool_decide (etag = hETag head)) in
                  rep ← call (HeadSrc key None);
                  match rep with
                  | RNotFound =>
                      w ← withdraw j key etag putDate;
                      mret (line etag parts drift match w with Ok _ => "vanished" | Err _ => "error" end)
                  | _ => mret (line etag parts drift "copied")
                  end
              end
          | _ => mret (line "" parts false "error")
          end
      end
  | RNotFound => mret (line 0%Z "" "" 0%Z false "vanished")
  | _ => mret (line 0%Z "" "" 0%Z false "error")
  end.

(** ** A pass *)

Definition count (s : stats) (line : LedgerEntry) : stats :=
  if bool_decide (leResult line = "copied") then
    mkStats (stCopied s + 1) (stSkipped s) (stVanished s) (stFailed s) (if leDrift line then stDrifted s + 1 else stDrifted s) (stBytes s + leSize line)
  else if bool_decide (leResult line = "skipped") then mkStats (stCopied s) (stSkipped s + 1) (stVanished s) (stFailed s) (stDrifted s) (stBytes s)
  else if bool_decide (leResult line = "vanished") then mkStats (stCopied s) (stSkipped s) (stVanished s + 1) (stFailed s) (stDrifted s) (stBytes s)
  else mkStats (stCopied s) (stSkipped s) (stVanished s) (stFailed s + 1) (stDrifted s) (stBytes s).

Definition safe_name (j : job) : string := map_string (fun c => if bool_decide (c = "/"%char) then "-"%char else c) (jTenant j +:+ "-" +:+ jClient j).
Definition cursorPath (j : job) : string := "mover-" +:+ safe_name j +:+ ".cursor".
Definition ledgerPath (j : job) : string := "mover-" +:+ safe_name j +:+ ".ledger.jsonl".

Record Paths : Type := mkPaths { ptLedgerBucket : string }.

Section pass.
Context (j : job) (paths : Paths) (dryRun : bool) (report : stats -> string -> bool -> Progress).

(** The keys of one page. *)
Fixpoint move_keys (keys : list string) (s : stats) : io stats :=
  match keys with
  | [] => mret s
  | key :: keys =>
      if negb (jKeep j key) then move_keys keys s
      else if dryRun then move_keys keys (mkStats (stCopied s + 1) (stSkipped s) (stVanished s) (stFailed s) (stDrifted s) (stBytes s))
      else
        line ← copyOne j key;
        _ ← ask (WriteLedger (ledgerPath j) line);
        let s := count s line in
        _ ← ask (WriteCursor (cursorPath j) key);
        _ ← (if ((stCopied s + stSkipped s + stVanished s + stFailed s) mod 1000 =? 0)%Z then ask (Report (report s key false)) else mret RDone);
        move_keys keys s
  end.

(** The pages from [token] on: the statistics, and the error of a listing; [None] when [fuel] pages were
    not enough. *)
Fixpoint move_pages (fuel : nat) (token after : string) (s : stats) : io (option (stats * option moveErr)) :=
  match fuel with
  | O => mret None
  | S fuel =>
      page ← call (ListSrc token after (jPrefix j));
      match page with
      | RPage keys truncated next =>
          s ← move_keys keys s;
          if truncated then move_pages fuel next "" s else mret (Some (s, None))
      | rep => mret (Some (s, Some (err_of rep)))
      end
  end.

Definition move (fuel : nat) : io (option (stats * option moveErr)) :=
  after ← ask (ReadCursor (cursorPath j));
  let after := match after with RCursor key => key | _ => "" end in
  ledger ← ask (OpenLedger (ledgerPath j));
  match ledger with
  | RDone =>
      r ← move_pages fuel "" after no_stats;
      match r with
      | Some (s, None) =>
          _ ← ask (RemoveCursor (cursorPath j));
          _ ← (if dryRun then mret RDone else ask (Report (report s "" true)));
          _ ← (if negb (bool_decide (ptLedgerBucket paths = "")) && negb dryRun then ask (UploadLedger (ptLedgerBucket paths) (ledgerPath j)) else mret RDone);
          mret (Some (s, None))
      | r => mret r
      end
  | _ => mret (Some (no_stats, Some EOther))
  end.
End pass.

(** ** A run *)

Record ROptions : Type := mkROptions { opKey : string; opFrom : string; opAcceptLostWriteWindow : bool; opDryRun : bool; opUntilConverged : bool; opMaxPasses : Z; opPaths : Paths }.
Record Result : Type := mkResult { rsKey : string; rsPasses : Z; rsCopied : Z; rsSkipped : Z; rsVanished : Z; rsFailed : Z; rsBytes : Z; rsConverged : bool }.

Inductive runErr : Type := RSelect (e : selectErr) | RNothing | RCheckSide | RDrifted (n : Z) | RFailed (n : Z) | RUnconverged (n : Z).

Definition add_stats (t s : stats) : stats :=
  mkStats (stCopied t + stCopied s) (stSkipped t + stSkipped s) (stVanished t + stVanished s) (stFailed t + stFailed s) (stDrifted t + stDrifted s) (stBytes t + stBytes s).
Definition fail_once (t : stats) : stats := mkStats (stCopied t) (stSkipped t) (stVanished t) (stFailed t + 1) (stDrifted t) (stBytes t).
Definition settled (s : stats) : bool := (stCopied s =? 0)%Z && (stFailed s =? 0)%Z && (stDrifted s =? 0)%Z.

(** [reportPass] *)
Definition reportPass (j : job) (pass : Z) (s : stats) (lastKey : string) (done : bool) : Progress :=
  mkProgress (jTenant j +:+ "/" +:+ jClient j) (sdName (jSrc j)) (sdName (jDst j)) pass (stCopied s) (stSkipped s) (stVanished s) (stFailed s + stDrifted s) (stBytes s) lastKey done (done && settled s).

Section run.
Context (resolves : string -> bool) (o : ROptions) (fuel : nat).

Definition maxPasses : Z := if negb (opUntilConverged o) || opDryRun o then 1 else if (opMaxPasses o <=? 0)%Z then 10 else opMaxPasses o.

(** The passes of one job, [todo] of them at most: how many were made, the totals, and whether it converged. *)
Fixpoint passes (j : job) (todo : nat) (pass made : Z) (total : stats) : io (option (Z * stats * bool)) :=
  match todo with
  | O => mret (Some (made, total, false))
  | S todo =>
      r ← move j (opPaths o) (opDryRun o) (reportPass j pass) fuel;
      match r with
      | None => mret None
      | Some (s, err) =>
          let total := add_stats total s in
          match err with
          | Some _ => mret (Some (made + 1, fail_once total, false))%Z
          | None => if settled s then mret (Some (made + 1, total, true))%Z else passes j todo (pass + 1) (made + 1) total
          end
      end
  end.

Fixpoint run_jobs (jobs : list job) (made : Z) (total : stats) (converged : bool) (unconverged : Z) : io (option (result runErr (Z * stats * bool * Z))) :=
  match jobs with
  | [] => mret (Some (Ok (made, total, converged, unconverged)))
  | j :: jobs =>
      c ← ask (CheckSide false);
      match c with
      | RDone =>
          c ← ask (CheckSide true);
          match c with
          | RDone =>
              r ← passes j (Z.to_nat maxPasses) 1 made total;
              match r with
              | None => mret None
              | Some (made, total, ok) => run_jobs jobs made total (converged && ok) (if negb ok && opUntilConverged o && negb (opDryRun o) then unconverged + 1 else unconverged)%Z
              end
          | _ => mret (Some (Err RCheckSide))
          end
      | _ => mret (Some (Err RCheckSide))
      end
  end.

Definition Run (dir : File) : io (option (result runErr Result)) :=
  match selectPlacements resolves dir (opKey o) (opFrom o) (opAcceptLostWriteWindow o) with
  | Err e => mret (Some (Err (RSelect e)))
  | Ok [] => mret (Some (Err RNothing))
  | Ok jobs =>
      r ← run_jobs jobs 0 no_stats true 0;
      mret match r with
           | None => None
           | Some (Err e) => Some (Err e)
           | Some (Ok (made, total, converged, unconverged)) =>
               if (0 <? stDrifted total)%Z then Some (Err (RDrifted (stDrifted total)))
               else if (0 <? stFailed total)%Z then Some (Err (RFailed (stFailed total)))
               else if (0 <? unconverged)%Z then Some (Err (RUnconverged unconverged))
               else Some (Ok (mkResult (opKey o) made (stCopied total) (stSkipped total) (stVanished total) (stFailed total + stDrifted total) (stBytes total) converged))
           end
  end.
End run.
