(* ===== verification/MoverSafe.v ===== *)
(** * What the mover keeps (internal/mover, with the clients of docs/adr/0004-migration-races.md)

    The mover's programs run against two backends while clients write and delete.  A client's write goes
    to the target; a delete goes to the source and then to the target.  Any request of the mover may go
    unanswered, carried out or not.  The properties hold over every interleaving. *)

From S2P Require Import Prelude Float64 KeyHash HashRange Config Placement S3Op S3Names Route Directory Crypto Strconv Mover.

(** ** The backends *)

Record object : Type := mkObject { oParts : list bytes; oMulti : bool; oMeta : meta }.
Definition content (o : object) : bytes := concat (oParts o).
Definition size_of (b : bytes) : Z := Z.of_nat (length b).

(** An object in a bucket: when it was stored, and whether the mover stored it. *)
Record stored : Type := mkStored { sdObj : object; sdModified : Z; sdMover : bool }.
Record upload : Type := mkUpload { upKey : string; upMeta : meta; upParts : gmap Z bytes }.

(** The two buckets, the target's uploads, the deletes between their two legs, the clock of the target,
    the cursor files, and the keys a request of the mover for which was not answered. *)
Record world : Type := mkWorld {
  wSrc : gmap string stored; wDst : gmap string stored; wUps : gmap string upload; wPending : gmap string nat; wNow : Z; wCursor : gmap string string; wDoubt : gset string;
}.
Definition set_src f w := mkWorld (f (wSrc w)) (wDst w) (wUps w) (wPending w) (wNow w) (wCursor w) (wDoubt w).
Definition set_dst f w := mkWorld (wSrc w) (f (wDst w)) (wUps w) (wPending w) (wNow w) (wCursor w) (wDoubt w).
Definition set_ups f w := mkWorld (wSrc w) (wDst w) (f (wUps w)) (wPending w) (wNow w) (wCursor w) (wDoubt w).
Definition set_pending f w := mkWorld (wSrc w) (wDst w) (wUps w) (f (wPending w)) (wNow w) (wCursor w) (wDoubt w).
Definition set_now f w := mkWorld (wSrc w) (wDst w) (wUps w) (wPending w) (f (wNow w)) (wCursor w) (wDoubt w).
Definition set_cursor f w := mkWorld (wSrc w) (wDst w) (wUps w) (wPending w) (wNow w) (f (wCursor w)) (wDoubt w).
Definition pending (w : world) (key : string) : nat := default 0%nat (wPending w !! key).

Section backends.
(** The ETag of an object; what the target honours; whether the source's HEAD of an object says its part
    count (its HEAD of a part always does), whether answers carry a Date, and how many keys a page has. *)
Context (etag : object -> string) (honoursNone honoursMatch counts dates : bool) (pageSize : nat).

Definition head_of_object (st : stored) (b : bytes) (says : bool) : headOut :=
  mkHead (size_of b) (etag (sdObj st)) (if says && oMulti (sdObj st) then Z.of_nat (length (oParts (sdObj st))) else 0) (oMeta (sdObj st)) (sdModified st).

(** A range whose end is before its start is not one, and is ignored. *)
Definition range_of (b : bytes) (rng : option (Z * Z)) : option bytes :=
  match rng with
  | None => Some b
  | Some (f, l) => if (l <? f)%Z then Some b else if (size_of b <=? f)%Z then None else Some (take (Z.to_nat (l - f + 1)) (drop (Z.to_nat f) b))
  end.

Definition part_object (b : bytes) : object := mkObject [b] false (mkMeta "" ∅ "" "" "" "").
Fixpoint staged (up : upload) (parts : list (Z * string)) : option (list bytes) :=
  match parts with
  | [] => Some []
  | (n, e) :: parts => b ← upParts up !! n; if bool_decide (etag (part_object b) = e) then bs ← staged up parts; Some (b :: bs) else None
  end.

(** Storing an object where the condition allows. *)
Definition commit (key : string) (o : object) (ifNone : bool) (w : world) : reply * world :=
  if ifNone && honoursNone && bool_decide (is_Some (wDst w !! key)) then (RPrecondition, w)
  else (RPut (etag o) (if dates then Some (wNow w) else None), set_dst <[key := mkStored o (wNow w) true]> w).

Definition list_keys (m : gmap string stored) (start prefix : string) : list string :=
  List.filter (fun k => HasPrefix k prefix && (bool_decide (start = "") || negb (bool_decide (String.le k start)))) (msortedKeys (Some m)).

Definition serve (r : s3req) (w : world) : reply * world :=
  match r with
  | HeadSrc key None => (match wSrc w !! key with Some st => RHead (head_of_object st (content (sdObj st)) counts) | None => RNotFound end, w)
  | HeadSrc key (Some n) =>
      (match wSrc w !! key with
       | Some st => match (if (n <? 1)%Z then None else oParts (sdObj st) !! Z.to_nat (n - 1)) with Some b => RHead (head_of_object st b true) | None => RFail end
       | None => RNotFound
       end, w)
  | GetSrc key rng => (match wSrc w !! key with Some st => match range_of (content (sdObj st)) rng with Some b => RBody b | None => RFail end | None => RNotFound end, w)
  | ListSrc token after prefix =>
      let ks := list_keys (wSrc w) (if bool_decide (token = "") then after else token) prefix in
      (RPage (take pageSize ks) (bool_decide (pageSize < length ks)%nat) (default "" (last (take pageSize ks))), w)
  | HeadDst key => (match wDst w !! key with Some st => RHead (head_of_object st (content (sdObj st)) counts) | None => RNotFound end, w)
  | PutDst key m size body ifNone => if (size_of body =? size)%Z then commit key (mkObject [body] false m) ifNone w else (RFail, w)
  | CreateDst key m => let id := fresh (dom (wUps w)) in (RUpload id, set_ups <[id := mkUpload key m ∅]> w)
  | UploadDst key id n body =>
      match wUps w !! id with
      | Some up => (RPut (etag (part_object body)) None, set_ups <[id := mkUpload (upKey up) (upMeta up) (<[n := body]> (upParts up))]> w)
      | None => (RFail, w)
      end
  | CompleteDst key id parts ifNone =>
      match wUps w !! id ≫= fun up => bs ← staged up parts; Some (up, bs) with
      | Some (up, bs) => let '(rep, w) := commit key (mkObject bs true (upMeta up)) ifNone w in (rep, match rep with RPut _ _ => set_ups (delete id) w | _ => w end)
      | None => (RFail, w)
      end
  | AbortDst key id => (RDone, set_ups (delete id) w)
  | DeleteDst key ifMatch =>
      match ifMatch, honoursMatch with
      | Some e, true =>
          match wDst w !! key with
          | None => (RNotFound, w)
          | Some st => if bool_decide (etag (sdObj st) = e) then (RDone, set_dst (delete key) w) else (RPrecondition, w)
          end
      | _, _ => (RDone, set_dst (delete key) w)
      end
  | ReadCursor path => (match wCursor w !! path with Some key => RCursor key | None => RDone end, w)
  | WriteCursor path key => (RDone, set_cursor <[path := key]> w)
  | RemoveCursor path => (RDone, set_cursor (delete path) w)
  | TempFile | OpenLedger _ | WriteLedger _ _ | UploadLedger _ _ | CheckSide _ | Report _ => (RDone, w)
  end.

(** The key a request is for. *)
Definition key_of (r : s3req) : gset string :=
  match r with
  | HeadSrc k _ | GetSrc k _ | HeadDst k | PutDst k _ _ _ _ | CreateDst k _ | UploadDst k _ _ _ | CompleteDst k _ _ _ | AbortDst k _ | DeleteDst k _ => {[k]}
  | _ => ∅
  end.
Definition doubt (r : s3req) (w : world) : world := mkWorld (wSrc w) (wDst w) (wUps w) (wPending w) (wNow w) (wCursor w) (wDoubt w ∪ key_of r).

(** How a request ends: served, refused, carried out but not answered, or neither. *)
Inductive fate : Type := Served | Refused | CarriedOut | Dropped.
Definition answer_as (f : fate) (r : s3req) (w : world) : reply * world :=
  match f with
  | Served => serve r w
  | Refused => (RFail, doubt r w)
  | CarriedOut => (RLost, doubt r (snd (serve r w)))
  | Dropped => (RLost, doubt r w)
  end.

(** ** The clients *)

(** What clients do to the two buckets while every write goes to the target: a write, the two legs of a
    delete in their order, and, on keys that are not moving, anything on the source. *)
Inductive cact : Type := CPut (key : string) (o : object) | CDeleteSrc (key : string) | CDeleteDst (key : string) | CTick | CKept (key : string) (st : option stored).

Context (keep : string -> bool).

Definition client (c : cact) (w : world) : option world :=
  match c with
  | CPut key o => Some (set_dst <[key := mkStored o (wNow w) false]> w)
  | CDeleteSrc key => Some (set_pending <[key := S (pending w key)]> (set_src (delete key) w))
  | CDeleteDst key => match pending w key with O => None | S n => Some (set_pending <[key := n]> (set_dst (delete key) w)) end
  | CTick => Some (set_now (fun n => n + 1)%Z w)
  | CKept key st => if keep key then None else Some (set_src (partial_alter (fun _ => st) key) w)
  end.

(** One step of the mover and its clients. *)
Inductive choice : Type := Client (c : cact) | Answer (f : fate).
Definition step {A} (c : choice) (x : io A * world) : option (io A * world) :=
  match c, x with
  | Client c, (m, w) => w ← client c w; Some (m, w)
  | Answer f, (Ask r k, w) => let '(rep, w) := answer_as f r w in Some (k rep, w)
  | Answer _, (Return _, _) => None
  end.
Fixpoint steps {A} (cs : list choice) (x : io A * world) : option (io A * world) :=
  match cs with [] => Some x | c :: cs => x ← step c x; steps cs x end.

(** ** A logic for the mover under its clients *)

Definition rely : world -> world -> Prop := rtc (fun w w' => exists c, client c w = Some w').

(** From [w], whatever the clients do between the requests and however each ends, [m] ends in [Q]. *)
Fixpoint wp {A} (m : io A) (Q : A -> world -> Prop) (w : world) {struct m} : Prop :=
  match m with
  | Return a => Q a w
  | Ask r k => forall w1, rely w w1 -> forall f, wp (k (fst (answer_as f r w1))) Q (snd (answer_as f r w1))
  end.

Definition stable (P : world -> Prop) : Prop := forall c w w', client c w = Some w' -> P w -> P w'.

Lemma stable_rely P w w' : stable P -> rely w w' -> P w -> P w'.
Proof. intros HP. induction 1 as [|w w1 w2 [c Hc] _ IH]; [done|]. intros H. apply IH. by eapply HP. Qed.

Lemma mwp_bind {A B} (m : io A) (k : A -> io B) Q w : wp m (fun a w => wp (k a) Q w) w -> wp (m ≫= k) Q w.
Proof. revert w. induction m as [a|r f IH]; intros w H; [done|]. intros w1 Hr g. apply IH, H, Hr. Qed.

Lemma mwp_mono {A} (m : io A) (Q Q' : A -> world -> Prop) w : (forall a w, Q a w -> Q' a w) -> wp m Q w -> wp m Q' w.
Proof. intros HQ. revert w. induction m as [a|r f IH]; intros w H; [by apply HQ|]. intros w1 Hr g. apply IH, H, Hr. Qed.

(** A run that ends, ends in [Q], which clients keep. *)
Lemma wp_sound {A} (m : io A) (Q : A -> world -> Prop) cs w a w' : (forall a, stable (Q a)) -> wp m Q w -> steps cs (m, w) = Some (Return a, w') -> Q a w'.
Proof.
  intros HQ. revert m w. induction cs as [|c cs IH]; intros m w Hwp Hs; cbn in Hs; [by simplify_eq|]. destruct c as [c|f]; cbn in Hs.
  - destruct (client c w) as [w1|] eqn:Ec; cbn in Hs; [|done]. refine (IH m w1 _ Hs). destruct m as [b|r k]; [by eapply HQ|].
    intros w2 Hr. apply Hwp. eapply rtc_l; [|exact Hr]. by exists c.
  - destruct m as [b|r k]; [done|]. specialize (Hwp w (rtc_refl _ _) f). destruct (answer_as f r w) as [rep w1]. cbn in Hs. exact (IH _ _ Hwp Hs).
Qed.

(** The whole of a run: before the [n]-th request clients do what [sched] says, where they can, and the
    request ends as it says. *)
Definition acted (w : world) (c : cact) : world := default w (client c w).
Fixpoint driven {A} (sched : nat -> list cact * fate) (n : nat) (m : io A) (w : world) {struct m} : A * world :=
  match m with
  | Return a => (a, w)
  | Ask r k => let x := answer_as (snd (sched n)) r (foldl acted w (fst (sched n))) in driven sched (S n) (k (fst x)) (snd x)
  end.

Lemma acted_rely l w : rely w (foldl acted w l).
Proof.
  revert w. induction l as [|c l IH]; intros w; [apply rtc_refl|]. cbn [foldl]. unfold acted at 2. destruct (client c w) as [w1|] eqn:E; [|apply IH]. eapply rtc_l; [by exists c|apply IH].
Qed.
Lemma wp_driven {A} (m : io A) Q sched n w : wp m Q w -> Q (fst (driven sched n m w)) (snd (driven sched n m w)).
Proof. revert n w. induction m as [a|r k IH]; intros n w H; [exact H|]. cbn [driven]. apply IH, H, acted_rely. Qed.

(** A request that is not answered leaves its key in doubt, for good. *)
Lemma client_doubt c w w' : client c w = Some w' -> wDoubt w' = wDoubt w.
Proof. destruct c; cbn; repeat case_match; intros; by simplify_eq. Qed.
Lemma commit_doubt key o b w : wDoubt (snd (commit key o b w)) = wDoubt w.
Proof. unfold commit. by destruct (_ && _). Qed.
Lemma serve_doubt r w : wDoubt (snd (serve r w)) = wDoubt w.
Proof.
  destruct r as [? []| | | | | | |key id parts b| |k [e|]| | | | | | | | |]; cbn; repeat case_match; try done; try apply commit_doubt.
  all: match goal with H : commit ?k ?o ?b ?w = (_, _) |- _ => pose proof (commit_doubt k o b w) as E; rewrite H in E; exact E end.
Qed.
Lemma stable_doubt key : stable (fun w => key ∈ wDoubt w).
Proof. intros c w w' H. by rewrite (client_doubt c w w' H). Qed.
Lemma answer_doubt f r w key : key ∈ wDoubt w -> key ∈ wDoubt (snd (answer_as f r w)).
Proof. intros H. destruct f; cbn; rewrite ?serve_doubt; set_solver. Qed.

Lemma wp_doubted {A} (m : io A) (Q : A -> world -> Prop) key w : (forall a w, key ∈ wDoubt w -> Q a w) -> key ∈ wDoubt w -> wp m Q w.
Proof.
  intros HQ. revert w. induction m as [a|r k IH]; intros w H; [by apply HQ|]. intros w1 Hr f. apply IH, answer_doubt. exact (stable_rely _ _ _ (stable_doubt key) Hr H).
Qed.

(** A call answers as served, from a state that [P] holds of, or leaves its key in doubt. *)
Lemma mwp_call {A} r (k : reply -> io A) (Q : A -> world -> Prop) key (P : world -> Prop) w : key ∈ key_of r -> (forall a w, key ∈ wDoubt w -> Q a w) -> stable P -> P w ->
  (forall w1, P w1 -> fst (serve r w1) <> RLost /\ wp (k (fst (serve r w1))) Q (snd (serve r w1))) -> wp (call r ≫= k) Q w.
Proof.
  intros Hk HQ HP Hw Hs. apply mwp_bind. unfold call. generalize 2%nat. intros n. destruct n as [|n]; cbn [attempt]; apply mwp_bind; intros w1 Hr f; pose proof (stable_rely _ _ _ HP Hr Hw) as Hw1; destruct f; cbn [answer_as fst snd wp].
  all: try (apply (wp_doubted _ _ key); [intros a w2; by apply wp_doubted|unfold doubt; cbn; rewrite ?serve_doubt; set_solver]).
  all: destruct (Hs w1 Hw1) as [Hl H]; destruct (fst (serve r w1)) eqn:E; try exact H; by destruct Hl.
Qed.

(** ** One key *)

Section key.
Context (key : string) (Hkeep : keep key = true).

(** Nothing comes back to the source: its object of the key is [so] or gone. *)
Definition frozen (so : stored) (w : world) : Prop := wSrc w !! key = Some so \/ wSrc w !! key = None.
(** A delete between its legs has taken the source's object. *)
Definition settled_src (w : world) : Prop := (0 < pending w key)%nat -> wSrc w !! key = None.

(** A copy of the mover on the target is of the source's object, which is still there, or a delete that is
    on its way will take it. *)
Definition consistent (w : world) : Prop :=
  forall st, wDst w !! key = Some st -> sdMover st = true -> (exists so, wSrc w !! key = Some so /\ content (sdObj so) = content (sdObj st)) \/ (0 < pending w key)%nat.

Lemma pending_set n w key' : pending (set_pending <[key' := n]> w) key = if decide (key = key') then n else pending w key.
Proof. unfold pending. cbn. case_decide as E; [subst; by rewrite lookup_insert_eq|by rewrite lookup_insert_ne]. Qed.

(** What one client action does to a key. *)
Lemma client_key c w w' : client c w = Some w' ->
  (wSrc w' !! key = wSrc w !! key /\ pending w' key = pending w key /\ (wDst w' !! key = wDst w !! key \/ exists o n, wDst w' !! key = Some (mkStored o n false))) \/
  (wSrc w' !! key = None /\ wDst w' !! key = wDst w !! key /\ (0 < pending w' key)%nat) \/
  (wSrc w' !! key = wSrc w !! key /\ wDst w' !! key = None /\ (0 < pending w key)%nat).
Proof.
  intros Hc. destruct c as [k o|k|k| |k st]; cbn in Hc.
  - simplify_eq. left. split_and!; [done..|]. cbn. destruct (decide (k = key)) as [->|]; [right; rewrite lookup_insert_eq; eauto|left; by rewrite lookup_insert_ne].
  - simplify_eq. rewrite pending_set. cbn. case_decide as E; [subst; right; left; rewrite lookup_delete_eq; split_and!; [done..|lia]|]. left. rewrite lookup_delete_ne by done. split_and!; [done..|by left].
  - destruct (pending w k) as [|n] eqn:Ep; simplify_eq. rewrite pending_set. cbn. case_decide as E; [subst; right; right; rewrite lookup_delete_eq; split_and!; [done..|lia]|]. left. rewrite lookup_delete_ne by done. split_and!; [done..|by left].
  - simplify_eq. left. split_and!; [done..|by left].
  - destruct (keep k) eqn:Ek; simplify_eq. left. cbn. rewrite lookup_partial_alter_ne by congruence. split_and!; [done..|by left].
Qed.

Lemma stable_frozen so : stable (frozen so).
Proof. intros c w w' Hc Hf. unfold frozen in *. destruct (client_key c w w' Hc) as [(-> & _)|[(-> & _)|(-> & _)]]; auto. Qed.
Lemma stable_settled : stable settled_src.
Proof. intros c w w' Hc Hs. unfold settled_src in *. destruct (client_key c w w' Hc) as [(-> & -> & _)|[(-> & _)|(-> & _ & Hp)]]; auto. Qed.
Lemma stable_consistent : stable consistent.
Proof.
  intros c w w' Hc Hi st Hd Hm. destruct (client_key c w w' Hc) as [(-> & -> & [E|(o & n & E)])|[(_ & _ & Hp)|(_ & E & _)]]; [rewrite E in Hd; by apply Hi|rewrite E in Hd; by simplify_eq|by right|congruence].
Qed.
Lemma stable_and P Q : stable P -> stable Q -> stable (fun w => P w /\ Q w).
Proof. intros HP HQ c w w' Hc [H1 H2]. split; [by eapply HP|by eapply HQ]. Qed.
Lemma stable_or P Q : stable P -> stable Q -> stable (fun w => P w \/ Q w).
Proof. intros HP HQ c w w' Hc [H|H]; [left; by eapply HP|right; by eapply HQ]. Qed.
Lemma stable_pure (P : Prop) : stable (fun _ => P).
Proof. by intros ????. Qed.
Lemma stable_ups (P : gmap string upload -> Prop) : stable (fun w => P (wUps w)).
Proof. intros c w w' Hc. destruct c; cbn in Hc; repeat case_match; by simplify_eq. Qed.

(** Requests to the process's own files change neither bucket, and put no key in doubt. *)
Definition local (r : s3req) : bool := match r with TempFile | ReadCursor _ | WriteCursor _ _ | RemoveCursor _ | OpenLedger _ | WriteLedger _ _ | UploadLedger _ _ | CheckSide _ | Report _ => true | _ => false end.
Definition same_buckets (w w' : world) : Prop := wSrc w' = wSrc w /\ wDst w' = wDst w /\ wUps w' = wUps w /\ wPending w' = wPending w.

Lemma answer_local f r w : local r = true -> same_buckets w (snd (answer_as f r w)).
Proof. destruct r; try done; intros _; destruct f; repeat split. Qed.

Lemma wp_local {A} r (k : reply -> io A) Q (P : world -> Prop) w : local r = true -> stable P -> (forall w1 w2, same_buckets w1 w2 -> P w1 -> P w2) -> P w ->
  (forall rep w1, P w1 -> wp (k rep) Q w1) -> wp (ask r ≫= k) Q w.
Proof. intros Hl HP Hs Hw Hk w1 Hr f. apply Hk. exact (Hs _ _ (answer_local f r w1 Hl) (stable_rely _ _ _ HP Hr Hw)). Qed.

Definition at_key (so : stored) (w : world) : Prop := frozen so w /\ consistent w.
Lemma stable_at so : stable (at_key so).
Proof. apply stable_and; [apply stable_frozen|apply stable_consistent]. Qed.
Lemma same_consistent w w' : same_buckets w w' -> consistent w -> consistent w'.
Proof. intros (E1 & E2 & _ & E4) H st. unfold pending. rewrite E1, E2, E4. apply H. Qed.
Lemma same_at so w w' : same_buckets w w' -> at_key so w -> at_key so w'.
Proof. intros Hs [Hf Hc]. split; [|by eapply same_consistent]. unfold frozen. by destruct Hs as (-> & _). Qed.

(** The mover's own copy, as its PUT was answered. *)
Definition own (so : stored) (e : string) (d : option Z) (w : world) : Prop :=
  forall st, wDst w !! key = Some st -> sdMover st = true -> etag (sdObj st) = e /\ content (sdObj st) = content (sdObj so) /\ (d = None \/ d = Some (sdModified st)).
Lemma stable_own so e d : stable (own so e d).
Proof.
  intros c w w' Hc Hi st Hd Hm. destruct (client_key c w w' Hc) as [(_ & _ & [E|(o & n & E)])|[(_ & E & _)|(_ & E & _)]]; rewrite E in Hd; [by apply Hi|by simplify_eq|by apply Hi|done].
Qed.

(** How a copy ends: in doubt, with the mover's copy on the target, or with nothing changed. *)
Definition copied (so : stored) (r : result moveErr (string * option Z)) (w : world) : Prop :=
  key ∈ wDoubt w \/ frozen so w /\ match r with Ok (e, d) => own so e d w | Err _ => consistent w end.

Lemma commit_copied so o b w : content o = content (sdObj so) -> at_key so w -> copied so (put_answer (fst (commit key o b w))) (snd (commit key o b w)).
Proof.
  intros Ho [Hf Hc]. right. unfold commit. destruct (_ && _); [by split|]. split; [done|]. unfold own. cbn. intros st. rewrite lookup_insert_eq. intros [= <-] _. cbn. split_and!; [done..|]. destruct dates; auto.
Qed.

Lemma wp_copySingle j head so w : hSize head = size_of (content (sdObj so)) -> at_key so w -> wp (copySingle j key head) (copied so) w.
Proof.
  intros Hsz Hw. unfold copySingle. apply (mwp_call _ _ _ key (at_key so)); [set_solver|by left|apply stable_at|done|]. intros w1 H1. cbn [serve fst snd].
  destruct (proj1 H1) as [E|E]; rewrite E; cbn [range_of]; [|split; [done|]; right; exact H1]. split; [done|].
  assert (forall w2, at_key so w2 -> wp (rep ← call (PutDst key (put_meta (hMeta head)) (hSize head) (content (sdObj so)) (jConditional j)); mret (put_answer rep)) (copied so) w2) as Hput.
  { intros w2 H2. apply (mwp_call _ _ _ key (at_key so)); [set_solver|by left|apply stable_at|done|]. intros w3 H3. cbn [serve]. rewrite Hsz, Z.eqb_refl. split; [unfold commit; by destruct (_ && _)|].
    apply commit_copied; [cbn; by rewrite app_nil_r|done]. }
  destruct (_ <=? _)%Z; [by apply Hput|]. apply (wp_local _ _ _ (at_key so)); [done|apply stable_at|apply same_at|done|]. intros rep w2 H2.
  destruct rep; try (right; exact H2). by apply Hput.
Qed.

(** *** Part by part *)

(** Every part of a multipart object has a byte; another object is one part. *)
Definition wf_object (o : object) : Prop := Forall (fun b => b <> []) (oParts o) /\ oParts o <> [] \/ exists b, oParts o = [b].

Lemma range_part o i b : wf_object o -> oParts o !! i = Some b ->
  range_of (content o) (Some (size_of (concat (take i (oParts o))), size_of (concat (take i (oParts o))) + size_of b - 1)%Z) = Some b.
Proof.
  intros Hwf Hi. unfold content, range_of, size_of. destruct (Z.ltb_spec (Z.of_nat (length (concat (take i (oParts o)))) + Z.of_nat (length b) - 1) (Z.of_nat (length (concat (take i (oParts o)))))) as [Hl|Hl].
  - assert (b = []) as -> by (destruct b; [done|cbn in Hl; lia]). destruct Hwf as [[Hf _]|[b' Hb]]; [exfalso; eapply (Forall_lookup_1 _ _ _ _ Hf Hi); done|].
    rewrite Hb in *. destruct i as [|i]; [|done]. simplify_eq/=. done.
  - assert (concat (oParts o) = concat (take i (oParts o)) ++ b ++ concat (drop (S i) (oParts o))) as E by (rewrite <- (take_drop_middle _ _ _ Hi) at 1; by rewrite concat_app).
    destruct (Z.leb_spec (Z.of_nat (length (concat (oParts o)))) (Z.of_nat (length (concat (take i (oParts o)))))) as [H|H]; [rewrite E, !length_app in H; lia|]. f_equal. rewrite E, Nat2Z.id.
    rewrite drop_app_length. replace (Z.to_nat _) with (length b) by lia. by rewrite take_app_length.
Qed.

(** The first [k] parts, as they are staged and listed. *)
Definition listed (ps : list bytes) : list (Z * string) := imap (fun i b => (Z.of_nat i + 1, etag (part_object b))%Z) ps.
Definition has_parts (ps : list bytes) (up : upload) : Prop := forall i b, ps !! i = Some b -> upParts up !! (Z.of_nat i + 1)%Z = Some b.

Lemma staged_listed_from ps up j : (forall i b, ps !! i = Some b -> upParts up !! (Z.of_nat (i + j) + 1)%Z = Some b) ->
  staged up (imap (fun i b => (Z.of_nat (i + j) + 1, etag (part_object b))%Z) ps) = Some ps.
Proof.
  revert j. induction ps as [|b ps IH]; intros j H; [done|]. cbn [imap staged]. rewrite (H 0%nat b eq_refl). cbn [mbind option_bind]. rewrite bool_decide_true by done.
  rewrite (imap_ext _ (fun i b => (Z.of_nat (i + S j) + 1, etag (part_object b))%Z)) by (intros i x _; cbn; do 3 f_equal; lia).
  rewrite IH; [done|]. intros i x Hx. rewrite <- (H (S i) x) by done. do 2 f_equal. lia.
Qed.
Lemma staged_listed ps up : has_parts ps up -> staged up (listed ps) = Some ps.
Proof.
  intros H. unfold listed. rewrite (imap_ext _ (fun i b => (Z.of_nat (i + 0) + 1, etag (part_object b))%Z)) by (intros i x _; by rewrite Nat.add_0_r).
  apply staged_listed_from. intros i b Hi. rewrite Nat.add_0_r. by apply H.
Qed.

Definition uploading (so : stored) (id : string) (k : nat) (w : world) : Prop := at_key so w /\ exists up, wUps w !! id = Some up /\ has_parts (take k (oParts (sdObj so))) up.
Lemma stable_uploading so id k : stable (uploading so id k).
Proof. apply stable_and; [apply stable_at|]. apply (stable_ups (fun m => exists up, m !! id = Some up /\ _)). Qed.

(** How the upload of the parts ends. *)
Definition uploaded (so : stored) (id : string) (k : nat) (r : result moveErr (list (Z * string))) (w : world) : Prop :=
  key ∈ wDoubt w \/ match r with Ok c => (k <= length (oParts (sdObj so)))%nat /\ c = listed (take k (oParts (sdObj so))) /\ uploading so id k w | Err _ => at_key so w end.

Lemma wp_abort {A} (Q : result moveErr A -> world -> Prop) so id e w : (forall r w, key ∈ wDoubt w -> Q r w) -> (forall w, at_key so w -> Q (Err e) w) -> at_key so w -> wp (abort key id e) Q w.
Proof. intros Hd HQ Hw. unfold abort. apply (mwp_call _ _ _ key (at_key so)); [set_solver|done|apply stable_at|done|]. intros w1 H1. split; [done|]. apply HQ. exact H1. Qed.

Lemma wp_copy_parts so id todo k w : wf_object (sdObj so) -> (k <= length (oParts (sdObj so)))%nat -> uploading so id k w ->
  wp (copy_parts key id todo (Z.of_nat k + 1) (size_of (concat (take k (oParts (sdObj so))))) (listed (take k (oParts (sdObj so))))) (uploaded so id (k + todo)) w.
Proof.
  intros Hwf. set (ps := oParts (sdObj so)). revert k w. induction todo as [|todo IH]; intros k w Hk Hw; cbn [copy_parts].
  { right. rewrite Nat.add_0_r. by split_and!. }
  assert (forall (r : result moveErr (list (Z * string))) w, key ∈ wDoubt w -> uploaded so id (k + S todo) r w) as Hd by (by left).
  assert (forall e w, at_key so w -> wp (abort key id e) (uploaded so id (k + S todo)) w) as Hab.
  { intros e w1 H1. apply (wp_abort _ so); [done|by right|done]. }
  apply (mwp_call _ _ _ key (uploading so id k)); [set_solver|done|apply stable_uploading|done|]. intros w1 [H1 Hu1]. cbn [serve fst snd].
  destruct (Z.ltb_spec (Z.of_nat k + 1) 1); [lia|]. replace (Z.to_nat (Z.of_nat k + 1 - 1)) with k by lia.
  destruct (proj1 H1) as [E|E]; rewrite E; [|split; [done|]; by apply Hab]. fold ps. destruct (ps !! k) as [b|] eqn:Eb; [|split; [done|]; by apply Hab]. split; [done|]. cbn [hSize head_of_object].
  apply (mwp_call _ _ _ key (uploading so id k)); [set_solver|done|apply stable_uploading|by split|]. intros w2 [H2 Hu2]. cbn [serve fst snd].
  destruct (proj1 H2) as [E2|E2]; rewrite E2; [|split; [done|]; by apply Hab]. pose proof (range_part _ _ _ Hwf Eb) as Er. fold ps in Er. rewrite Er. split; [done|].
  apply (mwp_call _ _ _ key (uploading so id k)); [set_solver|done|apply stable_uploading|by split|]. intros w3 [H3 (up & Eup & Hup)]. cbn [serve fst snd]. rewrite Eup. cbn [fst snd]. split; [done|].
  pose proof (lookup_lt_Some _ _ _ Eb) as Hlt. assert (take (S k) ps = take k ps ++ [b]) as Et by (by apply take_S_r).
  replace (Z.of_nat k + 1 + 1)%Z with (Z.of_nat (S k) + 1)%Z by lia.
  replace (size_of (concat (take k ps)) + size_of b)%Z with (size_of (concat (take (S k) ps))) by (rewrite Et, concat_app; unfold size_of; rewrite length_app; cbn; rewrite app_nil_r; lia).
  replace (listed (take k ps) ++ [(Z.of_nat k + 1, etag (part_object b))%Z]) with (listed (take (S k) ps)).
  2: { rewrite Et. unfold listed. rewrite imap_app. cbn. do 3 f_equal. rewrite Nat.add_0_r, length_take_le; [done|]. unfold ps in *. lia. }
  rewrite <- Nat.add_succ_comm. apply IH; [unfold ps in *; lia|]. split; [exact H3|]. cbn. rewrite lookup_insert_eq. eexists. split; [reflexivity|]. fold ps. rewrite Et. intros i x Hi. cbn.
  destruct (decide (i = k)) as [->|Hne].
  - rewrite lookup_app_r in Hi by (rewrite length_take_le; [done|unfold ps in *; lia]). rewrite length_take_le, Nat.sub_diag in Hi by (unfold ps in *; lia). cbn in Hi. simplify_eq. by rewrite lookup_insert_eq.
  - rewrite lookup_insert_ne by lia. apply Hup. fold ps. apply lookup_app_Some in Hi as [Hi|[Hi1 Hi2]]; [done|]. rewrite length_take_le in Hi1, Hi2 by (unfold ps in *; lia).
    destruct (i - k)%nat eqn:Ei; [lia|]. done.
Qed.

Lemma wp_guard {A} j (k : result moveErr () -> io A) Q so id n w : (forall r w, key ∈ wDoubt w -> Q r w) -> uploading so id n w ->
  (forall r w, uploading so id n w -> wp (k r) Q w) -> wp (guard j key ≫= k) Q w.
Proof.
  intros Hd Hw Hk. unfold guard. destruct (jConditional j); [by apply Hk|]. apply mwp_bind.
  apply (mwp_call _ _ _ key (uploading so id n)); [set_solver|intros r w1 H; by apply (wp_doubted _ _ key)|apply stable_uploading|done|]. intros w1 H1. split; [cbn; by destruct (wDst w1 !! key)|].
  by apply Hk.
Qed.

Lemma wp_copyMultipart j head parts so w : wf_object (sdObj so) -> (Z.to_nat parts <= length (oParts (sdObj so)) -> Z.to_nat parts = length (oParts (sdObj so)))%nat ->
  at_key so w -> wp (copyMultipart j key head parts) (copied so) w.
Proof.
  intros Hwf Hp Hw. unfold copyMultipart. assert (forall (r : result moveErr (string * option Z)) w, key ∈ wDoubt w -> copied so r w) as Hd by (by left).
  assert (forall e w, at_key so w -> copied so (Err e) w) as He by (intros e w0 [H1 H2]; by right).
  apply (mwp_call _ _ _ key (at_key so)); [set_solver|done|apply stable_at|done|]. intros w1 H1. split; [done|]. cbn [serve fst snd]. set (id := fresh _). set (w2 := set_ups _ w1).
  assert (uploading so id 0 w2) as Hu by (split; [exact H1|]; eexists; split; [cbn; apply lookup_insert_eq|]; done).
  apply mwp_bind. eapply mwp_mono; [|exact (wp_copy_parts so id (Z.to_nat parts) 0 w2 Hwf ltac:(lia) Hu)]. clearbody id. clear w w1 w2 H1 Hw Hu.
  intros [completed|e] w [Hw|Hw]; [by apply (wp_doubted _ _ key)| |by left|by apply He]. destruct Hw as (Hn & -> & Hu). cbn [Nat.add] in *.
  assert (take (Z.to_nat parts) (oParts (sdObj so)) = oParts (sdObj so)) as Et by (rewrite (Hp Hn); apply firstn_all).
  apply (wp_guard _ _ _ so id (Z.to_nat parts)); [done|done|]. clear w Hu. intros [[]|e] w Hu; [|apply (wp_abort _ so); [done|by apply He|apply Hu]].
  apply (mwp_call _ _ _ key (uploading so id (Z.to_nat parts))); [set_solver|done|apply stable_uploading|done|]. clear w Hu. intros w [Ha (up & Eup & Hup)]. rewrite Et in *.
  cbn [serve]. rewrite Eup. cbn [mbind option_bind]. rewrite (staged_listed _ _ Hup). cbn [mbind option_bind].
  pose proof (commit_copied so (mkObject (oParts (sdObj so)) true (upMeta up)) (jConditional j) w eq_refl Ha) as Hc. unfold commit in *. destruct (_ && _); cbn in *.
  - split; [done|]. apply (wp_abort _ so); [done|by apply He|done].
  - split; [done|]. exact Hc.
Qed.

(** *** The whole copy *)

Lemma sourceParts_ok so head (Q : result moveErr Z -> world -> Prop) w : wf_object (sdObj so) -> (oMulti (sdObj so) = false -> exists b, oParts (sdObj so) = [b]) ->
  head = head_of_object so (content (sdObj so)) counts -> (forall r w, key ∈ wDoubt w -> Q r w) -> at_key so w ->
  (forall r w, at_key so w -> match r with Ok n => (Z.to_nat n <= length (oParts (sdObj so)) -> Z.to_nat n = length (oParts (sdObj so)))%nat \/ (n <= 1)%Z | Err _ => True end -> Q r w) ->
  wp (sourceParts key head) Q w.
Proof.
  intros Hwf Hs -> Hd Hw HQ. unfold sourceParts. cbn [hPartsCount head_of_object hETag]. set (n := if counts && oMulti (sdObj so) then _ else 0%Z).
  destruct (Z.ltb_spec 0 n) as [Hn|_]; [apply HQ; [done|]; left; unfold n in *; destruct (_ && _); lia|]. clearbody n. destruct (etag_parts _) as [m|]; [|apply HQ; [done|by right]].
  apply (mwp_call _ _ _ key (at_key so)); [set_solver|done|apply stable_at|done|]. intros w1 H1. cbn [serve fst snd]. destruct (proj1 H1) as [E|E]; rewrite E; [|split; [done|]; by apply HQ].
  assert (exists b, oParts (sdObj so) !! Z.to_nat (1 - 1) = Some b) as [b Hb] by (destruct (oParts (sdObj so)) as [|b ?] eqn:Eo; [destruct Hwf as [[_ H]|[? H]]; by rewrite Eo in H|by exists b]).
  destruct (Z.ltb_spec 1 1); [lia|]. rewrite Hb. split; [done|]. apply HQ; [done|]. cbn [hPartsCount head_of_object andb]. destruct (oMulti (sdObj so)).
  - pose proof (lookup_lt_Some _ _ _ Hb). left. destruct (Z.ltb_spec 0 (Z.of_nat (length (oParts (sdObj so))))); lia.
  - cbn. destruct (Hs eq_refl) as [b' ->]. cbn. destruct (Z.le_gt_cases (wrap32 m) 1); [by right|]. left. lia.
Qed.

Lemma wp_withdraw {A} j e d so (k : result moveErr () -> io A) (Q : A -> world -> Prop) w : (forall o, etag o <> "") -> (forall a w, key ∈ wDoubt w -> Q a w) ->
  wSrc w !! key = None -> own so e d w -> (forall r w, match r with Ok _ => consistent w | Err _ => True end -> wp (k r) Q w) -> wp (withdraw j key e d ≫= k) Q w.
Proof.
  intros He Hd Hsrc Hown Hk. set (P := fun w => wSrc w !! key = None /\ own so e d w).
  assert (stable P) as HP.
  { apply stable_and; [|apply stable_own]. intros c w1 w2 Hc H. destruct (client_key c w1 w2 Hc) as [(-> & _)|[(-> & _)|(-> & _)]]; done. }
  assert (forall w, wDst w !! key = None -> consistent w) as Hnone by (intros w1 E st Hst; congruence).
  assert (forall a w, key ∈ wDoubt w -> wp (k a) Q w) as Hdk by (intros a w1; by apply wp_doubted).
  unfold withdraw. apply mwp_bind. destruct (jCondDelete j).
  - apply (mwp_call _ _ _ key P); [set_solver|done|done|done|]. intros w1 [H1 H2]. cbn [serve]. destruct honoursMatch; [|split; [done|]; apply Hk, Hnone; cbn; apply lookup_delete_eq].
    destruct (wDst w1 !! key) as [st|] eqn:Est; [|split; [done|]; by apply Hk, Hnone]. case_bool_decide as Ee; (split; [done|]); apply Hk; [apply Hnone; cbn; apply lookup_delete_eq|].
    intros st' Hst' Hm. cbn [snd] in Hst'. destruct (H2 st' Hst' Hm) as [Ee' _]. rewrite Est in Hst'. by simplify_eq.
  - apply (mwp_call _ _ _ key P); [set_solver|done|done|done|]. intros w1 [H1 H2]. cbn [serve fst snd]. destruct (wDst w1 !! key) as [st|] eqn:Est; [|split; [done|]; by apply Hk, Hnone]. split; [done|].
    destruct (ownCopy _ _ _ _) eqn:Eo; cbn [negb].
    + apply (mwp_call _ _ _ key P); [set_solver|done|done|by split|]. intros w2 _. cbn [serve]. split; [done|]. apply Hk, Hnone. cbn. apply lookup_delete_eq.
    + apply Hk. intros st' Hst' Hm. destruct (H2 st' Hst' Hm) as (Ee' & _ & Hdate). rewrite Est in Hst'. simplify_eq. unfold ownCopy in Eo. cbn [hETag head_of_object hModified] in Eo.
      rewrite (bool_decide_false (_ = "")), bool_decide_true in Eo by auto. cbn in Eo. destruct Hdate as [->| ->]; [done|]. lia.
Qed.

Definition sound_source (w : world) : Prop := forall so, wSrc w !! key = Some so -> wf_object (sdObj so) /\ (oMulti (sdObj so) = false -> exists b, oParts (sdObj so) = [b]).
Lemma stable_sound : stable sound_source.
Proof. intros c w w' Hc H so. destruct (client_key c w w' Hc) as [(-> & _)|[(-> & _)|(-> & _)]]; [apply H|done|apply H]. Qed.

Definition copy_safe (line : LedgerEntry) (w : world) : Prop := key ∈ wDoubt w \/ (leResult line <> "error" -> consistent w).

Lemma wp_copyOne j w : (forall o, etag o <> "") -> sound_source w -> consistent w -> wp (copyOne j key) copy_safe w.
Proof.
  intros Het Hsrc Hc. unfold copyOne. assert (forall (l : LedgerEntry) w, key ∈ wDoubt w -> copy_safe l w) as Hd by (by left).
  apply (mwp_call _ _ _ key (fun w => sound_source w /\ consistent w)); [set_solver|done|apply stable_and; [apply stable_sound|apply stable_consistent]|done|]. clear w Hsrc Hc. intros w [Hsrc Hc].
  cbn [serve fst snd]. destruct (wSrc w !! key) as [so|] eqn:Eso; (split; [done|]); [|by right]. destruct (Hsrc so Eso) as [Hwf Hsingle]. assert (at_key so w) as Hat by (split; [by left|done]).
  apply mwp_bind. apply (sourceParts_ok so); [done..|intros r w1 H; by apply (wp_doubted _ _ key)|done|]. clear w Hsrc Hc Eso Hat. intros [parts|e] w Hat Hparts; [|by right].
  apply (mwp_call _ _ _ key (at_key so)); [set_solver|done|apply stable_at|done|]. clear w Hat. intros w Hat. cbn [serve fst snd]. destruct (wDst w !! key); (split; [done|]); [right; intros _; apply Hat|].
  apply mwp_bind. eapply mwp_mono; [|instantiate (1 := copied so); destruct (Z.ltb_spec 1 parts); [apply wp_copyMultipart; [done| |done]|by apply wp_copySingle]]; [|destruct Hparts; [done|lia]].
  clear w Hat Hparts. intros [[e d]|e] w [Hw|[Hf Hw]]; [by apply (wp_doubted _ _ key)| |by left|right; intros _; exact Hw].
  apply (mwp_call _ _ _ key (fun w => frozen so w /\ own so e d w)); [set_solver|done|apply stable_and; [apply stable_frozen|apply stable_own]|done|]. clear w Hf Hw. intros w [Hf Hown].
  cbn [serve fst snd]. destruct Hf as [Eso|Eso]; rewrite Eso; (split; [done|]).
  - right. intros _ st Hst Hm. left. exists so. split; [done|]. destruct (Hown st Hst Hm) as (_ & E & _). done.
  - apply (wp_withdraw _ _ _ so); [done..|]. intros [[]|e'] w1 H1; by right.
Qed.
End key.

(** ** What the mover asks for *)

Fixpoint every {A} (P : s3req -> Prop) (m : io A) : Prop := match m with Return _ => True | Ask r k => P r /\ forall rep, every P (k rep) end.

Lemma every_bind {A B} P (m : io A) (k : A -> io B) : every P m -> (forall a, every P (k a)) -> every P (m ≫= k).
Proof. intros Hm Hk. induction m as [a|r f IH]; [apply Hk|]. destruct Hm as [Hr Hf]. split; [done|]. intros rep. by apply IH. Qed.
Lemma every_ask P r : P r -> every P (ask r).
Proof. by split. Qed.
Lemma every_attempt P n r : P r -> every P (attempt n r).
Proof.
  intros Hr. induction n as [|n IH]; cbn [attempt]; (apply every_bind; [by apply every_ask|]); intros []; done || exact IH.
Qed.
Lemma every_call P r : P r -> every P (call r).
Proof. apply every_attempt. Qed.
Lemma every_steps {A} P (m : io A) cs w m' w' : every P m -> steps cs (m, w) = Some (m', w') -> every P m'.
Proof.
  revert m w. induction cs as [|c cs IH]; intros m w Hm Hs; cbn in Hs; [by simplify_eq|]. destruct c as [c|f]; cbn in Hs.
  - destruct (client c w); cbn in Hs; [|done]. by eapply IH.
  - destruct m as [a|r k]; [done|]. destruct (answer_as f r w) as [rep w1]. cbn in Hs. refine (IH _ _ _ Hs). apply Hm.
Qed.

(** A request about one key that never replaces what it was told not to. *)
Definition polite (j : job) (key : string) (r : s3req) : Prop :=
  match r with
  | PutDst k _ _ _ b | CompleteDst k _ _ b => k = key /\ b = jConditional j
  | DeleteDst k ifMatch => k = key /\ (jCondDelete j = true -> is_Some ifMatch)
  | HeadSrc k _ | GetSrc k _ | HeadDst k | CreateDst k _ | UploadDst k _ _ _ | AbortDst k _ => k = key
  | r => local r = true
  end.

Ltac every_step := repeat first [done | apply every_call; cbn; by eauto | apply every_ask; cbn; by eauto | apply every_bind; [|intros ?] | progress case_match].

Lemma polite_parts j key id todo n off acc : every (polite j key) (copy_parts key id todo n off acc).
Proof. revert n off acc. induction todo as [|todo IH]; intros n off acc; cbn [copy_parts]; [done|]. unfold abort. every_step; apply IH. Qed.
Lemma polite_copyOne j key : every (polite j key) (copyOne j key).
Proof.
  unfold copyOne, sourceParts, copyMultipart, copySingle, withdraw, guard, abort. every_step; try apply polite_parts. all: apply every_ask; split; [done|congruence].
Qed.

Lemma commit_dst k o b w key st : wDst w !! key = Some st -> (b = true -> honoursNone = true) -> b = true -> wDst (snd (commit k o b w)) !! key = Some st.
Proof.
  intros Hst Hh ->. unfold commit. rewrite (Hh eq_refl). cbn [andb]. case_bool_decide as E; [done|]. cbn. rewrite lookup_insert_ne; [done|]. intros ->. apply E. by exists st.
Qed.

(** A polite request, where the target honours its conditions, leaves an object of the target alone, unless
    it is the delete of an object with the ETag it names. *)
Lemma polite_keeps j key f r w k st : polite j key r -> jConditional j = true -> honoursNone = true -> jCondDelete j = true -> honoursMatch = true ->
  wDst w !! k = Some st -> wDst (snd (answer_as f r w)) !! k = Some st \/ k = key /\ r = DeleteDst key (Some (etag (sdObj st))).
Proof.
  intros Hp Hc Hn Hcd Hm Hst. assert (wDst (snd (serve r w)) !! k = Some st \/ k = key /\ r = DeleteDst key (Some (etag (sdObj st)))) as H.
  { destruct r as [? []| | | |? ? ? ? b| | |? ? ? b| |k' im| | | | | | | | |]; cbn in Hp |- *; try (by left); try (by left; repeat case_match).
    - left. destruct (_ =? _)%Z; [|done]. apply commit_dst; [done|by rewrite Hn|by rewrite (proj2 Hp)].
    - left. case_match; [|done]. case_match. destruct (commit _ _ _ _) as [rep w1] eqn:Ecm. cbn.
      match type of Ecm with commit ?k1 ?o ?b1 ?w0 = _ => pose proof (commit_dst k1 o b1 w0 k st Hst) as Hcd1; rewrite Ecm in Hcd1; cbn in Hcd1 end.
      destruct rep; apply Hcd1; rewrite ?Hn, ?(proj2 Hp); done.
    - destruct Hp as [-> Him]. destruct (Him Hcd) as [e ->]. rewrite Hm. destruct (wDst w !! key) as [st'|] eqn:E; [|by left]. case_bool_decide as Ee; [|by left]. cbn.
      destruct (decide (k = key)) as [->|Hk]; [|left; by rewrite lookup_delete_ne]. right. rewrite Hst in E. by simplify_eq. }
  destruct f; cbn; [exact H|by left|exact H|by left].
Qed.

(** ** A whole pass *)

(** The target has the key, or the source no longer does. *)
Definition present (key : string) (w : world) : Prop := settled_src key w /\ (wSrc w !! key = None \/ is_Some (wDst w !! key)).

Lemma stable_present key : keep key = true -> stable (present key).
Proof.
  intros Hk c w w' Hc [Hs Hp]. split; [by eapply stable_settled|]. destruct (client_key key Hk c w w' Hc) as [(-> & _ & [-> |(o & n & ->)])|[(-> & _)|(-> & _ & Hpd)]]; [done|by right|by left|left; by apply Hs].
Qed.

(** No request changes the source, or the deletes that are on their way. *)
Lemma commit_frame key o b w : wSrc (snd (commit key o b w)) = wSrc w /\ wPending (snd (commit key o b w)) = wPending w /\ wCursor (snd (commit key o b w)) = wCursor w.
Proof. unfold commit. by destruct (_ && _). Qed.
Lemma serve_frame r w : wSrc (snd (serve r w)) = wSrc w /\ wPending (snd (serve r w)) = wPending w.
Proof.
  destruct r as [? []| | | | | | |k id parts b| |k [e|]| | | | | | | | |]; cbn; repeat case_match; try done; try (split; apply commit_frame).
  all: match goal with H : commit ?k ?o ?b ?w = (_, _) |- _ => pose proof (commit_frame k o b w) as E; rewrite H in E; destruct E as (? & ? & ?); done end.
Qed.
Lemma answer_frame f r w : wSrc (snd (answer_as f r w)) = wSrc w /\ wPending (snd (answer_as f r w)) = wPending w.
Proof. destruct f; cbn; by try apply serve_frame. Qed.
Lemma answer_settled key f r w : settled_src key w -> settled_src key (snd (answer_as f r w)).
Proof. unfold settled_src, pending. by destruct (answer_frame f r w) as [-> ->]. Qed.

(** A polite request is about its own key only. *)
Lemma polite_frame j key f r w k : polite j key r -> k <> key -> wDst (snd (answer_as f r w)) !! k = wDst w !! k.
Proof.
  intros Hp Hne. assert (wDst (snd (serve r w)) !! k = wDst w !! k) as H.
  { assert (forall k' o b, k' = key -> wDst (snd (commit k' o b w)) !! k = wDst w !! k) as Hcm by (intros k' o b ->; unfold commit; destruct (_ && _); cbn; [done|by rewrite lookup_insert_ne]).
    destruct r as [? []| | | |k' m sz body b| | |k' id parts b| |k' [e|]| | | | | | | | |]; cbn in Hp |- *; try done; try (repeat case_match; done).
    - destruct (_ =? _)%Z; [apply Hcm, Hp|done].
    - case_match; [|done]. case_match. destruct (commit _ _ _ _) as [rep w1] eqn:Ecm. cbn.
      match type of Ecm with commit ?k1 ?o ?b1 ?w0 = _ => pose proof (Hcm k1 o b1 (proj1 Hp)) as Hcd1; rewrite Ecm in Hcd1; cbn in Hcd1 end. by destruct rep.
    - destruct Hp as [-> _]. destruct honoursMatch; [destruct (wDst w !! key); [case_bool_decide|]|]; cbn; try done; by rewrite lookup_delete_ne.
    - destruct Hp as [-> _]. cbn. by rewrite lookup_delete_ne. }
  destruct f; cbn; done || exact H.
Qed.

(** A program whose requests keep [R], which clients keep, keeps it. *)
Lemma wp_frame {A} (P : s3req -> Prop) (m : io A) Q (R : world -> Prop) w : stable R -> (forall f r w, P r -> R w -> R (snd (answer_as f r w))) -> every P m -> R w -> wp m Q w -> wp m (fun a w => Q a w /\ R w) w.
Proof.
  intros HR Ha. revert w. induction m as [a|r k IH]; intros w He Hw Hwp; [by split|]. destruct He as [Hr Hk]. intros w1 Hrel f. apply IH; [done| |by apply Hwp].
  apply Ha; [done|]. exact (stable_rely _ _ _ HR Hrel Hw).
Qed.

Lemma serve_answers r w : fst (serve r w) <> RLost.
Proof.
  destruct r as [? []| | | |k m sz body b| | |k id parts b| |k [e|]| | | | | | | | |]; cbn; unfold commit; repeat case_match; simplify_eq/=; try done.
Qed.

(** A call, whatever becomes of its attempts. *)
Lemma wp_call_any {A} r (k : reply -> io A) (Q : A -> world -> Prop) (P : world -> Prop) w : stable P -> (forall f w, P w -> P (snd (answer_as f r w))) -> P w ->
  (forall w1, P w1 -> wp (k (fst (serve r w1))) Q (snd (serve r w1))) -> (forall w1, P w1 -> wp (k RFail) Q w1) -> wp (call r ≫= k) Q w.
Proof.
  intros HP Ha Hw Hs Hf. apply mwp_bind. unfold call. generalize 2%nat. intros n. revert w Hw.
  induction n as [|n IH]; intros w Hw; cbn [attempt]; apply mwp_bind; intros w1 Hr f; pose proof (stable_rely _ _ _ HP Hr Hw) as Hw1; pose proof (Ha f w1 Hw1) as Hw2; destruct f; cbn [answer_as fst snd wp] in *.
  all: try (by apply Hf); try (by apply IH).
  all: specialize (Hs w1 Hw1); pose proof (serve_answers r w1) as Hl; destruct (fst (serve r w1)); try exact Hs; by destruct Hl.
Qed.

Section arrival.
Context (key : string) (Hkeep : keep key = true).

Definition adds (r : s3req) : bool := match r with DeleteDst _ _ => false | _ => true end.
Lemma answer_adds f r w : adds r = true -> is_Some (wDst w !! key) -> is_Some (wDst (snd (answer_as f r w)) !! key).
Proof.
  intros Hr Hd. assert (is_Some (wDst (snd (serve r w)) !! key)) as H.
  { assert (forall k o b, is_Some (wDst (snd (commit k o b w)) !! key)) as Hcm by (intros k o b; unfold commit; destruct (_ && _); cbn; [done|]; destruct (decide (key = k)) as [->|]; [by rewrite lookup_insert_eq|by rewrite lookup_insert_ne]).
    destruct r as [? []| | | |k' m sz body b| | |k' id parts b| |k' [e|]| | | | | | | | |]; cbn; try done; try (repeat case_match; done).
    case_match; [|done]. case_match. destruct (commit _ _ _ _) as [rep w1] eqn:Ecm. cbn.
      match type of Ecm with commit ?k1 ?o ?b1 ?w0 = _ => pose proof (Hcm k1 o b1) as Hcd1; rewrite Ecm in Hcd1; cbn in Hcd1 end. by destruct rep. }
  destruct f; cbn; done || exact H.
Qed.

(** [present] when the outcome says so. *)
Definition arrived (b : bool) (w : world) : Prop := settled_src key w /\ (b = true -> present key w).
Lemma stable_arrived b : stable (arrived b).
Proof. apply stable_and; [by apply stable_settled|]. destruct b; intros c w w' Hc H; [intros _; exact (stable_present key Hkeep c w w' Hc (H eq_refl))|done]. Qed.
Lemma answer_arrived f r b w : adds r = true -> arrived b w -> arrived b (snd (answer_as f r w)).
Proof.
  intros Hr [Hs Hp]. split; [by apply answer_settled|]. intros Hb. destruct (Hp Hb) as [_ H]. split; [by apply answer_settled|]. destruct (answer_frame f r w) as [-> _]. destruct H as [H|H]; [by left|right; by apply answer_adds].
Qed.
Lemma arrived_weaken b w : arrived true w -> arrived b w.
Proof. intros [H1 H2]. split; auto. Qed.
Lemma arrived_gone b w : settled_src key w -> wSrc w !! key = None -> arrived b w.
Proof. intros H1 H2. split; [done|]. intros _. split; auto. Qed.
Lemma arrived_there b w : settled_src key w -> is_Some (wDst w !! key) -> arrived b w.
Proof. intros H1 H2. split; [done|]. intros _. split; auto. Qed.
Lemma arrived_none w : settled_src key w -> arrived false w.
Proof. intros H. by split. Qed.

(** Which errors say where the key is. *)
Definition tells (e : moveErr) : bool := negb (bool_decide (e = EOther)).
Definition telling {A} (r : result moveErr A) : bool := match r with Err e => tells e | Ok _ => true end.
Definition told {A} (r : result moveErr A) (w : world) : Prop := arrived (telling r) w.

Lemma wp_any {A} r (k : reply -> io A) Q b w : adds r = true -> arrived b w -> (forall w1, arrived b w1 -> wp (k (fst (serve r w1))) Q (snd (serve r w1))) -> (forall w1, arrived b w1 -> wp (k RFail) Q w1) -> wp (call r ≫= k) Q w.
Proof. intros Hr Hw. apply wp_call_any; [apply stable_arrived|intros f w1; by apply answer_arrived|done]. Qed.

Lemma told_abort {A} id e w : told (Err e : result moveErr A) w -> wp (abort key id e) (told (A := A)) w.
Proof. intros Hw. unfold abort. eapply wp_any; [done|exact Hw| |]; intros w1 H1; exact H1. Qed.

Lemma told_put j head w : settled_src key w -> wp (copySingle j key head) told w.
Proof.
  intros Hw. unfold copySingle. apply (wp_any _ _ _ false); [done|by apply arrived_none| |intros w1 H1; exact H1]. clear w Hw. intros w [Hw _]. cbn [serve fst snd].
  destruct (wSrc w !! key) as [so|] eqn:E; [|by apply arrived_gone]. cbn [range_of].
  assert (forall w body, settled_src key w -> wp (rep ← call (PutDst key (put_meta (hMeta head)) (hSize head) body (jConditional j)); mret (put_answer rep)) told w) as Hput.
  { clear w so Hw E. intros w body Hw. apply (wp_any _ _ _ false); [done|by apply arrived_none| |intros w1 H1; exact H1]. clear w Hw. intros w [Hw _]. cbn [serve]. destruct (_ =? _)%Z; [|by apply arrived_none].
    unfold commit. destruct (_ && _) eqn:Eb; cbn.
    - apply arrived_there; [done|]. apply andb_true_iff in Eb as [_ Eb]. by apply bool_decide_eq_true in Eb.
    - apply arrived_there; [done|]. cbn. by rewrite lookup_insert_eq. }
  destruct (_ <=? _)%Z; [by apply Hput|]. apply (wp_local _ _ _ (settled_src key)); [done|by apply stable_settled| |done|].
  - intros w1 w2 (E1 & _ & _ & E4). unfold settled_src, pending. by rewrite E1, E4.
  - intros rep w1 H1. destruct rep; try (by apply arrived_none). by apply Hput.
Qed.

Definition told_err {A} (r : result moveErr A) (w : world) : Prop := match r with Ok _ => settled_src key w | Err e => told (Err e : result moveErr A) w end.

Lemma told_err_abort {A} id e w : told (Err e : result moveErr A) w -> wp (abort key id e) (told_err (A := A)) w.
Proof. intros Hw. unfold abort. eapply wp_any; [done|exact Hw| |]; intros w1 H1; exact H1. Qed.

Lemma told_parts id todo n off acc w : settled_src key w -> wp (copy_parts key id todo n off acc) told_err w.
Proof.
  revert n off acc w. induction todo as [|todo IH]; intros n off acc w Hw; cbn [copy_parts]; [done|].
  assert (forall e w, arrived (tells e) w -> wp (abort key id e) (told_err (A := list (Z * string))) w) as Hab by (intros e w1; exact (told_err_abort id e w1)).
  apply (wp_any _ _ _ false); [done|by apply arrived_none| |intros w1 [H1 _]; by apply Hab, arrived_none]. clear w Hw. intros w [Hw _]. cbn [serve fst snd].
  destruct (wSrc w !! key) as [so|] eqn:E; [|by apply Hab, arrived_gone]. destruct (if (n <? 1)%Z then None else _); [|by apply Hab, arrived_none].
  apply (wp_any _ _ _ false); [done|by apply arrived_none| |intros w1 [H1 _]; by apply Hab, arrived_none]. clear w Hw E. intros w [Hw _]. cbn [serve fst snd].
  destruct (wSrc w !! key) as [so2|] eqn:E; [|by apply Hab, arrived_gone]. destruct (range_of _ _); [|by apply Hab, arrived_none].
  apply (wp_any _ _ _ false); [done|by apply arrived_none| |intros w1 [H1 _]; by apply Hab, arrived_none]. clear w Hw E. intros w [Hw _]. cbn [serve fst snd].
  destruct (wUps w !! id); [|by apply Hab, arrived_none]. by apply IH.
Qed.

Lemma told_multipart j head parts w : settled_src key w -> wp (copyMultipart j key head parts) told w.
Proof.
  intros Hw. unfold copyMultipart. apply (wp_any _ _ _ false); [done|by apply arrived_none| |intros w1 H1; exact H1]. clear w Hw. intros w [Hw _]. cbn [serve fst snd]. generalize (fresh (dom (wUps w))) as id. intros id.
  apply mwp_bind. eapply mwp_mono; [|apply told_parts; exact Hw]. clear w Hw. intros [completed|e] w Hw; [|exact Hw]. cbn in Hw.
  unfold guard. apply mwp_bind.
  assert (forall w id, settled_src key w -> wp (rep ← call (CompleteDst key id completed (jConditional j)); match rep with RPut etag date => mret (Ok (etag, date)) | rep => abort key id (err_of rep) end) told w) as Hcm.
  { clear w Hw id. intros w id Hw. apply (wp_any _ _ _ false); [done|by apply arrived_none| |intros w1 [H1 _]; by apply told_abort, arrived_none]. clear w Hw. intros w [Hw _]. cbn [serve].
    destruct (wUps w !! id ≫= _) as [[up bs]|]; [|by apply told_abort, arrived_none]. unfold commit. destruct (_ && _) eqn:Eb; cbn [fst snd].
    - apply told_abort, arrived_there; [done|]. apply andb_true_iff in Eb as [_ Eb]. by apply bool_decide_eq_true in Eb.
    - apply arrived_there; [done|]. cbn. by rewrite lookup_insert_eq. }
  destruct (jConditional j) eqn:Ej; [by apply Hcm|]. apply (wp_any _ _ _ false); [done|by apply arrived_none| |intros w1 [H1 _]; by apply told_abort, arrived_none]. clear w Hw. intros w [Hw _]. cbn [serve fst snd].
  destruct (wDst w !! key) eqn:E; [apply told_abort, arrived_there; [done|by rewrite E]|]. by apply Hcm.
Qed.

(** A key gone from the source stays gone, whatever the mover asks. *)
Lemma wp_gone {A} (m : io A) w : settled_src key w -> wSrc w !! key = None -> wp m (fun _ w => arrived true w) w.
Proof.
  revert w. induction m as [a|r k IH]; intros w Hs Hw; [by apply arrived_gone|]. intros w1 Hr f. assert (settled_src key w1 /\ wSrc w1 !! key = None) as [Hs1 Hw1].
  { refine (stable_rely (fun w => settled_src key w /\ wSrc w !! key = None) _ _ _ Hr (conj Hs Hw)). apply stable_and; [by apply stable_settled|].
    intros c w2 w3 Hc H. destruct (client_key key Hkeep c w2 w3 Hc) as [(-> & _)|[(-> & _)|(-> & _)]]; done. }
  apply IH; [by apply answer_settled|]. by destruct (answer_frame f r w1) as [-> _].
Qed.

(** Whatever becomes of its requests, a copy that does not fail leaves the key on the target, or found it
    gone from the source. *)
Lemma wp_copyOne_present j w : settled_src key w -> wp (copyOne j key) (fun line w => arrived (negb (bool_decide (leResult line = "error"))) w) w.
Proof.
  intros Hw. unfold copyOne. apply (wp_any _ _ _ false); [done|by apply arrived_none| |intros w1 [H1 _]; by apply arrived_none]. clear w Hw. intros w [Hw _]. cbn [serve fst snd].
  destruct (wSrc w !! key) as [so|] eqn:E; [|by apply arrived_gone]. cbv zeta. apply mwp_bind. eapply mwp_mono; [|instantiate (1 := fun r w => settled_src key w)].
  2: { unfold sourceParts. destruct (_ <? _)%Z; [done|]. destruct (etag_parts _); [|done]. apply (wp_any _ _ _ false); [done|by apply arrived_none|by intros w1 [H1 _]|by intros w1 [H1 _]]. }
  generalize (head_of_object so (content (sdObj so)) counts). clear w so Hw E. intros head [parts|e] w Hw; [|by apply arrived_none].
  apply (wp_any _ _ _ false); [done|by apply arrived_none| |intros w1 [H1 _]; by apply arrived_none]. clear w Hw. intros w [Hw _]. cbn [serve fst snd].
  destruct (wDst w !! key) eqn:E; [apply arrived_there; [done|by rewrite E]|]. apply mwp_bind. eapply mwp_mono; [|instantiate (1 := told); destruct (_ <? _)%Z; [by apply told_multipart|by apply told_put]].
  clear w Hw E. intros [[e d]|e] w Hw; [|destruct e; cbn in *; exact Hw].
  assert (forall w, arrived true w -> forall l, arrived (negb (bool_decide (leResult l = "error"))) w) as Hl by (intros w0 H0 l; by apply arrived_weaken).
  apply (wp_any _ _ _ true); [done|exact Hw| |intros w1 H1; by apply Hl]. clear w Hw. intros w Hw. cbn [serve fst snd]. destruct (wSrc w !! key) as [so|] eqn:E; [by apply Hl|].
  apply mwp_bind. eapply mwp_mono; [|instantiate (1 := fun _ w => arrived true w)]; [intros r w1 H1; by apply Hl|].
  apply wp_gone; [exact (proj1 Hw)|done].
Qed.
End arrival.

(** *** The listing *)

Lemma list_keys_in m start prefix k : k ∈ list_keys m start prefix <-> is_Some (m !! k) /\ HasPrefix k prefix = true /\ (start = "" \/ ~ String.le k start).
Proof.
  unfold list_keys. rewrite list_elem_of_In, filter_In, <- list_elem_of_In, elem_of_msortedKeys, andb_true_iff, orb_true_iff, negb_true_iff, bool_decide_eq_true, bool_decide_eq_false. done.
Qed.

Lemma list_keys_order m start prefix : StronglySorted (fun a b => String.le a b /\ a <> b) (list_keys m start prefix).
Proof.
  unfold list_keys, msortedKeys, sortedKeys. cbn [from_option].
  assert (StronglySorted String.le (merge_sort String.le (map_to_list m).*1)) as Hs by (apply Sorted_StronglySorted; [apply _|apply Sorted_merge_sort; apply _]).
  assert (NoDup (merge_sort String.le (map_to_list m).*1)) as Hn by (rewrite merge_sort_Permutation; apply NoDup_fst_map_to_list).
  revert Hs Hn. generalize (merge_sort String.le (map_to_list m).*1). intros l. induction l as [|k l IH]; intros Hs Hn; cbn [List.filter]; [constructor|].
  apply StronglySorted_inv in Hs as [Hs Hk]. apply NoDup_cons in Hn as [Hk' Hn]. destruct (_ && _); [|by apply IH]. constructor; [by apply IH|].
  apply Forall_forall. intros x Hx. apply list_elem_of_In, filter_In in Hx as [Hx _]. apply list_elem_of_In in Hx. split; [by eapply Forall_forall in Hk|]. by intros ->.
Qed.

Lemma list_keys_nodup m start prefix : NoDup (list_keys m start prefix).
Proof.
  pose proof (list_keys_order m start prefix) as H. revert H. generalize (list_keys m start prefix). intros l. induction l as [|k l IH]; intros H; [constructor|]. apply StronglySorted_inv in H as [H1 H2].
  apply NoDup_cons. split; [|by apply IH]. intros Hk. by apply (proj1 (Forall_forall _ _) H2) in Hk as [_ ?].
Qed.

(** A key of a listing is on its first page, or after its last key. *)
Lemma page_covers m start prefix k : (0 < pageSize)%nat -> k ∈ list_keys m start prefix ->
  k ∈ take pageSize (list_keys m start prefix) \/ (pageSize < length (list_keys m start prefix))%nat /\ ~ String.le k (default "" (last (take pageSize (list_keys m start prefix)))).
Proof.
  intros Hp Hk. pose proof (list_keys_order m start prefix) as Hs. revert Hs Hk. generalize (list_keys m start prefix). intros l Hs Hk.
  rewrite <- (take_drop pageSize l) in Hk. apply elem_of_app in Hk as [Hk|Hk]; [by left|right]. assert (drop pageSize l <> []) as Hd by (by intros E; rewrite E in Hk; apply elem_of_nil in Hk).
  assert (pageSize < length l)%nat as Hl by (destruct (Nat.lt_ge_cases pageSize (length l)); [done|]; by rewrite drop_ge in Hd by lia). split; [done|].
  destruct (last (take pageSize l)) as [x|] eqn:Ex.
  - apply last_Some in Ex as [l' Ex]. assert (x ∈ take pageSize l) as Hx by (rewrite Ex; apply elem_of_app; right; by apply list_elem_of_singleton).
    rewrite <- (take_drop pageSize l) in Hs. destruct (StronglySorted_app_1_elem_of _ _ _ _ _ Hs Hx Hk) as [H1 H2]. cbn. intros H3. apply H2. by apply (anti_symm String.le).
  - apply last_None in Ex. apply (f_equal length) in Ex. rewrite length_take in Ex. cbn in Ex. lia.
Qed.

(** *** The pass *)

Section pass.
Context (j : job) (Hj : jKeep j = keep) (paths : Paths) (report : stats -> string -> bool -> Progress).

(** No delete is between its legs with the source's object still there; the keys of [X] are on the target. *)
Definition moved (X : string -> Prop) (w : world) : Prop := forall k, keep k = true -> settled_src k w /\ (X k -> present k w).
Lemma stable_moved X : stable (moved X).
Proof. intros c w w' Hc H k Hk. destruct (H k Hk) as [H1 H2]. split; [by eapply stable_settled|]. intros Hx. exact (stable_present k Hk c w w' Hc (H2 Hx)). Qed.
Lemma same_moved X w w' : same_buckets w w' -> moved X w -> moved X w'.
Proof. intros (E1 & E2 & _ & E4) H k Hk. specialize (H k Hk). unfold present, settled_src, pending in *. by rewrite E1, E2, E4. Qed.

Lemma answer_moved X key f r w : polite j key r -> moved (fun k => X k /\ k <> key) w -> moved (fun k => X k /\ k <> key) (snd (answer_as f r w)).
Proof.
  intros Hp H k Hk. destruct (H k Hk) as [H1 H2]. split; [by apply answer_settled|]. intros [Hx Hne]. destruct (H2 (conj Hx Hne)) as [H3 H4]. split; [by apply answer_settled|].
  destruct (answer_frame f r w) as [-> _]. by rewrite (polite_frame j key f r w k Hp Hne).
Qed.

Lemma wp_one X key w : keep key = true -> moved X w -> wp (copyOne j key) (fun line w => moved (fun k => X k \/ k = key /\ leResult line <> "error") w \/ leResult line = "error" /\ moved (fun _ => False) w) w.
Proof.
  intros Hk Hw. eapply mwp_mono; [|apply (wp_frame (polite j key) _ (fun line w => arrived key (negb (bool_decide (leResult line = "error"))) w) (moved (fun k => X k /\ k <> key))); [apply stable_moved|intros f r w1; apply answer_moved|apply polite_copyOne| |apply (wp_copyOne_present key Hk); exact (proj1 (Hw key Hk))]].
  - intros line w1 [[Hs Ha] Hm]. cbn in *. destruct (decide (leResult line = "error")) as [E|E].
    + right. split; [done|]. intros k Hk'. split; [exact (proj1 (Hm k Hk'))|done].
    + left. rewrite bool_decide_false in Ha by done. specialize (Ha eq_refl). intros k Hk'. split; [exact (proj1 (Hm k Hk'))|]. intros Hx. destruct (decide (k = key)) as [->|Hne]; [done|].
      apply Hm; [done|]. split; [|done]. by destruct Hx as [?|[? _]].
  - intros k Hk'. destruct (Hw k Hk') as [H1 H2]. split; [done|]. intros [Hx _]. by apply H2.
Qed.

(** How far a pass got: what it copied or failed, and the keys it has dealt with. *)
Definition tallied (X : string -> Prop) (s : stats) (s' : stats) (w : world) : Prop :=
  moved (fun _ => False) w /\ (stFailed s <= stFailed s')%Z /\ (stFailed s' = stFailed s -> moved X w).

Lemma count_failed s line : (stFailed s <= stFailed (count s line))%Z /\ (stFailed (count s line) = stFailed s -> leResult line <> "error").
Proof.
  unfold count. repeat case_bool_decide; cbn; (split; [lia|]); intros ?; try congruence. lia.
Qed.

Lemma moved_weaken (X Y : string -> Prop) w : (forall k, Y k -> X k) -> moved X w -> moved Y w.
Proof. intros HXY H k Hk. destruct (H k Hk) as [H1 H2]. split; [done|]. intros Hy. by apply H2, HXY. Qed.

Lemma wp_move_keys X keys s w : moved X w -> wp (move_keys j false report keys s) (tallied (fun k => X k \/ k ∈ keys /\ keep k = true) s) w.
Proof.
  revert X s w. induction keys as [|key keys IH]; intros X s w Hw; cbn [move_keys].
  { split_and!; [by eapply moved_weaken|lia|]. intros _. eapply moved_weaken; [|exact Hw]. intros k [?|[Hn _]]; [done|]. by apply elem_of_nil in Hn. }
  rewrite Hj. destruct (keep key) eqn:Ek; cbn [negb].
  2: { eapply mwp_mono; [|by apply (IH X)]. intros s' w1 (H1 & H2 & H3). split_and!; [done|done|]. intros E. eapply moved_weaken; [|by apply H3]. intros k [?|[[->|?]%elem_of_cons Hk]]; [by left|congruence|by right]. }
  apply mwp_bind. eapply mwp_mono; [|by apply (wp_one X key)]. intros line w1 Hw1.
  set (Y := fun k => leResult line <> "error" /\ (X k \/ k = key)). assert (moved Y w1) as HY.
  { destruct Hw1 as [Hm|[E Hm]]; eapply moved_weaken; try exact Hm; intros k [H1 H2]; [destruct H2; auto|done]. }
  clear Hw1. destruct (count_failed s line) as [Hc1 Hc2].
  apply (wp_local _ _ _ (moved Y)); [done|apply stable_moved|apply same_moved|exact HY|]. clear w1 HY. intros _ w1 HY.
  apply (wp_local _ _ _ (moved Y)); [done|apply stable_moved|apply same_moved|exact HY|]. clear w1 HY. intros _ w1 HY.
  assert (forall w2, moved Y w2 -> wp (move_keys j false report keys (count s line)) (tallied (fun k => X k \/ k ∈ key :: keys /\ keep k = true) s) w2) as Hnext.
  { intros w2 H2. eapply mwp_mono; [|by apply (IH Y)]. intros s' w3 (H3 & H4 & H5). split_and!; [done|lia|]. intros E. assert (stFailed s' = stFailed (count s line)) as E' by lia. eapply moved_weaken; [|by apply H5].
    intros k Hk. assert (leResult line <> "error") as He by (apply Hc2; lia). destruct Hk as [?|[[->|?]%elem_of_cons ?]]; [left; split; auto|left; split; auto|right; auto]. }
  destruct (_ =? 0)%Z; [|by apply Hnext]. apply (wp_local _ _ _ (moved Y)); [done|apply stable_moved|apply same_moved|exact HY|]. intros _ w2. apply Hnext.
Qed.

(** The moving keys of the source are dealt with, or after [start]. *)
Definition covered (X : string -> Prop) (start : string) (w : world) : Prop :=
  forall k, keep k = true -> HasPrefix k (jPrefix j) = true -> is_Some (wSrc w !! k) -> X k \/ start = "" \/ ~ String.le k start.
(** The same, when there is nothing after. *)
Definition covered_all (X : string -> Prop) (w : world) : Prop := forall k, keep k = true -> HasPrefix k (jPrefix j) = true -> is_Some (wSrc w !! k) -> X k.

Lemma stable_source (P : string -> Prop) : stable (fun w => forall k, keep k = true -> HasPrefix k (jPrefix j) = true -> is_Some (wSrc w !! k) -> P k).
Proof.
  intros c w w' Hc H k Hk Hp Hs. apply H; [done..|]. destruct (client_key k Hk c w w' Hc) as [(<- & _)|[(E & _)|(<- & _)]]; [done| |done]. rewrite E in Hs. by destruct Hs.
Qed.
Lemma every_true {A} (m : io A) : every (fun _ => True) m.
Proof. induction m; by split. Qed.

Lemma wp_source {A} (P : string -> Prop) (m : io A) Q w : (forall k, keep k = true -> HasPrefix k (jPrefix j) = true -> is_Some (wSrc w !! k) -> P k) -> wp m Q w ->
  wp m (fun a w => Q a w /\ forall k, keep k = true -> HasPrefix k (jPrefix j) = true -> is_Some (wSrc w !! k) -> P k) w.
Proof. intros H Hm. apply (wp_frame (fun _ => True)); [apply stable_source| |apply every_true|done|done]. intros f r w1 _ H1. by destruct (answer_frame f r w1) as [-> _]. Qed.

Definition pass_end (r : option (stats * option moveErr)) (w : world) : Prop :=
  match r with Some (s, None) => stFailed s = 0%Z -> moved (fun k => HasPrefix k (jPrefix j) = true) w | _ => True end.

Lemma wp_move_pages fuel token after s X w : (0 < pageSize)%nat -> (0 <= stFailed s)%Z -> moved (fun _ => False) w ->
  (stFailed s = 0%Z -> moved X w) -> covered X (if bool_decide (token = "") then after else token) w -> wp (move_pages j false report fuel token after s) pass_end w.
Proof.
  intros Hps. revert token after s X w. induction fuel as [|fuel IH]; intros token after s X w Hs0 Hm HX Hc; cbn [move_pages]; [done|].
  set (start := if bool_decide (token = "") then after else token) in *.
  apply (wp_call_any _ _ _ (fun w => moved (fun _ => False) w /\ (stFailed s = 0%Z -> moved X w) /\ covered X start w)).
  { apply stable_and; [apply stable_moved|]. apply stable_and; [|apply stable_source]. intros c w1 w2 Hcl H E. exact (stable_moved X c w1 w2 Hcl (H E)). }
  { intros f w1 (H1 & H2 & H3). destruct f; cbn; by split_and!. }
  { by split_and!. }
  2: done. clear w Hm HX Hc. intros w (Hm & HX & Hc). cbn [serve fst snd]. fold start. set (ks := list_keys (wSrc w) start (jPrefix j)).
  set (X' := fun k => stFailed s = 0%Z /\ X k). assert (moved X' w) as HX' by (intros k Hk; split; [exact (proj1 (Hm k Hk))|]; intros [E Hx]; exact (proj2 (HX E k Hk) Hx)).
  set (next := default "" (last (take pageSize ks))).
  assert (forall k, keep k = true -> HasPrefix k (jPrefix j) = true -> is_Some (wSrc w !! k) -> (X k \/ k ∈ take pageSize ks) \/ (pageSize < length ks)%nat /\ ~ String.le k next) as Hcov.
  { intros k Hk Hp Hin. destruct (Hc k Hk Hp Hin) as [?|Hst]; [by left; left|]. destruct (page_covers (wSrc w) start (jPrefix j) k Hps) as [?|?]; [by apply list_keys_in|by left; right|by right]. }
  apply mwp_bind. eapply mwp_mono; [|eapply (wp_source (fun k => (X k \/ k ∈ take pageSize ks) \/ (pageSize < length ks)%nat /\ ~ String.le k next)); [exact Hcov|apply (wp_move_keys X'), HX']].
  clearbody ks. clear w Hm HX Hc HX' Hcov. intros s' w ((Hm & Hle & Hmv) & Hcov).
  set (Y := fun k => X k \/ k ∈ take pageSize ks). assert (stFailed s' = 0%Z -> forall k, keep k = true -> settled_src k w /\ (Y k -> present k w)) as HY.
  { intros E k Hk. assert (stFailed s = 0 /\ stFailed s' = stFailed s)%Z as [E1 E2] by lia. destruct (Hmv E2 k Hk) as [H1 H2]. split; [done|]. intros [Hx|Hx]; apply H2; [left; by split|right; by split]. }
  case_bool_decide as Et.
  - apply (IH next "" s' Y); [lia|done|exact HY|]. intros k Hk Hp Hin. destruct (Hcov k Hk Hp Hin) as [?|[_ Hn]]; [by left|right]. case_bool_decide as En; [by left|by right].
  - intros E k Hk. destruct (HY E k Hk) as [H1 H2]. split; [done|]. intros Hp. split; [done|]. destruct (wSrc w !! k) eqn:Ek; [|by left]. destruct (Hcov k Hk Hp) as [Hy|[? _]]; [by rewrite Ek| |done].
    destruct (H2 Hy) as [_ [E'|?]]; [congruence|by right].
Qed.

Lemma wp_ask {A} r (k : reply -> io A) Q w : (forall w1, rely w w1 -> forall f, wp (k (fst (answer_as f r w1))) Q (snd (answer_as f r w1))) -> wp (ask r ≫= k) Q w.
Proof. done. Qed.

Lemma wp_move fuel w : (0 < pageSize)%nat -> wCursor w !! cursorPath j = None -> moved (fun _ => False) w -> wp (move j paths false report fuel) pass_end w.
Proof.
  intros Hps Hcur Hw. unfold move. apply wp_ask. intros w1 Hr f.
  assert (wCursor w1 = wCursor w) as Ecur.
  { clear -Hr. induction Hr as [|? ? ? [c Hc] _ IH]; [done|]. rewrite IH. destruct c; cbn in Hc; repeat case_match; by simplify_eq. }
  assert (match fst (answer_as f (ReadCursor (cursorPath j)) w1) with RCursor key => key | _ => "" end = "") as Ea by (destruct f; cbn; [rewrite Ecur, Hcur|..]; done).
  pose proof (stable_rely _ _ _ (stable_moved _) Hr Hw) as Hw1. pose proof (same_moved _ _ _ (answer_local f (ReadCursor (cursorPath j)) w1 eq_refl) Hw1) as Hw2.
  cbv zeta. rewrite Ea. generalize dependent (snd (answer_as f (ReadCursor (cursorPath j)) w1)). intros w2 Hw2. clear w w1 Hcur Hw Hr Ecur Ea Hw1.
  apply (wp_local _ _ _ (moved (fun _ => False))); [done|apply stable_moved|apply same_moved|done|]. clear w2 Hw2. intros rep w Hw. destruct rep; try done.
  apply mwp_bind. eapply mwp_mono; [|apply (wp_move_pages fuel "" "" no_stats (fun _ => False)); [done|cbn; lia|done|done|intros k _ _ _; right; by left]].
  clear w Hw. intros [[s [e|]]|] w Hw; try done. set (P := pass_end (Some (s, None))) in *.
  assert (stable P) as HP by (intros c w1 w2 Hc H E; exact (stable_moved _ c w1 w2 Hc (H E))). assert (forall w1 w2, same_buckets w1 w2 -> P w1 -> P w2) as HS by (intros w1 w2 Hs H E; exact (same_moved _ _ _ Hs (H E))).
  apply (wp_local _ _ _ P); [done..|]. clear w Hw. intros _ w Hw. apply (wp_local _ _ _ P); [done..|]. clear w Hw. intros _ w Hw.
  destruct (negb _ && _); [|exact Hw]. apply (wp_local _ _ _ P); [done..|]. intros _ w1 H1. exact H1.
Qed.

(** A pass over a whole bucket ends: each page leaves fewer keys of the source after it. *)
Definition within (m : gmap string stored) (w : world) : Prop := forall k, is_Some (wSrc w !! k) -> is_Some (m !! k).

Lemma stable_within m : (forall k, keep k = true) -> stable (within m).
Proof.
  intros Hall c w w' Hc H k Hs. apply H. destruct (client_key k (Hall k) c w w' Hc) as [(<- & _)|[(E & _)|(<- & _)]]; [done| |done]. rewrite E in Hs. by destruct Hs.
Qed.

Lemma list_keys_shrink m m' start prefix : (forall k, is_Some (m' !! k) -> is_Some (m !! k)) -> (length (list_keys m' start prefix) <= length (list_keys m start prefix))%nat.
Proof.
  intros H. apply submseteq_length, NoDup_submseteq; [|intros k; rewrite !list_keys_in; intros (? & ? & ?); auto].
  apply list_keys_nodup.
Qed.

(** What is after a page is fewer keys, in any later state of the source. *)
Lemma page_shrinks m m' start prefix : (0 < pageSize)%nat -> (forall k, is_Some (m' !! k) -> is_Some (m !! k)) -> m !! "" = None -> (pageSize < length (list_keys m start prefix))%nat ->
  let next := default "" (last (take pageSize (list_keys m start prefix))) in next <> "" /\ (length (list_keys m' next prefix) < length (list_keys m start prefix))%nat.
Proof.
  intros Hps Hsub Hne Hl next. set (ks := list_keys m start prefix) in *.
  assert (exists x, last (take pageSize ks) = Some x) as [x Ex] by (destruct (last (take pageSize ks)) eqn:E; [eauto|]; apply last_None in E; apply (f_equal length) in E; rewrite length_take in E; change (length (@nil string)) with 0%nat in E; lia).
  subst next. rewrite Ex. change (default "" (Some x)) with x. apply last_Some in Ex as [l' Ex]. assert (x ∈ take pageSize ks) as Hx by (rewrite Ex; apply elem_of_app; right; by apply list_elem_of_singleton).
  assert (x ∈ ks) as Hxk by (rewrite <- (take_drop pageSize ks); apply elem_of_app; by left). pose proof Hxk as Hxm. unfold ks in Hxm. apply list_keys_in in Hxm as (Hxm & _ & Hxs).
  assert (x <> "") as Hx0 by (intros ->; rewrite Hne in Hxm; by destruct Hxm). split; [done|].
  apply (Nat.le_lt_trans _ (length (drop pageSize ks))); [|rewrite length_drop; lia]. apply submseteq_length, NoDup_submseteq; [apply list_keys_nodup|].
  intros k Hk. apply list_keys_in in Hk as (H1 & H2 & H3). assert (~ String.le k x) as Hkx by (by destruct H3).
  assert (k ∈ ks) as Hks. { apply list_keys_in. split_and!; [by apply Hsub|done|]. destruct Hxs as [?|Hxs]; [by left|right]. intros Hle. apply Hxs. destruct (total String.le x start) as [?|Hs]; [done|]. destruct Hkx. by etrans. }
  rewrite <- (take_drop pageSize ks) in Hks. apply elem_of_app in Hks as [Hks|?]; [|done]. destruct Hkx.
  pose proof (list_keys_order m start prefix) as Ho. fold ks in Ho. rewrite <- (take_drop pageSize ks), Ex in Ho. rewrite Ex in Hks. apply elem_of_app in Hks as [Hks|Hks]; [|by apply list_elem_of_singleton in Hks as ->].
  apply StronglySorted_app_1_l in Ho. apply (StronglySorted_app_1_elem_of _ _ _ k x) in Ho as [? _]; [done|done|by apply list_elem_of_singleton].
Qed.

Lemma wp_within {A} m (k : io A) Q w : (forall k, keep k = true) -> within m w -> wp k Q w -> wp k (fun a w => Q a w /\ within m w) w.
Proof. intros Hall Hw Hk. apply (wp_frame (fun _ => True)); [by apply stable_within| |apply every_true|done|done]. intros f r w1 _ H k'. unfold within in H. destruct (answer_frame f r w1) as [-> _]. apply H. Qed.
Lemma wp_true {A} (m : io A) w : wp m (fun _ _ => True) w.
Proof. revert w. induction m as [|r k IH]; intros w; [done|]. intros w1 _ f. apply IH. Qed.

Lemma wp_pages_end fuel token after s w : (0 < pageSize)%nat -> (forall k, keep k = true) -> wSrc w !! "" = None ->
  (length (list_keys (wSrc w) (if bool_decide (token = "") then after else token) (jPrefix j)) < fuel)%nat -> wp (move_pages j false report fuel token after s) (fun r _ => r <> None) w.
Proof.
  intros Hps Hall. revert token after s w. induction fuel as [|fuel IH]; intros token after s w Hne Hl; cbn [move_pages]; [lia|]. set (start := if bool_decide (token = "") then after else token) in *.
  apply (wp_call_any _ _ _ (within (wSrc w))); [by apply stable_within| |by intros k| |done].
  { intros f w1 H1 k. destruct (answer_frame f (ListSrc token after (jPrefix j)) w1) as [-> _]. apply H1. }
  intros w1 H1. cbn [serve fst snd]. fold start. apply mwp_bind. eapply mwp_mono; [|apply (wp_within (wSrc w1)), wp_true; [done|by intros k]]. intros s' w2 [_ H2].
  case_bool_decide as Et; [|done]. assert (wSrc w1 !! "" = None) as Hne1 by (destruct (wSrc w1 !! "") eqn:E; [|done]; destruct (H1 "") as [? E']; [by eauto|congruence]).
  destruct (page_shrinks (wSrc w1) (wSrc w2) start (jPrefix j) Hps H2 Hne1 Et) as [Hnx Hlt]. pose proof (list_keys_shrink (wSrc w) (wSrc w1) start (jPrefix j) H1) as Hle.
  apply IH; [destruct (wSrc w2 !! "") eqn:E; [|done]; destruct (H2 "") as [? E']; [by eauto|congruence]|]. rewrite bool_decide_false by done. cbv zeta in Hlt. lia.
Qed.

Lemma list_keys_size m start prefix : (length (list_keys m start prefix) <= size m)%nat.
Proof.
  rewrite <- size_dom. rewrite <- (size_list_to_set (C := gset string) (list_keys m start prefix)) by apply list_keys_nodup. apply subseteq_size. intros k Hk. apply elem_of_list_to_set, list_keys_in in Hk as [Hk _]. by apply elem_of_dom.
Qed.

Lemma wp_move_ends fuel w : (0 < pageSize)%nat -> (forall k, keep k = true) -> wSrc w !! "" = None -> (size (wSrc w) < fuel)%nat -> wp (move j paths false report fuel) (fun r _ => r <> None) w.
Proof.
  intros Hps Hall Hne Hf. set (P := fun w' => wSrc w' !! "" = None /\ (size (wSrc w') < fuel)%nat).
  assert (forall w' w1, within (wSrc w') w1 -> P w' -> P w1) as HP.
  { intros w' w1 Hw [H1 H2]. split; [destruct (wSrc w1 !! "") eqn:E; [|done]; destruct (Hw "") as [? E']; [by eauto|congruence]|].
    eapply Nat.le_lt_trans; [|exact H2]. rewrite <- !size_dom. apply subseteq_size. intros k Hk. apply elem_of_dom, Hw. by apply elem_of_dom. }
  assert (stable P) as Hst by (intros c w1 w2 Hc; apply HP; apply (stable_within (wSrc w1) Hall c w1 w2 Hc); by intros k).
  assert (forall f r w1, P w1 -> P (snd (answer_as f r w1))) as Ha by (intros f r w1; apply HP; intros k; by destruct (answer_frame f r w1) as [-> _]).
  unfold move. apply wp_ask. intros w1 Hr f. pose proof (Ha f (ReadCursor (cursorPath j)) w1 (stable_rely _ _ _ Hst Hr (conj Hne Hf))) as H1. generalize dependent (snd (answer_as f (ReadCursor (cursorPath j)) w1)).
  generalize (match fst (answer_as f (ReadCursor (cursorPath j)) w1) with RCursor key => key | _ => "" end). intros after w2 H2. cbv zeta.
  apply wp_ask. intros w3 Hr3 g. pose proof (Ha g (OpenLedger (ledgerPath j)) w3 (stable_rely _ _ _ Hst Hr3 H2)) as [H4 H5]. generalize dependent (snd (answer_as g (OpenLedger (ledgerPath j)) w3)). intros w4 H4 H5.
  destruct (fst _); try done. apply mwp_bind. eapply mwp_mono; [|apply wp_pages_end; [done..|]]; [|eapply Nat.le_lt_trans; [apply list_keys_size|exact H5]].
  intros [[s [e|]]|] w5 H; [done| |done].
  intros w6 _ g1 w7 _ g2. destruct (negb _ && _); [intros w8 _ g3|]; done.
Qed.
End pass.
End backends.

(** ** The properties *)


(** C9: the mover keeps what clients write. At every point of the copy of an object to a target that honours
    conditional writes and deletes, whatever clients did before and however the request ends, an object on
    the target is left as it is, unless the mover is deleting its own key on the condition of that object's
    ETag; in particular no write of a client is ever replaced. *)
Theorem client_writes_kept etag counts dates pageSize keep j key w0 cs r k w f key' st : jConditional j = true -> jCondDelete j = true ->
  steps etag true true counts dates pageSize keep cs (copyOne j key, w0) = Some (Ask r k, w) -> wDst w !! key' = Some st ->
  wDst (snd (answer_as etag true true counts dates pageSize f r w)) !! key' = Some st \/ key' = key /\ r = DeleteDst key (Some (etag (sdObj st))).
Proof.
  intros Hc Hd Hs Hst. pose proof (every_steps _ _ _ _ _ _ _ (polite j key) _ _ _ _ _ (polite_copyOne j key) Hs) as [Hp _]. by apply (polite_keeps etag true true counts dates pageSize j).
Qed.



(** ** Runs *)

(** A target that honours every condition, an ETag that names the bytes, and one bucket's job. *)
Definition toy_etag (o : object) : string := "e" +:+ S_ (content o).
Definition no_meta : meta := mkMeta "" ∅ "" "" "" "".
Definition plain (s : string) : object := mkObject [B s] false no_meta.
Definition whole_job : job := mkJob "t" "b" (mkMSide "a" "b-a") (mkMSide "b" "b-b") true true (fun _ => true) "".
Definition at_source (l : list (string * object)) : world := mkWorld (list_to_map ((fun x => (fst x, mkStored (snd x) 0 false)) <$> l)) ∅ ∅ ∅ 0 ∅ ∅.
Definition toy_steps {A} (cs : list choice) (x : io A * world) : option (io A * world) := steps toy_etag true true true true 2 (fun _ => true) cs x.
Definition served (n : nat) : list choice := replicate n (Answer Served).
Definition deleted (key : string) : list choice := [Client (CDeleteSrc key); Client (CDeleteDst key)].

(** How a copy ended: the result, and the object of the key on each side. *)
Definition ended (x : option (io LedgerEntry * world)) (key : string) : option (string * option object * option object) :=
  match x with Some (Return line, w) => Some (leResult line, sdObj <$> wSrc w !! key, sdObj <$> wDst w !! key) | _ => None end.
Definition copy_run (cs : list choice) : option (io LedgerEntry * world) := toy_steps cs (copyOne whole_job "k", at_source [("k", plain "x")]).

(** The copy of an object nobody touches, and of one a client deletes before the mover's PUT lands. *)
Example copy_runs : ended (copy_run (served 5)) "k" = Some ("copied", Some (plain "x"), Some (plain "x")) /\ ended (copy_run (served 3 ++ deleted "k" ++ served 3)) "k" = Some ("vanished", None, None).
Proof. vm_compute. split; reflexivity. Qed.

(** An unanswered request can bring a deleted object back. A client deletes the object before the mover's
    PUT of it lands. When the mover's second HEAD of the source fails, the copy is kept and reported as
    copied; when the answer to its PUT is lost, the SDK sends the PUT again, the target refuses it for the
    copy the first one made, and the copy is kept and reported as skipped. The source no longer lists the
    key, so no later pass takes the copy away. *)
Theorem lost_answers_resurrect :
  ended (copy_run (served 3 ++ deleted "k" ++ served 1 ++ [Answer Refused])) "k" = Some ("copied", None, Some (plain "x")) /\
  ended (copy_run (served 3 ++ deleted "k" ++ [Answer CarriedOut] ++ served 1)) "k" = Some ("skipped", None, Some (plain "x")).
Proof. vm_compute. split; reflexivity. Qed.

(** The withdrawal by ETag takes a client's write of the same bytes, however long after the mover's PUT. *)
Lemma identical_write_withdrawn : ended (copy_run (served 4 ++ deleted "k" ++ replicate 60 (Client CTick) ++ [Client (CPut "k" (plain "x"))] ++ served 2)) "k" = Some ("vanished", None, None).
Proof. vm_compute. reflexivity. Qed.

(** An object of two parts keeps its parts, and loses the headers a single PUT would have kept. *)
Definition two_parts : object := mkObject [B "x"; B "y"] true (mkMeta "text/css" ∅ "no-store" "gzip" "inline" "").
Lemma multipart_drops_headers :
  ended (toy_steps (served 11) (copyOne whole_job "k", at_source [("k", two_parts)])) "k" = Some ("copied", Some two_parts, Some (mkObject [B "x"; B "y"] true (mkMeta "text/css" ∅ "" "" "" ""))).
Proof. vm_compute. reflexivity. Qed.

(** Two buckets of different tenants can share one cursor file. *)
Lemma cursors_collide : validTenant "a" = true /\ validTenant "a-b" = true /\ ValidBucketName "b-ccc" = true /\ ValidBucketName "ccc" = true /\
  cursorPath (mkJob "a" "b-ccc" (mkMSide "" "") (mkMSide "" "") true true (fun _ => true) "") = cursorPath (mkJob "a-b" "ccc" (mkMSide "" "") (mkMSide "" "") true true (fun _ => true) "").
Proof. vm_compute. split_and!; reflexivity. Qed.

Definition pass_run (cs : list choice) (w : world) : option (io (option (stats * option moveErr)) * world) :=
  toy_steps cs (move whole_job (mkPaths "") false (reportPass whole_job 1) 9, w).

(** The first pass fails on [a], copies [b] and stops there; the next one resumes after [b]. *)
Definition interrupted : option world := snd <$> pass_run (served 3 ++ [Answer Refused] ++ served 9) (at_source [("a", plain "x"); ("b", plain "y")]).
Definition resumed : option (io (option (stats * option moveErr)) * world) := w ← interrupted; pass_run (served 5) w.

(** A resumed pass can report a convergence that is not there. After a pass in which one object failed and
    that was interrupted further on, the next pass resumes after the last key of the first; it copies
    nothing, fails nothing and reports that the placement has converged, while the object that failed is on
    the source only. *)
Theorem resumed_pass_misses : exists s w, resumed = Some (Return (Some (s, None)), w) /\ settled s = true /\ pgConverged (reportPass whole_job 1 s "" true) = true /\
  is_Some (wSrc w !! "a") /\ wDst w !! "a" = None.
Proof.
  destruct resumed as [[[[[s [e|]]|]|r k] w]|] eqn:E; [vm_compute in E; discriminate| |vm_compute in E; discriminate..]. exists s, w. split; [reflexivity|].
  vm_compute in E. injection E as <- <-. vm_compute. split_and!; try reflexivity. eexists. reflexivity.
Qed.

(** ** Witnesses *)

Lemma toy_etag_name o : toy_etag o <> "".
Proof. done. Qed.

Definition lone : world := at_source [("k", plain "x")].
Lemma lone_sound : sound_source "k" lone /\ consistent "k" lone.
Proof.
  split; [|done]. intros so Hso. unfold lone, at_source in Hso. cbn in Hso. rewrite lookup_insert_eq in Hso. simplify_eq. split; [right; by eexists|]. intros _. by eexists.
Qed.


(** The client writes the key before the mover's PUT of it. *)
Lemma client_writes_kept_witness : exists r k w st, copy_run (served 3 ++ [Client (CPut "k" (plain "z"))]) = Some (Ask r k, w) /\ wDst w !! "k" = Some st /\
  r = PutDst "k" (put_meta no_meta) 1 (B "x") true /\ wDst (snd (answer_as toy_etag true true true true 2 Served r w)) !! "k" = Some st.
Proof.
  destruct (copy_run (served 3 ++ [Client (CPut "k" (plain "z"))])) as [[[line|r k] w]|] eqn:H; [vm_compute in H; discriminate| |vm_compute in H; discriminate].
  assert (r = PutDst "k" (put_meta no_meta) 1 (B "x") true) as Hr by (pose proof H as H'; vm_compute in H'; injection H' as <- _ _; reflexivity).
  assert (exists st, wDst w !! "k" = Some st) as [st Hst] by (pose proof H as H'; vm_compute in H'; injection H' as _ _ <-; eexists; vm_compute; reflexivity).
  exists r, k, w, st. split; [reflexivity|]. split; [exact Hst|]. split; [exact Hr|].
  destruct (client_writes_kept toy_etag true true 2 (fun _ => true) whole_job "k" lone (served 3 ++ [Client (CPut "k" (plain "z"))]) r k w Served "k" st eq_refl eq_refl H Hst) as [Hk|[_ E]]; [exact Hk|].
  rewrite Hr in E. discriminate.
Defined.

(** A pass over two objects, one of which a client deletes. *)
Definition two_keys : world := at_source [("a", plain "x"); ("b", plain "y")].
Definition clean_pass : list choice := served 9 ++ deleted "b" ++ served 6.

