(* ===== verification/MoverRoute.v ===== *)
(** * What a job assumes of the router (internal/mover/mover.go with internal/migrate/route.go)

    The mover copies from one bucket to another while clients go on; it may, because the placements it
    selects are those whose routing sends every write of a moving key to the job's target, every read to
    the target before the source, and every delete to both.  This file proves it of [selectPlacements]. *)

From S2P Require Import Prelude Float64 KeyHash HashRange Config Placement Transition S3Op Route Backend Scopes ApplyFacts Steps Fence MoveFence Directory Crypto Strconv Mover.

(** The placement whose state and sides a job is taken from, and the backends of a job. *)
Definition job_view (p : Placement) : Placement := match pMove p with Some m => MoveView p m | None => p end.
Definition job_source (j : job) : backend := (sdName (jSrc j), sdBucket (jSrc j)).
Definition job_target (j : job) : backend := (sdName (jDst j), sdBucket (jDst j)).

(** Where the requests of a key that is moving go, in the view of its placement. *)
Lemma movable_routes rgo v key : wf_view rgo v -> movable v = true -> key_in rgo key ->
  write_to v key = Ok (Some (side_backend v Primary)) /\ reads_of v key = Ok [side_backend v Primary; side_backend v Source] /\
  Decide v ClassDelete key = Ok (mkRoute Primary false true false false).
Proof.
  intros Hwf Hm Hk. assert (pState v = StateMigrating \/ pState v = StateRamping /\ InRange (pRamp v) key = Ok true) as Hst.
  { unfold movable in Hm. apply orb_true_iff in Hm as [Hm|Hm]; [left; by apply bool_decide_eq_true in Hm|right]. apply andb_true_iff in Hm as [Hs Hr]. apply bool_decide_eq_true in Hs. split; [done|].
    pose proof (wv_ramp rgo v Hwf) as Hw. destruct (pRamp v) as [r|]; [|done]. destruct Hw as (_ & (Hh & Hok & _) & Hrg & _). apply InRange_full; [done|done| |by rewrite Hrg].
    destruct (f64_ltb (rRatio r) f1) eqn:E; [|done]. pose proof (f64_ltb_leb_trans _ _ _ E Hr) as Hx. revert Hx. clear. destruct (rRatio r) as [|[]|]; cbn; rewrite ?Z.ltb_irrefl; done. }
  assert (pState v <> StateActive /\ pState v <> StateCutover) as [Ha Hc] by (destruct Hst as [->|[-> _]]; done). destruct (wv_source rgo v Hwf Ha) as [Hs _].
  assert (forall c, Decide v c key = let moved := Ok (mkRoute Primary (bool_decide (c = ClassRead)) false false false) in
    match c with ClassWrite | ClassRead => moved | ClassDelete => Ok (mkRoute Primary false true false false) | ClassList => Ok (mkRoute Primary false false true false) | _ => Ok (to_side Primary) end) as Hd.
  { intros c. unfold Decide. rewrite !bool_decide_false by done. cbn [orb]. destruct Hst as [E|[E Hr]]; rewrite E; destruct c; try reflexivity; rewrite bool_decide_true, Hr by done; reflexivity. }
  unfold write_to, reads_of. rewrite !Hd. done.
Qed.

(** A job is of a placement of the directory, and says its view's sides and its moving keys. *)
Definition job_of (j : job) (p : Placement) : Prop :=
  movable (job_view p) = true /\ job_source j = side_backend (job_view p) Source /\ job_target j = side_backend (job_view p) Primary /\
  jKeep j = match pMove p with Some _ => InMove p | None => fun _ => true end.

Lemma select_one_job resolves dir one from acceptLoss key p j : select_one resolves dir one from acceptLoss key p = Ok (Some j) -> job_of j p.
Proof.
  unfold select_one. fold (job_view p). destruct (default (key, "") _) as [tenant name]. do 3 (destruct (_ && _); [done|]).
  destruct (movable (job_view p)) eqn:Hm; [|by destruct (bool_decide _)]. cbn [negb]. intros H. apply bind_Ok in H as (c1 & _ & H). apply bind_Ok in H as (c2 & _ & H). destruct (_ && _); [done|].
  injection H as <-. by split_and!.
Qed.

Lemma select_all_job resolves dir one from acceptLoss keys jobs j : select_all resolves dir one from acceptLoss keys = Ok jobs -> j ∈ jobs ->
  exists key, key ∈ keys /\ job_of j (mget zeroPlacement key (fPlacements dir)).
Proof.
  revert jobs. induction keys as [|key keys IH]; intros jobs H Hj; cbn in H; [injection H as <-; by apply elem_of_nil in Hj|].
  apply bind_Ok in H as (o & Ho & H). apply bind_Ok in H as (js & Hjs & H). injection H as <-.
  assert (j ∈ js \/ o = Some j) as [Hin| -> ] by (destruct o; [apply elem_of_cons in Hj as [->|?]|]; auto).
  - destruct (IH js Hjs Hin) as (k & ? & ?). exists k. split; [by right|done].
  - exists key. split; [by left|by eapply select_one_job].
Qed.

Lemma job_routes j p k : wf_placement p -> job_of j p -> jKeep j k = true ->
  exists rgo, wf_view rgo (job_view p) /\ key_in rgo k /\ key_view p k = Ok (job_view p).
Proof.
  intros [_ Hwf] (Hm & _ & _ & Hk) Hkk. rewrite Hk in Hkk. unfold job_view in *. destruct (pMove p) as [m|] eqn:Em.
  - exists (Some (mvRange m)). split; [by apply MoveView_wf|]. split; [|apply view_moving; [done|apply Hwf|done]]. intros rg [= <-]. by apply (InMove_iff p m k Em) in Hkk as [? _].
  - exists None. assert (Spread p = false) as Hs. { destruct (Spread p); [|done]. destruct Hwf as (_ & Ha & _). unfold movable in Hm. by rewrite Ha in Hm. }
    rewrite Hs in Hwf. split; [done|]. split; [done|]. unfold key_view. by rewrite Hs.
Qed.

(** C35: the mover copies to where clients write. In a directory of well-formed placements, every job
    [selectPlacements] makes is of a placement of it whose every moving key has its writes sent to the job's
    target, its reads to the target and then the source, and its deletes to both. *)
Theorem selected_keys_moving resolves dir one from acceptLoss jobs j : (forall key p, mlookup key (fPlacements dir) = Some p -> wf_placement p) ->
  selectPlacements resolves dir one from acceptLoss = Ok jobs -> j ∈ jobs ->
  exists key p, mlookup key (fPlacements dir) = Some p /\ forall k, jKeep j k = true ->
    routed p k = Ok (Some (job_target j), [job_target j; job_source j]) /\
    exists v, key_view p k = Ok v /\ Decide v ClassDelete k = Ok (mkRoute Primary false true false false) /\ side_backend v Primary = job_target j /\ side_backend v Source = job_source j.
Proof.
  intros Hwf Hsel Hj. destruct (select_all_job _ _ _ _ _ _ _ _ Hsel Hj) as (key & Hkey & Hjob). apply elem_of_msortedKeys in Hkey as [p Hp].
  assert (mget zeroPlacement key (fPlacements dir) = p) as Eg by (unfold mget; by rewrite Hp). rewrite Eg in Hjob. exists key, p. split; [done|]. intros k Hk.
  destruct (job_routes j p k (Hwf key p Hp) Hjob Hk) as (rgo & Hv & Hin & Hkv). destruct Hjob as (Hm & Hs & Ht & _). destruct (movable_routes rgo _ k Hv Hm Hin) as (Hw & Hr & Hd).
  rewrite Hs, Ht. split; [by apply (view_routed p (job_view p))|]. by exists (job_view p).
Qed.

(** A directory whose one bucket has the keys of a range on the move. *)
Definition moving_bucket : Placement :=
  zeroPlacement |> set_State StateMigrating |> set_Legs example_legs |> set_Owners (Some example_owners) |> set_KeyHash RampHash
    |> set_Move (Some (mkMove "" (mkRange 100 MaxUint64) "b" "a" None None)).
Definition moving_cluster : Cluster :=
  mkCluster "s3" "https" "us-east-1" "static" ["10.0.0.1:443"] "" (mkClusterTLS "" false) (mkCredentials "AK" "env:SECRET") "" "" "" (mkCapabilities None None None None) false false None.
Definition moving_dir : File := mkFile 7 2 zeroIdentity None (Some {["a" := moving_cluster; "b" := moving_cluster]}) None (Some {["t/b" := moving_bucket]}).

Lemma moving_bucket_wf : wf_placement moving_bucket.
Proof.
  split; [reflexivity|]. destruct example_carved_wf as [_ Ho _ _ Hl Hk _]. simpl. split; simpl; try done.
  - split; try done; [by intros ? ?%elem_of_nil|constructor].
  - split; [set_solver|done].
  - exists example_owners. split; [done|]. split; [vm_compute; congruence|].
    exists (mkOwner 100 MaxUint64 "b"). split; [right; left|]. vm_compute. split_and!; congruence.
Qed.

Definition moving_job : job := mkJob "t" "b" (mkMSide "b" "b2") (mkMSide "a" "b1") true false (InMove moving_bucket) "".
Lemma moving_selected : selectPlacements (fun _ => true) moving_dir "t/b" "" false = Ok [moving_job].
Proof.
  unfold selectPlacements. assert (msortedKeys (fPlacements moving_dir) = ["t/b"]) as -> by (vm_compute; reflexivity). cbn [select_all].
  assert (mget zeroPlacement "t/b" (fPlacements moving_dir) = moving_bucket) as -> by reflexivity. unfold select_one.
  assert (pMove moving_bucket = Some (mkMove "" (mkRange 100 MaxUint64) "b" "a" None None)) as -> by reflexivity.
  set (v := MoveView moving_bucket _). assert (movable v = true) as -> by (vm_compute; reflexivity). assert (ClusterOf v (pSource v) = "b") as -> by (vm_compute; reflexivity).
  assert (ClusterOf v (pPrimary v) = "a") as -> by (vm_compute; reflexivity). assert (mget "" (pSource v) (pNames v) = "b2") as -> by (vm_compute; reflexivity).
  assert (mget "" (pPrimary v) (pNames v) = "b1") as -> by (vm_compute; reflexivity). clearbody v. unfold moving_job. generalize (InMove moving_bucket). intros keep. vm_compute. reflexivity.
Qed.

Lemma selected_keys_moving_witness : jKeep moving_job "k" = true /\ routed moving_bucket "k" = Ok (Some ("a", "b1"), [("a", "b1"); ("b", "b2")]).
Proof.
  assert (jKeep moving_job "k" = true) as Hk by (vm_compute; reflexivity). split; [exact Hk|].
  destruct (selected_keys_moving (fun _ => true) moving_dir "t/b" "" false [moving_job] moving_job) as (key & p & Hp & H); [|exact moving_selected|by left|].
  - intros key p Hp. unfold moving_dir in Hp. cbn in Hp. apply lookup_singleton_Some in Hp as [_ <-]. exact moving_bucket_wf.
  - unfold moving_dir in Hp. cbn in Hp. apply lookup_singleton_Some in Hp as [_ <-]. exact (proj1 (H "k" Hk)).
Defined.
