(* ===== verification/Purge.v ===== *)
(** * purge-source (internal/control: backend.go, ops.go)

    The only path that deletes a source's objects: a walk of both buckets in step that must find nothing
    the primary lacks, taken again once the source's gate has drained, and then the deletes.  Every exchange
    with a backend, and every write of the operation's record or of the directory, is a request of a program;
    the request of a token, the counts shown to an operator and the texts of refusals are left out. *)

From S2P Require Import Prelude Float64 KeyHash HashRange Config Placement S3Op Route Backend Directory ScopeWrites.

(** ** Requests *)

(** A request to a bucket, the source's or the primary's; [PFence] waits for every proxy to have the
    directory's version, [PDispatch] writes the irreversible point to the record and looks whether it was
    ended, [PCommit] is the transition to ACTIVE. *)
Inductive preq : Type :=
| PList (primary : bool) (prefix token : string)
| PHead (primary : bool) (key : string)
| PDelete (key : string)
| PUploads (prefix keyMarker idMarker : string)
| PAbort (key id : string)
| PDropBucket
| PFence
| PDispatch
| PCommit.

(** [PErr] is an exchange that failed or a body that does not parse. *)
Inductive prep : Type :=
| PErr
| PStatus (status : Z) (code : string)
| PPage (entries : list (string * Z)) (truncated : bool) (next : option string)
| PUpPage (uploads : list (string * string)) (truncated : bool) (nextKey nextID : string)
| PDone.

Inductive prog (A : Type) : Type := PRet (a : A) | PAsk (r : preq) (k : prep -> prog A).
Arguments PRet {A} a.
Arguments PAsk {A} r k.
#[export] Instance prog_ret : MRet prog := @PRet.
Fixpoint prog_bind_ {A B} (k : A -> prog B) (m : prog A) : prog B :=
  match m with PRet a => k a | PAsk r f => PAsk r (fun rep => prog_bind_ k (f rep)) end.
#[export] Instance prog_bind : MBind prog := @prog_bind_.

(** [EFuel] is a walk longer than it was given room for. *)
Inductive purgeErr : Type := EFuel | EBackend | ERefusedState | ENoEvidence | ENotSubset (missing : list string) | ENoDrainedDiff | EEnded.

(** A program that may fail. *)
Definition try {A B} (m : prog (result purgeErr A)) (k : A -> prog (result purgeErr B)) : prog (result purgeErr B) :=
  r ← m; match r with Ok a => k a | Err e => mret (Err e) end.
Definition done {A} (a : A) : prog (result purgeErr A) := mret (Ok a).
Definition fails {A} (e : purgeErr) : prog (result purgeErr A) := mret (Err e).
Definition pask (r : preq) : prog prep := PAsk r PRet.

(** ** One backend *)

Definition listPage (primary : bool) (prefix token : string) : prog (result purgeErr (list (string * Z) * string)) :=
  rep ← pask (PList primary prefix token);
  match rep with
  | PPage entries truncated next => done (entries, if truncated then default "" next else "")
  | _ => fails EBackend
  end.

Definition objectExists (primary : bool) (key : string) : prog (result purgeErr bool) :=
  rep ← pask (PHead primary key);
  match rep with
  | PStatus status _ => if (status =? 200)%Z then done true else if (status =? 404)%Z then done false else fails EBackend
  | _ => fails EBackend
  end.

(** A walk of a bucket's keys, a page at a time. *)
Record lister : Type := mkLister { lsPrimary : bool; lsPage : list (string * Z); lsNext : string; lsDone : bool; lsObjects : Z; lsBytes : Z }.
Definition new_lister (primary : bool) : lister := mkLister primary [] "" false 0 0.

Section purge.
(** The keys of the move, every key where the whole bucket moves, and the scope that is listed. *)
Context (keep : option (string -> bool)) (prefix : string).

Definition kept (key : string) : bool := match keep with Some f => f key | None => true end.

(** The first kept entry of a page, and the rest. *)
Fixpoint first_kept (page : list (string * Z)) : option (string * Z * list (string * Z)) :=
  match page with
  | [] => None
  | (key, size) :: page => if kept key then Some (key, size, page) else first_kept page
  end.

Fixpoint nextKey (fuel : nat) (l : lister) : prog (result purgeErr (option string * lister)) :=
  match first_kept (lsPage l) with
  | Some (key, size, page) => done (Some key, mkLister (lsPrimary l) page (lsNext l) (lsDone l) (lsObjects l + 1) (lsBytes l + size))
  | None =>
      if lsDone l then done (None, mkLister (lsPrimary l) [] (lsNext l) true (lsObjects l) (lsBytes l))
      else match fuel with
           | O => fails EFuel
           | S fuel =>
               try (listPage (lsPrimary l) prefix (lsNext l)) (fun '(entries, next) =>
               nextKey fuel (mkLister (lsPrimary l) entries next (bool_decide (next = "")) (lsObjects l) (lsBytes l)))
           end
  end.

Definition stillMissing (key : string) : prog (result purgeErr bool) :=
  try (objectExists true key) (fun onPrimary => if (onPrimary : bool) then done false else objectExists false key).

(** The primary's walk, up to the first key that is not before [s]. *)
Fixpoint advance (fuel : nat) (s : string) (d : option string) (dst : lister) : prog (result purgeErr (option string * lister)) :=
  match d with
  | Some k =>
      if negb (bool_decide (String.le s k)) then
        match fuel with O => fails EFuel | S fuel' => try (nextKey fuel dst) (fun '(d, dst) => advance fuel' s d dst) end
      else done (d, dst)
  | None => done (d, dst)
  end.

(** The keys the source holds and the primary does not, [limit] of them at most, with the objects and bytes
    of the source that were walked. *)
Fixpoint missing_loop (fuel : nat) (limit : nat) (src dst : lister) (d : option string) (missing : list string) : prog (result purgeErr (list string * Z * Z)) :=
  match fuel with
  | O => fails EFuel
  | S fuel' =>
      try (nextKey fuel src) (fun '(s, src) =>
      match s with
      | None => done (missing, lsObjects src, lsBytes src)
      | Some s =>
          try (advance fuel s d dst) (fun '(d, dst) =>
          if bool_decide (d = Some s) then missing_loop fuel' limit src dst d missing
          else
            try (stillMissing s) (fun confirmed =>
            if negb confirmed then missing_loop fuel' limit src dst d missing
            else
              let missing := missing ++ [s] in
              if (limit <=? length missing)%nat then done (missing, lsObjects src, lsBytes src) else missing_loop fuel' limit src dst d missing))
      end)
  end.
Definition missingOn (fuel limit : nat) : prog (result purgeErr (list string * Z * Z)) :=
  try (nextKey fuel (new_lister true)) (fun '(d, dst) => missing_loop fuel limit (new_lister false) dst d []).

(** ** Emptying the source *)

(** Whether an upload was aborted, or an object deleted; one that is gone counts. *)
Definition removed (rep : prep) : bool := match rep with PStatus status _ => (status <? 300)%Z || (status =? 404)%Z | _ => false end.

Fixpoint abort_uploads (ups : list (string * string)) (n : Z) : prog (result purgeErr Z) :=
  match ups with
  | [] => done n
  | (key, id) :: ups =>
      if negb (kept key) then abort_uploads ups n
      else rep ← pask (PAbort key id); if removed rep then abort_uploads ups (n + 1) else fails EBackend
  end.

Fixpoint delete_entries (entries : list (string * Z)) (n : Z) : prog (result purgeErr Z) :=
  match entries with
  | [] => done n
  | (key, _) :: entries =>
      if negb (kept key) then delete_entries entries n
      else rep ← pask (PDelete key); if removed rep then delete_entries entries (n + 1) else fails EBackend
  end.

(** [empty]: the uploads, listed from the start until there are none, and the objects likewise. *)
Fixpoint empty_uploads (fuel : nat) (n : Z) : prog (result purgeErr Z) :=
  match fuel with
  | O => fails EFuel
  | S fuel =>
      rep ← pask (PUploads "" "" "");
      match rep with
      | PUpPage [] _ _ _ => done n
      | PUpPage ups _ _ _ => try (abort_uploads ups n) (fun n => empty_uploads fuel n)
      | PStatus _ code => if bool_decide (code = "NoSuchUpload") then done n else fails EBackend
      | _ => fails EBackend
      end
  end.
Fixpoint empty_objects (fuel : nat) (n : Z) : prog (result purgeErr Z) :=
  match fuel with
  | O => fails EFuel
  | S fuel =>
      try (listPage false "" "") (fun '(entries, _) =>
      match entries with [] => done n | _ => try (delete_entries entries n) (fun n => empty_objects fuel n) end)
  end.
Definition empty_ (fuel : nat) : prog (result purgeErr (Z * Z)) :=
  try (empty_uploads fuel 0) (fun uploads => try (empty_objects fuel 0) (fun objects => done (objects, uploads))).

(** [emptyRange]: the uploads in one walk, and walks of the objects until one deletes nothing. *)
Fixpoint range_uploads (fuel : nat) (keyMarker idMarker : string) (n : Z) : prog (result purgeErr Z) :=
  match fuel with
  | O => fails EFuel
  | S fuel =>
      rep ← pask (PUploads prefix keyMarker (if bool_decide (keyMarker = "") then "" else idMarker));
      match rep with
      | PUpPage ups truncated nextKey nextID =>
          try (abort_uploads ups n) (fun n => if negb truncated || bool_decide (nextKey = "") then done n else range_uploads fuel nextKey nextID n)
      | PStatus _ code => if bool_decide (code = "NoSuchUpload") then done n else fails EBackend
      | _ => fails EBackend
      end
  end.
(** One walk: how many it deleted. *)
Fixpoint range_walk (fuel : nat) (token : string) (n : Z) : prog (result purgeErr Z) :=
  match fuel with
  | O => fails EFuel
  | S fuel =>
      try (listPage false prefix token) (fun '(entries, next) =>
      try (delete_entries entries n) (fun n => if bool_decide (next = "") then done n else range_walk fuel next n))
  end.
Fixpoint range_objects (fuel : nat) (n : Z) : prog (result purgeErr Z) :=
  match fuel with
  | O => fails EFuel
  | S fuel' => try (range_walk fuel "" 0) (fun deleted => if (deleted =? 0)%Z then done n else range_objects fuel' (n + deleted))
  end.
Definition emptyRange (fuel : nat) : prog (result purgeErr (Z * Z)) :=
  try (range_uploads fuel "" "" 0) (fun uploads => try (range_objects fuel 0) (fun objects => done (objects, uploads))).

Definition deleteBucket : prog (result purgeErr unit) :=
  rep ← pask PDropBucket;
  match rep with
  | PStatus status code => if (status =? 204)%Z || (status =? 200)%Z || bool_decide (code = "NoSuchBucket") then done tt else fails EBackend
  | _ => fails EBackend
  end.
End purge.

(** ** The operation *)

Record purgePlan : Type := mkPlan { plKeep : option (string -> bool); plPrefix : string; plDrop : bool; plObjects : Z }.

Definition purgeState (p : Placement) : result purgeErr unit :=
  let v := moving p in
  if negb (bool_decide (pState v = StateCutover)) then Err ERefusedState
  else if bool_decide (pCutover v = None) then Err ENoEvidence else Ok tt.

(** What of the source goes: the whole bucket, or a move's keys. *)
Definition plan_of (p : Placement) : purgePlan :=
  match pMove p with
  | Some m => mkPlan (Some (InMove p)) (mvScope m) (negb (OwnsBeyond p (mvFrom m) (mvScope m) (mvRange m))) 0
  | None => mkPlan None "" true 0
  end.

Definition purgeChecks (fuel : nat) (p : Placement) (fence : bool) : prog (result purgeErr purgePlan) :=
  match purgeState p with
  | Err e => fails e
  | Ok _ =>
      let plan := plan_of p in
      fenced ← (if fence then pask PFence else mret PDone);
      match fenced with
      | PDone =>
          try (missingOn (plKeep plan) (plPrefix plan) fuel 20) (fun '(missing, objects, _) =>
          match missing with [] => done (mkPlan (plKeep plan) (plPrefix plan) (plDrop plan) objects) | _ => fails (ENotSubset missing) end)
      | _ => fails EBackend
      end
  end.

(** The commit of the barrier: [drained] is the plan of the diff under the drained gate, [dispatched] whether
    an earlier attempt already began to delete. *)
Definition purge_commit (fuel : nat) (p : Placement) (drained : option purgePlan) (dispatched : bool) : prog (result purgeErr (Z * Z)) :=
  try (if dispatched then purgeChecks fuel p false
       else match drained with
            | None => fails ENoDrainedDiff
            | Some plan => rep ← pask PDispatch; match rep with PDone => done plan | _ => fails EEnded end
            end) (fun plan =>
  try (match plKeep plan with Some _ => emptyRange (plKeep plan) (plPrefix plan) fuel | None => empty_ None fuel end) (fun counts =>
  try (if plDrop plan then deleteBucket else done tt) (fun _ =>
  rep ← pask PCommit; match rep with PDone => done counts | _ => fails EBackend end))).

(** The attempts of the commit, [again] more after the first; the record says whether the deletes began. *)
Fixpoint purge_attempts (again : nat) (fuel : nat) (p : Placement) (drained : option purgePlan) (dispatched : bool) : prog (result purgeErr (Z * Z)) :=
  r ← purge_commit fuel p drained dispatched;
  match r, again with
  | Ok counts, _ => done counts
  | Err EEnded, _ => fails EEnded
  | Err e, O => fails e
  | Err e, S again => purge_attempts again fuel p drained true
  end.

(** The purge from its first diff on: the checks the token was given for, the polls of the drain until the
    source is still a subset of the primary, and the commit. *)
Fixpoint drained_diff (polls : nat) (fuel : nat) (p : Placement) : prog (result purgeErr purgePlan) :=
  r ← purgeChecks fuel p false;
  match r, polls with
  | Ok plan, _ => done plan
  | Err e, O => fails e
  | Err _, S polls => drained_diff polls fuel p
  end.
Definition runPurge (polls again fuel : nat) (p : Placement) : prog (result purgeErr (Z * Z)) :=
  try (purgeChecks fuel p true) (fun _ => try (drained_diff polls fuel p) (fun plan => purge_attempts again fuel p (Some plan) false)).
