(* ===== verification/PurgeSafe.v ===== *)
(** * What purge-source deletes (internal/control: backend.go, ops.go)

    The purge's programs run against the two buckets of [MoverSafe] while clients write to the primary and
    delete from both.  Any request may fail, carried out or not. *)

From S2P Require Import Prelude Float64 KeyHash HashRange Config Placement S3Op Route Backend Directory ScopeWrites Mover MoverSafe Purge.

(** ** The backends *)

(** The two buckets, the source's uploads, and whether the source's bucket is there. *)
Record pworld : Type := mkPW { pwW : world; pwUps : list (string * string); pwBucket : bool }.
Definition on_source (f : gmap string stored -> gmap string stored) (x : pworld) : pworld := mkPW (set_src f (pwW x)) (pwUps x) (pwBucket x).

Section purge.
Context (pageSize : nat) (keep : option (string -> bool)) (prefix : string).
Notation kept := (kept keep).

Definition entry_of (m : gmap string stored) (key : string) : string * Z := (key, match m !! key with Some st => size_of (content (sdObj st)) | None => 0%Z end).

Definition pserve (r : preq) (x : pworld) : prep * pworld :=
  match r with
  | PList primary pre token =>
      let m := if primary then wDst (pwW x) else wSrc (pwW x) in let ks := list_keys m token pre in
      (PPage (entry_of m <$> take pageSize ks) (bool_decide (pageSize < length ks)%nat) (last (take pageSize ks)), x)
  | PHead primary key => (PStatus (match (if primary then wDst (pwW x) else wSrc (pwW x)) !! key with Some _ => 200 | None => 404 end) "", x)
  | PDelete key => (PStatus 204 "", on_source (delete key) x)
  | PUploads pre _ _ => (PUpPage (List.filter (fun u => HasPrefix (fst u) pre) (pwUps x)) false "" "", x)
  | PAbort key id => (PStatus 204 "", mkPW (pwW x) (List.filter (fun u => negb (bool_decide (u = (key, id)))) (pwUps x)) (pwBucket x))
  | PDropBucket => if bool_decide (wSrc (pwW x) = ∅) then (PStatus 204 "", mkPW (pwW x) (pwUps x) false) else (PStatus 409 "BucketNotEmpty", x)
  | PFence | PDispatch | PCommit => (PDone, x)
  end.
Definition panswer (f : fate) (r : preq) (x : pworld) : prep * pworld :=
  match f with Served => pserve r x | Refused | Dropped => (PErr, x) | CarriedOut => (PErr, snd (pserve r x)) end.

Definition pclient (c : cact) (x : pworld) : option pworld := w ← client kept c (pwW x); Some (mkPW w (pwUps x) (pwBucket x)).
Definition pstep {A} (c : choice) (y : prog A * pworld) : option (prog A * pworld) :=
  match c, y with
  | Client c, (m, x) => x ← pclient c x; Some (m, x)
  | Answer f, (PAsk r k, x) => let '(rep, x) := panswer f r x in Some (k rep, x)
  | Answer _, (PRet _, _) => None
  end.
Fixpoint psteps {A} (cs : list choice) (y : prog A * pworld) : option (prog A * pworld) :=
  match cs with [] => Some y | c :: cs => y ← pstep c y; psteps cs y end.

(** ** A logic for the purge under its clients *)

Definition prely : pworld -> pworld -> Prop := rtc (fun x x' => exists c, pclient c x = Some x').

(** From [x], each request of [m] is made where [G] allows it, and [m] ends in [Q]. *)
Fixpoint pwp {A} (G : preq -> pworld -> Prop) (m : prog A) (Q : A -> pworld -> Prop) (x : pworld) {struct m} : Prop :=
  match m with
  | PRet a => Q a x
  | PAsk r k => forall x1, prely x x1 -> G r x1 /\ forall f, pwp G (k (fst (panswer f r x1))) Q (snd (panswer f r x1))
  end.

(** What clients keep, and what every request keeps too. *)
Definition pstable (P : pworld -> Prop) : Prop := forall c x x', pclient c x = Some x' -> P x -> P x'.
Definition invariant (P : pworld -> Prop) : Prop := pstable P /\ forall f r x, P x -> P (snd (panswer f r x)).

Lemma pstable_rely P x x' : pstable P -> prely x x' -> P x -> P x'.
Proof. intros HP. induction 1 as [|x x1 x2 [c Hc] _ IH]; [done|]. intros H. apply IH. by eapply HP. Qed.
Lemma pstable_lift P : stable kept P -> pstable (fun x => P (pwW x)).
Proof. intros HP c x x' Hc. unfold pclient in Hc. destruct (client kept c (pwW x)) as [w|] eqn:E; [|done]. injection Hc as <-. by eapply HP. Qed.
Lemma invariant_and P Q : invariant P -> invariant Q -> invariant (fun x => P x /\ Q x).
Proof. intros [H1 H2] [H3 H4]. split; [intros c x x' Hc [? ?]; split; [by eapply H1|by eapply H3]|intros f r x [? ?]; split; [by apply H2|by apply H4]]. Qed.

Lemma pwp_bind {A B} G (m : prog A) (k : A -> prog B) Q x : pwp G m (fun a x => pwp G (k a) Q x) x -> pwp G (m ≫= k) Q x.
Proof. revert x. induction m as [a|r f IH]; intros x H; [done|]. intros x1 Hr. destruct (H x1 Hr) as [Hg Hf]. split; [done|]. intros g. apply IH, Hf. Qed.
Lemma pwp_mono {A} G (m : prog A) (Q Q' : A -> pworld -> Prop) x : (forall a x, Q a x -> Q' a x) -> pwp G m Q x -> pwp G m Q' x.
Proof. intros HQ. revert x. induction m as [a|r f IH]; intros x H; [by apply HQ|]. intros x1 Hr. destruct (H x1 Hr) as [Hg Hf]. split; [done|]. intros g. apply IH, Hf. Qed.
Lemma pwp_try {A B} G (m : prog (result purgeErr A)) (k : A -> prog (result purgeErr B)) Q x :
  pwp G m (fun r x => match r with Ok a => pwp G (k a) Q x | Err e => Q (Err e) x end) x -> pwp G (try m k) Q x.
Proof. intros H. apply pwp_bind. eapply pwp_mono; [|exact H]. by intros [a|e] x1 H1. Qed.
(** A request, in a state of an invariant. *)
Lemma pwp_ask {A} G r (k : prep -> prog A) Q P x : invariant P -> P x -> (forall x1, P x1 -> G r x1) ->
  (forall x1, P x1 -> pwp G (k (fst (pserve r x1))) Q (snd (pserve r x1))) -> (forall x1, P x1 -> pwp G (k PErr) Q x1) -> pwp G (pask r ≫= k) Q x.
Proof.
  intros [HP Ha] Hx Hg Hs He x1 Hr. pose proof (pstable_rely _ _ _ HP Hr Hx) as Hx1. split; [by apply Hg|]. intros f. pose proof (Ha f r x1 Hx1) as Hx2. destruct f; cbn [panswer fst snd] in *; [by apply Hs|by apply He..].
Qed.

(** An invariant holds at the end. *)
Lemma pwp_frame {A} G (m : prog A) Q P x : invariant P -> P x -> pwp G m Q x -> pwp G m (fun a x => P x /\ Q a x) x.
Proof.
  intros HI. revert x. induction m as [a|r k IH]; intros x Hx H; [by split|]. intros x1 Hr. destruct (H x1 Hr) as [Hg Hf]. split; [done|]. intros f. apply IH, Hf. apply HI. by apply (pstable_rely P x x1 (proj1 HI)).
Qed.
Lemma invariant_pure (C : Prop) : invariant (fun _ => C).
Proof. split; [by intros c x x' _ H|by intros f r x H]. Qed.
Lemma invariant_if (C : Prop) P : invariant P -> invariant (fun x => C -> P x).
Proof. intros [H1 H2]. split; [intros c x x' Hc H HC; eapply H1; eauto|intros f r x H HC; apply H2; auto]. Qed.

(** What a run asks, and where it ends. *)
Lemma psteps_sound {A} G (m : prog A) Q cs x m' x' : (forall a, pstable (Q a)) -> pwp G m Q x -> psteps cs (m, x) = Some (m', x') -> pwp G m' Q x'.
Proof.
  intros HQ. revert m x. induction cs as [|c cs IH]; intros m x Hwp Hs; cbn in Hs; [by simplify_eq|]. destruct c as [c|f]; cbn in Hs.
  - destruct (pclient c x) as [x1|] eqn:Ec; cbn in Hs; [|done]. refine (IH m x1 _ Hs). destruct m as [b|r k]; [by eapply HQ|]. intros x2 Hr. apply Hwp. eapply rtc_l; [|exact Hr]. by exists c.
  - destruct m as [b|r k]; [done|]. destruct (Hwp x (rtc_refl _ _)) as [_ Hf]. specialize (Hf f). destruct (panswer f r x) as [rep x1]. cbn in Hs. exact (IH _ _ Hf Hs).
Qed.

(** ** The diff *)

(** No delete has its second leg to go with the source's object still there; the keys of [X] are on the
    primary where the source has them. *)
Notation moved := (moved kept).
Lemma invariant_moved X : invariant (fun x => moved X (pwW x)).
Proof.
  split; [apply (pstable_lift (fun w => moved X w)), stable_moved|]. intros f r x H k Hk. destruct (H k Hk) as [H1 H2].
  assert (forall x', (wSrc (pwW x') !! k = wSrc (pwW x) !! k \/ wSrc (pwW x') !! k = None) -> wDst (pwW x') = wDst (pwW x) -> wPending (pwW x') = wPending (pwW x) ->
    settled_src k (pwW x') /\ (X k -> present k (pwW x'))) as Hx.
  { intros x' Hs Hd Hp. assert (settled_src k (pwW x')) as Hset by (unfold settled_src, pending in *; rewrite Hp; destruct Hs as [->|]; auto). split; [done|]. intros HX. split; [done|].
    rewrite Hd. destruct Hs as [->|?]; [apply (H2 HX)|by left]. }
  assert (settled_src k (pwW (snd (pserve r x))) /\ (X k -> present k (pwW (snd (pserve r x))))) as Hs.
  { apply Hx; destruct r as [| |key| | | | | |]; cbn; try (by left); try done; try (case_bool_decide; by try left). destruct (decide (k = key)) as [->|]; [right; by rewrite lookup_delete_eq|left; by rewrite lookup_delete_ne]. }
  destruct f; cbn [panswer snd]; done.
Qed.
Lemma moved_more (X Y : string -> Prop) w : moved X w -> (forall k, kept k = true -> Y k -> X k \/ present k w) -> moved Y w.
Proof. intros H HY k Hk. destruct (H k Hk) as [H1 H2]. split; [done|]. intros Hy. destruct (HY k Hk Hy); auto. Qed.

(** Every moving key the source holds is in [X]. *)
Definition source_in (X : string -> Prop) (x : pworld) : Prop := forall k, kept k = true -> HasPrefix k prefix = true -> is_Some (wSrc (pwW x) !! k) -> X k.
Lemma invariant_source X : invariant (source_in X).
Proof.
  split.
  - apply (pstable_lift (fun w => forall k, kept k = true -> HasPrefix k prefix = true -> is_Some (wSrc w !! k) -> X k)). intros c w w' Hc H k Hk Hp Hs. apply H; [done..|].
    destruct (client_key kept k Hk c w w' Hc) as [(<- & _)|[(E & _)|(<- & _)]]; [done| |done]. rewrite E in Hs. by destruct Hs.
  - intros f r x H. assert (source_in X (snd (pserve r x))) as Hs; [|destruct f; cbn [panswer snd]; done]. intros k Hk Hp Hi. apply H; [done..|]. destruct r as [| |key| | | | | |]; cbn in Hi; try done; [|by case_bool_decide].
    destruct (decide (k = key)) as [->|]; [rewrite lookup_delete_eq in Hi; by destruct Hi|by rewrite lookup_delete_ne in Hi].
Qed.
Lemma source_more (X Y : string -> Prop) x : source_in X x -> (forall k, kept k = true -> HasPrefix k prefix = true -> is_Some (wSrc (pwW x) !! k) -> X k -> Y k) -> source_in Y x.
Proof. intros H HY k Hk Hp Hs. by apply HY, H. Qed.

(** What a walk has yet to give. *)
Definition ahead (l : lister) (k : string) : Prop := k ∈ (lsPage l).*1 \/ lsDone l = false /\ (lsNext l = "" \/ ~ String.le k (lsNext l)).

Lemma first_kept_Some page key size rest : first_kept keep page = Some (key, size, rest) ->
  kept key = true /\ key ∈ page.*1 /\ (forall k, k ∈ rest.*1 -> k ∈ page.*1) /\ (forall k, kept k = true -> k ∈ page.*1 -> k = key \/ k ∈ rest.*1).
Proof.
  induction page as [|[k0 s0] page IH]; cbn; [done|]. destruct (Purge.kept keep k0) eqn:E; [intros [= -> -> ->]; split_and!; [done|by left|by right|intros k _ Hk; by apply elem_of_cons in Hk]|].
  intros H. destruct (IH H) as (H1 & H2 & H3 & H4). split_and!; [done|by right|intros k Hk; right; by apply H3|]. intros k Hk Hin. apply elem_of_cons in Hin as [->|Hin]; [congruence|by apply H4].
Qed.
Lemma first_kept_None page k : first_kept keep page = None -> kept k = true -> k ∉ page.*1.
Proof. induction page as [|[k0 s0] page IH]; cbn; [intros _ _ H; by apply elem_of_nil in H|]. destruct (Purge.kept keep k0) eqn:E; [done|]. intros H Hk Hin. apply elem_of_cons in Hin as [->|Hin]; [congruence|by apply IH]. Qed.

(** The keys of a page that was served, and those after it. *)
Lemma page_keys m token pre : (entry_of m <$> take pageSize (list_keys m token pre)).*1 = take pageSize (list_keys m token pre).
Proof. generalize (take pageSize (list_keys m token pre)). intros l. induction l as [|k l IH]; [done|]. cbn. by rewrite IH. Qed.
Lemma take_in {A} n (l : list A) a : a ∈ take n l -> a ∈ l.
Proof. intros H. rewrite <- (take_drop n l). apply elem_of_app. by left. Qed.

Section diff.
Context (G : preq -> pworld -> Prop) (HGlist : forall b pre token x, G (PList b pre token) x) (HGhead : forall b key x, G (PHead b key) x).

(** The walk of the primary: each key it gives was there, so its object is on the primary where the source
    has it. *)
Lemma pwp_next_dst fuel l P X x : invariant P -> lsPrimary l = true -> P x -> moved (fun k => X k \/ k ∈ (lsPage l).*1) (pwW x) ->
  pwp G (nextKey keep prefix fuel l) (fun r x => P x /\ match r with Ok (d, l') => lsPrimary l' = true /\ moved (fun k => X k \/ k ∈ (lsPage l').*1 \/ d = Some k) (pwW x) | Err _ => True end) x.
Proof.
  intros HP. revert l x. induction fuel as [|fuel IH]; intros l x Hl Hx Hm; cbn [nextKey]; destruct (first_kept keep (lsPage l)) as [[[key size] rest]|] eqn:Ef.
  1, 3: destruct (first_kept_Some _ _ _ _ Ef) as (_ & H2 & H3 & _); split; [done|]; split; [done|]; apply (moved_more _ _ _ Hm); intros k _ [?|[?|[= <-]]]; left; auto.
  - destruct (lsDone l); [|done]. split; [done|]. split; [done|]. apply (moved_more _ _ _ Hm). intros k _ [?|[Hk|?]]; [by left; left|by apply elem_of_nil in Hk|done].
  - destruct (lsDone l); [split; [done|]; split; [done|]; apply (moved_more _ _ _ Hm); intros k _ [?|[Hk|?]]; [by left; left|by apply elem_of_nil in Hk|done]|].
    apply pwp_try. unfold listPage. apply (pwp_ask _ _ _ _ (fun x => P x /\ moved (fun k => X k \/ k ∈ (lsPage l).*1) (pwW x))); [apply invariant_and, invariant_moved; done|done|done| |by intros x1 [? _]].
    clear x Hx Hm. intros x [Hx Hm]. cbn [pserve fst snd]. rewrite Hl. apply IH; [done|done|]. cbn [lsPage]. rewrite page_keys. apply (moved_more _ _ _ Hm). intros k Hk [?|Hin]; [by left; left|right].
    split; [exact (proj1 (Hm k Hk))|]. right. apply take_in in Hin. by apply list_keys_in in Hin as [? _].
Qed.

(** The token of a page with more after it is a key of the page. *)
Lemma page_next m token pre : (1 < pageSize)%nat -> (pageSize < length (list_keys m token pre))%nat -> exists nx, last (take pageSize (list_keys m token pre)) = Some nx /\ nx <> "".
Proof.
  intros Hps. pose proof (list_keys_order m token pre) as Hs. revert Hs. generalize (list_keys m token pre). intros l Hs Hl. destruct l as [|a [|b l]]; cbn in Hl; [lia|lia|]. destruct pageSize as [|[|n]]; [lia|lia|].
  change (take (S (S n)) (a :: b :: l)) with (a :: b :: take n l). assert (exists nx, last (b :: take n l) = Some nx) as [nx Hn] by (destruct (last (b :: take n l)) eqn:E; [eauto|by apply last_None in E]).
  exists nx. split; [exact Hn|]. assert (nx ∈ b :: l) as Hin. { apply last_Some in Hn as [l' Hn]. apply (take_in (S n)). change (take (S n) (b :: l)) with (b :: take n l). rewrite Hn. apply elem_of_app. right. by apply list_elem_of_singleton. }
  apply StronglySorted_inv in Hs as [_ Hs]. apply (proj1 (Forall_forall _ _) Hs) in Hin as [H1 H2]. intros ->. apply H2. apply (anti_symm String.le); [done|]. by destruct a.
Qed.

(** The walk of the source: it gives every moving key the source keeps. *)
Lemma pwp_next_src fuel l P X x : (1 < pageSize)%nat -> invariant P -> lsPrimary l = false -> P x -> source_in (fun k => X k \/ ahead l k) x ->
  pwp G (nextKey keep prefix fuel l) (fun r x => P x /\ match r with
    | Ok (Some s, l') => lsPrimary l' = false /\ source_in (fun k => X k \/ k = s \/ ahead l' k) x
    | Ok (None, l') => source_in X x
    | Err _ => True end) x.
Proof.
  intros Hps HP. revert l x. induction fuel as [|fuel IH]; intros l x Hl Hx Hs; cbn [nextKey]; destruct (first_kept keep (lsPage l)) as [[[key size] rest]|] eqn:Ef.
  1, 3: destruct (first_kept_Some _ _ _ _ Ef) as (_ & _ & _ & H4); split; [done|]; split; [done|]; apply (source_more _ _ _ Hs); intros k Hk _ _ [?|[Hin|?]]; [by left|destruct (H4 k Hk Hin); [by right; left|right; right; by left]|right; right; by right].
  1, 2: destruct (lsDone l) eqn:Ed.
  1, 3: split; [done|]; apply (source_more _ _ _ Hs); intros k Hk _ _ [?|[Hin|[? _]]]; [done|by destruct (first_kept_None _ k Ef Hk)|congruence].
  - done.
  - apply pwp_try. unfold listPage. apply (pwp_ask _ _ _ _ (fun x => P x /\ source_in (fun k => X k \/ ahead l k) x)); [apply invariant_and, invariant_source; done|done|done| |by intros x1 [? _]].
    clear x Hx Hs. intros x [Hx Hs]. cbn [pserve fst snd]. rewrite Hl. set (m := wSrc (pwW x)). set (ks := list_keys m (lsNext l) prefix). apply IH; [done|done|].
    apply (source_more _ _ _ Hs). intros k Hk Hp Hin [?|[Hpg|[_ Hn]]]; [by left|by destruct (first_kept_None _ k Ef Hk)|right].
    assert (k ∈ ks) as Hks by (by apply list_keys_in). unfold ahead. cbn [lsPage lsNext lsDone]. unfold ks. rewrite page_keys. fold ks.
    destruct (page_covers pageSize m (lsNext l) prefix k ltac:(lia) Hks) as [?|[Hl1 Hl2]]; [by left|right]. destruct (page_next m (lsNext l) prefix Hps Hl1) as (nx & E1 & E2).
    fold ks in Hl1, Hl2, E1. rewrite (bool_decide_true (pageSize < length ks)%nat) by done. rewrite E1 in Hl2 |- *. cbn [default]. split; [by apply bool_decide_eq_false|by right].
Qed.

(** The two HEADs of a key the listings disagree on. *)
Lemma pwp_exists (b : bool) (key : string) P (Q : result purgeErr bool -> pworld -> Prop) x : invariant P -> P x ->
  (forall x1, P x1 -> Q (Ok (bool_decide (is_Some ((if b then wDst (pwW x1) else wSrc (pwW x1)) !! key)))) x1) -> (forall x1 e, P x1 -> Q (Err e) x1) -> pwp G (objectExists b key) Q x.
Proof.
  intros HP Hx Hs He. unfold objectExists. apply (pwp_ask _ _ _ _ P); [done|done|done| |intros x1 H1; by apply He]. intros x1 H1. cbn [pserve fst snd]. specialize (Hs x1 H1). destruct ((if b then _ else _) !! key) as [st|] eqn:E; cbn.
  - by rewrite bool_decide_true in Hs by eauto.
  - rewrite bool_decide_false in Hs by (by intros []). exact Hs.
Qed.

Lemma pwp_stillMissing s P X x : invariant P -> P x -> moved X (pwW x) ->
  pwp G (stillMissing s) (fun r x => P x /\ match r with Ok false => moved (fun k => X k \/ k = s) (pwW x) | _ => moved X (pwW x) end) x.
Proof.
  intros HP Hx Hm. assert (invariant (fun x => P x /\ moved X (pwW x))) as HI by (apply invariant_and, invariant_moved; done).
  apply pwp_try, (pwp_exists _ _ (fun x => P x /\ moved X (pwW x))); [done|done| |by intros x1 e]. clear x Hx Hm. intros x [Hx Hm]. case_bool_decide as E.
  - split; [done|]. apply (moved_more _ _ _ Hm). intros k Hk [?| -> ]; [by left|right]. split; [exact (proj1 (Hm s Hk))|by right].
  - apply (pwp_exists _ _ (fun x => P x /\ moved X (pwW x))); [done|done| |by intros x1 e]. clear x Hx Hm E. intros x [Hx Hm]. case_bool_decide as E; [by split|]. split; [done|].
    apply (moved_more _ _ _ Hm). intros k Hk [?| -> ]; [by left|right]. split; [exact (proj1 (Hm s Hk))|]. left. destruct (wSrc (pwW x) !! s) eqn:E'; [|done]. destruct E. eauto.
Qed.

(** The primary's walk up to a key. *)
Lemma pwp_advance fuel s d l P X x : invariant P -> lsPrimary l = true -> P x -> moved (fun k => X k \/ k ∈ (lsPage l).*1 \/ d = Some k) (pwW x) ->
  pwp G (advance keep prefix fuel s d l) (fun r x => P x /\ match r with Ok (d', l') => lsPrimary l' = true /\ moved (fun k => X k \/ k ∈ (lsPage l').*1 \/ d' = Some k) (pwW x) | Err _ => True end) x.
Proof.
  intros HP. revert d l x. induction fuel as [|fuel IH]; intros d l x Hl Hx Hm; cbn [advance]; destruct d as [k|]; try by split_and!.
  - destruct (negb _); by split_and!.
  - destruct (negb _); [|by split_and!]. apply pwp_try. eapply pwp_mono; [|apply (pwp_next_dst (S fuel) l P X); [done..|]]; [|apply (moved_more _ _ _ Hm); intros k' _ [?|?]; left; auto].
    intros [[d' l']|e] x1 [H1 H2]; [|by split]. destruct H2 as [H2 H3]. by apply IH.
Qed.

(** An empty diff: every moving key the source holds is on the primary. *)
Definition diff_ok (r : result purgeErr (list string * Z * Z)) (x : pworld) : Prop := match r with Ok ([], _, _) => moved (fun k => HasPrefix k prefix = true) (pwW x) | _ => True end.

Lemma pwp_missing_loop fuel limit src dst d missing X x : (1 < pageSize)%nat -> lsPrimary src = false -> lsPrimary dst = true ->
  moved (fun k => X k \/ k ∈ (lsPage dst).*1 \/ d = Some k) (pwW x) -> source_in (fun k => (X k \/ k ∈ missing) \/ ahead src k) x ->
  pwp G (missing_loop keep prefix fuel limit src dst d missing) diff_ok x.
Proof.
  intros Hps. revert src dst d missing X x. induction fuel as [|fuel IH]; intros src dst d missing X x Hs Hd Hm Hc; cbn [missing_loop]; [done|].
  apply pwp_try. eapply pwp_mono; [|apply (pwp_next_src (S fuel) src (fun x => moved (fun k => X k \/ k ∈ (lsPage dst).*1 \/ d = Some k) (pwW x)) (fun k => X k \/ k ∈ missing)); [done|apply invariant_moved|done..]].
  clear x Hm Hc src Hs. intros [[[s|] src]|e] x [Hm Hc]; [|cbn; destruct missing as [|]; [|done]|done].
  - destruct Hc as [Hs Hc]. set (S1 := fun k => (X k \/ k ∈ missing) \/ k = s \/ ahead src k) in *.
    apply pwp_try. eapply pwp_mono; [|apply (pwp_advance (Datatypes.S fuel) s d dst (source_in S1) X); [apply invariant_source|done..]]. clear x Hm Hc d dst Hd. intros [[d dst]|e] x [Hc H2]; [|done]. destruct H2 as [Hd Hm].
    case_bool_decide as Ed.
    + subst d. apply (IH _ _ _ _ (fun k => X k \/ k = s)); [done|done| |].
      * apply (moved_more _ _ _ Hm). intros k _ [[?| -> ]|[?|?]]; left; auto.
      * apply (source_more _ _ _ Hc). intros k _ _ _ [[?|?]|[?|?]]; auto.
    + apply pwp_try. eapply pwp_mono; [|apply (pwp_stillMissing s (source_in S1) (fun k => X k \/ k ∈ (lsPage dst).*1 \/ d = Some k)); [apply invariant_source|done..]]. clear x Hm Hc. intros [[|]|e] x [Hc Hm]; [| |done].
      * cbn [negb]. cbv zeta. destruct (limit <=? _)%nat; [cbn; by destruct missing|]. apply (IH _ _ _ _ X); [done|done|done|]. apply (source_more _ _ _ Hc).
        intros k _ _ _ [[?|?]|[?|?]]; [by left; left|left; right; apply elem_of_app; by left|left; right; subst; apply elem_of_app; right; by apply list_elem_of_singleton|by right].
      * cbn [negb]. apply (IH _ _ _ _ (fun k => X k \/ k = s)); [done|done| |].
        -- apply (moved_more _ _ _ Hm). intros k _ [[?|?]|[?|?]]; left; auto.
        -- apply (source_more _ _ _ Hc). intros k _ _ _ [[?|?]|[?|?]]; auto.
  - apply (moved_more _ _ _ Hm). intros k Hk Hp. destruct (wSrc (pwW x) !! k) as [st|] eqn:E; [left; left|right; split; [exact (proj1 (Hm k Hk))|by left]].
    destruct (Hc k Hk Hp) as [?|Hn]; [by rewrite E|done|by apply elem_of_nil in Hn].
Qed.

Lemma pwp_missingOn fuel limit x : (1 < pageSize)%nat -> moved (fun _ => False) (pwW x) -> pwp G (missingOn keep prefix fuel limit) (fun r x => moved (fun _ => False) (pwW x) /\ diff_ok r x) x.
Proof.
  intros Hps Hm. apply pwp_frame; [apply invariant_moved|done|]. apply pwp_try. eapply pwp_mono; [|apply (pwp_next_dst fuel (new_lister true) (source_in (fun _ => True)) (fun _ => False)); [apply invariant_source|done|by intros ????|]].
  - intros [[d dst]|e] x1 [H1 H2]; [|done]. destruct H2 as [Hd H2]. apply (pwp_missing_loop _ _ _ _ _ _ (fun _ => False)); [done|done|done|exact H2|]. intros k _ _ _. right. right. split; [done|by left].
  - apply (moved_more _ _ _ Hm). intros k _ [[]|Hk]. by apply elem_of_nil in Hk.
Qed.
End diff.

(** ** The deletes *)

(** A delete is of a moving key that is on the primary, or no longer on the source; the bucket goes once no
    moving key is left in it. *)
Definition safe (r : preq) (x : pworld) : Prop :=
  match r with
  | PDelete key => kept key = true /\ HasPrefix key prefix = true /\ (wSrc (pwW x) !! key = None \/ is_Some (wDst (pwW x) !! key))
  | PDropBucket => source_in (fun _ => False) x
  | _ => True
  end.
Notation checked := (fun x => moved (fun k => HasPrefix k prefix = true) (pwW x)).
Lemma invariant_checked : invariant checked.
Proof. apply invariant_moved. Qed.

Lemma pwp_abort_uploads ups n x : pwp safe (abort_uploads keep ups n) (fun _ _ => True) x.
Proof.
  revert n x. induction ups as [|[key id] ups IH]; intros n x; cbn [abort_uploads]; [done|]. destruct (negb _); [apply IH|].
  apply (pwp_ask _ _ _ _ (fun _ => True)); [by split|done|done| |done]. intros x1 _. cbn. apply IH.
Qed.

Lemma pwp_delete_entries entries n x : (forall k, k ∈ entries.*1 -> HasPrefix k prefix = true) -> checked x ->
  pwp safe (delete_entries keep entries n) (fun r x => match r with Ok m => (n <= m)%Z /\ (m = n -> forall k, k ∈ entries.*1 -> kept k = false) | Err _ => True end) x.
Proof.
  revert n x. induction entries as [|[key size] entries IH]; intros n x He Hx; cbn [delete_entries]; [split; [lia|]; intros _ k Hk; by apply elem_of_nil in Hk|].
  assert (forall k, k ∈ entries.*1 -> HasPrefix k prefix = true) as He' by (intros k Hk; apply He; by right). destruct (Purge.kept keep key) eqn:Ek; cbn [negb].
  - apply (pwp_ask _ _ _ _ checked); [apply invariant_checked|done| | |done].
    + intros x1 H1. destruct (H1 key Ek) as [_ H2]. assert (HasPrefix key prefix = true) as Hp by (apply He; by left). split; [done|]. split; [done|]. apply H2, Hp.
    + intros x1 H1. cbn [pserve fst snd removed]. eapply pwp_mono; [|apply IH; [done|exact (proj2 invariant_checked Served (PDelete key) x1 H1)]]. intros [m|e] x2; [|done]. intros [H2 _]. split; [lia|]. intros ->. lia.
  - eapply pwp_mono; [|apply (IH n x He' Hx)]. intros [m|e] x2; [|done]. intros [H2 H3]. split; [done|]. intros E k Hk. apply elem_of_cons in Hk as [->|Hk]; [done|by apply H3].
Qed.

(** What a listing of the source showed. *)
Lemma source_page token (C : Prop) x : (1 < pageSize)%nat -> (C -> source_in (fun k => token = "" \/ ~ String.le k token) x) ->
  let ks := list_keys (wSrc (pwW x)) token prefix in let next := if bool_decide (pageSize < length ks)%nat then default "" (last (take pageSize ks)) else "" in
  (forall k, k ∈ take pageSize ks -> HasPrefix k prefix = true) /\ (C -> source_in (fun k => k ∈ take pageSize ks \/ next <> "" /\ ~ String.le k next) x).
Proof.
  intros Hps Hc ks next. split; [intros k Hk; apply take_in in Hk; by apply list_keys_in in Hk as (_ & ? & _)|]. intros HC. apply (source_more _ _ _ (Hc HC)). intros k Hk Hp Hin Ht.
  assert (k ∈ ks) as Hks by (by apply list_keys_in). destruct (page_covers pageSize _ token prefix k ltac:(lia) Hks) as [?|[Hl1 Hl2]]; [by left|right].
  destruct (page_next _ token prefix Hps Hl1) as (nx & E1 & E2). unfold next. fold ks in Hl1, Hl2, E1. rewrite bool_decide_true, E1 by done. rewrite E1 in Hl2. done.
Qed.

Lemma pwp_range_walk fuel token n (C : Prop) x : (1 < pageSize)%nat -> checked x -> (C -> source_in (fun k => token = "" \/ ~ String.le k token) x) ->
  pwp safe (range_walk keep prefix fuel token n) (fun r x => match r with Ok m => (n <= m)%Z /\ (C -> m = n -> source_in (fun _ => False) x) | Err _ => True end) x.
Proof.
  intros Hps. revert token n C x. induction fuel as [|fuel IH]; intros token n C x Hx Hc; cbn [range_walk]; [done|].
  apply pwp_try. unfold listPage. apply (pwp_ask _ _ _ _ (fun x => checked x /\ (C -> source_in (fun k => token = "" \/ ~ String.le k token) x))); [apply invariant_and; [apply invariant_checked|apply invariant_if, invariant_source]|done|done| |done].
  clear x Hx Hc. intros x [Hx Hc]. cbn [pserve fst snd]. destruct (source_page token C x Hps Hc) as [Hp Hs]. set (ks := list_keys (wSrc (pwW x)) token prefix) in *.
  set (next := if bool_decide (pageSize < length ks)%nat then default "" (last (take pageSize ks)) else "") in *. cbv zeta in Hp, Hs.
  assert ((entry_of (wSrc (pwW x)) <$> take pageSize ks).*1 = take pageSize ks) as Ek by apply page_keys. revert Ek. generalize (entry_of (wSrc (pwW x)) <$> take pageSize ks). intros entries Ek. cbn [done].
  change (pwp safe (try (delete_entries keep entries n) (fun m => if bool_decide (next = "") then done m else range_walk keep prefix fuel next m)) (fun r x => match r with Ok m => (n <= m)%Z /\ (C -> m = n -> source_in (fun _ => False) x) | Err _ => True end) x).
  apply pwp_try. eapply pwp_mono; [|eapply (pwp_frame _ _ _ (fun x => checked x /\ (C -> source_in (fun k => k ∈ take pageSize ks \/ next <> "" /\ ~ String.le k next) x)));
    [apply invariant_and; [apply invariant_checked|apply invariant_if, invariant_source]|done|apply pwp_delete_entries; [by rewrite Ek|done]]].
  intros [m|e] x1 [[H1 H2] H3]; [|done]. rewrite Ek in H3. destruct H3 as [Hle H3]. case_bool_decide as En.
  - split; [done|]. intros HC E k Hk Hp1 Hin. destruct (H2 HC k Hk Hp1 Hin) as [Hpg|[? _]]; [|done]. by rewrite (H3 E k Hpg) in Hk.
  - eapply pwp_mono; [|apply (IH next m (C /\ m = n) x1 H1)].
    + intros [m'|e] x2; [|done]. intros [H4 H5]. split; [lia|]. intros HC E. apply H5; [split; [done|lia]|lia].
    + intros [HC E]. apply (source_more _ _ _ (H2 HC)). intros k Hk _ _ [Hpg|[_ Hn]]; [by rewrite (H3 E k Hpg) in Hk|by right].
Qed.

Definition gone_if_ok {A} (r : result purgeErr A) (x : pworld) : Prop := match r with Ok _ => source_in (fun _ => False) x | Err _ => True end.

Lemma pwp_range_objects fuel n x : (1 < pageSize)%nat -> checked x -> pwp safe (range_objects keep prefix fuel n) gone_if_ok x.
Proof.
  intros Hps. revert n x. induction fuel as [|fuel IH]; intros n x Hx; cbn [range_objects]; [done|]. apply pwp_try.
  eapply pwp_mono; [|eapply (pwp_frame _ _ _ checked); [apply invariant_checked|exact Hx|apply (pwp_range_walk (S fuel) "" 0 True); [done|done|intros _ k _ _ _; by left]]].
  intros [m|e] x1 [H1 H2]; [|done]. destruct H2 as [_ H2]. destruct (m =? 0)%Z eqn:E; [apply H2; [done|lia]|by apply IH].
Qed.

(** The whole bucket: every key moves, and the listing is of all of them. *)
Lemma pwp_empty_objects fuel n x : (1 < pageSize)%nat -> keep = None -> prefix = "" -> checked x -> pwp safe (empty_objects keep fuel n) gone_if_ok x.
Proof.
  intros Hps Hk Hp. revert n x. induction fuel as [|fuel IH]; intros n x Hx; cbn [empty_objects]; [done|]. apply pwp_try. unfold listPage.
  apply (pwp_ask _ _ _ _ checked); [apply invariant_checked|done|done| |done]. clear x Hx. intros x Hx. cbn [pserve fst snd]. set (m := wSrc (pwW x)).
  assert ((entry_of m <$> take pageSize (list_keys m "" "")).*1 = take pageSize (list_keys m "" "")) as Ek by apply page_keys. destruct (entry_of m <$> take pageSize (list_keys m "" "")) as [|e entries] eqn:Ee.
  - intros k _ _ Hin. cbn in Ek. assert (k ∈ list_keys m "" "") as Hks by (apply list_keys_in; split; [exact Hin|]; split; [by destruct k|by left]). destruct (list_keys m "" ""); [by apply elem_of_nil in Hks|]. destruct pageSize; [lia|done].
  - change (pwp safe (try (delete_entries keep (e :: entries) n) (fun n => empty_objects keep fuel n)) gone_if_ok x). apply pwp_try.
    eapply pwp_mono; [|eapply (pwp_frame _ _ _ checked); [apply invariant_checked|exact Hx|apply pwp_delete_entries; [|exact Hx]]].
    + intros [n'|e'] x1 [H1 _]; [by apply IH|done].
    + intros k _. rewrite Hp. by destruct k.
Qed.

Lemma pwp_empty_uploads fuel n x : pwp safe (empty_uploads keep fuel n) (fun _ _ => True) x.
Proof.
  revert n x. induction fuel as [|fuel IH]; intros n x; cbn [empty_uploads]; [done|]. apply (pwp_ask _ _ _ _ (fun _ => True)); [by split|done|done| |done].
  intros x1 _. cbn [pserve fst snd]. destruct (List.filter _ _) as [|u ups]; [done|]. apply pwp_try. eapply pwp_mono; [|apply pwp_abort_uploads]. intros [n'|e] x2 _; [apply IH|done].
Qed.
Lemma pwp_range_uploads fuel km im n x : pwp safe (range_uploads keep prefix fuel km im n) (fun _ _ => True) x.
Proof.
  revert km im n x. induction fuel as [|fuel IH]; intros km im n x; cbn [range_uploads]; [done|]. apply (pwp_ask _ _ _ _ (fun _ => True)); [by split|done|done| |done].
  intros x1 _. cbn [pserve fst snd]. apply pwp_try. eapply pwp_mono; [|apply pwp_abort_uploads]. by intros [n'|e] x2 _.
Qed.

Lemma pwp_emptied {A B} (m1 : prog (result purgeErr A)) (m2 : prog (result purgeErr B)) x : checked x -> pwp safe m1 (fun _ _ => True) x -> (forall x1, checked x1 -> pwp safe m2 gone_if_ok x1) ->
  pwp safe (try m1 (fun uploads => try m2 (fun objects => done (objects, uploads)))) gone_if_ok x.
Proof.
  intros Hx H1 H2. apply pwp_try. eapply pwp_mono; [|eapply (pwp_frame _ _ _ checked); [apply invariant_checked|exact Hx|exact H1]]. intros [a|e] x1 [Hx1 _]; [|done].
  apply pwp_try. eapply pwp_mono; [|by apply H2]. by intros [b|e] x2.
Qed.
Lemma pwp_emptyRange fuel x : (1 < pageSize)%nat -> checked x -> pwp safe (emptyRange keep prefix fuel) gone_if_ok x.
Proof. intros Hps Hx. apply pwp_emptied; [done|apply pwp_range_uploads|]. intros x1 H1. by apply pwp_range_objects. Qed.
Lemma pwp_empty fuel x : (1 < pageSize)%nat -> keep = None -> prefix = "" -> checked x -> pwp safe (empty_ keep fuel) gone_if_ok x.
Proof. intros Hps Hk Hp Hx. apply pwp_emptied; [done|apply pwp_empty_uploads|]. intros x1 H1. by apply pwp_empty_objects. Qed.

Lemma pwp_deleteBucket x : source_in (fun _ => False) x -> pwp safe deleteBucket gone_if_ok x.
Proof.
  intros Hx. apply (pwp_ask _ _ _ _ (source_in (fun _ => False))); [apply invariant_source|done|done| |done]. intros x1 H1. cbn [pserve]. case_bool_decide; done.
Qed.
End purge.

(** ** The operation *)

Section run.
Context (pageSize : nat) (p : Placement) (Hps : (1 < pageSize)%nat).
Notation K := (plKeep (plan_of p)).
Notation PX := (plPrefix (plan_of p)).
Notation safe := (safe K PX).
Notation pwp := (pwp pageSize K safe).
Notation settled x := (moved (kept K) (fun _ => False) (pwW x)).
Notation checked x := (moved (kept K) (fun k => HasPrefix k PX = true) (pwW x)).
Notation gone := (gone_if_ok K PX).

(** A plan of this placement, whose diff was empty. *)
Definition good_plan (plan : purgePlan) (x : pworld) : Prop := plKeep plan = K /\ plPrefix plan = PX /\ checked x.
Lemma invariant_good plan : invariant pageSize K (good_plan plan).
Proof. apply invariant_and; [apply invariant_pure|]. apply invariant_and; [apply invariant_pure|]. apply invariant_moved. Qed.
Lemma whole_plan : K = None -> PX = "".
Proof. unfold plan_of. by destruct (pMove p). Qed.

Lemma pwp_purgeChecks fuel fence x : settled x -> pwp (purgeChecks fuel p fence) (fun r x => settled x /\ match r with Ok plan => good_plan plan x | Err _ => True end) x.
Proof.
  intros Hx. apply pwp_frame; [apply invariant_moved|done|]. unfold purgeChecks. destruct (purgeState p); [|done].
  assert (forall x1, settled x1 -> pwp (try (missingOn K PX fuel 20) (fun '(missing, objects, _) =>
    match missing with [] => done (mkPlan K PX (plDrop (plan_of p)) objects) | _ => fails (ENotSubset missing) end)) (fun r x => match r with Ok plan => good_plan plan x | Err _ => True end) x1) as Hd.
  { intros x1 H1. apply pwp_try. eapply pwp_mono; [|apply (pwp_missingOn pageSize K PX safe); [done|done|done|exact H1]]. intros [[[[|k l] n] b]|e] x2 [_ H2]; try done. }
  destruct fence; [|apply Hd, Hx]. apply (pwp_ask _ _ _ _ _ _ (fun x => settled x)); [apply invariant_moved|done|done| |done]. intros x1 H1. cbn [pserve fst snd]. by apply Hd.
Qed.

Lemma pwp_purge_commit fuel drained dispatched x : settled x -> (forall plan, drained = Some plan -> dispatched = false -> good_plan plan x) ->
  pwp (purge_commit fuel p drained dispatched) (fun r x => settled x /\ gone r x) x.
Proof.
  intros Hx Hd. apply pwp_frame; [apply invariant_moved|done|]. unfold purge_commit. apply pwp_try. eapply pwp_mono; [|instantiate (1 := fun r x => match r with Ok plan => good_plan plan x | Err _ => True end)].
  - clear x Hx Hd. intros [plan|e] x Hx; [|done]. destruct Hx as (H1 & H2 & H3). rewrite H1, H2. apply pwp_try. eapply pwp_mono; [|instantiate (1 := fun r x => gone r x)].
    + intros [counts|e] x1 Hg; [|done]. apply pwp_try. eapply pwp_mono; [|instantiate (1 := fun r x => gone r x); destruct (plDrop plan); [by apply pwp_deleteBucket|done]].
      intros [u|e] x2 Hg2; [|done]. apply (pwp_ask _ _ _ _ _ _ (source_in K PX (fun _ => False))); [apply invariant_source|done|done| |done]. intros x3 H4. exact H4.
    + destruct K as [f|] eqn:E.
      * rewrite <- E in *. by apply pwp_emptyRange.
      * rewrite <- E in *. apply pwp_empty; [done|done|by apply whole_plan|done].
  - destruct dispatched; [eapply pwp_mono; [|by apply pwp_purgeChecks]; by intros r x1 [_ H]|]. destruct drained as [plan|]; [|done].
    apply (pwp_ask _ _ _ _ _ _ (good_plan plan)); [apply invariant_good|by apply Hd|done| |done]. intros x1 H1. exact H1.
Qed.

Lemma pwp_purge_attempts again fuel drained dispatched x : settled x -> (forall plan, drained = Some plan -> dispatched = false -> good_plan plan x) ->
  pwp (purge_attempts again fuel p drained dispatched) (fun r x => gone r x) x.
Proof.
  revert dispatched x. induction again as [|again IH]; intros dispatched x Hx Hd; cbn [purge_attempts]; apply pwp_bind; (eapply pwp_mono; [|by apply pwp_purge_commit]); intros [c|[]] x1 [H1 H2]; try done.
  all: by apply IH.
Qed.

Lemma pwp_drained_diff polls fuel x : settled x -> pwp (drained_diff polls fuel p) (fun r x => settled x /\ match r with Ok plan => good_plan plan x | Err _ => True end) x.
Proof.
  revert x. induction polls as [|polls IH]; intros x Hx; cbn [drained_diff]; apply pwp_bind; (eapply pwp_mono; [|by apply pwp_purgeChecks]); intros [plan|e] x1 [H1 H2]; try done.
  by apply IH.
Qed.

Lemma pwp_runPurge polls again fuel x : settled x -> pwp (runPurge polls again fuel p) (fun r x => gone r x) x.
Proof.
  intros Hx. apply pwp_try. eapply pwp_mono; [|by apply pwp_purgeChecks]. intros [pl|e] x1 [H1 _]; [|done]. apply pwp_try. eapply pwp_mono; [|by apply pwp_drained_diff].
  intros [plan|e] x2 [H2 H3]; [|done]. apply pwp_purge_attempts; [done|]. by intros plan' [= <-] _.
Qed.
End run.

(** ** The property *)

(** The keys a purge of the placement is for. *)
Definition purged_key (p : Placement) (key : string) : bool := kept (plKeep (plan_of p)) key && HasPrefix key (plPrefix (plan_of p)).


(** ** Runs *)

Definition cut_over : Placement :=
  zeroPlacement |> set_State StateCutover |> set_Primary "b" |> set_Source "a" |> set_Names (Some {["a" := "dst-a"; "b" := "dst-b"]}) |> set_Cutover (Some (mkCutover 0 60 f0)).
Definition purge_world (src dst : list (string * object)) : pworld :=
  let m l := list_to_map ((fun x => (fst x, mkStored (snd x) 0 false)) <$> l) in mkPW (mkWorld (m src) (m dst) ∅ ∅ 0 ∅ ∅) [("k", "u1")] true.
Notation purge_run cs x := (psteps 2 (plKeep (plan_of cut_over)) cs (runPurge 0 0 9 cut_over, x)).

(** A purge of an object both sides have, with a write of another key meanwhile: to its first delete, and
    to its end. *)
Definition both_sides : pworld := purge_world [("k", plain "x")] [("k", plain "x")].
Definition busy : list choice := served 6 ++ [Client (CPut "n" (plain "y"))].

(** The diff refuses a source that holds what the primary lacks. *)
Example purge_refused : fst <$> purge_run (served 5) (purge_world [("k", plain "x")] []) = Some (PRet (Err (ENotSubset ["k"]))).
Proof. vm_compute. reflexivity. Qed.

Definition asked {A} (y : option (prog A * pworld)) : option preq := match y with Some (PAsk r _, _) => Some r | _ => None end.
Lemma busy_asks : asked (purge_run (busy ++ served 4) both_sides) = Some (PDelete "k").
Proof. vm_compute. reflexivity. Qed.

