(* ===== verification/MoverCases.v ===== *)
(** * A migration end to end (internal/proxy/resign.go with internal/mover)

    What the request path and the mover do together to one object whose multipart upload began before its
    bucket's migration: the upload id keeps the request that completes it on the source. *)

From S2P Require Import Prelude Float64 KeyHash HashRange S3Op Config Crypto Strconv Civil Chunked SigV4 BodyPlan Placement Route Backend Directory S3Names Admission Keeper Conditional Resign ResignSafe Mover MoverSafe Purge PurgeSafe.

(** The buckets after the completion: the target has the copy the mover made of the object the key had
    before, the source the object the client completed. *)
Definition completed_world : world :=
  mkWorld {["k" := mkStored (plain "new") 9 false]} {["k" := mkStored (plain "old") 5 true]} ∅ ∅ 9 ∅ ∅.
Definition later_pass : option (io (option (stats * option moveErr)) * world) := pass_run (served 9) completed_world.

(** An upload completed during a migration is lost. While the bucket migrates, the request that completes
    an upload begun on the source is sent to the source, whatever the target holds and with no token of the
    source's gate; every read of the key goes to the target first. Where the mover has already copied the key's earlier object, it skips the
    key from then on: its next pass copies nothing, fails nothing and reports the placement converged, and
    the target's object is still the earlier one. *)
Theorem completed_upload_lost :
  let f := site_file (split_bucket StateMigrating "dst") (at_rest "b" "src-b") in let post := ResignSafe.client "POST" "/dst/k" "uploadId=aaaaaa~x" ∅ in
  iOp (info_of site_domains post) = OpCompleteMultipartUpload /\ summary (prepare f New post) = (Some ("t/dst", Mutations), None, Some ("a", "dst-a")) /\
  routed (split_bucket StateMigrating "dst") "k" = Ok (Some ("b", "dst-b"), [("b", "dst-b"); ("a", "dst-a")]) /\
  exists s w, later_pass = Some (Return (Some (s, None)), w) /\ stSkipped s = 1%Z /\ pgConverged (reportPass whole_job 2 s "" true) = true /\
    sdObj <$> wDst w !! "k" = Some (plain "old") /\ sdObj <$> wSrc w !! "k" = Some (plain "new").
Proof.
  split_and!; [vm_compute; reflexivity..|].
  destruct later_pass as [[[[[s [e|]]|]|r k] w]|] eqn:E; [vm_compute in E; discriminate| |vm_compute in E; discriminate..]. exists s, w. split; [reflexivity|].
  vm_compute in E. injection E as <- <-. vm_compute. split_and!; reflexivity.
Qed.

(** The source's bucket while it is purged: its barrier in the directory, and the gate of its source closed. *)
Definition purging : Placement := split_bucket StateCutover "dst" |> set_Cutover (Some (mkCutover 0 60 f0)) |> set_Barrier (Some (mkBarrier "purge-1" BarrierSource)).
Definition purging_gates : Gates := put_gate "t/dst" (mkGate (mkPer "" "purge-1") 7 (mkPer 0%Z 0%Z) (mkPer 0%Z 0%Z)) New.

(** The completion of an upload reaches the source between the purge's last diff and its deletes. *)
Definition completes (key : string) (o : object) (y : option (prog (result purgeErr (Z * Z)) * pworld)) : option (prog (result purgeErr (Z * Z)) * pworld) :=
  '(m, x) ← y; Some (m, on_source <[key := mkStored o 0 false]> x).
Definition late_completion : option (prog (result purgeErr (Z * Z)) * pworld) :=
  y ← completes "n" (plain "y") (psteps 2 None (served 6) (runPurge 0 0 9 purging, both_sides)); psteps 2 None (served 9) y.

(** An upload completed during a purge is deleted.  Under the purge's barrier and with the source's gate closed,
    the request that completes an upload begun on the source is still admitted and sent there; completed
    after the purge's last diff, its object is deleted with the rest and is on neither cluster at the end. *)
Lemma late_upload_purged :
  summary (prepare (site_file purging (at_rest "b" "src-b")) purging_gates (ResignSafe.client "POST" "/dst/k" "uploadId=aaaaaa~x" ∅)) = (Some ("t/dst", Mutations), None, Some ("a", "dst-a")) /\
  match late_completion with Some (PRet r, x) => Some (r, wSrc (pwW x) !! "n", wDst (pwW x) !! "n") | _ => None end = Some (Ok (2, 1)%Z, None, None).
Proof. split; vm_compute; reflexivity. Qed.
