(* ===== verification/Exchange.v ===== *)
(** * The exchange with a backend (internal/proxy: handler.go, copy.go, buckets.go, gates.go)

    What happens to a prepared request: a migration delete's first leg, the attempts over a cluster's
    endpoints, and the relay of the answer, with what the proxy learns of the outcome.  A barrier counts a
    request as drained only when its outcome is known, so the point of this file is when the handler says
    that it is.  The transport is a parameter: how each attempt ends, and the reads of an answer's body. *)

From S2P Require Import Prelude S3Op Route Crypto Strconv Keeper.

(** ** The answer of a mutation (copy.go) *)

(** [answerWatch]: the array of the last bytes and how many of it count. *)
Record answerWatch : Type := mkWatch { awEOF : bool; awResult : bool; awTail : bytes; awLen : nat }.
Definition tailSize : nat := 64.
Definition newWatch (result : bool) : answerWatch := mkWatch false result (repeat "000"%char tailSize) 0.

(** Go's [copy] into [dst] from [off] on. *)
Definition copy_at (dst : bytes) (off : nat) (src : bytes) : bytes := take off dst ++ take (length dst - off) src ++ drop (off + length src) dst.

Definition record (a : answerWatch) (b : bytes) : answerWatch :=
  if (length (awTail a) <=? length b)%nat then
    mkWatch (awEOF a) (awResult a) (copy_at (awTail a) 0 (drop (length b - length (awTail a)) b)) (Nat.min (length (awTail a)) (length (drop (length b - length (awTail a)) b)))
  else
    let keep := (length (awTail a) - length b)%nat in
    let '(tail, n) := if (keep <? awLen a)%nat then (copy_at (awTail a) 0 (take keep (drop (awLen a - keep) (awTail a))), keep) else (awTail a, awLen a) in
    mkWatch (awEOF a) (awResult a) (copy_at tail n b) (n + Nat.min (length tail - n) (length b)).

Definition resultClosings : list bytes := [B "</CompleteMultipartUploadResult>"; B "</CopyObjectResult>"; B "</CopyPartResult>"; B "</Error>"].
Definition blank (c : Ascii.ascii) : bool := bool_decide (c ∈ [" "; "009"; "013"; "010"]%char).
Definition trim_right (b : bytes) : bytes := reverse (trim_left blank (reverse b)).
Definition has_suffix (b suffix : bytes) : bool := bool_decide (drop (length b - length suffix) b = suffix).

Definition whole (a : answerWatch) : bool :=
  if negb (awEOF a) then false
  else if negb (awResult a) then true
  else existsb (has_suffix (trim_right (take (awLen a) (awTail a)))) resultClosings.

(** [progressReader.Read] over an answer's body: the reads that were made, and whether the last met its end. *)
Definition watch_read (a : answerWatch) (b : bytes) : answerWatch := if awResult a && negb (bool_decide (b = [])) then record a b else a.
Definition watch_end (a : answerWatch) : answerWatch := mkWatch true (awResult a) (awTail a) (awLen a).

(** ** Attempts *)

(** An answer: its status, the reads its body gives, whether they end (or fail), and after how many the relay
    to the client stops. *)
Record resp : Type := mkResp { rsStatus : Z; rsReads : list bytes; rsEnds : bool; rsStop : nat }.

(** How an attempt ends: the request is not built, the connection is refused with so much of the client's body
    read, it fails later (because the client's body was rejected, or not) with so much of the body read and
    decoded, or it is answered. *)
Inductive trip : Type :=
| TBuild
| TConnect (count : Z)
| TFail (rejected : bool) (count decoded : Z)
| TResponse (r : resp).

(** What [dispatched] says of an attempt: whether, having failed, it may have reached the backend whole. *)
Definition sent_of (hasBody : bool) (count : Z) : option Z := if hasBody then Some count else None.
Definition landed (t : trip) (hasBody : bool) (contentLength : Z) : bool :=
  match t with
  | TBuild => dispatched true false true (sent_of hasBody 0) contentLength
  | TConnect count => dispatched true true false (sent_of hasBody count) contentLength
  | TFail _ count _ => dispatched true false false (sent_of hasBody count) contentLength
  | TResponse _ => dispatched false false false (sent_of hasBody 0) contentLength
  end.

(** [roundTrip]: the next of the cluster's endpoints is tried while the connection is refused and nothing of
    the body was read; [more] of them after this one. *)
Fixpoint roundTrip (more attempt : nat) (hasBody : bool) (trips : nat -> trip) : trip :=
  match trips attempt, more with
  | TConnect count, S more => if negb hasBody || (count =? 0)%Z then roundTrip more (S attempt) hasBody trips else TConnect count
  | t, _ => t
  end.

(** ** The relay *)

Definition isRedirect (status : Z) : bool := bool_decide (status ∈ [301; 302; 303; 307; 308]%Z).
Definition resultInBody (op : Op) : bool := bool_decide (op ∈ [OpCompleteMultipartUpload; OpCopyObject; OpUploadPartCopy]).
Definition maxAnswerDrain : nat := Z.to_nat 1048576.

(** The relay's reads: what is left to read, and whether the end was met. *)
Fixpoint relay_reads (stop : nat) (reads : list bytes) (ends : bool) (a : answerWatch) : list bytes * answerWatch :=
  match stop, reads with
  | O, _ => (reads, a)
  | S _, [] => ([], if ends then watch_end a else a)
  | S stop, b :: reads => relay_reads stop reads ends (watch_read a b)
  end.

(** [io.Copy(io.Discard, io.LimitReader(src, maxAnswerDrain))] *)
Fixpoint drain (limit : nat) (reads : list bytes) (ends : bool) (a : answerWatch) : answerWatch :=
  if (limit =? 0)%nat then a
  else match reads with
       | [] => if ends then watch_end a else a
       | b :: reads => if (length b <=? limit)%nat then drain (limit - length b) reads ends (watch_read a b) else watch_read a (take limit b)
       end.

(** [learnAnswer]: what the answer of a mutation leaves unknown. *)
Definition learnAnswer (op : Op) (r : resp) : bool :=
  let '(rest, a) := relay_reads (rsStop r) (rsReads r) (rsEnds r) (newWatch ((rsStatus r =? 200)%Z && resultInBody op)) in
  negb (whole (if awEOF a then a else drain maxAnswerDrain rest (rsEnds r) a)).

(** ** The handler *)

(** The request's body: its length as the client announced it, and the decoded length where a decoder reads it. *)
Record inBody : Type := mkBody { ibContentLength : Z; ibDecodedLen : option Z }.

(** [afterDeleteBucket]: whether the backend's answer is still relayed; [removed] is whether the directory took
    the removal of the placement, or had none. *)
Definition afterDeleteBucket (op : Op) (placed removed : bool) (status : Z) : bool :=
  if negb (bool_decide (op = OpDeleteBucket)) || negb placed then true
  else if negb (bool_decide (status ∈ [204; 200; 404]%Z)) then true
  else removed.

(** The exchange of [ServeHTTP] for a re-signed request: the source's leg of a migration delete first, then
    the attempts at the placement's cluster; what stays unknown of the two. *)
Definition exchange (op : Op) (method : string) (both placed removed : bool) (body : option inBody) (endpoints otherEndpoints : nat) (main other : nat -> trip) : bool * bool :=
  let srcUncertain := both && landed (roundTrip (otherEndpoints - 1) 0 false other) false 0 in
  let uncertain :=
    match roundTrip (endpoints - 1) 0 (bool_decide (is_Some body)) main with
    | TResponse r =>
        if isRedirect (rsStatus r) then false
        else if negb (afterDeleteBucket op placed removed (rsStatus r)) then false
        else Mutates op method && learnAnswer op r
    | TFail true count decoded as t =>
        match body ≫= ibDecodedLen with
        | Some decodedLen => (decodedLen <=? decoded)%Z && (0 <? decodedLen)%Z
        | None => landed t (bool_decide (is_Some body)) (from_option ibContentLength 0%Z body)
        end
    | t => landed t (bool_decide (is_Some body)) (from_option ibContentLength 0%Z body)
    end in
  (uncertain, srcUncertain).

(** ** The tail of a body *)

Definition last_bytes (n : nat) (b : bytes) : bytes := drop (length b - n) b.
Definition tail_of (a : answerWatch) : bytes := take (awLen a) (awTail a).
Definition wf_watch (a : answerWatch) : Prop := length (awTail a) = tailSize /\ (awLen a <= tailSize)%nat.

Lemma length_copy_at dst off src : (off <= length dst)%nat -> length (copy_at dst off src) = length dst.
Proof. intros H. unfold copy_at. rewrite !length_app, !length_take, length_drop. lia. Qed.
Lemma take_copy_at dst off src n : (off + length src <= length dst)%nat -> n = (off + length src)%nat -> take n (copy_at dst off src) = take off dst ++ src.
Proof.
  intros H ->. unfold copy_at. rewrite (take_ge src) by lia. rewrite app_assoc, take_app_le by (rewrite length_app, length_take; lia). apply take_ge. rewrite length_app, length_take. lia.
Qed.

Lemma last_bytes_app n (x y : bytes) : last_bytes n (x ++ y) = if (n <=? length y)%nat then last_bytes n y else last_bytes (n - length y) x ++ y.
Proof.
  unfold last_bytes. rewrite length_app. destruct (n <=? length y)%nat eqn:E; [apply Nat.leb_le in E|apply Nat.leb_gt in E].
  - rewrite drop_app_ge by lia. f_equal. lia.
  - rewrite drop_app_le by lia. f_equal. f_equal. lia.
Qed.
Lemma last_bytes_idem m n (x : bytes) : (m <= n)%nat -> last_bytes m (last_bytes n x) = last_bytes m x.
Proof. intros H. unfold last_bytes. rewrite length_drop, drop_drop. f_equal. lia. Qed.

(** The watch of a body keeps its last bytes, however it is read. *)
Lemma record_tail a b : wf_watch a -> wf_watch (record a b) /\ awEOF (record a b) = awEOF a /\ awResult (record a b) = awResult a /\ tail_of (record a b) = last_bytes tailSize (tail_of a ++ b).
Proof.
  intros [Ht Hn]. unfold record. destruct (length (awTail a) <=? length b)%nat eqn:E; [apply Nat.leb_le in E|apply Nat.leb_gt in E].
  - assert (length (drop (length b - length (awTail a)) b) = length (awTail a)) as Hl by (rewrite length_drop; lia). unfold wf_watch, tail_of. cbn [awEOF awResult awTail awLen].
    rewrite length_copy_at by lia. split_and!; [done|lia|done|done|]. rewrite take_copy_at by lia. cbn [take app]. rewrite last_bytes_app, Ht in *. rewrite (proj2 (Nat.leb_le tailSize (length b))) by lia. done.
  - set (keep := (length (awTail a) - length b)%nat). assert (exists tail n, (if (keep <? awLen a)%nat then (copy_at (awTail a) 0 (take keep (drop (awLen a - keep) (awTail a))), keep) else (awTail a, awLen a)) = (tail, n) /\
      length tail = tailSize /\ (n <= keep)%nat /\ take n tail = last_bytes keep (tail_of a)) as (tail & n & -> & H1 & H2 & H3).
    { unfold tail_of, last_bytes. destruct (keep <? awLen a)%nat eqn:Ek; [apply Nat.ltb_lt in Ek|apply Nat.ltb_ge in Ek]; eexists _, _; (split; [reflexivity|]).
      - assert (length (take keep (drop (awLen a - keep) (awTail a))) = keep) as Hl by (rewrite length_take, length_drop; lia). rewrite length_copy_at by lia. split_and!; [done|lia|]. rewrite take_copy_at by lia. cbn [take app].
        rewrite length_take, Nat.min_l by lia. rewrite take_drop_commute. by replace (awLen a - keep + keep)%nat with (awLen a) by lia.
      - split_and!; [done|done|]. rewrite length_take. replace (Nat.min (awLen a) (length (awTail a)) - keep)%nat with 0%nat by lia. done. }
    unfold wf_watch, tail_of at 2. cbn [awEOF awResult awTail awLen]. rewrite length_copy_at by lia. split_and!; [done|lia|done|done|]. unfold tail_of at 1. cbn [awTail awLen].
    rewrite take_copy_at by lia. rewrite H3, last_bytes_app. rewrite (proj2 (Nat.leb_gt tailSize (length b))) by lia. unfold keep. by rewrite Ht.
Qed.

(** ** The whole of an answer *)

(** A body that ends with a result or an error, and blanks. *)
Definition closed_body (b : bytes) : Prop := exists pre c ws, b = pre ++ c ++ ws /\ c ∈ resultClosings /\ Forall (fun x => blank x = true) ws.

Lemma trim_left_spec f b : exists ws, b = ws ++ trim_left f b /\ Forall (fun x => f x = true) ws.
Proof. induction b as [|c b (ws & E & Hw)]; [by exists []|]. cbn [trim_left]. destruct (f c) eqn:Ef; [exists (c :: ws); split; [cbn; by f_equal|by constructor]|by exists []]. Qed.
Lemma trim_right_spec b : exists ws, b = trim_right b ++ ws /\ Forall (fun x => blank x = true) ws.
Proof.
  destruct (trim_left_spec blank (reverse b)) as (ws & E & Hw). exists (reverse ws). split; [|by apply Forall_reverse]. unfold trim_right. rewrite <- reverse_app, <- E. by rewrite reverse_involutive.
Qed.
Lemma trim_left_app f ws (b : bytes) x : Forall (fun x => f x = true) ws -> f x = false -> trim_left f (ws ++ x :: b) = x :: b.
Proof. induction 1 as [|c ws Hc _ IH]; intros Hx; cbn; [by rewrite Hx|]. rewrite Hc. by apply IH. Qed.
Lemma trim_right_app b x ws : Forall (fun x => blank x = true) ws -> blank x = false -> trim_right ((b ++ [x]) ++ ws) = b ++ [x].
Proof. intros Hw Hx. unfold trim_right. rewrite reverse_app, reverse_snoc, trim_left_app; [|by apply Forall_reverse|done]. by rewrite reverse_cons, reverse_involutive. Qed.

Lemma has_suffix_true b suffix : has_suffix b suffix = true -> b = take (length b - length suffix) b ++ suffix.
Proof. intros H. apply bool_decide_eq_true in H. rewrite <- H at 2. by rewrite take_drop. Qed.
Lemma has_suffix_app b suffix : has_suffix (b ++ suffix) suffix = true.
Proof. apply bool_decide_eq_true. rewrite length_app. replace (length b + length suffix - length suffix)%nat with (length b) by lia. apply drop_app_length. Qed.

(** The state of the watch after the bytes [s] of a body. *)
Definition watched (a : answerWatch) (s : bytes) : Prop := awResult a = true -> wf_watch a /\ tail_of a = last_bytes tailSize s.

Lemma watched_new result : watched (newWatch result) [].
Proof. intros _. split; [by split; [|cbn; lia]|done]. Qed.
Lemma watched_read a s b : watched a s -> watched (watch_read a b) (s ++ b) /\ awEOF (watch_read a b) = awEOF a /\ awResult (watch_read a b) = awResult a.
Proof.
  intros H. unfold watch_read. destruct (awResult a) eqn:Er; cbn [andb]; [|split; [intros E; congruence|done]]. case_bool_decide as Eb; cbn [negb]; [subst; by rewrite app_nil_r|].
  destruct (H Er) as [Hw Ht]. destruct (record_tail a b Hw) as (H1 & H2 & H3 & H4). split; [|by rewrite H3]. intros _. split; [done|].
  rewrite H4, Ht, !last_bytes_app. destruct (tailSize <=? length b)%nat; [done|]. by rewrite last_bytes_idem by lia.
Qed.

Lemma whole_sound a s : watched a s -> whole a = true -> awEOF a = true /\ (awResult a = true -> closed_body s).
Proof.
  intros H Hw. unfold whole in Hw. destruct (awEOF a); [|done]. split; [done|]. intros Er. rewrite Er in Hw. cbn [negb] in Hw. destruct (H Er) as [_ Ht]. fold (tail_of a) in Hw. rewrite Ht in Hw.
  apply existsb_exists in Hw as (c & Hc & Hs). apply has_suffix_true in Hs. destruct (trim_right_spec (last_bytes tailSize s)) as (ws & E & Hws). rewrite Hs in E.
  exists (take (length s - tailSize) s ++ take (length (trim_right (last_bytes tailSize s)) - length c) (trim_right (last_bytes tailSize s))), c, ws.
  split; [|split; [by apply list_elem_of_In|done]]. rewrite <- (take_drop (length s - tailSize) s) at 1. fold (last_bytes tailSize s). rewrite E at 1. by rewrite <- !app_assoc.
Qed.

(** A result that closes within the last bytes is seen. *)
Lemma whole_complete a pre c ws : watched a (pre ++ c ++ ws) -> awEOF a = true -> c ∈ resultClosings -> (length (c ++ ws) <= tailSize)%nat -> Forall (fun x => blank x = true) ws -> whole a = true.
Proof.
  intros H He Hc Hl Hws. unfold whole. rewrite He. cbn [negb]. destruct (awResult a) eqn:Er; cbn [negb]; [|done]. destruct (H Er) as [_ Ht]. fold (tail_of a). rewrite Ht. apply existsb_exists. exists c. split; [by apply list_elem_of_In|].
  assert (exists x d, c = d ++ [x] /\ blank x = false) as (x & d & -> & Hx).
  { assert (Forall (fun c => c = removelast c ++ [">"%char]) resultClosings) as Hf by (repeat (constructor; [vm_compute; reflexivity|]); constructor). exists ">"%char, (removelast c). split; [by apply (proj1 (Forall_forall _ _) Hf)|done]. }
  assert (exists y, last_bytes tailSize (pre ++ (d ++ [x]) ++ ws) = y ++ (d ++ [x]) ++ ws) as [y ->].
  { rewrite last_bytes_app. destruct (tailSize <=? _)%nat eqn:E; [|by eexists]. apply Nat.leb_le in E. exists []. unfold last_bytes. by rewrite (proj2 (Nat.sub_0_le _ _)) by lia. }
  rewrite !app_assoc. rewrite trim_right_app by done. rewrite <- app_assoc. apply has_suffix_app.
Qed.

(** ** What the relay and the rest of the answer show *)

Lemma relay_spec stop reads ends a s rest a' : watched a s -> awEOF a = false -> relay_reads stop reads ends a = (rest, a') ->
  exists got, reads = got ++ rest /\ watched a' (s ++ concat got) /\ awResult a' = awResult a /\ (awEOF a' = true -> rest = [] /\ ends = true).
Proof.
  revert reads a s. induction stop as [|stop IH]; intros reads a s Hw He Hr; cbn [relay_reads] in Hr.
  - injection Hr as <- <-. exists []; cbn [concat]; rewrite ?app_nil_r. split_and!; [done..|let E := fresh in intros E; rewrite He in E; discriminate E].
  - destruct reads as [|b reads]; [injection Hr as <- <-; exists []; cbn [concat]; rewrite ?app_nil_r; destruct ends; split_and!; try done; try exact Hw; let E := fresh in intros E; rewrite He in E; discriminate E|].
    destruct (watched_read a s b Hw) as (H1 & H2 & H3). destruct (IH reads _ _ H1 (eq_trans H2 He) Hr) as (got & -> & H4 & H5 & H6). exists (b :: got). cbn [concat]. rewrite app_assoc. split_and!; [done|done|by rewrite H5|done].
Qed.

Lemma drain_spec limit reads ends a s : watched a s -> awEOF a = false -> exists got, watched (drain limit reads ends a) (s ++ got) /\ awResult (drain limit reads ends a) = awResult a /\
  (awEOF (drain limit reads ends a) = true -> got = concat reads /\ ends = true) /\ ((length (concat reads) < limit)%nat -> ends = true -> awEOF (drain limit reads ends a) = true).
Proof.
  revert limit a s. induction reads as [|b reads IH]; intros limit a s Hw He; cbn [drain]; (destruct (limit =? 0)%nat eqn:El; [apply Nat.eqb_eq in El; exists []; rewrite ?app_nil_r; split_and!; [done|done|intros E; congruence|intros Hl; lia]|]).
  - exists []. rewrite ?app_nil_r. destruct ends; split_and!; try done; try exact Hw; intros E; congruence.
  - destruct (length b <=? limit)%nat eqn:Eb.
    + apply Nat.leb_le in Eb. destruct (watched_read a s b Hw) as (H1 & H2 & H3). destruct (IH (limit - length b)%nat _ _ H1 (eq_trans H2 He)) as (got & H4 & H5 & H6 & H7). exists (b ++ got). rewrite app_assoc. split_and!; [done|by rewrite H5| |].
      * intros E. destruct (H6 E) as [-> ?]. done.
      * cbn [concat]. rewrite length_app. intros Hl. apply H7. lia.
    + apply Nat.leb_gt in Eb. destruct (watched_read a s (take limit b) Hw) as (H1 & H2 & H3). exists (take limit b). split_and!; [done|done|intros E; congruence|cbn [concat]; rewrite length_app; intros; lia].
Qed.

(** The bytes of an answer whose backend has finished with the request. *)
Definition finished (op : Op) (r : resp) : Prop := rsEnds r = true /\ (rsStatus r = 200%Z -> resultInBody op = true -> closed_body (concat (rsReads r))).

Lemma learn_sound op r : learnAnswer op r = false -> finished op r.
Proof.
  unfold learnAnswer. destruct (relay_reads _ _ _ _) as [rest a] eqn:Er. intros Hl. apply negb_false_iff in Hl. destruct (relay_spec _ _ _ _ [] _ _ (watched_new _) eq_refl Er) as (got & Eg & H1 & H2 & H3). cbn [app] in H1.
  destruct (awEOF a) eqn:Ea.
  - destruct (H3 eq_refl) as [-> He]. rewrite app_nil_r in Eg. destruct (whole_sound _ _ H1 Hl) as [_ Hc]. split; [done|]. intros E1 E2. rewrite Eg. apply Hc. rewrite H2. cbn. by rewrite E1, E2.
  - destruct (drain_spec maxAnswerDrain rest (rsEnds r) a _ H1 Ea) as (got' & H4 & H5 & H6 & _). destruct (whole_sound _ _ H4 Hl) as [He Hc]. destruct (H6 He) as [-> Hends]. split; [done|]. intros E1 E2.
    rewrite Eg, concat_app. apply Hc. rewrite H5, H2. cbn. by rewrite E1, E2.
Qed.

(** An answer of the usual size that ends, and whose result closes it, is learnt. *)
Lemma learn_complete op r pre c ws : rsEnds r = true -> (length (concat (rsReads r)) < maxAnswerDrain)%nat ->
  ((rsStatus r =? 200)%Z && resultInBody op = true -> concat (rsReads r) = pre ++ c ++ ws /\ c ∈ resultClosings /\ (length (c ++ ws) <= tailSize)%nat /\ Forall (fun x => blank x = true) ws) -> learnAnswer op r = false.
Proof.
  intros He Hl Hc. unfold learnAnswer. destruct (relay_reads _ _ _ _) as [rest a] eqn:Er. destruct (relay_spec _ _ _ _ [] _ _ (watched_new _) eq_refl Er) as (got & Eg & H1 & H2 & H3). cbn [app] in H1. cbn [awResult newWatch] in H2.
  apply negb_false_iff. assert (exists a', (if awEOF a then a else drain maxAnswerDrain rest (rsEnds r) a) = a' /\ watched a' (concat (rsReads r)) /\ awEOF a' = true /\ awResult a' = awResult a) as (a' & -> & H4 & H5 & H6).
  { destruct (awEOF a) eqn:Ea; eexists; (split; [reflexivity|]).
    - destruct (H3 eq_refl) as [-> _]. rewrite app_nil_r in Eg. by rewrite Eg.
    - destruct (drain_spec maxAnswerDrain rest (rsEnds r) a _ H1 Ea) as (got' & H5 & H6 & H7 & H8). assert (awEOF (drain maxAnswerDrain rest (rsEnds r) a) = true) as E by (apply H8; [rewrite Eg, concat_app, length_app in Hl; lia|done]).
      destruct (H7 E) as [-> _]. rewrite Eg, concat_app. done. }
  destruct ((rsStatus r =? 200)%Z && resultInBody op) eqn:Eo; [|unfold whole; rewrite H5, H6, H2; reflexivity]. destruct (Hc eq_refl) as (E & Hin & Hlen & Hws). rewrite E in H4. by eapply whole_complete.
Qed.

(** ** The property *)

(** What the handler takes of an attempt that failed: when the backend has the whole request, the client's
    body was read to its end, or was rejected by a decoder that had already given every byte of it. *)
Definition transport_law (body : option inBody) (complete : trip -> bool) : Prop :=
  (forall count, complete (TConnect count) = false) /\ complete TBuild = false /\
  forall rejected count decoded, complete (TFail rejected count decoded) = true ->
    match body with
    | None => True
    | Some b => match ibDecodedLen b with
                | Some n => if rejected then (0 < n)%Z /\ (n <= decoded)%Z else (ibContentLength b < 0)%Z \/ (ibContentLength b <= count)%Z
                | None => (ibContentLength b < 0)%Z \/ (ibContentLength b <= count)%Z
                end
    end.

(** An attempt after which a backend may still change: it has the request, and its answer was not whole. *)
Definition may_land (op : Op) (placed removed : bool) (complete : trip -> bool) (t : trip) : Prop :=
  match t with
  | TResponse r => isRedirect (rsStatus r) = false /\ afterDeleteBucket op placed removed (rsStatus r) = true /\ ~ finished op r
  | t => complete t = true
  end.

Lemma roundTrip_attempts more attempt hasBody trips : exists n, roundTrip more attempt hasBody trips = trips (attempt + n)%nat /\ forall i, (i < n)%nat -> exists count, trips (attempt + i)%nat = TConnect count.
Proof.
  revert attempt. induction more as [|more IH]; intros attempt; cbn [roundTrip].
  - exists 0%nat. rewrite Nat.add_0_r. split; [by destruct (trips attempt)|lia].
  - destruct (trips attempt) as [|count| |] eqn:E; try (exists 0%nat; rewrite Nat.add_0_r; split; [done|lia]). destruct (_ || _); [|exists 0%nat; rewrite Nat.add_0_r; split; [done|lia]].
    destruct (IH (S attempt)) as (n & -> & H). exists (S n). split; [f_equal; lia|]. intros [|i] Hi; [rewrite Nat.add_0_r; eauto|]. destruct (H i ltac:(lia)) as [c Hc]. exists c. rewrite <- Hc. f_equal. lia.
Qed.


(** The decoder's last byte is given before the client's last one is read: a chunked body whose final chunk
    has not arrived is whole for the backend and not for [landed], and a failure then counts as known. *)
Lemma unread_final_chunk : exchange OpPutObject "PUT" false true true (Some (mkBody 200 (Some 5%Z))) 1 0 (fun _ => TFail false 110 5) (fun _ => TBuild) = (false, false).
Proof. reflexivity. Qed.

(** The answer to a completed upload of which the client reads only the start. *)
Definition slow_completion : resp := mkResp 200 [B "  "; B "<CompleteMultipartUploadResult>..</Complete"; B "MultipartUploadResult>"; ["010"%char]] true 1.
Definition second_endpoint (n : nat) : trip := match n with O => TConnect 0 | _ => TResponse slow_completion end.
Definition never_complete (t : trip) : bool := match t with TResponse _ => true | _ => false end.

Example completions : exchange OpCompleteMultipartUpload "POST" false true true (Some (mkBody 10 None)) 2 0 second_endpoint (fun _ => TBuild) = (false, false) /\
  exchange OpCompleteMultipartUpload "POST" false true true (Some (mkBody 10 None)) 1 0 (fun _ => TResponse (mkResp 200 [B "  "] true 9)) (fun _ => TBuild) = (true, false).
Proof. vm_compute. split; reflexivity. Qed.

