(* ===== verification/SpreadList.v ===== *)
(** * The listing of a spread bucket (internal/proxy/spreadlist.go)

    A bucket spread over legs is listed from every leg that can hold a key under the prefix: each leg's pages,
    without the keys it does not own, are merged in name order, and every page resumes every leg after the last
    name it sent.  The backends are those of Listing; their contract is the one stated there, and one more, of
    delimiters: nothing is listed under a common prefix but the prefix itself. *)

From S2P Require Import Prelude Float64 KeyHash HashRange Config Placement S3Op Route Backend S3Names Scopes Listing.
From Stdlib Require Import Sorting.Sorted.

(** ** Tokens *)

(** [afterPrefix], U+10FFFF in UTF-8. *)
Definition afterPrefix : string := String "244" (String "143" (String "191" (String "191" ""))).

Record spreadToken : Type := mkSpread { spLast : string; spPrefix : bool; spDone : list string }.

(** [decodeSpreadToken], given what the base64 JSON holds. *)
Definition decodeSpreadToken (json : option spreadToken) : option spreadToken :=
  t ← json; if bool_decide (spLast t = "") && (spPrefix t || negb (bool_decide (spDone t = []))) then None else Some t.

(** The parameters of a listing request, and its continuation token as it decodes. *)
Record listQuery : Type := mkQuery {
  lqV1 : bool; lqPrefix : string; lqDelimiter : string; lqMarker : string; lqStartAfter : string;
  lqToken : option (option spreadToken); lqMaxKeys : option nat;
}.

(** Where the page starts; none when the token is not one of these. *)
Definition token_of (q : listQuery) : option spreadToken :=
  if lqV1 q && negb (bool_decide (lqMarker q = "")) then
    Some (mkSpread (lqMarker q) (negb (bool_decide (lqDelimiter q = "")) && HasSuffix (lqMarker q) (lqDelimiter q)) [])
  else match lqToken q with
       | Some t => if lqV1 q then Some (mkSpread "" false []) else decodeSpreadToken t
       | None => Some (mkSpread (if lqV1 q then "" else lqStartAfter q) false [])
       end.

Definition resume_after (tok : spreadToken) : string := if spPrefix tok then spLast tok +:+ afterPrefix else spLast tok.

(** [pageSize]: what one leg is asked for, when so many are read. *)
Definition leg_page (maxKeys live : nat) : nat :=
  if (1 <? live)%nat then Nat.max (Nat.min maxKeys (maxKeys / live + maxKeys / (4 * live) + 16)) 1 else Nat.max maxKeys 1.

(** ** Legs *)

Section Spread.
Context {obj : Type} (p : Placement) (after startAfter : string).

Record spreadLeg : Type := mkLegSide { slId : string; slAsk : backend_fn obj; slSide : listSide (obj := obj) }.
Definition with_side (l : spreadLeg) (s : listSide) : spreadLeg := mkLegSide (slId l) (slAsk l) s.
Definition with_items (s : listSide (obj := obj)) (items : list (listItem obj)) : listSide := mkSide (lsUsed s) (lsNext s) (lsDone s) (lsStarted s) (lsMissing s) items.

(** [own]: whether a leg's entry is kept. *)
Definition own (id : string) (it : listItem obj) : bool :=
  liPrefix it ||
  match pMove p with Some m => (bool_decide (id = mvFrom m) || bool_decide (id = mvTo m)) && InMove p (liName it) | None => false end ||
  match OwnerOf p (liName it) with Ok owner => bool_decide (owner = id) | Err _ => false end.

(** [fetch]; a missing bucket fails it. *)
Definition fetch (l : spreadLeg) : result () spreadLeg :=
  match fetchListPage (slAsk l) after startAfter (slSide l) with
  | Err e => Err e
  | Ok (false, _) => Err ()
  | Ok (true, s) => Ok (with_side l (with_items s (List.filter (own (slId l)) (lsItems s))))
  end.

(** [head] *)
Fixpoint head_leg (fuel : nat) (l : spreadLeg) : option (result () (option (listItem obj) * spreadLeg)) :=
  let s := slSide l in
  match lsItems s with
  | it :: _ => Some (Ok (Some it, l))
  | [] =>
      if lsDone s then Some (Ok (None, l))
      else if lsStarted s && bool_decide (lsNext s = "") then
        Some (Ok (None, with_side l (mkSide (lsUsed s) (lsNext s) true (lsStarted s) (lsMissing s) (lsItems s))))
      else
        let s := if lsStarted s then mkSide (lsNext s) (lsNext s) (lsDone s) (lsStarted s) (lsMissing s) (lsItems s) else s in
        match fuel with
        | O => None
        | S fuel => match fetch (with_side l s) with Err e => Some (Err e) | Ok l => head_leg fuel l end
        end
  end.

(** A head of every leg in turn; one that fails fails the listing. *)
Fixpoint heads (fuel : nat) (legs : list spreadLeg) : option (result () (list (option (listItem obj)) * list spreadLeg)) :=
  match legs with
  | [] => Some (Ok ([], []))
  | l :: legs =>
      match head_leg fuel l with
      | None => None
      | Some (Err e) => Some (Err e)
      | Some (Ok (h, l)) => match heads fuel legs with Some (Ok (hs, legs)) => Some (Ok (h :: hs, l :: legs)) | r => r end
      end
  end.

(** The first of the least names. *)
Definition lesser (least h : option (listItem obj)) : option (listItem obj) :=
  match h, least with
  | None, _ => least
  | Some it, None => Some it
  | Some it, Some b => if str_ltb (liName it) (liName b) then Some it else Some b
  end.
Definition least (hs : list (option (listItem obj))) : option (listItem obj) := foldl lesser None hs.

(** Every leg whose next entry has the name gives it up; the destination's entry is the one sent. *)
Definition pop_leg (l : spreadLeg) : spreadLeg := with_side l (pop (slSide l)).
Definition names (name : string) (l : spreadLeg) : option (listItem obj) :=
  match lsItems (slSide l) with it :: _ => if bool_decide (liName it = name) then Some it else None | [] => None end.
Fixpoint take_name (name : string) (take : listItem obj) (legs : list spreadLeg) : listItem obj * list spreadLeg :=
  match legs with
  | [] => (take, [])
  | l :: legs =>
      match names name l with
      | Some it =>
          let take := match pMove p with Some m => if bool_decide (slId l = mvTo m) then it else take | None => take end in
          let '(take, legs) := take_name name take legs in (take, pop_leg l :: legs)
      | None => let '(take, legs) := take_name name take legs in (take, l :: legs)
      end
  end.

(** The merge: up to [n] more entries. *)
Fixpoint spread_loop (fuel n : nat) (legs : list spreadLeg) (emitted : list (listItem obj)) : option (result () (list (listItem obj) * list spreadLeg)) :=
  match n with
  | O => Some (Ok (emitted, legs))
  | S n =>
      match heads fuel legs with
      | None => None
      | Some (Err e) => Some (Err e)
      | Some (Ok (hs, legs)) =>
          match least hs with
          | None => Some (Ok (emitted, legs))
          | Some it => let '(take, legs) := take_name (liName it) it legs in spread_loop fuel n legs (emitted ++ [take])
          end
      end
  end.

(** The first pages are read at once; a leg the token says is exhausted is not read. *)
Fixpoint first_pages (legs : list spreadLeg) : result () (list spreadLeg) :=
  match legs with
  | [] => Ok []
  | l :: legs => l ← if lsDone (slSide l) then Ok l else fetch l; legs ← first_pages legs; Ok (l :: legs)
  end.

End Spread.

Arguments spreadLeg : clear implicits.

(** ** The page *)

Inductive spreadAnswer (obj : Type) : Type :=
| SBadToken
| SUnavailable
| SFailed
| SPage (items : list (listItem obj)) (truncated : bool) (next : option spreadToken) (maxKeys : nat).
Arguments SBadToken {obj}.
Arguments SUnavailable {obj}.
Arguments SFailed {obj}.
Arguments SPage {obj} items truncated next maxKeys.

(** The clusters a front end knows: a bucket of one, asked for pages of so many keys. *)
Definition clusters (obj : Type) : Type := string -> option (string -> nat -> backend_fn obj).

Fixpoint build_legs {obj} (cls : clusters obj) (p : Placement) (done : list string) (page : nat) (ids : list string) : option (list (spreadLeg obj)) :=
  match ids with
  | [] => Some []
  | id :: ids =>
      ask ← cls (legCluster (mget zeroLeg id (pLegs p)));
      legs ← build_legs cls p done page ids;
      Some (mkLegSide id (ask (legBucket (mget zeroLeg id (pLegs p))) page) (new_side "" (bool_decide (id ∈ done))) :: legs)
  end.

Definition exhausted {obj} (hs : list (option (listItem obj))) (legs : list (spreadLeg obj)) : list string :=
  omap (fun hl : option (listItem obj) * spreadLeg obj => match hl.1 with None => Some (slId hl.2) | Some _ => None end) (zip hs legs).

Definition spreadListing {obj} (fuel : nat) (cls : clusters obj) (p : Placement) (q : listQuery) : option (spreadAnswer obj) :=
  let maxKeys := page_size (lqMaxKeys q) in
  match token_of q with
  | None => Some SBadToken
  | Some tok =>
      let after := resume_after tok in
      let ids := ListingLegs p (lqPrefix q) in
      let live := length (List.filter (fun id => negb (bool_decide (id ∈ spDone tok))) ids) in
      match build_legs cls p (spDone tok) (leg_page maxKeys live) ids with
      | None => Some SUnavailable
      | Some legs =>
          match first_pages p after (lqStartAfter q) legs with
          | Err _ => Some SFailed
          | Ok legs =>
              match spread_loop p after (lqStartAfter q) fuel maxKeys legs [] with
              | None => None
              | Some (Err _) => Some SFailed
              | Some (Ok (emitted, legs)) =>
                  match heads p after (lqStartAfter q) fuel legs with
                  | None => None
                  | Some (Err _) => Some SFailed
                  | Some (Ok (hs, legs)) =>
                      let truncated := existsb (fun h => bool_decide (is_Some h)) hs in
                      let next := if truncated then (fun it => mkSpread (liName it) (liPrefix it) (exhausted hs legs)) <$> last emitted else None in
                      Some (SPage emitted truncated next maxKeys)
                  end
              end
          end
      end
  end.

(** The client's next request: the token, or for ListObjects the last name as the marker. *)
Definition next_query (q : listQuery) (t : spreadToken) : listQuery :=
  if lqV1 q then mkQuery true (lqPrefix q) (lqDelimiter q) (spLast t) (lqStartAfter q) None (lqMaxKeys q)
  else mkQuery false (lqPrefix q) (lqDelimiter q) (lqMarker q) (lqStartAfter q) (Some (Some t)) (lqMaxKeys q).

(** A client that follows the pages, at most so many. *)
Fixpoint list_spread {obj} (pages fuel : nat) (cls : clusters obj) (p : Placement) (q : listQuery) : option (list (listItem obj)) :=
  match pages with
  | O => None
  | S pages =>
      match spreadListing fuel cls p q with
      | Some (SPage items false _ _) => Some items
      | Some (SPage items true (Some t) _) => app items <$> list_spread pages fuel cls p (next_query q t)
      | _ => None
      end
  end.

(** ** Sorted lists *)

(** The names after [after]. *)
Definition above {obj} (after : string) (it : listItem obj) : bool := bool_decide (after = "") || negb (String.leb (liName it) after).

Lemma filter_all {A} (f : A -> bool) l : (forall x, x ∈ l -> f x = true) -> List.filter f l = l.
Proof. induction l as [|x l IH]; intros H; [done|]. cbn. rewrite (H x) by set_solver. f_equal. apply IH. set_solver. Qed.
Lemma filter_none {A} (f : A -> bool) l : (forall x, x ∈ l -> f x = false) -> List.filter f l = [].
Proof. induction l as [|x l IH]; intros H; [done|]. cbn. rewrite (H x) by set_solver. apply IH. set_solver. Qed.
Lemma elem_of_lfilter {A} (f : A -> bool) l x : x ∈ List.filter f l <-> x ∈ l /\ f x = true.
Proof. rewrite !list_elem_of_In. apply filter_In. Qed.
Lemma lfilter_lfilter {A} (f g : A -> bool) l : List.filter f (List.filter g l) = List.filter (fun x => g x && f x) l.
Proof. induction l as [|x l IH]; [done|]. cbn. destruct (g x); cbn; [destruct (f x)|]; by rewrite IH. Qed.
Lemma lfilter_ext {A} (f g : A -> bool) l : (forall x, x ∈ l -> f x = g x) -> List.filter f l = List.filter g l.
Proof. induction l as [|x l IH]; intros H; [done|]. cbn. rewrite (H x) by set_solver. rewrite IH by set_solver. done. Qed.
Lemma sorted_lfilter {A} (R : A -> A -> Prop) (f : A -> bool) l : StronglySorted R l -> StronglySorted R (List.filter f l).
Proof. induction 1 as [|x l _ IH Hx]; cbn; [constructor|]. destruct (f x); [|done]. constructor; [done|]. rewrite Forall_forall in *. intros y [Hy _]%elem_of_lfilter. by apply Hx. Qed.

Lemma above_trans {obj} after (x y : listItem obj) : above after x = true -> String.le (liName x) (liName y) -> above after y = true.
Proof.
  unfold above. rewrite !orb_true_iff, !negb_true_iff, <- !lt_name_not_le. intros [H|H] Hle; [by left|right]. by eapply lt_le_name_trans.
Qed.

(** Skipping what was sent keeps the names after it. *)
Lemma skip_to_above {obj} after (l : list (listItem obj)) : StronglySorted name_lt l -> skip_to after l = List.filter (above after) l.
Proof.
  induction 1 as [|x l Hs IH Hx]; [done|]. cbn. unfold above at 1. destruct (bool_decide (after = "")) eqn:E1; cbn.
  - f_equal. symmetry. apply filter_all. intros y _. unfold above. by rewrite E1.
  - destruct (String.leb (liName x) after) eqn:E2; cbn; [done|]. f_equal. symmetry. apply filter_all. intros y Hy. rewrite Forall_forall in Hx. destruct (Hx y Hy) as [Hle _].
    eapply above_trans; [|exact Hle]. unfold above. by rewrite E1, E2.
Qed.

(** ** One leg's stream *)

Section Leg.
Context {obj : Type} (p : Placement) (after startAfter : string) (id : string) (ask : backend_fn obj) (B : list (listItem obj)) (posn : string -> option nat).
Hypothesis Hserves : serves ask startAfter B posn.

(** What a leg still gives from entry [k] on. *)
Definition given (k : nat) : list (listItem obj) := List.filter (own p id) (List.filter (above after) (drop k B)).

(** A leg that will still give exactly the entries [R]. *)
Definition stream (l : spreadLeg obj) (R : list (listItem obj)) : Prop :=
  slId l = id /\ slAsk l = ask /\
  (lsDone (slSide l) = true -> lsItems (slSide l) = [] /\ R = []) /\
  (lsDone (slSide l) = false -> lsStarted (slSide l) = true -> exists kn, (kn <= length B)%nat /\ R = lsItems (slSide l) ++ given kn /\
    (lsNext (slSide l) = "" -> kn = length B) /\ (lsNext (slSide l) <> "" -> posn (lsNext (slSide l)) = Some kn)) /\
  (lsDone (slSide l) = false -> lsStarted (slSide l) = false -> lsItems (slSide l) = [] /\ R = given 0 /\
    exists k0, page_at B posn k0 (first_page ask after startAfter (lsUsed (slSide l))) /\ given k0 = given 0).

Lemma given_page k m : given k = List.filter (own p id) (List.filter (above after) (take m (drop k B))) ++ given (k + m).
Proof. unfold given. rewrite <- (take_drop m (drop k B)) at 1. by rewrite !List.filter_app, drop_drop. Qed.

(** A fetch of the page that starts at [k]. *)
Lemma fetch_stream l k : slId l = id -> slAsk l = ask -> lsDone (slSide l) = false -> page_at B posn k (first_page ask after startAfter (lsUsed (slSide l))) ->
  exists l', fetch p after startAfter l = Ok l' /\ stream l' (given k) /\ lsStarted (slSide l') = true /\
    (lsDone (slSide l') = false -> exists kn, (kn <= length B)%nat /\ given k = lsItems (slSide l') ++ given kn /\ (lsNext (slSide l') = "" -> kn = length B) /\
      (lsNext (slSide l') <> "" -> posn (lsNext (slSide l')) = Some kn /\ (k < kn)%nat)).
Proof.
  intros Hid Hask Hd (pg & m & Ha & Hraw & Hlen & Hlast & Hnext). unfold fetch, fetchListPage. rewrite Hask. unfold first_page in Ha. rewrite Ha, Hd.
  assert (skip_to after (page_items pg) = List.filter (above after) (take m (drop k B))) as Hitems.
  { rewrite (page_items_slice B k m pg (sv_increasing _ _ _ _ Hserves) Hraw). apply skip_to_above, increasing_slice, Hserves. }
  rewrite Hitems. eexists. split; [reflexivity|]. cbn -[List.filter]. rewrite Hid.
  assert (exists kn, (kn <= length B)%nat /\ given k = List.filter (own p id) (List.filter (above after) (take m (drop k B))) ++ given kn /\ (next_of pg = "" -> kn = length B) /\
    (next_of pg <> "" -> posn (next_of pg) = Some kn /\ (k < kn)%nat)) as Hkn.
  { exists (k + m)%nat. split_and!; [lia|apply given_page|exact Hlast|]. intros Hne. destruct (Hnext Hne). split; [done|lia]. }
  split; [|split; [done|by intros _]]. split_and!; [done|done| | |done].
  - intros [Hi Hn]%andb_true_iff. apply bool_decide_eq_true in Hi, Hn. cbn -[List.filter]. rewrite Hi. split; [done|].
    destruct Hkn as (kn & _ & -> & Hkn & _). rewrite (Hkn Hn), Hi. unfold given. by rewrite drop_all.
  - intros _ _. destruct Hkn as (kn & H1 & H2 & H3 & H4). exists kn. split_and!; [done..|]. intros Hne. by apply H4.
Qed.

(** [head] gives the next of them, and finds the end. *)
Definition headed (l : spreadLeg obj) (R : list (listItem obj)) : Prop := stream l R /\ head (lsItems (slSide l)) = head R /\ (R = [] -> lsDone (slSide l) = true).

Lemma done_leg fuel l : stream l [] -> lsDone (slSide l) = true -> exists l', head_leg p after startAfter fuel l = Some (Ok (None, l')) /\ headed l' [].
Proof.
  intros Hs Hd. pose proof Hs as (_ & _ & H & _). destruct (H Hd) as [Hi _]. exists l. split; [destruct fuel; cbn [head_leg]; by rewrite Hi, Hd|]. split; [done|]. by rewrite Hi.
Qed.
Lemma head_stream fuel l R kn : stream l R -> lsDone (slSide l) = false -> lsStarted (slSide l) = true -> (kn <= length B)%nat -> R = lsItems (slSide l) ++ given kn ->
  (lsNext (slSide l) = "" -> kn = length B) -> (lsNext (slSide l) <> "" -> posn (lsNext (slSide l)) = Some kn) -> (length B - kn < fuel)%nat ->
  exists l', head_leg p after startAfter fuel l = Some (Ok (head R, l')) /\ headed l' R.
Proof.
  revert l R kn. induction fuel as [|fuel IH]; intros l R kn Hs Hd Hst Hkn HR He Hne Hf; [lia|]. cbn [head_leg].
  destruct (lsItems (slSide l)) as [|it items] eqn:Ei; [|exists l; subst R; cbn; split; [done|]; split; [done|]; rewrite Ei; done]. rewrite Hd, Hst. cbn [andb].
  cbn [app] in HR. destruct Hs as (Hid & Hask & _). case_bool_decide as En.
  - rewrite (He En) in HR. assert (R = []) as ->. { subst R. unfold given. by rewrite drop_all. }
    eexists. split; [reflexivity|]. split; [|done]. split_and!; done.
  - destruct (fetch_stream (with_side l (mkSide (lsNext (slSide l)) (lsNext (slSide l)) (lsDone (slSide l)) (lsStarted (slSide l)) (lsMissing (slSide l)) (lsItems (slSide l)))) kn)
      as (l' & Hfe & Hs' & Hst' & Hk'); [done|done|done|cbn; unfold first_page; rewrite bool_decide_false by done; by apply Hserves; [|apply Hne]|].
    rewrite Hd, Hst, Ei in Hfe. rewrite Hfe. subst R. destruct (lsDone (slSide l')) eqn:Ed'.
    + pose proof Hs' as (_ & _ & H3 & _). destruct (H3 Ed') as [Hi' HR']. rewrite HR' in *. by apply (done_leg fuel).
    + destruct (Hk' eq_refl) as (kn' & H1 & H2 & H3 & H4). destruct (decide (lsNext (slSide l') = "")) as [E'|E'].
      * destruct (lsItems (slSide l')) as [|it items] eqn:Ei'.
        -- specialize (H3 E'). subst kn'. assert (given kn = []) as E0 by (rewrite H2; unfold given; by rewrite drop_all). rewrite E0 in *. eexists. split; [|split].
           ++ destruct fuel; cbn [head_leg]; rewrite Ei', Ed', Hst', bool_decide_true by done; reflexivity.
           ++ destruct Hs' as (H5 & H6 & _). split_and!; done.
           ++ done.
        -- exists l'. rewrite H2. split; [destruct fuel; cbn [head_leg]; rewrite Ei'; done|]. split; [by rewrite <- H2|]. by rewrite Ei'.
      * destruct (H4 E') as [H5 H6]. apply (IH l' (given kn) kn'); try done; lia.
Qed.
Lemma head_next_leg fuel l R : stream l R -> (S (length B) < fuel)%nat -> exists l', head_leg p after startAfter fuel l = Some (Ok (head R, l')) /\ headed l' R.
Proof.
  intros Hs Hf. destruct (lsDone (slSide l)) eqn:Hd.
  { pose proof Hs as (_ & _ & H3 & _). destruct (H3 Hd) as [Hi ->]. by apply (done_leg fuel). }
  destruct (lsStarted (slSide l)) eqn:Hst.
  { pose proof Hs as (_ & _ & _ & H4 & _). destruct (H4 Hd Hst) as (kn & H5 & H6 & H7 & H8). apply (head_stream fuel l R kn); try done; lia. }
  destruct Hs as (H1 & H2 & _ & _ & H5). destruct (H5 Hd Hst) as (Hi & -> & k0 & Hp & Hg). destruct fuel as [|fuel]; [lia|]. cbn [head_leg]. rewrite Hi, Hd, Hst. cbn [andb].
  destruct (fetch_stream (with_side l (slSide l)) k0) as (l' & Hfe & Hs' & Hst' & Hk'); [done..|]. rewrite Hfe. rewrite Hg in *. destruct (lsDone (slSide l')) eqn:Hd'.
  - pose proof Hs' as (_ & _ & G3 & _). destruct (G3 Hd') as [Hi' HR']. rewrite HR' in *. by apply (done_leg fuel).
  - destruct (Hk' eq_refl) as (kn & G1 & G2 & G3 & G4). apply (head_stream fuel l' (given 0) kn); try done; [intros Hne; by apply G4|lia].
Qed.

(** Taking the entry moves the leg on. *)
Lemma pop_stream l it R : headed l (it :: R) -> stream (pop_leg l) R /\ head (lsItems (slSide l)) = Some it.
Proof.
  intros ((H1 & H2 & H3 & H4 & H5) & Hh & _). split; [|done]. cbn in Hh. destruct (lsItems (slSide l)) as [|it' items] eqn:Ei; [done|]. injection Hh as ->.
  unfold pop_leg, stream. cbn. rewrite Ei. cbn. split_and!; [done|done| | |].
  - intros Hd. by destruct (H3 Hd).
  - intros Hd Hst. destruct (H4 Hd Hst) as (kn & H6 & H7 & H8 & H9). exists kn. injection H7 as ->. by split_and!.
  - intros Hd Hst. by destruct (H5 Hd Hst).
Qed.

(** A leg that a page begins with. *)
Lemma new_stream : after = "" \/ String.le startAfter after -> stream (mkLegSide id ask (new_side "" false)) (given 0).
Proof.
  intros Ha. split_and!; [done..|]. intros _ _. cbn. split; [done|]. split; [done|]. unfold first_page. rewrite bool_decide_true by done.
  destruct (decide (after = "")) as [E|E].
  - rewrite bool_decide_true by done. exists 0%nat. split; [|done]. apply Hserves.
  - rewrite bool_decide_false by done. destruct Ha as [?|Ha]; [done|]. destruct (sv_after _ _ _ _ Hserves after E Ha) as (k & Hp & Hk). exists k. split; [done|].
    unfold given. rewrite <- (take_drop k B) at 2. rewrite drop_0, List.filter_app. rewrite (filter_none (above after) (take k B)); [done|].
    intros x [i Hi]%list_elem_of_lookup. apply lookup_take_Some in Hi as [Hi Hlt]. unfold above. rewrite bool_decide_false by done. cbn. apply negb_false_iff, leb_le. by eapply Hk.
Qed.
Lemma exhausted_stream : given 0 = [] -> stream (mkLegSide id ask (new_side "" true)) (given 0).
Proof. intros E. by split_and!. Qed.

End Leg.

(** ** All the legs *)

(** A set of names closed upwards, as the names after one are. *)
Definition upward (g : string -> bool) : Prop := forall a b, g a = true -> String.le a b -> g b = true.
Definition gt (after name : string) : bool := bool_decide (after = "") || negb (String.leb name after).
Definition beyond (name : string) : string -> bool := str_ltb name.

Lemma gt_upward after : upward (gt after).
Proof. intros a b H Hle. unfold gt in *. rewrite orb_true_iff, !negb_true_iff, <- !lt_name_not_le in *. destruct H as [H|H]; [by left|right]. by eapply lt_le_name_trans. Qed.
Lemma beyond_upward name : upward (beyond name).
Proof. intros a b H Hle. unfold beyond in *. rewrite str_ltb_lt in *. by eapply lt_le_name_trans. Qed.

Lemma least_spec {obj} (hs : list (option (listItem obj))) :
  match least hs with
  | None => forall h, h ∈ hs -> h = None
  | Some it => (exists i, hs !! i = Some (Some it) /\ forall j y, (j < i)%nat -> hs !! j = Some (Some y) -> liName y <> liName it) /\
      forall y, Some y ∈ hs -> String.le (liName it) (liName y)
  end.
Proof.
  induction hs as [|h hs IH] using rev_ind; [by intros h ?%elem_of_nil|]. unfold least in *. rewrite foldl_snoc. destruct (foldl lesser None hs) as [b|]; cbn.
  - destruct IH as [(i & Hi & Hfirst) Hle]. assert ((i < length hs)%nat) as Hlt by by eapply lookup_lt_Some. destruct h as [it|]; cbn [lesser]; [destruct (str_ltb (liName it) (liName b)) eqn:E|].
    + apply str_ltb_lt in E. split.
      * exists (length hs). split; [by rewrite lookup_app_r, Nat.sub_diag by lia|]. intros j y Hj Hy. rewrite lookup_app_l in Hy by lia. apply list_elem_of_lookup_2, Hle in Hy. intros Eq. rewrite Eq in Hy. destruct E as [E1 E2]. by apply E2, (anti_symm String.le).
      * intros y [Hy|Hy]%elem_of_app; [|apply list_elem_of_singleton in Hy as [= ->]; by apply reflexivity]. etrans; [apply E|by apply Hle].
    + split.
      * exists i. split; [by rewrite lookup_app_l|]. intros j y Hj Hy. rewrite lookup_app_l in Hy by lia. by eapply Hfirst.
      * intros y [Hy|Hy]%elem_of_app; [by apply Hle|]. apply list_elem_of_singleton in Hy as [= ->]. apply leb_le. unfold str_ltb in E. by apply negb_false_iff in E.
    + split; [exists i; split; [by rewrite lookup_app_l|]; intros j y Hj Hy; rewrite lookup_app_l in Hy by lia; by eapply Hfirst|]. intros y [Hy|Hy]%elem_of_app; [by apply Hle|]. by apply list_elem_of_singleton in Hy.
  - destruct h as [it|].
    + split; [exists (length hs); split; [by rewrite lookup_app_r, Nat.sub_diag by lia|]; intros j y Hj Hy; rewrite lookup_app_l in Hy by lia; apply list_elem_of_lookup_2 in Hy; by specialize (IH _ Hy)|].
      intros y [Hy|Hy]%elem_of_app; [by specialize (IH _ Hy)|]. apply list_elem_of_singleton in Hy as [= ->]. by apply reflexivity.
    + intros h [Hh|Hh]%elem_of_app; [by apply IH|by apply list_elem_of_singleton in Hh].
Qed.

Lemma head_omap {A B} (f : A -> option B) l i x y : l !! i = Some x -> f x = Some y -> (forall j z, (j < i)%nat -> l !! j = Some z -> f z = None) -> head (omap f l) = Some y.
Proof.
  revert i. induction l as [|a l IH]; intros i Hi Hf Hfirst; [done|]. cbn. destruct i as [|i]; [injection Hi as ->; by rewrite Hf|].
  rewrite (Hfirst 0%nat a) by (lia || done). apply (IH i); [done..|]. intros j z Hj Hz. apply (Hfirst (S j)); [lia|done].
Qed.
Lemma last_const {A B} (f : A -> option B) l a b : a ∈ l -> f a = Some b -> (forall x c, x ∈ l -> f x = Some c -> c = b) -> last (omap f l) = Some b.
Proof.
  intros Ha Hf Hc. destruct (last (omap f l)) as [c|] eqn:E.
  - apply last_Some_elem_of, list_elem_of_omap in E as (x & Hx & Hfx). f_equal. by eapply Hc.
  - apply last_None in E. exfalso. assert (b ∈ omap f l) as Hb by (apply list_elem_of_omap; by exists a). rewrite E in Hb. by apply elem_of_nil in Hb.
Qed.

(** [take_name] in one sweep. *)
Definition to_names {obj} (p : Placement) (name : string) (l : spreadLeg obj) : option (listItem obj) :=
  m ← pMove p; if bool_decide (slId l = mvTo m) then names name l else None.
Definition advance {obj} (name : string) (l : spreadLeg obj) : spreadLeg obj := match names name l with Some _ => pop_leg l | None => l end.
Lemma take_name_sweep {obj} (p : Placement) name (t : listItem obj) legs : take_name p name t legs = (default t (last (omap (to_names p name) legs)), advance name <$> legs).
Proof.
  revert t. induction legs as [|l legs IH]; intros t; [done|]. cbn. unfold advance at 1. unfold to_names at 1. destruct (names name l) as [it|] eqn:E.
  - destruct (pMove p) as [m|] eqn:Em; cbn.
    + destruct (bool_decide _); rewrite IH; [|done]. cbn. f_equal. rewrite last_cons. by destruct (last _).
    + by rewrite IH.
  - destruct (pMove p) as [m|] eqn:Em; cbn; [|by rewrite IH]. by destruct (bool_decide _); rewrite IH.
Qed.

(** What a listing sends for a name: the entry of a move's destination, or the first leg's that keeps one. *)
Definition entry_of {obj} (p : Placement) (B : string -> list (listItem obj)) (name id : string) : option (listItem obj) :=
  List.find (fun it => bool_decide (liName it = name)) (List.filter (own p id) (B id)).
Definition winner {obj} (p : Placement) (B : string -> list (listItem obj)) (ids : list string) (name : string) : option (listItem obj) :=
  match pMove p ≫= (fun m => entry_of p B name (mvTo m)) with Some it => Some it | None => head (omap (entry_of p B name) ids) end.

Section Legs.
Context {obj : Type} (p : Placement) (after startAfter : string) (ask : string -> backend_fn obj) (B : string -> list (listItem obj)) (posn : string -> string -> option nat).
Context (ids : list string).
Hypothesis Hserves : forall id, id ∈ ids -> serves (ask id) startAfter (B id) (posn id).
Hypothesis Hto : forall m, pMove p = Some m -> mvTo m ∈ ids.

(** What is left of a leg's entries when the names in [g] are to come. *)
Definition to_come (g : string -> bool) (id : string) : list (listItem obj) := List.filter (fun it => g (liName it)) (List.filter (own p id) (B id)).

Lemma to_come_given id : to_come (gt after) id = given p after id (B id) 0.
Proof. unfold to_come, given. rewrite drop_0, !lfilter_lfilter. apply lfilter_ext. intros x _. unfold gt, above. by rewrite andb_comm. Qed.
Lemma elem_of_to_come g id it : it ∈ to_come g id <-> it ∈ List.filter (own p id) (B id) /\ g (liName it) = true.
Proof. apply (elem_of_lfilter (fun it => g (liName it))). Qed.
Lemma to_come_sorted g id : id ∈ ids -> StronglySorted name_lt (to_come g id).
Proof. intros H. apply sorted_lfilter, sorted_lfilter, increasing_sorted. by eapply sv_increasing, Hserves. Qed.

Lemma sorted_unique (l : list (listItem obj)) x y : StronglySorted name_lt l -> x ∈ l -> y ∈ l -> liName x = liName y -> x = y.
Proof.
  induction 1 as [|a l _ IH Ha]; [by intros ?%elem_of_nil|]. rewrite Forall_forall in Ha. intros [->|Hx]%elem_of_cons [->|Hy]%elem_of_cons E; [done| | |by apply IH].
  - destruct (Ha y Hy) as [_ Hn]. done.
  - destruct (Ha x Hx) as [_ Hn]. congruence.
Qed.
Lemma entry_spec id name it : id ∈ ids -> entry_of p B name id = Some it <-> it ∈ List.filter (own p id) (B id) /\ liName it = name.
Proof.
  intros Hid. unfold entry_of. split.
  - intros H. apply find_some in H as [H1 H2]. apply bool_decide_eq_true in H2. split; [by apply list_elem_of_In|done].
  - intros [H1 H2]. destruct (List.find _ _) as [it'|] eqn:E.
    + apply find_some in E as [E1 E2]. apply bool_decide_eq_true in E2. f_equal. eapply sorted_unique; [|by apply list_elem_of_In|exact H1|congruence].
      apply sorted_lfilter, increasing_sorted. by eapply sv_increasing, Hserves.
    + apply list_elem_of_In in H1. eapply find_none in E; [|exact H1]. by apply bool_decide_eq_false in E.
Qed.

(** The head of a leg whose names left are all from [name] on. *)
Lemma head_entry g id name : id ∈ ids -> g name = true -> (forall it, it ∈ to_come g id -> String.le name (liName it)) ->
  entry_of p B name id = match to_come g id with it :: _ => if bool_decide (liName it = name) then Some it else None | [] => None end.
Proof.
  intros Hid Hg Hle. pose proof (to_come_sorted g id Hid) as Hs. destruct (to_come g id) as [|x l] eqn:E.
  - destruct (entry_of p B name id) as [it|] eqn:Ee; [|done]. apply entry_spec in Ee as [H1 H2]; [|done]. assert (it ∈ to_come g id) as Hin by (apply elem_of_to_come; by rewrite H2). rewrite E in Hin. by apply elem_of_nil in Hin.
  - assert (x ∈ to_come g id) as Hx by (rewrite E; set_solver). apply elem_of_to_come in Hx as [Hx1 Hx2]. case_bool_decide as Ex; [by apply entry_spec|].
    destruct (entry_of p B name id) as [it|] eqn:Ee; [|done]. apply entry_spec in Ee as [H1 H2]; [|done]. assert (it ∈ to_come g id) as Hin by (apply elem_of_to_come; by rewrite H2). rewrite E in Hin.
    apply elem_of_cons in Hin as [->|Hin]; [done|]. inversion Hs as [|? ? _ Hf]; subst. rewrite Forall_forall in Hf. destruct (Hf it Hin) as [L1 L2]. exfalso. apply Ex, (anti_symm String.le); [done|]. apply Hle. set_solver.
Qed.
(** Past the name. *)
Lemma to_come_beyond g id name : id ∈ ids -> upward g -> g name = true -> (forall it, it ∈ to_come g id -> String.le name (liName it)) ->
  to_come (beyond name) id = match to_come g id with it :: l => if bool_decide (liName it = name) then l else it :: l | [] => [] end.
Proof.
  intros Hid Hup Hg Hle. pose proof (to_come_sorted g id Hid) as Hs. assert (to_come (beyond name) id = List.filter (fun it => beyond name (liName it)) (to_come g id)) as ->.
  { unfold to_come. rewrite (lfilter_lfilter _ (fun it => g (liName it))). apply lfilter_ext. intros x _. destruct (beyond name (liName x)) eqn:E; [|by rewrite andb_false_r]. rewrite andb_true_r. symmetry. eapply Hup; [exact Hg|]. by apply str_ltb_lt in E as [? _]. }
  destruct (to_come g id) as [|x l] eqn:E; [done|]. inversion Hs as [|? ? _ Hf]; subst. rewrite Forall_forall in Hf. cbn [List.filter]. case_bool_decide as Ex.
  - assert (beyond name (liName x) = false) as -> by (unfold beyond, str_ltb; rewrite Ex; apply negb_false_iff, leb_le; by apply reflexivity). apply filter_all. intros y Hy. apply str_ltb_lt. rewrite <- Ex. by apply Hf.
  - assert (lt_name name (liName x)) as Hx by (split; [apply Hle; set_solver|congruence]). assert (beyond name (liName x) = true) as -> by (by apply str_ltb_lt). f_equal. apply filter_all. intros y Hy. apply str_ltb_lt. eapply lt_name_trans; [exact Hx|by apply Hf].
Qed.

(** The legs of a listing that has the names of [g] to come. *)
Notation stream_ l id R := (stream p after startAfter id (ask id) (B id) (posn id) l R).
Notation headed_ l id R := (headed p after startAfter id (ask id) (B id) (posn id) l R).
Definition at_cut (g : string -> bool) (legs : list (spreadLeg obj)) : Prop := Forall2 (fun l id => stream_ l id (to_come g id)) legs ids.
Definition fuel_ok (fuel : nat) : Prop := forall id, id ∈ ids -> (S (length (B id)) < fuel)%nat.

Lemma heads_ok fuel (R : string -> list (listItem obj)) legs : fuel_ok fuel -> Forall2 (fun l id => stream_ l id (R id)) legs ids ->
  exists legs', heads p after startAfter fuel legs = Some (Ok ((fun id => head (R id)) <$> ids, legs')) /\ Forall2 (fun l id => headed_ l id (R id)) legs' ids.
Proof.
  intros Hf. unfold fuel_ok in Hf. pose proof Hserves as Hsv. clear Hto Hserves. intros Hl. induction Hl as [|l id legs ids' Hl _ IH]; [by exists []|].
  cbn [heads]. destruct (head_next_leg p after startAfter id (ask id) (B id) (posn id) (Hsv id ltac:(set_solver)) fuel l (R id) Hl (Hf id ltac:(set_solver))) as (l' & -> & Hl').
  destruct IH as (legs' & -> & Hlegs); [intros; apply Hf; set_solver|intros; apply Hsv; set_solver|]. exists (l' :: legs'). split; [done|by constructor].
Qed.

(** ** One entry *)

Section Step.
Context (g : string -> bool) (name : string).
Hypothesis Hup : upward g.
Hypothesis Hg : g name = true.
Hypothesis Hle : forall id it, id ∈ ids -> it ∈ to_come g id -> String.le name (liName it).

Lemma names_entry l id : id ∈ ids -> headed_ l id (to_come g id) -> names name l = entry_of p B name id.
Proof.
  intros Hid (_ & Hh & _). rewrite (head_entry g id name) by eauto. unfold names. destruct (lsItems (slSide l)), (to_come g id); try done; cbn in Hh; by injection Hh as ->.
Qed.
Lemma advance_ok l id : id ∈ ids -> headed_ l id (to_come g id) -> stream_ (advance name l) id (to_come (beyond name) id).
Proof.
  intros Hid Hl. unfold advance. rewrite (names_entry l id Hid Hl), (head_entry g id name), (to_come_beyond g id name) by eauto.
  destruct (to_come g id) as [|x R]; [apply Hl|]. case_bool_decide; [|apply Hl]. by apply pop_stream with x.
Qed.
Lemma omap_legs {C} (f : spreadLeg obj -> option C) (h : string -> option C) legs :
  Forall2 (fun l id => headed_ l id (to_come g id)) legs ids -> (forall l id, id ∈ ids -> headed_ l id (to_come g id) -> f l = h id) -> omap f legs = omap h ids.
Proof.
  clear. intros Hl. induction Hl as [|l id legs ids' Hl _ IH]; intros Hf; [done|]. cbn. rewrite (Hf l id) by (set_solver || done). rewrite IH; [done|]. intros. apply Hf; [set_solver|done].
Qed.
Lemma to_entry legs : Forall2 (fun l id => headed_ l id (to_come g id)) legs ids -> last (omap (to_names p name) legs) = pMove p ≫= (fun m => entry_of p B name (mvTo m)).
Proof.
  intros Hl. rewrite (omap_legs (to_names p name) (fun id => m ← pMove p; if bool_decide (id = mvTo m) then entry_of p B name id else None) legs Hl).
  - destruct (pMove p) as [m|] eqn:Em; cbn.
    + destruct (entry_of p B name (mvTo m)) as [e|] eqn:Ee.
      * apply last_const with (mvTo m); [by apply Hto|by rewrite bool_decide_true|]. intros x c _. case_bool_decide as Ex; [subst x; congruence|done].
      * apply last_None. apply elem_of_nil_inv. intros c (x & _ & Hx)%list_elem_of_omap. case_bool_decide as Ex; [subst x; congruence|done].
    + apply last_None. apply elem_of_nil_inv. by intros c (x & _ & Hx)%list_elem_of_omap.
  - intros l id Hid Hd. unfold to_names. rewrite (names_entry l id Hid Hd). by destruct Hd as [[-> _] _].
Qed.
Lemma at_beyond legs : Forall2 (fun l id => headed_ l id (to_come g id)) legs ids -> at_cut (beyond name) (advance name <$> legs).
Proof.
  intros Hl. unfold at_cut. apply Forall2_fmap_l. apply Forall2_same_length_lookup_2; [by eapply Forall2_length|]. intros i l id Hi Hid.
  apply advance_ok; [by eapply list_elem_of_lookup_2|]. by apply (Forall2_lookup_lr _ _ _ _ _ _ Hl Hi Hid).
Qed.
End Step.

Lemma step_ok g it legs : upward g -> Forall2 (fun l id => headed_ l id (to_come g id)) legs ids -> least ((fun id => head (to_come g id)) <$> ids) = Some it ->
  exists w, take_name p (liName it) it legs = (w, advance (liName it) <$> legs) /\ winner p B ids (liName it) = Some w /\ g (liName it) = true /\
    at_cut (beyond (liName it)) (advance (liName it) <$> legs) /\ (forall id x, id ∈ ids -> x ∈ to_come g id -> String.le (liName it) (liName x)) /\ exists id, id ∈ ids /\ it ∈ to_come g id.
Proof.
  intros Hup Hl Hleast. pose proof (least_spec ((fun id => head (to_come g id)) <$> ids)) as Hspec. rewrite Hleast in Hspec. destruct Hspec as [(i & Hi & Hfirst) Hle].
  apply list_lookup_fmap_Some in Hi as (id & Hid & Hi). assert (id ∈ ids) as Hin by by eapply list_elem_of_lookup_2. assert (it ∈ to_come g id) as Hit by (by apply head_Some_elem_of).
  assert (g (liName it) = true) as Hg by by eapply elem_of_to_come.
  assert (forall id x, id ∈ ids -> x ∈ to_come g id -> String.le (liName it) (liName x)) as Hall.
  { intros id' x Hid' Hx. pose proof (to_come_sorted g id' Hid') as Hs. destruct (to_come g id') as [|y R] eqn:E; [by apply elem_of_nil in Hx|]. assert (String.le (liName it) (liName y)) as Hy.
    { apply Hle. apply list_elem_of_fmap. exists id'. by rewrite E. }
    apply elem_of_cons in Hx as [->|Hx]; [done|]. inversion Hs as [|? ? _ Hf]; subst. rewrite Forall_forall in Hf. destruct (Hf x Hx) as [? _]. by etrans. }
  rewrite take_name_sweep, (to_entry g (liName it)) by eauto. eexists. split; [reflexivity|]. split; [|split; [done|]; split; [by eapply at_beyond|]; split; [done|by exists id]].
  unfold winner. destruct (pMove p ≫= _) as [e|] eqn:Ee; [done|]. cbn. apply (head_omap _ _ i id); [done| |].
  - rewrite (head_entry g id (liName it)) by eauto. destruct (to_come g id) as [|x R] eqn:E; [done|]. injection Hid as ->. by rewrite bool_decide_true.
  - intros j id' Hj Hid'. assert (id' ∈ ids) by by eapply list_elem_of_lookup_2. rewrite (head_entry g id' (liName it)) by eauto. destruct (to_come g id') as [|x R] eqn:E; [done|]. rewrite bool_decide_false; [done|].
    apply (Hfirst j); [done|]. rewrite list_lookup_fmap, Hid'. cbn. by rewrite E.
Qed.

(** ** The merge *)

(** [E] is what a listing sends between the names of [g] and those of [g']. *)
Record covers (g : string -> bool) (E : list (listItem obj)) (g' : string -> bool) : Prop := {
  cv_up : forall n, g' n = true -> g n = true;
  cv_in : forall e, e ∈ E -> g (liName e) = true /\ g' (liName e) = false /\ winner p B ids (liName e) = Some e;
  cv_sorted : StronglySorted name_lt E;
  cv_all : forall n e, g n = true -> g' n = false -> winner p B ids n = Some e -> e ∈ E;
}.
Definition cut (g : string -> bool) (E : list (listItem obj)) : string -> bool := match last E with Some x => beyond (liName x) | None => g end.
Definition pending (g : string -> bool) : nat := sum_list_with (fun id => length (to_come g id)) ids.

Lemma winner_in n e : winner p B ids n = Some e -> exists id, id ∈ ids /\ e ∈ List.filter (own p id) (B id) /\ liName e = n.
Proof.
  unfold winner. destruct (pMove p) as [m|] eqn:Em; cbn.
  - destruct (entry_of p B n (mvTo m)) as [e'|] eqn:Ee; [intros [= ->]; exists (mvTo m); split; [by apply Hto|apply entry_spec; auto]|].
    intros H. apply head_Some_elem_of, list_elem_of_omap in H as (id & Hid & He). exists id. split; [done|by apply entry_spec].
  - intros H. apply head_Some_elem_of, list_elem_of_omap in H as (id & Hid & He). exists id. split; [done|by apply entry_spec].
Qed.
Lemma winner_some n id it : id ∈ ids -> it ∈ List.filter (own p id) (B id) -> liName it = n -> is_Some (winner p B ids n).
Proof.
  intros Hid Hit Hn. unfold winner. destruct (pMove p ≫= _); [done|]. destruct (head (omap _ ids)) eqn:E; [done|]. exfalso. apply head_None in E.
  assert (it ∈ omap (entry_of p B n) ids) as H by (apply list_elem_of_omap; exists id; split; [done|by apply entry_spec]). rewrite E in H. by apply elem_of_nil in H.
Qed.

Lemma covers_nil g : covers g [] g.
Proof. split; [done|by intros e ?%elem_of_nil|constructor|]. intros n e H1 H2. congruence. Qed.
Lemma covers_one g (it w : listItem obj) : upward g -> g (liName it) = true -> winner p B ids (liName it) = Some w -> (forall id x, id ∈ ids -> x ∈ to_come g id -> String.le (liName it) (liName x)) -> covers g [w] (beyond (liName it)).
Proof.
  intros Hup Hg Hw Hle. assert (liName w = liName it) as En by (by destruct (winner_in _ _ Hw) as (? & _ & _ & ?)). split.
  - intros n Hn. eapply Hup; [exact Hg|]. by apply str_ltb_lt in Hn as [? _].
  - intros e ->%list_elem_of_singleton. rewrite En. split_and!; [done| |done]. unfold beyond, str_ltb. apply negb_false_iff, leb_le. by apply reflexivity.
  - repeat constructor.
  - intros n e H1 H2 H3. destruct (winner_in _ _ H3) as (id & Hid & He & Hn). assert (String.le (liName it) n) as H4.
    { rewrite <- Hn. apply (Hle id); [done|]. apply elem_of_to_come. by rewrite Hn. }
    unfold beyond, str_ltb in H2. apply negb_false_iff, leb_le in H2. assert (liName it = n) as <- by by apply (anti_symm String.le). apply list_elem_of_singleton. congruence.
Qed.
Lemma covers_app g E1 g1 E2 g2 : upward g1 -> covers g E1 g1 -> covers g1 E2 g2 -> covers g (E1 ++ E2) g2.
Proof.
  intros Hup [A1 A2 A3 A4] [B1 B2 B3 B4]. split.
  - auto.
  - intros e [He|He]%elem_of_app; [destruct (A2 e He) as (? & H & ?)|destruct (B2 e He) as (? & ? & ?)]; split_and!; try done; [|auto]. destruct (g2 (liName e)) eqn:E; [|done]. apply B1 in E. congruence.
  - apply StronglySorted_app; split_and!; [|done|done]. intros x1 x2 H1 H2. destruct (A2 x1 H1) as (_ & G1 & _), (B2 x2 H2) as (G2 & _). split.
    + destruct (total String.le (liName x1) (liName x2)) as [?|H]; [done|]. rewrite (Hup _ _ G2 H) in G1. done.
    + intros E. congruence.
  - intros n e H1 H2 H3. destruct (g1 n) eqn:E; apply elem_of_app; [right; by eapply B4|left; by eapply A4].
Qed.

Lemma pending_step g (it : listItem obj) : upward g -> g (liName it) = true -> (forall id x, id ∈ ids -> x ∈ to_come g id -> String.le (liName it) (liName x)) -> (exists id, id ∈ ids /\ it ∈ to_come g id) ->
  (pending (beyond (liName it)) < pending g)%nat.
Proof.
  intros Hup Hg Hle (id & Hid & Hit). unfold pending. assert (forall id, id ∈ ids -> (length (to_come (beyond (liName it)) id) <= length (to_come g id))%nat) as H1.
  { intros id' Hid'. rewrite (to_come_beyond g id' (liName it)) by eauto. destruct (to_come g id'); [done|]. case_bool_decide; cbn; lia. }
  assert (length (to_come (beyond (liName it)) id) < length (to_come g id))%nat as H2.
  { rewrite (to_come_beyond g id (liName it)) by eauto. pose proof (to_come_sorted g id Hid) as Hs. destruct (to_come g id) as [|x R] eqn:E; [by apply elem_of_nil in Hit|]. rewrite bool_decide_true; [cbn; lia|].
    apply elem_of_cons in Hit as [->|Hit]; [done|]. inversion Hs as [|? ? _ Hf]; subst. rewrite Forall_forall in Hf. destruct (Hf it Hit) as [L1 L2]. apply (anti_symm String.le); [done|]. apply (Hle id); [done|rewrite E; set_solver]. }
  clear - Hid H1 H2. induction ids as [|a l IH]; [by apply elem_of_nil in Hid|]. cbn. apply elem_of_cons in Hid as [->|Hid].
  - assert (sum_list_with (fun id => length (to_come (beyond (liName it)) id)) l <= sum_list_with (fun id => length (to_come g id)) l)%nat; [|lia]. clear IH H2. induction l as [|b l IH]; [done|]. cbn. pose proof (H1 b ltac:(set_solver)). specialize (IH ltac:(intros; apply H1; set_solver)). lia.
  - pose proof (H1 a ltac:(set_solver)). specialize (IH Hid ltac:(intros; apply H1; set_solver)). lia.
Qed.

(** The loop takes the next names, up to [n] of them. *)
Lemma spread_loop_ok fuel n legs emitted g : fuel_ok fuel -> upward g -> at_cut g legs ->
  exists E legs', spread_loop p after startAfter fuel n legs emitted = Some (Ok (emitted ++ E, legs')) /\ at_cut (cut g E) legs' /\ upward (cut g E) /\ covers g E (cut g E) /\
    ((length E < n)%nat -> forall id, id ∈ ids -> to_come (cut g E) id = []) /\ (pending (cut g E) + length E <= pending g)%nat.
Proof.
  intros Hf. revert legs emitted g. induction n as [|n IH]; intros legs emitted g Hup Hl; cbn [spread_loop].
  { exists [], legs. rewrite app_nil_r. cbn. split_and!; [done|done|done|apply covers_nil|lia|lia]. }
  destruct (heads_ok fuel (to_come g) legs Hf Hl) as (legs1 & -> & Hl1). destruct (least _) as [it|] eqn:Eleast.
  - destruct (step_ok g it legs1 Hup Hl1 Eleast) as (w & -> & Hw & Hg & Hcut & Hle & Hex). destruct (IH (advance (liName it) <$> legs1) (emitted ++ [w]) (beyond (liName it)) (beyond_upward _) Hcut) as (E & legs' & -> & H1 & H2 & H3 & H4 & H5).
    assert (cut g (w :: E) = cut (beyond (liName it)) E) as Ec.
    { unfold cut. rewrite last_cons. destruct (last E) eqn:El; [done|]. by destruct (winner_in _ _ Hw) as (? & _ & _ & ->). }
    exists (w :: E), legs'. rewrite Ec, <- app_assoc. split_and!; [done|done|done| |intros Hlen; apply H4; cbn in Hlen; lia|].
    + change (w :: E) with ([w] ++ E). eapply covers_app; [apply beyond_upward|by apply covers_one|done].
    + cbn. pose proof (pending_step g it Hup Hg Hle Hex). lia.
  - exists [], legs1. rewrite app_nil_r. cbn. split_and!; [done| |done|apply covers_nil| |lia].
    + unfold at_cut. eapply Forall2_impl; [exact Hl1|]. by intros l id [? _].
    + intros _ id Hid. pose proof (least_spec ((fun id => head (to_come g id)) <$> ids)) as Hspec. rewrite Eleast in Hspec. apply head_None. apply Hspec. apply list_elem_of_fmap. by exists id.
Qed.
End Legs.

(** ** Pages *)

Lemma leb_cons a b x y : String.leb (String a x) (String b y) = match Stdlib.Strings.Ascii.compare a b with Eq => String.leb x y | Lt => true | Gt => false end.
Proof. unfold String.leb. cbn [String.compare]. by destruct (Stdlib.Strings.Ascii.compare a b). Qed.
Lemma compare_refl a : Stdlib.Strings.Ascii.compare a a = Eq.
Proof. unfold Stdlib.Strings.Ascii.compare. apply N.compare_refl. Qed.

(** A name after [x] and no later than [x] with a suffix begins with [x]. *)
Lemma between_prefix x t n : lt_name x n -> String.le n (x +:+ t) -> HasPrefix n x = true.
Proof.
  rewrite <- leb_le. rewrite lt_name_not_le. revert n. induction x as [|a x IH]; intros n; [intros; apply HasPrefix_empty|]. destruct n as [|b n]; [done|].
  change (String a x +:+ t) with (String a (x +:+ t)). rewrite !leb_cons. destruct (Stdlib.Strings.Ascii.compare b a) eqn:E; try done.
  apply Stdlib.Strings.Ascii.compare_eq_iff in E as ->. intros H1 H2. apply HasPrefix_app. destruct (proj1 (HasPrefix_app n x) (IH n H1 H2)) as [r ->]. by exists r.
Qed.
Lemma le_app_suffix x t : String.le x (x +:+ t).
Proof. apply leb_le. induction x as [|a x IH]; [by destruct t|]. change (String a x +:+ t) with (String a (x +:+ t)). by rewrite leb_cons, compare_refl. Qed.

(** What the legs of a listing serve, for pages of any size; and what their common prefixes stand for. *)
Definition ask_leg {obj} (cls : clusters obj) (p : Placement) (n : nat) (id : string) : backend_fn obj :=
  match cls (legCluster (mget zeroLeg id (pLegs p))) with Some f => f (legBucket (mget zeroLeg id (pLegs p))) n | None => fun _ _ => AFail end.
Definition legs_serve {obj} (cls : clusters obj) (p : Placement) (ids : list string) (startAfter : string) (B : string -> list (listItem obj)) (posn : nat -> string -> string -> option nat) : Prop :=
  forall id, id ∈ ids -> is_Some (cls (legCluster (mget zeroLeg id (pLegs p)))) /\ forall n, (0 < n)%nat -> serves (ask_leg cls p n id) startAfter (B id) (posn n id).
Definition rolled {obj} (ids : list string) (B : string -> list (listItem obj)) : Prop :=
  forall i j x y, i ∈ ids -> j ∈ ids -> x ∈ B i -> y ∈ B j -> liPrefix x = true -> HasPrefix (liName y) (liName x) = true -> liName y = liName x.
(** ListObjects names its common prefixes by their last byte: no key listed ends with the delimiter. *)
Definition marker_law {obj} (q : listQuery) (ids : list string) (B : string -> list (listItem obj)) : Prop :=
  lqV1 q = true -> forall id x, id ∈ ids -> x ∈ B id -> liPrefix x = negb (bool_decide (lqDelimiter q = "")) && HasSuffix (liName x) (lqDelimiter q).

Section Pages.
Context {obj : Type} (cls : clusters obj) (p : Placement) (startAfter : string) (B : string -> list (listItem obj)) (posn : nat -> string -> string -> option nat) (ids : list string).
Hypothesis Hserves : legs_serve cls p ids startAfter B posn.
Hypothesis Hrolled : rolled ids B.
Hypothesis Hto : forall m, pMove p = Some m -> mvTo m ∈ ids.

Lemma build_legs_ok done page ids' : ids' ⊆ ids -> build_legs cls p done page ids' = Some ((fun id => mkLegSide id (ask_leg cls p page id) (new_side "" (bool_decide (id ∈ done)))) <$> ids').
Proof.
  induction ids' as [|id ids' IH]; intros Hsub; [done|]. cbn [build_legs]. destruct (Hserves id) as [[f Hf] _]; [set_solver|]. rewrite Hf. cbn [mbind option_bind]. rewrite IH by set_solver. cbn. assert (ask_leg cls p page id = f (legBucket (mget zeroLeg id (pLegs p))) page) as <- by (unfold ask_leg; by rewrite Hf). done.
Qed.

Lemma live_page maxKeys live : (0 < leg_page maxKeys live)%nat.
Proof. unfold leg_page. case_match; lia. Qed.

Lemma first_pages_ok after page (dn : list string) ids' : (0 < page)%nat -> after = "" \/ String.le startAfter after -> (forall id, id ∈ ids -> id ∈ dn -> to_come p B (gt after) id = []) -> ids' ⊆ ids ->
  exists legs, first_pages p after startAfter ((fun id => mkLegSide id (ask_leg cls p page id) (new_side "" (bool_decide (id ∈ dn)))) <$> ids') = Ok legs /\
    Forall2 (fun l id => stream p after startAfter id (ask_leg cls p page id) (B id) (posn page id) l (to_come p B (gt after) id)) legs ids'.
Proof.
  intros Hp Ha Hd. induction ids' as [|id ids' IH]; intros Hsub; [by exists []|]. destruct IH as (legs & E & Hl); [set_solver|]. destruct (Hserves id) as [_ Hsv]; [set_solver|]. specialize (Hsv page Hp).
  rewrite fmap_cons. cbn [first_pages slSide lsDone new_side]. case_bool_decide as Ed.
  - eexists. cbn [mbind result_bind]. rewrite E. split; [reflexivity|]. constructor; [|done]. rewrite to_come_given. apply exhausted_stream. rewrite <- to_come_given. apply Hd; [set_solver|done].
  - destruct (new_stream p after startAfter id _ (B id) _ Hsv Ha) as (_ & _ & _ & _ & H). destruct H as (_ & _ & k0 & Hk & Hg); [done..|].
    destruct (fetch_stream p after startAfter id _ (B id) _ Hsv (mkLegSide id (ask_leg cls p page id) (new_side "" false)) k0) as (l' & -> & Hl' & _); [done..|]. rewrite Hg, <- to_come_given in Hl'.
    eexists. cbn [mbind result_bind]. rewrite E. split; [reflexivity|]. by constructor.
Qed.

Lemma exhausted_end (R : string -> list (listItem obj)) legs ids' i : Forall2 (fun l id => slId l = id) legs ids' -> i ∈ exhausted ((fun id => head (R id)) <$> ids') legs -> R i = [].
Proof.
  induction 1 as [|l id legs ids' Hl _ IH]; [by intros ?%elem_of_nil|]. unfold exhausted. cbn. destruct (head (R id)) eqn:E; [exact IH|]. intros [->|Hi]%elem_of_cons; [rewrite Hl; by apply head_None|by apply IH].
Qed.

(** A page from a token on: the next names, and the token of those left. *)
Lemma spread_page_ok fuel q tok : ids = ListingLegs p (lqPrefix q) -> startAfter = lqStartAfter q -> token_of q = Some tok -> (forall id, id ∈ ids -> (S (length (B id)) < fuel)%nat) ->
  resume_after tok = "" \/ String.le startAfter (resume_after tok) -> (forall id, id ∈ ids -> id ∈ spDone tok -> to_come p B (gt (resume_after tok)) id = []) ->
  exists E truncated next, spreadListing fuel cls p q = Some (SPage E truncated next (page_size (lqMaxKeys q))) /\ covers p B ids (gt (resume_after tok)) E (cut (gt (resume_after tok)) E) /\
    (pending p B ids (cut (gt (resume_after tok)) E) + length E <= pending p B ids (gt (resume_after tok)))%nat /\
    (truncated = false -> forall id, id ∈ ids -> to_come p B (cut (gt (resume_after tok)) E) id = []) /\
    (truncated = true -> (0 < page_size (lqMaxKeys q))%nat -> exists x dn, last E = Some x /\ next = Some (mkSpread (liName x) (liPrefix x) dn) /\ forall id, id ∈ ids -> id ∈ dn -> to_come p B (beyond (liName x)) id = []).
Proof.
  intros Hids Hsa Htok Hfuel Ha Hd. unfold spreadListing. rewrite Htok, <- Hids, <- Hsa. set (after := resume_after tok) in *. set (page := leg_page _ _). assert (0 < page)%nat as Hp by apply live_page.
  rewrite (build_legs_ok (spDone tok) page ids) by done. destruct (first_pages_ok after page (spDone tok) ids Hp Ha Hd) as (legs & -> & Hl); [done|].
  assert (forall id, id ∈ ids -> serves (ask_leg cls p page id) startAfter (B id) (posn page id)) as Hsv by (intros id Hid; by apply (proj2 (Hserves id Hid))).
  destruct (spread_loop_ok p after startAfter (ask_leg cls p page) B (posn page) ids Hsv Hto fuel (page_size (lqMaxKeys q)) legs [] (gt after) Hfuel (gt_upward after) Hl) as (E & legs1 & -> & Hl1 & _ & Hc & Hend & Hpen).
  destruct (heads_ok p after startAfter (ask_leg cls p page) B (posn page) ids Hsv fuel (to_come p B (cut (gt after) E)) legs1 Hfuel Hl1) as (legs2 & -> & Hl2). cbn [app].
  eexists _, _, _. split; [reflexivity|]. split; [done|]. split; [done|]. split.
  - intros Ht id Hid. apply head_None. destruct (head (to_come p B (cut (gt after) E) id)) eqn:Eh; [|done]. exfalso. apply not_true_iff_false in Ht. apply Ht, existsb_exists. eexists. split; [apply list_elem_of_In, list_elem_of_fmap; exists id; split; [reflexivity|done]|]. by rewrite Eh.
  - intros Ht Hn. rewrite Ht. apply existsb_exists in Ht as (h & Hh & Hs). apply list_elem_of_In, list_elem_of_fmap in Hh as (id & -> & Hid). apply bool_decide_eq_true in Hs. destruct (last E) as [x|] eqn:El.
    + exists x. eexists. split; [done|]. split; [reflexivity|]. intros i _ Hdn. apply (exhausted_end (to_come p B (cut (gt after) E)) legs2 ids) in Hdn; [by unfold cut in Hdn; rewrite El in Hdn|].
      eapply Forall2_impl; [exact Hl2|]. by intros l i' [[? _] _].
    + apply last_None in El. subst E. cbn in *. rewrite (Hend ltac:(lia) id Hid) in Hs. by destruct Hs.
Qed.

(** ** The client's walk *)

Lemma pending_mono g g' : (forall n, g' n = true -> g n = true) -> (pending p B ids g' <= pending p B ids g)%nat.
Proof.
  intros H. unfold pending. clear Hserves Hrolled Hto. induction ids as [|id l IH]; [done|]. cbn. assert (length (to_come p B g' id) <= length (to_come p B g id))%nat; [|lia]. unfold to_come.
  induction (List.filter (own p id) (B id)) as [|x l' IH']; [done|]. cbn. destruct (g' (liName x)) eqn:E; [rewrite (H _ E); cbn; lia|]. destruct (g (liName x)); cbn; lia.
Qed.
Lemma to_come_mono g g' id : (forall n, g' n = true -> g n = true) -> to_come p B g id = [] -> to_come p B g' id = [].
Proof.
  intros H E. apply elem_of_nil_inv. intros x Hx. apply elem_of_to_come in Hx as [H1 H2]. assert (x ∈ to_come p B g id) as Hx by (apply elem_of_to_come; auto). rewrite E in Hx. by apply elem_of_nil in Hx.
Qed.

(** Resuming after a common prefix skips what is under it, which is nothing. *)
Lemma resume_beyond x dn n : gt (resume_after (mkSpread (liName x) (liPrefix (obj := obj) x) dn)) n = true -> liName x <> "" -> beyond (liName x) n = true.
Proof.
  unfold gt, resume_after. cbn. intros H Hne. apply str_ltb_lt. destruct (liPrefix x).
  - assert (liName x +:+ afterPrefix <> "") as Hne' by by destruct (liName x). rewrite bool_decide_false in H by done. cbn in H. apply negb_true_iff, lt_name_not_le in H. eapply le_lt_name_trans; [apply le_app_suffix|exact H].
  - rewrite bool_decide_false in H by done. cbn in H. by apply negb_true_iff, lt_name_not_le in H.
Qed.
Lemma covers_resume g E x : last E = Some x -> liName x <> "" -> (exists id, id ∈ ids /\ x ∈ B id) ->
  (forall n e, winner p B ids n = Some e -> exists id, id ∈ ids /\ e ∈ B id /\ liName e = n) ->
  covers p B ids g E (beyond (liName x)) -> covers p B ids g E (gt (resume_after (mkSpread (liName x) (liPrefix x) []))).
Proof.
  intros Hl Hne (i & Hi & Hx) Hw [A1 A2 A3 A4]. split; [|intros e He; destruct (A2 e He) as (H1 & H2 & H3); split_and!; try done|done|].
  - intros n Hn. apply A1. by eapply resume_beyond.
  - destruct (gt _ (liName e)) eqn:Eg; [|done]. apply resume_beyond in Eg; [congruence|done].
  - intros n e H1 H2 H3. destruct (beyond (liName x) n) eqn:Eb; [|by eapply A4]. exfalso. destruct (Hw n e H3) as (j & Hj & He & Hn). apply str_ltb_lt in Eb. unfold gt, resume_after in H2. cbn in H2. apply orb_false_iff in H2 as [_ H2]. apply negb_false_iff, leb_le in H2.
    destruct (liPrefix x) eqn:Ep.
    + assert (liName e = liName x) as Eq by (apply (Hrolled i j); [done..|]; rewrite Hn; by eapply between_prefix). destruct Eb as [_ Eb]. congruence.
    + destruct Eb as [E1 E2]. by apply E2, (anti_symm String.le).
Qed.

Lemma token_next q x dn : marker_law q ids B -> (exists id, id ∈ ids /\ x ∈ B id) -> liName (obj := obj) x <> "" ->
  exists dn', token_of (next_query q (mkSpread (liName x) (liPrefix x) dn)) = Some (mkSpread (liName x) (liPrefix x) dn') /\ forall id, id ∈ dn' -> id ∈ dn.
Proof.
  intros Hm (id & Hid & Hx) Hne. unfold next_query, token_of. destruct (lqV1 q) eqn:Ev; cbn.
  - rewrite bool_decide_false by done. cbn. rewrite <- (Hm Ev id x Hid Hx). exists []. split; [done|]. by intros ? ?%elem_of_nil.
  - unfold decodeSpreadToken. cbn. rewrite bool_decide_false by done. cbn. by exists dn.
Qed.

Lemma list_spread_ok pages fuel q tok : ids = ListingLegs p (lqPrefix q) -> startAfter = lqStartAfter q -> token_of q = Some tok -> (forall id, id ∈ ids -> (S (length (B id)) < fuel)%nat) -> (0 < page_size (lqMaxKeys q))%nat ->
  marker_law q ids B -> resume_after tok = "" \/ String.le startAfter (resume_after tok) -> (forall id, id ∈ ids -> id ∈ spDone tok -> to_come p B (gt (resume_after tok)) id = []) ->
  (pending p B ids (gt (resume_after tok)) < pages)%nat -> exists M, list_spread pages fuel cls p q = Some M /\ covers p B ids (gt (resume_after tok)) M (fun _ => false).
Proof.
  intros Hids Hsa. revert q tok Hids Hsa. induction pages as [|pages IH]; intros q tok Hids Hsa Htok Hfuel Hn Hm Ha Hd Hpages; [lia|]. cbn [list_spread].
  assert (forall id n, id ∈ ids -> (0 < n)%nat -> serves (ask_leg cls p n id) startAfter (B id) (posn n id)) as Hsv by (intros id n Hid; by apply (proj2 (Hserves id Hid))).
  assert (forall n e, winner p B ids n = Some e -> exists id, id ∈ ids /\ e ∈ B id /\ liName e = n) as Hw.
  { intros n e He. destruct (winner_in p startAfter (ask_leg cls p 1) B (posn 1) ids (fun id Hid => Hsv id 1%nat Hid ltac:(lia)) Hto n e He) as (id & Hid & [H1 _]%elem_of_lfilter & H2). by exists id. }
  destruct (spread_page_ok fuel q tok Hids Hsa Htok Hfuel Ha Hd) as (E & truncated & next & -> & Hc & Hpen & Hend & Hnext). destruct truncated.
  - destruct (Hnext eq_refl Hn) as (x & dn & El & -> & Hdn). unfold cut in Hc, Hpen, Hend. rewrite El in Hc, Hpen, Hend.
    assert (x ∈ E) as HxE by by apply last_Some_elem_of. destruct (cv_in _ _ _ _ _ _ Hc x HxE) as (_ & _ & Hwx). destruct (Hw _ _ Hwx) as (i & Hi & Hx & _).
    destruct (sv_names _ _ _ _ (Hsv i 1%nat Hi ltac:(lia)) x Hx) as [Hne Hle]. destruct (token_next q x dn Hm ltac:(by exists i) Hne) as (dn' & Ht' & Hsub).
    assert (covers p B ids (gt (resume_after tok)) E (gt (resume_after (mkSpread (liName x) (liPrefix x) dn')))) as Hc'.
    { change (resume_after (mkSpread (liName x) (liPrefix x) dn')) with (resume_after (mkSpread (liName x) (liPrefix x) [])). by apply covers_resume; [|done|exists i| |]. }
    assert (forall n, gt (resume_after (mkSpread (liName x) (liPrefix x) dn')) n = true -> beyond (liName x) n = true) as Hb by (intros n Hg; by eapply resume_beyond).
    set (q' := next_query q (mkSpread (liName x) (liPrefix x) dn)) in *. set (t' := mkSpread (liName x) (liPrefix x) dn') in *.
    assert (lqPrefix q' = lqPrefix q /\ lqStartAfter q' = lqStartAfter q /\ lqMaxKeys q' = lqMaxKeys q /\ marker_law q' ids B) as (F1 & F2 & F3 & F4).
    { unfold marker_law, q', next_query in *. destruct (lqV1 q); cbn; split_and!; done. }
    assert (exists M, list_spread pages fuel cls p q' = Some M /\ covers p B ids (gt (resume_after t')) M (fun _ => false)) as (M & -> & HM).
    { apply IH; rewrite ?F1, ?F2, ?F3; try done.
      - right. etrans; [exact Hle|]. unfold resume_after, t'. cbn. destruct (liPrefix x); [apply le_app_suffix|by apply reflexivity].
      - intros id Hid Hin. cbn in Hin. eapply to_come_mono; [exact Hb|]. apply Hdn; [done|by apply Hsub].
      - pose proof (pending_mono _ _ Hb). assert (0 < length E)%nat; [destruct E; [done|cbn; lia]|lia]. }
    exists (E ++ M). split; [done|]. eapply covers_app; [|exact Hc'|exact HM]. apply gt_upward.
  - exists E. split; [done|]. destruct Hc as [A1 A2 A3 A4]. split; [done|intros e He; destruct (A2 e He) as (? & _ & ?); done|done|]. intros n e H1 _ H3. destruct (cut (gt (resume_after tok)) E n) eqn:Ec; [|by eapply A4].
    exfalso. destruct (winner_in p startAfter (ask_leg cls p 1) B (posn 1) ids (fun id Hid => Hsv id 1%nat Hid ltac:(lia)) Hto n e H3) as (id & Hid & He & Hne). assert (e ∈ to_come p B (cut (gt (resume_after tok)) E) id) as H by (apply elem_of_to_come; by rewrite Hne).
    rewrite (Hend eq_refl id Hid) in H. by apply elem_of_nil in H.
Qed.
End Pages.

(** A backend that reads of a key reach is that of a listed leg, which keeps the key. *)
Lemma own_read {obj} p prefix key w r b (o : option obj) : wf_tables p -> Spread p = true -> HasPrefix key prefix = true -> routed p key = Ok (w, r) -> b ∈ r ->
  exists id, id ∈ ListingLegs p prefix /\ b = leg_backend p id /\ own p id (mkItem key false o) = true.
Proof.
  intros Hwf Hs Hk Hr Hb. unfold own. cbn. destruct (InMove p key) eqn:Hm.
  - pose proof Hm as Hm'. unfold InMove in Hm'. destruct (pMove p) as [m|] eqn:Em; [|done]. destruct (ListingLegs_move p prefix m Em) as [Hfrom Hto].
    assert (key_view p key = Ok (MoveView p m)) as Hv by (apply view_moving; [done|apply Hwf|done]). destruct (routed_Ok p _ key w r Hv Hr) as [_ Hrd].
    destruct (reads_of_sides _ key r b Hrd Hb) as [[|] ->]; [exists (mvTo m)|exists (mvFrom m)]; (split; [done|]; split; [first [by rewrite MoveView_primary|by rewrite MoveView_source]|]).
    + by rewrite (bool_decide_true (mvTo m = mvTo m)), orb_true_r.
    + by rewrite (bool_decide_true (mvFrom m = mvFrom m)).
  - rewrite (routed_owner p key Hwf Hs Hm) in Hr. injection Hr as <- <-. apply list_elem_of_singleton in Hb as ->. exists (owner_leg p key). split; [by apply ListingLegs_owner|]. split; [done|].
    rewrite OwnerOf_leg; [|apply Hwf|by apply owner_leg_ok]. rewrite bool_decide_true by done. by rewrite !orb_true_r.
Qed.

(** C20: let every leg serve its listing by S3's rules and keep it meanwhile, roll up common prefixes like
    the others, and, for ListObjects markers, name no key that ends with the delimiter. A client that follows the pages of a spread bucket's listing, by tokens or by markers, at any page
    size of at least one key, gets every name that a leg keeps exactly once and in order, with the entry of
    the destination for a key that moves; it takes no more pages than the legs have entries, plus one. Every
    object that a read of its key would find on a leg is among them. *)
Theorem spread_listing_complete {obj} (cls : clusters obj) p q B posn pages fuel :
  legs_serve cls p (ListingLegs p (lqPrefix q)) (lqStartAfter q) B posn -> rolled (ListingLegs p (lqPrefix q)) B -> marker_law q (ListingLegs p (lqPrefix q)) B ->
  lqMarker q = "" -> lqToken q = None -> (0 < page_size (lqMaxKeys q))%nat ->
  (forall id, id ∈ ListingLegs p (lqPrefix q) -> (S (length (B id)) < fuel)%nat) -> (sum_list_with (fun id => length (B id)) (ListingLegs p (lqPrefix q)) < pages)%nat ->
  exists M, list_spread pages fuel cls p q = Some M /\ StronglySorted name_lt M /\
    (forall it, it ∈ M <-> winner p B (ListingLegs p (lqPrefix q)) (liName it) = Some it /\ gt (if lqV1 q then "" else lqStartAfter q) (liName it) = true) /\
    (forall key w r b, wf_tables p -> Spread p = true -> HasPrefix key (lqPrefix q) = true -> gt (if lqV1 q then "" else lqStartAfter q) key = true -> routed p key = Ok (w, r) -> b ∈ r ->
       exists id, id ∈ ListingLegs p (lqPrefix q) /\ b = leg_backend p id /\ forall it, it ∈ B id -> liPrefix it = false -> liName it = key -> exists it', it' ∈ M /\ liName it' = key).
Proof.
  intros Hs Hr Hm Hmk Htk Hn Hf Hp. set (ids := ListingLegs p (lqPrefix q)) in *. set (start := if lqV1 q then "" else lqStartAfter q).
  assert (forall m, pMove p = Some m -> mvTo m ∈ ids) as Hto by (intros m E; by apply (ListingLegs_move p (lqPrefix q) m E)).
  assert (forall id, id ∈ ids -> serves (ask_leg cls p 1 id) (lqStartAfter q) (B id) (posn 1%nat id)) as Hsv by (intros id Hid; apply (proj2 (Hs id Hid)); lia).
  assert (token_of q = Some (mkSpread start false [])) as Ht by (unfold token_of; rewrite Hmk, Htk, bool_decide_true by done; cbn; by rewrite andb_false_r).
  destruct (list_spread_ok cls p (lqStartAfter q) B posn ids Hs Hr Hto pages fuel q (mkSpread start false [])) as (M & HM & [A1 A2 A3 A4]); try done.
  - unfold resume_after, start. cbn. destruct (lqV1 q); [by left|right; by apply reflexivity].
  - intros id _ Hid. by apply elem_of_nil in Hid.
  - eapply Nat.le_lt_trans; [|exact Hp]. unfold pending. change (resume_after (mkSpread start false [])) with start. clear. induction ids as [|id l IH]; [done|]. cbn.
    assert (length (to_come p B (gt start) id) <= length (B id))%nat; [|lia]. unfold to_come. by rewrite !List.filter_length_le.
  - change (resume_after (mkSpread start false [])) with start in *. exists M. split; [done|]. split; [done|]. split.
    + intros it. split; [intros Hit; destruct (A2 it Hit) as (? & _ & ?); done|intros [H1 H2]; by eapply A4].
    + intros key w r b Hwf Hsp Hk Hg Hro Hb. destruct (own_read p (lqPrefix q) key w r b (obj := obj) None Hwf Hsp Hk Hro Hb) as (id & Hid & -> & Hown). exists id. split; [done|]. split; [done|]. intros it Hit Hpre Hname.
      destruct (winner_some p (lqStartAfter q) (ask_leg cls p 1) B (posn 1%nat) ids Hsv key id it Hid) as [e He]; [|done|].
      * apply elem_of_lfilter. split; [done|]. unfold own in *. cbn in Hown. by rewrite Hpre, Hname.
      * destruct (winner_in p (lqStartAfter q) (ask_leg cls p 1) B (posn 1%nat) ids Hsv Hto key e He) as (_ & _ & _ & En). exists e. split; [|done]. by apply (A4 key).
Qed.

(** ** Two legs *)

Definition leg_names (id : string) : list string := if bool_decide (id = "b") then ["c"; "d"; "e"; "f"] else ["a"; "e"].
Definition toy_clusters : clusters nat := fun cluster => Some (fun _ n => toy (leg_names cluster) n).
Definition toy_query (v1 : bool) (prefix : string) (maxKeys : nat) : listQuery := mkQuery v1 prefix "/" "" "" None (Some maxKeys).

Example two_legs : option_map (List.map liName) (list_spread 7 9 toy_clusters example_carved (toy_query true "" 2)) = Some ["c"; "d"; "e"; "f"].
Proof. vm_compute. reflexivity. Qed.

Lemma leg_names_ok id : StronglySorted lt_name (leg_names id) /\ Forall (fun n => n <> "" /\ DecodeListingKey n = n) (leg_names id).
Proof. unfold leg_names. case_bool_decide; (split; [repeat constructor; by vm_compute|repeat constructor; by vm_compute]). Qed.
Lemma spread_listing_complete_witness : exists M, list_spread 7 7 toy_clusters example_carved (toy_query true "" 2) = Some M /\ StronglySorted name_lt M.
Proof.
  destruct (spread_listing_complete toy_clusters example_carved (toy_query true "" 2) (fun id => toy_items (leg_names id)) (fun n id => toy_pos (leg_names id)) 7 7) as (M & H1 & H2 & _).
  - intros id Hid. split; [done|]. intros n Hn. destruct (leg_names_ok id) as [L1 L2].
    assert (ask_leg toy_clusters example_carved n id = toy (leg_names id) n) as ->; [|by apply toy_serves].
    assert (id ∈ ["a"; "b"]) as Hin by (revert Hid; vm_compute; done). unfold ask_leg, toy_clusters. apply elem_of_cons in Hin as [->|Hin]; [reflexivity|]. by apply list_elem_of_singleton in Hin as ->.
  - intros i j x y _ _ Hx _ Hpre. apply list_elem_of_fmap in Hx as (n & -> & _). discriminate Hpre.
  - intros _ id x _ Hx. apply list_elem_of_fmap in Hx as (n & -> & Hn). cbn. symmetry. unfold leg_names in Hn. revert Hn. case_bool_decide; intros Hn; repeat (apply elem_of_cons in Hn as [->|Hn]; [reflexivity|]); by apply elem_of_nil in Hn.
  - reflexivity.
  - reflexivity.
  - vm_compute. lia.
  - intros id _. unfold toy_items. rewrite length_fmap. unfold leg_names. case_bool_decide; cbn; lia.
  - apply Nat.ltb_lt. vm_compute. reflexivity.
  - exists M. exact (conj H1 H2).
Defined.

(** A folder listed with a delimiter, in pages of one: the folder's own object ends with the delimiter, and
    ListObjects takes it for a common prefix when it comes back as the marker. *)
Definition folder : clusters nat := fun _ => Some (fun _ n => toy ["d/"; "d/1"; "d/2"] n).
Lemma folder_object_ends_listing : option_map (List.map liName) (list_spread 9 9 folder example_carved (toy_query true "d/" 1)) = Some ["d/"] /\
  option_map (List.map liName) (list_spread 9 9 folder example_carved (toy_query false "d/" 1)) = Some ["d/"; "d/1"; "d/2"].
Proof. vm_compute. split; reflexivity. Qed.
