(* ===== verification/SpreadDelete.v ===== *)
(** * The deletes of a spread bucket (internal/proxy/spreaddelete.go)

    DeleteObjects on a bucket spread over legs: the request's body goes to every leg, to the source of a move
    first, and each key is answered from the leg that owns it.  The admission is a [handling] as in Resign; the
    exchange takes the legs' replies as a parameter, with their bodies already read as XML or not. *)

From S2P Require Import Prelude Float64 KeyHash HashRange S3Op Config Crypto Chunked SigV4 BodyPlan Placement Route Backend Directory S3Names Scopes Admission Keeper Conditional Resign ResignSafe.

(** ** Data *)

Record deletedObject : Type := mkDeleted { dlKey : string; dlVersionID : string; dlMarker : option bool; dlMarkerVersionID : string }.
Record deleteError : Type := mkDelError { deKey : string; deVersionID : string; deCode : string }.
Record deleteResult : Type := mkResult { drDeleted : list deletedObject; drErrors : list deleteError }.

(** A leg's part, before it is sent ([spreadDeleteLeg]). *)
Record deleteLeg : Type := mkDelLeg { dgId : string; dgCluster : UCluster; dgBackend : string }.

(** How a leg replies: not at all, by a status other than 200, or by a 200 whose body is a result or is not. *)
Inductive reply : Type :=
| RepErr (connectErr buildErr : bool)
| RepStatus (status : Z)
| RepResult (res : option deleteResult).

(** ** Admission *)

Section admission.
Context (stale : bool) (snap : File) (clusters : Clusters).

(** Every leg with its cluster, the move's source first. *)
Fixpoint delete_legs (p : Placement) (ids : list string) (legs : list deleteLeg) : handling (list deleteLeg) :=
  match ids with
  | [] => mret legs
  | lid :: ids =>
      let l := mget zeroLeg lid (pLegs p) in
      match byName clusters !! legCluster l with
      | None => answers (Answer "ServiceUnavailable" false)
      | Some cl =>
          _ ← check_cluster snap (legCluster l);
          let leg := mkDelLeg lid cl (legBucket l) in
          delete_legs p ids (if match pMove p with Some m => bool_decide (lid = mvFrom m) | None => false end then leg :: legs else legs ++ [leg])
      end
  end.

(** [src.Release(h.Gates, admission.Definitive)] of a token the request does not hold yet. *)
Definition release_now (t : Token) : handling unit := fun st => (mkHeld (Release t Definitive <$> hdGates st) (hdTok st) (hdSrc st), Ok tt).

(** The checks of the move: its hash, its hold and the proxy's lease. *)
Definition check_move (p : Placement) : handling unit :=
  match pMove p with
  | None => mret tt
  | Some m =>
      _ ← refuse_if (negb (bool_decide (pKeyHash p = RampHash))) (Answer "ServiceUnavailable" false);
      _ ← refuse_if (Held (MoveView p m)) refuseWrite;
      refuse_if (staleFor stale p) refuseWrite
  end.

(** The source's gate, while a move is under way. *)
Definition enter_source (bucketKey : string) (p : Placement) : handling unit :=
  match pMove p with
  | None => mret tt
  | Some _ =>
      t ← enter bucketKey SourceKind (fVersion snap);
      match t with
      | Err barrier => if bool_decide (barrier = Superseded) then answers refuseGate else answers refuseWrite
      | Ok src => if source_barred p then _ ← release_now src; answers refuseWrite else hold_src src
      end
  end.

Definition delete_admit (bucketKey : string) (p : Placement) : handling (list deleteLeg) :=
  _ ← refuse_if (pReadOnly p) (refuseReadOnly (pRejectWrites p));
  _ ← refuse_if (mutations_barred p) refuseWrite;
  _ ← check_move p;
  legs ← delete_legs p (ListingLegs p "") [];
  t ← enter bucketKey Mutations (fVersion snap);
  _ ← match t with Err _ => answers refuseGate | Ok tok => hold_tok tok end;
  _ ← enter_source bucketKey p;
  mret legs.
End admission.

(** ** The body *)

(** [readDeleteBody]: the body as the client signed it, or an S3 code; [readAll] is what reading the planned
    body up to a limit and one more byte gives. *)
Definition enforcing : UCluster := mkUCluster "" "" "" "" "" [] "" "" true false false.
Definition readDeleteBody (readAll : bodyPlan -> Z -> result chunkErr bytes) (r : HRequest) (id : SigV4.Identity) (hasBody : bool) : result string bytes :=
  if negb hasBody then Err "MalformedXML"
  else match planBody r id hasBody enforcing with
       | Err e => Err (aeCode e)
       | Ok plan =>
           match readAll plan maxDeleteBody with
           | Err e => Err (asS3 e)
           | Ok b =>
               if (maxDeleteBody <? Z.of_nat (length b))%Z then Err "MaxMessageLengthExceeded"
               else if bool_decide (idPayload id = PayloadSHA256) && negb (idPresigned id) && negb (bool_decide (S_ (hex (sha256 b)) = idPayloadHash id)) then Err "XAmzContentSHA256Mismatch"
               else if bool_decide (b = []) then Err "MalformedXML" else Ok b
           end
       end.

(** ** The exchange *)

(** [owner]: the leg whose entry a key is answered from, or none. *)
Definition delete_owner (p : Placement) (key : string) : string :=
  match pMove p with
  | Some m => if InMove p key then mvTo m else match OwnerOf p key with Ok id => id | Err _ => "" end
  | None => match OwnerOf p key with Ok id => id | Err _ => "" end
  end.
Definition is_source (p : Placement) (id : string) : bool := match pMove p with Some m => bool_decide (id = mvFrom m) | None => false end.

(** How it ends: an upstream error, a leg's own error, or the answers of the owners. *)
Inductive deleteAnswer : Type :=
| DUpstream
| DRelay (status : Z)
| DAnswer (res : deleteResult).

(** What the loop over the replies keeps: the results, and what failed. *)
Record collected : Type := mkCol { clResults : list (string * deleteResult); clSourceFailed : bool; clSourceDispatched : bool; clUncertain : bool; clSrcUncertain : bool }.
Definition nothing : collected := mkCol [] false false false false.

Definition reply_result (r : reply) : option deleteResult := match r with RepResult res => res | _ => None end.
Definition reply_dispatched (r : reply) : bool := match r with RepErr c b => dispatched true c b None 0 | _ => false end.

Fixpoint collect (p : Placement) (replies : string -> reply) (legs : list deleteLeg) (st : collected) : collected * option deleteAnswer :=
  match legs with
  | [] => (st, None)
  | l :: legs =>
      let source := is_source p (dgId l) in
      let r := replies (dgId l) in
      let st := if reply_dispatched r then
                  if source then mkCol (clResults st) (clSourceFailed st) true (clUncertain st) true
                  else mkCol (clResults st) (clSourceFailed st) (clSourceDispatched st) true (clSrcUncertain st)
                else st in
      match reply_result r with
      | Some res => collect p replies legs (mkCol (clResults st ++ [(dgId l, res)]) (clSourceFailed st) (clSourceDispatched st) (clUncertain st) (clSrcUncertain st))
      | None =>
          if source then collect p replies legs (mkCol (clResults st) true (clSourceDispatched st) (clUncertain st) (clSrcUncertain st))
          else match r with
               | RepStatus s => if ((400 <=? s) && (s <? 500))%Z then (st, Some (DRelay s)) else (st, Some DUpstream)
               | _ => (st, Some DUpstream)
               end
      end
  end.

(** Each key's entry from the leg that owns it. *)
Definition owned_result (p : Placement) (x : string * deleteResult) : deleteResult :=
  mkResult (List.filter (fun d => bool_decide (delete_owner p (dlKey d) = x.1)) (drDeleted x.2)) (List.filter (fun e => bool_decide (delete_owner p (deKey e) = x.1)) (drErrors x.2)).
Definition add_result (a b : deleteResult) : deleteResult := mkResult (drDeleted a ++ drDeleted b) (drErrors a ++ drErrors b).

(** The keys a source that failed still owns. *)
Definition source_errors (p : Placement) (m : Move) (objs : list (string * string)) : list deleteError :=
  omap (fun o : string * string => if bool_decide (delete_owner p o.1 = mvFrom m) then Some (mkDelError o.1 o.2 "InternalError") else None) objs.

(** From the replies to the answer, and what of it stays unknown; [objs] are the objects the body names, when
    it reads as a request. *)
Definition delete_exchange (p : Placement) (replies : string -> reply) (objs : option (list (string * string))) (legs : list deleteLeg) : deleteAnswer * bool * bool :=
  let '(st, early) := collect p replies legs nothing in
  match early with
  | Some a => (a, clUncertain st, clSrcUncertain st)
  | None =>
      let out := foldl (fun a x => add_result a (owned_result p x)) (mkResult [] []) (clResults st) in
      match pMove p with
      | Some m =>
          if clSourceFailed st then
            match objs with
            | None => (DUpstream, clUncertain st, clSrcUncertain st)
            | Some objs =>
                let errs := source_errors p m objs in
                (DAnswer (add_result out (mkResult [] errs)), clUncertain st || (clSourceDispatched st && negb (bool_decide (errs = []))), clSrcUncertain st)
            end
          else (DAnswer out, clUncertain st, clSrcUncertain st)
      | None => (DAnswer out, clUncertain st, clSrcUncertain st)
      end
  end.

(** ** What the replies leave *)

Definition leg_result (replies : string -> reply) (l : deleteLeg) : option (string * deleteResult) := r ← reply_result (replies (dgId l)); Some (dgId l, r).

Lemma dispatched_no_result r : reply_dispatched r = true -> reply_result r = None.
Proof. by destruct r. Qed.

Lemma collect_done p replies legs st st' : collect p replies legs st = (st', None) ->
  clResults st' = clResults st ++ omap (leg_result replies) legs /\
  (forall l, l ∈ legs -> reply_result (replies (dgId l)) = None -> is_source p (dgId l) = true) /\
  clSourceFailed st' = clSourceFailed st || existsb (fun l => bool_decide (reply_result (replies (dgId l)) = None)) legs /\
  clSourceDispatched st' = clSourceDispatched st || existsb (fun l => reply_dispatched (replies (dgId l))) legs /\
  clUncertain st' = clUncertain st /\ clSrcUncertain st' = clSrcUncertain st || existsb (fun l => reply_dispatched (replies (dgId l))) legs.
Proof.
  revert st. induction legs as [|l legs IH]; intros st; cbn [collect].
  { intros [= <-]. rewrite app_nil_r, !orb_false_r. split_and!; try done. by intros l ?%elem_of_nil. }
  intros H. cbn [existsb omap list_omap]. unfold leg_result at 1. destruct (reply_result (replies (dgId l))) as [res|] eqn:Er.
  - assert (reply_dispatched (replies (dgId l)) = false) as Ed by (by destruct (replies (dgId l))). rewrite Ed in H |- *. apply IH in H as (H1 & H2 & H3 & H4 & H5 & H6). cbn in *.
    rewrite <- app_assoc in H1. split_and!; try done. intros l' [->|Hl]%elem_of_cons Hr; [congruence|by apply H2].
  - destruct (is_source p (dgId l)) eqn:Es; [|by destruct (replies (dgId l)); [..|]; repeat case_match].
    apply IH in H as (H1 & H2 & H3 & H4 & H5 & H6). cbn. destruct (reply_dispatched (replies (dgId l))); cbn in *; rewrite ?orb_true_r in *;
      (split_and!; try done; [intros l' [->|Hl]%elem_of_cons Hr; [done|by apply H2]]).
Qed.

(** ** The entries of a key *)

Definition entries (res : deleteResult) (key : string) : list deletedObject * list deleteError :=
  (List.filter (fun d => bool_decide (dlKey d = key)) (drDeleted res), List.filter (fun e => bool_decide (deKey e = key)) (drErrors res)).
Lemma entries_add a b key : entries (add_result a b) key = ((entries a key).1 ++ (entries b key).1, (entries a key).2 ++ (entries b key).2).
Proof. unfold entries, add_result. cbn. by rewrite !List.filter_app. Qed.
Lemma filter_key {A} (f : A -> string) (own : string -> string) (id key : string) l :
  List.filter (fun d => bool_decide (f d = key)) (List.filter (fun d => bool_decide (own (f d) = id)) l) = if bool_decide (own key = id) then List.filter (fun d => bool_decide (f d = key)) l else [].
Proof.
  induction l as [|d l IH]; [by case_match|]. cbn. destruct (bool_decide_reflect (own (f d) = id)) as [E|E]; cbn [List.filter].
  - destruct (bool_decide_reflect (f d = key)) as [<-|Ek]; [|exact IH]. rewrite IH. by rewrite !bool_decide_true by done.
  - rewrite IH. destruct (bool_decide_reflect (f d = key)) as [<-|Ek]; [by rewrite !bool_decide_false by done|done].
Qed.
Lemma entries_owned p x key : entries (owned_result p x) key = if bool_decide (delete_owner p key = x.1) then entries x.2 key else ([], []).
Proof. unfold entries, owned_result. cbn. rewrite (filter_key dlKey (delete_owner p)), (filter_key deKey (delete_owner p)). by case_match. Qed.

Lemma entries_results p key xs a : entries (foldl (fun a x => add_result a (owned_result p x)) a xs) key =
  ((entries a key).1 ++ concat ((fun x => (entries x.2 key).1) <$> List.filter (fun x : string * deleteResult => bool_decide (delete_owner p key = x.1)) xs),
   (entries a key).2 ++ concat ((fun x => (entries x.2 key).2) <$> List.filter (fun x : string * deleteResult => bool_decide (delete_owner p key = x.1)) xs)).
Proof.
  revert a. induction xs as [|x xs IH]; intros a; [cbn; by rewrite !app_nil_r|]. cbn [foldl]. rewrite IH, entries_add, entries_owned. cbn [List.filter]. case_bool_decide; cbn.
  - by rewrite <- !app_assoc.
  - by rewrite !app_nil_r.
Qed.

(** Of the results, the owner's is the one of its leg. *)
Lemma owner_results replies legs id : NoDup (dgId <$> legs) -> id ∈ dgId <$> legs ->
  List.filter (fun x : string * deleteResult => bool_decide (id = x.1)) (omap (leg_result replies) legs) = match reply_result (replies id) with Some r => [(id, r)] | None => [] end.
Proof.
  induction legs as [|l legs IH]; [by intros _ ?%elem_of_nil|]. rewrite fmap_cons. intros [Hl Hn]%NoDup_cons Hid. cbn [omap list_omap]. unfold leg_result at 1.
  assert (forall id', id' ∉ dgId <$> legs -> List.filter (fun x : string * deleteResult => bool_decide (id' = x.1)) (omap (leg_result replies) legs) = []) as Hnone.
  { clear. intros id' H. induction legs as [|l legs IH]; [done|]. rewrite fmap_cons in H. cbn [omap list_omap]. unfold leg_result at 1. destruct (reply_result _); cbn [mbind option_bind]; [|apply IH; set_solver].
    cbn [List.filter fst]. rewrite bool_decide_false by set_solver. apply IH. set_solver. }
  apply elem_of_cons in Hid as [->|Hid].
  - destruct (reply_result (replies (dgId l))); cbn [mbind option_bind]; [|by apply Hnone]. cbn [List.filter fst]. rewrite bool_decide_true by done. by rewrite Hnone.
  - assert (id <> dgId l) by (intros ->; done). destruct (reply_result (replies (dgId l))); cbn [mbind option_bind]; [cbn [List.filter fst]; rewrite bool_decide_false by done|]; by apply IH.
Qed.

(** ** Owners *)

Lemma delete_owner_view p key : wf_tables p -> Spread p = true -> exists v, key_view p key = Ok v /\ side_backend v Primary = leg_backend p (delete_owner p key) /\ delete_owner p key ∈ ListingLegs p "".
Proof.
  intros Hwf Hs. unfold delete_owner. assert (InMove p key = false -> exists v, key_view p key = Ok v /\ side_backend v Primary = leg_backend p match OwnerOf p key with Ok id => id | Err _ => "" end /\
    match OwnerOf p key with Ok id => id | Err _ => "" end ∈ ListingLegs p "") as Hown.
  { intros Hm. pose proof (owner_leg_ok p key Hwf) as [Hne _]. rewrite (OwnerOf_leg p key (wt_hash p Hwf) Hne). exists (onLeg p (owner_leg p key)). split; [apply view_unmoved; [done|apply (wt_hash p Hwf)|done|done]|]. split; [apply onLeg_backend|]. apply ListingLegs_owner; [done|apply HasPrefix_empty]. }
  destruct (pMove p) as [m|] eqn:Em; [|apply Hown; unfold InMove; by rewrite Em]. destruct (InMove p key) eqn:Hm; [|by apply Hown]. exists (MoveView p m). split; [by apply view_moving; [|apply Hwf|]|].
  split; [by rewrite MoveView_primary|]. by apply (ListingLegs_move p "" m).
Qed.

Lemma source_errors_cons p m k v objs : source_errors p m ((k, v) :: objs) = if bool_decide (delete_owner p k = mvFrom m) then mkDelError k v "InternalError" :: source_errors p m objs else source_errors p m objs.
Proof. unfold source_errors. cbn. by destruct (bool_decide _). Qed.
Lemma entries_errors p m objs key : entries (mkResult [] (source_errors p m objs)) key =
  ([], if bool_decide (delete_owner p key = mvFrom m) then (fun o : string * string => mkDelError o.1 o.2 "InternalError") <$> List.filter (fun o : string * string => bool_decide (o.1 = key)) objs else []).
Proof.
  unfold entries. cbn [drDeleted drErrors List.filter]. f_equal. induction objs as [|[k v] objs IH]; [by case_match|]. rewrite source_errors_cons. cbn [List.filter fst].
  destruct (bool_decide_reflect (delete_owner p k = mvFrom m)) as [E|E]; [cbn [List.filter deKey]|]; rewrite IH; (destruct (bool_decide_reflect (k = key)) as [<-|Ek]; [|done]).
  - by rewrite bool_decide_true.
  - by rewrite bool_decide_false.
Qed.

(** What a key is answered with. *)
Definition key_answer (p : Placement) (replies : string -> reply) (objs : option (list (string * string))) (res : deleteResult) (unc : bool) (key id : string) : Prop :=
  match reply_result (replies id) with
  | Some r => entries res key = entries r key
  | None => is_source p id = true /\ exists named, objs = Some named /\
      entries res key = ([], (fun o : string * string => mkDelError o.1 o.2 "InternalError") <$> List.filter (fun o : string * string => bool_decide (o.1 = key)) named) /\
      (key ∈ named.*1 -> unc = false -> reply_dispatched (replies id) = false)
  end.


(** ** Admission *)

Section admitted.
Context (stale : bool) (snap : File) (clusters : Clusters) (g0 : Gates).

(** A leg that may be sent a delete. *)
Definition leg_ready (p : Placement) (l : deleteLeg) : Prop :=
  byName clusters !! legCluster (mget zeroLeg (dgId l) (pLegs p)) = Some (dgCluster l) /\ dgBackend l = legBucket (mget zeroLeg (dgId l) (pLegs p)) /\ writable snap (legCluster (mget zeroLeg (dgId l) (pLegs p))).

Definition legs_ready (p : Placement) (ids : list string) (legs legs' : list deleteLeg) : Prop :=
  dgId <$> legs' ≡ₚ ids ++ (dgId <$> legs) /\ (Forall (leg_ready p) legs -> Forall (leg_ready p) legs') /\
  forall m, pMove p = Some m -> mvFrom m ∈ ids \/ head (dgId <$> legs) = Some (mvFrom m) -> head (dgId <$> legs') = Some (mvFrom m).

Lemma stage_legs I p ids legs : stage I (delete_legs snap clusters p ids legs) (legs_ready p ids legs).
Proof.
  revert legs. induction ids as [|lid ids IH]; intros legs; cbn [delete_legs].
  { apply stage_ret. split_and!; [done|done|]. intros m _ [H|H]; [by apply elem_of_nil in H|done]. }
  destruct (byName clusters !! legCluster (mget zeroLeg lid (pLegs p))) as [cl|] eqn:Ec; [|by apply stage_answers]. eapply stage_bind; [apply stage_cluster|]. intros [] Hw.
  eapply stage_impl; [apply IH|]. intros legs' (H1 & H2 & H3).
  assert (leg_ready p (mkDelLeg lid cl (legBucket (mget zeroLeg lid (pLegs p))))) as Hr by by split_and!.
  destruct (pMove p) as [m|] eqn:Em; [destruct (bool_decide_reflect (lid = mvFrom m)) as [E|E]|]; split_and!.
  - rewrite H1, fmap_cons. cbn. by rewrite <- Permutation_middle.
  - intros Hf. apply H2. by constructor.
  - intros m' Hm' _. assert (m' = m) as -> by congruence. apply (H3 m eq_refl). right. cbn. by rewrite E.
  - rewrite H1, fmap_app. cbn. rewrite (Permutation_app_comm (dgId <$> legs)). cbn. by rewrite <- Permutation_middle.
  - intros Hf. apply H2, Forall_app. split; [done|by constructor].
  - intros m' Hm' H. assert (m' = m) as -> by congruence. apply (H3 m eq_refl). destruct H as [[H|H]%elem_of_cons|H]; [done|by left|right]. by destruct legs.
  - rewrite H1, fmap_app. cbn. rewrite (Permutation_app_comm (dgId <$> legs)). cbn. by rewrite <- Permutation_middle.
  - intros Hf. apply H2, Forall_app. split; [done|by constructor].
  - intros m' Hm'. congruence.
Qed.

Lemma stage_move I p : stage I (check_move stale p) (fun _ => forall m, pMove p = Some m -> pKeyHash p = RampHash /\ Held (MoveView p m) = false /\ staleFor stale p = false).
Proof.
  unfold check_move. destruct (pMove p) as [m|]; [|by apply stage_ret]. eapply stage_bind; [by apply stage_check|]. intros [] H1. eapply stage_bind; [by apply stage_check|]. intros [] H2.
  eapply stage_impl; [by apply stage_check|]. intros [] H3 m' Hm'. assert (m' = m) as -> by congruence. apply negb_false_iff, bool_decide_eq_true in H1. done.
Qed.

Lemma triple_after {A B} (m : handling A) (F : A -> Prop) (k : A -> handling B) Q (R : answer -> held -> Prop) : stage (untouched g0) m F -> (forall a, F a -> triple (untouched g0) (k a) Q R) ->
  (forall e st, counts g0 st None -> R e st) -> triple (untouched g0) (m ≫= k) Q R.
Proof.
  intros Hm Hk HR st Hst. specialize (Hm st Hst). unfold mbind, handling_bind. destruct (m st) as [st1 [a|e]]; [destruct Hm as [Ha Hst1]; by apply Hk|]. destruct Hm as (_ & Hc & _). by apply HR.
Qed.

Lemma triple_release_now t tok src : triple (fun st => counts g0 st t /\ hdTok st = tok /\ hdSrc st = src) (release_now t) (fun _ st => counts g0 st None /\ hdTok st = tok /\ hdSrc st = src) (fun _ _ => False).
Proof.
  intros [gs t0 s0] ((g & Hg & Hc) & Ht & Hs). simpl in *. subst. split; [|done]. eexists. split; [reflexivity|]. intros key. destruct (Hc key) as (H1 & H2 & H3), (release_gate t Definitive g key) as (R1 & R2 & R3).
  split_and!; [by rewrite R1|by rewrite R2|]. intros kind. rewrite R3, H3. cbn [hdTok hdSrc]. rewrite !cnt_none. lia.
Qed.

(** What a delete of a moving bucket holds of the source's gate. *)
Definition source_held (key : string) (p : Placement) (st : held) : Prop :=
  forall m, pMove p = Some m -> hdSrc st = Some (key, SourceKind) /\ admits snap g0 key SourceKind /\ source_barred p = false.

Lemma triple_enter_source key p tok : triple (fun st => counts g0 st None /\ hdTok st = tok /\ hdSrc st = None) (enter_source snap key p)
  (fun _ st => counts g0 st None /\ hdTok st = tok /\ source_held key p st) (fun _ st => counts g0 st None).
Proof.
  unfold enter_source, source_held. destruct (pMove p) as [m|]; [|apply triple_ret; by intros st (? & ? & _)]. eapply triple_bind.
  { eapply triple_weaken; [apply (triple_enter g0 key SourceKind (fVersion snap) tok None)|done|exact (fun _ _ H => H)|by intros]. }
  intros [t|b]; [destruct (source_barred p) eqn:Eb|].
  - intros st (Ht & Hs & Hc & -> & _). pose proof (triple_release_now (Some (key, SourceKind)) tok None st (conj Hc (conj Ht Hs))) as Hr. unfold mbind, handling_bind. destruct (release_now _ st) as [st1 [[]|e]]; [|done]. by destruct Hr as (? & _).
  - intros st (Ht & Hs & Hc & -> & Ha). pose proof (triple_hold_src g0 (Some (key, SourceKind)) tok st (conj Hc (conj Ht Hs))) as Hh. destruct (hold_src _ st) as [st1 [[]|e]]; [|done]. destruct Hh as (H1 & H2 & H3). by split_and!.
  - intros st (_ & _ & Hc & _). by case_bool_decide.
Qed.

Definition admitted_delete (key : string) (p : Placement) (legs : list deleteLeg) (st : held) : Prop :=
  pReadOnly p = false /\ mutations_barred p = false /\
  (forall m, pMove p = Some m -> pKeyHash p = RampHash /\ Held (MoveView p m) = false /\ staleFor stale p = false /\ head (dgId <$> legs) = Some (mvFrom m)) /\
  dgId <$> legs ≡ₚ ListingLegs p "" /\ Forall (leg_ready p) legs /\
  hdTok st = Some (key, Mutations) /\ admits snap g0 key Mutations /\ source_held key p st.

Lemma triple_delete_admit key p : triple (untouched g0) (delete_admit stale snap clusters key p) (fun legs st => counts g0 st None /\ admitted_delete key p legs st) (fun _ st => counts g0 st None).
Proof.
  unfold delete_admit. eapply triple_after; [apply stage_check; by destruct (pRejectWrites p)| |done]. intros [] H1. eapply triple_after; [by apply stage_check| |done]. intros [] H2.
  eapply triple_after; [apply stage_move| |done]. intros [] H3. eapply triple_after; [apply stage_legs| |done]. intros legs (L1 & L2 & L3).
  eapply triple_bind; [eapply triple_weaken; [apply (triple_enter g0 key Mutations (fVersion snap) None None)|done|exact (fun _ _ H => H)|by intros]|]. intros [t|b]; [|by intros st (_ & _ & Hc & _)].
  eapply (triple_bind _ _ _ _ (fun _ st => counts g0 st None /\ hdTok st = Some (key, Mutations) /\ hdSrc st = None /\ admits snap g0 key Mutations)).
  { intros st (Ht & Hs & Hc & -> & Ha). pose proof (triple_hold_tok g0 (Some (key, Mutations)) None st (conj Hc (conj Ht Hs))) as Hh. destruct (hold_tok _ st) as [st1 [[]|e]]; [|done]. by destruct Hh as (? & ? & ?). }
  intros [] st (Hc & Ht & Hs & Ha). pose proof (triple_enter_source key p _ st (conj Hc (conj Ht Hs))) as He. unfold mbind, handling_bind. destruct (enter_source snap key p st) as [st1 [[]|e]]; [|exact He].
  destruct He as (He1 & He2 & He3). cbn. unfold admitted_delete. rewrite app_nil_r in L1. split_and!; try done; [|by apply L2].
  intros m Hm. destruct (H3 m Hm) as (? & ? & ?). split_and!; try done. apply L3; [done|]. left. by apply (ListingLegs_move p "" m).
Qed.

(** A multi-object delete of a spread bucket is sent only admitted. It goes to every leg of the bucket, a
    move's source first, when the bucket and every leg's cluster take writes, no step of a move is held or may
    have been missed, and the request holds a token of the bucket's open gate, and of the source's while a move
    is under way; and however it ends, giving back its tokens leaves every gate as it was. *)
Theorem spread_delete_admitted key p st out uncertain srcUncertain : delete_admit stale snap clusters key p (mkHeld (Some g0) None None) = (st, out) ->
  (forall legs, out = Ok legs -> admitted_delete key p legs st) /\
  exists g, releaseTokens (hdTok st) (hdSrc st) uncertain srcUncertain <$> hdGates st = Some g /\ forall key kind, infl g key kind = infl g0 key kind.
Proof.
  intros Hp. pose proof (triple_delete_admit key p _ (start_untouched g0)) as H. rewrite Hp in H.
  assert (counts g0 st None) as (g & Hg & Hc) by (destruct out; [by destruct H|done]). split; [intros legs ->; by destruct H|].
  unfold releaseTokens. rewrite Hg. eexists. split; [reflexivity|]. intros k kind. destruct (Hc k) as (_ & _ & Hk). specialize (Hk kind).
  rewrite (proj2 (proj2 (release_gate _ _ _ k)) kind), (proj2 (proj2 (release_gate _ _ _ k)) kind), Hk, cnt_none. lia.
Qed.
End admitted.

(** ** A bucket of two legs, whose first [logs/] keys move *)

Definition moving_carved : Placement := example_carved |> set_State StateMigrating |> set_Move (Some (mkMove "logs/" (mkRange 100 MaxUint64) "b" "a" None None)).
Lemma moving_carved_wf : wf_tables moving_carved.
Proof. destruct example_carved_wf. by constructor. Qed.
Definition both_legs : list deleteLeg :=
  let c n id := mkUCluster n "s3" "https" "r" id ["h:443"] "k" "s" true true true in [mkDelLeg "b" (c "b" "bbbbbb") "b2"; mkDelLeg "a" (c "a" "aaaaaa") "b1"].

Definition admit_run : held * result answer (list deleteLeg) := delete_admit false (site_file (at_rest "a" "x") moving_carved) site_clusters "t/src" moving_carved (mkHeld (Some New) None None).
Lemma admit_run_ok : snd admit_run = Ok both_legs.
Proof. vm_compute. reflexivity. Qed.
Lemma spread_delete_admitted_witness : exists st, hdTok st = Some ("t/src", Mutations) /\ hdSrc st = Some ("t/src", SourceKind).
Proof.
  destruct (spread_delete_admitted false (site_file (at_rest "a" "x") moving_carved) site_clusters New "t/src" moving_carved (fst admit_run) (snd admit_run) false false) as [H _]; [unfold admit_run; by destruct (delete_admit _ _ _ _ _ _)|].
  destruct (H both_legs admit_run_ok) as (_ & _ & _ & _ & _ & H1 & _ & H2). exists (fst admit_run). split; [exact H1|]. by destruct (H2 (mkMove "logs/" (mkRange 100 MaxUint64) "b" "a" None None) eq_refl).
Defined.

(** The source does not reply; the destination deletes what it is asked to. *)
Definition source_down (id : string) : reply := if bool_decide (id = "a") then RepResult (Some (mkResult [mkDeleted "logs/1" "" None ""; mkDeleted "x" "" None ""] [])) else RepErr false false.
Definition two_objects : list (string * string) := [("logs/1", ""); ("x", "")].
Lemma source_down_answer : delete_exchange moving_carved source_down (Some two_objects) both_legs = (DAnswer (mkResult [mkDeleted "logs/1" "" None ""] [mkDelError "x" "" "InternalError"]), true, true).
Proof. vm_compute. reflexivity. Qed.

(** An answer that ends the loop early forgets the replies after it: the second leg's request may have reached
    its backend and was not answered, and the outcome counts as known. *)
Definition early_end (id : string) : reply := if bool_decide (id = "a") then RepStatus 500 else RepErr false false.
Lemma early_answer_forgets : delete_exchange example_carved early_end (Some two_objects) (reverse both_legs) = (DUpstream, false, false) /\ reply_dispatched (early_end "b") = true.
Proof. vm_compute. split; reflexivity. Qed.
