(* ===== verification/CpStore.v ===== *)
(** * The control plane's directory store (internal/cp: store.go, crypt.go; internal/auth: static.go)

    Control nodes keep the directory in etcd: one key per record, one transaction per change with a
    compare on the version key, and a watch by which every node follows every change.  Secrets are
    sealed under a key only control nodes hold.

    A value in etcd is the document its bytes encode: a decimal text, or the JSON of one record.  The
    keys under the store's prefix are a map from strings to values, [etcd].  A mutation is a function
    from the state a node holds to the transaction it sends, with the answers of its surroundings (the
    clock, random identities and nonces, the Prepare hook, secrets kept elsewhere) in a [Env].  The steps
    of nodes that share one etcd are in CpNodes. *)

From S2P Require Import Prelude Crypto Strconv Float64 KeyHash HashRange Config Placement Transition S3Op S3Names Route Backend Scopes Directory Validate Store SigV4.

(** ** Secrets at rest (crypt.go) *)

(** AES-GCM under the data-encryption key: sealing with a nonce, and opening. *)
Class Aead : Type := { Seal : bytes -> bytes -> bytes; OpenSealed : bytes -> bytes -> option bytes }.
Class AeadLaws `{Aead} : Prop := { open_seal : forall nonce p, OpenSealed nonce (Seal nonce p) = Some p }.

Definition NonceSize : nat := 12.

Section Cipher.
Context `{Aead}.

(** [Cipher.Encrypt] with the nonce it draws. *)
Definition Encrypt (nonce plain : bytes) : bytes := B "v1:" ++ base64 (nonce ++ Seal nonce plain).

(** [bytes.CutPrefix]. *)
Fixpoint cut_bytes (p b : bytes) : option bytes :=
  match p, b with
  | [], _ => Some b
  | x :: p, y :: b => if decide (x = y) then cut_bytes p b else None
  | _ :: _, [] => None
  end.

(** [Cipher.Decrypt]: [None] is [ErrCiphertext]. *)
Definition Decrypt (sealed : bytes) : option bytes :=
  body ← cut_bytes (B "v1:") sealed;
  raw ← unbase64 body;
  if (length raw <? NonceSize)%nat then None else OpenSealed (take NonceSize raw) (drop NonceSize raw).
End Cipher.

(** ** Keys *)

Definition prefix : string := "/shunt/v1/".
Definition kVersion : string := "/shunt/v1/version".
Definition kClusters : string := "/shunt/v1/clusters/".
Definition kTenants : string := "/shunt/v1/tenants/".
Definition kPlacements : string := "/shunt/v1/placements/".
Definition kCredentials : string := "/shunt/v1/credentials/".
Definition kChanges : string := "/shunt/v1/changes/".
Definition kSchema : string := "/shunt/v1/schema".
Definition kIdentity : string := "/shunt/v1/identity".
Definition kGenerations : string := "/shunt/v1/generations/".
Definition changeRetention : Z := 10000.
Definition SecretRefPrefix : string := "control:".
Definition secretRef (name : string) : string := SecretRefPrefix +:+ name.

(** The cases of the switch in [apply], with what follows the prefix. *)
Inductive key : Type :=
| KVersion
| KCluster (name : string)
| KTenant (name : string)
| KPlacement (k : string)
| KCredential (ak : string)
| KSchema
| KIdentity
| KGeneration (res : string)
| KChange (v : string)
| KOther (k : string).

Definition key_of (k : string) : key :=
  if decide (k = kVersion) then KVersion
  else match CutPrefix k kClusters with Some n => KCluster n | None =>
       match CutPrefix k kTenants with Some n => KTenant n | None =>
       match CutPrefix k kPlacements with Some n => KPlacement n | None =>
       match CutPrefix k kCredentials with Some n => KCredential n | None =>
       if decide (k = kSchema) then KSchema
       else if decide (k = kIdentity) then KIdentity
       else match CutPrefix k kGenerations with Some n => KGeneration n | None =>
            match CutPrefix k kChanges with Some n => KChange n | None => KOther k end end end end end end.

Definition key_name (k : key) : string :=
  match k with
  | KVersion => kVersion
  | KCluster n => kClusters +:+ n
  | KTenant n => kTenants +:+ n
  | KPlacement n => kPlacements +:+ n
  | KCredential n => kCredentials +:+ n
  | KSchema => kSchema
  | KIdentity => kIdentity
  | KGeneration n => kGenerations +:+ n
  | KChange n => kChanges +:+ n
  | KOther k => k
  end.

(** ** Values *)

#[export] Instance Credential_eq_dec : EqDecision Credential.
Proof. solve_decision. Defined.

(** [clusterRecord] and [credentialRecord]; an empty secret is a record without one. *)
Record clusterRecord : Type := mkClusterRec { crCluster : Cluster; crSecret : bytes }.
Record credentialRecord : Type := mkCredRec { cdrTenant : string; cdrBuckets : list string; cdrSecret : bytes }.

(** The documents: decimal numbers as their text, JSON as the record; [VEmpty] is the empty value, which
    is no JSON. *)
Inductive value : Type :=
| VText (b : bytes)
| VCluster (r : clusterRecord)
| VTenant (t : Tenant)
| VPlacement (p : Placement)
| VCredential (r : credentialRecord)
| VIdentity (i : Directory.Identity)
| VChange (c : Change)
| VEmpty.

Notation etcd := (gmap string value).

(** An operation of a transaction: a put, or the deletion of a key. *)
Definition txnOp : Type := string * option value.

Definition finite (p : Placement) : bool :=
  negb (existsb f64_isNaN (placement_floats p)) && negb (existsb f64_isInf (placement_floats p)).

(** [json.Marshal] of a placement fails on a number that is not finite. *)
Definition marshalPlacement (p : Placement) : option Placement := if finite p then Some (stored p) else None.

(** ** One version of everything the store holds *)

Record cpState : Type := mkState {
  stVersion : Z;
  stFile : File;
  stCreds : gmap string Credential;
  stSecrets : gmap string bytes;
}.

Definition emptyState : cpState := mkState 0 (mkFile 0 0 zeroIdentity None (Some ∅) (Some ∅) (Some ∅)) ∅ ∅.

Definition clone_state (st : cpState) : cpState := mkState (stVersion st) (file_clone (stFile st)) (stCreds st) (stSecrets st).
Definition set_stFile (f : File) (st : cpState) : cpState := mkState (stVersion st) f (stCreds st) (stSecrets st).
Definition set_stVersion (v : Z) (st : cpState) : cpState := mkState v (stFile st) (stCreds st) (stSecrets st).
Definition set_stCreds (c : gmap string Credential) (st : cpState) : cpState := mkState (stVersion st) (stFile st) c (stSecrets st).
Definition set_stSecrets (s : gmap string bytes) (st : cpState) : cpState := mkState (stVersion st) (stFile st) (stCreds st) s.
Definition on_file (g : File -> File) (st : cpState) : cpState := set_stFile (g (stFile st)) st.

Definition set_Schema (s : Z) (f : File) : File := set_Lineage (fVersion f) s (fIdentity f) (fGenerations f) f.
Definition set_Identity (i : Directory.Identity) (f : File) : File := set_Lineage (fVersion f) (fSchema f) i (fGenerations f) f.
Definition set_Generations (g : option (gmap string Z)) (f : File) : File := set_Lineage (fVersion f) (fSchema f) (fIdentity f) g f.

Inductive cpErr : Type :=
| CpDir (e : dirErr)
| CpUnchanged
| CpDeleted
| CpDecode
| CpCiphertext
| CpSchema
| CpNonce
| CpSecretName
| CpNoSecret
| CpKeyEmpty
| CpUnknownKey
| CpDuplicateKey
| CpUnavailable.

Definition lift_dir {A} (r : result dirErr A) : result cpErr A := match r with Ok a => Ok a | Err e => Err (CpDir e) end.

Section Store_.
Context `{Aead}.

(** [apply]: one record put into a state; [None] is a key that was removed. *)
Definition apply (st : cpState) (k : string) (v : option value) : result cpErr cpState :=
  match key_of k, v with
  | KVersion, None => Err CpDeleted
  | KVersion, Some (VText b) => match ParseInt 10 b with Some v => Ok (set_stVersion v st) | None => Err CpDecode end
  | KCluster n, None => Ok (st |> on_file (fun f => set_Clusters (mdelete n (fClusters f)) f) |> set_stSecrets (delete (secretRef n) (stSecrets st)))
  | KCluster n, Some (VCluster r) =>
      let st := st |> on_file (fun f => set_Clusters (<[n := crCluster r]> <$> fClusters f) f) in
      if bool_decide (crSecret r = []) then Ok st
      else match Decrypt (crSecret r) with
           | Some plain => Ok (st |> set_stSecrets (<[secretRef n := plain]> (stSecrets st)))
           | None => Err CpCiphertext
           end
  | KTenant n, None => Ok (st |> on_file (fun f => set_Tenants (mdelete n (fTenants f)) f))
  | KTenant n, Some (VTenant t) => Ok (st |> on_file (fun f => set_Tenants (<[n := t]> <$> fTenants f) f))
  | KPlacement k, None => Ok (st |> on_file (fun f => set_Placements (mdelete k (fPlacements f)) f))
  | KPlacement k, Some (VPlacement p) => Ok (st |> on_file (fun f => set_Placements (<[k := stored p]> <$> fPlacements f) f))
  | KCredential ak, None => Ok (st |> set_stCreds (delete ak (stCreds st)))
  | KCredential ak, Some (VCredential r) =>
      match Decrypt (cdrSecret r) with
      | Some plain => Ok (st |> set_stCreds (<[ak := mkCred ak (S_ plain) (cdrTenant r) (cdrBuckets r)]> (stCreds st)))
      | None => Err CpCiphertext
      end
  | KSchema, None => Ok (st |> on_file (set_Schema 0))
  | KSchema, Some (VText b) => match ParseInt 10 b with Some v => Ok (st |> on_file (set_Schema v)) | None => Err CpDecode end
  | KIdentity, None => Err CpDeleted
  | KIdentity, Some (VIdentity i) => Ok (st |> on_file (set_Identity i))
  | KGeneration res, None => Ok (st |> on_file (fun f => set_Generations (mdelete res (fGenerations f)) f))
  | KGeneration res, Some (VText b) =>
      match ParseInt 10 b with
      | Some g => Ok (st |> on_file (fun f => set_Generations (Some (<[res := g]> (default ∅ (fGenerations f)))) f))
      | None => Err CpDecode
      end
  | KChange _, _ => Ok st
  | KOther _, _ => Ok st
  | _, Some _ => Err CpDecode
  end.

(** Records in order, until one cannot be applied. *)
Fixpoint apply_all (st : cpState) (ops : list txnOp) : result cpErr cpState :=
  match ops with
  | [] => Ok st
  | (k, v) :: ops => st ← apply st k v; apply_all st ops
  end.

(** The file gets the state's version, and is validated. *)
Definition seal_version (st : cpState) : result cpErr cpState :=
  let st := on_file (set_Version (stVersion st)) st in
  _ ← guard_err (negb (bool_decide (validate (stFile st) = []))) (CpDir (ErrInvalid (validate (stFile st))));
  Ok st.

(** [load]: everything under the prefix at one revision, in key order. *)
Definition entries (kv : etcd) : list txnOp := (fun k => (k, kv !! k)) <$> sortedKeys kv.
Definition load (kv : etcd) : result cpErr cpState :=
  st ← apply_all emptyState (entries kv);
  _ ← guard_err (negb (CheckSchema (fSchema (stFile st)))) CpSchema;
  seal_version st.

(** What the watch makes of the events of one response, on the state it has: an error is logged, and the
    node keeps its state and goes on with the next response. *)
Definition watched (st : cpState) (evs : list txnOp) : result cpErr cpState :=
  st ← apply_all (clone_state st) evs; seal_version st.

(** [state.resolve]: a control: reference from this state, any other from the environment or a file. *)
Definition resolve (outside : string -> option bytes) (st : cpState) (ref : string) : option bytes :=
  if negb (HasPrefix ref SecretRefPrefix) then outside ref else stSecrets st !! ref.

(** ** Transactions *)

(** One operation on the keys, and a transaction's. *)
Definition put_op (kv : etcd) (op : txnOp) : etcd := match op.2 with Some v => <[op.1 := v]> kv | None => delete op.1 kv end.
Definition put_ops (kv : etcd) (ops : list txnOp) : etcd := foldl put_op kv ops.

(** One kind of record of [diff]: a put for every record that is new or differs, a deletion for every one
    that is gone. *)
Fixpoint diff_puts {V} (name : string -> string) (same : string -> V -> bool) (enc : string -> V -> result cpErr value) (next : list (string * V))
    : result cpErr (list txnOp) :=
  match next with
  | [] => Ok []
  | (n, v) :: next =>
      if same n v then diff_puts name same enc next
      else x ← enc n v; ops ← diff_puts name same enc next; Ok ((name n, Some x) :: ops)
  end.
Definition diff_dels {V} (name : string -> string) (cur next : gmap string V) : list txnOp :=
  (fun n => (name n, None)) <$> List.filter (fun n => bool_decide (next !! n = None)) (sortedKeys cur).
Definition diff_map {V} (name : string -> string) (same : string -> V -> V -> bool) (enc : string -> V -> result cpErr value)
    (cur next : gmap string V) : result cpErr (list txnOp) :=
  puts ← diff_puts name (fun n v => match cur !! n with Some old => same n old v | None => false end) enc (map_to_list next);
  Ok (puts ++ diff_dels name cur next).

(** What surrounds one attempt: the clock, [NewIdentity], the Prepare hook if there is one, the secrets
    kept outside, and the [NonceSize] random bytes drawn for a record, if they can be. *)
Record Env : Type := mkEnv {
  eNow : Z;
  eFresh : option Directory.Identity;
  ePrepare : option (File -> (string -> option bytes) -> bool);
  eSecret : string -> option bytes;
  eNonce : string -> option bytes;
}.

Definition encrypt (e : Env) (k : string) (plain : bytes) : result cpErr bytes :=
  match eNonce e k with
  | Some nonce => if (length nonce =? NonceSize)%nat then Ok (Encrypt nonce plain) else Err CpNonce
  | None => Err CpNonce
  end.

Definition marshalCluster (e : Env) (next : cpState) (name : string) (c : Cluster) : result cpErr value :=
  match stSecrets next !! secretRef name with
  | Some secret => sealed ← encrypt e (kClusters +:+ name) secret; Ok (VCluster (mkClusterRec c sealed))
  | None => Ok (VCluster (mkClusterRec c []))
  end.
Definition marshalCredential (e : Env) (ak : string) (c : Credential) : result cpErr value :=
  sealed ← encrypt e (kCredentials +:+ ak) (B (cdSecret c)); Ok (VCredential (mkCredRec (cdTenant c) (cdBuckets c) sealed)).
(** [b, _ := json.Marshal(p)]: nothing is written where it fails. *)
Definition putPlacement (p : Placement) : value := match marshalPlacement p with Some p => VPlacement p | None => VEmpty end.

(** [same] on clusters also compares the secrets of the two states. *)
Definition sameCluster (cur next : cpState) (name : string) (a b : Cluster) : bool :=
  bool_decide (a = b) && bool_decide (default [] (stSecrets cur !! secretRef name) = default [] (stSecrets next !! secretRef name)).

(** The schema and the identity, written when they change. *)
Definition diffSchema (cur next : cpState) : list txnOp :=
  if (fSchema (stFile next) =? fSchema (stFile cur))%Z then [] else [(kSchema, Some (VText (FormatInt 10 (fSchema (stFile next)))))].
Definition diffIdentity (cur next : cpState) : list txnOp :=
  if decide (fIdentity (stFile next) = fIdentity (stFile cur)) then [] else [(kIdentity, Some (VIdentity (fIdentity (stFile next))))].

(** [diff]. *)
Definition diff (e : Env) (cur next : cpState) : result cpErr (list txnOp) :=
  let a := stFile cur in let b := stFile next in
  cl ← diff_map (fun n => kClusters +:+ n) (sameCluster cur next) (marshalCluster e next) (default ∅ (fClusters a)) (default ∅ (fClusters b));
  tn ← diff_map (fun n => kTenants +:+ n) (fun _ x y => bool_decide (x = y)) (fun _ t => Ok (VTenant t)) (default ∅ (fTenants a)) (default ∅ (fTenants b));
  pl ← diff_map (fun n => kPlacements +:+ n) (fun _ x y => bool_decide (marshalPlacement x = marshalPlacement y)) (fun _ p => Ok (putPlacement p))
         (default ∅ (fPlacements a)) (default ∅ (fPlacements b));
  gn ← diff_map (fun n => kGenerations +:+ n) (fun _ x y => (x =? y)%Z) (fun _ g => Ok (VText (FormatInt 10 g)))
         (default ∅ (fGenerations a)) (default ∅ (fGenerations b));
  cr ← diff_map (fun n => kCredentials +:+ n) (fun _ x y => bool_decide (x = y)) (marshalCredential e) (stCreds cur) (stCreds next);
  Ok (cl ++ tn ++ pl ++ diffSchema cur next ++ diffIdentity cur next ++ gn ++ cr).

(** ** The mutations *)

Definition DefaultTenant : string := "default".

(** [auth.Merge]: what adding a key does to one held under its access key. *)
Definition Merge (held c : Credential) : result cpErr Credential :=
  let tenant := if bool_decide (cdTenant c = "") then DefaultTenant else cdTenant c in
  if negb (bool_decide (cdTenant held = tenant)) then Err CpDuplicateKey
  else if negb (bool_decide (cdSecret held = cdSecret c)) then Err CpDuplicateKey
  else if (length (cdBuckets held) =? 0)%nat || (length (cdBuckets c) =? 0)%nat then Ok (mkCred (cdAccessKey held) (cdSecret held) (cdTenant held) [])
  else Ok (mkCred (cdAccessKey held) (cdSecret held) (cdTenant held)
             (foldl (fun bs b => if bool_decide (b ∈ bs) then bs else bs ++ [b]) (cdBuckets held) (cdBuckets c))).

(** The operations of the store: those of a directory, the client keys', and the schema's upgrade. *)
Inductive cpOp : Type :=
| cpStore (o : storeOp)
| cpAddKey (c : Credential)
| cpRemoveKey (ak : string)
| cpUpgrade.

Definition put_cluster_secret (name : string) (c : Cluster) (secret : bytes) (st : cpState) : result cpErr cpState :=
  let ref := secretRef name in
  f ← lift_dir (PutCluster name c (stFile st));
  let st := set_stFile f st in
  if negb (bool_decide (secret = [])) then Ok (st |> set_stSecrets (<[ref := secret]> (stSecrets st)))
  else if bool_decide (crSecretRef (cCredentials c) = ref) then
    (if bool_decide (stSecrets st !! ref = None) then Err CpNoSecret else Ok st)
  else Ok (st |> set_stSecrets (delete ref (stSecrets st))).

Definition remove_cluster_secret (name : string) (st : cpState) : result cpErr cpState :=
  f ← lift_dir (RemoveCluster name (stFile st));
  Ok (st |> set_stFile f |> set_stSecrets (delete (secretRef name) (stSecrets st))).

Definition add_key (c : Credential) (st : cpState) : result cpErr cpState :=
  match stCreds st !! cdAccessKey c with
  | Some held =>
      merged ← Merge held c;
      if bool_decide (cdBuckets merged = cdBuckets held) then Err CpUnchanged
      else Ok (st |> set_stCreds (<[cdAccessKey c := merged]> (stCreds st)))
  | None => Ok (st |> set_stCreds (<[cdAccessKey c := c]> (stCreds st)))
  end.

Definition remove_key (ak : string) (st : cpState) : result cpErr cpState :=
  if bool_decide (stCreds st !! ak = None) then Err CpUnknownKey else Ok (st |> set_stCreds (delete ak (stCreds st))).

Definition upgrade_schema (st : cpState) : result cpErr cpState :=
  if negb (Identity_IsZero (fIdentity (stFile st))) then Err CpUnchanged else Ok st.

(** What each operation passes to [mutate]: its name, its key and its change; an error is its refusal. *)
Definition cp_submit (now : Z) (o : cpOp) : result cpErr (string * string * (cpState -> result cpErr cpState)) :=
  match o with
  | cpStore (opPutCluster name c secret) =>
      if negb (bool_decide (secret = "")) && negb (bool_decide (crSecretRef (cCredentials c) = secretRef name)) then Err CpSecretName
      else Ok ("cluster-put", clusterKey name, put_cluster_secret name c (B secret))
  | cpStore (opRemoveCluster name) => Ok ("cluster-remove", clusterKey name, remove_cluster_secret name)
  | cpStore (opSetPlacementWatch t b w) =>
      Ok ("placement-watch", Key t b, fun st => f ← lift_dir (SetPlacementWatch t b w (stFile st)); Ok (set_stFile f st))
  | cpStore o =>
      '(op, k, g) ← lift_dir (submit o now);
      Ok (op, k, fun st => f ← lift_dir (g (stFile st)); Ok (set_stFile f st))
  | cpAddKey c =>
      if bool_decide (cdAccessKey c = "") || bool_decide (cdSecret c = "") then Err CpKeyEmpty
      else
        let c := if bool_decide (cdTenant c = "") then mkCred (cdAccessKey c) (cdSecret c) DefaultTenant (cdBuckets c) else c in
        Ok ("key-add", "credentials/" +:+ cdAccessKey c, add_key c)
  | cpRemoveKey ak => Ok ("key-remove", "credentials/" +:+ ak, remove_key ak)
  | cpUpgrade => Ok ("schema-upgrade", "", upgrade_schema)
  end.

(** The resources of the clusters whose secret changes. *)
Definition rotated (cur next : cpState) : list string :=
  concat (List.map (fun name =>
    if decide (default [] (stSecrets next !! secretRef name) = default [] (stSecrets cur !! secretRef name)) then []
    else [ClusterResource name; SecretResource name]) (msortedKeys (fClusters (stFile next)))).

(** Only a secret this store holds has a generation to track. *)
Definition drop_unheld (secrets : gmap string bytes) (f : File) : File :=
  f |> set_Generations (foldr (fun name g => if bool_decide (secrets !! secretRef name = None) then mdelete (SecretResource name) g else g)
                          (fGenerations f) (msortedKeys (fClusters f))).

(** The state a write would install: the change on a copy, the next version, stamped and validated. *)
Definition candidate (e : Env) (fn : cpState -> result cpErr cpState) (cur : cpState) : result cpErr cpState :=
  next ← fn (clone_state cur);
  let v := i64 (stVersion cur + 1) in
  f ← lift_dir (Stamp (eFresh e) (stFile cur) (set_Version v (stFile next)) (rotated cur next));
  let f := drop_unheld (stSecrets next) f in
  _ ← guard_err (negb (bool_decide (validate f = []))) (CpDir (ErrInvalid (validate f)));
  let next := mkState v f (stCreds next) (stSecrets next) in
  _ ← guard_err (match ePrepare e with Some ok => negb (ok f (resolve (eSecret e) next)) | None => false end) (CpDir ErrPrepare);
  Ok next.

(** The audit record of a write; its JSON fails on a placement that has none. *)
Definition changeOf (e : Env) (actor op k : string) (cur next : cpState) : Change :=
  mkChange (eNow e) actor op k (stVersion next) (change_placement (stFile cur) k) (change_placement (stFile next) k)
    (change_cluster (stFile cur) k) (change_cluster (stFile next) k).
Definition marshalChange (c : Change) : result cpErr value :=
  if forallb finite (option_list (chBefore c) ++ option_list (chAfter c)) then Ok (VChange c) else Err (CpDir ErrEncode).

Definition decimal (v : Z) : string := S_ (FormatInt 10 v).
Definition versionText (v : Z) : value := VText (FormatInt 10 v).

(** One transaction of [mutate]: the state it was computed from, the one it makes, its operations. *)
Record Plan : Type := mkPlan { plCur : cpState; plNext : cpState; plOps : list txnOp }.

(** One turn of the loop of [mutate], up to the transaction. *)
Definition attempt (e : Env) (actor : string) (o : cpOp) (cur : cpState) : result cpErr Plan :=
  '(op, k, fn) ← cp_submit (eNow e) o;
  next ← candidate e fn cur;
  ops ← diff e cur next;
  rec ← marshalChange (changeOf e actor op k cur next);
  let v := stVersion next in
  let old := (v - changeRetention)%Z in
  Ok (mkPlan cur next (ops ++ [(kVersion, Some (versionText v)); (kChanges +:+ decimal v, Some rec)] ++
                       if (0 <? old)%Z then [(kChanges +:+ decimal old, None)] else [])).

(** The transaction's comparison: the version key is as the writer knew it, or does not exist yet. *)
Definition cmp_holds (pl : Plan) (kv : etcd) : bool :=
  if decide (stVersion (plCur pl) = 0%Z) then bool_decide (kv !! kVersion = None)
  else match kv !! kVersion with Some (VText b) => bool_decide (b = FormatInt 10 (stVersion (plCur pl))) | _ => false end.

(** [Sync]: the version in etcd, which the node then waits for; [None] when there is none yet. *)
Definition sync_version (kv : etcd) : result cpErr (option Z) :=
  match kv !! kVersion with
  | None => Ok None
  | Some (VText b) => match ParseInt 10 b with Some v => Ok (Some v) | None => Err CpDecode end
  | Some _ => Err CpDecode
  end.

(** [Changes]: the versions one transaction asks for, and the loop over them. *)
Definition maxTxnOps : nat := 128.
Fixpoint batch (budget : nat) (v : Z) (room : nat) : list Z * Z :=
  match budget, room with
  | S budget, S room => if (0 <? v)%Z then let '(vs, v') := batch budget (v - 1) room in (v :: vs, v') else ([], v)
  | _, _ => ([], v)
  end.
Definition change_at (kv : etcd) (v : Z) : option Change :=
  match kv !! (kChanges +:+ decimal v) with Some (VChange c) => Some c | _ => None end.
Fixpoint changes_from (fuel : nat) (kv : etcd) (v : Z) (limit : nat) (out : list Change) : list Change :=
  match fuel with
  | O => out
  | S fuel =>
      if (0 <? v)%Z && (length out <? limit)%nat then
        let '(vs, v') := batch maxTxnOps v (limit - length out) in
        changes_from fuel kv v' limit (out ++ omap (change_at kv) vs)
      else out
  end.
Definition Changes (kv : etcd) (installed before : Z) (limit : nat) : list Change :=
  let v := if (before =? 0)%Z then installed else before in
  changes_from (S (Z.to_nat v)) kv v limit [].
End Store_.
