(* ===== verification/CpFollow.v ===== *)
(** * The control plane's directory store: states and keys

    When a state is what the keys in etcd say ([Reads]): the records of each kind are exactly those under
    its prefix, and the secrets at least those.  Applying a record to a state is putting it among the
    keys; a load and a watch read what is there; and the transaction of a write makes the keys say what
    the write computed.  Everything about the nodes (CpNodes) rests on these. *)

From S2P Require Import Prelude Crypto Strconv Float64 KeyHash HashRange Config Placement Transition S3Op S3Names Route Backend Scopes Directory Validate Store SigV4 CpStore.

(** ** Keys are apart *)

#[export] Instance key_eq_dec : EqDecision key.
Proof. solve_decision. Defined.

(** The keys [apply] tells apart: all but those it does not know. *)
Definition canonical (k : key) : bool := match k with KOther _ => false | _ => true end.

Ltac cut_keys := repeat first
  [ rewrite decide_False by done
  | rewrite (proj2 (CutPrefix_Some _ _ _)) by reflexivity
  | match goal with |- context [CutPrefix ?s ?p] => change (CutPrefix s p) with (@None string) end ].

Lemma key_of_name k : canonical k = true -> key_of (key_name k) = k.
Proof. destruct k; intros Hc; try done; unfold key_of, key_name; by cut_keys. Qed.

Lemma key_of_inv k : key_name (key_of k) = k.
Proof.
  unfold key_of. case_decide; [done|]. repeat (case_match; [match goal with H : CutPrefix _ _ = Some _ |- _ => by apply CutPrefix_Some in H end|]).
  case_decide; [done|]. case_decide; [done|]. repeat (case_match; [match goal with H : CutPrefix _ _ = Some _ |- _ => by apply CutPrefix_Some in H end|]). done.
Qed.

(** What is at a key. *)
Definition look (kv : etcd) (k : key) : option value := kv !! key_name k.

Lemma look_put kv k v K : canonical K = true -> look (put_op kv (k, v)) K = if decide (key_of k = K) then v else look kv K.
Proof.
  intros Hc. unfold look, put_op. simpl. destruct (decide (key_of k = K)) as [<-|Hne].
  - rewrite key_of_inv. destruct v; [by rewrite lookup_insert_eq|by rewrite lookup_delete_eq].
  - assert (k <> key_name K) as Hk by (intros ->; by rewrite key_of_name in Hne).
    destruct v; [by rewrite lookup_insert_ne|by rewrite lookup_delete_ne].
Qed.

(** ** Records read from the keys *)

Section Follow.
Context `{AeadLaws}.

Definition rd_num (d : Z) (v : option value) : option Z :=
  match v with None => Some d | Some (VText b) => ParseInt 10 b | Some _ => None end.
(** What one value reads as, and every read through a put. *)
Definition as_cluster (v : option value) : option clusterRecord := match v with Some (VCluster r) => Some r | _ => None end.
Definition as_secret (v : option value) : option bytes :=
  r ← as_cluster v; if bool_decide (crSecret r = []) then None else Decrypt (crSecret r).
Definition as_tenant (v : option value) : option Tenant := match v with Some (VTenant t) => Some t | _ => None end.
Definition as_placement (v : option value) : option Placement := match v with Some (VPlacement p) => Some (stored p) | _ => None end.
Definition as_number (v : option value) : option Z := match v with Some (VText b) => ParseInt 10 b | _ => None end.
Definition as_cred (ak : string) (v : option value) : option Credential :=
  match v with
  | Some (VCredential r) => p ← Decrypt (cdrSecret r); Some (mkCred ak (S_ p) (cdrTenant r) (cdrBuckets r))
  | _ => None
  end.
Definition as_identity (v : option value) : Directory.Identity := match v with Some (VIdentity i) => i | _ => zeroIdentity end.

(** A state says what the keys say; of secrets it may hold more. *)
Record Reads (kv : etcd) (st : cpState) : Prop := mkReads {
  rs_version : rd_num 0 (look kv KVersion) = Some (stVersion st);
  rs_schema : rd_num 0 (look kv KSchema) = Some (fSchema (stFile st));
  rs_identity : fIdentity (stFile st) = as_identity (look kv KIdentity);
  rs_clusters : exists m, fClusters (stFile st) = Some m /\ forall n, m !! n = crCluster <$> as_cluster (look kv (KCluster n));
  rs_tenants : exists m, fTenants (stFile st) = Some m /\ forall n, m !! n = as_tenant (look kv (KTenant n));
  rs_placements : exists m, fPlacements (stFile st) = Some m /\ forall k, m !! k = as_placement (look kv (KPlacement k));
  rs_generations : forall r, default ∅ (fGenerations (stFile st)) !! r = as_number (look kv (KGeneration r));
  rs_creds : forall ak, stCreds st !! ak = as_cred ak (look kv (KCredential ak));
  rs_secrets : forall n s, as_secret (look kv (KCluster n)) = Some s -> s <> [] -> stSecrets st !! secretRef n = Some s;
}.

Lemma secretRef_inj a b : secretRef a = secretRef b -> a = b.
Proof. unfold secretRef, SecretRefPrefix. intros E. by injection E. Qed.

(** The value at a key after a put of another key, or of its own. *)
Lemma look_put_as kv k v K K' : key_of k = K -> canonical K' = true -> look (put_op kv (k, v)) K' = if decide (K = K') then v else look kv K'.
Proof. intros <-. apply look_put. Qed.

(** One field of [Reads] after a put: the kind that was put, or another. *)
Ltac put_frame E := rewrite (look_put_as _ _ _ _ _ E) by done; first [rewrite decide_False by done | case_decide; simplify_eq/=].
Ltac put_field E := first
  [ done
  | put_frame E; done
  | eexists; split; [by simplify_option_eq|]; intros; put_frame E; by rewrite ?lookup_insert_eq, ?lookup_delete_eq, ?lookup_insert_ne, ?lookup_delete_ne by congruence
  | intros; put_frame E; by rewrite ?lookup_insert_eq, ?lookup_delete_eq, ?lookup_insert_ne, ?lookup_delete_ne by congruence
  | intros ? ?; put_frame E; by eauto ].

Lemma apply_reads kv st k v st' : apply st k v = Ok st' -> Reads kv st -> Reads (put_op kv (k, v)) st'.
Proof.
  intros Ha [Hv Hs Hi (mc & Ec & Hc) (mt & Et & Ht) (mp & Ep & Hp) Hg Hk Hx]. unfold apply in Ha.
  destruct (key_of k) eqn:E; destruct v as [[]|]; try done; repeat case_match; try done; injection Ha as <-;
    constructor; simpl; rewrite ?Ec, ?Et, ?Ep; simpl; try put_field E.
  - intros n s. put_frame E; [|by eauto]. unfold as_secret. simpl. by rewrite H1.
  - intros n s. put_frame E.
    + unfold as_secret. simpl. rewrite H1, lookup_insert_eq. congruence.
    + intros Hn ?. rewrite lookup_insert_ne by (intros Hq%secretRef_inj; congruence). eauto.
  - intros n s. put_frame E; [done|]. intros Hn ?. rewrite lookup_delete_ne by (intros Hq%secretRef_inj; congruence). eauto.
  - intros ak'. put_frame E; [|by rewrite lookup_insert_ne by congruence]. rewrite lookup_insert_eq. by simplify_option_eq.
  - intros r. put_frame E; specialize (Hg r) || specialize (Hg res); destruct (fGenerations (stFile st)) as [g|]; simpl in *;
      rewrite ?lookup_delete_eq, ?lookup_delete_ne, ?lookup_empty in * by congruence; done.
Qed.

Lemma apply_all_reads ops kv st st' : apply_all st ops = Ok st' -> Reads kv st -> Reads (put_ops kv ops) st'.
Proof.
  revert kv st. induction ops as [|[k v] ops IH]; intros kv st; simpl; [by intros [= <-]|].
  intros (st1 & Ha & Hr)%bind_Ok Hst. eapply IH; [done|]. by eapply apply_reads.
Qed.

Lemma reads_empty : Reads ∅ emptyState.
Proof. constructor; unfold look; simpl; intros; rewrite ?lookup_empty; try done; exists ∅; by split; [|intros; rewrite !lookup_empty]. Qed.

(** The file of a state carries its version; [Reads] is about the version of the state. *)
Lemma reads_sealed kv st : Reads kv st -> Reads kv (on_file (set_Version (stVersion st)) st).
Proof. by intros []. Qed.
Lemma reads_clone kv st : Reads kv st -> Reads kv (clone_state st).
Proof.
  intros [? ? ? (mc & Ec & Hc) (mt & Et & Ht) (mp & Ep & Hp) ? ? ?]. constructor; simpl; try done; rewrite ?Ec, ?Et, ?Ep; simpl.
  - by exists mc.
  - by exists mt.
  - exists (clone <$> mp). split; [done|]. intros k. rewrite lookup_fmap, Hp. destruct (as_placement _) as [p|]; simpl; by rewrite ?clone_id.
Qed.

(** What an installed state is: valid, its file under its version, and what the keys say. *)
Record Follows (kv : etcd) (st : cpState) : Prop := mkFollows {
  fw_reads : Reads kv st;
  fw_version : fVersion (stFile st) = stVersion st;
  fw_valid : validate (stFile st) = [];
}.

Lemma seal_version_follows kv st st' : seal_version st = Ok st' -> Reads kv st -> Follows kv st'.
Proof.
  intros (u & Hv%guard_err_Ok & [= <-])%bind_Ok Hr. constructor; [by apply reads_sealed|done|]. by apply negb_false_iff, bool_decide_eq_true in Hv.
Qed.

Lemma watched_follows kv st evs st' : watched st evs = Ok st' -> Follows kv st -> Follows (put_ops kv evs) st'.
Proof. intros (st1 & Ha & Hs)%bind_Ok [Hr _ _]. eapply seal_version_follows; [done|]. eapply apply_all_reads; [done|]. by apply reads_clone. Qed.

(** Reading every key gives the keys back. *)
Lemma put_entries kv : put_ops ∅ (entries kv) = kv.
Proof.
  unfold entries, put_ops. apply map_eq. intros k.
  assert (forall ks m, NoDup ks -> foldl put_op m ((fun k => (k, kv !! k)) <$> ks) !! k = if decide (k ∈ ks) then kv !! k else m !! k) as Hf.
  { clear. induction ks as [|x ks IH]; intros m Hnd; simpl; [done|]. apply NoDup_cons in Hnd as [Hx Hnd]. rewrite IH by done.
    destruct (decide (k ∈ ks)); [by rewrite decide_True by (right; done)|]. unfold put_op. simpl. destruct (decide (k = x)) as [->|Hne].
    - rewrite decide_True by left. destruct (kv !! x); [by rewrite lookup_insert_eq|by rewrite lookup_delete_eq].
    - rewrite decide_False by (by intros [?|?]%elem_of_cons). destruct (kv !! x); [by rewrite lookup_insert_ne|by rewrite lookup_delete_ne]. }
  rewrite Hf by apply sortedKeys_NoDup. case_decide as Hk; [done|]. rewrite lookup_empty. destruct (kv !! k) eqn:E; [|done].
  destruct Hk. apply elem_of_sortedKeys. by rewrite E.
Qed.

Lemma load_follows kv st : load kv = Ok st -> Follows kv st.
Proof.
  intros (st1 & Ha & (u & _ & Hs)%bind_Ok)%bind_Ok. eapply seal_version_follows; [done|]. rewrite <- (put_entries kv). by eapply apply_all_reads; [|apply reads_empty].
Qed.

(** ** What a transaction leaves at a key *)

Fixpoint op_at (k : string) (ops : list txnOp) : option (option value) :=
  match ops with
  | [] => None
  | (k', v) :: ops => match op_at k ops with Some x => Some x | None => if decide (k = k') then Some v else None end
  end.

Lemma put_ops_at kv ops k : put_ops kv ops !! k = match op_at k ops with Some v => v | None => kv !! k end.
Proof.
  unfold put_ops. revert kv. induction ops as [|[k' v] ops IH]; intros kv; simpl; [done|]. rewrite IH. destruct (op_at k ops); [done|].
  unfold put_op. simpl. case_decide as E; [subst; destruct v; [by rewrite lookup_insert_eq|by rewrite lookup_delete_eq]|].
  destruct v; [by rewrite lookup_insert_ne|by rewrite lookup_delete_ne].
Qed.

Lemma op_at_app k a b : op_at k (a ++ b) = match op_at k b with Some x => Some x | None => op_at k a end.
Proof. induction a as [|[k' v] a IH]; simpl; [by destruct (op_at k b)|]. rewrite IH. by destruct (op_at k b). Qed.

Lemma op_at_none k ops : (forall op, op ∈ ops -> op.1 <> k) -> op_at k ops = None.
Proof.
  induction ops as [|[k' v] ops IH]; intros Hk; simpl; [done|]. rewrite IH by (intros op Hop; apply Hk; by right).
  rewrite decide_False; [done|]. intros ->. by apply (Hk (k', v)); [left|].
Qed.

Section Diff.
Context {V : Type} (name : string -> string) (Hname : forall a b, name a = name b -> a = b).

Lemma diff_puts_at same (enc : string -> V -> result cpErr value) next ops : diff_puts name same enc next = Ok ops -> NoDup next.*1 ->
  (forall n v, (n, v) ∈ next -> if same n v then op_at (name n) ops = None else exists x, enc n v = Ok x /\ op_at (name n) ops = Some (Some x)) /\
  (forall op, op ∈ ops -> exists n, n ∈ next.*1 /\ op.1 = name n).
Proof.
  revert ops. induction next as [|[n v] next IH]; intros ops Hd Hnd; simpl in Hd.
  { injection Hd as <-. split; [by intros ?? ?%elem_of_nil|by intros ? ?%elem_of_nil]. }
  rewrite fmap_cons in Hnd. apply NoDup_cons in Hnd as [Hn Hnd]. simpl in Hn.
  assert (forall ops, diff_puts name same enc next = Ok ops -> op_at (name n) ops = None) as Hnone.
  { intros ops1 H1. apply op_at_none. intros op Hop Heq. destruct (proj2 (IH _ H1 Hnd) op Hop) as (m & Hm & E). rewrite E in Heq. apply Hname in Heq as ->. done. }
  destruct (same n v) eqn:Hs.
  - destruct (IH _ Hd Hnd) as [IH1 IH2]. split.
    + intros n' v' [E|Hin]%elem_of_cons; [injection E as -> ->; rewrite Hs; by apply Hnone|by apply IH1].
    + intros op Hop. destruct (IH2 op Hop) as (m & ? & ?). exists m. split; [by right|done].
  - apply bind_Ok in Hd as (x & Hx & (ops1 & H1 & [= <-])%bind_Ok). destruct (IH _ H1 Hnd) as [IH1 IH2]. split.
    + intros n' v' [E|Hin]%elem_of_cons.
      * injection E as -> ->. rewrite Hs. exists x. split; [done|]. simpl. by rewrite (Hnone _ H1), decide_True.
      * specialize (IH1 _ _ Hin). assert (n' <> n) as Hne by (intros ->; apply Hn; apply list_elem_of_fmap; by exists (n, v')).
        simpl. destruct (same n' v'); [rewrite IH1, decide_False; [done|by intros ?%Hname]|]. destruct IH1 as (y & ? & E). exists y. by rewrite E.
    + intros op [->|Hop]%elem_of_cons; [exists n; split; [by left|done]|]. destruct (IH2 op Hop) as (m & ? & ?). exists m. split; [by right|done].
Qed.

Lemma dels_at n (ks : list string) : op_at (name n) ((fun n => (name n, None)) <$> ks) = if decide (n ∈ ks) then Some None else None.
Proof.
  induction ks as [|m ks IH]; [done|]. rewrite fmap_cons. cbn [op_at]. rewrite IH. destruct (decide (n ∈ ks)) as [|Hn]; [by rewrite decide_True by (by right)|].
  destruct (decide (name n = name m)) as [->%Hname|Hne]; [by rewrite decide_True by left|].
  rewrite decide_False; [done|]. intros [->|?]%elem_of_cons; done.
Qed.

Lemma diff_map_at same (enc : string -> V -> result cpErr value) cur next ops : diff_map name same enc cur next = Ok ops ->
  (forall n, match next !! n with
             | Some v => (exists old, cur !! n = Some old /\ same n old v = true /\ op_at (name n) ops = None) \/
                         (exists x, enc n v = Ok x /\ op_at (name n) ops = Some (Some x))
             | None => op_at (name n) ops = match cur !! n with Some _ => Some None | None => None end
             end) /\
  (forall op, op ∈ ops -> exists n, op.1 = name n).
Proof.
  intros (puts & Hp & [= <-])%bind_Ok. apply diff_puts_at in Hp as [H1 H2]; [|apply NoDup_fst_map_to_list].
  assert (forall n, n ∈ List.filter (fun n => bool_decide (next !! n = None)) (sortedKeys cur) <-> is_Some (cur !! n) /\ next !! n = None) as Hf.
  { intros n. rewrite list_elem_of_In, filter_In, <- list_elem_of_In, elem_of_sortedKeys, bool_decide_eq_true. done. }
  split.
  - intros n. rewrite op_at_app. unfold diff_dels. rewrite dels_at. destruct (next !! n) as [v|] eqn:E.
    + rewrite decide_False by (rewrite Hf; intros [_ ?]; congruence). specialize (H1 n v). rewrite elem_of_map_to_list in H1. specialize (H1 E).
      destruct (cur !! n) as [old|]; [|by right]. destruct (same n old v) eqn:Es; [left; by exists old|by right].
    + case_decide as Hd; rewrite Hf in Hd; [by destruct Hd as [[old ->] _]|]. destruct (cur !! n); [by destruct Hd; split; [by eexists|]|].
      apply op_at_none. intros op Hop Heq. destruct (H2 op Hop) as (m & Hm & Em). rewrite Em in Heq. apply Hname in Heq as ->.
      apply list_elem_of_fmap in Hm as ([m' v] & -> & Hin). apply elem_of_map_to_list in Hin. simpl in *. congruence.
  - intros op [Hop|Hop]%elem_of_app.
    + destruct (H2 op Hop) as (n & _ & ?). by exists n.
    + unfold diff_dels in Hop. apply list_elem_of_fmap in Hop as (n & -> & _). by exists n.
Qed.

(** A kind of record after the transaction: what the next state has, as it is read back. *)
Lemma diff_map_reads same (enc : string -> V -> result cpErr value) cur next ops (kv : etcd) all (R : string -> option value -> option V) (f : V -> V) :
  diff_map name same enc cur next = Ok ops -> (forall n, op_at (name n) all = op_at (name n) ops) ->
  (forall n, R n None = None) -> (forall n, cur !! n = R n (kv !! name n)) ->
  (forall n v x, next !! n = Some v -> enc n v = Ok x -> R n (Some x) = Some (f v)) ->
  (forall n old v, cur !! n = Some old -> next !! n = Some v -> same n old v = true -> old = f v) ->
  forall n, R n (put_ops kv all !! name n) = f <$> next !! n.
Proof.
  intros Hd Hall HR0 Hcur Henc Hsame n. rewrite put_ops_at, Hall. destruct (diff_map_at _ _ _ _ _ Hd) as [Hat _]. specialize (Hat n).
  destruct (next !! n) as [v|] eqn:E; simpl.
  - destruct Hat as [(old & Ho & Hs & ->)|(x & Hx & ->)]; [|by eapply Henc]. rewrite <- Hcur, Ho. f_equal. by eapply Hsame.
  - rewrite Hat. destruct (cur !! n) eqn:Ec; [apply HR0|]. by rewrite <- Hcur.
Qed.
End Diff.

(** ** What the parts of a transaction encode *)

Lemma cut_bytes_app p b : cut_bytes p (p ++ b) = Some b.
Proof. induction p as [|x p IH]; simpl; [done|]. by rewrite decide_True. Qed.

Lemma Decrypt_Encrypt nonce p : length nonce = NonceSize -> Decrypt (Encrypt nonce p) = Some p.
Proof.
  intros Hn. unfold Decrypt, Encrypt. rewrite cut_bytes_app. simpl. rewrite unbase64_base64. simpl.
  rewrite length_app, Hn. replace (_ <? _)%nat with false by (symmetry; apply Nat.ltb_ge; lia).
  rewrite take_app_length', drop_app_length' by done. apply open_seal.
Qed.

Lemma encrypt_sealed e k p sealed : encrypt e k p = Ok sealed -> Decrypt sealed = Some p /\ sealed <> [].
Proof.
  unfold encrypt. destruct (eNonce e k) as [nonce|]; [|done]. destruct (length nonce =? NonceSize)%nat eqn:E; [|done].
  apply Nat.eqb_eq in E. intros [= <-]. split; [by apply Decrypt_Encrypt|done].
Qed.

Lemma marshal_cluster_reads e next n c x : marshalCluster e next n c = Ok x ->
  crCluster <$> as_cluster (Some x) = Some c /\ as_secret (Some x) = stSecrets next !! secretRef n.
Proof.
  unfold marshalCluster. destruct (stSecrets next !! secretRef n) as [s|] eqn:Es; [|by intros [= <-]].
  intros (sealed & [Hd Hne]%encrypt_sealed & [= <-])%bind_Ok. split; [done|]. unfold as_secret. simpl. by rewrite bool_decide_false.
Qed.

Lemma marshal_cred_reads e ak c x : marshalCredential e ak c = Ok x -> cdAccessKey c = ak -> as_cred ak (Some x) = Some c.
Proof. intros (sealed & [Hd _]%encrypt_sealed & [= <-])%bind_Ok <-. simpl. rewrite Hd. simpl. rewrite S_B. by destruct c. Qed.

Lemma drop_empty_idem {V} (m : option (gmap string V)) : drop_empty (drop_empty m) = drop_empty m.
Proof. destruct m as [m|]; [|done]. unfold drop_empty. simpl. case_decide; simpl; [done|]. by rewrite decide_False. Qed.
Lemma drop_nil_idem {A} (l : option (list A)) : drop_nil (drop_nil l) = drop_nil l.
Proof. by destruct l as [[]|]. Qed.
Lemma stored_stored p : stored (stored p) = stored p.
Proof. destruct p. unfold stored. cbn -[drop_empty drop_nil]. by rewrite !drop_empty_idem, !drop_nil_idem. Qed.
Lemma finite_stored p : finite (stored p) = finite p.
Proof. by destruct p. Qed.

(** ** What a mutation leaves alone *)

(** The maps stay, and the placement at [k] is the only one to change. *)
Record only_at (k : string) (f f' : File) : Prop := mkOnly {
  oa_clusters : is_Some (fClusters f) -> is_Some (fClusters f');
  oa_tenants : is_Some (fTenants f) -> is_Some (fTenants f');
  oa_placements : is_Some (fPlacements f) -> is_Some (fPlacements f');
  oa_others : forall k', k' <> k -> mlookup k' (fPlacements f') = mlookup k' (fPlacements f);
}.

Lemma SplitKey_joins k t b : SplitKey k = Some (t, b) -> Key t b = k.
Proof.
  unfold SplitKey. destruct (Cut k "/"%char) as [[t' b']|] eqn:E; [|done]. simpl. case_match; [done|]. intros [= -> ->].
  by apply Cut_Some in E as ->.
Qed.

Lemma mlookup_put {V} k k' (v : V) m : k' <> k -> mlookup k' (<[k := v]> <$> m) = mlookup k' m.
Proof. intros. destruct m; simpl; [by rewrite lookup_insert_ne|done]. Qed.
Lemma mlookup_default {V} k (m : option (gmap string V)) : mlookup k (Some (default ∅ m)) = mlookup k m.
Proof. destruct m; simpl; [done|by rewrite lookup_empty]. Qed.

(** The maps of a file that a mutation replaced, and the lookup of another placement. *)
Ltac maps_kept := match goal with
  | |- is_Some (Some _) => by eexists
  | Hm : is_Some ?m |- is_Some _ => destruct Hm as [? ->]; by eexists
  | |- context [default ∅ _] => rewrite ?lookup_insert_ne by congruence; apply mlookup_default
  | |- mlookup _ (<[_ := _]> <$> _) = _ => apply mlookup_put; first [done|by erewrite SplitKey_joins]
  | |- mlookup _ (mdelete _ _) = _ => by rewrite mlookup_delete_ne
  end.

Ltac op_cases_eq Hx := repeat match type of Hx with
  | context [match ?x with _ => _ end] => destruct x eqn:?; try discriminate Hx
  end.

Lemma submit_only_at o now op k fn f f' : submit o now = Ok (op, k, fn) -> fn f = Ok f' -> only_at k f f'.
Proof.
  destruct o; cbn [submit]; intros Hs Hf; op_cases_eq Hs; injection Hs as <- <- <-;
    unfold Create, Delete, SetTenantDefault, SetState, SetPlacementWatch, SetPlacementReadOnly, SetClusterReadOnly, SetBarrier,
      ClearClusterBarrier, ClearBarrier, ReleaseReadOnly, PutCluster, RemoveCluster, Adopt, CreateSpread, Carve, Directory.Merge,
      ClearTarget, SetTarget, ensureTenant in Hf; op_cases_eq Hf; injection Hf as <-; constructor; simpl; intros; try done; try maps_kept.
Qed.
End Follow.
