(* ===== verification/CpWrite.v ===== *)
(** * The control plane's directory store: what a write writes

    A mutation computed from a state that says what the keys say is a transaction after which the keys
    say what the mutation computed: nothing else changes, and reading the keys back gives the candidate.
    The version moves by one, and never wraps. *)

From S2P Require Import Prelude Crypto Strconv Float64 KeyHash HashRange Config Placement Transition S3Op S3Names Route Backend Scopes Directory Validate Store SigV4 CpStore CpFollow.

Section Write.
Context `{AeadLaws}.

(** The client keys are under their own access keys. *)
Definition keyed (m : gmap string Credential) : Prop := forall ak c, m !! ak = Some c -> cdAccessKey c = ak.

Record kept_at (k : string) (st st' : cpState) : Prop := mkKept {
  kp_file : only_at k (stFile st) (stFile st');
  kp_creds : keyed (stCreds st) -> keyed (stCreds st');
}.

Lemma only_at_refl k f : only_at k f f.
Proof. by constructor. Qed.
Lemma kept_file k st f : only_at k (stFile st) f -> kept_at k st (set_stFile f st).
Proof. by constructor. Qed.

Lemma Merge_key held c m : Merge held c = Ok m -> cdAccessKey m = cdAccessKey held.
Proof. unfold Merge. repeat case_match; try done; by intros [= <-]. Qed.

Lemma keyed_insert m c : keyed m -> keyed (<[cdAccessKey c := c]> m).
Proof. intros Hm ak c'. rewrite lookup_insert_Some. intros [[<- <-]|[_ ?]]; [done|by apply Hm]. Qed.

Lemma on_dir_kept o now op k g st st' : submit o now = Ok (op, k, g) -> (f ← lift_dir (g (stFile st)); Ok (set_stFile f st)) = Ok st' -> kept_at k st st'.
Proof.
  intros Hs (f & Hf & [= <-])%bind_Ok. apply kept_file. unfold lift_dir in Hf. destruct (g (stFile st)) eqn:Eg; [|done]. injection Hf as ->.
  by eapply submit_only_at.
Qed.

Lemma lift_dir_Ok {A} (r : result dirErr A) a : lift_dir r = Ok a -> r = Ok a.
Proof. by destruct r; [intros [= ->]|]. Qed.

Lemma put_cluster_kept name c secret st st' : put_cluster_secret name c secret st = Ok st' -> kept_at (clusterKey name) st st'.
Proof.
  intros (f & Hf%lift_dir_Ok & Hr)%bind_Ok.
  pose proof (submit_only_at (opPutCluster name c "") 0 _ _ _ _ _ eq_refl Hf) as Hat.
  clear Hf. cbn zeta in Hr. repeat case_if_in Hr; try done; injection Hr as <-; by constructor.
Qed.

Lemma cp_submit_kept now o op k fn st st' : cp_submit now o = Ok (op, k, fn) -> fn st = Ok st' -> kept_at k st st'.
Proof.
  intros Hs Hf. destruct o as [o|c|ak|].
  - destruct o.
    all: try (apply bind_Ok in Hs as ([[op' k'] g] & Hs%lift_dir_Ok & [= <- <- <-]); by eapply on_dir_kept).
    + injection Hs as <- <- <-. by eapply (on_dir_kept (opSetPlacementWatch tenant bucket watch) 0).
    + simpl in Hs. case_if_in Hs; [done|]. injection Hs as <- <- <-. by eapply put_cluster_kept.
    + injection Hs as <- <- <-. apply bind_Ok in Hf as (f & Hf%lift_dir_Ok & [= <-]).
      pose proof (submit_only_at (opRemoveCluster name) 0 _ _ _ _ _ eq_refl Hf). by constructor.
  - simpl in Hs. case_if_in Hs; [done|]. injection Hs as <- <- <-. set (c' := if bool_decide (cdTenant c = "") then _ else c) in *. clearbody c'.
    unfold add_key in Hf. destruct (stCreds st !! cdAccessKey c') as [held|] eqn:Eh.
    + apply bind_Ok in Hf as (m & Hm%Merge_key & Hf). case_if_in Hf; [done|]. injection Hf as <-. constructor; [apply only_at_refl|].
      intros Hk. simpl. rewrite <- (Hk _ _ Eh), <- Hm. by apply keyed_insert.
    + injection Hf as <-. constructor; [apply only_at_refl|]. simpl. apply keyed_insert.
  - injection Hs as <- <- <-. unfold remove_key in Hf. case_if_in Hf; [done|]. injection Hf as <-. constructor; [apply only_at_refl|].
    intros Hk ak' c. simpl. intros [_ ?]%lookup_delete_Some. by apply Hk.
  - injection Hs as <- <- <-. unfold upgrade_schema in Hf. case_if_in Hf; [done|]. injection Hf as <-. constructor; [apply only_at_refl|done].
Qed.

(** ** The candidate of a write *)

Lemma ParseInt_range base b v : ParseInt base b = Some v -> (MinInt64 <= v <= MaxInt64)%Z.
Proof.
  assert (forall (f : Z -> Z) (o : option Z), (o ≫= fun z => in_int64 (f z)) = Some v -> (MinInt64 <= v <= MaxInt64)%Z) as Hin.
  { intros f [z|]; simpl; [|done]. unfold in_int64. case_match eqn:E; [|done]. intros [= <-]. lia. }
  unfold ParseInt. intros Hp. repeat case_match; first [exact (Hin Z.opp _ Hp)|exact (Hin (fun z => z) _ Hp)].
Qed.

(** What a state that follows the keys gives a write to start from. *)
Lemma follows_version kv st : Follows kv st -> (0 <= stVersion st <= MaxInt64)%Z /\ i64 (stVersion st) = stVersion st.
Proof.
  intros [[Hv _ _ _ _ _ _ _ _] Hf Hval]. pose proof (validate_version _ Hval) as H1. rewrite Hf in H1.
  assert (stVersion st <= MaxInt64)%Z as H2.
  { unfold rd_num in Hv. repeat case_match; simplify_eq; first [by eapply ParseInt_range|unfold MaxInt64; lia]. }
  split; [lia|]. apply i64_id. unfold MaxInt64 in *. lia.
Qed.

Lemma drop_unheld_same secrets f : fVersion (drop_unheld secrets f) = fVersion f /\ fClusters (drop_unheld secrets f) = fClusters f /\
  fTenants (drop_unheld secrets f) = fTenants f /\ fPlacements (drop_unheld secrets f) = fPlacements f /\
  fSchema (drop_unheld secrets f) = fSchema f /\ fIdentity (drop_unheld secrets f) = fIdentity f.
Proof. done. Qed.

(** The candidate is the change, one version later, and valid. *)
Record candidate_of (k : string) (cur next : cpState) : Prop := mkCandidate {
  cn_kept : kept_at k cur next;
  cn_version : stVersion next = (stVersion cur + 1)%Z;
  cn_bound : (stVersion next <= MaxInt64)%Z;
  cn_file : fVersion (stFile next) = stVersion next;
  cn_schema : fSchema (stFile next) = SchemaVersion;
  cn_valid : validate (stFile next) = [];
}.

Lemma candidate_ok kv e k fn cur next : Follows kv cur -> (forall st st', fn st = Ok st' -> kept_at k st st') -> candidate e fn cur = Ok next ->
  candidate_of k cur next.
Proof.
  intros Hf Hfn. unfold candidate. intros (st1 & H1 & Hx)%bind_Ok. cbn zeta in Hx. apply bind_Ok in Hx as (f & Hst%lift_dir_Ok & Hx).
  apply bind_Ok in Hx as (u & Hv%guard_err_Ok & Hx). apply bind_Ok in Hx as (u' & _ & [= <-]).
  apply negb_false_iff, bool_decide_eq_true in Hv. apply Hfn in H1 as [[Hc Ht Hp Ho] Hk].
  unfold Stamp in Hst. apply bind_Ok in Hst as (id & _ & [= <-]). simpl in *.
  destruct (follows_version _ _ Hf) as [_ Hi]. pose proof (validate_version _ Hv) as Hnn. simpl in Hnn.
  apply (i64_succ _ Hi) in Hnn.
  destruct (rs_clusters _ _ (fw_reads _ _ Hf)) as (mc & Ec & _), (rs_tenants _ _ (fw_reads _ _ Hf)) as (mt & Et & _),
    (rs_placements _ _ (fw_reads _ _ Hf)) as (mp & Ep & _).
  constructor; simpl; [|done| |done..]; [|pose proof (i64_bounds (stVersion cur + 1)); unfold MaxInt64; lia].
  constructor; simpl; [|done]. constructor; intros; simpl; eauto.
  rewrite Ho by done. rewrite Ep. simpl. rewrite lookup_fmap. destruct (mp !! k'); simpl; by rewrite ?clone_id.
Qed.

(** The generations of a valid file are within its version, which is an int64. *)
Lemma valid_generation f r g : validate f = [] -> default ∅ (fGenerations f) !! r = Some g -> (0 < g <= fVersion f)%Z.
Proof.
  unfold validate, validateLineage. intros Hv Hg. no_failure.
  assert (mlookup r (fGenerations f) = Some g) as Hl by (destruct (fGenerations f); simpl in *; [done|by rewrite lookup_empty in Hg]).
  match goal with Hc : concat (List.map _ (msortedKeys (fGenerations f))) = [] |- _ => pose proof (concat_nil_In _ _ r Hc) as Hr end.
  rewrite elem_of_msortedKeys in Hr. specialize (Hr ltac:(eauto)). cbn zeta in Hr. unfold mget in Hr. rewrite Hl in Hr. simpl in Hr. no_failure. lia.
Qed.

(** ** The transaction *)

(** What the keys give back of a state: its placements as they are stored. *)
Definition read_back (st : cpState) : cpState :=
  on_file (fun f => set_Placements ((fun m : gmap string Placement => stored <$> m) <$> fPlacements f) f) st.

Definition all_finite (f : File) : Prop := forall k p, mlookup k (fPlacements f) = Some p -> finite p = true.

(** A key of one kind is not in the operations of another. *)
Lemma op_at_kind (mk : string -> string) k ops : (forall op, op ∈ ops -> exists n, op.1 = mk n) -> (forall n, mk n <> k) -> op_at k ops = None.
Proof. intros Hops Hk. apply op_at_none. intros op Hop. destruct (Hops op Hop) as [n ->]. apply Hk. Qed.

Lemma diffSchema_keys cur next op : op ∈ diffSchema cur next -> exists n : string, op.1 = kSchema.
Proof. unfold diffSchema. case_match; [by intros ?%elem_of_nil|]. intros ->%list_elem_of_singleton. by exists "". Qed.
Lemma diffIdentity_keys cur next op : op ∈ diffIdentity cur next -> exists n : string, op.1 = kIdentity.
Proof. unfold diffIdentity. case_match; [by intros ?%elem_of_nil|]. intros ->%list_elem_of_singleton. by exists "". Qed.

Ltac miss := repeat match goal with
  | Hx : forall op, op ∈ ?ops -> exists n, op.1 = _ |- context [op_at _ ?ops] => rewrite (op_at_kind _ _ _ Hx) by (intros; discriminate)
  end.

Lemma prefix_inj p a b : p +:+ a = p +:+ b -> a = b.
Proof. induction p as [|c p IH]; [done|]. rewrite !append_cons. intros [=]. by apply IH. Qed.

(** The operations of a plan, kind by kind. *)
Record plan_writes (e : Env) (cur next : cpState) (all : list txnOp) : Prop := mkPlanOf {
  po_clusters : exists ops, diff_map (fun n => kClusters +:+ n) (sameCluster cur next) (marshalCluster e next) (default ∅ (fClusters (stFile cur))) (default ∅ (fClusters (stFile next))) = Ok ops /\
    forall n, op_at (kClusters +:+ n) all = op_at (kClusters +:+ n) ops;
  po_tenants : exists ops, diff_map (fun n => kTenants +:+ n) (fun _ x y => bool_decide (x = y)) (fun _ t => Ok (VTenant t)) (default ∅ (fTenants (stFile cur))) (default ∅ (fTenants (stFile next))) = Ok ops /\
    forall n, op_at (kTenants +:+ n) all = op_at (kTenants +:+ n) ops;
  po_placements : exists ops, diff_map (fun n => kPlacements +:+ n) (fun _ x y => bool_decide (marshalPlacement x = marshalPlacement y)) (fun _ p => Ok (putPlacement p))
      (default ∅ (fPlacements (stFile cur))) (default ∅ (fPlacements (stFile next))) = Ok ops /\
    forall n, op_at (kPlacements +:+ n) all = op_at (kPlacements +:+ n) ops;
  po_generations : exists ops, diff_map (fun n => kGenerations +:+ n) (fun _ x y => (x =? y)%Z) (fun _ g => Ok (VText (FormatInt 10 g)))
      (default ∅ (fGenerations (stFile cur))) (default ∅ (fGenerations (stFile next))) = Ok ops /\
    forall n, op_at (kGenerations +:+ n) all = op_at (kGenerations +:+ n) ops;
  po_creds : exists ops, diff_map (fun n => kCredentials +:+ n) (fun _ x y => bool_decide (x = y)) (marshalCredential e) (stCreds cur) (stCreds next) = Ok ops /\
    forall n, op_at (kCredentials +:+ n) all = op_at (kCredentials +:+ n) ops;
  po_schema : op_at kSchema all = op_at kSchema (diffSchema cur next);
  po_identity : op_at kIdentity all = op_at kIdentity (diffIdentity cur next);
  po_version : op_at kVersion all = Some (Some (versionText (stVersion next)));
}.

Lemma plan_parts e cur next ops last : diff e cur next = Ok ops -> (forall x, x ∈ last -> exists n, x.1 = kChanges +:+ n) ->
  plan_writes e cur next (ops ++ (kVersion, Some (versionText (stVersion next))) :: last) /\
  forall x, op_at (kChanges +:+ x) (ops ++ (kVersion, Some (versionText (stVersion next))) :: last) = op_at (kChanges +:+ x) last.
Proof.
  intros Hd Htail. unfold diff in Hd. apply bind_Ok in Hd as (cl & Dc & (tn & Dt & (pm & Dp & (gn & Dg & (cr & Dk & [= <-])%bind_Ok)%bind_Ok)%bind_Ok)%bind_Ok).
  pose proof (proj2 (diff_map_at _ (prefix_inj kClusters) _ _ _ _ _ Dc)) as Kc. pose proof (proj2 (diff_map_at _ (prefix_inj kTenants) _ _ _ _ _ Dt)) as Kt.
  pose proof (proj2 (diff_map_at _ (prefix_inj kPlacements) _ _ _ _ _ Dp)) as Kp. pose proof (proj2 (diff_map_at _ (prefix_inj kGenerations) _ _ _ _ _ Dg)) as Kg.
  pose proof (proj2 (diff_map_at _ (prefix_inj kCredentials) _ _ _ _ _ Dk)) as Kk.
  pose proof (diffSchema_keys cur next) as Ks. pose proof (diffIdentity_keys cur next) as Ki.
  split; [|intros x; rewrite !op_at_app; miss; cbn [op_at]; rewrite (decide_False (P := _ = kVersion)) by discriminate; by destruct (op_at _ _)].
  constructor; [eexists; split; [done|]..| | |]; intros; rewrite !op_at_app; miss; cbn [op_at]; miss;
    rewrite ?(decide_False (P := _ = kVersion)) by discriminate; try (by destruct (op_at _ _)).
  by rewrite decide_True.
Qed.

(** A plan is a candidate with the transaction that makes it. *)
Lemma attempt_ok kv e actor o cur pl : Follows kv cur -> attempt e actor o cur = Ok pl ->
  exists op k fn, cp_submit (eNow e) o = Ok (op, k, fn) /\ candidate e fn cur = Ok (plNext pl) /\ plCur pl = cur /\
    candidate_of k cur (plNext pl) /\ plan_writes e cur (plNext pl) (plOps pl).
Proof.
  intros Hf. unfold attempt. intros ([[op k] fn] & Hs & (next & Hn & (ops & Hd & (rec & Hr & [= <-])%bind_Ok)%bind_Ok)%bind_Ok)%bind_Ok.
  exists op, k, fn. split_and!; [done..| |].
  - eapply candidate_ok; [done| |done]. intros st st'. by eapply cp_submit_kept.
  - apply (plan_parts e cur next ops (_ :: _)); [done|]. intros x [->|Hx]%elem_of_cons; [by eexists|].
    case_match; [|by apply elem_of_nil in Hx]. apply list_elem_of_singleton in Hx as ->. by eexists.
Qed.

(** The secrets a write leaves in etcd are the candidate's. *)
Lemma plan_secrets kv e cur next all n s : Reads kv cur -> plan_writes e cur next all ->
  as_secret (look (put_ops kv all) (KCluster n)) = Some s -> s <> [] -> stSecrets next !! secretRef n = Some s.
Proof.
  intros [_ _ _ (mc & Ec & Rc) _ _ _ _ Rx] [(ops & Dc & Hat) _ _ _ _ _ _ _]. unfold look. cbn [key_name]. rewrite put_ops_at, Hat.
  destruct (diff_map_at _ (prefix_inj kClusters) _ _ _ _ _ Dc) as [Hn _]. specialize (Hn n). rewrite Ec in Hn. simpl in Hn.
  destruct (default ∅ (fClusters (stFile next)) !! n) as [c|].
  - destruct Hn as [(old & Ho & Hs & ->)|(x & Hx & ->)]; [|apply marshal_cluster_reads in Hx as [_ ->]; congruence].
    intros Hx Hne. unfold sameCluster in Hs. apply andb_true_iff in Hs as [_ Hs%bool_decide_eq_true]. rewrite (Rx n s Hx Hne) in Hs. simpl in Hs.
    destruct (stSecrets next !! secretRef n); simpl in Hs; congruence.
  - rewrite Hn. destruct (mc !! n) eqn:Em; [done|]. intros Hx. rewrite Rc in Em. unfold look in Em. cbn [key_name] in Em.
    unfold as_secret in Hx. destruct (as_cluster _); done.
Qed.

(** A version, a schema and a generation are read back as they were written. *)
Lemma ParseInt_text v : (0 <= v <= MaxInt64)%Z -> ParseInt 10 (FormatInt 10 v) = Some v.
Proof. intros. by apply ParseInt_FormatInt. Qed.

Lemma candidate_follows_version kv k cur next : Follows kv cur -> candidate_of k cur next -> (0 < stVersion next <= MaxInt64)%Z.
Proof. intros [Hv _]%follows_version [_ -> Hb _ _ _]. lia. Qed.

(** After its transaction the keys say what the write computed. *)
Lemma plan_reads kv e k cur next all : Follows kv cur -> keyed (stCreds cur) -> candidate_of k cur next -> plan_writes e cur next all -> all_finite (stFile next) ->
  Reads (put_ops kv all) (read_back next).
Proof.
  intros Hf Hkey Hcn Hpl Hfin. pose proof (candidate_follows_version _ _ _ _ Hf Hcn) as Hvb. destruct Hf as [Hr _ _].
  destruct Hcn as [[[Hoc Hot Hop _] Hcr] Hver _ Hfv Hsch Hval]. pose proof Hr as [Rv Rs Ri (mc & Ec & Rc) (mt & Et & Rt) (mp & Ep & Rp) Rg Rk _].
  destruct Hoc as [mc' Ec']; [by rewrite Ec|]. destruct Hot as [mt' Et']; [by rewrite Et|]. destruct Hop as [mp' Ep']; [by rewrite Ep|]. specialize (Hcr Hkey).
  pose proof Hpl as [(oc & Dc & Ac) (ot & Dt & At) (op & Dp & Ap) (og & Dg & Ag) (ok & Dk & Ak) As Ai Av].
  rewrite Ec, Ec' in Dc. rewrite Et, Et' in Dt. rewrite Ep, Ep' in Dp. simpl in Dc, Dt, Dp.
  constructor; unfold look; cbn [key_name].
  - rewrite put_ops_at, Av. simpl. apply ParseInt_text. lia.
  - rewrite put_ops_at, As. unfold diffSchema. destruct (_ =? _)%Z eqn:E; simpl; [apply Z.eqb_eq in E; rewrite E; exact Rs|by rewrite Hsch].
  - rewrite put_ops_at, Ai. unfold diffIdentity. destruct (decide _) as [E|]; simpl; [by rewrite E|done].
  - exists mc'. split; [done|]. intros n. symmetry.
    rewrite (diff_map_reads _ (prefix_inj kClusters) _ _ _ _ _ kv all (fun _ v => crCluster <$> as_cluster v) id Dc Ac); [by destruct (mc' !! n)|done|exact Rc| |].
    + intros m v x _ [Hx _]%marshal_cluster_reads. done.
    + intros m old v _ _ Hs. unfold sameCluster in Hs. by apply andb_true_iff in Hs as [?%bool_decide_eq_true _].
  - exists mt'. split; [done|]. intros n. symmetry.
    rewrite (diff_map_reads _ (prefix_inj kTenants) _ _ _ _ _ kv all (fun _ v => as_tenant v) id Dt At); [by destruct (mt' !! n)|done|exact Rt| |].
    + by intros m v x _ [= <-].
    + intros m old v _ _ Hs. by apply bool_decide_eq_true in Hs.
  - exists (stored <$> mp'). simpl. rewrite Ep'. split; [done|]. intros n. rewrite lookup_fmap. symmetry.
    rewrite (diff_map_reads _ (prefix_inj kPlacements) _ _ _ _ _ kv all (fun _ v => as_placement v) stored Dp Ap); [done|done|exact Rp| |].
    + intros m v x Hm [= <-]. unfold putPlacement, marshalPlacement. rewrite (Hfin m v); [|unfold mlookup; by rewrite Ep']. simpl. by rewrite stored_stored.
    + intros m old v Ho Hm Hs%bool_decide_eq_true. unfold marshalPlacement in Hs. rewrite (Hfin m v) in Hs; [|unfold mlookup; by rewrite Ep'].
      destruct (finite old); [|done]. apply (inj Some) in Hs. rewrite Rp in Ho. unfold as_placement in Ho.
      repeat case_match; try done. apply (inj Some) in Ho as <-. by rewrite stored_stored in Hs.
  - intros n. simpl. symmetry.
    rewrite (diff_map_reads _ (prefix_inj kGenerations) _ _ _ _ _ kv all (fun _ v => as_number v) id Dg Ag); [by destruct (_ !! n)|done|exact Rg| |].
    + intros m v x Hm [= <-]. simpl. apply ParseInt_text. pose proof (valid_generation _ _ _ Hval Hm). lia.
    + intros m old v _ _ Hs. by apply Z.eqb_eq in Hs.
  - intros n. simpl. symmetry.
    rewrite (diff_map_reads _ (prefix_inj kCredentials) _ _ _ _ _ kv all (fun ak v => as_cred ak v) id Dk Ak); [by destruct (_ !! n)|done|exact Rk| |].
    + intros m v x Hm Hx. eapply marshal_cred_reads; [done|]. by apply Hcr.
    + intros m old v _ _ Hs. by apply bool_decide_eq_true in Hs.
  - intros n s. apply (plan_secrets kv e cur next all n s Hr Hpl).
Qed.
End Write.
