(* ===== verification/CpNodes.v ===== *)
(** * Control nodes over one etcd (internal/cp: store.go Start, load, watch, mutate)

    The nodes share one history of transactions, the log: what etcd holds at a revision is the log's
    transactions up to it.  A node has the state it installed, how much of the log its watch has
    delivered, and at most one write in progress (writes of one node are serialized).  Steps of several
    nodes interleave: a load may replace a node's state at any time (a start, or a watch that was cut), a
    watch delivers one or more transactions at once, a transaction whose answer a writer gave up on may
    still land, and a node may stop and start again.

    Writes carry a number, and the log the write of each transaction, so that theorems can speak of one
    write's transactions. *)

From S2P Require Import Prelude Crypto Strconv Float64 KeyHash HashRange Config Placement Transition S3Op S3Names Route Backend Scopes Directory Validate Store SigV4 CpStore CpFollow CpWrite.

Record Write : Type := mkWrite { wrId : nat; wrActor : string; wrOp : cpOp }.

(** Where [mutate] is: about to compute, its transaction sent, its version awaited, another's version
    awaited before the next turn, and its answer; [Ok None] is a write that changed nothing. *)
Inductive phase : Type :=
| PIdle
| PTry (w : Write) (turn : nat)
| PTxn (w : Write) (turn : nat) (pl : Plan)
| PWait (w : Write) (v : Z)
| PBehind (w : Write) (turn : nat) (v : Z)
| PDone (w : Write) (r : result cpErr (option Z)).

Record Node : Type := mkNode { ndState : option cpState; ndPos : nat; ndPhase : phase }.

(** The log, the nodes, the transactions given up on but still under way, and the next write's number. *)
Record cpWorld : Type := mkCpWorld {
  cwLog : list (Write * list txnOp);
  cwNodes : gmap nat Node;
  cwFlight : list (Write * Plan);
  cwNext : nat;
}.

(** What etcd holds after the first transactions, and the events of some of them. *)
Definition kv_at (log : list (Write * list txnOp)) (n : nat) : etcd := foldl put_ops ∅ (take n log).*2.
Definition events (log : list (Write * list txnOp)) (pos k : nat) : list txnOp := concat (take k (drop pos log)).*2.
Definition etcd_now (w : cpWorld) : etcd := kv_at (cwLog w) (length (cwLog w)).

Section Nodes.
Context `{Aead}.

(** [for attempt := range 8]. *)
Definition turns : nat := 8.

Definition after_attempt (w : Write) (turn : nat) (r : result cpErr Plan) : phase :=
  match r with
  | Ok pl => PTxn w turn pl
  | Err CpUnchanged => PDone w (Ok None)
  | Err e => PDone w (Err e)
  end.

(** The transaction answered: committed, and its version is awaited; or another write came first. *)
Definition after_txn (w : Write) (turn : nat) (pl : Plan) (succeeded : bool) : phase :=
  if succeeded then PWait w (stVersion (plNext pl)) else PBehind w turn (stVersion (plCur pl) + 1)%Z.

Definition after_behind (w : Write) (turn : nat) : phase :=
  if (S turn <? turns)%nat then PTry w (S turn) else PDone w (Err (CpDir ErrConflict)).

(** [WaitVersion] returns: the installed version is at least [v]. *)
Definition installed (nd : Node) (v : Z) : bool := match ndState nd with Some st => (v <=? stVersion st)%Z | None => false end.

Definition set_phase (p : phase) (nd : Node) : Node := mkNode (ndState nd) (ndPos nd) p.
Definition put_node (n : nat) (nd : Node) (w : cpWorld) : cpWorld := mkCpWorld (cwLog w) (<[n := nd]> (cwNodes w)) (cwFlight w) (cwNext w).
Definition commit_txn (wr : Write) (pl : Plan) (w : cpWorld) : cpWorld := mkCpWorld (cwLog w ++ [(wr, plOps pl)]) (cwNodes w) (cwFlight w) (cwNext w).
Definition set_flight (fl : list (Write * Plan)) (w : cpWorld) : cpWorld := mkCpWorld (cwLog w) (cwNodes w) fl (cwNext w).

Definition sent (p : phase) : list (Write * Plan) := match p with PTxn w _ pl => [(w, pl)] | _ => [] end.
Definition at_rest (p : phase) : bool := match p with PIdle | PDone _ _ => true | _ => false end.

(** Steps; [skips] allows the steps in which a watch cannot apply a change and goes on without it. *)
Inductive cstep (skips : bool) : cpWorld -> cpWorld -> Prop :=
| cs_load w n nd st : cwNodes w !! n = Some nd -> load (etcd_now w) = Ok st ->
    cstep skips w (put_node n (mkNode (Some st) (length (cwLog w)) (ndPhase nd)) w)
| cs_watch w n nd st k st' : cwNodes w !! n = Some nd -> ndState nd = Some st -> (0 < k)%nat -> (ndPos nd + k <= length (cwLog w))%nat ->
    watched st (events (cwLog w) (ndPos nd) k) = Ok st' ->
    cstep skips w (put_node n (mkNode (Some st') (ndPos nd + k) (ndPhase nd)) w)
| cs_skip w n nd st k e : skips = true -> cwNodes w !! n = Some nd -> ndState nd = Some st -> (0 < k)%nat -> (ndPos nd + k <= length (cwLog w))%nat ->
    watched st (events (cwLog w) (ndPos nd) k) = Err e ->
    cstep skips w (put_node n (mkNode (Some st) (ndPos nd + k) (ndPhase nd)) w)
| cs_start w n : cwNodes w !! n = None -> cstep skips w (put_node n (mkNode None 0 PIdle) w)
| cs_stop w n nd : cwNodes w !! n = Some nd ->
    cstep skips w (put_node n (mkNode None 0 PIdle) (set_flight (sent (ndPhase nd) ++ cwFlight w) w))
| cs_submit w n nd actor o : cwNodes w !! n = Some nd -> at_rest (ndPhase nd) = true ->
    cstep skips w (mkCpWorld (cwLog w) (<[n := set_phase (PTry (mkWrite (cwNext w) actor o) 0) nd]> (cwNodes w)) (cwFlight w) (S (cwNext w)))
| cs_attempt w n nd wr turn st e : cwNodes w !! n = Some nd -> ndPhase nd = PTry wr turn -> ndState nd = Some st ->
    cstep skips w (put_node n (set_phase (after_attempt wr turn (attempt e (wrActor wr) (wrOp wr) st)) nd) w)
| cs_commit w n nd wr turn pl : cwNodes w !! n = Some nd -> ndPhase nd = PTxn wr turn pl -> cmp_holds pl (etcd_now w) = true ->
    cstep skips w (put_node n (set_phase (after_txn wr turn pl true) nd) (commit_txn wr pl w))
| cs_conflict w n nd wr turn pl : cwNodes w !! n = Some nd -> ndPhase nd = PTxn wr turn pl -> cmp_holds pl (etcd_now w) = false ->
    cstep skips w (put_node n (set_phase (after_txn wr turn pl false) nd) w)
| cs_give_up w n nd wr turn pl : cwNodes w !! n = Some nd -> ndPhase nd = PTxn wr turn pl ->
    cstep skips w (put_node n (set_phase (PDone wr (Err CpUnavailable)) nd) (set_flight ((wr, pl) :: cwFlight w) w))
| cs_land w i wr pl : cwFlight w !! i = Some (wr, pl) -> cmp_holds pl (etcd_now w) = true ->
    cstep skips w (commit_txn wr pl (set_flight (delete i (cwFlight w)) w))
| cs_lost w i wr pl : cwFlight w !! i = Some (wr, pl) -> cstep skips w (set_flight (delete i (cwFlight w)) w)
| cs_installed w n nd wr v : cwNodes w !! n = Some nd -> ndPhase nd = PWait wr v -> installed nd v = true ->
    cstep skips w (put_node n (set_phase (PDone wr (Ok (Some v))) nd) w)
| cs_wait_ended w n nd wr v : cwNodes w !! n = Some nd -> ndPhase nd = PWait wr v ->
    cstep skips w (put_node n (set_phase (PDone wr (Err CpUnavailable)) nd) w)
| cs_caught_up w n nd wr turn v : cwNodes w !! n = Some nd -> ndPhase nd = PBehind wr turn v -> installed nd v = true ->
    cstep skips w (put_node n (set_phase (after_behind wr turn) nd) w)
| cs_not_caught_up w n nd wr turn v : cwNodes w !! n = Some nd -> ndPhase nd = PBehind wr turn v ->
    cstep skips w (put_node n (set_phase (PDone wr (Err CpUnavailable)) nd) w).

Definition start_world : cpWorld := mkCpWorld [] ∅ [] 0.
End Nodes.

(** ** The log *)

Lemma kv_at_prefix log more n : (n <= length log)%nat -> kv_at (log ++ more) n = kv_at log n.
Proof. intros Hn. unfold kv_at. by rewrite take_app_le. Qed.

Lemma kv_at_next log wr ops : kv_at (log ++ [(wr, ops)]) (S (length log)) = put_ops (kv_at log (length log)) ops.
Proof.
  unfold kv_at. rewrite firstn_all2 by (rewrite length_app; simpl; lia). rewrite firstn_all. by rewrite fmap_app, foldl_app.
Qed.

Lemma put_ops_concat kv l : foldl put_ops kv l = put_ops kv (concat l).
Proof. revert kv. induction l as [|ops l IH]; intros kv; simpl; [done|]. rewrite IH. unfold put_ops. by rewrite foldl_app. Qed.

Lemma kv_at_events log pos k : kv_at log (pos + k) = put_ops (kv_at log pos) (events log pos k).
Proof.
  unfold events. rewrite <- put_ops_concat. unfold kv_at. rewrite <- foldl_app, <- fmap_app. f_equal. f_equal.
  rewrite take_drop_commute. rewrite <- (take_drop pos (take (pos + k) log)) at 1. rewrite take_take, Nat.min_l by lia. done.
Qed.
