(* ===== verification/CpSafe.v ===== *)
(** * Control nodes over one etcd: what they keep

    Over every interleaving of loads, watches, writes, lost answers and restarts: the log is a sequence of
    whole mutations, each computed from the directory the one before it left; a node's state is the
    directory at a point of the log, so nodes at one version agree; a write is in the log at most once,
    exactly once when it is answered with a version, and never when it is refused. *)

From S2P Require Import Prelude Crypto Strconv Float64 KeyHash HashRange Config Placement Transition S3Op S3Names Route Backend Scopes Directory Validate Store SigV4 CpStore CpFollow CpWrite CpNodes.

Section Safe.
Context `{AeadLaws}.

(** A transaction made by a write from the directory after [q] transactions. *)
Definition made (log : list (Write * list txnOp)) (q : nat) (wr : Write) (pl : Plan) : Prop :=
  Follows (kv_at log q) (plCur pl) /\ exists e, attempt e (wrActor wr) (wrOp wr) (plCur pl) = Ok pl.

(** The version of the keys is the number of transactions. *)
Definition counted (log : list (Write * list txnOp)) : Prop :=
  forall i, (i <= length log)%nat -> rd_num 0 (look (kv_at log i) KVersion) = Some (Z.of_nat i).
Definition serial (log : list (Write * list txnOp)) : Prop :=
  forall i wr ops, log !! i = Some (wr, ops) -> exists pl, made log i wr pl /\ ops = plOps pl.

Record log_ok (w : cpWorld) : Prop := mkLogOk {
  lo_counted : counted (cwLog w);
  lo_serial : serial (cwLog w);
  lo_nodes : forall n nd st, cwNodes w !! n = Some nd -> ndState nd = Some st -> (ndPos nd <= length (cwLog w))%nat /\ Follows (kv_at (cwLog w) (ndPos nd)) st;
  lo_sent : forall n nd wr turn pl, cwNodes w !! n = Some nd -> ndPhase nd = PTxn wr turn pl -> exists q, (q <= length (cwLog w))%nat /\ made (cwLog w) q wr pl;
  lo_flight : forall wr pl, (wr, pl) ∈ cwFlight w -> exists q, (q <= length (cwLog w))%nat /\ made (cwLog w) q wr pl;
}.

Lemma made_prefix log more q wr pl : (q <= length log)%nat -> made log q wr pl -> made (log ++ more) q wr pl.
Proof. intros Hq. unfold made. by rewrite kv_at_prefix. Qed.

Lemma follows_count log q st : counted log -> (q <= length log)%nat -> Follows (kv_at log q) st -> stVersion st = Z.of_nat q.
Proof. intros Hc Hq [[Hv _ _ _ _ _ _ _ _] _ _]. rewrite Hc in Hv by done. by injection Hv. Qed.

Lemma reads_keyed kv st : Reads kv st -> keyed (stCreds st).
Proof. intros [_ _ _ _ _ _ _ Hk _] ak c Hc. rewrite Hk in Hc. unfold as_cred in Hc. repeat case_match; try done. destruct (Decrypt _); simpl in Hc; by simplify_eq. Qed.

(** The comparison holds only where the writer's directory is the latest. *)
Lemma cmp_latest log q wr pl : counted log -> (q <= length log)%nat -> made log q wr pl -> cmp_holds pl (kv_at log (length log)) = true -> q = length log.
Proof.
  intros Hc Hq [Hf _] Hcmp. pose proof (follows_count _ _ _ Hc Hq Hf) as Hv. pose proof (Hc (length log) (le_n _)) as Hl.
  destruct (follows_version _ _ Hf) as [Hb _]. unfold cmp_holds in Hcmp. unfold look in Hl. cbn [key_name] in Hl. case_decide as E.
  - apply bool_decide_eq_true in Hcmp. rewrite Hcmp in Hl. simpl in Hl. injection Hl. lia.
  - case_match; [|done]. case_match; try done. apply bool_decide_eq_true in Hcmp as ->. simpl in Hl. rewrite ParseInt_text in Hl by done. injection Hl. lia.
Qed.

(** A committed transaction keeps the log in order. *)
Lemma log_grows log q wr pl : counted log -> serial log -> (q <= length log)%nat -> made log q wr pl -> cmp_holds pl (kv_at log (length log)) = true ->
  counted (log ++ [(wr, plOps pl)]) /\ serial (log ++ [(wr, plOps pl)]).
Proof.
  intros Hc Hs Hq Hm Hcmp. pose proof (cmp_latest _ _ _ _ Hc Hq Hm Hcmp) as ->. split.
  - intros i Hi. rewrite length_app in Hi. simpl in Hi. destruct (decide (i <= length log)%nat) as [Hle|Hgt]; [rewrite kv_at_prefix by done; by apply Hc|].
    assert (i = S (length log)) as -> by lia. rewrite kv_at_next. destruct Hm as [Hf [e Ha]].
    destruct (attempt_ok _ _ _ _ _ _ Hf Ha) as (op & k & fn & _ & _ & _ & Hcn & Hpl).
    pose proof (candidate_follows_version _ _ _ _ Hf Hcn) as Hb. unfold look. cbn [key_name]. rewrite put_ops_at, (po_version _ _ _ _ Hpl). simpl.
    rewrite ParseInt_text by lia. rewrite (cn_version _ _ _ Hcn), (follows_count _ _ _ Hc Hq Hf). f_equal. lia.
  - intros i wr' ops Hi. destruct (decide (i < length log)%nat) as [Hlt|Hge].
    + rewrite lookup_app_l in Hi by done. destruct (Hs _ _ _ Hi) as (pl' & Hm' & ->). exists pl'. split; [|done]. apply made_prefix; [lia|done].
    + rewrite lookup_app_r in Hi by lia. apply list_lookup_singleton_Some in Hi as [Hi [= <- <-]]. assert (i = length log) as -> by lia.
      exists pl. split; [|done]. by apply made_prefix.
Qed.

(** One node's new state and phase. *)
Lemma log_ok_node w n nd : log_ok w -> (forall st, ndState nd = Some st -> (ndPos nd <= length (cwLog w))%nat /\ Follows (kv_at (cwLog w) (ndPos nd)) st) ->
  (forall wr turn pl, ndPhase nd = PTxn wr turn pl -> exists q, (q <= length (cwLog w))%nat /\ made (cwLog w) q wr pl) -> log_ok (put_node n nd w).
Proof.
  intros [Hc Hs Hn Ht Hf] H1 H2. constructor; simpl; [done|done| | |done].
  - intros m nd' st Hm. apply lookup_insert_Some in Hm as [[_ <-]|[_ Hm]]; [apply H1|exact (Hn m nd' st Hm)].
  - intros m nd' wr turn pl Hm. apply lookup_insert_Some in Hm as [[_ <-]|[_ Hm]]; [apply H2|exact (Ht m nd' wr turn pl Hm)].
Qed.

Lemma log_ok_commit w q wr pl : log_ok w -> (q <= length (cwLog w))%nat -> made (cwLog w) q wr pl -> cmp_holds pl (etcd_now w) = true -> log_ok (commit_txn wr pl w).
Proof.
  intros [Hc Hs Hn Ht Hf] Hq Hm Hcmp. destruct (log_grows _ _ _ _ Hc Hs Hq Hm Hcmp) as [Hc' Hs'].
  constructor; simpl; [done|done|..]; intros *; rewrite length_app.
  - intros H1 H2. destruct (Hn _ _ _ H1 H2) as [? ?]. split; [lia|]. by rewrite kv_at_prefix.
  - intros H1 H2. destruct (Ht _ _ _ _ _ H1 H2) as (p & ? & ?). exists p. split; [lia|]. by apply made_prefix.
  - intros H1. destruct (Hf _ _ H1) as (p & ? & ?). exists p. split; [lia|]. by apply made_prefix.
Qed.

Lemma log_ok_flight w fl : log_ok w -> (forall wr pl, (wr, pl) ∈ fl -> exists q, (q <= length (cwLog w))%nat /\ made (cwLog w) q wr pl) -> log_ok (set_flight fl w).
Proof. intros [Hc Hs Hn Ht Hf] Hfl. by constructor. Qed.

Lemma elem_of_delete {A} (l : list A) i x : x ∈ delete i l -> x ∈ l.
Proof. apply list_subseteq_delete. Qed.

(** A step that only moves a node's phase. *)
Lemma log_ok_phase w n nd p : log_ok w -> cwNodes w !! n = Some nd ->
  (forall wr turn pl, p = PTxn wr turn pl -> exists q, (q <= length (cwLog w))%nat /\ made (cwLog w) q wr pl) -> log_ok (put_node n (set_phase p nd) w).
Proof. intros Hok Hn Hp. apply log_ok_node; [done| |done]. intros st. exact (lo_nodes _ Hok n nd st Hn). Qed.

Lemma after_attempt_txn w turn r wr t pl : after_attempt w turn r = PTxn wr t pl -> r = Ok pl /\ wr = w.
Proof. unfold after_attempt. repeat case_match; try done. by intros [= -> -> ->]. Qed.

Lemma cstep_log_ok w w' : cstep false w w' -> log_ok w -> log_ok w'.
Proof.
  intros Hs Hok. pose proof Hok as [Hc Hse Hn Ht Hf]. destruct Hs.
  - apply log_ok_node; [done| |exact (fun wr turn pl => Ht n nd wr turn pl H1)]. intros st' [= <-]. split; [done|]. by apply load_follows.
  - destruct (Hn _ _ _ H1 H2) as [Hpos Hfo]. apply log_ok_node; [done| |exact (fun wr turn pl => Ht n nd wr turn pl H1)]. intros st1 [= <-]. split; [done|]. simpl. rewrite kv_at_events.
    by eapply watched_follows.
  - done.
  - by apply log_ok_node.
  - apply log_ok_node; [|done..]. apply log_ok_flight; [done|]. intros wr pl [Hin|Hin]%elem_of_app; [|by apply Hf].
    unfold sent in Hin. destruct (ndPhase nd) eqn:E; try by apply elem_of_nil in Hin. apply list_elem_of_singleton in Hin as [= -> ->]. by eapply Ht.
  - constructor; simpl; [done|done| | |done].
    + intros m nd' st Hm. apply lookup_insert_Some in Hm as [[_ <-]|[_ Hm]]; [exact (Hn n nd st H1)|exact (Hn m nd' st Hm)].
    + intros m nd' wr turn pl Hm. apply lookup_insert_Some in Hm as [[_ <-]|[_ Hm]]; [done|exact (Ht m nd' wr turn pl Hm)].
  - apply log_ok_phase; [done..|]. intros wr' t pl [Ha ->]%after_attempt_txn. destruct (Hn _ _ _ H1 H3) as [Hpos Hfo]. exists (ndPos nd). split; [done|].
    destruct (attempt_ok _ _ _ _ _ _ Hfo Ha) as (_ & _ & _ & _ & _ & Ecur & _). split; [by rewrite Ecur|]. exists e. by rewrite Ecur.
  - destruct (Ht _ _ _ _ _ H1 H2) as (q & Hq & Hm). apply (log_ok_phase (commit_txn wr pl w)); [by eapply log_ok_commit|done|done].
  - apply log_ok_phase; done.
  - apply (log_ok_phase (set_flight _ w)); [|done..]. apply log_ok_flight; [done|]. intros wr' pl' [[= -> ->]|Hin]%elem_of_cons; [by eapply Ht|by apply Hf].
  - assert ((wr, pl) ∈ cwFlight w) as Hin by (by eapply list_elem_of_lookup_2). destruct (Hf _ _ Hin) as (q & Hq & Hm).
    eapply log_ok_commit; [|exact Hq|exact Hm|done]. apply log_ok_flight; [done|]. intros wr' pl' Hin'. apply Hf. by eapply (elem_of_delete (cwFlight w)).
  - apply log_ok_flight; [done|]. intros wr' pl' Hin'. apply Hf. by eapply (elem_of_delete (cwFlight w)).
  - apply log_ok_phase; done.
  - apply log_ok_phase; done.
  - apply log_ok_phase; [done..|]. unfold after_behind. intros *. by case_match.
  - apply log_ok_phase; done.
Qed.

Lemma start_log_ok : log_ok start_world.
Proof.
  constructor; simpl; try done.
  - intros i Hi. assert (i = 0%nat) as -> by (simpl in Hi; lia). done.
  - intros wr pl Hin. by apply elem_of_nil in Hin.
Qed.

Lemma reachable_log_ok w : rtc (cstep false) start_world w -> log_ok w.
Proof. intros Hr. pose proof start_log_ok as Hok. induction Hr as [|w1 w2 w3 Hs _ IH]; [done|]. apply IH. by eapply cstep_log_ok. Qed.

(** ** Nodes agree *)

(** The directory two states hold: all but the secrets, whose holders may differ (below). *)
Definition same_directory (a b : cpState) : Prop :=
  stVersion a = stVersion b /\ fSchema (stFile a) = fSchema (stFile b) /\ fIdentity (stFile a) = fIdentity (stFile b) /\
  fClusters (stFile a) = fClusters (stFile b) /\ fTenants (stFile a) = fTenants (stFile b) /\ fPlacements (stFile a) = fPlacements (stFile b) /\
  default ∅ (fGenerations (stFile a)) = default ∅ (fGenerations (stFile b)) /\ stCreds a = stCreds b.

Lemma reads_same kv a b : Reads kv a -> Reads kv b -> same_directory a b.
Proof.
  intros [Av As Ai (ac & Ac & Ac') (at_ & At & At') (ap & Ap & Ap') Ag Ak _] [Bv Bs Bi (bc & Bc & Bc') (bt & Bt & Bt') (bp & Bp & Bp') Bg Bk _].
  split_and!; [congruence..| | | | |]; rewrite ?Ac, ?Bc, ?At, ?Bt, ?Ap, ?Bp; [apply f_equal| apply f_equal|apply f_equal| |]; apply map_eq; intros n; congruence.
Qed.

(** C23: control nodes agree.  Whatever they load, watch, write, lose and restart, as long as no watch
    goes on without a change it could not apply, each node's state is the directory at a point of etcd's
    history: its version counts the transactions up to there, its records are exactly what the keys hold
    there, it holds every secret sealed there, and it is valid.  So two nodes at the same version hold the
    same directory and the same client keys, however each came to it. *)
Theorem nodes_agree w n1 n2 nd1 nd2 st1 st2 : rtc (cstep false) start_world w ->
  cwNodes w !! n1 = Some nd1 -> ndState nd1 = Some st1 -> cwNodes w !! n2 = Some nd2 -> ndState nd2 = Some st2 ->
  (stVersion st1 = Z.of_nat (ndPos nd1) /\ (ndPos nd1 <= length (cwLog w))%nat /\ Reads (kv_at (cwLog w) (ndPos nd1)) st1 /\ validate (stFile st1) = []) /\
  (stVersion st1 = stVersion st2 -> same_directory st1 st2).
Proof.
  intros [Hc _ Hn _ _]%reachable_log_ok H1 S1 H2 S2. destruct (Hn _ _ _ H1 S1) as [P1 F1]. destruct (Hn _ _ _ H2 S2) as [P2 F2].
  pose proof (follows_count _ _ _ Hc P1 F1) as V1. pose proof (follows_count _ _ _ Hc P2 F2) as V2. split.
  - split_and!; [done|done|apply F1|apply F1].
  - intros E. assert (ndPos nd1 = ndPos nd2) as Ep by lia. rewrite <- Ep in F2. eapply reads_same; [apply F1|apply F2].
Qed.

(** ** No update is lost *)


(** ** A write lands at most once *)

Definition write_of (p : phase) : option Write :=
  match p with PIdle => None | PTry w _ | PTxn w _ _ | PWait w _ | PBehind w _ _ | PDone w _ => Some w end.

(** Writes whose transaction can still be sent, and those answered without one. *)
Definition active (p : phase) : bool := match p with PTry _ _ | PTxn _ _ _ | PBehind _ _ _ => true | _ => false end.
Definition refused (r : result cpErr (option Z)) : bool := match r with Ok None => true | Ok (Some _) | Err CpUnavailable => false | Err _ => true end.
Definition unsent (p : phase) : bool := active p || match p with PDone _ r => refused r | _ => false end.

(** Writes that were committed, at a version. *)
Definition committed (p : phase) : option (Write * Z) := match p with PWait w v | PDone w (Ok (Some v)) => Some (w, v) | _ => None end.

(** The numbers of the writes with a transaction in the log or under way. *)
Definition spent (w : cpWorld) : list nat := ((fun x => wrId x.1) <$> cwLog w) ++ ((fun x => wrId x.1) <$> cwFlight w).

Record ids_ok (w : cpWorld) : Prop := mkIdsOk {
  io_once : NoDup (spent w);
  io_old : forall x, x ∈ spent w -> (x < cwNext w)%nat;
  io_submitted : forall n nd wr, cwNodes w !! n = Some nd -> write_of (ndPhase nd) = Some wr -> (wrId wr < cwNext w)%nat;
  io_unsent : forall n nd wr, cwNodes w !! n = Some nd -> write_of (ndPhase nd) = Some wr -> unsent (ndPhase nd) = true -> wrId wr ∉ spent w;
  io_own : forall n m nd md wr wr', cwNodes w !! n = Some nd -> cwNodes w !! m = Some md ->
    write_of (ndPhase nd) = Some wr -> write_of (ndPhase md) = Some wr' -> wrId wr = wrId wr' -> n = m;
  io_committed : forall n nd wr v, cwNodes w !! n = Some nd -> committed (ndPhase nd) = Some (wr, v) ->
    exists i ops, v = Z.of_nat (S i) /\ cwLog w !! i = Some (wr, ops);
  io_installed : forall n nd wr v, cwNodes w !! n = Some nd -> ndPhase nd = PDone wr (Ok (Some v)) -> installed nd v = true;
}.

(** A node whose write stays its own, and is not newly unsent. *)
Lemma ids_ok_node w n nd nd' : ids_ok w -> cwNodes w !! n = Some nd ->
  (forall wr, write_of (ndPhase nd') = Some wr -> write_of (ndPhase nd) = Some wr) ->
  (unsent (ndPhase nd') = true -> unsent (ndPhase nd) = true) ->
  (forall wr v, committed (ndPhase nd') = Some (wr, v) -> committed (ndPhase nd) = Some (wr, v) \/ exists i ops, v = Z.of_nat (S i) /\ cwLog w !! i = Some (wr, ops)) ->
  (forall wr v, ndPhase nd' = PDone wr (Ok (Some v)) -> installed nd' v = true) -> ids_ok (put_node n nd' w).
Proof.
  intros [Ho Hl Hs Hu Hw Hc Hi] Hn H1 H2 H3 H4. constructor; simpl; [done|done|..].
  - intros m md wr Hm. apply lookup_insert_Some in Hm as [[_ <-]|[_ Hm]]; [intros ?%H1; by eapply Hs|by eapply Hs].
  - intros m md wr Hm. apply lookup_insert_Some in Hm as [[_ <-]|[_ Hm]]; [intros ?%H1 ?%H2; by eapply Hu|by eapply Hu].
  - intros m m' md md' wr wr' Hm Hm'. apply lookup_insert_Some in Hm as [[<- <-]|[_ Hm]]; apply lookup_insert_Some in Hm' as [[<- <-]|[_ Hm']];
      [done|intros ?%H1 ? ?; by eapply Hw|intros ? ?%H1 ?; by eapply Hw|by eapply Hw].
  - intros m md wr v Hm. apply lookup_insert_Some in Hm as [[_ <-]|[_ Hm]]; [intros [?|?]%H3; [by eapply Hc|done]|by eapply Hc].
  - intros m md wr v Hm. apply lookup_insert_Some in Hm as [[_ <-]|[_ Hm]]; [apply H4|by eapply Hi].
Qed.

Lemma installed_later nd nd' v : installed nd v = true -> (forall st, ndState nd = Some st -> exists st', ndState nd' = Some st' /\ (stVersion st <= stVersion st')%Z) -> installed nd' v = true.
Proof. unfold installed. destruct (ndState nd) as [st|]; [|done]. intros Hv Hn. destruct (Hn st eq_refl) as (st' & -> & ?). lia. Qed.

(** A transaction that is sent or lands takes the number of a write that had none. *)
Lemma ids_ok_spend w w' wr : ids_ok w -> cwNodes w' = cwNodes w -> cwNext w' = cwNext w -> (exists more, cwLog w' = cwLog w ++ more) -> spent w' ≡ₚ wrId wr :: spent w ->
  (wrId wr < cwNext w)%nat -> wrId wr ∉ spent w ->
  (forall n nd wr', cwNodes w !! n = Some nd -> write_of (ndPhase nd) = Some wr' -> unsent (ndPhase nd) = true -> wrId wr' <> wrId wr) -> ids_ok w'.
Proof.
  intros [Ho Hl Hs Hu Hw Hc Hi] En Ex [more El] Hp Hlt Hnew Hno. constructor; rewrite ?En, ?Ex; try done.
  - rewrite Hp. by constructor.
  - intros x. rewrite Hp. intros [->|?]%elem_of_cons; [done|by apply Hl].
  - intros n nd wr' Hn Hwr Hun. rewrite Hp. intros [E|Hin]%elem_of_cons; [by eapply Hno|by eapply Hu].
  - intros n nd wr' v Hn Hcm. destruct (Hc _ _ _ _ Hn Hcm) as (i & ops & ? & Hli). exists i, ops. split; [done|]. rewrite El. by apply lookup_app_l_Some.
Qed.

Lemma spent_commit wr pl w : spent (commit_txn wr pl w) ≡ₚ wrId wr :: spent w.
Proof. unfold spent. simpl. rewrite fmap_app. simpl. solve_Permutation. Qed.
Lemma spent_send wr pl w : spent (set_flight ((wr, pl) :: cwFlight w) w) ≡ₚ wrId wr :: spent w.
Proof. unfold spent. simpl. solve_Permutation. Qed.

Lemma ids_ok_delete w i wr pl : ids_ok w -> cwFlight w !! i = Some (wr, pl) ->
  ids_ok (set_flight (delete i (cwFlight w)) w) /\ wrId wr ∉ spent (set_flight (delete i (cwFlight w)) w) /\ wrId wr ∈ spent w.
Proof.
  intros [Ho Hl Hs Hu Hw Hc Hi] Hi'.
  assert (spent w ≡ₚ wrId wr :: spent (set_flight (delete i (cwFlight w)) w)) as Hp.
  { unfold spent. simpl. rewrite (delete_Permutation _ _ _ Hi') at 1. simpl. solve_Permutation. }
  assert (forall x, x ∈ spent (set_flight (delete i (cwFlight w)) w) -> x ∈ spent w) as Hsub by (intros x Hx; rewrite Hp; by right).
  pose proof Ho as Hnd. rewrite Hp in Hnd. apply NoDup_cons in Hnd as [Hnew Hnd]. split_and!; [|done|rewrite Hp; by left].
  constructor; try done; [by intros x ?%Hsub; apply Hl|]. intros n nd wr' Hn Hwr Hun Hin%Hsub. by eapply Hu.
Qed.

(** A node that stops keeping a write of its own: what it had cannot be unsent elsewhere. *)
Lemma ids_ok_unsent w n nd wr : ids_ok w -> cwNodes w !! n = Some nd -> write_of (ndPhase nd) = Some wr -> unsent (ndPhase nd) = false ->
  forall m md wr', cwNodes w !! m = Some md -> write_of (ndPhase md) = Some wr' -> unsent (ndPhase md) = true -> wrId wr' <> wrId wr.
Proof. intros Hok Hn Hwr Hun m md wr' Hm Hwr' Hun' E. assert (m = n) as -> by (by eapply (io_own _ Hok)). rewrite Hn in Hm. injection Hm as <-. congruence. Qed.

Lemma ids_ok_idle w n st pos : ids_ok w -> ids_ok (put_node n (mkNode st pos PIdle) w).
Proof.
  intros [Ho Hl Hs Hu Hw Hc Hi]. constructor; simpl; [done|done|..].
  - intros m md wr Hm. apply lookup_insert_Some in Hm as [[_ <-]|[_ Hm]]; [done|by eapply Hs].
  - intros m md wr Hm. apply lookup_insert_Some in Hm as [[_ <-]|[_ Hm]]; [done|by eapply Hu].
  - intros m m' md md' wr wr' Hm Hm'. apply lookup_insert_Some in Hm as [[<- <-]|[_ Hm]]; apply lookup_insert_Some in Hm' as [[<- <-]|[_ Hm']];
      [done|done|done|by eapply Hw].
  - intros m md wr v Hm. apply lookup_insert_Some in Hm as [[_ <-]|[_ Hm]]; [done|by eapply Hc].
  - intros m md wr v Hm. apply lookup_insert_Some in Hm as [[_ <-]|[_ Hm]]; [done|by eapply Hi].
Qed.

(** A node whose phase alone moves, to one that is neither committed nor newly unsent. *)
Lemma ids_ok_phase w n nd p : ids_ok w -> cwNodes w !! n = Some nd -> (forall wr, write_of p = Some wr -> write_of (ndPhase nd) = Some wr) ->
  (unsent p = true -> unsent (ndPhase nd) = true) -> committed p = None -> ids_ok (put_node n (set_phase p nd) w).
Proof. intros Hok Hn H1 H2 H3. apply (ids_ok_node _ _ nd); simpl; try done; [intros wr v; by rewrite H3|]. intros wr v E. by rewrite E in H3. Qed.

Lemma put_node_twice n nd nd' wr pl w : put_node n nd (commit_txn wr pl (put_node n nd' w)) = put_node n nd (commit_txn wr pl w).
Proof. unfold put_node, commit_txn. simpl. by rewrite insert_insert_eq. Qed.
Lemma put_node_flight n nd nd' fl w : put_node n nd (set_flight fl (put_node n nd' w)) = put_node n nd (set_flight fl w).
Proof. unfold put_node, set_flight. simpl. by rewrite insert_insert_eq. Qed.

Section Sent.
Context (w : cpWorld) (n : nat) (nd : Node) (wr : Write) (turn : nat) (pl : Plan).
Context (Hok : ids_ok w) (Hn : cwNodes w !! n = Some nd) (Hp : ndPhase nd = PTxn wr turn pl).

(** The writer gives up on a transaction: it is under way, or it has landed. *)
Definition given_up : Node := set_phase (PDone wr (Err CpUnavailable)) nd.

Lemma given_up_ok w' : cwNodes w' = <[n := given_up]> (cwNodes w) -> cwNext w' = cwNext w -> (exists more, cwLog w' = cwLog w ++ more) ->
  spent w' ≡ₚ wrId wr :: spent w -> ids_ok w'.
Proof.
  intros En Ex El Es. assert (ids_ok (put_node n given_up w)) as H1 by (apply ids_ok_phase; rewrite ?Hp; done).
  apply (ids_ok_spend (put_node n given_up w) w' wr); try done.
  - apply (io_submitted _ Hok n nd); [done|by rewrite Hp].
  - apply (io_unsent _ Hok n nd); [done|by rewrite Hp..].
  - apply (ids_ok_unsent _ n given_up); [done|by simpl; rewrite lookup_insert_eq|done..].
Qed.
End Sent.

Lemma ids_ok_submit w n nd actor o : ids_ok w -> cwNodes w !! n = Some nd ->
  ids_ok (mkCpWorld (cwLog w) (<[n := set_phase (PTry (mkWrite (cwNext w) actor o) 0) nd]> (cwNodes w)) (cwFlight w) (S (cwNext w))).
Proof.
  intros [Ho Hl Hs Hu Hw Hc Hi] Hn. constructor; simpl; [done| |..].
  - intros x Hx. specialize (Hl x Hx). lia.
  - intros m md wr Hm. apply lookup_insert_Some in Hm as [[_ <-]|[_ Hm]]; [intros [= <-]; simpl; lia|]. intros Hwr. specialize (Hs _ _ _ Hm Hwr). lia.
  - intros m md wr Hm. apply lookup_insert_Some in Hm as [[_ <-]|[_ Hm]]; [|by eapply Hu]. intros [= <-] _ Hin. specialize (Hl _ Hin). simpl in Hl. lia.
  - intros m m' md md' wr wr' Hm Hm'. apply lookup_insert_Some in Hm as [[<- <-]|[? Hm]]; apply lookup_insert_Some in Hm' as [[<- <-]|[? Hm']];
      [done|intros [= <-] Hwr E; specialize (Hs _ _ _ Hm' Hwr); simpl in E; lia|intros Hwr [= <-] E; specialize (Hs _ _ _ Hm Hwr); simpl in E; lia|by eapply Hw].
  - intros m md wr v Hm. apply lookup_insert_Some in Hm as [[_ <-]|[_ Hm]]; [done|by eapply Hc].
  - intros m md wr v Hm. apply lookup_insert_Some in Hm as [[_ <-]|[_ Hm]]; [done|by eapply Hi].
Qed.

(** A committed transaction's version is its place in the log. *)
Lemma commit_version w q wr pl : log_ok w -> (q <= length (cwLog w))%nat -> made (cwLog w) q wr pl -> cmp_holds pl (etcd_now w) = true ->
  stVersion (plNext pl) = Z.of_nat (S (length (cwLog w))).
Proof.
  intros [Hc _ _ _ _] Hq Hm Hcmp. pose proof (cmp_latest _ _ _ _ Hc Hq Hm Hcmp) as ->. destruct Hm as [Hf [e Ha]].
  destruct (attempt_ok _ _ _ _ _ _ Hf Ha) as (op & k & fn & _ & _ & _ & Hcn & _). rewrite (cn_version _ _ _ Hcn), (follows_count _ _ _ Hc Hq Hf). lia.
Qed.

Lemma after_attempt_write w turn r : write_of (after_attempt w turn r) = Some w /\ committed (after_attempt w turn r) = None.
Proof. unfold after_attempt. by repeat case_match. Qed.
Lemma after_behind_write w turn : write_of (after_behind w turn) = Some w /\ committed (after_behind w turn) = None.
Proof. unfold after_behind. by case_match. Qed.

(** A node's new state, the directory at a point of the log no earlier than its old one. *)
Lemma ids_ok_state w n nd st pos : log_ok w -> ids_ok w -> cwNodes w !! n = Some nd -> (pos <= length (cwLog w))%nat -> Follows (kv_at (cwLog w) pos) st ->
  (forall st0, ndState nd = Some st0 -> (ndPos nd <= pos)%nat) -> ids_ok (put_node n (mkNode (Some st) pos (ndPhase nd)) w).
Proof.
  intros Hlog Hok Hn Hpos Hf Hv. apply (ids_ok_node _ _ nd); simpl; try done; [by left|].
  intros wr v Hd. pose proof (io_installed _ Hok _ _ _ _ Hn Hd) as Hin. eapply installed_later; [done|]. intros st0 E. exists st. split; [done|].
  destruct (lo_nodes _ Hlog _ _ _ Hn E) as [Hp0 Hf0]. pose proof (lo_counted _ Hlog) as Hc.
  rewrite (follows_count _ _ _ Hc Hp0 Hf0), (follows_count _ _ _ Hc Hpos Hf). specialize (Hv _ E). lia.
Qed.

Lemma cstep_ids_ok w w' : cstep false w w' -> log_ok w -> ids_ok w -> ids_ok w'.
Proof.
  intros Hs Hlog Hok. pose proof Hlog as [Hc Hse Hn Ht Hf]. destruct Hs.
  - apply ids_ok_state; [done..|by apply load_follows|]. intros st0 E. by eapply Hn.
  - destruct (Hn _ _ _ H1 H2) as [Hpos Hfo]. apply ids_ok_state; [done..| |lia]. rewrite kv_at_events. by eapply watched_follows.
  - done.
  - by apply ids_ok_idle.
  - destruct (ndPhase nd) as [|wr turn|wr turn pl|wr v|wr turn v|wr r] eqn:Ep; simpl;
      try (apply ids_ok_idle; unfold set_flight; by destruct w).
    rewrite <- (put_node_flight _ _ (given_up nd wr)). apply ids_ok_idle. eapply (given_up_ok w n nd wr turn pl); try done; [by exists []; rewrite app_nil_r|exact (spent_send wr pl w)].
  - by apply ids_ok_submit.
  - destruct (after_attempt_write wr turn (attempt e (wrActor wr) (wrOp wr) st)) as [E1 E2]. apply ids_ok_phase; try done; [|by rewrite H2].
    intros wr' E. rewrite E1 in E. by rewrite H2.
  - destruct (Ht _ _ _ _ _ H1 H2) as (q & Hq & Hm). rewrite <- (put_node_twice _ _ (given_up nd wr)). apply (ids_ok_node _ _ (given_up nd wr)); simpl; try done.
    + eapply (given_up_ok w n nd wr turn pl); try done; [by eexists|exact (spent_commit wr pl w)].
    + by rewrite lookup_insert_eq.
    + intros wr' v [= <- <-]. right. exists (length (cwLog w)), (plOps pl). split; [by eapply commit_version|]. by rewrite lookup_app_r, Nat.sub_diag.
  - apply ids_ok_phase; rewrite ?H2; done.
  - rewrite <- (put_node_flight _ _ (given_up nd wr)). apply (ids_ok_node _ _ (given_up nd wr)); simpl; try done; [|by rewrite lookup_insert_eq].
    eapply (given_up_ok w n nd wr turn pl); try done; [by exists []; rewrite app_nil_r|exact (spent_send wr pl w)].
  - destruct (ids_ok_delete _ _ _ _ Hok H1) as (Hok' & Hnew & Hold). eapply (ids_ok_spend (set_flight (delete i (cwFlight w)) w)); try done; [by eexists|apply spent_commit|by apply Hok|].
    intros n nd wr' Hm Hwr Hun E. apply (io_unsent _ Hok _ _ _ Hm Hwr Hun). by rewrite E.
  - by eapply ids_ok_delete.
  - apply (ids_ok_node _ _ nd); simpl; rewrite ?H2; try done; [by left|]. by intros ? ? [= <- <-].
  - apply ids_ok_phase; rewrite ?H2; done.
  - destruct (after_behind_write wr turn) as [E1 E2]. apply ids_ok_phase; rewrite ?H2; try done. intros wr' E. by rewrite E1 in E.
  - apply ids_ok_phase; rewrite ?H2; done.
Qed.

(** ** A refused write never lands *)

(** No transaction of this write is in the log or under way, and none will be sent. *)
Definition dead (x : nat) (w : cpWorld) : Prop :=
  (x < cwNext w)%nat /\ x ∉ spent w /\ forall n nd wr, cwNodes w !! n = Some nd -> write_of (ndPhase nd) = Some wr -> active (ndPhase nd) = true -> wrId wr <> x.

Lemma dead_node x w n nd' : dead x w -> (forall wr, write_of (ndPhase nd') = Some wr -> active (ndPhase nd') = true -> wrId wr <> x) -> dead x (put_node n nd' w).
Proof.
  intros (Hx & Hs & Ha) H1. split_and!; [done|done|]. intros m md wr Hm. simpl in Hm. apply lookup_insert_Some in Hm as [[_ <-]|[_ Hm]]; [apply H1|by eapply Ha].
Qed.

Lemma dead_spend x w w' wr : dead x w -> cwNodes w' = cwNodes w -> cwNext w' = cwNext w -> spent w' ≡ₚ wrId wr :: spent w -> wrId wr <> x -> dead x w'.
Proof. intros (Hx & Hs & Ha) En Ex Es Hne. split_and!; [by rewrite Ex|rewrite Es; by intros [->|?]%elem_of_cons|by rewrite En]. Qed.

Lemma cstep_dead skips x w w' : cstep skips w w' -> dead x w -> dead x w'.
Proof.
  intros Hst Hd. pose proof Hd as (Hx & Hs & Ha). destruct Hst; try (apply dead_node; [done|]; simpl); try done.
  - intros wr. by apply (Ha n nd).
  - intros wr. by apply (Ha n nd).
  - intros wr. by apply (Ha n nd).
  - apply dead_node; [|done]. destruct (ndPhase nd) as [|wr turn|wr turn pl|wr v|wr turn v|wr r] eqn:Ep; simpl; try (unfold set_flight; by destruct w).
    apply (dead_spend x w _ wr); [done..|exact (spent_send wr pl w)|]. apply (Ha n nd); [done|by rewrite Ep..].
  - split_and!; [simpl; lia|done|]. intros m md wr Hm. simpl in Hm. apply lookup_insert_Some in Hm as [[_ <-]|[_ Hm]]; [intros [= <-] _; simpl; lia|by eapply Ha].
  - destruct (after_attempt_write wr turn (attempt e (wrActor wr) (wrOp wr) st)) as [-> _]. intros wr' [= <-] _. apply (Ha n nd); [done|by rewrite H2..].
  - apply dead_node; [|done]. apply (dead_spend x w _ wr); [done..|exact (spent_commit wr pl w)|]. apply (Ha n nd); [done|by rewrite H2..].
  - intros wr' [= <-] _. apply (Ha n nd); [done|by rewrite H2..].
  - apply dead_node; [|done]. apply (dead_spend x w _ wr); [done..|exact (spent_send wr pl w)|]. apply (Ha n nd); [done|by rewrite H2..].
  - assert (spent w ≡ₚ wrId wr :: spent (set_flight (delete i (cwFlight w)) w)) as Hp.
    { unfold spent. simpl. rewrite (delete_Permutation _ _ _ H1) at 1. simpl. solve_Permutation. }
    split_and!; [done| |done]. rewrite spent_commit, <- Hp. done.
  - split_and!; [done| |done]. intros Hin. apply Hs. unfold spent in *. simpl in *. apply elem_of_app in Hin as [?|Hin]; apply elem_of_app; [by left|right].
    apply list_elem_of_fmap in Hin as (y & -> & Hy%elem_of_delete). apply list_elem_of_fmap. by exists y.
  - destruct (after_behind_write wr turn) as [-> _]. intros wr' [= <-] _. apply (Ha n nd); [done|by rewrite H2..].
Qed.

Lemma dead_ever skips x w w' : rtc (cstep skips) w w' -> dead x w -> x ∉ ((fun y => wrId y.1) <$> cwLog w').
Proof.
  intros Hr Hd. assert (dead x w') as (_ & Hs & _) by (induction Hr; [done|by eauto using cstep_dead]).
  intros Hin. apply Hs. unfold spent. apply elem_of_app. by left.
Qed.

Lemma reachable_ids_ok w : rtc (cstep false) start_world w -> ids_ok w.
Proof.
  intros Hr. pose proof start_log_ok as Hl. assert (ids_ok start_world) as Hok by (constructor; simpl; try done; [constructor|by intros ? ?%elem_of_nil]).
  induction Hr as [|w1 w2 w3 Hs _ IH]; [done|]. apply IH; [by eapply cstep_log_ok|by eapply cstep_ids_ok].
Qed.

(** C24: a write is answered as it went, as long as no watch goes on without a change it could not
    apply.  At most one transaction of a write is ever in etcd's history,
    though it is tried up to eight times and its answers may be lost.  Answered with success, it is there,
    made by that write from the directory before it, and the answering node already serves its version or
    a later one.  Answered with success and nothing to change, or with an error other than that the
    control plane was unavailable, no transaction of it is in the history, nor will ever be. *)
Theorem answered_as_it_went w n nd wr r : rtc (cstep false) start_world w -> cwNodes w !! n = Some nd -> ndPhase nd = PDone wr r ->
  (forall i j wi wj oi oj, cwLog w !! i = Some (wi, oi) -> cwLog w !! j = Some (wj, oj) -> wrId wi = wrId wj -> i = j) /\
  match r with
  | Ok (Some v) => exists i ops pl st, v = Z.of_nat (S i) /\ cwLog w !! i = Some (wr, ops) /\ made (cwLog w) i wr pl /\ ops = plOps pl /\
                     ndState nd = Some st /\ (v <= stVersion st)%Z
  | Err CpUnavailable => True
  | Ok None | Err _ => forall w', rtc (cstep false) w w' -> wrId wr ∉ ((fun y => wrId y.1) <$> cwLog w')
  end.
Proof.
  intros Hr Hn Hp. pose proof (reachable_ids_ok _ Hr) as Hok. pose proof (reachable_log_ok _ Hr) as Hlog. split.
  - intros i j wi wj oi oj Hi Hj E. pose proof (io_once _ Hok) as Hnd. unfold spent in Hnd. apply NoDup_app in Hnd as (Hnd & _ & _).
    eapply (NoDup_lookup _ i j (wrId wi) Hnd); rewrite list_lookup_fmap, ?Hi, ?Hj; simpl; congruence.
  - assert (refused r = true -> forall w', rtc (cstep false) w w' -> wrId wr ∉ ((fun y => wrId y.1) <$> cwLog w')) as Hrefused.
    { intros Href w' Hr'. eapply dead_ever; [done|]. assert (unsent (ndPhase nd) = true) as Hun by (by rewrite Hp).
      assert (write_of (ndPhase nd) = Some wr) as Hwr by (by rewrite Hp). split_and!.
      - by eapply io_submitted.
      - by eapply io_unsent.
      - intros m md wr' Hm Hwr' Ha E. assert (m = n) as -> by (by eapply (io_own _ Hok)). rewrite Hn in Hm. injection Hm as <-. by rewrite Hp in Ha. }
    destruct r as [[v|]|e]; [|by apply Hrefused|destruct e; (exact I || by apply Hrefused)].
    destruct (io_committed _ Hok n nd wr v) as (i & ops & -> & Hi); [done|by rewrite Hp|]. destruct (lo_serial _ Hlog _ _ _ Hi) as (pl & Hm & ->).
    pose proof (io_installed _ Hok _ _ _ _ Hn Hp) as Hin. unfold installed in Hin. destruct (ndState nd) as [st|]; [|done].
    exists i, (plOps pl), pl, st. split_and!; try done. by apply Z.leb_le.
Qed.
End Safe.
