(* ===== verification/CpAudit.v ===== *)
(** * The control plane's change log and its reads (internal/cp: store.go Changes, Sync)

    Every version has one audit record, kept for [changeRetention] versions: [Changes] returns them newest
    first and none is missing.  A node that synced serves every change made before the sync. *)

From S2P Require Import Prelude Crypto Strconv Float64 KeyHash HashRange Config Placement Transition S3Op S3Names Route Backend Scopes Directory Validate Store SigV4 CpStore CpFollow CpWrite CpNodes CpSafe.

(** ** The loop of [Changes] *)

(** The versions from [n] down to 1. *)
Fixpoint down (n : nat) : list Z := match n with O => [] | S m => Z.of_nat n :: down m end.

Lemma batch_down b n room vs v' : batch b (Z.of_nat n) room = (vs, v') ->
  exists m, v' = Z.of_nat m /\ (m <= n)%nat /\ down n = vs ++ down m /\ (length vs <= room)%nat /\ ((0 < b)%nat -> (0 < room)%nat -> (0 < n)%nat -> (m < n)%nat).
Proof.
  revert n room vs v'. induction b as [|b IH]; intros n room vs v' Hb; simpl in Hb; [injection Hb as <- <-; exists n; split_and!; simpl; intros; try done; lia|].
  destruct room as [|room]; [injection Hb as <- <-; exists n; split_and!; simpl; intros; try done; lia|].
  case_match eqn:E; [|injection Hb as <- <-; exists n; simpl; split_and!; simpl; intros; try done; lia]. destruct n as [|n]; [done|].
  replace (Z.of_nat (S n) - 1)%Z with (Z.of_nat n) in Hb by lia. destruct (batch b (Z.of_nat n) room) as [ws w'] eqn:Eb. injection Hb as <- <-.
  destruct (IH _ _ _ _ Eb) as (m & -> & Hm & Hd & Hl & _). exists m. simpl. rewrite Hd. split_and!; simpl; intros; try done; lia.
Qed.

Lemma omap_cons_eq {A B} (f : A -> option B) x l : omap f (x :: l) = match f x with Some y => y :: omap f l | None => omap f l end.
Proof. done. Qed.
Lemma length_omap_le {A B} (f : A -> option B) l : (length (omap f l) <= length l)%nat.
Proof. induction l as [|x l IH]; [done|]. rewrite omap_cons_eq. destruct (f x); simpl; lia. Qed.

Lemma changes_from_spec fuel kv n limit out : (n < fuel)%nat -> (length out <= limit)%nat ->
  changes_from fuel kv (Z.of_nat n) limit out = out ++ take (limit - length out) (omap (change_at kv) (down n)).
Proof.
  revert n out. induction fuel as [|fuel IH]; intros n out Hf Hl; [lia|]. cbn [changes_from].
  destruct ((0 <? Z.of_nat n)%Z && (length out <? limit)%nat) eqn:E.
  - apply andb_true_iff in E as [E1%Z.ltb_lt E2%Nat.ltb_lt]. destruct (batch maxTxnOps (Z.of_nat n) (limit - length out)) as [vs v'] eqn:Eb.
    destruct (batch_down _ _ _ _ _ Eb) as (m & -> & Hm & Hd & Hv & Hlt). specialize (Hlt ltac:(unfold maxTxnOps; lia) ltac:(lia) ltac:(lia)).
    pose proof (length_omap_le (change_at kv) vs) as Ho. rewrite IH by (rewrite ?length_app; lia). rewrite Hd, omap_app, length_app.
    rewrite <- app_assoc. f_equal. rewrite take_app. rewrite (firstn_all2 (n := limit - length out)) by lia. f_equal. f_equal. lia.
  - apply andb_false_iff in E as [E%Z.ltb_ge|E%Nat.ltb_ge]; [assert (n = 0)%nat as -> by lia; simpl; by rewrite take_nil, app_nil_r|].
    replace (limit - length out)%nat with 0%nat by lia. by rewrite app_nil_r.
Qed.

(** The records of the versions above [lo], when those and no others are there. *)
Lemma omap_down {A} (f : Z -> option A) lo k : (forall v, (0 < v <= Z.of_nat lo)%Z -> f v = None) ->
  (forall v, (Z.of_nat lo < v <= Z.of_nat (lo + k))%Z -> is_Some (f v)) ->
  length (omap f (down (lo + k))) = k /\ forall i, (i < k)%nat -> omap f (down (lo + k)) !! i = f (Z.of_nat (lo + k - i)).
Proof.
  intros Hno. induction k as [|k IH]; intros Hyes.
  - rewrite Nat.add_0_r. split; [|intros; lia]. assert (forall m, (m <= lo)%nat -> omap f (down m) = []) as ->; [|done|done].
    intros m. induction m as [|m IHm]; intros Hm; [done|]. cbn [down]. rewrite omap_cons_eq. rewrite Hno by lia. apply IHm. lia.
  - rewrite Nat.add_succ_r. cbn [down]. rewrite omap_cons_eq.
    destruct (Hyes (Z.of_nat (S (lo + k))) ltac:(lia)) as [y Hy]. rewrite Hy. destruct IH as [IH1 IH2]; [intros v Hv; apply Hyes; lia|].
    split; [simpl; lia|]. intros [|i] Hi; simpl; [by rewrite Hy|]. rewrite IH2 by lia. f_equal.
Qed.

Section Audit.
Context `{AeadLaws}.

(** ** The records of a log *)

Lemma decimal_inj v v' : (0 <= v <= MaxInt64)%Z -> (0 <= v' <= MaxInt64)%Z -> decimal v = decimal v' -> v = v'.
Proof.
  unfold decimal. intros Hv Hv' E. apply (f_equal B) in E. rewrite !B_S in E. apply (f_equal (ParseInt 10)) in E. rewrite !ParseInt_text in E by done. by injection E.
Qed.

(** What a write's transaction does to the records: its own is put, and the one past retention goes. *)
Lemma attempt_change e actor o cur pl v : attempt e actor o cur = Ok pl -> (0 <= v <= MaxInt64)%Z -> (0 <= stVersion (plNext pl) <= MaxInt64)%Z ->
  exists op k fn c, cp_submit (eNow e) o = Ok (op, k, fn) /\ c = changeOf e actor op k cur (plNext pl) /\ forall kv,
  change_at (put_ops kv (plOps pl)) v =
    if decide (v = stVersion (plNext pl)) then Some c
    else if decide (v = stVersion (plNext pl) - changeRetention)%Z then (if decide (0 < v)%Z then None else change_at kv v) else change_at kv v.
Proof.
  unfold attempt. intros ([[op k] fn] & Hs & (next & Hn & (ops & Hd & (rec & Hr & [= <-])%bind_Ok)%bind_Ok)%bind_Ok)%bind_Ok Hv Hnv. simpl in *.
  unfold marshalChange in Hr. case_match; [|done]. injection Hr as <-. exists op, k, fn. eexists. split_and!; [done..|]. intros kv.
  set (c := changeOf e actor op k cur next). unfold change_at at 1. rewrite put_ops_at.
  match goal with |- context [op_at ?x ?l] => eassert (op_at x l = op_at x _) as -> end.
  { apply (plan_parts e cur next ops (_ :: _) Hd).
    intros x [->|Hx]%elem_of_cons; [by eexists|]. case_match; [|by apply elem_of_nil in Hx]. apply list_elem_of_singleton in Hx as ->. by eexists. }
  assert (forall w, (0 <= w <= MaxInt64)%Z -> kChanges +:+ decimal v = kChanges +:+ decimal w <-> v = w) as Hk.
  { intros w Hw. split; [intros E%prefix_inj; by apply decimal_inj|by intros ->]. }
  assert (0 < changeRetention)%Z as Hret by done. set (old := (stVersion next - changeRetention)%Z) in *.
  destruct (Z.ltb_spec 0 old) as [Hlt|Hge]; cbn [op_at].
  - assert (0 <= old <= MaxInt64)%Z as Hold by lia. destruct (decide (v = old)) as [->|Hne].
    + rewrite (decide_True (P := kChanges +:+ decimal old = kChanges +:+ decimal old)) by done. rewrite decide_False by lia. by rewrite decide_True by lia.
    + rewrite (decide_False (P := _ = kChanges +:+ decimal old)) by (by rewrite Hk).
      destruct (decide (v = stVersion next)) as [E|Hn2]; [rewrite decide_True by (by rewrite Hk); done|rewrite decide_False by (by rewrite Hk); done].
  - destruct (decide (v = stVersion next)) as [E|Hn2]; [rewrite decide_True by (by rewrite Hk); done|rewrite decide_False by (by rewrite Hk)].
    fold (change_at kv v). destruct (decide (v = old)); [|done]. by rewrite decide_False by lia.
Qed.

(** The record of a version: what the write that made it was. *)
Definition records (log : list (Write * list txnOp)) (v : Z) (c : Change) : Prop :=
  exists i wr ops e k fn, v = Z.of_nat (S i) /\ log !! i = Some (wr, ops) /\ cp_submit (eNow e) (wrOp wr) = Ok (chOp c, k, fn) /\
    chVersion c = v /\ chActor c = wrActor wr /\ chKey c = k.

(** The records in the keys are those of the last [changeRetention] versions. *)
Lemma change_records log n : counted log -> serial log -> (n <= length log)%nat -> forall v, (0 < v <= MaxInt64)%Z ->
  (if decide (Z.of_nat n - changeRetention < v <= Z.of_nat n)%Z then exists c, change_at (kv_at log n) v = Some c /\ records log v c
   else change_at (kv_at log n) v = None).
Proof.
  intros Hc Hs. induction n as [|n IH]; intros Hn v Hv.
  { rewrite decide_False by lia. unfold change_at, kv_at. simpl. by rewrite lookup_empty. }
  destruct (lookup_lt_is_Some_2 log n ltac:(lia)) as [[wr ops] Hl]. destruct (Hs _ _ _ Hl) as (pl & [Hf [e Ha]] & ->).
  destruct (attempt_ok _ _ _ _ _ _ Hf Ha) as (op0 & k0 & fn0 & _ & _ & _ & Hcn & _). pose proof (candidate_follows_version _ _ _ _ Hf Hcn) as Hb.
  pose proof (cn_version _ _ _ Hcn) as Hver. rewrite (follows_count log n _ Hc ltac:(lia) Hf) in Hver. replace (Z.of_nat n + 1)%Z with (Z.of_nat (S n)) in Hver by lia.
  destruct (attempt_change _ _ _ _ _ v Ha ltac:(lia) ltac:(lia)) as (op & k & fn & c & Hsub & -> & Hat).
  assert (kv_at log (S n) = put_ops (kv_at log n) (plOps pl)) as ->.
  { replace (S n) with (n + 1)%nat by lia. rewrite kv_at_events. unfold events. rewrite (drop_S _ _ _ Hl). simpl. by rewrite app_nil_r. }
  rewrite Hat, Hver. specialize (IH ltac:(lia) v Hv). assert (0 < changeRetention)%Z as Hret by done. destruct (decide (v = Z.of_nat (S n))) as [->|Hne].
  - rewrite decide_True by lia. eexists. split; [done|]. exists n, wr, (plOps pl), e, k, fn. simpl. by rewrite Hver.
  - destruct (decide (v = Z.of_nat (S n) - changeRetention)%Z) as [E|Hne'].
    + rewrite (decide_True (P := (0 < v)%Z)) by lia. by rewrite decide_False by lia.
    + destruct (decide (Z.of_nat (S n) - changeRetention < v <= Z.of_nat (S n))%Z); [rewrite decide_True in IH by lia|rewrite decide_False in IH by lia]; exact IH.
Qed.

(** C25: no change goes unrecorded, as long as no watch goes on without a change it could not apply.  The change log, read from the latest version, is one record for each
    of the last versions, as many as were asked for and are kept, newest first and with none missing:
    each names its version and the write that made it.  Reading it ends. *)
Theorem change_log_complete w limit : rtc (cstep false) start_world w ->
  let n := length (cwLog w) in
  let out := Changes (etcd_now w) (Z.of_nat n) 0 limit in
  length out = Nat.min limit (Nat.min n (Z.to_nat changeRetention)) /\
  forall i c, out !! i = Some c -> records (cwLog w) (Z.of_nat (n - i)) c.
Proof.
  intros [Hc Hs _ _ _]%reachable_log_ok n out.
  assert (Z.of_nat n <= MaxInt64)%Z as Hmax.
  { pose proof (Hc n (le_n _)) as Hv. unfold rd_num in Hv. repeat case_match; simplify_eq; [by eapply ParseInt_range|]. unfold MaxInt64. lia. }
  set (k := Nat.min n (Z.to_nat changeRetention)). assert (Z.of_nat k = Z.min (Z.of_nat n) changeRetention) as Ek by (by unfold k; rewrite Nat2Z.inj_min, Z2Nat.id).
  clearbody k. assert (exists lo, n = lo + k)%nat as [lo En] by (exists (n - k)%nat; lia).
  assert (forall v, (0 < v <= MaxInt64)%Z -> if decide (Z.of_nat lo < v <= Z.of_nat n)%Z then exists c, change_at (etcd_now w) v = Some c /\ records (cwLog w) v c
                                           else change_at (etcd_now w) v = None) as Hrec.
  { intros v Hv. pose proof (change_records _ n Hc Hs (le_n _) v Hv) as Hr.
    destruct (decide (Z.of_nat lo < v <= Z.of_nat n)%Z); [rewrite decide_True in Hr by lia|rewrite decide_False in Hr by lia]; exact Hr. }
  assert (out = take limit (omap (change_at (etcd_now w)) (down (lo + k)))) as ->.
  { unfold out, Changes. rewrite Z.eqb_refl, Nat2Z.id, changes_from_spec by (simpl; lia). by rewrite Nat.sub_0_r, <- En. }
  destruct (omap_down (change_at (etcd_now w)) lo k) as [Hlen Hat].
  - intros v Hv. specialize (Hrec v ltac:(lia)). by rewrite decide_False in Hrec by lia.
  - intros v Hv. specialize (Hrec v ltac:(lia)). rewrite decide_True in Hrec by lia. destruct Hrec as (c & -> & _). done.
  - rewrite length_take, Hlen. split; [done|]. intros i c Hi. apply lookup_take_Some in Hi as [Hi Hil]. pose proof (lookup_lt_Some _ _ _ Hi) as Hik. rewrite Hlen in Hik.
    rewrite Hat in Hi by done. rewrite <- En in Hi. specialize (Hrec (Z.of_nat (n - i)) ltac:(lia)). rewrite decide_True in Hrec by lia.
    destruct Hrec as (c' & E & ?). rewrite E in Hi. by injection Hi as <-.
Qed.

(** A node that has waited for the version [Sync] read serves every transaction committed before it. *)
Theorem sync_sees_all w w' n nd st v : rtc (cstep false) start_world w -> sync_version (etcd_now w) = Ok (Some v) -> rtc (cstep false) w w' ->
  cwNodes w' !! n = Some nd -> ndState nd = Some st -> installed nd v = true -> v = Z.of_nat (length (cwLog w)) /\ (length (cwLog w) <= ndPos nd)%nat.
Proof.
  intros Hr Hs Hr' Hn Hst Hin. pose proof (reachable_log_ok _ Hr) as [Hc _ _ _ _].
  assert (v = Z.of_nat (length (cwLog w))) as ->.
  { pose proof (Hc _ (le_n _)) as Hv. unfold look in Hv. cbn [key_name] in Hv. unfold sync_version, etcd_now in Hs. unfold rd_num in Hv. repeat case_match; simplify_eq; done. }
  split; [done|]. assert (rtc (cstep false) start_world w') as [Hc' _ Hn' _ _]%reachable_log_ok by (by etrans).
  destruct (Hn' _ _ _ Hn Hst) as [Hp Hf]. unfold installed in Hin. rewrite Hst, (follows_count _ _ _ Hc' Hp Hf) in Hin. apply Z.leb_le in Hin. lia.
Qed.
End Audit.
