(* ===== verification/CpCases.v ===== *)
(** * Control nodes over one etcd: runs

    Concrete runs of the model: two nodes, a cluster that is put, and a node that loads what another wrote.
    Two show where the code does not do what it says: a secret that is removed stays with the nodes that
    watched its removal, and a change a watch could not apply is lost behind the next one. *)

From S2P Require Import Prelude Crypto Strconv Float64 KeyHash HashRange Config Placement Transition S3Op S3Names Route Backend Scopes Directory Validate Store SigV4 CpStore CpFollow CpWrite CpNodes CpSafe CpAudit.

(** Sealing that hides nothing, for runs. *)
#[local] Instance clear_aead : Aead := {| Seal := fun _ p => p; OpenSealed := fun _ c => Some c |}.
#[local] Instance clear_laws : AeadLaws.
Proof. by constructor. Qed.

Definition case_env : Env := mkEnv 5000000 (Some (mkIdentity "0123456789abcdef0123456789abcdef" "0123456789abcdef0123456789abcdef"))
  (Some (fun _ _ => true)) (fun _ => None) (fun _ => Some (repeat "n"%char 12)).

Definition case_cluster (ref : string) : Cluster :=
  mkCluster "s3" "https" "us-east-1" "static" ["10.0.0.1:443"] "" (mkClusterTLS "" false) (mkCredentials "AK" ref)
    "" "" "" (mkCapabilities None None None None) false false None.

(** A write that stores a cluster's secret, and one that moves the secret out of the control plane. *)
Definition put_secret : Write := mkWrite 0 "op" (cpStore (opPutCluster "a" (case_cluster "control:a") "s3cret")).
Definition put_env : Write := mkWrite 1 "op" (cpStore (opPutCluster "a" (case_cluster "env:SECRET") "")).

Definition plan_or (r : result cpErr Plan) : Plan := match r with Ok pl => pl | Err _ => mkPlan emptyState emptyState [] end.
Definition state_or (r : result cpErr cpState) : cpState := match r with Ok st => st | Err _ => emptyState end.

(** Node 0 starts on an empty etcd, puts the cluster, and installs what it wrote. *)
Definition plan_1 : Plan := Eval vm_compute in plan_or (attempt case_env "op" (wrOp put_secret) emptyState).
Definition log_1 : list (Write * list txnOp) := [(put_secret, plOps plan_1)].
Definition state_1 : cpState := Eval vm_compute in state_or (watched emptyState (events log_1 0 1)).

(** It then moves the secret out, and installs that; a second node loads. *)
Definition plan_2 : Plan := Eval vm_compute in plan_or (attempt case_env "op" (wrOp put_env) state_1).
Definition log_2 : list (Write * list txnOp) := log_1 ++ [(put_env, plOps plan_2)].
Definition state_2 : cpState := Eval vm_compute in state_or (watched state_1 (events log_2 1 1)).
Definition state_2' : cpState := Eval vm_compute in state_or (load (kv_at log_2 2)).

Lemma plan_1_ok : attempt case_env "op" (wrOp put_secret) emptyState = Ok plan_1.
Proof. vm_compute. reflexivity. Qed.
Lemma state_1_ok : watched emptyState (events log_1 0 1) = Ok state_1.
Proof. vm_compute. reflexivity. Qed.
Lemma plan_2_ok : attempt case_env "op" (wrOp put_env) state_1 = Ok plan_2.
Proof. vm_compute. reflexivity. Qed.
Lemma state_2_ok : watched state_1 (events log_2 1 1) = Ok state_2.
Proof. vm_compute. reflexivity. Qed.
Lemma state_2_loads : load (kv_at log_2 2) = Ok state_2'.
Proof. vm_compute. reflexivity. Qed.

(** ** Steps of a run *)

Lemma run_attempt skips w n nd wr turn st e r : cwNodes w !! n = Some nd -> ndPhase nd = PTry wr turn -> ndState nd = Some st ->
  attempt e (wrActor wr) (wrOp wr) st = r -> cstep skips w (put_node n (set_phase (after_attempt wr turn r) nd) w).
Proof. intros ? ? ? <-. by apply cs_attempt. Qed.

Definition node_at (n : nat) (w : cpWorld) : Node := default (mkNode None 0 PIdle) (cwNodes w !! n).

(** A write of node [n], from its submission to its answer, its watch delivering its own version. *)
Definition written (n : nat) (actor : string) (o : cpOp) (pl : Plan) (st' : cpState) (w : cpWorld) : cpWorld :=
  let wr := mkWrite (cwNext w) actor o in
  mkCpWorld (cwLog w ++ [(wr, plOps pl)])
    (<[n := mkNode (Some st') (ndPos (node_at n w) + 1) (PDone wr (Ok (Some (stVersion (plNext pl)))))]> (cwNodes w)) (cwFlight w) (S (cwNext w)).

Lemma run_write n actor o e pl st st' w : cwNodes w !! n = Some (node_at n w) -> at_rest (ndPhase (node_at n w)) = true -> ndState (node_at n w) = Some st ->
  ndPos (node_at n w) = length (cwLog w) -> attempt e actor o st = Ok pl -> cmp_holds pl (etcd_now w) = true -> watched st (plOps pl) = Ok st' ->
  (stVersion (plNext pl) <= stVersion st')%Z -> rtc (cstep false) w (written n actor o pl st' w).
Proof.
  intros Hn Hr Hs Hp Ha Hc Hw Hv. set (wr := mkWrite (cwNext w) actor o). set (nd := node_at n w) in *.
  eapply rtc_l; [exact (cs_submit false w n nd actor o Hn Hr)|].
  eapply rtc_l; [eapply (run_attempt false _ n _ wr 0 st e); [simpl; apply lookup_insert_eq|done|done|exact Ha]|].
  eapply rtc_l; [eapply (cs_commit false _ n _ wr 0 pl); [simpl; apply lookup_insert_eq|done|exact Hc]|].
  eapply rtc_l.
  { eapply (cs_watch false _ n _ st 1 st'); [simpl; apply lookup_insert_eq|done|lia|simpl; rewrite Hp, length_app; simpl; lia|].
    simpl. rewrite Hp. unfold events. rewrite drop_app_length. simpl. by rewrite app_nil_r. }
  eapply rtc_l; [eapply (cs_installed false _ n _ wr); [simpl; apply lookup_insert_eq|done|simpl; unfold installed; simpl; lia]|].
  match goal with |- rtc _ ?a ?b => assert (a = b) as ->; [|apply rtc_refl] end.
  unfold written, put_node, commit_txn, set_phase. simpl. fold nd. by rewrite !insert_insert_eq.
Qed.

(** A node that starts and loads what etcd holds. *)
Definition loaded (n : nat) (st : cpState) (w : cpWorld) : cpWorld :=
  mkCpWorld (cwLog w) (<[n := mkNode (Some st) (length (cwLog w)) PIdle]> (cwNodes w)) (cwFlight w) (cwNext w).

Lemma run_load n st w : cwNodes w !! n = None -> load (etcd_now w) = Ok st -> rtc (cstep false) w (loaded n st w).
Proof.
  intros Hn Hl. eapply rtc_l; [exact (cs_start false w n Hn)|]. eapply rtc_l; [eapply (cs_load false _ n _ st); [simpl; apply lookup_insert_eq|exact Hl]|].
  match goal with |- rtc _ ?a ?b => assert (a = b) as ->; [|apply rtc_refl] end. unfold loaded, put_node. simpl. by rewrite insert_insert_eq.
Qed.

(** The worlds of the run. *)
Definition world_0 : cpWorld := loaded 0 emptyState start_world.
Definition world_1 : cpWorld := written 0 "op" (wrOp put_secret) plan_1 state_1 world_0.
Definition world_2 : cpWorld := written 0 "op" (wrOp put_env) plan_2 state_2 world_1.
Definition world_3 : cpWorld := loaded 1 state_2' world_2.

Lemma run_1 : rtc (cstep false) start_world world_1.
Proof.
  etrans; [apply (run_load 0 emptyState); [done|vm_compute; reflexivity]|]. fold world_0.
  apply (run_write 0 "op" (wrOp put_secret) case_env plan_1 emptyState); try (vm_compute; reflexivity). by vm_compute.
Qed.

Lemma run_3 : rtc (cstep false) start_world world_3.
Proof.
  etrans; [exact run_1|]. etrans; [|apply (run_load 1 state_2'); [done|exact state_2_loads]].
  apply (run_write 0 "op" (wrOp put_env) case_env plan_2 state_1); try (vm_compute; reflexivity). by vm_compute.
Qed.

(** ** Witnesses *)

Lemma nodes_agree_witness : stVersion state_2 = 2%Z /\ same_directory state_2 state_2'.
Proof.
  assert (cwNodes world_3 !! 0%nat = Some (node_at 0 world_3)) as H0 by (vm_compute; reflexivity).
  assert (cwNodes world_3 !! 1%nat = Some (node_at 1 world_3)) as H1 by (vm_compute; reflexivity).
  destruct (nodes_agree world_3 0 1 _ _ state_2 state_2' run_3 H0 ltac:(vm_compute; reflexivity) H1 ltac:(vm_compute; reflexivity)) as [(Hv & _) Hs].
  split; [rewrite Hv; vm_compute; reflexivity|]. apply Hs. vm_compute. reflexivity.
Defined.


Lemma answered_as_it_went_witness : exists i ops, cwLog world_1 !! i = Some (put_secret, ops) /\ Z.of_nat (S i) = 1%Z.
Proof.
  assert (cwNodes world_1 !! 0%nat = Some (node_at 0 world_1)) as H0 by (vm_compute; reflexivity).
  destruct (answered_as_it_went world_1 0 _ put_secret (Ok (Some 1%Z)) run_1 H0 ltac:(vm_compute; reflexivity)) as [_ (i & ops & pl & st & Hv & Hi & _)].
  exists i, ops. split; [exact Hi|by rewrite <- Hv].
Defined.

Lemma change_log_complete_witness : length (Changes (etcd_now world_3) 2 0 5) = 2%nat /\
  exists c, Changes (etcd_now world_3) 2 0 5 !! 0%nat = Some c /\ records (cwLog world_3) 2 c.
Proof.
  destruct (change_log_complete world_3 5 run_3) as [Hlen Hrec]. split; [etrans; [exact Hlen|vm_compute; reflexivity]|].
  destruct (Changes (etcd_now world_3) 2 0 5 !! 0%nat) as [c|] eqn:E; [exists c; split; [reflexivity|exact (Hrec 0%nat c E)]|].
  apply lookup_ge_None in E. assert (length (Changes (etcd_now world_3) 2 0 5) = 2%nat) as E2 by (vm_compute; reflexivity). lia.
Defined.

(** ** A removed secret stays *)

(** Two nodes at one version: the one that watched the secret's removal still holds it, serves it to the
    members, and seals it again when the cluster is put with a control: reference and no secret; the one
    that loaded the same version does not hold it, and refuses that write. *)
Lemma removed_secret_kept : exists w nd0 nd1 st0 st1, rtc (cstep false) start_world w /\
  cwNodes w !! 0%nat = Some nd0 /\ cwNodes w !! 1%nat = Some nd1 /\ ndState nd0 = Some st0 /\ ndState nd1 = Some st1 /\ stVersion st0 = stVersion st1 /\
  stSecrets st0 !! secretRef "a" = Some (B "s3cret") /\ stSecrets st1 !! secretRef "a" = None /\
  let o := cpStore (opPutCluster "a" (case_cluster "control:a") "") in
  (exists pl, attempt case_env "op" o st0 = Ok pl /\ as_secret (look (put_ops (etcd_now w) (plOps pl)) (KCluster "a")) = Some (B "s3cret")) /\
  attempt case_env "op" o st1 = Err CpNoSecret.
Proof.
  exists world_3, (node_at 0 world_3), (node_at 1 world_3), state_2, state_2'. split; [exact run_3|].
  do 7 (split; [vm_compute; reflexivity|]). split; [|vm_compute; reflexivity].
  exists (plan_or (attempt case_env "op" (cpStore (opPutCluster "a" (case_cluster "control:a") "")) state_2)). split; vm_compute; reflexivity.
Qed.

(** ** A change that cannot be applied is lost behind the next *)

(** A change another build wrote, with an endpoint mode this one does not know, and its successor, which
    mends the mode: a node that watches both ends at the last version without the first one's tenant,
    which a node that loads that version has. *)
Definition foreign_events : list txnOp :=
  [(key_name (KTenant "t"), Some (VTenant (mkTenant "a"))); (key_name (KCluster "b"), Some (VCluster (mkClusterRec (set_cEndpointMode "srv" (case_cluster "env:B")) [])));
   (kVersion, Some (versionText 2))].
Definition mended_events : list txnOp :=
  [(key_name (KCluster "b"), Some (VCluster (mkClusterRec (case_cluster "env:B") []))); (kVersion, Some (versionText 3))].

Lemma skipped_change_lost : exists st2 st3, Follows (kv_at log_1 1) state_1 /\ is_Ok (watched state_1 foreign_events) = false /\
  watched state_1 mended_events = Ok st2 /\ load (put_ops (put_ops (kv_at log_1 1) foreign_events) mended_events) = Ok st3 /\
  stVersion st2 = 3%Z /\ stVersion st3 = 3%Z /\ mlookup "t" (fTenants (stFile st2)) = None /\ mlookup "t" (fTenants (stFile st3)) = Some (mkTenant "a").
Proof.
  exists (state_or (watched state_1 mended_events)), (state_or (load (put_ops (put_ops (kv_at log_1 1) foreign_events) mended_events))).
  split; [|by vm_compute]. apply (watched_follows ∅ emptyState (events log_1 0 1) state_1 state_1_ok). constructor; [apply reads_empty|done|by vm_compute].
Qed.
